(* ===== verification/_CoqProject ===== *)
-Q . S2P
Prelude.v
RustStr.v
CoreModel.v
Router.v
RouterFacts.v
RouterComplete.v
RouterInv.v
RouterStep.v
RouterTheorems.v
RoutingCache.v
RoutingCacheFacts.v
Auth.v
AuthFacts.v
OutboundProxy.v
OutboundProxyFacts.v
Handshake.v
Snapshot.v
SnapshotFacts.v
UpstreamHealth.v
UpstreamHealthFacts.v
Failover.v
FailoverFacts.v
Json.v
Request.v
RequestPolicy.v
RequestFacts.v
ErrorLearning.v
ErrorLearningFacts.v
Cost.v
BuiltinTemplates.v
ControlModel.v
StoreDefs.v
Secrets.v
SecretsFacts.v
Instances.v
Credentials.v
OAuthClient.v
Store.v
StoreConfig.v
StoreSnapshot.v
Kept.v
StoreFacts.v
StorePurge.v
StoreInv.v
OAuthPool.v
OAuthVault.v
OAuthAccounts.v
OAuthInv.v
OAuthVaultFacts.v
OAuthProbeFacts.v
OAuthDedupeFacts.v
OAuthJobFacts.v
PublishFacts.v
OAuthRefreshFacts.v
OAuthClientFacts.v
OAuthTheorems.v
SqliteStore.v
SqliteFacts.v
SqlitePersist.v
PersonalSync.v
StoreTheorems.v
SqliteTheorems.v
StreamUsage.v
Billing.v
StreamForward.v
BillingFacts.v
Responses.v
BackgroundResponses.v
BackgroundFacts.v
Gateway.v
Pipeline.v
PipelineFacts.v
PipelineEnds.v
PipelineGrants.v
PipelineTheorems.v
CreditTables.v
CreditPricing.v
CreditLedger.v
CreditLedgerFacts.v
CreditTheorems.v
