(* ===== verification/Prelude.v ===== *)
(** * Codex-Pool: a verification development

    ** The program

    Codex-Pool serves one OpenAI-compatible API from a pool of upstream
    accounts. It has two services and a shared crate, all in Rust:

    - the control plane ([services/control-plane]) owns the configuration: the
      accounts, tenants, API keys, routing policies, outbound proxies and error
      templates, and publishes it as snapshots and ordered events;
    - the data plane ([services/data-plane]) serves requests. A request passes
      the API-key middleware ([auth.rs]), is given an account by the router
      ([router.rs]) with the help of sticky sessions and ejections shared through
      the routing cache ([routing_cache.rs]), goes out directly or through an
      outbound proxy ([outbound_proxy_runtime.rs]), and when the upstream fails
      the error decides between retry, failover to another account, ejection
      and counting against the client ([proxy/request_utils.rs]). The handler of
      [proxy/entry.rs] puts these together; [proxy/billing_stream.rs] holds credits
      for metered requests, forwards streams and settles what was used, and
      [proxy/responses_api.rs] stores responses and runs background ones. In the
      background [snapshot.rs] follows the control plane's configuration and
      [upstream_health.rs] exchanges health signals with it;
    - [crates/codex-pool-core] holds the types both services share.

    The development models the data plane's state and decisions, of the core
    crate the types they use, and of the control plane the in-memory store with the
    SQLite-backed one around it, the secrets it keeps, the snapshots it publishes, the
    pricing of usage and the credits of tenants. The single binary, which runs both services in one process,
    joins the two halves.

    ** Files

    - [Prelude] (this file): machine integers, [max_by] and [min_by_key] of Rust
      iterators, the state monad with its weakest precondition, results, the
      clock, generic list lemmas, and the tactic [wp_step].
    - [RustStr]: byte strings and the [str] methods the sources call.
    - [CoreModel]: types and defaults of [codex-pool-core]: accounts, routing
      plans, proxies, error templates, snapshots and events.
    - [Router]: [RoundRobinRouter] of [router.rs], every method.
      [RouterFacts] proves what a pick guarantees, [RouterComplete] when there
      is one, [RouterInv] and [RouterStep] the invariant of all reachable states,
      [RouterTheorems] states the results and evaluates scenarios of the source's
      tests.
    - [RoutingCache], [RoutingCacheFacts]: the trait of [routing_cache.rs] as the
      class [RoutingCache], its in-memory, Redis and hybrid implementations as
      instances (modules [InMemory], [Redis], [Hybrid]).
    - [Auth], [AuthFacts]: [AuthValidatorClient] of [auth/validator.rs] and the
      middlewares of [auth.rs].
    - [OutboundProxy], [OutboundProxyFacts]: [OutboundProxyRuntime];
      [Handshake]: its HTTP CONNECT and SOCKS5 clients.
    - [Snapshot], [SnapshotFacts]: snapshots, events and the polling task of
      [snapshot.rs], on the router and proxy models.
    - [UpstreamHealth], [UpstreamHealthFacts]: [AliveRingRouter] and
      [SeenOkReporter] of [upstream_health.rs].
    - [Failover], [FailoverFacts]: error classes, decisions, ejection times,
      failover and the invalid-request guard of [proxy/request_utils.rs].
    - [Json]: [serde_json::Value] and its maps.
    - [Request]: the upstream request of [proxy/request_utils.rs] (path, query,
      headers, body adapted to the Codex profile); [RequestPolicy]: what is read
      from a request, the API key's policy, error details and token usage;
      [RequestFacts]: their properties.
    - [ErrorLearning], [ErrorLearningFacts]: [proxy/error_learning.rs]: sanitised
      errors, fingerprints, localised messages and template resolution, on the
      configuration of [Snapshot] and the decisions of [Failover].
    - [Cost]: [services/control-plane/src/cost.rs].
    - [BuiltinTemplates]: the built-in error templates of [codex-pool-core];
      [ControlModel]: the records and enums of the control plane ([contracts.rs],
      [store/defs.rs], [oauth.rs], the management part of [model.rs]).
    - [StoreDefs]: settings from the environment, tests of error signals, rate-limit
      windows and the derived state of a credential ([store/defs.rs]);
      [Secrets], [SecretsFacts]: [crypto.rs] and [security.rs]; [Credentials]: the
      methods of the credential and session records; [Instances]: concrete
      instances of the parameters, for witnesses.
    - [Store]: [InMemoryStore] and every method of [store/in_memory_core.rs];
      [StoreConfig]: the configuration, template and job methods of
      [store/trait_impl.rs]; [StoreSnapshot]: families, routing plans and
      snapshots ([store/family_snapshot.rs]).
    - [Kept]: predicates that computations keep, and loops that may not end;
      [StoreFacts], [StorePurge]: what
      the methods do to an account; [StoreInv]: the operations as one type and the
      invariant; [PublishFacts]: plans and snapshots; [StoreTheorems]:
      the results.
    - [OAuthClient]: [oauth.rs], the trait of the token client as the class
      [OAuthTokenClient] and [OpenAiOAuthClient] as an instance; [OAuthPool]
      (probes, patrol, rate-limit caches and jobs), [OAuthVault] (the vault of refresh
      tokens), [OAuthAccounts] (imports, identities, refreshes, activation): every
      method of [store/oauth_ops.rs]. [OAuthInv] (with the calls as one type),
      [OAuthVaultFacts], [OAuthProbeFacts],
      [OAuthDedupeFacts], [OAuthJobFacts], [OAuthRefreshFacts], [OAuthClientFacts]:
      what they do; [OAuthTheorems]: the results.
    - [SqliteStore], [SqliteFacts]: [SqliteBackedStore]; [SqlitePersist]: the
      interleavings of its concurrent calls as a step relation; [PersonalSync]: the
      sync task of [single_binary.rs] on the models of the store and of
      [Snapshot]; [SqliteTheorems]: the results.
    - [StreamUsage]: the usage tracker and the prelude of streams; [Billing]: holds,
      reserves, captures and releases of the data plane, with [f64] arithmetic;
      [StreamForward]: the stream to the client and the task that settles it (all of
      [proxy/billing_stream.rs]); [BillingFacts]: what a call does to the holds.
    - [Responses]: rate-limit headers and bodies of responses ([ws_utils.rs],
      [request_utils.rs]); [BackgroundResponses], [BackgroundFacts]: the store of
      responses, conversations and cursors, and the workers of background responses.
    - [Gateway]: the state of the data plane as one record, whose fields are the states
      of the components, and the tasks it spawns; [Pipeline]: [proxy_handler] of
      [entry.rs] with its two nested loops, one definition per branch.
      [PipelineFacts] (what each turn does to the holds), [PipelineEnds] (what makes the
      loops end), [PipelineGrants] (a request upstream needs a granted hold),
      [PipelineTheorems]: the results, and runs in a small world.
    - [CreditTables]: rows and tables of credits and prices and the database behind
      them; [CreditPricing]: [tenant/billing_core.rs] and the price of a request;
      [CreditLedger]: [tenant/billing_reconcile.rs] and the methods that grant credits;
      [CreditLedgerFacts]: the abstract ledger and that the methods refine it;
      [CreditTheorems]: the results, and runs.

    ** How code becomes definitions

    A struct is a record with one field per piece of state, whether the source
    keeps it behind a lock or in an atomic; a method is a computation
    [ST (Timed S) A], a function of the state and of the number of times the
    clock has been read, with the statements of the method in their order. [wp]
    gives its postconditions. [Result] is [result], with [x ←? m ; k] for the
    [?] operator; [Option] is [option]. Integers are [Z] (a [usize] that is a
    length is a [nat]) with wrap-around, saturation and clamping written out;
    [Uuid] is the 128-bit number of the identifier; a [HashMap] is a [gmap].

    Outside the model, and so parameters:
    - [Clock]: readings of [Instant::now], which never decrease; each reading is
      a new tick, so the time between two statements is arbitrary;
    - [HashOrder]: the iteration order of a [HashMap], any permutation of it;
    - [RedisServer] with [RedisLaws], and [RingServer]: the Redis server;
    - [UuidText]: printing and parsing of UUIDs, inverse to each other;
    - [ValidateApi]: the validation endpoint; [TokenHash]: [DefaultHasher];
    - [HttpClientBuilder]: which proxy URLs and clients [reqwest] accepts;
    - [ControlPlane]: the HTTP answers to the poller; [ResolveApi]: the answers to
      requests for error templates; [parse_ip]: [IpAddr::parse];
    - the libraries [SerdeJson] (text of JSON), [ZstdDecoder], [UrlLibrary],
      [FormUrlencoded], [WebSocketLibrary], [RegexLibrary], [Utf8], [Rfc2822];
    - [WallClock]: readings of [Utc::now], in nanoseconds, which may go back;
      [UuidSource]: [Uuid::new_v4]; [IdOrder]: the order of a [HashMap] by UUID;
      [Environment]: the environment variables; [UrlFragment];
    - [Base64], [Aes256Gcm], [NonceSource], [Digests]: the cryptographic libraries;
      [StateCodec]: [serde_json] on the state of the store; [SqliteDatabase]: which
      statements succeed;
    - [OAuthTokenClient]: the provider's answers to the store, the n-th call asking for
      the n-th answer, for which the client of [oauth.rs] is an instance; under it
      [OutboundHttp] (the HTTP library and the proxy in front of it),
      [OAuthDecoders], [UrlSafeBase64], [Chrono], [UrlParts]; [CompletionOrder]: the
      order in which the tasks of a batch complete;
    - of the request pipeline: [UpstreamApi] (the answers of the accounts),
      [BillingApi] with [BillingDecoders] (the billing endpoints), [SelfApi] (the
      request a background worker sends to its own process), [RecoveryApi] (the calls
      after a failover), [RouteUpdates] (what other tasks do to the router meanwhile),
      [StreamEnds] (when clients leave), [NumberText] (numbers in headers). That every
      request is answered assumes of them that the updates leave each account in the
      pool once ([DistinctUpdates]) and that the stores behind the cache and the ring
      do not turn back the clock ([CacheTakesTime], [RingTakesTime]);
    - [PostgresServer]: which statements of the credit methods fail, which commits are
      made, refused, or made without an answer, which rows are locked by others;
      [DateTimeText]: times as text.

    Every theorem holds for all of them; hypotheses about them are named in the
    statements, and each has a witness with concrete instances.

    Methods run one after the other: the locks are not poisoned and a method is
    a step. The router, cache and guard hold a lock for each access, so a method
    that interleaves with another between two accesses is not covered, except for
    the persistence of the SQLite-backed store, whose interleavings are modelled, and
    of the request handler, between whose steps [RouteUpdates] changes the router and
    whose spawned tasks run at any later time. Transactions on credits are serial: each
    locks the row of the account before it reads the balance.

    ** What the theorems show

    - Router: a picked account is in the pool, enabled, not excluded, not ejected
      and allowed by the routing policy of the model; if there is such an account
      one is picked; a session stays on its account while it is usable; the
      rotation gives every account a turn; the sticky table stays within its
      capacity and evicts the least recently used entry; tables only mention
      accounts of the pool, in every reachable state.
    - Routing cache: the contract is a pair of maps with expiry times; the
      in-memory cache refines it, the hybrid cache does too while Redis is down,
      and two instances with a working Redis see each other's sessions.
    - Authentication: a principal is returned only if the validation API granted
      it to that token, for tokens without a hash collision; the middleware
      forwards a request only on the grounds the configuration allows.
    - Proxies: a strict pool never connects directly; a node's share of the
      connections is its weight; the CONNECT verdict does not depend on how the
      response is cut into packets; a SOCKS5 server decodes the written request
      to the target.
    - Configuration sync: the contract is a plain configuration value and the
      effect of an event on it; the data plane refines it, batches do not matter,
      replicas converge, and the position never goes back.
    - Health signals: reports keep the minimum interval; the alive ring visits
      every account.
    - Failover: decisions are coherent; ejection times are within their bounds;
      the guard blocks a client exactly when its failures reach the threshold.
    - Requests: upstream sees the account's credentials and never the client's;
      the path stays below the account's base path; the adaptation of a body is
      idempotent and touches only its fields; the policy admits exactly the
      requests its limits allow; usage is found where it is and within range.
    - Error learning: the sanitised error does not depend on the client's content
      and is bounded; the control plane is asked only about unknown errors; the
      message of an approved template reaches the client.
    - Cost: within 64 bits, and within 1.5 millionths of a dollar of the exact one.
    - Store: the tables agree with each other in every reachable state; a live
      result drives an account through the automaton of [live_outcome], and
      invalidated tokens escalate; a purge removes exactly what is due; a call that
      fails changes nothing, a change of configuration moves the revision; a created
      key validates; a compiled plan routes each model as the reference does; a
      snapshot is the store, with tokens that were decrypted from their own records.
    - OAuth: the tables agree under these calls too; a probe and a refresh follow
      the provider's reply, an outage takes no account out of the pool and a refresh
      token is sent to its issuer only; of each identity the newest account remains;
      each record of the vault is eventually found by a job, and gives the request
      it was queued with; the job that refreshes rate limits visits each account once.
    - Persistence: in every interleaving the writes of a call that returned are in
      the database, and opening the database again gives the store back. The sync
      task of the single binary makes the data plane's configuration the store's.
    - Secrets: decryption undoes encryption; accepted keys are strong.
    - Request pipeline: the handler ends with a response for every request; what is
      held for a request is owed by the handler or by one task, which releases it; a
      metered request goes upstream only under a hold that was granted.
    - Streams and stored responses: usage does not depend on how a stream is cut into
      chunks; a stored response is seen and changed only by the key that stored it.
    - Credits: the methods refine an abstract ledger of holds, captures, releases and
      grants, for every failure of the server; so the balance of a tenant is what was
      granted less what is held or spent, is the sum of its ledger and is not negative,
      and an authorization only moves forward.
    - More theorems state behaviour the source does not mean to have: a restart can
      reuse a published revision ([restart_reuses_revision]), states of removed
      accounts can block the purge ([orphans_block_purge]), a stored hash is accepted
      as a token ([stored_hash_matches_itself]), the refresh of expiring accounts may
      not end ([refresh_expiring_may_not_end]), an upsert does not save an account from
      its purge ([upsert_does_not_save_account]), some failed records are retried for
      ever, and a refresh drops the fallback token; the failover deadline has no effect,
      a colliding token is granted another's principal, and a long error body can end
      the polling task; a truncated stream counts as a success, usage that was held back
      is lost when the client leaves, and a conversation that starts in a session is
      refused (module [PipelineTheorems]); background responses are marked failed or
      stay in progress ([BackgroundFacts.Runs]); the request log never settles an
      authorization, an overdrawn request is free, and a rule that is not reached sets
      the price ([CreditTheorems]).

    ** Bounds

    Loops that are not structural take fuel. [evict_oldest] has the size of the
    table, and removes an entry per turn ([evict_oldest_size]);
    [round_robin_scan] makes one turn per account, as the source does;
    [read_response] has one more turn than the size limit and reads at least a
    byte per turn ([http_connect_read_bounded]); [format_radix] has the digits a
    64-bit (16) or 128-bit (39) number can need; [sanitize_value] recurses on the
    levels left of the source's depth limit of six. [pick_for_model_complete] and
    [round_robin_is_fair] assume that the 64-bit rotation counter does not wrap
    during the calls they speak about. The loops of the OAuth jobs ([Loops]) return
    [None] when their fuel is spent: the refresh job needs one turn more than there
    are accounts; the loop over expiring accounts may need more than any number. In the
    pipeline, [drain_lines] and [drain_frames] have the length of their buffer, the
    captures are tried as often as the source allows, and the loop over attempts on one
    account has one turn more than the retries, which is shown to be enough; for the loop
    over accounts [every_request_is_answered] shows that there is a fuel that is enough.
    The loops of the credit methods are structural.

    ** Not modelled

    Of the data plane the WebSocket sessions ([ws_utils.rs]), the account test handler
    of [entry.rs], the API translators, system events and log lines of the handlers, the
    pacing of requests per account, metrics and debug pages. Of the control plane the
    account listings, the OAuth methods of the SQLite-backed store, the PostgreSQL
    store, the administration of users, keys, prices and groups, import jobs, the usage
    worker, admin sessions and the HTTP handlers: statements of databases and rendering
    of requests around the parts that are modelled. Generations and the announced
    revision of [SqlitePersist] are unbounded; in [SqliteStore] they are 64-bit and
    the theorems assume that they do not wrap. The text of driver errors of the database
    is not modelled. *)
From Stdlib Require Export ZArith Lia.
From stdpp Require Export gmap strings list sorting numbers.

#[global] Set Default Goal Selector "!".

#[global] Open Scope Z_scope.

(** ** Machine integers

    Unsigned and signed integers are [Z] with the wrap-around or saturation of
    the Rust operation written out at each use. *)

Definition u64_modulus : Z := 2 ^ 64.
Definition u64_max : Z := 2 ^ 64 - 1.
Definition u64_wrap (z : Z) : Z := z `mod` u64_modulus.
Definition i64_min : Z := - 2 ^ 63.
Definition i64_max : Z := 2 ^ 63 - 1.
Definition i128_min : Z := - 2 ^ 127.
Definition i128_max : Z := 2 ^ 127 - 1.

(** [Ord::clamp] and the saturating operations of the integer types. *)
Definition clamp (lo hi z : Z) : Z := if z <? lo then lo else if hi <? z then hi else z.
Definition u64_saturating_add (a b : Z) : Z := clamp 0 u64_max (a + b).
Definition i64_saturating_add (a b : Z) : Z := clamp i64_min i64_max (a + b).
Definition i64_saturating_sub (a b : Z) : Z := clamp i64_min i64_max (a - b).
Definition i128_saturating_add (a b : Z) : Z := clamp i128_min i128_max (a + b).
Definition i128_saturating_mul (a b : Z) : Z := clamp i128_min i128_max (a * b).

Definition is_u64 (z : Z) : Prop := 0 <= z < u64_modulus.
Definition is_i64 (z : Z) : Prop := i64_min <= z <= i64_max.

Lemma u64_wrap_bounds z : is_u64 (u64_wrap z).
Proof. unfold is_u64, u64_wrap. apply Z.mod_pos_bound. reflexivity. Qed.

Lemma u64_wrap_small z : is_u64 z → u64_wrap z = z.
Proof. unfold is_u64, u64_wrap. intros. by apply Z.mod_small. Qed.

Lemma u64_wrap_add_l a b : u64_wrap (u64_wrap a + b) = u64_wrap (a + b).
Proof. unfold u64_wrap. by rewrite Zplus_mod_idemp_l. Qed.

Lemma u64_wrap_add_r a b : u64_wrap (a + u64_wrap b) = u64_wrap (a + b).
Proof. unfold u64_wrap. by rewrite Zplus_mod_idemp_r. Qed.

Lemma clamp_bounds lo hi z : lo <= hi → lo <= clamp lo hi z <= hi.
Proof. unfold clamp. intros. destruct (Z.ltb_spec z lo), (Z.ltb_spec hi z); lia. Qed.

Lemma clamp_id lo hi z : lo <= z <= hi → clamp lo hi z = z.
Proof. unfold clamp. intros. destruct (Z.ltb_spec z lo), (Z.ltb_spec hi z); lia. Qed.

Lemma clamp_mono lo hi a b : lo <= hi → a <= b → clamp lo hi a <= clamp lo hi b.
Proof.
  unfold clamp. intros.
  destruct (Z.ltb_spec a lo), (Z.ltb_spec hi a), (Z.ltb_spec b lo), (Z.ltb_spec hi b); lia.
Qed.

(** ** Orderings: [Ordering::then_with], [Iterator::max_by], [Iterator::min_by_key] *)

Definition then_with (c d : comparison) : comparison :=
  match c with Eq => d | _ => c end.

(** [Option]'s derived order: [None] is smaller than every [Some]. *)
Definition option_compare {A} (cmp : A → A → comparison) (x y : option A) : comparison :=
  match x, y with
  | None, None => Eq
  | None, Some _ => Lt
  | Some _, None => Gt
  | Some a, Some b => cmp a b
  end.

(** [max_by] keeps the later of two elements that compare equal, [min_by_key]
    the earlier. *)
Definition max_by_step {A} (cmp : A → A → comparison) (acc : option A) (x : A) : option A :=
  match acc with
  | None => Some x
  | Some y => match cmp y x with Gt => Some y | _ => Some x end
  end.

Definition max_by {A} (cmp : A → A → comparison) (l : list A) : option A :=
  fold_left (max_by_step cmp) l None.

Definition min_by_key_step {A} (key : A → Z) (acc : option A) (x : A) : option A :=
  match acc with
  | None => Some x
  | Some y => if key x <? key y then Some x else Some y
  end.

Definition min_by_key {A} (key : A → Z) (l : list A) : option A :=
  fold_left (min_by_key_step key) l None.

(** [slice::sort_by], a stable sort, and [Vec::dedup]. *)
Definition cmp_le {A} (cmp : A → A → comparison) (x y : A) : Prop := cmp x y ≠ Gt.
#[global] Instance cmp_le_dec {A} (cmp : A → A → comparison) : RelDecision (cmp_le cmp).
Proof. intros x y. unfold cmp_le, Decision. destruct (cmp x y); [left|left|right]; auto. Defined.
Definition sort_by {A} (cmp : A → A → comparison) (l : list A) : list A :=
  merge_sort (cmp_le cmp) l.

Fixpoint dedup {A} `{EqDecision A} (l : list A) : list A :=
  match l with
  | x :: ((y :: _) as l') => if decide (x = y) then dedup l' else x :: dedup l'
  | _ => l
  end.

Lemma sort_by_perm {A} (cmp : A → A → comparison) l : sort_by cmp l ≡ₚ l.
Proof. apply merge_sort_Permutation. Qed.

Lemma elem_of_sort_by {A} (cmp : A → A → comparison) l x : x ∈ sort_by cmp l ↔ x ∈ l.
Proof. by rewrite sort_by_perm. Qed.

Lemma sort_by_sorted {A} (cmp : A → A → comparison) l :
  (∀ a b, cmp a b ≠ Gt ∨ cmp b a ≠ Gt) →
  (∀ a b c, cmp a b ≠ Gt → cmp b c ≠ Gt → cmp a c ≠ Gt) →
  StronglySorted (cmp_le cmp) (sort_by cmp l).
Proof.
  intros Htot Htrans. apply Sorted_StronglySorted.
  - intros a b c. apply Htrans.
  - apply Sorted_merge_sort. intros a b. apply Htot.
Qed.

Lemma elem_of_dedup {A} `{EqDecision A} (l : list A) x : x ∈ dedup l ↔ x ∈ l.
Proof.
  induction l as [|y [|z l] IH]; [done|done|]. cbn [dedup] in *.
  destruct (decide (y = z)) as [->|].
  - rewrite IH. set_solver.
  - rewrite !elem_of_cons in *. rewrite IH. set_solver.
Qed.

(** Removing neighbours that are equal from a sorted list leaves no duplicates. *)
Lemma NoDup_dedup {A} `{EqDecision A} (R : A → A → Prop) (l : list A) :
  (∀ a b, R a b → R b a → a = b) → StronglySorted R l → NoDup (dedup l).
Proof.
  intros Hanti. induction l as [|y [|z l] IH]; intros Hs.
  - constructor.
  - apply NoDup_singleton.
  - apply StronglySorted_inv in Hs as [Hs Hall]. cbn [dedup].
    destruct (decide (y = z)) as [->|Hne]; [by apply IH|].
    change (NoDup (y :: dedup (z :: l))). constructor; [|by apply IH].
    rewrite elem_of_dedup.
    intros Hin. apply elem_of_cons in Hin as [?|Hin]; [done|].
    apply Hne. apply StronglySorted_inv in Hs as [_ Hz].
    inversion Hall as [|? ? Hyz Hy]; subst.
    rewrite list.Forall_forall in Hz. apply Hanti; [done|by apply Hz].
Qed.

Section extrema.
Context {A : Type}.
Implicit Types (l : list A) (acc : option A).

Lemma max_by_fold_elem cmp l acc x :
  fold_left (max_by_step cmp) l acc = Some x → acc = Some x ∨ x ∈ l.
Proof.
  revert acc. induction l as [|y l IH]; intros acc; simpl; [by left|].
  intros [Hstep|Hin]%IH; [|by right; apply elem_of_cons; right].
  destruct acc as [z|]; simpl in Hstep.
  - destruct (cmp z y); simplify_eq; eauto using list_elem_of_here.
  - simplify_eq. right. apply list_elem_of_here.
Qed.

Lemma max_by_elem cmp l x : max_by cmp l = Some x → x ∈ l.
Proof. intros [?|?]%max_by_fold_elem; [done|done]. Qed.

Lemma max_by_fold_is_Some cmp l acc :
  is_Some acc → is_Some (fold_left (max_by_step cmp) l acc).
Proof.
  revert acc. induction l as [|y l IH]; intros acc [z ->]; simpl; [by eexists|].
  apply IH. simpl. destruct (cmp z y); by eexists.
Qed.

Lemma max_by_None cmp l : max_by cmp l = None → l = [].
Proof.
  destruct l as [|y l]; [done|]. unfold max_by; simpl. intros Hn.
  destruct (max_by_fold_is_Some cmp l (Some y)) as [? Hs]; [by eexists|].
  congruence.
Qed.

(** With a comparison induced by a total preorder, the result of [max_by] is
    above every element. *)
Lemma max_by_fold_max cmp l acc x :
  (∀ a b, cmp a b ≠ Gt ∨ cmp b a ≠ Gt) →
  (∀ a b c, cmp a b ≠ Gt → cmp b c ≠ Gt → cmp a c ≠ Gt) →
  fold_left (max_by_step cmp) l acc = Some x →
  (∀ a, acc = Some a → cmp a x ≠ Gt) ∧ ∀ y, y ∈ l → cmp y x ≠ Gt.
Proof.
  intros Htot Htrans. revert acc.
  induction l as [|y l IH]; intros acc; simpl.
  { intros ->. split; [|by intros ? ?%not_elem_of_nil].
    intros a [= ->]. destruct (Htot a a); done. }
  intros Hf. destruct (IH _ Hf) as [Hacc Hall].
  assert (Hy : cmp y x ≠ Gt ∧ ∀ a, acc = Some a → cmp a x ≠ Gt).
  { destruct acc as [z|]; simpl in Hacc.
    - destruct (cmp z y) eqn:Hzy.
      all: split; [|intros a [= ->]]; eauto.
      + apply (Htrans _ y); [congruence|eauto].
      + apply (Htrans _ y); [congruence|eauto].
      + apply (Htrans _ z); [|eauto]. destruct (Htot z y); congruence.
    - split; [eauto|done]. }
  destruct Hy as [Hy Ha]. split; [done|].
  intros w [->|?]%elem_of_cons; eauto.
Qed.

Lemma min_by_key_fold_spec (key : A → Z) l acc x :
  fold_left (min_by_key_step key) l acc = Some x →
  (acc = Some x ∨ x ∈ l) ∧
  (∀ a, acc = Some a → key x <= key a) ∧ ∀ y, y ∈ l → key x <= key y.
Proof.
  revert acc. induction l as [|y l IH]; intros acc; simpl.
  { intros ->. split_and!; [by left| |by intros ? ?%not_elem_of_nil].
    intros a [= ->]. lia. }
  intros (Hin & Hacc & Hall)%IH.
  destruct acc as [z|]; simpl in *.
  - destruct (Z.ltb_spec (key y) (key z)).
    + pose proof (Hacc y eq_refl). split_and!.
      * right. destruct Hin as [[= ->]|?]; set_solver.
      * intros a [= ->]. lia.
      * intros w [->|?]%elem_of_cons; [done|eauto].
    + pose proof (Hacc z eq_refl). split_and!.
      * destruct Hin as [?|?]; [by left|right; set_solver].
      * intros a [= ->]. lia.
      * intros w [->|?]%elem_of_cons; [lia|eauto].
  - split_and!.
    + right. destruct Hin as [[= ->]|?]; set_solver.
    + done.
    + intros w [->|?]%elem_of_cons; eauto.
Qed.

Lemma min_by_key_spec (key : A → Z) l x :
  min_by_key key l = Some x → x ∈ l ∧ ∀ y, y ∈ l → key x <= key y.
Proof. intros ([?|?] & _ & ?)%min_by_key_fold_spec; done. Qed.

Lemma min_by_key_None (key : A → Z) l : min_by_key key l = None → l = [].
Proof.
  assert (Hs : ∀ l acc, is_Some acc → is_Some (fold_left (min_by_key_step key) l acc)).
  { clear l. induction l as [|y l IH]; intros acc [z ->]; simpl; [by eexists|].
    apply IH. simpl. destruct (_ <? _); by eexists. }
  destruct l as [|y l]; [done|]. unfold min_by_key; simpl. intros Hn.
  destruct (Hs l (Some y)) as [? ?]; [by eexists|]. congruence.
Qed.
End extrema.

(** ** The state monad of the development

    A method that takes [&self] and updates fields behind locks and atomics is a
    function from the state before to its result and the state after. *)

Definition ST (S A : Type) : Type := S → A * S.

#[global] Instance st_ret S : MRet (ST S) := λ A a s, (a, s).
#[global] Instance st_bind S : MBind (ST S) := λ A B k m s, let '(a, s') := m s in k a s'.

(** [wp m Q s]: running [m] from [s] ends with a result and a state that
    satisfy [Q]. *)
Definition wp {S A} (m : ST S A) (Q : A → S → Prop) (s : S) : Prop :=
  Q (m s).1 (m s).2.

Section wp_rules.
Context {S A B : Type}.
Implicit Types (m : ST S A) (s : S).

Lemma wp_ret (a : A) (Q : A → S → Prop) s : Q a s → wp (mret a) Q s.
Proof. done. Qed.

Lemma wp_bind m (k : A → ST S B) Q s :
  wp m (λ a s', wp (k a) Q s') s → wp (m ≫= k) Q s.
Proof. unfold wp, mbind, st_bind. by destruct (m s). Qed.

Lemma wp_mono m (P Q : A → S → Prop) s :
  wp m P s → (∀ a s', P a s' → Q a s') → wp m Q s.
Proof. unfold wp. eauto. Qed.

Lemma wp_and m (P Q : A → S → Prop) s :
  wp m P s → wp m Q s → wp m (λ a s', P a s' ∧ Q a s') s.
Proof. unfold wp. eauto. Qed.

Lemma wp_run m Q s a s' : wp m Q s → m s = (a, s') → Q a s'.
Proof. unfold wp. intros HQ Hm. by rewrite Hm in HQ. Qed.

Lemma wp_intro m (Q : A → S → Prop) s : (∀ a s', m s = (a, s') → Q a s') → wp m Q s.
Proof. unfold wp. intros HQ. apply HQ. by destruct (m s). Qed.

Lemma bind_run m (k : A → ST S B) s a s' : m s = (a, s') → (m ≫= k) s = k a s'.
Proof. unfold mbind, st_bind. by intros ->. Qed.
End wp_rules.

(** ** Results

    [Result<A, E>] and the [?] operator inside a stateful method. *)
Inductive result (A E : Type) := Ok (a : A) | Err (e : E).
Arguments Ok {_ _} _.
Arguments Err {_ _} _.

Definition try_bind {S A B E} (m : ST S (result A E)) (k : A → ST S (result B E)) :
    ST S (result B E) :=
  r ← m; match r with Ok a => k a | Err e => mret (Err e) end.

Notation "x ←? m ; k" := (try_bind m (λ x, k))
  (at level 20, m at level 100, k at level 200, only parsing) : stdpp_scope.

(** [with_context]: replace the error by a described one. *)
Definition with_context {S A E E'} (e : E') (m : ST S (result A E)) : ST S (result A E') :=
  r ← m; mret match r with Ok a => Ok a | Err _ => Err e end.

Definition is_ok {A E} (r : result A E) : bool := match r with Ok _ => true | Err _ => false end.
Definition is_err {A E} (r : result A E) : bool := negb (is_ok r).

#[global] Instance result_eq_dec {A E} `{EqDecision A, EqDecision E} : EqDecision (result A E).
Proof. solve_decision. Defined.

Lemma wp_try_bind {S A B E} (m : ST S (result A E)) (k : A → ST S (result B E)) Q s :
  wp m (λ r s', match r with Ok a => wp (k a) Q s' | Err e => Q (Err e) s' end) s →
  wp (try_bind m k) Q s.
Proof. unfold wp, try_bind, mbind, st_bind. destruct (m s) as [[] ?]; done. Qed.

Lemma wp_with_context {S A E E'} (e : E') (m : ST S (result A E)) Q s :
  wp m (λ r s', Q match r with Ok a => Ok a | Err _ => Err e end s') s →
  wp (with_context e m) Q s.
Proof. intros ?. apply wp_bind. eapply wp_mono; [done|]. done. Qed.

(** ** Time

    [Instant::now()] reads a monotonic clock. The model numbers the clock reads
    of a run: read [n] returns [clock n], and a later read never returns an
    earlier instant. Nothing else is assumed, so the time that passes between
    two reads of one operation is arbitrary. *)
Class Clock := {
  clock : nat → Z;
  clock_mono : ∀ i j, (i ≤ j)%nat → clock i <= clock j;
}.

(** [Instant] and [Duration] in nanoseconds. *)
Abbreviation Instant := Z (only parsing).
Abbreviation Duration := Z (only parsing).
Definition from_secs (n : Z) : Duration := n * 1000000000.
Definition from_millis (n : Z) : Duration := n * 1000000.
Definition as_secs (d : Duration) : Z := d `div` 1000000000.

(** The state of a component together with the number of clock reads so far. *)
Record Timed (S : Type) := mkTimed { st : S; ticks : nat }.
Arguments mkTimed {_} _ _.
Arguments st {_} _.
Arguments ticks {_} _.

(** The latest instant the run has seen: the value of the next read is at least this. *)
Definition time {S} `{Clock} (w : Timed S) : Z := clock (ticks w).

Definition gets {S A} (f : S → A) : ST (Timed S) A := λ w, (f (st w), w).
Definition modify {S} (f : S → S) : ST (Timed S) unit :=
  λ w, (tt, mkTimed (f (st w)) (ticks w)).
Definition now {S} `{Clock} : ST (Timed S) Z :=
  λ w, (clock (ticks w), mkTimed (st w) (Datatypes.S (ticks w))).

(** Run an operation of a component inside a larger state. *)
Definition zoom {S T A} (get : S → T) (put : T → S → S) (m : ST (Timed T) A) :
    ST (Timed S) A :=
  λ w, let '(a, w') := m (mkTimed (get (st w)) (ticks w)) in
       (a, mkTimed (put (st w') (st w)) (ticks w')).

Section timed_rules.
Context {S : Type} `{Clock}.
Implicit Types (w : Timed S).

Lemma wp_gets {A} (f : S → A) (Q : A → Timed S → Prop) w : Q (f (st w)) w → wp (gets f) Q w.
Proof. done. Qed.

Lemma wp_modify (f : S → S) (Q : unit → Timed S → Prop) w :
  Q tt (mkTimed (f (st w)) (ticks w)) → wp (modify f) Q w.
Proof. done. Qed.

Lemma wp_now (Q : Z → Timed S → Prop) w :
  Q (clock (ticks w)) (mkTimed (st w) (Datatypes.S (ticks w))) → wp now Q w.
Proof. done. Qed.

Lemma wp_zoom {T A} (get : S → T) (put : T → S → S) (m : ST (Timed T) A) Q w :
  wp m (λ a (w' : Timed T), Q a (mkTimed (put (st w') (st w)) (ticks w'))) (mkTimed (get (st w)) (ticks w)) →
  wp (zoom get put m) Q w.
Proof. unfold wp, zoom. by destruct (m _). Qed.
End timed_rules.

Lemma time_mono {S T} `{Clock} (w : Timed S) (w' : Timed T) :
  (ticks w ≤ ticks w')%nat → time w <= time w'.
Proof. apply clock_mono. Qed.

(** Loops over a list with effects: [iter().filter(..)] and a [for] loop that
    may return early. *)
Fixpoint mfilter {S A} (p : A → ST S bool) (l : list A) : ST S (list A) :=
  match l with
  | [] => mret []
  | x :: l =>
      b ← p x;
      l' ← mfilter p l;
      mret (if b : bool then x :: l' else l')
  end.

Fixpoint find_mapM {S A B} (f : A → ST S (option B)) (l : list A) : ST S (option B) :=
  match l with
  | [] => mret None
  | x :: l =>
      r ← f x;
      match r with
      | Some b => mret (Some b)
      | None => find_mapM f l
      end
  end.

Section loops.
Context {S A B : Type}.

(** Loop rule for [mfilter]: an invariant [I] on the state kept by every test,
    and a property [P] of each kept element that later tests do not destroy. *)
Lemma wp_mfilter (p : A → ST S bool) (I : S → Prop) (R : S → S → Prop)
    (P : A → S → Prop) l s :
  (∀ s, R s s) → (∀ s1 s2 s3, R s1 s2 → R s2 s3 → R s1 s3) →
  (∀ x s s', P x s → R s s' → P x s') →
  (∀ x s, x ∈ l → I s → wp (p x) (λ b s', I s' ∧ R s s' ∧ (b = true → P x s')) s) →
  I s →
  wp (mfilter p l) (λ l' s', I s' ∧ R s s' ∧ ∀ x, x ∈ l' → x ∈ l ∧ P x s') s.
Proof.
  intros Rrefl Rtrans HP. revert s. induction l as [|x l IH]; intros s Hp HI; simpl.
  { apply wp_ret. split_and!; [done|done|by intros ? ?%not_elem_of_nil]. }
  apply wp_bind. eapply wp_mono; [apply Hp; [left|done]|].
  intros b s1 (HI1 & HR1 & Hb). apply wp_bind. eapply wp_mono.
  { apply IH; [|done]. intros; apply Hp; [by right|done]. }
  simpl. intros l' s2 (HI2 & HR2 & Hl'). apply wp_ret.
  split_and!; [done|by eapply Rtrans|].
  intros y Hy. assert (y ∈ l' ∨ (y = x ∧ b = true)) as [?|[-> ->]].
  { destruct b; [|by left]. apply elem_of_cons in Hy as [?|?]; auto. }
  - destruct (Hl' y) as [? ?]; [done|]. split; [by right|done].
  - split; [by left|eauto].
Qed.
End loops.

(** ** Rotation

    Reading a list at [c mod n], [c + 1 mod n], .. for one turn rotates it. *)

(** Run a computation [n] times and collect the results. *)
Fixpoint repeatM {S A} (n : nat) (m : ST S A) : ST S (list A) :=
  match n with
  | O => mret []
  | Datatypes.S n => a ← m; l ← repeatM n m; mret (a :: l)
  end.

Lemma lookup_mod_is_Some {A} (l : list A) (c : Z) :
  l ≠ [] → is_Some (l !! Z.to_nat (c `mod` Z.of_nat (length l))).
Proof.
  intros Hl. apply lookup_lt_is_Some.
  destruct l as [|x l]; [done|]. pose proof (Z.mod_pos_bound c (Z.of_nat (length (x :: l)))).
  simpl length in *. lia.
Qed.

Lemma rotate_intro {A} (l : list A) (r : list (option A)) (c : nat) :
  length r = length l →
  (∀ i : nat, (i < length l)%nat →
     r !! i = Some (l !! Z.to_nat ((Z.of_nat c + Z.of_nat i) `mod` Z.of_nat (length l)))) →
  r = Some <$> rotate c l.
Proof.
  intros Hlen Hr. apply list_eq. intros i. rewrite list_lookup_fmap.
  destruct (decide (i < length l)%nat) as [Hi|Hi].
  - rewrite Hr by done. rewrite lookup_rotate_r by done. unfold rotate_nat_add.
    destruct (lookup_mod_is_Some l (Z.of_nat c + Z.of_nat i)) as [a Ha].
    { intros ->. simpl in Hi. lia. }
    by rewrite Ha.
  - rewrite !lookup_ge_None_2; [done|rewrite length_rotate; lia|lia].
Qed.

Lemma rotate_Permutation {A} (c : nat) (l : list A) : rotate c l ≡ₚ l.
Proof. unfold rotate. rewrite Permutation_app_comm. by rewrite take_drop. Qed.

(** ** Hash maps

    A [HashMap] is a [gmap]. Where the code iterates over one and the result may
    depend on the order, the order is a parameter of which only this is known:
    it visits every entry once. *)
Class HashOrder := {
  hash_iter : ∀ {V : Type}, gmap string V → list (string * V);
  hash_iter_perm : ∀ (V : Type) (m : gmap string V), hash_iter m ≡ₚ map_to_list m;
}.

Lemma elem_of_hash_iter `{HashOrder} {V} (m : gmap string V) k v :
  (k, v) ∈ hash_iter m ↔ m !! k = Some v.
Proof. by rewrite hash_iter_perm, elem_of_map_to_list. Qed.

(** The same for a [HashMap<Uuid, V>]; [id_values] is its [values()]. *)
Class IdOrder := {
  id_iter : ∀ {V : Type}, gmap N V → list (N * V);
  id_iter_perm : ∀ (V : Type) (m : gmap N V), id_iter m ≡ₚ map_to_list m;
}.
Definition id_values `{IdOrder} {V} (m : gmap N V) : list V := (id_iter m).*2.
Definition id_keys `{IdOrder} {V} (m : gmap N V) : list N := (id_iter m).*1.

Section id_order.
Context `{IdOrder} {V : Type}.
Implicit Types m : gmap N V.

Lemma elem_of_id_iter m k v : (k, v) ∈ id_iter m ↔ m !! k = Some v.
Proof. by rewrite id_iter_perm, elem_of_map_to_list. Qed.

Lemma elem_of_id_values m v : v ∈ id_values m ↔ ∃ k, m !! k = Some v.
Proof.
  unfold id_values. rewrite list_elem_of_fmap. split.
  - intros [[k w] [-> Hin]]. exists k. by apply elem_of_id_iter.
  - intros [k Hk]. exists (k, v). split; [done|]. by apply elem_of_id_iter.
Qed.

Lemma elem_of_id_keys m k : k ∈ id_keys m ↔ is_Some (m !! k).
Proof.
  unfold id_keys. rewrite list_elem_of_fmap. split.
  - intros [[j w] [-> Hin]]. exists w. by apply elem_of_id_iter.
  - intros [v Hk]. exists (k, v). split; [done|]. by apply elem_of_id_iter.
Qed.

Lemma NoDup_id_keys m : NoDup (id_keys m).
Proof. unfold id_keys. rewrite id_iter_perm. apply NoDup_fst_map_to_list. Qed.

(** The values of a table keyed by a field of the value have distinct keys. *)
Lemma NoDup_id_values m (key : V → N) :
  (∀ k v, m !! k = Some v → key v = k) → NoDup (key <$> id_values m).
Proof.
  intros Hkey. unfold id_values. rewrite <- list_fmap_compose.
  rewrite (list_fmap_ext _ fst); [apply NoDup_id_keys|].
  intros i [k v] Hin. simpl. apply Hkey, elem_of_id_iter.
  by apply list_elem_of_lookup_2 in Hin.
Qed.
End id_order.

(** ** Wall clock and fresh identifiers

    [Utc::now()] may go back, so nothing is known of its readings. [Uuid::new_v4]
    draws a random identifier; that two draws differ is a hypothesis where it is
    used. Both consume a tick, which numbers the readings of a run. *)
Class WallClock := { utc : nat → Z }.
Class UuidSource := { uuid_v4 : nat → N }.

Definition utc_now {S} `{WallClock} : ST (Timed S) Z :=
  λ w, (utc (ticks w), mkTimed (st w) (Datatypes.S (ticks w))).
Definition new_v4 {S} `{UuidSource} : ST (Timed S) N :=
  λ w, (uuid_v4 (ticks w), mkTimed (st w) (Datatypes.S (ticks w))).

Lemma wp_utc_now {S} `{WallClock} (Q : Z → Timed S → Prop) w :
  Q (utc (ticks w)) (mkTimed (st w) (Datatypes.S (ticks w))) → wp utc_now Q w.
Proof. done. Qed.

Lemma wp_new_v4 {S} `{UuidSource} (Q : N → Timed S → Prop) w :
  Q (uuid_v4 (ticks w)) (mkTimed (st w) (Datatypes.S (ticks w))) → wp new_v4 Q w.
Proof. done. Qed.

(** A [for] loop with effects and no result, and one that collects results. *)
Fixpoint for_each {S A} (f : A → ST S unit) (l : list A) : ST S unit :=
  match l with
  | [] => mret tt
  | x :: l => _ ← f x; for_each f l
  end.

Fixpoint mapM_st {S A B} (f : A → ST S B) (l : list A) : ST S (list B) :=
  match l with
  | [] => mret []
  | x :: l => b ← f x; bs ← mapM_st f l; mret (b :: bs)
  end.

(** ** Record update

    [set_field f u r] is [r] with [u] applied to its field [f]. A record declares
    its projections once, as the instance of [Eta] that rebuilds it. *)
Class Eta (R : Type) := eta : R → R.
Class Setter {R T : Type} (proj : R → T) := set_field : (T → T) → R → R.
Arguments set_field {_ _} proj {_} _ _.

Ltac solve_setter :=
  lazymatch goal with
  | |- @Setter ?R ?T ?p =>
      let e := constr:(_ : Eta R) in
      let e := eval red in e in
      let f := eval pattern p in e in
      lazymatch f with
      | ?g _ =>
          let t := eval cbv beta in (λ (u : T → T) (r : R), g (λ x : R, u (p x)) r) in
          exact t
      end
  end.
#[global] Hint Extern 1 (Setter _) => solve_setter : typeclass_instances.

Notation "r <| f ::= u |>" := (set_field f u r)
  (at level 1, f at level 10, left associativity) : stdpp_scope.
Notation "r <| f := v |>" := (set_field f (λ _, v) r)
  (at level 1, f at level 10, v at level 200, left associativity) : stdpp_scope.

(** Instances for running the model: a clock that advances by one at each read,
    and the order of [map_to_list]. *)
Definition unit_clock : Clock.
Proof. refine {| clock := Z.of_nat |}. intros. lia. Defined.

Definition list_order : HashOrder.
Proof. refine {| hash_iter := λ V m, map_to_list m |}. done. Defined.

Definition id_list_order : IdOrder.
Proof. refine {| id_iter := λ V m, map_to_list m |}. done. Defined.

(** ** Tactics

    [wp_step] decomposes one sequencing point of a computation; [wp_use H] runs
    the head of a computation with a known specification [H]; [split_ifs]
    destructs the booleans a goal branches on. *)
Ltac wp_step :=
  lazymatch goal with
  | |- wp (mret _) _ _ => apply wp_ret
  | |- wp (_ ≫= _) _ _ => apply wp_bind
  | |- wp (try_bind _ _) _ _ => apply wp_try_bind
  | |- wp (with_context _ _) _ _ => apply wp_with_context
  | |- wp (gets _) _ _ => apply wp_gets
  | |- wp (modify _) _ _ => apply wp_modify
  | |- wp now _ _ => apply wp_now
  | |- wp utc_now _ _ => apply wp_utc_now
  | |- wp new_v4 _ _ => apply wp_new_v4
  | |- wp (zoom _ _ _) _ _ => apply wp_zoom
  | |- wp (if ?b then _ else _) _ _ => destruct b eqn:?
  | |- wp (match ?x with _ => _ end) _ _ => destruct x eqn:?
  end; cbn beta iota.
Ltac wp_go := repeat wp_step.
Tactic Notation "wp_use" uconstr(H) := eapply wp_mono; [eapply H|cbn beta].
Tactic Notation "wp_use" uconstr(H) "as" simple_intropattern(p) simple_intropattern(q)
    simple_intropattern(r) :=
  eapply wp_mono; [eapply H|cbn beta; intros p q r].
