(* ===== verification/RustStr.v ===== *)
(** * Rust strings

    A [String] or [&str] is the byte string of its UTF-8 encoding, as Rust
    stores it. This file holds the part of [str] the sources use: [trim] (Unicode
    white space, on the encoded bytes), [to_ascii_lowercase], [strip_prefix],
    [starts_with], [char_indices]-style boundaries and [String::truncate]. *)
From S2P Require Import Prelude.
From Stdlib Require Import Ascii.

#[local] Open Scope string_scope.
#[local] Open Scope Z_scope.

Definition byte_of (a : Ascii.ascii) : N := Ascii.N_of_ascii a.

(** The characters with the Unicode property White_Space, by the length of
    their encoding: U+0009..U+000D and U+0020; U+0085 and U+00A0; U+1680,
    U+2000..U+200A, U+2028, U+2029, U+202F, U+205F and U+3000. *)
Definition ws1 (a : N) : bool := ((9 <=? a) && (a <=? 13) || (a =? 32))%N.
Definition ws2 (a b : N) : bool := ((a =? 194) && ((b =? 133) || (b =? 160)))%N.
Definition ws3 (a b c : N) : bool :=
  ((a =? 225) && (b =? 154) && (c =? 128)
   || (a =? 226) && (b =? 128)
      && ((128 <=? c) && (c <=? 138) || (c =? 168) || (c =? 169) || (c =? 175))
   || (a =? 226) && (b =? 129) && (c =? 159)
   || (a =? 227) && (b =? 128) && (c =? 128))%N.

(** Drop the white space at the front of a byte string, given the tests for one,
    two and three byte encodings. *)
Fixpoint strip_ws (t2 : N → N → bool) (t3 : N → N → N → bool) (s : string) : string :=
  match s with
  | EmptyString => EmptyString
  | String a s1 =>
      if ws1 (byte_of a) then strip_ws t2 t3 s1 else
      match s1 with
      | EmptyString => s
      | String b s2 =>
          if t2 (byte_of a) (byte_of b) then strip_ws t2 t3 s2 else
          match s2 with
          | EmptyString => s
          | String c s3 =>
              if t3 (byte_of a) (byte_of b) (byte_of c) then strip_ws t2 t3 s3 else s
          end
      end
  end.

Fixpoint string_rev_app (s acc : string) : string :=
  match s with
  | EmptyString => acc
  | String a s' => string_rev_app s' (String a acc)
  end.
Definition string_reverse (s : string) : string := string_rev_app s "".

Definition trim_start (s : string) : string := strip_ws ws2 ws3 s.
Definition trim_end (s : string) : string :=
  string_reverse
    (strip_ws (λ a b, ws2 b a) (λ a b c, ws3 c b a) (string_reverse s)).
Definition trim (s : string) : string := trim_end (trim_start s).

Definition is_empty (s : string) : bool :=
  match s with EmptyString => true | String _ _ => false end.

Definition ascii_lower (a : Ascii.ascii) : Ascii.ascii :=
  if ((65 <=? byte_of a) && (byte_of a <=? 90))%N
  then Ascii.ascii_of_N (byte_of a + 32)
  else a.

Fixpoint to_ascii_lowercase (s : string) : string :=
  match s with
  | EmptyString => EmptyString
  | String a s' => String (ascii_lower a) (to_ascii_lowercase s')
  end.

(** [strip_prefix], and [starts_with] as its success. *)
Fixpoint strip_prefix (p s : string) : option string :=
  match p, s with
  | EmptyString, _ => Some s
  | String a p', String b s' => if Ascii.eqb a b then strip_prefix p' s' else None
  | String _ _, EmptyString => None
  end.

Definition starts_with (s p : string) : bool := bool_decide (is_Some (strip_prefix p s)).

(** [trim_end_matches('/')]. *)
Fixpoint drop_slashes (s : string) : string :=
  match s with
  | String "/"%char s' => drop_slashes s'
  | _ => s
  end.
Definition trim_end_slashes (s : string) : string :=
  string_reverse (drop_slashes (string_reverse s)).

(** A byte offset of a string is a character boundary when it is the length of
    the string or the byte there is not a UTF-8 continuation byte. *)
Definition is_continuation (a : Ascii.ascii) : bool :=
  ((128 <=? byte_of a) && (byte_of a <? 192))%N.
Definition is_char_boundary (s : string) (i : nat) : bool :=
  match String.get i s with
  | Some a => negb (is_continuation a)
  | None => bool_decide (i = String.length s)
  end.

(** [String::truncate n]: no effect when [n] is not below the length; panics
    ([None]) when [n] is inside a character. *)
Definition string_truncate (s : string) (n : nat) : option string :=
  if bool_decide (String.length s ≤ n)%nat then Some s
  else if is_char_boundary s n then Some (String.substring 0 n s) else None.

(** [chars().take(n)] and what is left: a character starts at a byte that is not
    a continuation byte. *)
Fixpoint take_chars (n : nat) (s : string) : string * string :=
  match s with
  | EmptyString => (EmptyString, EmptyString)
  | String a r =>
      if is_continuation a then let '(p, q) := take_chars n r in (String a p, q)
      else match n with
           | O => (EmptyString, s)
           | S n => let '(p, q) := take_chars n r in (String a p, q)
           end
  end.

(** [str::split_whitespace]: [skip] counts the bytes left of a white-space
    character, [cur] is the word read so far. *)
Definition ws_len (s : string) : nat :=
  match s with
  | String a r =>
      if ws1 (byte_of a) then 1
      else match r with
           | String b r =>
               if ws2 (byte_of a) (byte_of b) then 2
               else match r with
                    | String c _ => if ws3 (byte_of a) (byte_of b) (byte_of c) then 3 else 0
                    | EmptyString => 0
                    end
           | EmptyString => 0
           end
  | EmptyString => 0
  end%nat.

Fixpoint words (skip : nat) (cur s : string) : list string :=
  match s with
  | EmptyString => if is_empty cur then [] else [cur]
  | String a r =>
      match skip with
      | S k => words k cur r
      | O =>
          match ws_len s with
          | S k => if is_empty cur then words k "" r else cur :: words k "" r
          | O => words 0 (cur +:+ String a "") r
          end
      end
  end.

Definition split_whitespace (s : string) : list string := words 0 "" s.

(** [str::lines().next()]: the text before the first line feed, without a
    carriage return right before it. *)
Fixpoint before_newline (s : string) : option string :=
  match s with
  | EmptyString => None
  | String a r => if (byte_of a =? 10)%N then Some EmptyString else String a <$> before_newline r
  end.

Definition strip_cr (s : string) : string :=
  match string_reverse s with
  | String a r => if (byte_of a =? 13)%N then string_reverse r else s
  | EmptyString => s
  end.

Definition first_line (s : string) : string :=
  match before_newline s with Some l => strip_cr l | None => s end.

(** [str::parse] at an unsigned type with maximum [max]: an optional plus sign
    and digits that do not overflow. *)
Fixpoint parse_digits (max acc : Z) (s : string) : option Z :=
  match s with
  | EmptyString => Some acc
  | String a r =>
      let d := Z.of_N (byte_of a) - 48 in
      if (0 <=? d) && (d <=? 9) then
        let acc := 10 * acc + d in
        if acc <=? max then parse_digits max acc r else None
      else None
  end.

Definition parse_unsigned (max : Z) (s : string) : option Z :=
  let digits := match s with
                | String a r => if (byte_of a =? 43)%N then r else s
                | EmptyString => s
                end in
  if is_empty digits then None else parse_digits max 0 digits.

(** [str::parse] at a signed type: a minus sign is allowed too. *)
Definition parse_signed (min max : Z) (s : string) : option Z :=
  match s with
  | String a r =>
      if (byte_of a =? 45)%N
      then if is_empty r then None else Z.opp <$> parse_digits (- min) 0 r
      else parse_unsigned max s
  | EmptyString => None
  end.

(** ** Numbers in text

    [format!("{}")] and [format!("{:x}")] of an unsigned integer of at most
    [fuel] digits. *)
Fixpoint digits (base : Z) (fuel : nat) (z : Z) : list Z :=
  match fuel with
  | O => []
  | S fuel => if z <? base then [z] else digits base fuel (z `div` base) ++ [z `mod` base]
  end.

Definition digit_char (d : Z) : Ascii.ascii :=
  Ascii.ascii_of_N (Z.to_N (if d <? 10 then 48 + d else 87 + d)).

Definition format_radix (base : Z) (fuel : nat) (z : Z) : string :=
  String.string_of_list_ascii (digit_char <$> digits base fuel z).

(** Thirty-nine digits are enough for 128 bits. *)
Definition decimal (z : Z) : string := format_radix 10 39 z.

(** [Uuid::simple]: the thirty-two hexadecimal digits, with leading zeros. *)
Fixpoint fixed_digits (base : Z) (n : nat) (z : Z) : list Z :=
  match n with
  | O => []
  | S n => fixed_digits base n (z `div` base) ++ [z `mod` base]
  end.
Definition uuid_simple (u : N) : string :=
  String.string_of_list_ascii (digit_char <$> fixed_digits 16 32 (Z.of_N u)).

(** [str::contains] of a literal. *)
Fixpoint contains (s p : string) : bool :=
  starts_with s p || match s with String _ r => contains r p | EmptyString => false end.

(** [str::ends_with], [eq_ignore_ascii_case] and [chars().count()]. *)
Definition ends_with (s p : string) : bool := starts_with (string_reverse s) (string_reverse p).
Definition eq_ignore_ascii_case (a b : string) : bool :=
  String.eqb (to_ascii_lowercase a) (to_ascii_lowercase b).
Fixpoint char_count (s : string) : nat :=
  match s with
  | EmptyString => 0
  | String a r => if is_continuation a then char_count r else S (char_count r)
  end.

(** [str::split] on an ASCII character. *)
Fixpoint split_go (c : Ascii.ascii) (cur s : string) : list string :=
  match s with
  | EmptyString => [string_reverse cur]
  | String a r =>
      if Ascii.eqb a c then string_reverse cur :: split_go c "" r else split_go c (String a cur) r
  end.
Definition split (c : Ascii.ascii) (s : string) : list string := split_go c "" s.

(** [str::split_once] on an ASCII character. *)
Fixpoint split_once (c : Ascii.ascii) (s : string) : option (string * string) :=
  match s with
  | EmptyString => None
  | String a r =>
      if Ascii.eqb a c then Some (EmptyString, r)
      else match split_once c r with
           | Some (p, q) => Some (String a p, q)
           | None => None
           end
  end.

(** [str::from_utf8] accepts the well-formed byte sequences: the bytes allowed
    after the current one are the ranges in [pending]. *)
Definition utf8_tail : N * N := (128, 191)%N.
Definition utf8_lead (b : N) : option (list (N * N)) :=
  (if b <=? 127 then Some []
   else if b <=? 193 then None
   else if b <=? 223 then Some [utf8_tail]
   else if b =? 224 then Some [(160, 191); utf8_tail]
   else if b =? 237 then Some [(128, 159); utf8_tail]
   else if b <=? 239 then Some [utf8_tail; utf8_tail]
   else if b =? 240 then Some [(144, 191); utf8_tail; utf8_tail]
   else if b <=? 243 then Some [utf8_tail; utf8_tail; utf8_tail]
   else if b =? 244 then Some [(128, 143); utf8_tail; utf8_tail]
   else None)%N.
Fixpoint utf8_go (pending : list (N * N)) (s : string) : bool :=
  match s with
  | EmptyString => match pending with [] => true | _ => false end
  | String a r =>
      match pending with
      | [] => match utf8_lead (byte_of a) with Some p => utf8_go p r | None => false end
      | (lo, hi) :: p => ((lo <=? byte_of a) && (byte_of a <=? hi))%N && utf8_go p r
      end
  end.
Definition valid_utf8 (s : string) : bool := utf8_go [] s.

(** [str::replace] of a pattern that is not empty; [skip] counts the bytes left
    of a match. *)
Fixpoint replace_go (pat rep : string) (skip : nat) (s : string) : string :=
  match s with
  | EmptyString => EmptyString
  | String a r =>
      match skip with
      | S skip => replace_go pat rep skip r
      | O =>
          match strip_prefix pat s with
          | Some _ => rep +:+ replace_go pat rep (String.length pat - 1) r
          | None => String a (replace_go pat rep 0 r)
          end
      end
  end.
Definition str_replace (pat rep s : string) : string := replace_go pat rep 0 s.

(** [str::chars]: the code points of a UTF-8 text; [need] counts the
    continuation bytes left of the current one. *)
Fixpoint chars_go (acc : N) (need : nat) (s : string) : list N :=
  match s with
  | EmptyString => []
  | String a r =>
      let b := byte_of a in
      match need with
      | O => if (b <? 128)%N then b :: chars_go 0 0 r
             else if (b <? 224)%N then chars_go (b - 192) 1 r
             else if (b <? 240)%N then chars_go (b - 224) 2 r
             else chars_go (b - 240) 3 r
      | S O => (acc * 64 + (b - 128))%N :: chars_go 0 0 r
      | S need => chars_go (acc * 64 + (b - 128)) need r
      end
  end.
Definition chars (s : string) : list N := chars_go 0 0 s.

Example str_samples :
  ends_with "/a/models" "/models" = true ∧ char_count "héé" = 3%nat ∧
  split "," "a,,b" = ["a"; ""; "b"] ∧ str_replace "ab" "{m}" "xababb" = "x{m}{m}b" ∧
  chars "aé漢😀" = [97; 233; 28450; 128512]%N ∧ eq_ignore_ascii_case "ZsTd" "zstd" = true.
Proof. by vm_compute. Qed.

(** [parse_bool_flag], which several modules repeat. *)
Definition parse_bool_flag (raw : string) : option bool :=
  let flag := to_ascii_lowercase (trim raw) in
  if bool_decide (flag ∈ ["1"; "true"; "yes"; "on"]) then Some true
  else if bool_decide (flag ∈ ["0"; "false"; "no"; "off"]) then Some false
  else None.

Example split_whitespace_status : split_whitespace "HTTP/1.1  200 OK" = ["HTTP/1.1"; "200"; "OK"].
Proof. reflexivity. Qed.
Example parse_unsigned_u16 :
  parse_unsigned 65535 <$> ["200"; "+7"; "65536"; ""; "+"; "2x"] = [Some 200; Some 7; None; None; None; None].
Proof. reflexivity. Qed.

Example parse_signed_i64 :
  parse_signed i64_min i64_max <$> ["-5"; "+7"; "-"; ""; "-9223372036854775808"; "9223372036854775808"]
  = [Some (-5); Some 7; None; None; Some i64_min; None].
Proof. reflexivity. Qed.

(** ** Lemmas *)

Lemma string_app_assoc (a b c : string) : (a +:+ b) +:+ c = a +:+ (b +:+ c).
Proof. induction a as [|x a IH]; [done|]. exact (f_equal (String x) IH). Qed.

Lemma string_rev_app_spec s acc : string_rev_app s acc = string_rev_app s "" +:+ acc.
Proof.
  revert acc. induction s as [|a s IH]; intros acc; simpl; [done|].
  by rewrite IH, (IH (String a "")), string_app_assoc.
Qed.

Lemma string_app_nil (a : string) : a +:+ "" = a.
Proof. induction a as [|x a IH]; [done|]. exact (f_equal (String x) IH). Qed.

Lemma string_reverse_app a b : string_reverse (a +:+ b) = string_reverse b +:+ string_reverse a.
Proof.
  unfold string_reverse. induction a as [|x a IH].
  - by rewrite string_app_nil.
  - change (String x a +:+ b) with (String x (a +:+ b)). simpl.
    rewrite (string_rev_app_spec _ (String x "")), IH, (string_rev_app_spec a (String x "")).
    by rewrite string_app_assoc.
Qed.

Lemma string_reverse_involutive s : string_reverse (string_reverse s) = s.
Proof.
  induction s as [|a s IH]; [done|].
  change (String a s) with (String a "" +:+ s) at 1.
  rewrite string_reverse_app, string_reverse_app, IH. done.
Qed.

Lemma strip_ws_idemp t2 t3 s : strip_ws t2 t3 (strip_ws t2 t3 s) = strip_ws t2 t3 s.
Proof.
  induction s as [s IH] using (induction_ltof1 _ String.length); unfold ltof in IH.
  destruct s as [|a [|b [|c s]]]; simpl; [done| | |].
  - destruct (ws1 (byte_of a)) eqn:Ha; [done|]. simpl. by rewrite Ha.
  - destruct (ws1 (byte_of a)) eqn:Ha; [apply (IH (String b "")); simpl; lia|].
    destruct (t2 _ _) eqn:H2; [done|]. simpl. by rewrite Ha, H2.
  - destruct (ws1 (byte_of a)) eqn:Ha; [apply (IH (String b (String c s))); simpl; lia|].
    destruct (t2 _ _) eqn:H2; [apply (IH (String c s)); simpl; lia|].
    destruct (t3 _ _ _) eqn:H3; [apply (IH s); simpl; lia|].
    simpl. by rewrite Ha, H2, H3.
Qed.

Lemma strip_prefix_spec p s r : strip_prefix p s = Some r ↔ s = p +:+ r.
Proof.
  revert s. induction p as [|a p IH]; intros s.
  { simpl. split; [intros [= ->]|intros ->]; done. }
  change (String a p +:+ r) with (String a (p +:+ r)).
  destruct s as [|b s]; simpl; [done|].
  destruct (Ascii.eqb_spec a b) as [->|Hab].
  - rewrite IH. split; [by intros ->|by intros [= ->]].
  - split; [done|by intros [= ? ?]].
Qed.

Lemma starts_with_spec s p : starts_with s p = true ↔ ∃ r, s = p +:+ r.
Proof.
  unfold starts_with. rewrite bool_decide_eq_true. split.
  - intros [r Hr%strip_prefix_spec]. eauto.
  - intros [r ->]. exists r. by apply strip_prefix_spec.
Qed.

(** [trim] does what [str::trim] documents on sample inputs: ASCII, a no-break
    space (C2 A0) and an ideographic space (E3 80 80). *)
Example trim_samples :
  trim "  a b	 " = "a b" ∧ trim "   " = "" ∧
  trim (String "194"%char (String "160"%char "x")) = "x" ∧
  trim ("x" +:+ String "227"%char (String "128"%char (String "128"%char ""))) = "x".
Proof. vm_compute. done. Qed.

(** Text of numbers is injective within the number of digits. *)
Section radix.
Context (base : Z) (Hbase : 2 <= base <= 16).

Definition digits_value (l : list Z) : Z := fold_left (λ acc d, base * acc + d) l 0.

Lemma digits_value_snoc l d : digits_value (l ++ [d]) = base * digits_value l + d.
Proof. unfold digits_value. by rewrite fold_left_app. Qed.

Lemma digits_value_digits fuel z :
  0 <= z < base ^ Z.of_nat fuel → digits_value (digits base fuel z) = z.
Proof.
  revert z. induction fuel as [|fuel IH]; intros z Hz.
  { simpl in Hz. unfold digits_value. simpl. lia. }
  rewrite Nat2Z.inj_succ, Z.pow_succ_r in Hz by lia. simpl.
  destruct (Z.ltb_spec z base); [unfold digits_value; simpl; lia|].
  rewrite digits_value_snoc, IH.
  - pose proof (Z.div_mod z base ltac:(lia)). lia.
  - split; [apply Z.div_pos; lia|]. apply Z.div_lt_upper_bound; lia.
Qed.

Lemma digits_range fuel z : 0 <= z → Forall (λ d, 0 <= d < base) (digits base fuel z).
Proof.
  revert z. induction fuel as [|fuel IH]; intros z Hz; simpl; [constructor|].
  destruct (Z.ltb_spec z base); [repeat constructor; lia|].
  apply Forall_app. split; [apply IH, Z.div_pos; lia|].
  repeat constructor; apply Z.mod_pos_bound; lia.
Qed.

Lemma digit_char_code d : 0 <= d < base →
  Ascii.N_of_ascii (digit_char d) = Z.to_N (if d <? 10 then 48 + d else 87 + d).
Proof.
  intros Hd. unfold digit_char. apply Ascii.N_ascii_embedding.
  change 256%N with (Z.to_N 256). destruct (d <? 10); lia.
Qed.

Lemma digit_char_inj d e : 0 <= d < base → 0 <= e < base → digit_char d = digit_char e → d = e.
Proof.
  intros Hd He Heq. apply (f_equal Ascii.N_of_ascii) in Heq.
  rewrite !digit_char_code in Heq by done.
  destruct (Z.ltb_spec d 10), (Z.ltb_spec e 10); lia.
Qed.

Lemma digit_chars_inj l l' :
  Forall (λ d, 0 <= d < base) l → Forall (λ d, 0 <= d < base) l' →
  digit_char <$> l = digit_char <$> l' → l = l'.
Proof.
  intros Hl. revert l'. induction Hl as [|d l Hd _ IH]; intros l' Hl' Heq;
    destruct Hl' as [|e l' He Hl']; simplify_eq/=; [done|].
  f_equal; [by apply digit_char_inj|by apply IH].
Qed.

Lemma format_radix_inj fuel a b :
  0 <= a < base ^ Z.of_nat fuel → 0 <= b < base ^ Z.of_nat fuel →
  format_radix base fuel a = format_radix base fuel b → a = b.
Proof.
  unfold format_radix. intros Ha Hb Heq. apply (f_equal String.list_ascii_of_string) in Heq.
  rewrite !String.list_ascii_of_string_of_list_ascii in Heq.
  apply digit_chars_inj in Heq; [|apply digits_range; lia..].
  rewrite <-(digits_value_digits fuel a), <-(digits_value_digits fuel b), Heq by done. done.
Qed.
End radix.

(** Characters that a decimal text does not contain split it off uniquely. *)
Definition no_char (c : Ascii.ascii) (s : string) : Prop := c ∉ String.list_ascii_of_string s.

Lemma decimal_no_char (c : Ascii.ascii) z :
  0 <= z → (Ascii.N_of_ascii c < 48)%N ∨ (57 < Ascii.N_of_ascii c)%N → no_char c (decimal z).
Proof.
  intros Hz Hc. unfold no_char, decimal, format_radix.
  rewrite String.list_ascii_of_string_of_list_ascii. intros (d & -> & Hd)%list_elem_of_fmap.
  pose proof (digits_range 10 ltac:(lia) 39 z Hz) as Hr. rewrite list.Forall_forall in Hr.
  specialize (Hr d Hd). simpl in Hr. rewrite (digit_char_code 10) in Hc by lia.
  destruct (Z.ltb_spec d 10); lia.
Qed.

Lemma split_unique (c : Ascii.ascii) a b x y :
  no_char c x → no_char c y → a +:+ String c x = b +:+ String c y → a = b ∧ x = y.
Proof.
  unfold no_char. revert b. induction a as [|d a IH]; intros [|e b] Hx Hy Heq; simpl in *.
  - by simplify_eq.
  - injection Heq as <- Heq. exfalso. apply Hx. rewrite Heq. clear.
    induction b; simpl; [left|by right].
  - injection Heq as -> Heq. exfalso. apply Hy. rewrite <-Heq. clear.
    induction a; simpl; [left|by right].
  - injection Heq as -> Heq. by destruct (IH b Hx Hy Heq) as [-> ->].
Qed.

Lemma split_first_unique (c : Ascii.ascii) a b x y :
  no_char c a → no_char c b → a +:+ String c x = b +:+ String c y → a = b ∧ x = y.
Proof.
  unfold no_char. revert b. induction a as [|d a IH]; intros [|e b] Ha Hb Heq; simpl in *.
  - by simplify_eq.
  - injection Heq as -> _. set_solver.
  - injection Heq as <- _. set_solver.
  - injection Heq as -> Heq. destruct (IH b) as [-> ->]; [set_solver|set_solver|done|done].
Qed.

(** [trim] is idempotent: what it leaves has no white space at either end. *)
Lemma strip_ws_suffix t2 t3 s : ∃ p, s = p +:+ strip_ws t2 t3 s.
Proof.
  assert (Hlen : ∀ n s, (String.length s ≤ n)%nat → ∃ p, s = p +:+ strip_ws t2 t3 s); [|by eapply Hlen].
  clear s. induction n as [|n IH]; intros [|a s1] Hn; simpl in Hn; [by exists ""|lia|by exists ""|].
  simpl. destruct (ws1 (byte_of a)).
  { destruct (IH s1) as [p Hp]; [lia|]. exists (String a p). by rewrite Hp at 1. }
  destruct s1 as [|b s2]; [by exists ""|]. destruct (t2 (byte_of a) (byte_of b)).
  { destruct (IH s2) as [p Hp]; [simpl in Hn; lia|]. exists (String a (String b p)). by rewrite Hp at 1. }
  destruct s2 as [|c s3]; [by exists ""|]. destruct (t3 (byte_of a) (byte_of b) (byte_of c)); [|by exists ""].
  destruct (IH s3) as [p Hp]; [simpl in Hn; lia|]. exists (String a (String b (String c p))).
  by rewrite Hp at 1.
Qed.

Lemma string_app_length (a b : string) : String.length (a +:+ b) = (String.length a + String.length b)%nat.
Proof. induction a as [|c a IH]; [done|]. change (String c a +:+ b) with (String c (a +:+ b)). simpl. by rewrite IH. Qed.

Lemma strip_ws_length t2 t3 s : (String.length (strip_ws t2 t3 s) ≤ String.length s)%nat.
Proof. destruct (strip_ws_suffix t2 t3 s) as [p Hp]. rewrite Hp at 2. rewrite string_app_length. lia. Qed.

Lemma strip_ws_prefix t2 t3 a b : strip_ws t2 t3 (a +:+ b) = a +:+ b → strip_ws t2 t3 a = a.
Proof.
  destruct a as [|x a]; [done|]. change (String x a +:+ b) with (String x (a +:+ b)). simpl.
  intros Hs. assert (Hl : ∀ u v, strip_ws t2 t3 u = v → (String.length v ≤ String.length u)%nat).
  { intros u v <-. apply strip_ws_length. }
  destruct (ws1 (byte_of x)); [apply Hl in Hs; simpl in Hs; lia|].
  destruct a as [|y a]; [done|]. change (String y a +:+ b) with (String y (a +:+ b)) in Hs. cbn iota in Hs.
  destruct (t2 (byte_of x) (byte_of y)); [apply Hl in Hs; simpl in Hs; lia|].
  destruct a as [|z a]; [done|]. change (String z a +:+ b) with (String z (a +:+ b)) in Hs. cbn iota in Hs.
  destruct (t3 _ _ _); [apply Hl in Hs; simpl in Hs; lia|done].
Qed.

Lemma trim_idemp s : trim (trim s) = trim s.
Proof.
  unfold trim. set (u := trim_start s).
  assert (Hu : trim_start u = u) by apply strip_ws_idemp.
  assert (Hpre : ∃ q, u = trim_end u +:+ q).
  { unfold trim_end. destruct (strip_ws_suffix (λ a b, ws2 b a) (λ a b c, ws3 c b a) (string_reverse u)) as [p Hp].
    exists (string_reverse p). rewrite <-string_reverse_app, <-Hp. by rewrite string_reverse_involutive. }
  destruct Hpre as [q Hq].
  assert (Hstart : trim_start (trim_end u) = trim_end u).
  { apply (strip_ws_prefix ws2 ws3 _ q). rewrite <-Hq. exact Hu. }
  rewrite Hstart. unfold trim_end at 1 2. rewrite string_reverse_involutive.
  rewrite strip_ws_idemp. done.
Qed.

(** ** ASCII lower case

    It leaves white space alone, so it commutes with [trim]. *)

Lemma byte_of_lower a :
  byte_of (ascii_lower a) = byte_of a ∨
  (65 ≤ byte_of a ≤ 90)%N ∧ byte_of (ascii_lower a) = (byte_of a + 32)%N.
Proof.
  unfold ascii_lower. destruct (_ && _) eqn:Hr; [right|by left].
  apply andb_prop in Hr as [Hl%N.leb_le Hh%N.leb_le]. split; [lia|].
  unfold byte_of. apply Ascii.N_ascii_embedding. unfold byte_of in *. lia.
Qed.

Ltac lower_ws :=
  apply eq_true_iff_eq;
  repeat first [rewrite orb_true_iff | rewrite andb_true_iff | rewrite N.eqb_eq | rewrite N.leb_le];
  lia.

Lemma ws1_lower a : ws1 (byte_of (ascii_lower a)) = ws1 (byte_of a).
Proof. unfold ws1. destruct (byte_of_lower a) as [->|[? ->]]; lower_ws. Qed.

Lemma ws2_lower a b :
  ws2 (byte_of (ascii_lower a)) (byte_of (ascii_lower b)) = ws2 (byte_of a) (byte_of b).
Proof.
  unfold ws2. destruct (byte_of_lower a) as [->|[? ->]], (byte_of_lower b) as [->|[? ->]]; lower_ws.
Qed.

Lemma ws3_lower a b c :
  ws3 (byte_of (ascii_lower a)) (byte_of (ascii_lower b)) (byte_of (ascii_lower c))
  = ws3 (byte_of a) (byte_of b) (byte_of c).
Proof.
  unfold ws3. destruct (byte_of_lower a) as [->|[? ->]], (byte_of_lower b) as [->|[? ->]],
    (byte_of_lower c) as [->|[? ->]]; lower_ws.
Qed.

Lemma strip_ws_lower t2 t3 s :
  (∀ a b, t2 (byte_of (ascii_lower a)) (byte_of (ascii_lower b)) = t2 (byte_of a) (byte_of b)) →
  (∀ a b c, t3 (byte_of (ascii_lower a)) (byte_of (ascii_lower b)) (byte_of (ascii_lower c))
            = t3 (byte_of a) (byte_of b) (byte_of c)) →
  strip_ws t2 t3 (to_ascii_lowercase s) = to_ascii_lowercase (strip_ws t2 t3 s).
Proof.
  intros H2 H3. induction s as [s IH] using (induction_ltof1 _ String.length); unfold ltof in IH.
  destruct s as [|a [|b [|c s]]]; simpl; [done| | |]; rewrite (ws1_lower a).
  - by destruct (ws1 (byte_of a)).
  - rewrite (H2 a b). destruct (ws1 (byte_of a)); [apply (IH (String b "")); simpl; lia|].
    by destruct (t2 _ _).
  - rewrite (H2 a b), (H3 a b c). destruct (ws1 (byte_of a)); [apply (IH (String b (String c s))); simpl; lia|].
    destruct (t2 _ _); [apply (IH (String c s)); simpl; lia|].
    destruct (t3 _ _ _); [apply (IH s); simpl; lia|done].
Qed.

Lemma lower_app a b : to_ascii_lowercase (a +:+ b) = to_ascii_lowercase a +:+ to_ascii_lowercase b.
Proof. induction a as [|x a IH]; simpl; [done|]. by rewrite IH. Qed.

Lemma lower_reverse s : to_ascii_lowercase (string_reverse s) = string_reverse (to_ascii_lowercase s).
Proof.
  unfold string_reverse. induction s as [|x s IH]; simpl; [done|].
  rewrite string_rev_app_spec, lower_app, IH. simpl.
  by rewrite (string_rev_app_spec _ (String _ _)).
Qed.

Lemma trim_lower s : trim (to_ascii_lowercase s) = to_ascii_lowercase (trim s).
Proof.
  unfold trim, trim_end, trim_start.
  rewrite (strip_ws_lower ws2 ws3) by (intros; auto using ws2_lower, ws3_lower).
  rewrite <-lower_reverse, strip_ws_lower by (intros; auto using ws2_lower, ws3_lower).
  by rewrite lower_reverse.
Qed.

Lemma lower_idemp s : to_ascii_lowercase (to_ascii_lowercase s) = to_ascii_lowercase s.
Proof.
  induction s as [|a s IH]; simpl; [done|]. rewrite IH. f_equal.
  unfold ascii_lower at 1. destruct (byte_of_lower a) as [He|[Hr He]]; rewrite He.
  - destruct (_ && _) eqn:Hb; [|done]. unfold ascii_lower in *. rewrite Hb in *.
    apply andb_prop in Hb as [Hl%N.leb_le Hh%N.leb_le].
    unfold byte_of in *. rewrite Ascii.N_ascii_embedding in He by lia. lia.
  - destruct (_ && _) eqn:Hb; [|done]. apply andb_prop in Hb as [Hl%N.leb_le Hh%N.leb_le]. lia.
Qed.

Lemma starts_with_lower s p :
  starts_with s p = true → starts_with (to_ascii_lowercase s) (to_ascii_lowercase p) = true.
Proof. rewrite !starts_with_spec. intros [r ->]. exists (to_ascii_lowercase r). apply lower_app. Qed.

Lemma is_empty_lower s : is_empty (to_ascii_lowercase s) = is_empty s.
Proof. by destruct s. Qed.

(** ** Slashes *)

Lemma drop_slashes_suffix s : ∃ p, s = p +:+ drop_slashes s.
Proof.
  induction s as [|a s [p IH]]; [by exists ""|]. simpl.
  destruct a as [[] [] [] [] [] [] [] []]; try (by exists "").
  exists (String "/" p). by rewrite IH at 1.
Qed.

Lemma drop_slashes_no_slash s r : drop_slashes s ≠ String "/" r.
Proof. induction s as [|a s IH]; [done|]. simpl. by destruct a as [[] [] [] [] [] [] [] []]. Qed.

Lemma trim_end_slashes_no_slash s r : trim_end_slashes s ≠ r +:+ "/".
Proof.
  unfold trim_end_slashes. intros Heq. apply (f_equal string_reverse) in Heq.
  rewrite string_reverse_involutive, string_reverse_app in Heq. by apply drop_slashes_no_slash in Heq.
Qed.
