(* ===== verification/CoreModel.v ===== *)
(** * Shared data model: [crates/codex-pool-core/src/{model,snapshot,runtime_contract,error}.rs]

    The records and enums that the control plane publishes and the data plane
    consumes, with the source's constructors. A field [f] of a struct [FooBar] is
    the projection [fb_f]. [Uuid] is the 128-bit value of the identifier: the
    derived order on its sixteen bytes is the order of these numbers.
    [DateTime<Utc>] is a number of nanoseconds since the epoch. *)
From S2P Require Import Prelude RustStr.

#[local] Open Scope string_scope.
#[local] Open Scope Z_scope.

Abbreviation Uuid := N (only parsing).
Abbreviation DateTime := Z (only parsing).

(** ** Accounts and routing ([model.rs]) *)

Inductive UpstreamMode := OpenAiApiKey | ChatGptSession | CodexOauth.

Inductive UpstreamAuthProvider := LegacyBearer | OAuthRefreshToken.

Record UpstreamAccount := mkUpstreamAccount {
  ua_id : Uuid;
  ua_label : string;
  ua_mode : UpstreamMode;
  ua_base_url : string;
  ua_bearer_token : string;
  ua_chatgpt_account_id : option string;
  ua_enabled : bool;
  ua_priority : Z;
  ua_created_at : DateTime;
}.

Inductive AccountRoutingHealthFreshness := Unknown | Stale | Fresh.

Record AccountRoutingTraits := mkAccountRoutingTraits {
  art_account_id : Uuid;
  art_plan_type : option string;
  art_auth_provider : option UpstreamAuthProvider;
  art_supported_models : list string;
  art_health_freshness : option AccountRoutingHealthFreshness;
  art_last_probe_at : option DateTime;
  art_blocked_until : option DateTime;
  art_hard_block_reason : option string;
}.

Record CompiledRoutingProfile := mkCompiledRoutingProfile {
  crp_id : Uuid;
  crp_name : string;
  crp_account_ids : list Uuid;
}.

Record CompiledModelRoutingPolicy := mkCompiledModelRoutingPolicy {
  cmrp_id : Uuid;
  cmrp_name : string;
  cmrp_family : string;
  cmrp_exact_models : list string;
  cmrp_model_prefixes : list string;
  cmrp_fallback_segments : list CompiledRoutingProfile;
}.

Record CompiledRoutingPlan := mkCompiledRoutingPlan {
  plan_version_id : Uuid;
  plan_published_at : DateTime;
  plan_trigger_reason : option string;
  plan_default_route : list CompiledRoutingProfile;
  plan_policies : list CompiledModelRoutingPolicy;
}.

(** ** Outbound proxies ([model.rs]) *)

Inductive ProxyFailMode := StrictProxy | AllowDirectFallback.

Record OutboundProxyPoolSettings := mkOutboundProxyPoolSettings {
  opps_enabled : bool;
  opps_fail_mode : ProxyFailMode;
  opps_updated_at : DateTime;
}.

(** [OutboundProxyPoolSettings::default], at the time [utc_now]. *)
Definition OutboundProxyPoolSettings_default (utc_now : DateTime) : OutboundProxyPoolSettings :=
  mkOutboundProxyPoolSettings false StrictProxy utc_now.

Record OutboundProxyNode := mkOutboundProxyNode {
  opn_id : Uuid;
  opn_label : string;
  opn_proxy_url : string;
  opn_enabled : bool;
  opn_weight : Z; (* u32 *)
  opn_last_test_status : option string;
  opn_last_latency_ms : option Z;
  opn_last_error : option string;
  opn_last_tested_at : option DateTime;
  opn_created_at : DateTime;
  opn_updated_at : DateTime;
}.

(** ** Claude Code routing settings ([model.rs]) *)

Inductive ClaudeCodeEffortFallbackMode := ClampDown | Omit.

(** A [BTreeMap<String, Option<String>>] is a finite map from strings. *)
Record ClaudeCodeFamilyEffortRouting := mkClaudeCodeFamilyEffortRouting {
  fer_source_to_target : gmap string (option string);
  fer_default_target_effort : option string;
}.

Record ClaudeCodeEffortRoutingSettings := mkClaudeCodeEffortRoutingSettings {
  ers_fallback_mode : ClaudeCodeEffortFallbackMode;
  ers_opus : ClaudeCodeFamilyEffortRouting;
  ers_sonnet : ClaudeCodeFamilyEffortRouting;
  ers_haiku : ClaudeCodeFamilyEffortRouting;
}.

Record ClaudeCodeRoutingSettings := mkClaudeCodeRoutingSettings {
  ccrs_enabled : bool;
  ccrs_opus_target_model : option string;
  ccrs_sonnet_target_model : option string;
  ccrs_haiku_target_model : option string;
  ccrs_effort_routing : ClaudeCodeEffortRoutingSettings;
  ccrs_updated_at : DateTime;
}.

Definition default_claude_code_effort_map (entries : list (string * option string)) :
    gmap string (option string) :=
  list_to_map (reverse entries).

Definition default_claude_code_opus_effort_routing : ClaudeCodeFamilyEffortRouting :=
  mkClaudeCodeFamilyEffortRouting
    (default_claude_code_effort_map
       [("low", Some "low"); ("medium", Some "medium"); ("high", Some "high");
        ("max", Some "xhigh")])
    (Some "xhigh").

Definition default_claude_code_sonnet_effort_routing : ClaudeCodeFamilyEffortRouting :=
  mkClaudeCodeFamilyEffortRouting
    (default_claude_code_effort_map
       [("low", Some "low"); ("medium", Some "medium"); ("high", Some "high")])
    (Some "high").

Definition default_claude_code_haiku_effort_routing : ClaudeCodeFamilyEffortRouting :=
  mkClaudeCodeFamilyEffortRouting ∅ None.

Definition ClaudeCodeEffortRoutingSettings_default : ClaudeCodeEffortRoutingSettings :=
  mkClaudeCodeEffortRoutingSettings ClampDown default_claude_code_opus_effort_routing
    default_claude_code_sonnet_effort_routing default_claude_code_haiku_effort_routing.

Definition ClaudeCodeRoutingSettings_default (utc_now : DateTime) : ClaudeCodeRoutingSettings :=
  mkClaudeCodeRoutingSettings false (Some "gpt-5.4") (Some "gpt-5.4-mini")
    (Some "gpt-5.4-mini") ClaudeCodeEffortRoutingSettings_default utc_now.

(** ** Error templates ([model.rs]) *)

Record AiErrorLearningSettings := mkAiErrorLearningSettings {
  aels_enabled : bool;
  aels_first_seen_timeout_ms : Z;
  aels_review_hit_threshold : Z;
  aels_updated_at : option DateTime;
}.

Definition AiErrorLearningSettings_default : AiErrorLearningSettings :=
  mkAiErrorLearningSettings false 2000 10 None.

Record LocalizedErrorTemplates := mkLocalizedErrorTemplates {
  let_en : option string;
  let_zh_cn : option string;
  let_zh_tw : option string;
  let_ja : option string;
  let_ru : option string;
}.

Inductive UpstreamErrorAction := ReturnFailure | RetrySameAccount | RetryCrossAccount.

Inductive UpstreamErrorRetryScope := ScopeNone | ScopeSameAccount | ScopeCrossAccount.

Inductive BuiltinErrorTemplateKind := GatewayError | HeuristicUpstream.

Inductive UpstreamErrorTemplateStatus := ProvisionalLive | ReviewPending | Approved | Rejected.

Record UpstreamErrorTemplateRecord := mkUpstreamErrorTemplateRecord {
  uetr_id : Uuid;
  uetr_fingerprint : string;
  uetr_provider : string;
  uetr_normalized_status_code : Z;
  uetr_semantic_error_code : string;
  uetr_action : UpstreamErrorAction;
  uetr_retry_scope : UpstreamErrorRetryScope;
  uetr_status : UpstreamErrorTemplateStatus;
  uetr_templates : LocalizedErrorTemplates;
  uetr_representative_samples : list string;
  uetr_hit_count : Z;
  uetr_first_seen_at : DateTime;
  uetr_last_seen_at : DateTime;
  uetr_updated_at : DateTime;
}.

Record BuiltinErrorTemplateRecord := mkBuiltinErrorTemplateRecord {
  betr_kind : BuiltinErrorTemplateKind;
  betr_code : string;
  betr_templates : LocalizedErrorTemplates;
  betr_default_templates : LocalizedErrorTemplates;
  betr_action : option UpstreamErrorAction;
  betr_retry_scope : option UpstreamErrorRetryScope;
  betr_is_overridden : bool;
  betr_updated_at : option DateTime;
}.

(** ** Snapshots ([snapshot.rs]) *)

Record DataPlaneSnapshot := mkDataPlaneSnapshot {
  dps_revision : Z;
  dps_cursor : Z;
  dps_accounts : list UpstreamAccount;
  dps_account_traits : list AccountRoutingTraits;
  dps_compiled_routing_plan : option CompiledRoutingPlan;
  dps_ai_error_learning_settings : AiErrorLearningSettings;
  dps_approved_upstream_error_templates : list UpstreamErrorTemplateRecord;
  dps_builtin_error_templates : list BuiltinErrorTemplateRecord;
  dps_outbound_proxy_pool_settings : OutboundProxyPoolSettings;
  dps_outbound_proxy_nodes : list OutboundProxyNode;
  dps_claude_code_routing_settings : ClaudeCodeRoutingSettings;
  dps_issued_at : DateTime;
}.

Inductive DataPlaneSnapshotEventType := AccountUpsert | AccountDelete | RoutingPlanRefresh.

Record DataPlaneSnapshotEvent := mkDataPlaneSnapshotEvent {
  ev_id : Z;
  ev_event_type : DataPlaneSnapshotEventType;
  ev_account_id : Uuid;
  ev_account : option UpstreamAccount;
  ev_compiled_routing_plan : option CompiledRoutingPlan;
  ev_ai_error_learning_settings : option AiErrorLearningSettings;
  ev_approved_upstream_error_templates : option (list UpstreamErrorTemplateRecord);
  ev_builtin_error_templates : option (list BuiltinErrorTemplateRecord);
  ev_outbound_proxy_pool_settings : option OutboundProxyPoolSettings;
  ev_outbound_proxy_nodes : option (list OutboundProxyNode);
  ev_claude_code_routing_settings : option ClaudeCodeRoutingSettings;
  ev_created_at : DateTime;
}.

Record DataPlaneSnapshotEventsResponse := mkDataPlaneSnapshotEventsResponse {
  er_cursor : Z;
  er_high_watermark : Z;
  er_events : list DataPlaneSnapshotEvent;
}.

(** ** API-key contract ([runtime_contract.rs]) and error envelope ([error.rs]) *)

Record ApiKeyGroupStatus := mkApiKeyGroupStatus {
  akg_id : Uuid;
  akg_name : string;
  akg_invalid : bool;
}.

Record ApiKeyPolicy := mkApiKeyPolicy {
  akp_ip_allowlist : list string;
  akp_model_allowlist : list string;
}.

Record ValidateApiKeyResponse := mkValidateApiKeyResponse {
  vkr_tenant_id : Uuid;
  vkr_api_key_id : Uuid;
  vkr_enabled : bool;
  vkr_group : ApiKeyGroupStatus;
  vkr_policy : ApiKeyPolicy;
  vkr_tenant_status : option string;
  vkr_tenant_expires_at : option DateTime;
  vkr_balance_microcredits : option Z;
  vkr_cache_ttl_sec : Z;
}.

Record ErrorBody := mkErrorBody {
  eb_message : string;
  eb_code : string;
  eb_type : option string;
}.
Record ErrorEnvelope := mkErrorEnvelope { ee_error : ErrorBody }.
Definition ErrorEnvelope_new (code message : string) : ErrorEnvelope :=
  mkErrorEnvelope (mkErrorBody message code None).

(** ** Decidable equality *)

#[global] Instance UpstreamMode_eq_dec : EqDecision UpstreamMode.
Proof. solve_decision. Defined.
#[global] Instance UpstreamAuthProvider_eq_dec : EqDecision UpstreamAuthProvider.
Proof. solve_decision. Defined.
#[global] Instance UpstreamAccount_eq_dec : EqDecision UpstreamAccount.
Proof. solve_decision. Defined.
#[global] Instance Freshness_eq_dec : EqDecision AccountRoutingHealthFreshness.
Proof. solve_decision. Defined.
#[global] Instance ProxyFailMode_eq_dec : EqDecision ProxyFailMode.
Proof. solve_decision. Defined.
#[global] Instance BuiltinErrorTemplateKind_eq_dec : EqDecision BuiltinErrorTemplateKind.
Proof. solve_decision. Defined.
#[global] Instance UpstreamErrorAction_eq_dec : EqDecision UpstreamErrorAction.
Proof. solve_decision. Defined.
#[global] Instance UpstreamErrorRetryScope_eq_dec : EqDecision UpstreamErrorRetryScope.
Proof. solve_decision. Defined.
