(* ===== verification/Router.v ===== *)
(** * The account router: [services/data-plane/src/router.rs]

    [Router] is the state of [RoundRobinRouter]: every field behind a lock or an
    atomic of the struct. A method is a computation of [RM]; the body of each
    follows the method statement by statement, clock reads included. Locks are
    not poisoned (no modelled method panics while it holds one), so the
    [if let Ok(..) = lock] guards take their success branch. *)
From S2P Require Import Prelude RustStr CoreModel.

Definition DEFAULT_STICKY_SESSION_TTL : Duration := from_secs (30 * 60).
Definition DEFAULT_STICKY_SESSION_MAX_ENTRIES : nat := Z.to_nat 10000.

Record AccountDiagnostics := mkAccountDiagnostics {
  ad_id : Uuid;
  ad_label : string;
  ad_mode : UpstreamMode;
  ad_enabled : bool;
  ad_priority : Z;
  ad_base_url : string;
  ad_chatgpt_account_id : option string;
  ad_temporarily_unhealthy : bool;
}.

Record StickySessionEntry := mkStickySessionEntry {
  ss_account_id : Uuid;
  ss_expires_at : Instant;
  ss_last_used_at : Instant;
}.

Record Router := mkRouter {
  accounts : list UpstreamAccount;
  account_traits : gmap Uuid AccountRoutingTraits;
  compiled_routing_plan : option CompiledRoutingPlan;
  cursor : Z; (* AtomicUsize, 64 bits *)
  health : gmap Uuid Instant;
  recent_success : gmap Uuid Instant;
  sticky_sessions : gmap string StickySessionEntry;
  sticky_session_ttl : Duration;
  sticky_session_max_entries : nat;
  sticky_session_total : Z;
  sticky_hit_count : Z;
  sticky_miss_count : Z;
  sticky_rebind_count : Z;
}.

Record StickyRoutingStats := mkStickyRoutingStats {
  srs_sticky_session_total : Z;
  srs_sticky_hit_count : Z;
  srs_sticky_miss_count : Z;
  srs_sticky_rebind_count : Z;
  srs_sticky_mapping_total : nat;
}.

(** Writes to one field. *)
Definition set_accounts (v : list UpstreamAccount) (r : Router) : Router :=
  mkRouter v (account_traits r) (compiled_routing_plan r) (cursor r) (health r)
    (recent_success r) (sticky_sessions r) (sticky_session_ttl r)
    (sticky_session_max_entries r) (sticky_session_total r) (sticky_hit_count r)
    (sticky_miss_count r) (sticky_rebind_count r).
Definition set_account_traits (v : gmap Uuid AccountRoutingTraits) (r : Router) : Router :=
  mkRouter (accounts r) v (compiled_routing_plan r) (cursor r) (health r)
    (recent_success r) (sticky_sessions r) (sticky_session_ttl r)
    (sticky_session_max_entries r) (sticky_session_total r) (sticky_hit_count r)
    (sticky_miss_count r) (sticky_rebind_count r).
Definition set_plan (v : option CompiledRoutingPlan) (r : Router) : Router :=
  mkRouter (accounts r) (account_traits r) v (cursor r) (health r)
    (recent_success r) (sticky_sessions r) (sticky_session_ttl r)
    (sticky_session_max_entries r) (sticky_session_total r) (sticky_hit_count r)
    (sticky_miss_count r) (sticky_rebind_count r).
Definition set_cursor (v : Z) (r : Router) : Router :=
  mkRouter (accounts r) (account_traits r) (compiled_routing_plan r) v (health r)
    (recent_success r) (sticky_sessions r) (sticky_session_ttl r)
    (sticky_session_max_entries r) (sticky_session_total r) (sticky_hit_count r)
    (sticky_miss_count r) (sticky_rebind_count r).
Definition set_health (v : gmap Uuid Instant) (r : Router) : Router :=
  mkRouter (accounts r) (account_traits r) (compiled_routing_plan r) (cursor r) v
    (recent_success r) (sticky_sessions r) (sticky_session_ttl r)
    (sticky_session_max_entries r) (sticky_session_total r) (sticky_hit_count r)
    (sticky_miss_count r) (sticky_rebind_count r).
Definition set_recent_success (v : gmap Uuid Instant) (r : Router) : Router :=
  mkRouter (accounts r) (account_traits r) (compiled_routing_plan r) (cursor r) (health r)
    v (sticky_sessions r) (sticky_session_ttl r)
    (sticky_session_max_entries r) (sticky_session_total r) (sticky_hit_count r)
    (sticky_miss_count r) (sticky_rebind_count r).
Definition set_sticky_sessions (v : gmap string StickySessionEntry) (r : Router) : Router :=
  mkRouter (accounts r) (account_traits r) (compiled_routing_plan r) (cursor r) (health r)
    (recent_success r) v (sticky_session_ttl r)
    (sticky_session_max_entries r) (sticky_session_total r) (sticky_hit_count r)
    (sticky_miss_count r) (sticky_rebind_count r).
Definition set_counters (total hit miss rebind : Z) (r : Router) : Router :=
  mkRouter (accounts r) (account_traits r) (compiled_routing_plan r) (cursor r) (health r)
    (recent_success r) (sticky_sessions r) (sticky_session_ttl r)
    (sticky_session_max_entries r) total hit miss rebind.

(** [fetch_add(1)] on the counters; atomics wrap around. *)
Definition incr_total (r : Router) : Router :=
  set_counters (u64_wrap (sticky_session_total r + 1)) (sticky_hit_count r)
    (sticky_miss_count r) (sticky_rebind_count r) r.
Definition incr_hit (r : Router) : Router :=
  set_counters (sticky_session_total r) (u64_wrap (sticky_hit_count r + 1))
    (sticky_miss_count r) (sticky_rebind_count r) r.
Definition incr_miss (r : Router) : Router :=
  set_counters (sticky_session_total r) (sticky_hit_count r)
    (u64_wrap (sticky_miss_count r + 1)) (sticky_rebind_count r) r.
Definition incr_rebind (r : Router) : Router :=
  set_counters (sticky_session_total r) (sticky_hit_count r) (sticky_miss_count r)
    (u64_wrap (sticky_rebind_count r + 1)) r.

Abbreviation RM := (ST (Timed Router)).

(** ** Construction *)

Definition new_with_sticky_limits (accts : list UpstreamAccount) (ttl : Duration)
    (max_entries : nat) : Router :=
  mkRouter accts ∅ None 0 ∅ ∅ ∅ (ttl `max` from_millis 1) (max_entries `max` 1)%nat 0 0 0 0.

Definition new (accts : list UpstreamAccount) : Router :=
  new_with_sticky_limits accts DEFAULT_STICKY_SESSION_TTL DEFAULT_STICKY_SESSION_MAX_ENTRIES.

(** ** Pure helpers *)

Definition find_account (id : Uuid) (l : list UpstreamAccount) : option UpstreamAccount :=
  List.find (λ a, bool_decide (ua_id a = id)) l.

Definition routing_health_freshness_rank (f : option AccountRoutingHealthFreshness) : Z :=
  match f with
  | Some Fresh => 2
  | Some Stale => 1
  | Some Unknown | None => 0
  end.

Definition prune_expired_sticky_sessions (items : gmap string StickySessionEntry)
    (now : Instant) : gmap string StickySessionEntry :=
  filter (λ kv, now < ss_expires_at kv.2) items.

Definition normalize_sticky_key (raw : option string) : option string :=
  match raw with
  | None => None
  | Some raw => let key := trim raw in if is_empty key then None else Some key
  end.

Definition account_diagnostics_for (account : UpstreamAccount) (health : gmap Uuid Instant)
    (now : Instant) : AccountDiagnostics :=
  mkAccountDiagnostics (ua_id account) (ua_label account) (ua_mode account)
    (ua_enabled account) (ua_priority account) (ua_base_url account)
    (ua_chatgpt_account_id account)
    (match health !! ua_id account with Some until => now <? until | None => false end).

(** The comparisons of the two [max_by] calls: latest success, then identifier;
    freshness rank, then latest probe, then identifier. *)
Definition success_cmp (l r : Uuid * Instant) : comparison :=
  then_with (Z.compare l.2 r.2) (N.compare l.1 r.1).
Definition probe_cmp (l r : Uuid * Z * option DateTime) : comparison :=
  then_with (Z.compare l.1.2 r.1.2)
    (then_with (option_compare Z.compare l.2 r.2) (N.compare l.1.1 r.1.1)).

Definition last_success (rs : gmap Uuid Instant) (id : Uuid) : option (Uuid * Instant) :=
  (λ seen_at, (id, seen_at)) <$> rs !! id.
Definition last_probe (tr : gmap Uuid AccountRoutingTraits) (id : Uuid) :
    option (Uuid * Z * option DateTime) :=
  t ← tr !! id;
  let freshness_rank := routing_health_freshness_rank (art_health_freshness t) in
  if 0 <? freshness_rank then Some (id, freshness_rank, art_last_probe_at t) else None.

(** [candidate_account_ids_for_model]: the account ids of the route of a model,
    [None] when the model is routed over the whole pool. *)
Definition policy_matches_exact (model : string) (p : CompiledModelRoutingPolicy) : bool :=
  existsb (λ item, bool_decide (item = model)) (cmrp_exact_models p).
Definition policy_matches_prefix (model : string) (p : CompiledModelRoutingPolicy) : bool :=
  existsb (λ prefix, starts_with model prefix) (cmrp_model_prefixes p).

Definition route_segments (plan : CompiledRoutingPlan) (model : string) :
    list CompiledRoutingProfile :=
  let exact_match := List.find (policy_matches_exact model) (plan_policies plan) in
  let prefix_match := List.find (policy_matches_prefix model) (plan_policies plan) in
  match (match exact_match with Some p => Some p | None => prefix_match end) with
  | Some p => cmrp_fallback_segments p
  | None => plan_default_route plan
  end.

Definition candidate_ids (plan : option CompiledRoutingPlan) (model : option string) :
    option (list Uuid) :=
  match model with
  | None => None
  | Some model =>
      let model := trim model in
      if is_empty model then None else
      match plan with
      | None => None
      | Some plan =>
          let segments := route_segments plan model in
          match segments with
          | [] => None
          | _ =>
              let account_ids := concat (crp_account_ids <$> segments) in
              match account_ids with [] => None | _ => Some account_ids end
          end
      end
  end.

(** ** Methods *)

Section methods.
Context `{Clock} `{HashOrder}.

Definition is_healthy (account_id : Uuid) : RM bool :=
  t ← now;
  until ← gets (λ r, health r !! account_id);
  match until with
  | None => mret true
  | Some until =>
      if t <? until then mret false else
      _ ← modify (λ r,
            match health r !! account_id with
            | Some deadline =>
                if deadline <=? t then set_health (delete account_id (health r)) r else r
            | None => r
            end);
      mret true
  end.

Definition pick_specific (account_id : Uuid) : RM (option UpstreamAccount) :=
  accts ← gets accounts;
  match find_account account_id accts with
  | None => mret None
  | Some account =>
      if negb (ua_enabled account) then mret None else
      healthy ← is_healthy (ua_id account);
      if healthy : bool then mret (Some account) else mret None
  end.

(** The test shared by the two [preferred_*] scans over the pool. *)
Definition selectable (excluded : gset Uuid) (account : UpstreamAccount) : RM bool :=
  if bool_decide (ua_id account ∈ excluded) then mret false else
  if negb (ua_enabled account) then mret false else
  is_healthy (ua_id account).

Definition preferred_recent_success_account_id (accts : list UpstreamAccount)
    (excluded : gset Uuid) : RM (option Uuid) :=
  rs ← gets recent_success;
  l ← mfilter (selectable excluded) accts;
  mret (fst <$> max_by success_cmp (omap (λ a, last_success rs (ua_id a)) l)).

Definition preferred_recent_probe_account_id (accts : list UpstreamAccount)
    (excluded : gset Uuid) : RM (option Uuid) :=
  tr ← gets account_traits;
  l ← mfilter (selectable excluded) accts;
  mret ((λ x, x.1.1) <$> max_by probe_cmp (omap (λ a, last_probe tr (ua_id a)) l)).

(** The round-robin loop of [pick_excluding] and of
    [pick_avoiding_sticky_conflicts]; [skip] is the [continue] guard. *)
Fixpoint round_robin_scan (n : nat) (accts : list UpstreamAccount) (skip : Uuid → bool) :
    RM (option UpstreamAccount) :=
  match n with
  | O => mret None
  | Datatypes.S n =>
      c ← gets cursor;
      _ ← modify (λ r, set_cursor (u64_wrap (cursor r + 1)) r);
      match accts !! Z.to_nat (c `mod` Z.of_nat (length accts)) with
      | None => mret None
      | Some account =>
          if skip (ua_id account) then round_robin_scan n accts skip else
          if negb (ua_enabled account) then round_robin_scan n accts skip else
          healthy ← is_healthy (ua_id account);
          if healthy : bool then mret (Some account) else round_robin_scan n accts skip
      end
  end.

Definition pick_excluding (excluded : gset Uuid) : RM (option UpstreamAccount) :=
  accts ← gets accounts;
  match accts with
  | [] => mret None
  | _ =>
      recent ← preferred_recent_success_account_id accts excluded;
      match recent ≫= λ id, find_account id accts with
      | Some account => mret (Some account)
      | None =>
          probed ← preferred_recent_probe_account_id accts excluded;
          match probed ≫= λ id, find_account id accts with
          | Some account => mret (Some account)
          | None =>
              round_robin_scan (length accts) accts (λ id, bool_decide (id ∈ excluded))
          end
      end
  end.

Definition pick : RM (option UpstreamAccount) := pick_excluding ∅.

(** *** Sticky sessions *)

Definition get_sticky_account_id (sticky_key : string) : RM (option Uuid) :=
  t ← now;
  _ ← modify (λ r,
        set_sticky_sessions (prune_expired_sticky_sessions (sticky_sessions r) t) r);
  entry ← gets (λ r, sticky_sessions r !! sticky_key);
  match entry with
  | None => mret None
  | Some entry =>
      _ ← modify (λ r,
            set_sticky_sessions
              (<[sticky_key := mkStickySessionEntry (ss_account_id entry)
                                 (t + sticky_session_ttl r) t]> (sticky_sessions r)) r);
      mret (Some (ss_account_id entry))
  end.

Definition remove_sticky_mapping (sticky_key : string) : RM unit :=
  modify (λ r, set_sticky_sessions (delete sticky_key (sticky_sessions r)) r).

(** The [while items.len() >= max_entries] loop. Each turn removes one entry of
    the map, so [size items] turns are enough fuel. *)
Fixpoint evict_oldest (fuel : nat) (items : gmap string StickySessionEntry)
    (max_entries : nat) : gmap string StickySessionEntry :=
  match fuel with
  | O => items
  | Datatypes.S fuel =>
      if bool_decide (max_entries ≤ size items)%nat then
        match min_by_key (λ kv, ss_last_used_at kv.2) (hash_iter items) with
        | None => items
        | Some (oldest_key, _) => evict_oldest fuel (delete oldest_key items) max_entries
        end
      else items
  end.

Definition enforce_sticky_capacity (items : gmap string StickySessionEntry)
    (max_entries : nat) : gmap string StickySessionEntry :=
  evict_oldest (size items) items max_entries.

Definition insert_sticky_mapping (sticky_key : string) (account_id : Uuid) : RM bool :=
  t ← now;
  _ ← modify (λ r,
        set_sticky_sessions (prune_expired_sticky_sessions (sticky_sessions r) t) r);
  _ ← modify (λ r,
        set_sticky_sessions
          (enforce_sticky_capacity (sticky_sessions r) (sticky_session_max_entries r)) r);
  previous ← gets (λ r, sticky_sessions r !! sticky_key);
  _ ← modify (λ r,
        set_sticky_sessions
          (<[sticky_key := mkStickySessionEntry account_id (t + sticky_session_ttl r) t]>
             (sticky_sessions r)) r);
  mret (match previous with
        | Some previous => negb (bool_decide (ss_account_id previous = account_id))
        | None => false
        end).

Definition collect_conflict_account_ids (sticky_key : string) : RM (gset Uuid) :=
  t ← now;
  _ ← modify (λ r,
        set_sticky_sessions (prune_expired_sticky_sessions (sticky_sessions r) t) r);
  gets (λ r,
    list_to_set
      ((λ kv, ss_account_id kv.2) <$>
         filter (λ kv, kv.1 ≠ sticky_key) (map_to_list (sticky_sessions r)))).

Definition sticky_mapping_total : RM nat :=
  t ← now;
  _ ← modify (λ r,
        set_sticky_sessions (prune_expired_sticky_sessions (sticky_sessions r) t) r);
  gets (λ r, size (sticky_sessions r)).

Definition pick_avoiding_sticky_conflicts (sticky_key : string) (excluded : gset Uuid) :
    RM (option UpstreamAccount) :=
  conflict_ids ← collect_conflict_account_ids sticky_key;
  accts ← gets accounts;
  match accts with
  | [] => mret None
  | _ =>
      round_robin_scan (length accts) accts
        (λ id, bool_decide (id ∈ excluded) || bool_decide (id ∈ conflict_ids))
  end.

Definition rebind_if (rebind : bool) : RM unit :=
  if rebind then modify incr_rebind else mret ().

(** [fallible.or_else(|| ..)] on computations. *)
Definition or_else {A} (m1 m2 : RM (option A)) : RM (option A) :=
  r ← m1; match r with Some a => mret (Some a) | None => m2 end.

(** The body that [pick_with_round_robin_policy] and [pick_from_ordered_candidates]
    share once the sticky key is normalised: [reject] is the condition under
    which the bound account is unbound at once, [select] the choice made on a miss. *)
Definition with_sticky_session (sticky_key : string) (reject : Uuid → bool)
    (select : RM (option UpstreamAccount)) : RM (option UpstreamAccount) :=
  _ ← modify incr_total;
  sticky_account_id ← get_sticky_account_id sticky_key;
  hit ← (match sticky_account_id with
         | None => mret None
         | Some sticky_account_id =>
             if reject sticky_account_id then
               _ ← remove_sticky_mapping sticky_key; mret None
             else
               account ← pick_specific sticky_account_id;
               match account with
               | Some account => _ ← modify incr_hit; mret (Some account)
               | None => _ ← remove_sticky_mapping sticky_key; mret None
               end
         end);
  match hit with
  | Some account => mret (Some account)
  | None =>
      _ ← modify incr_miss;
      account ← select;
      match account with
      | None => mret None
      | Some account =>
          rebind ← insert_sticky_mapping sticky_key (ua_id account);
          _ ← rebind_if rebind;
          mret (Some account)
      end
  end.

Definition pick_with_round_robin_policy (sticky_key : option string) (excluded : gset Uuid)
    (prefer_non_conflicting : bool) : RM (option UpstreamAccount) :=
  match normalize_sticky_key sticky_key with
  | None => pick_excluding excluded
  | Some sticky_key =>
      with_sticky_session sticky_key (λ id, bool_decide (id ∈ excluded))
        (if prefer_non_conflicting
         then or_else (pick_avoiding_sticky_conflicts sticky_key excluded)
                (pick_excluding excluded)
         else pick_excluding excluded)
  end.

(** *** Routing by model *)

Definition preferred_candidate_probe_account_id (candidates : list Uuid)
    (excluded : gset Uuid) : RM (option Uuid) :=
  tr ← gets account_traits;
  mret ((λ x, x.1.1) <$>
          max_by probe_cmp (omap (last_probe tr) (filter (λ id, id ∉ excluded) candidates))).

(** [for account_id in candidate_ids { if skipped { continue } .. pick_specific .. }] *)
Definition pick_first_candidate (candidates : list Uuid) (skip : Uuid → bool) :
    RM (option UpstreamAccount) :=
  find_mapM (λ id, if skip id then mret None else pick_specific id) candidates.

Definition pick_candidate_account (candidates : list Uuid) (excluded : gset Uuid) :
    RM (option UpstreamAccount) :=
  rs ← gets recent_success;
  let recent :=
    fst <$> max_by success_cmp (omap (last_success rs) (filter (λ id, id ∉ excluded) candidates)) in
  or_else (match recent with Some id => pick_specific id | None => mret None end)
    (probed ← preferred_candidate_probe_account_id candidates excluded;
     or_else (match probed with Some id => pick_specific id | None => mret None end)
       (pick_first_candidate candidates (λ id, bool_decide (id ∈ excluded)))).

Definition pick_candidate_account_avoiding_conflicts (sticky_key : string)
    (candidates : list Uuid) (excluded : gset Uuid) : RM (option UpstreamAccount) :=
  conflict_ids ← collect_conflict_account_ids sticky_key;
  pick_first_candidate candidates
    (λ id, bool_decide (id ∈ excluded) || bool_decide (id ∈ conflict_ids)).

Definition pick_from_ordered_candidates (candidates : list Uuid) (sticky_key : option string)
    (excluded : gset Uuid) (prefer_non_conflicting : bool) : RM (option UpstreamAccount) :=
  let candidate_id_set : gset Uuid := list_to_set candidates in
  match normalize_sticky_key sticky_key with
  | None => pick_candidate_account candidates excluded
  | Some sticky_key =>
      with_sticky_session sticky_key
        (λ id, bool_decide (id ∈ excluded) || negb (bool_decide (id ∈ candidate_id_set)))
        (if prefer_non_conflicting
         then or_else
                (pick_candidate_account_avoiding_conflicts sticky_key candidates excluded)
                (pick_candidate_account candidates excluded)
         else pick_candidate_account candidates excluded)
  end.

Definition candidate_account_ids_for_model (model : option string) : RM (option (list Uuid)) :=
  gets (λ r, candidate_ids (compiled_routing_plan r) model).

Definition pick_for_model (model sticky_key : option string) (excluded : gset Uuid)
    (prefer_non_conflicting : bool) : RM (option UpstreamAccount) :=
  candidates ← candidate_account_ids_for_model model;
  match candidates with
  | Some candidates =>
      pick_from_ordered_candidates candidates sticky_key excluded prefer_non_conflicting
  | None => pick_with_round_robin_policy sticky_key excluded prefer_non_conflicting
  end.

Definition pick_with_policy (sticky_key : option string) (excluded : gset Uuid)
    (prefer_non_conflicting : bool) : RM (option UpstreamAccount) :=
  pick_for_model None sticky_key excluded prefer_non_conflicting.

Definition pick_with_sticky (sticky_key : option string) : RM (option UpstreamAccount) :=
  pick_for_model None sticky_key ∅ false.

Definition account_matches_model_route (account_id : Uuid) (model : option string) : RM bool :=
  candidates ← candidate_account_ids_for_model model;
  mret (match candidates with
        | None => true
        | Some candidates => bool_decide (account_id ∈ candidates)
        end).

(** *** Reads *)

Definition pick_account (account_id : Uuid) : RM (option UpstreamAccount) :=
  pick_specific account_id.

Definition get_account_any_state (account_id : Uuid) : RM (option UpstreamAccount) :=
  gets (λ r, find_account account_id (accounts r)).

Definition get_compiled_routing_plan : RM (option CompiledRoutingPlan) :=
  gets compiled_routing_plan.

Definition sticky_stats : RM StickyRoutingStats :=
  total ← gets sticky_session_total;
  hit ← gets sticky_hit_count;
  miss ← gets sticky_miss_count;
  rebind ← gets sticky_rebind_count;
  mapping_total ← sticky_mapping_total;
  mret (mkStickyRoutingStats total hit miss rebind mapping_total).

Definition total : RM nat := gets (λ r, length (accounts r)).

Definition enabled_total : RM nat :=
  gets (λ r, length (filter (λ a, ua_enabled a = true) (accounts r))).

Definition list_account_diagnostics : RM (list AccountDiagnostics) :=
  t ← now;
  gets (λ r, (λ a, account_diagnostics_for a (health r) t) <$> accounts r).

Definition account_diagnostics (account_id : Uuid) : RM (option AccountDiagnostics) :=
  t ← now;
  gets (λ r, (λ a, account_diagnostics_for a (health r) t) <$> find_account account_id (accounts r)).

(** *** Writes *)

Definition replace_compiled_routing_plan (plan : option CompiledRoutingPlan) : RM unit :=
  modify (set_plan plan).

Definition account_ids (l : list UpstreamAccount) : gset Uuid := list_to_set (ua_id <$> l).

(** [HashMap::retain] on the per-account maps and on the sticky sessions. *)
Definition retain_ids {V} (valid_ids : gset Uuid) (m : gmap Uuid V) : gmap Uuid V :=
  filter (λ kv, kv.1 ∈ valid_ids) m.
Definition retain_sticky (p : Uuid → bool) (m : gmap string StickySessionEntry) :
    gmap string StickySessionEntry :=
  filter (λ kv, p (ss_account_id kv.2) = true) m.

Definition replace_accounts (accts : list UpstreamAccount) : RM unit :=
  let valid_ids := account_ids accts in
  _ ← modify (set_accounts accts);
  _ ← modify (set_cursor 0);
  _ ← modify (λ r, set_account_traits (retain_ids valid_ids (account_traits r)) r);
  _ ← modify (λ r, set_health (retain_ids valid_ids (health r)) r);
  _ ← modify (λ r, set_recent_success (retain_ids valid_ids (recent_success r)) r);
  modify (λ r, set_sticky_sessions
                 (retain_sticky (λ id, bool_decide (id ∈ valid_ids)) (sticky_sessions r)) r).

(** [collect] into a [HashMap]: the last trait of an account wins. *)
Definition replace_account_traits (traits : list AccountRoutingTraits) : RM unit :=
  valid_ids ← gets (λ r, account_ids (accounts r));
  modify (set_account_traits
            (list_to_map (reverse
               ((λ item, (art_account_id item, item)) <$>
                  filter (λ item, art_account_id item ∈ valid_ids) traits)))).

(** [accounts.iter_mut().find(..)] and assignment: the first match is replaced. *)
Fixpoint replace_first (account : UpstreamAccount) (l : list UpstreamAccount) :
    option (list UpstreamAccount) :=
  match l with
  | [] => None
  | a :: l =>
      if bool_decide (ua_id a = ua_id account) then Some (account :: l)
      else (λ l', a :: l') <$> replace_first account l
  end.

(** The removals shared by [upsert_account] (of a disabled account) and
    [delete_account]. *)
Definition forget_account (account_id : Uuid) : RM unit :=
  _ ← modify (λ r, set_account_traits (delete account_id (account_traits r)) r);
  _ ← modify (λ r, set_health (delete account_id (health r)) r);
  _ ← modify (λ r, set_recent_success (delete account_id (recent_success r)) r);
  modify (λ r, set_sticky_sessions
                 (retain_sticky (λ id, negb (bool_decide (id = account_id)))
                    (sticky_sessions r)) r).

Definition upsert_account (account : UpstreamAccount) : RM unit :=
  accts ← gets accounts;
  replaced ← (match replace_first account accts with
              | Some accts' => _ ← modify (set_accounts accts'); mret true
              | None => _ ← modify (set_accounts (accts ++ [account])); mret false
              end);
  _ ← (if replaced : bool then mret () else modify (set_cursor 0));
  if ua_enabled account then mret () else forget_account (ua_id account).

Definition delete_account (account_id : Uuid) : RM bool :=
  accts ← gets accounts;
  let accts' := filter (λ a, ua_id a ≠ account_id) accts in
  _ ← modify (set_accounts accts');
  if bool_decide (length accts' = length accts) then mret false else
  _ ← forget_account account_id;
  mret true.

Definition mark_unhealthy (account_id : Uuid) (ttl : Duration) : RM unit :=
  if ttl =? 0 then mret () else
  t ← now;
  modify (λ r, set_health (<[account_id := t + ttl]> (health r)) r).

Definition clear_unhealthy (account_id : Uuid) : RM bool :=
  known ← gets (λ r, existsb (λ a, bool_decide (ua_id a = account_id)) (accounts r));
  if negb known then mret false else
  _ ← modify (λ r, set_health (delete account_id (health r)) r);
  mret true.

Definition clear_all_unhealthy : RM nat :=
  cleared ← gets (λ r, size (health r));
  _ ← modify (set_health ∅);
  mret cleared.

Definition record_success (account_id : Uuid) : RM unit :=
  known ← gets (λ r,
    existsb (λ a, bool_decide (ua_id a = account_id) && ua_enabled a) (accounts r));
  if negb known then mret () else
  t ← now;
  modify (λ r, set_recent_success (<[account_id := t]> (recent_success r)) r).

Definition bind_sticky (sticky_key : string) (account_id : Uuid) : RM bool :=
  match normalize_sticky_key (Some sticky_key) with
  | None => mret false
  | Some sticky_key =>
      account ← pick_specific account_id;
      match account with
      | None => mret false
      | Some _ =>
          rebind ← insert_sticky_mapping sticky_key account_id;
          _ ← rebind_if rebind;
          mret true
      end
  end.

Definition unbind_sticky (sticky_key : string) : RM bool :=
  match normalize_sticky_key (Some sticky_key) with
  | None => mret false
  | Some sticky_key =>
      t ← now;
      _ ← modify (λ r,
            set_sticky_sessions (prune_expired_sticky_sessions (sticky_sessions r) t) r);
      bound ← gets (λ r, bool_decide (is_Some (sticky_sessions r !! sticky_key)));
      _ ← remove_sticky_mapping sticky_key;
      mret bound
  end.
End methods.

(** The account of the unit tests at the end of [router.rs]. *)
Module Samples.
Definition account (id : Uuid) : UpstreamAccount :=
  mkUpstreamAccount id "acct" ChatGptSession "https://chatgpt.com/backend-api/codex" "tok"
    None true 100 0.
End Samples.
