(* ===== verification/RouterFacts.v ===== *)
(** * The router: what every pick guarantees

    The frame of the selection methods, and the soundness and completeness of
    each of them, up to [pick_for_model]. *)
From S2P Require Import Prelude RustStr CoreModel Router.

Create HintDb router.

(** ** Accounts *)

Definition ids_of (r : Router) : list Uuid := ua_id <$> accounts r.

Lemma find_account_Some id l a : find_account id l = Some a → a ∈ l ∧ ua_id a = id.
Proof.
  unfold find_account. intros [Hin Heq]%List.find_some.
  split; [by apply list_elem_of_In|]. by apply bool_decide_eq_true in Heq.
Qed.

Lemma find_account_None id l : find_account id l = None → ∀ a, a ∈ l → ua_id a ≠ id.
Proof.
  unfold find_account. intros Hf a Hin%list_elem_of_In Heq.
  by apply (List.find_none _ _ Hf), bool_decide_eq_false in Hin.
Qed.

Lemma NoDup_ids_inj (l : list UpstreamAccount) a b :
  NoDup (ua_id <$> l) → a ∈ l → b ∈ l → ua_id a = ua_id b → a = b.
Proof.
  induction l as [|x l IH]; simpl; [by intros _ ?%not_elem_of_nil|].
  intros [Hx Hnd]%list.NoDup_cons Ha Hb Heq.
  apply elem_of_cons in Ha as [->|Ha], Hb as [->|Hb]; [done| | |eauto].
  - exfalso. apply Hx. rewrite Heq. by apply list_elem_of_fmap_2.
  - exfalso. apply Hx. rewrite <-Heq. by apply list_elem_of_fmap_2.
Qed.

Lemma find_account_NoDup (l : list UpstreamAccount) a :
  NoDup (ua_id <$> l) → a ∈ l → find_account (ua_id a) l = Some a.
Proof.
  intros Hnd Ha. destruct (find_account (ua_id a) l) as [b|] eqn:Hf.
  - apply find_account_Some in Hf as [Hb Heq]. f_equal. by eapply NoDup_ids_inj.
  - by destruct (find_account_None _ _ Hf a).
Qed.

(** ** The frame of a pick

    What a selection method leaves alone: the pool, the plan, the traits, the
    successes and the limits. It drops ejections, only expired ones, and lets time pass. *)
Record pick_frame `{Clock} (w w' : Timed Router) : Prop := {
  pf_accounts : accounts (st w') = accounts (st w);
  pf_traits : account_traits (st w') = account_traits (st w);
  pf_plan : compiled_routing_plan (st w') = compiled_routing_plan (st w);
  pf_success : recent_success (st w') = recent_success (st w);
  pf_ttl : sticky_session_ttl (st w') = sticky_session_ttl (st w);
  pf_max : sticky_session_max_entries (st w') = sticky_session_max_entries (st w);
  pf_health : health (st w') ⊆ health (st w);
  pf_ticks : (ticks w ≤ ticks w')%nat;
  pf_ejected id until : health (st w) !! id = Some until → time w' < until →
    health (st w') !! id = Some until;
}.

Lemma pick_frame_refl `{Clock} w : pick_frame w w.
Proof. by split. Qed.

Lemma pick_frame_trans `{Clock} w1 w2 w3 :
  pick_frame w1 w2 → pick_frame w2 w3 → pick_frame w1 w3.
Proof.
  intros H12 H23. pose proof (time_mono w2 w3 (pf_ticks _ _ H23)).
  destruct H12 as [?? ?? ?? ?? Hej1], H23 as [?? ?? ?? ?? Hej2].
  split; try congruence; [by etrans|lia|].
  intros id until Hu Ht. apply Hej2; [|done]. apply Hej1; [done|lia].
Qed.

#[export] Instance pick_frame_preorder `{Clock} : PreOrder pick_frame.
Proof. split; [exact pick_frame_refl|exact pick_frame_trans]. Qed.

#[export] Hint Resolve pick_frame_refl : router.
#[export] Hint Extern 2 (pick_frame _ _) => (split; simpl; (done || lia)) : router.

(** An account that may serve a request: in the pool, enabled, not ejected. *)
Definition usable (a : UpstreamAccount) (w : Timed Router) : Prop :=
  a ∈ accounts (st w) ∧ ua_enabled a = true ∧ health (st w) !! ua_id a = None.

Lemma usable_frame `{Clock} a w w' : usable a w → pick_frame w w' → usable a w'.
Proof.
  intros (Ha & He & Hh) [Hacc _ _ _ _ _ Hsub _ _]. split_and!; [by rewrite Hacc|done|].
  eapply lookup_weaken_None; eauto.
Qed.

(** An account that a pick started at [w] has to consider healthy: its ejection,
    if any, is already over. *)
Definition live (id : Uuid) `{Clock} (w : Timed Router) : Prop :=
  ∀ until, health (st w) !! id = Some until → until <= time w.

Lemma live_frame `{Clock} id w w' : live id w → pick_frame w w' → live id w'.
Proof.
  intros Hl Hf until Hu. pose proof (time_mono w w' (pf_ticks _ _ Hf)).
  specialize (Hl until (lookup_weaken _ _ _ _ Hu (pf_health _ _ Hf))). lia.
Qed.

(** What a fallible selection promises: the frame, and that a result is usable,
    not excluded and satisfies [P]. *)
Definition selects `{Clock} (P : UpstreamAccount → Prop) (w : Timed Router)
    (r : option UpstreamAccount) (w' : Timed Router) : Prop :=
  pick_frame w w' ∧ ∀ a, r = Some a → usable a w' ∧ P a.

Lemma selects_none `{Clock} P w w' : pick_frame w w' → selects P w None w'.
Proof. by split. Qed.

Lemma selects_some `{Clock} P w w' a : pick_frame w w' → usable a w' → P a → selects P w (Some a) w'.
Proof. split; [done|]. by intros ? [= ->]. Qed.

Lemma selects_frame_l `{Clock} P w w1 r w' : pick_frame w w1 → selects P w1 r w' → selects P w r w'.
Proof. intros ? [? ?]. split; [by etrans|done]. Qed.

Lemma selects_mono `{Clock} (P Q : UpstreamAccount → Prop) w r w' :
  (∀ a, P a → Q a) → selects P w r w' → selects Q w r w'.
Proof. intros HPQ [? Hs]. split; [done|]. intros a Ha. destruct (Hs a Ha). eauto. Qed.

#[export] Hint Resolve selects_none selects_some : router.

Section selection.
Context `{Clock} `{HashOrder}.
Implicit Types (w : Timed Router) (P : UpstreamAccount → Prop).

(** ** Health *)

Lemma is_healthy_spec id w :
  wp (is_healthy id) (λ b w',
    (∃ h, w' = mkTimed (set_health h (st w)) (Datatypes.S (ticks w)) ∧ pick_frame w w') ∧
    if b then health (st w') !! id = None
    else ∃ until, health (st w) !! id = Some until ∧ time w < until) w.
Proof.
  unfold is_healthy. wp_step. wp_step. wp_step. wp_step. simpl.
  assert (Hsame : ∃ h, mkTimed (st w) (Datatypes.S (ticks w)) =
            mkTimed (set_health h (st w)) (Datatypes.S (ticks w)) ∧
            pick_frame w (mkTimed (st w) (Datatypes.S (ticks w)))).
  { exists (health (st w)). split; [by destruct (st w)|auto with router]. }
  destruct (health (st w) !! id) as [until|] eqn:Hu; simpl.
  - destruct (Z.ltb_spec (clock (ticks w)) until) as [Hlt|Hle].
    + wp_step. split; [done|by eauto].
    + wp_step. wp_step. simpl. wp_step. simpl. rewrite Hu.
      destruct (Z.leb_spec until (clock (ticks w))); [|lia].
      split; [|apply lookup_delete_eq]. eexists. split; [done|].
      split; simpl; try done; [apply delete_subseteq|lia|].
      intros id' until' Hu' Ht. rewrite lookup_delete_ne; [done|]. intros <-.
      rewrite Hu in Hu'. injection Hu' as <-. unfold time in Ht. simpl in Ht.
      pose proof (clock_mono (ticks w) (Datatypes.S (ticks w))). lia.
  - wp_step. by split.
Qed.

Lemma is_healthy_frame id w :
  wp (is_healthy id) (λ b w', pick_frame w w' ∧ (b = true → health (st w') !! id = None)
                           ∧ (live id w → b = true)) w.
Proof.
  eapply wp_mono; [apply is_healthy_spec|]. intros b w' [(h & -> & Hfr) Hb].
  split_and!; [done|by intros ->|].
  intros Hl. destruct b; [done|]. destruct Hb as (until & Hu & Ht).
  specialize (Hl until Hu). lia.
Qed.

(** ** Picking a given account *)

Lemma pick_specific_sound id w :
  wp (pick_specific id) (selects (λ a, ua_id a = id) w) w.
Proof.
  unfold pick_specific. wp_step. wp_step.
  destruct (find_account id _) as [a|] eqn:Hf; [|by wp_step; auto with router].
  apply find_account_Some in Hf as [Ha Hid].
  destruct (ua_enabled a) eqn:He; simpl; [|by wp_step; auto with router].
  wp_step. wp_use is_healthy_frame as b w' (Hfr & Hb & _).
  destruct b; wp_step; [|by auto with router].
  apply selects_some; [done| |done]. split_and!; [by rewrite (pf_accounts _ _ Hfr)|done|auto].
Qed.

Lemma pick_specific_complete a w :
  NoDup (ids_of (st w)) → a ∈ accounts (st w) → ua_enabled a = true → live (ua_id a) w →
  wp (pick_specific (ua_id a)) (λ r _, r = Some a) w.
Proof.
  intros Hnd Ha He Hl. unfold pick_specific. wp_step. wp_step.
  rewrite find_account_NoDup, He by done. simpl. wp_step.
  wp_use is_healthy_frame as b w' (_ & _ & Hb). rewrite Hb by done. by wp_step.
Qed.

(** ** The scans over the pool *)

Lemma selectable_spec excluded a w :
  a ∈ accounts (st w) →
  wp (selectable excluded a) (λ b w', pick_frame w w' ∧
    (b = true → usable a w' ∧ ua_id a ∉ excluded)) w.
Proof.
  intros Ha. unfold selectable.
  destruct (bool_decide (ua_id a ∈ excluded)) eqn:Hex.
  { wp_step. split; [auto with router|done]. }
  apply bool_decide_eq_false in Hex.
  destruct (ua_enabled a) eqn:He; simpl; [|wp_step; split; [auto with router|done]].
  wp_use is_healthy_frame as b w' (Hfr & Hb & _). split; [done|].
  intros Hbt. split; [|done]. split_and!; [by rewrite (pf_accounts _ _ Hfr)|done|auto].
Qed.

Lemma mfilter_selectable_spec excluded w :
  wp (mfilter (selectable excluded) (accounts (st w))) (λ l w', pick_frame w w' ∧
    ∀ a, a ∈ l → usable a w' ∧ ua_id a ∉ excluded) w.
Proof.
  eapply wp_mono; [apply (wp_mfilter _ (λ w', accounts (st w') = accounts (st w)) pick_frame
                      (λ a w', usable a w' ∧ ua_id a ∉ excluded))|].
  - apply pick_frame_refl.
  - apply pick_frame_trans.
  - intros a w1 w2 [? ?] ?. split; [by eapply usable_frame|done].
  - intros a w1 Ha Heq. eapply wp_mono; [apply selectable_spec; by rewrite Heq|].
    simpl. intros b w2 [Hfr Hb]. split_and!; [by rewrite (pf_accounts _ _ Hfr)|done|done].
  - done.
  - simpl. intros l w' (_ & ? & Hl). split; [done|]. intros a Ha. by apply Hl.
Qed.

(** A scan that keeps the selectable accounts and returns the identifier of one
    of them ([pref]) names a usable account. *)
Definition selects_id (excluded : gset Uuid) w (r : option Uuid) (w' : Timed Router) : Prop :=
  pick_frame w w' ∧
  ∀ id, r = Some id → ∃ a, ua_id a = id ∧ usable a w' ∧ ua_id a ∉ excluded.

Lemma preferred_recent_success_sound excluded w :
  wp (preferred_recent_success_account_id (accounts (st w)) excluded)
     (selects_id excluded w) w.
Proof.
  unfold preferred_recent_success_account_id. wp_step. wp_step. wp_step.
  wp_use mfilter_selectable_spec as l w' [Hfr Hl]. wp_step. split; [done|].
  intros id ([id' t] & Hmax & ->)%fmap_Some.
  apply max_by_elem, list_elem_of_omap in Hmax as (a & Ha & Hs).
  unfold last_success in Hs. apply fmap_Some in Hs as (? & _ & [= -> ->]). eauto.
Qed.

Lemma preferred_recent_probe_sound excluded w :
  wp (preferred_recent_probe_account_id (accounts (st w)) excluded)
     (selects_id excluded w) w.
Proof.
  unfold preferred_recent_probe_account_id. wp_step. wp_step. wp_step.
  wp_use mfilter_selectable_spec as l w' [Hfr Hl]. wp_step. split; [done|].
  intros id ([[id' rk] t] & Hmax & ->)%fmap_Some.
  apply max_by_elem, list_elem_of_omap in Hmax as (a & Ha & Hs).
  unfold last_probe in Hs. apply bind_Some in Hs as (tr & _ & Hs).
  destruct (0 <? _); simplify_eq. simpl. eauto.
Qed.

(** ** The round-robin loop *)

Lemma round_robin_scan_sound n skip w :
  wp (round_robin_scan n (accounts (st w)) skip)
     (selects (λ a, skip (ua_id a) = false) w) w.
Proof.
  revert w. induction n as [|n IH]; intros w; simpl; [by wp_step; auto with router|].
  wp_step. wp_step. wp_step. wp_step. simpl.
  set (w1 := mkTimed _ _). assert (Hfr1 : pick_frame w w1) by auto with router.
  change (accounts (st w)) with (accounts (st w1)).
  destruct (accounts (st w1) !! _) as [a|] eqn:Hlk; [|by wp_step; auto with router].
  assert (Hnext : wp (round_robin_scan n (accounts (st w1)) skip)
                     (selects (λ a, skip (ua_id a) = false) w) w1).
  { eapply wp_mono; [apply IH|]. intros r w2. by apply selects_frame_l. }
  destruct (skip (ua_id a)) eqn:Hskip; [done|].
  destruct (ua_enabled a) eqn:He; simpl; [|done].
  wp_step. wp_use is_healthy_frame as b w2 (Hfr2 & Hb & _).
  assert (Hfr : pick_frame w w2) by (by etrans). destruct b.
  - wp_step. apply selects_some; [done| |done].
    split_and!; [|done|auto].
    rewrite (pf_accounts _ _ Hfr). by eapply list_elem_of_lookup_2.
  - change (accounts (st w1)) with (accounts (st w)). rewrite <-(pf_accounts _ _ Hfr).
    eapply wp_mono; [apply IH|]. intros r w3. by apply selects_frame_l.
Qed.

(** ** Composite picks *)

(** A selection is sound for [P] from every well-formed pool. *)
Definition sound P (m : RM (option UpstreamAccount)) : Prop :=
  ∀ w, NoDup (ids_of (st w)) → wp m (selects P w) w.

Lemma ids_of_frame w w' : pick_frame w w' → ids_of (st w') = ids_of (st w).
Proof. intros Hfr. unfold ids_of. by rewrite (pf_accounts _ _ Hfr). Qed.

Lemma NoDup_frame w w' : pick_frame w w' → NoDup (ids_of (st w)) → NoDup (ids_of (st w')).
Proof. intros Hfr. by rewrite (ids_of_frame w w' Hfr). Qed.

Lemma sound_after P m w w1 :
  sound P m → NoDup (ids_of (st w)) → pick_frame w w1 → wp m (selects P w) w1.
Proof.
  intros Hm Hnd Hfr. eapply wp_mono; [apply Hm; by eapply NoDup_frame|].
  intros r w2. by apply selects_frame_l.
Qed.

Lemma sound_or_else P m1 m2 : sound P m1 → sound P m2 → sound P (or_else m1 m2).
Proof.
  intros H1 H2 w Hnd. unfold or_else. wp_step. eapply wp_mono; [by apply H1|].
  intros [a|] w1 [Hfr Hs]; [wp_step; by split|]. by eapply sound_after.
Qed.

Lemma sound_mono P Q m : (∀ a, P a → Q a) → sound P m → sound Q m.
Proof.
  intros HPQ Hm w Hnd. eapply wp_mono; [by apply Hm|]. intros r w'. by apply selects_mono.
Qed.

Lemma selects_id_find excluded w r w' :
  NoDup (ids_of (st w)) → selects_id excluded w r w' →
  selects (λ a, ua_id a ∉ excluded) w (r ≫= λ id, find_account id (accounts (st w))) w'.
Proof.
  intros Hnd [Hfr Hr]. split; [done|]. intros a (id & -> & Hf)%bind_Some.
  destruct (Hr id eq_refl) as (b & Hid & Hb & Hex).
  pose proof Hb as (Hin & _). rewrite (pf_accounts _ _ Hfr) in Hin.
  rewrite <-Hid, (find_account_NoDup _ b Hnd Hin) in Hf. by simplify_eq.
Qed.

Lemma pick_excluding_sound excluded :
  sound (λ a, ua_id a ∉ excluded) (pick_excluding excluded).
Proof.
  intros w Hnd. unfold pick_excluding. wp_step. wp_step.
  destruct (accounts (st w)) as [|a0 l] eqn:Hacc; [by wp_step; auto with router|].
  rewrite <-Hacc. clear a0 l Hacc. wp_step.
  wp_use preferred_recent_success_sound as r1 w1 Hr1.
  pose proof Hr1 as [Hfr1 _]. apply selects_id_find in Hr1; [|done].
  destruct (r1 ≫= _) as [a|]; [by wp_step|]. wp_step.
  rewrite <-(pf_accounts _ _ Hfr1).
  wp_use preferred_recent_probe_sound as r2 w2 Hr2.
  apply selects_id_find in Hr2; [|by eapply NoDup_frame].
  destruct (r2 ≫= _) as [a|]; [by wp_step; eapply selects_frame_l|].
  destruct Hr2 as [Hfr2 _]. rewrite <-(pf_accounts _ _ Hfr2).
  eapply wp_mono; [apply round_robin_scan_sound|]. intros r w3 Hs.
  eapply selects_frame_l; [by etrans|]. eapply selects_mono; [|done].
  simpl. by intros a ?%bool_decide_eq_false.
Qed.

(** The writes to the sticky table and the counters are outside the frame. *)
Lemma frame_sticky w s : pick_frame w (mkTimed (set_sticky_sessions s (st w)) (ticks w)).
Proof. auto with router. Qed.

Lemma collect_conflicts_frame key w :
  wp (collect_conflict_account_ids key) (λ _ w', pick_frame w w') w.
Proof. unfold collect_conflict_account_ids. wp_go. auto with router. Qed.

Lemma get_sticky_frame key w : wp (get_sticky_account_id key) (λ _ w', pick_frame w w') w.
Proof. unfold get_sticky_account_id. wp_go; auto with router. Qed.

Lemma insert_sticky_frame key id w :
  wp (insert_sticky_mapping key id) (λ _ w', pick_frame w w') w.
Proof. unfold insert_sticky_mapping. wp_go. auto with router. Qed.

Lemma remove_sticky_frame key w : wp (remove_sticky_mapping key) (λ _ w', pick_frame w w') w.
Proof. unfold remove_sticky_mapping. wp_go. auto with router. Qed.

Lemma rebind_if_frame b w : wp (rebind_if b) (λ _ w', pick_frame w w') w.
Proof. unfold rebind_if. wp_go; auto with router. Qed.

Lemma pick_avoiding_sticky_conflicts_sound key excluded :
  sound (λ a, ua_id a ∉ excluded) (pick_avoiding_sticky_conflicts key excluded).
Proof.
  intros w Hnd. unfold pick_avoiding_sticky_conflicts. wp_step.
  wp_use collect_conflicts_frame as ids w1 Hfr. wp_step. wp_step.
  destruct (accounts (st w1)) as [|a0 l] eqn:Hacc; [by wp_step; auto with router|].
  rewrite <-Hacc. eapply wp_mono; [apply round_robin_scan_sound|].
  intros r w2 Hs. eapply selects_frame_l; [done|]. eapply selects_mono; [|done].
  simpl. by intros a [?%bool_decide_eq_false _]%orb_false_elim.
Qed.

Lemma with_sticky_session_sound P key reject select :
  (∀ a, reject (ua_id a) = false → P a) → sound P select →
  sound P (with_sticky_session key reject select).
Proof.
  intros Hrej Hsel w Hnd. unfold with_sticky_session. wp_step. wp_step. wp_step.
  wp_use get_sticky_frame as o w1 Hfr1. wp_step.
  assert (Hfr : pick_frame w w1) by (etrans; [|exact Hfr1]; auto with router).
  apply (wp_mono _ (selects P w)).
  - destruct o as [id|]; [|by wp_step; auto with router].
    destruct (reject id) eqn:Hr.
    + wp_step. wp_use remove_sticky_frame as ? w2 ?. wp_step. apply selects_none. by etrans.
    + wp_step. wp_use pick_specific_sound as r w2 [Hfr2 Hs]. destruct r as [a|].
      * wp_step. wp_step. wp_step. destruct (Hs a eq_refl) as [Hu Hid].
        assert (pick_frame w w2) by (by etrans). apply selects_some.
        -- etrans; [done|]. auto with router.
        -- eapply usable_frame; [done|]. auto with router.
        -- apply Hrej. congruence.
      * wp_step. wp_use remove_sticky_frame as ? w3 ?. wp_step. apply selects_none.
        do 2 (etrans; [done|]). done.
  - intros hit w2 Hs2. destruct hit as [a|]; [by wp_step|]. destruct Hs2 as [Hfr2 _].
    wp_step. wp_step. wp_step. eapply wp_mono.
    { apply (sound_after P select w); [done|done|]. etrans; [done|]. auto with router. }
    intros [a|] w3 [Hfr3 Hs3]; [|by wp_step].
    destruct (Hs3 a eq_refl) as [Hu HP].
    wp_step. wp_use insert_sticky_frame as b w4 ?. wp_step. wp_use rebind_if_frame as ? w5 ?.
    wp_step. assert (pick_frame w3 w5) by (by etrans).
    apply selects_some; [by etrans|by eapply usable_frame|done].
Qed.

Lemma pick_with_round_robin_policy_sound key excluded prefer :
  sound (λ a, ua_id a ∉ excluded) (pick_with_round_robin_policy key excluded prefer).
Proof.
  unfold pick_with_round_robin_policy.
  destruct (normalize_sticky_key key) as [k|]; [|apply pick_excluding_sound].
  apply with_sticky_session_sound; [by intros a ?%bool_decide_eq_false|].
  destruct prefer; [|apply pick_excluding_sound].
  apply sound_or_else; [apply pick_avoiding_sticky_conflicts_sound|apply pick_excluding_sound].
Qed.

(** ** Candidate lists *)

(** What a pick restricted to a candidate list promises of its result. *)
Definition allowed (candidates : list Uuid) (excluded : gset Uuid) (a : UpstreamAccount) : Prop :=
  ua_id a ∈ candidates ∧ ua_id a ∉ excluded.

Lemma pick_specific_allowed candidates excluded o :
  (∀ id, o = Some id → id ∈ candidates ∧ id ∉ excluded) →
  sound (allowed candidates excluded)
    (match o with Some id => pick_specific id | None => mret None end).
Proof.
  intros Ho w Hnd. destruct o as [id|]; [|wp_step; auto with router].
  eapply wp_mono; [apply pick_specific_sound|]. intros r w'. apply selects_mono.
  intros a <-. by apply Ho.
Qed.

Lemma max_by_omap_candidates {B} cmp (f : Uuid → option B) (g : B → Uuid)
    (candidates : list Uuid) (excluded : gset Uuid) id :
  (∀ id b, f id = Some b → g b = id) →
  g <$> max_by cmp (omap f (filter (λ id, id ∉ excluded) candidates)) = Some id →
  id ∈ candidates ∧ id ∉ excluded.
Proof.
  intros Hg (b & Hmax & ->)%fmap_Some.
  apply max_by_elem, list_elem_of_omap in Hmax as (id' & Hin & Hf).
  apply Hg in Hf as ->. by apply list_elem_of_filter in Hin as [? ?].
Qed.

Lemma last_success_id rs id b : last_success rs id = Some b → b.1 = id.
Proof. unfold last_success. by intros (? & _ & ->)%fmap_Some. Qed.

Lemma last_probe_id tr id b : last_probe tr id = Some b → b.1.1 = id.
Proof.
  unfold last_probe. intros (? & _ & Hs)%bind_Some.
  destruct (0 <? _); by simplify_eq.
Qed.

Lemma pick_first_candidate_sound candidates skip :
  sound (λ a, ua_id a ∈ candidates ∧ skip (ua_id a) = false)
    (pick_first_candidate candidates skip).
Proof.
  unfold pick_first_candidate. induction candidates as [|id l IH]; intros w Hnd; simpl.
  { wp_step. auto with router. }
  wp_step. apply (wp_mono _ (selects (λ a, ua_id a = id ∧ skip (ua_id a) = false) w)).
  { destruct (skip id) eqn:Hskip; [wp_step; auto with router|].
    eapply wp_mono; [apply pick_specific_sound|]. intros r w'. apply selects_mono.
    by intros a ->. }
  intros [a|] w1 Hs; [wp_step; eapply selects_mono; [|done]|].
  { simpl. intros b [-> ?]. split; [left|done]. }
  destruct Hs as [Hfr _]. eapply wp_mono; [by eapply sound_after|].
  intros r w'. apply selects_mono. intros b [? ?]. split; [by right|done].
Qed.

Lemma pick_candidate_account_sound candidates excluded :
  sound (allowed candidates excluded) (pick_candidate_account candidates excluded).
Proof.
  intros w Hnd. unfold pick_candidate_account. wp_step. wp_step. revert w Hnd.
  intros w0 Hnd. apply sound_or_else; [..|done].
  { apply pick_specific_allowed. intros id. apply max_by_omap_candidates. apply last_success_id. }
  intros w1 Hnd1. unfold preferred_candidate_probe_account_id.
  do 4 wp_step. apply sound_or_else; [..|done].
  { apply pick_specific_allowed. intros id. apply max_by_omap_candidates. apply last_probe_id. }
  eapply sound_mono; [|apply pick_first_candidate_sound].
  by intros a [? ?%bool_decide_eq_false].
Qed.

Lemma pick_candidate_account_avoiding_conflicts_sound key candidates excluded :
  sound (allowed candidates excluded)
    (pick_candidate_account_avoiding_conflicts key candidates excluded).
Proof.
  intros w Hnd. unfold pick_candidate_account_avoiding_conflicts. wp_step.
  wp_use collect_conflicts_frame as ids w1 Hfr. eapply sound_after; [|done|done].
  eapply sound_mono; [|apply pick_first_candidate_sound].
  by intros a [? [?%bool_decide_eq_false _]%orb_false_elim].
Qed.

Lemma pick_from_ordered_candidates_sound candidates key excluded prefer :
  sound (allowed candidates excluded)
    (pick_from_ordered_candidates candidates key excluded prefer).
Proof.
  unfold pick_from_ordered_candidates.
  destruct (normalize_sticky_key key) as [k|]; [|apply pick_candidate_account_sound].
  apply with_sticky_session_sound.
  - intros a [?%bool_decide_eq_false Hc%negb_false_iff]%orb_false_elim.
    apply bool_decide_eq_true, elem_of_list_to_set in Hc. by split.
  - destruct prefer; [|apply pick_candidate_account_sound].
    apply sound_or_else; [apply pick_candidate_account_avoiding_conflicts_sound|
                          apply pick_candidate_account_sound].
Qed.

(** What [pick_for_model] promises of an account it returns. *)
Definition routable (plan : option CompiledRoutingPlan) (model : option string)
    (excluded : gset Uuid) (a : UpstreamAccount) : Prop :=
  (ua_id a ∉ excluded) ∧
  ∀ candidates, candidate_ids plan model = Some candidates → ua_id a ∈ candidates.

Lemma pick_for_model_selects model key excluded prefer w :
  NoDup (ids_of (st w)) →
  wp (pick_for_model model key excluded prefer)
     (selects (routable (compiled_routing_plan (st w)) model excluded) w) w.
Proof.
  intros Hnd. unfold pick_for_model, candidate_account_ids_for_model, routable.
  wp_step. wp_step. destruct (candidate_ids _ model) as [candidates|] eqn:Hc.
  - eapply wp_mono; [by apply pick_from_ordered_candidates_sound|].
    intros r w'. apply selects_mono. intros a [? ?]. split; [done|]. by intros ? [= <-].
  - eapply wp_mono; [by apply pick_with_round_robin_policy_sound|].
    intros r w'. apply selects_mono. by intros a ?.
Qed.
End selection.
