(* ===== verification/RouterComplete.v ===== *)
(** * The router: a usable account is found

    Completeness of the selection methods: when some account of the pool is
    enabled, allowed and not ejected, [pick_for_model] returns an account. The
    round-robin cursor is a wrapping machine counter; the theorem asks that it
    does not wrap during the call, and shows what happens otherwise. *)
From S2P Require Import Prelude RustStr CoreModel Router RouterFacts.

Section completeness.
Context `{Clock} `{HashOrder}.
Implicit Types (w : Timed Router).

(** ** The cursor *)

(** [advances n m]: [m] moves the cursor forward by at most [n] positions. *)
Definition advances {A} (n : Z) (m : RM A) : Prop :=
  ∀ w, 0 <= cursor (st w) → cursor (st w) + n < u64_modulus →
    wp m (λ _ w', cursor (st w) <= cursor (st w') <= cursor (st w) + n) w.

Lemma advances_bind {A B} n1 n2 (m : RM A) (k : A → RM B) :
  0 <= n1 → 0 <= n2 → advances n1 m → (∀ a, advances n2 (k a)) → advances (n1 + n2) (m ≫= k).
Proof.
  intros ?? Hm Hk w ??. wp_step. eapply wp_mono; [apply Hm; lia|]. simpl. intros a w1 ?.
  eapply wp_mono; [apply Hk; lia|]. simpl. intros; lia.
Qed.

Lemma advances_0_bind {A B} n (m : RM A) (k : A → RM B) :
  0 <= n → advances 0 m → (∀ a, advances n (k a)) → advances n (m ≫= k).
Proof. intros. apply (advances_bind 0 n); auto with lia. Qed.

Lemma advances_ret {A} n (a : A) : 0 <= n → advances n (mret a).
Proof. intros ? w ??. wp_step. lia. Qed.

Lemma advances_gets {A} n (f : Router → A) : 0 <= n → advances n (gets f).
Proof. intros ? w ??. wp_step. lia. Qed.

Lemma advances_modify n (f : Router → Router) :
  0 <= n → (∀ r, cursor (f r) = cursor r) → advances n (modify f).
Proof. intros ? Hf w ??. wp_step. simpl. rewrite Hf. lia. Qed.

Lemma advances_now n : 0 <= n → advances n now.
Proof. intros ? w ??. wp_step. simpl. lia. Qed.

Lemma advances_mono {A} n n' (m : RM A) : n <= n' → advances n m → advances n' m.
Proof. intros ? Hm w ??. eapply wp_mono; [apply Hm; lia|]. simpl. intros; lia. Qed.
End completeness.

Create HintDb cursor.
#[export] Hint Resolve advances_ret advances_gets advances_now : cursor.
#[export] Hint Extern 1 (_ <= _) => lia : cursor.
#[export] Hint Extern 2 (advances _ (modify _)) =>
  (apply advances_modify; [lia|intros; simpl; repeat case_match; done]) : cursor.
#[export] Hint Extern 2 (advances _ (_ ≫= _)) =>
  (apply advances_0_bind; [lia| |intros]) : cursor.
#[export] Hint Extern 2 (advances _ (if ?b then _ else _)) => (destruct b) : cursor.
#[export] Hint Extern 3 (advances _ (match ?b with _ => _ end)) => (destruct b) : cursor.

Section advances_methods.
Context `{Clock} `{HashOrder}.

Lemma is_healthy_cursor id : advances 0 (is_healthy id).
Proof. unfold is_healthy. eauto 60 with cursor. Qed.
#[local] Hint Resolve is_healthy_cursor : cursor.

Lemma pick_specific_cursor id : advances 0 (pick_specific id).
Proof. unfold pick_specific. eauto 60 with cursor. Qed.

Lemma mfilter_cursor {A} (p : A → RM bool) l :
  (∀ x, advances 0 (p x)) → advances 0 (mfilter p l).
Proof. intros Hp. induction l as [|x l IH]; simpl; eauto 60 with cursor. Qed.

Lemma selectable_cursor excluded a : advances 0 (selectable excluded a).
Proof. unfold selectable. eauto 60 with cursor. Qed.
#[local] Hint Resolve pick_specific_cursor selectable_cursor mfilter_cursor : cursor.

Lemma preferred_cursor l excluded :
  advances 0 (preferred_recent_success_account_id l excluded) ∧
  advances 0 (preferred_recent_probe_account_id l excluded).
Proof.
  unfold preferred_recent_success_account_id, preferred_recent_probe_account_id.
  split; eauto 60 with cursor.
Qed.

Lemma get_sticky_cursor key : advances 0 (get_sticky_account_id key).
Proof. unfold get_sticky_account_id. eauto 60 with cursor. Qed.

Lemma collect_conflicts_cursor key : advances 0 (collect_conflict_account_ids key).
Proof. unfold collect_conflict_account_ids. eauto 60 with cursor. Qed.

Lemma remove_sticky_cursor key : advances 0 (remove_sticky_mapping key).
Proof. unfold remove_sticky_mapping. eauto 60 with cursor. Qed.
End advances_methods.

#[export] Hint Resolve is_healthy_cursor pick_specific_cursor selectable_cursor mfilter_cursor
  get_sticky_cursor collect_conflicts_cursor remove_sticky_cursor : cursor.

Section complete_methods.
Context `{Clock} `{HashOrder}.
Implicit Types (w : Timed Router).

(** The scan stops at the latest at the first eligible position it reads. *)
Lemma round_robin_scan_complete n accts skip a (j : nat) w :
  (j < n)%nat →
  accts !! Z.to_nat ((cursor (st w) + Z.of_nat j) `mod` Z.of_nat (length accts)) = Some a →
  skip (ua_id a) = false → ua_enabled a = true → live (ua_id a) w →
  0 <= cursor (st w) → cursor (st w) + Z.of_nat j < u64_modulus →
  wp (round_robin_scan n accts skip) (λ r _, is_Some r) w.
Proof.
  revert j w. induction n as [|n IH]; intros j w Hj Hlk Hskip He Hlive Hc Hmax; [lia|].
  simpl. do 4 wp_step. simpl.
  set (w1 := mkTimed _ _). assert (Hfr1 : pick_frame w w1) by auto with router.
  assert (Hne : accts ≠ []) by (intros ->; by rewrite lookup_nil in Hlk).
  destruct (lookup_mod_is_Some accts (cursor (st w)) Hne) as [b Hb]. rewrite Hb.
  assert (Hnext : ∀ w2, pick_frame w1 w2 → cursor (st w2) = cursor (st w1) → (0 < j)%nat →
            wp (round_robin_scan n accts skip) (λ r _, is_Some r) w2).
  { intros w2 Hfr2 Hc2 Hj0. apply (IH (j - 1)%nat); try done; [lia|..].
    all: rewrite ?Hc2; simpl; rewrite ?u64_wrap_small by (unfold is_u64; lia).
    - by replace (cursor (st w) + 1 + Z.of_nat (j - 1)) with (cursor (st w) + Z.of_nat j) by lia.
    - by eapply live_frame, pick_frame_trans.
    - lia.
    - lia. }
  destruct (decide (j = 0%nat)) as [->|Hj0].
  - rewrite Z.add_0_r, Hb in Hlk. injection Hlk as ->. rewrite Hskip, He. simpl. wp_step.
    wp_use is_healthy_frame as h w2 (_ & _ & Hh). rewrite Hh by (by eapply live_frame).
    wp_step. by eexists.
  - assert (0 < j)%nat by lia.
    destruct (skip (ua_id b)); [by apply Hnext|].
    destruct (ua_enabled b); simpl; [|by apply Hnext].
    wp_step. eapply wp_mono; [apply is_healthy_spec|]. intros h w2 [(h' & -> & Hfr2) _].
    destruct h; [wp_step; by eexists|]. by apply Hnext.
Qed.

(** Any position of the pool is read within one turn of the cursor. *)
Lemma position_in_turn (len i c : Z) :
  0 <= i < len → 0 <= c →
  ∃ j : nat, Z.of_nat j < len ∧ (c + Z.of_nat j) `mod` len = i.
Proof.
  intros Hi Hc. exists (Z.to_nat ((i - c) `mod` len)).
  pose proof (Z.mod_pos_bound (i - c) len). rewrite Z2Nat.id by lia. split; [lia|].
  rewrite Zplus_mod_idemp_r. replace (c + (i - c)) with i by lia. apply Z.mod_small. lia.
Qed.

Definition eligible (a : UpstreamAccount) w : Prop :=
  NoDup (ids_of (st w)) ∧ a ∈ accounts (st w) ∧ ua_enabled a = true ∧ live (ua_id a) w.

Lemma eligible_frame a w w' : eligible a w → pick_frame w w' → eligible a w'.
Proof.
  intros (? & ? & ? & ?) Hfr. split_and!; [by eapply NoDup_frame| |done|by eapply live_frame].
  by rewrite (pf_accounts _ _ Hfr).
Qed.

Lemma scan_pool_complete skip a w :
  eligible a w → skip (ua_id a) = false → 0 <= cursor (st w) →
  cursor (st w) + Z.of_nat (length (accounts (st w))) <= u64_modulus →
  wp (round_robin_scan (length (accounts (st w))) (accounts (st w)) skip)
     (λ r _, is_Some r) w.
Proof.
  intros (_ & Ha & He & Hl) Hskip Hc Hmax.
  apply list_elem_of_lookup_1 in Ha as [i Hi]. pose proof (lookup_lt_Some _ _ _ Hi).
  destruct (position_in_turn (Z.of_nat (length (accounts (st w)))) (Z.of_nat i)
              (cursor (st w))) as (j & Hj & Hmod); [lia|done|].
  eapply (round_robin_scan_complete _ _ _ a j); try done; [lia| |lia].
  by rewrite Hmod, Nat2Z.id.
Qed.

Lemma preferred_recent_success_frame excluded w :
  wp (preferred_recent_success_account_id (accounts (st w)) excluded)
     (λ _ w', pick_frame w w') w.
Proof. wp_use preferred_recent_success_sound. by intros r w' [? _]. Qed.

Lemma preferred_recent_probe_frame excluded w :
  wp (preferred_recent_probe_account_id (accounts (st w)) excluded)
     (λ _ w', pick_frame w w') w.
Proof. wp_use preferred_recent_probe_sound. by intros r w' [? _]. Qed.

Lemma pick_excluding_complete excluded a w :
  eligible a w → ua_id a ∉ excluded → 0 <= cursor (st w) →
  cursor (st w) + Z.of_nat (length (accounts (st w))) < u64_modulus →
  wp (pick_excluding excluded) (λ r _, is_Some r) w.
Proof.
  intros Hel Hex Hc Hmax. unfold pick_excluding. wp_step. wp_step.
  pose proof Hel as (_ & Hin & _).
  destruct (accounts (st w)) as [|a0 l] eqn:Hacc; [by apply not_elem_of_nil in Hin|].
  rewrite <-Hacc in *. clear a0 l Hacc Hin. wp_step. eapply wp_mono.
  { apply wp_and; [apply preferred_recent_success_frame|].
    apply preferred_cursor; lia. }
  intros r1 w1 [Hfr1 Hc1]. destruct (r1 ≫= _); [by wp_step|].
  wp_step. rewrite <-(pf_accounts _ _ Hfr1). eapply wp_mono.
  { apply wp_and; [apply preferred_recent_probe_frame|].
    apply preferred_cursor; lia. }
  intros r2 w2 [Hfr2 Hc2]. destruct (r2 ≫= _); [by wp_step|].
  assert (pick_frame w w2) as Hfr by (by etrans).
  rewrite <-(pf_accounts _ _ Hfr2). apply (scan_pool_complete _ a).
  - by eapply eligible_frame.
  - by apply bool_decide_eq_false.
  - lia.
  - rewrite (pf_accounts _ _ Hfr). lia.
Qed.

Lemma pick_first_candidate_complete candidates skip a w :
  eligible a w → ua_id a ∈ candidates → skip (ua_id a) = false →
  wp (pick_first_candidate candidates skip) (λ r _, is_Some r) w.
Proof.
  unfold pick_first_candidate. revert w. induction candidates as [|id l IH]; intros w Hel Hin Hskip.
  { by apply not_elem_of_nil in Hin. }
  simpl. wp_step. destruct (decide (ua_id a = id)) as [<-|Hne].
  - rewrite Hskip. destruct Hel as (? & ? & ? & ?).
    eapply wp_mono; [by apply pick_specific_complete|]. intros r w' ->. wp_step. by eexists.
  - apply elem_of_cons in Hin as [?|Hin]; [done|].
    apply (wp_mono _ (λ _ w', pick_frame w w')).
    + destruct (skip id); [wp_step; auto with router|].
      wp_use pick_specific_sound. by intros r w' [? _].
    + intros [b|] w1 Hfr; [wp_step; by eexists|]. apply IH; [by eapply eligible_frame|done|done].
Qed.

Lemma or_else_complete {A} (m1 m2 : RM (option A)) (I : Timed Router → Prop) w :
  wp m1 (λ r w', r = None → I w') w → (∀ w', I w' → wp m2 (λ r _, is_Some r) w') →
  wp (or_else m1 m2) (λ r _, is_Some r) w.
Proof.
  intros H1 H2. unfold or_else. wp_step. eapply wp_mono; [exact H1|].
  intros [a|] w1 Hw1; [wp_step; by eexists|]. apply H2. by apply Hw1.
Qed.

Lemma pick_specific_opt_frame o w :
  wp (match o with Some id => pick_specific id | None => mret None end)
     (λ _ w', pick_frame w w') w.
Proof.
  destruct o; [|wp_step; auto with router]. wp_use pick_specific_sound. by intros r w' [? _].
Qed.

Lemma pick_candidate_account_complete candidates excluded a w :
  eligible a w → ua_id a ∈ candidates → ua_id a ∉ excluded →
  wp (pick_candidate_account candidates excluded) (λ r _, is_Some r) w.
Proof.
  intros Hel Hin Hex. unfold pick_candidate_account. wp_step. wp_step.
  apply (or_else_complete _ _ (eligible a)).
  { wp_use pick_specific_opt_frame. intros r w' Hfr _. by eapply eligible_frame. }
  intros w1 Hel1. unfold preferred_candidate_probe_account_id. do 4 wp_step.
  apply (or_else_complete _ _ (eligible a)).
  { wp_use pick_specific_opt_frame. intros r w' Hfr _. by eapply eligible_frame. }
  intros w2 Hel2. eapply pick_first_candidate_complete; [done|done|]. by apply bool_decide_eq_false.
Qed.

Lemma round_robin_scan_cursor n accts skip :
  advances (Z.of_nat n) (round_robin_scan n accts skip).
Proof.
  induction n as [|n IH]; [apply advances_ret; lia|].
  cbn [round_robin_scan]. apply advances_0_bind; [lia|by auto with cursor|]. intros c.
  replace (Z.of_nat (Datatypes.S n)) with (1 + Z.of_nat n) by lia.
  apply advances_bind; [lia|lia| |].
  { intros w ??. wp_step. simpl. rewrite u64_wrap_small by (unfold is_u64; lia). lia. }
  intros _. eauto 20 using is_healthy_cursor with cursor.
Qed.

Lemma pick_avoiding_sticky_conflicts_frame key excluded w :
  NoDup (ids_of (st w)) → 0 <= cursor (st w) →
  cursor (st w) + Z.of_nat (length (accounts (st w))) < u64_modulus →
  wp (pick_avoiding_sticky_conflicts key excluded) (λ _ w', pick_frame w w' ∧
    cursor (st w) <= cursor (st w')
      <= cursor (st w) + Z.of_nat (length (accounts (st w)))) w.
Proof.
  intros Hnd Hc Hmax. apply wp_and.
  { eapply wp_mono; [by apply pick_avoiding_sticky_conflicts_sound|]. by intros r w' [? _]. }
  unfold pick_avoiding_sticky_conflicts. wp_step. eapply wp_mono.
  { apply wp_and; [apply collect_conflicts_frame|apply collect_conflicts_cursor; lia]. }
  intros ids w1 [Hfr Hc1]. wp_step. wp_step.
  destruct (accounts (st w1)) as [|a0 l] eqn:Hacc; [wp_step; lia|]. rewrite <-Hacc.
  rewrite <-(pf_accounts _ _ Hfr) in *.
  eapply wp_mono; [apply round_robin_scan_cursor; lia|]. simpl. intros; lia.
Qed.

(** On a sticky miss the choice is made from a state in the frame of the first. *)
Lemma with_sticky_session_complete key reject select w :
  NoDup (ids_of (st w)) → 0 <= cursor (st w) < u64_modulus →
  (∀ w', pick_frame w w' → cursor (st w') = cursor (st w) →
     wp select (λ r _, is_Some r) w') →
  wp (with_sticky_session key reject select) (λ r _, is_Some r) w.
Proof.
  intros Hnd Hc Hsel. unfold with_sticky_session. wp_step. wp_step. wp_step.
  eapply wp_mono.
  { apply wp_and; [apply get_sticky_frame|apply get_sticky_cursor; simpl; lia]. }
  simpl. intros o w1 [Hfr1 Hc1]. wp_step.
  assert (Hfr : pick_frame w w1) by (etrans; [|exact Hfr1]; auto with router).
  apply (wp_mono _ (λ r w', is_Some r ∨ (pick_frame w w' ∧ cursor (st w') = cursor (st w)))).
  - destruct o as [id|]; [|wp_step; right; split; [done|lia]].
    destruct (reject id) eqn:Hr.
    + wp_step. unfold remove_sticky_mapping. do 2 wp_step. right.
      split; [|simpl; lia]. etrans; [done|]. auto with router.
    + wp_step. eapply wp_mono.
      { apply wp_and; [apply pick_specific_sound|apply pick_specific_cursor; lia]. }
      intros [a|] w2 [[Hfr2 _] Hc2]; [do 3 wp_step; left; by eexists|].
      wp_step. unfold remove_sticky_mapping. do 2 wp_step. right. split; [|simpl; lia].
      etrans; [done|]. etrans; [done|]. auto with router.
  - intros hit w2 Hw2. destruct hit as [a|]; [wp_step; by eexists|].
    destruct Hw2 as [[? ?]|[Hfr2 Hc2]]; [done|]. wp_step. wp_step. wp_step.
    eapply wp_mono; [apply Hsel; [|done]; etrans; [done|]; auto with router|].
    intros r w3 [a ->]. wp_step.
    wp_use insert_sticky_frame as b w4 _. wp_step. wp_use rebind_if_frame as ? w5 _.
    wp_step. by eexists.
Qed.

Lemma pick_for_model_finds model key excluded prefer a w :
  eligible a w → routable (compiled_routing_plan (st w)) model excluded a →
  0 <= cursor (st w) →
  cursor (st w) + 2 * Z.of_nat (length (accounts (st w))) < u64_modulus →
  wp (pick_for_model model key excluded prefer) (λ r _, is_Some r) w.
Proof.
  intros Hel [Hex Hroute] Hc Hmax. pose proof Hel as (Hnd & _).
  unfold pick_for_model, candidate_account_ids_for_model. wp_step. wp_step.
  destruct (candidate_ids _ model) as [candidates|] eqn:Hcand.
  - specialize (Hroute _ eq_refl). unfold pick_from_ordered_candidates.
    destruct (normalize_sticky_key key) as [k|]; [|by eapply pick_candidate_account_complete].
    apply with_sticky_session_complete; [done|lia|]. intros w1 Hfr _.
    assert (Hel1 : eligible a w1) by (by eapply eligible_frame).
    destruct prefer; [|by eapply pick_candidate_account_complete].
    apply (or_else_complete _ _ (eligible a)); [|by intros; eapply pick_candidate_account_complete].
    eapply wp_mono; [apply pick_candidate_account_avoiding_conflicts_sound, Hel1|].
    intros r w' [? _] _. by eapply eligible_frame.
  - unfold pick_with_round_robin_policy.
    destruct (normalize_sticky_key key) as [k|]; [|eapply pick_excluding_complete; [done|done|lia|lia]].
    apply with_sticky_session_complete; [done|lia|]. intros w1 Hfr Hc1.
    assert (Hel1 : eligible a w1) by (by eapply eligible_frame).
    rewrite <-(pf_accounts _ _ Hfr) in Hmax.
    destruct prefer; [|eapply pick_excluding_complete; [done|done|lia|lia]].
    apply (or_else_complete _ _ (λ w2, pick_frame w1 w2 ∧ 0 <= cursor (st w2) ∧
             cursor (st w2) + Z.of_nat (length (accounts (st w2))) < u64_modulus)).
    + eapply wp_mono; [apply pick_avoiding_sticky_conflicts_frame; [apply Hel1|lia|lia]|].
      simpl. intros r w2 [Hfr2 Hc2] _. rewrite (pf_accounts _ _ Hfr2). split; [done|lia].
    + intros w2 (Hfr2 & Hc2 & Hb2). eapply pick_excluding_complete; [|done|lia|lia].
      by eapply eligible_frame.
Qed.
End complete_methods.
