(* ===== verification/RouterInv.v ===== *)
(** * The router: invariant of every reachable state

    The well-formedness invariant of [RoundRobinRouter], its preservation by
    every public method, and the behaviour of the sticky table: bounded size,
    least-recently-used eviction. *)
From S2P Require Import Prelude RustStr CoreModel Router RouterFacts.

(** ** Sticky-table capacity *)

Section capacity.
Context `{HashOrder}.
Implicit Types (items : gmap string StickySessionEntry).

Lemma oldest_lookup items k e :
  min_by_key (λ kv, ss_last_used_at kv.2) (hash_iter items) = Some (k, e) →
  items !! k = Some e ∧
  ∀ k' e', items !! k' = Some e' → ss_last_used_at e <= ss_last_used_at e'.
Proof.
  intros [Hin Hmin]%min_by_key_spec. split; [by apply elem_of_hash_iter|]; cbn beta.
  intros k' e' Hk'. apply (Hmin (k', e')). by apply elem_of_hash_iter.
Qed.

Lemma oldest_None items :
  min_by_key (λ kv, ss_last_used_at kv.2) (hash_iter items) = None → items = ∅.
Proof.
  intros Hn%min_by_key_None. apply map_empty. intros k.
  destruct (items !! k) as [e|] eqn:Hk; [|done].
  apply elem_of_hash_iter in Hk. rewrite Hn in Hk. by apply not_elem_of_nil in Hk.
Qed.

Lemma evict_oldest_sub fuel items max_entries :
  evict_oldest fuel items max_entries ⊆ items.
Proof.
  revert items. induction fuel as [|fuel IH]; intros items; simpl; [done|].
  destruct (bool_decide _); [|done].
  destruct (min_by_key _ _) as [[k e]|]; [|done].
  etrans; [apply IH|apply delete_subseteq].
Qed.

Lemma evict_oldest_size fuel items max_entries :
  (1 ≤ max_entries)%nat → (size items ≤ fuel)%nat →
  (size (evict_oldest fuel items max_entries) < max_entries)%nat.
Proof.
  intros Hmax. revert items. induction fuel as [|fuel IH]; intros items Hsz; simpl; [lia|].
  case_bool_decide as Hge; [|lia].
  destruct (min_by_key _ _) as [[k e]|] eqn:Hmin.
  - apply IH. apply oldest_lookup in Hmin as [Hk _].
    rewrite map_size_delete_Some by (by eexists). lia.
  - apply oldest_None in Hmin as ->. rewrite map_size_empty in Hge. lia.
Qed.

(** Every entry the loop drops was used no later than every entry it keeps. *)
Lemma evict_oldest_lru fuel items max_entries k e k' e' :
  evict_oldest fuel items max_entries !! k = Some e →
  items !! k' = Some e' → evict_oldest fuel items max_entries !! k' = None →
  ss_last_used_at e' <= ss_last_used_at e.
Proof.
  revert items. induction fuel as [|fuel IH]; intros items; simpl; [congruence|].
  destruct (bool_decide _); [|congruence].
  destruct (min_by_key _ _) as [[k0 e0]|] eqn:Hmin; [|congruence].
  apply oldest_lookup in Hmin as [Hk0 Hold]. intros Hkeep Hk' Hgone.
  destruct (decide (k' = k0)) as [->|Hne].
  - rewrite Hk0 in Hk'. injection Hk' as <-. apply (Hold k).
    eapply lookup_weaken, delete_subseteq. eapply lookup_weaken, evict_oldest_sub. done.
  - eapply IH; [done| |done]. by rewrite lookup_delete_ne.
Qed.

Lemma enforce_sticky_capacity_sub items max_entries :
  enforce_sticky_capacity items max_entries ⊆ items.
Proof. apply evict_oldest_sub. Qed.

Lemma enforce_sticky_capacity_size items max_entries :
  (1 ≤ max_entries)%nat → (size (enforce_sticky_capacity items max_entries) < max_entries)%nat.
Proof. intros. by apply evict_oldest_size. Qed.

Lemma prune_sub items t : prune_expired_sticky_sessions items t ⊆ items.
Proof. apply map_filter_subseteq. Qed.

Lemma prune_lookup items t k e :
  prune_expired_sticky_sessions items t !! k = Some e ↔
  items !! k = Some e ∧ t < ss_expires_at e.
Proof. unfold prune_expired_sticky_sessions. by rewrite map_lookup_filter_Some. Qed.
End capacity.

(** ** The invariant *)

(** [router_inv d w]: the state is well formed, and [d] sticky lookups are
    counted in the total but not yet as a hit or a miss ([0] between calls). *)
Record router_inv `{Clock} (d : Z) (w : Timed Router) : Prop := {
  inv_nodup : NoDup (ids_of (st w));
  inv_traits id t : account_traits (st w) !! id = Some t →
    id ∈ ids_of (st w) ∧ art_account_id t = id;
  inv_success id t : recent_success (st w) !! id = Some t → id ∈ ids_of (st w) ∧ t <= time w;
  inv_sticky k e : sticky_sessions (st w) !! k = Some e →
    ss_account_id e ∈ ids_of (st w) ∧ ss_last_used_at e <= time w ∧
    ss_expires_at e = ss_last_used_at e + sticky_session_ttl (st w);
  inv_size : (size (sticky_sessions (st w)) ≤ sticky_session_max_entries (st w))%nat;
  inv_max : (1 ≤ sticky_session_max_entries (st w))%nat;
  inv_ttl : 1000000 <= sticky_session_ttl (st w);
  inv_count : sticky_session_total (st w)
              = u64_wrap (sticky_hit_count (st w) + sticky_miss_count (st w) + d);
  inv_cursor : is_u64 (cursor (st w));
}.

Section invariant.
Context `{Clock} `{HashOrder}.
Implicit Types (w : Timed Router).

(** Time may pass, ejections may change freely. *)
Lemma inv_tick d w : router_inv d w → router_inv d (mkTimed (st w) (Datatypes.S (ticks w))).
Proof.
  intros [Ind Itr Irs Iss Isz Imx Itl Icnt Icur]. assert (time w <= clock (Datatypes.S (ticks w))) by (apply clock_mono; lia).
  split; try done; simpl.
  - intros id t Hid. destruct (Irs id t Hid). split; [done|]. unfold time in *. simpl. lia.
  - intros k e Hk. destruct (Iss k e Hk) as (? & ? & ?).
    split_and!; [done| |done]. unfold time in *. simpl. lia.
Qed.

Lemma inv_set_health d w h : router_inv d w → router_inv d (mkTimed (set_health h (st w)) (ticks w)).
Proof. by intros []. Qed.

Lemma inv_set_plan d w p : router_inv d w → router_inv d (mkTimed (set_plan p (st w)) (ticks w)).
Proof. by intros []. Qed.

Lemma inv_set_cursor d w c :
  is_u64 c → router_inv d w → router_inv d (mkTimed (set_cursor c (st w)) (ticks w)).
Proof. by intros ? []. Qed.

Lemma inv_incr_cursor d w : router_inv d w →
  router_inv d (mkTimed (set_cursor (u64_wrap (cursor (st w) + 1)) (st w)) (ticks w)).
Proof. apply inv_set_cursor, u64_wrap_bounds. Qed.

Lemma inv_sticky_shrink d w s :
  s ⊆ sticky_sessions (st w) → router_inv d w →
  router_inv d (mkTimed (set_sticky_sessions s (st w)) (ticks w)).
Proof.
  intros Hsub [Ind Itr Irs Iss Isz Imx Itl Icnt Icur]. split; try done; simpl.
  - intros k e Hk. by apply (Iss k), (lookup_weaken _ _ _ _ Hk).
  - etrans; [by apply map_subseteq_size|done].
Qed.

Lemma inv_sticky_add d w k e :
  (is_Some (sticky_sessions (st w) !! k) ∨
   (size (sticky_sessions (st w)) < sticky_session_max_entries (st w))%nat) →
  ss_account_id e ∈ ids_of (st w) → ss_last_used_at e <= time w →
  ss_expires_at e = ss_last_used_at e + sticky_session_ttl (st w) → router_inv d w →
  router_inv d (mkTimed (set_sticky_sessions (<[k := e]> (sticky_sessions (st w))) (st w)) (ticks w)).
Proof.
  intros Hroom Hid Hlast Hexp [Ind Itr Irs Iss Isz Imx Itl Icnt Icur]. split; try done; simpl.
  - intros k' e' [[<- <-]|[_ Hk']]%lookup_insert_Some; [done|by apply (Iss k')].
  - destruct (sticky_sessions (st w) !! k) as [e'|] eqn:Hk.
    + rewrite map_size_insert_Some; [done|by eexists].
    + rewrite map_size_insert_None by done. destruct Hroom as [[? ?]|?]; [done|lia].
Qed.

Lemma inv_incr_total w : router_inv 0 w → router_inv 1 (mkTimed (incr_total (st w)) (ticks w)).
Proof.
  intros [Ind Itr Irs Iss Isz Imx Itl Icnt Icur]. split; try done; simpl. rewrite Icnt, u64_wrap_add_l. f_equal. lia.
Qed.

Lemma inv_incr_hit w : router_inv 1 w → router_inv 0 (mkTimed (incr_hit (st w)) (ticks w)).
Proof.
  intros [Ind Itr Irs Iss Isz Imx Itl Icnt Icur]. split; try done; simpl.
  rewrite Icnt, Z.add_0_r, u64_wrap_add_l. f_equal. lia.
Qed.

Lemma inv_incr_miss w : router_inv 1 w → router_inv 0 (mkTimed (incr_miss (st w)) (ticks w)).
Proof.
  intros [Ind Itr Irs Iss Isz Imx Itl Icnt Icur]. split; try done; simpl.
  rewrite Icnt, Z.add_0_r, u64_wrap_add_r. f_equal. lia.
Qed.

Lemma inv_incr_rebind d w : router_inv d w → router_inv d (mkTimed (incr_rebind (st w)) (ticks w)).
Proof. by intros []. Qed.

(** ** Computations that keep the invariant *)

Definition keeps {A} (m : RM A) : Prop :=
  ∀ d w, router_inv d w → wp m (λ _, router_inv d) w.

Lemma keeps_ret {A} (a : A) : keeps (mret a).
Proof. intros d w ?. by wp_step. Qed.
Lemma keeps_gets {A} (f : Router → A) : keeps (gets f).
Proof. intros d w ?. by wp_step. Qed.
Lemma keeps_now : keeps now.
Proof. intros d w ?. wp_step. by apply inv_tick. Qed.
Lemma keeps_bind {A B} (m : RM A) (k : A → RM B) :
  keeps m → (∀ a, keeps (k a)) → keeps (m ≫= k).
Proof. intros Hm Hk d w ?. wp_step. eapply wp_mono; [by apply Hm|]; cbn beta; intros; by apply Hk. Qed.
Lemma keeps_mfilter {A} (p : A → RM bool) l : (∀ x, keeps (p x)) → keeps (mfilter p l).
Proof.
  intros Hp. induction l as [|x l IH]; simpl; [apply keeps_ret|].
  apply keeps_bind; [done|intros b]. apply keeps_bind; [done|intros l']. apply keeps_ret.
Qed.
Lemma keeps_find_mapM {A B} (f : A → RM (option B)) l : (∀ x, keeps (f x)) → keeps (find_mapM f l).
Proof.
  intros Hf. induction l as [|x l IH]; simpl; [apply keeps_ret|].
  apply keeps_bind; [done|]; cbn beta; intros [b|]; [apply keeps_ret|done].
Qed.

Lemma keeps_is_healthy id : keeps (is_healthy id).
Proof.
  intros d w Hinv. eapply wp_mono; [apply is_healthy_spec|]; cbn beta.
  intros b w' [(h & -> & _) _]. apply inv_tick in Hinv.
  exact (inv_set_health d (mkTimed (st w) (Datatypes.S (ticks w))) h Hinv).
Qed.
End invariant.

Create HintDb keeps.
#[export] Hint Resolve keeps_ret keeps_gets keeps_now keeps_mfilter keeps_find_mapM
  keeps_is_healthy : keeps.
#[export] Hint Extern 2 (keeps (_ ≫= _)) => (apply keeps_bind; [|intros]) : keeps.
#[export] Hint Extern 2 (keeps (if ?b then _ else _)) => (destruct b) : keeps.
#[export] Hint Extern 3 (keeps (match ?b with _ => _ end)) => (destruct b) : keeps.
#[export] Hint Extern 4 (keeps (let '_ := _ in _)) => (cbv zeta) : keeps.

Section keeps_methods.
Context `{Clock} `{HashOrder}.
Implicit Types (w : Timed Router).

Lemma keeps_pick_specific id : keeps (pick_specific id).
Proof. unfold pick_specific. eauto 30 with keeps. Qed.
#[local] Hint Resolve keeps_pick_specific : keeps.

Lemma keeps_selectable excluded a : keeps (selectable excluded a).
Proof. unfold selectable. eauto 30 with keeps. Qed.
#[local] Hint Resolve keeps_selectable : keeps.

Lemma keeps_incr_cursor : keeps (modify (λ r, set_cursor (u64_wrap (cursor r + 1)) r)).
Proof. intros d w ?. wp_step. by apply inv_incr_cursor. Qed.
#[local] Hint Resolve keeps_incr_cursor : keeps.

Lemma keeps_round_robin_scan n accts skip : keeps (round_robin_scan n accts skip).
Proof. induction n as [|n IH]; simpl; eauto 60 with keeps. Qed.
#[local] Hint Resolve keeps_round_robin_scan : keeps.

Lemma keeps_pick_excluding excluded : keeps (pick_excluding excluded).
Proof.
  unfold pick_excluding, preferred_recent_success_account_id, preferred_recent_probe_account_id.
  eauto 60 with keeps.
Qed.

Lemma keeps_prune t :
  keeps (modify (λ r, set_sticky_sessions (prune_expired_sticky_sessions (sticky_sessions r) t) r)).
Proof. intros d w ?. wp_step. apply inv_sticky_shrink; [apply prune_sub|done]. Qed.

Lemma keeps_remove_sticky key : keeps (remove_sticky_mapping key).
Proof.
  intros d w ?. unfold remove_sticky_mapping. wp_step.
  apply inv_sticky_shrink; [apply delete_subseteq|done].
Qed.
#[local] Hint Resolve keeps_pick_excluding keeps_prune keeps_remove_sticky : keeps.

Lemma keeps_get_sticky key : keeps (get_sticky_account_id key).
Proof.
  intros d w Hinv. unfold get_sticky_account_id. do 4 wp_step.
  assert (Hinv1 : router_inv d
    (mkTimed (set_sticky_sessions (prune_expired_sticky_sessions (sticky_sessions (st w))
       (clock (ticks w))) (st w)) (Datatypes.S (ticks w)))).
  { apply inv_tick in Hinv.
    exact (inv_sticky_shrink d (mkTimed (st w) (Datatypes.S (ticks w))) _ (prune_sub _ _) Hinv). }
  wp_step. wp_step. destruct (_ !! key) as [e|] eqn:He; [|by wp_step].
  do 3 wp_step. simpl in He. eapply (inv_sticky_add d (mkTimed _ _)); [..|exact Hinv1]; simpl.
  - left. by eexists.
  - by apply (inv_sticky _ _ Hinv1 key e).
  - unfold time. simpl. apply clock_mono. lia.
  - done.
Qed.

Lemma keeps_insert_sticky key id d w :
  id ∈ ids_of (st w) → router_inv d w → wp (insert_sticky_mapping key id) (λ _, router_inv d) w.
Proof.
  intros Hid Hinv. unfold insert_sticky_mapping. do 11 wp_step.
  apply inv_tick in Hinv.
  pose proof (inv_sticky_shrink d _ _ (prune_sub _ (clock (ticks w))) Hinv) as Hinv1.
  pose proof (inv_sticky_shrink d _ _
                (enforce_sticky_capacity_sub _ (sticky_session_max_entries (st w))) Hinv1) as Hinv2.
  eapply (inv_sticky_add d (mkTimed _ _)); [..|exact Hinv2]; simpl.
  - right. apply enforce_sticky_capacity_size. apply (inv_max _ _ Hinv).
  - done.
  - unfold time. simpl. apply clock_mono. lia.
  - done.
Qed.

Lemma keeps_rebind_if b : keeps (rebind_if b).
Proof. intros d w ?. unfold rebind_if. wp_go; [by apply inv_incr_rebind|done]. Qed.

Lemma keeps_or_else {A} (m1 m2 : RM (option A)) : keeps m1 → keeps m2 → keeps (or_else m1 m2).
Proof. intros. unfold or_else. eauto 10 with keeps. Qed.

Lemma keeps_collect_conflicts key : keeps (collect_conflict_account_ids key).
Proof. unfold collect_conflict_account_ids. eauto 10 with keeps. Qed.
#[local] Hint Resolve keeps_get_sticky keeps_rebind_if keeps_or_else keeps_collect_conflicts : keeps.

Lemma keeps_pick_avoiding key excluded : keeps (pick_avoiding_sticky_conflicts key excluded).
Proof. unfold pick_avoiding_sticky_conflicts. eauto 20 with keeps. Qed.

Lemma keeps_pick_first_candidate candidates skip : keeps (pick_first_candidate candidates skip).
Proof.
  apply keeps_find_mapM. intros id. eauto 10 with keeps.
Qed.
#[local] Hint Resolve keeps_pick_avoiding keeps_pick_first_candidate : keeps.

Lemma keeps_pick_candidate candidates excluded : keeps (pick_candidate_account candidates excluded).
Proof.
  unfold pick_candidate_account, preferred_candidate_probe_account_id. eauto 30 with keeps.
Qed.

Lemma keeps_pick_candidate_avoiding key candidates excluded :
  keeps (pick_candidate_account_avoiding_conflicts key candidates excluded).
Proof. unfold pick_candidate_account_avoiding_conflicts. eauto 10 with keeps. Qed.

Lemma keeps_bind_result key a w d :
  usable a w → router_inv d w →
  wp (rebind ← insert_sticky_mapping key (ua_id a); _ ← rebind_if rebind; mret (Some a))
     (λ _, router_inv d) w.
Proof.
  intros [Hin _] Hinv. wp_step. eapply wp_mono.
  { apply keeps_insert_sticky; [|done]. by apply list_elem_of_fmap_2. }
  cbn beta. intros b w1 ?. wp_step. eapply wp_mono; [by apply keeps_rebind_if|]; cbn beta.
  intros. by wp_step.
Qed.

(** Between [incr_total] and the matching [incr_hit] or [incr_miss] one lookup
    is pending. *)
Lemma keeps_with_sticky_session P key reject select w :
  sound P select → keeps select → router_inv 0 w →
  wp (with_sticky_session key reject select) (λ _, router_inv 0) w.
Proof.
  intros Hs Hk Hinv. unfold with_sticky_session. wp_step. wp_step. wp_step.
  eapply wp_mono; [apply keeps_get_sticky; by apply inv_incr_total|]; cbn beta.
  intros o w1 Hinv1. wp_step.
  apply (wp_mono _ (λ (r : option UpstreamAccount),
                      router_inv (match r with Some _ => 0 | None => 1 end))).
  - destruct o as [id|]; [|by wp_step]. destruct (reject id).
    + wp_step. eapply wp_mono; [by apply keeps_remove_sticky|]; cbn beta; intros. by wp_step.
    + wp_step. eapply wp_mono; [by apply keeps_pick_specific|]; cbn beta; intros [a|] w2 ?.
      * do 3 wp_step. by apply inv_incr_hit.
      * wp_step. eapply wp_mono; [by apply keeps_remove_sticky|]; cbn beta; intros. by wp_step.
  - intros [a|] w2 Hinv2; [by wp_step|]. do 3 wp_step. apply inv_incr_miss in Hinv2.
    eapply wp_mono; [apply wp_and; [by apply Hk|apply Hs, Hinv2]|]; cbn beta.
    intros [a|] w3 [Hinv3 [_ Hsel]]; [|by wp_step].
    apply keeps_bind_result; [|done]. by apply Hsel.
Qed.

Lemma keeps_pick_for_model model key excluded prefer w :
  router_inv 0 w → wp (pick_for_model model key excluded prefer) (λ _, router_inv 0) w.
Proof.
  intros Hinv. unfold pick_for_model, candidate_account_ids_for_model. wp_step. wp_step.
  destruct (candidate_ids _ _) as [candidates|].
  - unfold pick_from_ordered_candidates.
    destruct (normalize_sticky_key key); [|by apply keeps_pick_candidate].
    eapply keeps_with_sticky_session; [..|done].
    + destruct prefer; [apply sound_or_else|]; eauto using
        pick_candidate_account_avoiding_conflicts_sound, pick_candidate_account_sound.
    + destruct prefer; [apply keeps_or_else|]; eauto using
        keeps_pick_candidate_avoiding, keeps_pick_candidate.
  - unfold pick_with_round_robin_policy.
    destruct (normalize_sticky_key key); [|by apply keeps_pick_excluding].
    eapply keeps_with_sticky_session; [..|done].
    + destruct prefer; [apply sound_or_else|]; eauto using
        pick_avoiding_sticky_conflicts_sound, pick_excluding_sound.
    + destruct prefer; [apply keeps_or_else|]; eauto using keeps_pick_avoiding, keeps_pick_excluding.
Qed.

Lemma keeps_bind_sticky key id : keeps (bind_sticky key id).
Proof.
  intros d w Hinv. unfold bind_sticky. destruct (normalize_sticky_key _) as [k|]; [|by wp_step].
  wp_step. eapply wp_mono; [apply wp_and; [by apply keeps_pick_specific|apply pick_specific_sound]|]; cbn beta.
  intros [a|] w1 [Hinv1 [_ Hs]]; [|by wp_step]. destruct (Hs a eq_refl) as [[Hin _] <-].
  wp_step. eapply wp_mono; [apply keeps_insert_sticky; [by apply list_elem_of_fmap_2|done]|]; cbn beta.
  intros b w2 ?. wp_step. eapply wp_mono; [by apply keeps_rebind_if|]; cbn beta; intros. by wp_step.
Qed.

Lemma keeps_unbind_sticky key : keeps (unbind_sticky key).
Proof. unfold unbind_sticky. eauto 30 with keeps. Qed.

Lemma keeps_sticky_stats : keeps sticky_stats.
Proof. unfold sticky_stats, sticky_mapping_total. eauto 30 with keeps. Qed.

Lemma keeps_health (f : Router → gmap Uuid Instant) : keeps (modify (λ r, set_health (f r) r)).
Proof. intros d w ?. wp_step. by apply inv_set_health. Qed.
End keeps_methods.
