(* ===== verification/RouterStep.v ===== *)
(** * The router: public interface as a transition system

    Every public method of [RoundRobinRouter] is a step; the invariant of
    [RouterInv] holds in every state reachable from the constructor. *)
From S2P Require Import Prelude RustStr CoreModel Router RouterFacts RouterInv.

(** ** Updates of the pool *)

Section pool_updates.
Context `{Clock} `{HashOrder}.
Implicit Types (w : Timed Router).

(** A write that only shrinks the per-account tables keeps the invariant when
    the remaining entries still name accounts of the new pool. *)
Lemma inv_update d w r' :
  router_inv d w → NoDup (ids_of r') →
  account_traits r' ⊆ account_traits (st w) →
  recent_success r' ⊆ recent_success (st w) →
  sticky_sessions r' ⊆ sticky_sessions (st w) →
  (∀ id, id ∈ ids_of (st w) →
     is_Some (account_traits r' !! id) ∨ is_Some (recent_success r' !! id) ∨
     (∃ k e, sticky_sessions r' !! k = Some e ∧ ss_account_id e = id) → id ∈ ids_of r') →
  sticky_session_ttl r' = sticky_session_ttl (st w) →
  sticky_session_max_entries r' = sticky_session_max_entries (st w) →
  sticky_session_total r' = sticky_session_total (st w) →
  sticky_hit_count r' = sticky_hit_count (st w) →
  sticky_miss_count r' = sticky_miss_count (st w) → is_u64 (cursor r') →
  router_inv d (mkTimed r' (ticks w)).
Proof.
  intros [Ind Itr Irs Iss Isz Imx Itl Icnt Icur] Hnd Htr Hrs Hss Hids Httl Hmax Htot Hhit Hmiss Hcur. split; simpl; try done.
  - intros id t Ht. destruct (Itr id t (lookup_weaken _ _ _ _ Ht Htr)) as [? ?].
    split; [|done]. apply Hids; [done|]. left. by eexists.
  - intros id t Ht. destruct (Irs id t (lookup_weaken _ _ _ _ Ht Hrs)) as [? ?].
    split; [|done]. apply Hids; [done|]. right; left. by eexists.
  - intros k e Hk. destruct (Iss k e (lookup_weaken _ _ _ _ Hk Hss)) as (? & ? & ?).
    rewrite Httl. split_and!; [|done|done]. apply Hids; [done|]. right; right. eauto.
  - rewrite Hmax. etrans; [by apply map_subseteq_size|done].
  - by rewrite Hmax.
  - by rewrite Httl.
  - by rewrite Htot, Hhit, Hmiss.
Qed.

Lemma elem_of_account_ids id l : id ∈ account_ids l ↔ id ∈ ua_id <$> l.
Proof. unfold account_ids. by rewrite elem_of_list_to_set. Qed.

Lemma retain_ids_lookup {V} valid (m : gmap Uuid V) id v :
  retain_ids valid m !! id = Some v ↔ m !! id = Some v ∧ id ∈ valid.
Proof. unfold retain_ids. by rewrite map_lookup_filter_Some. Qed.

Lemma retain_sticky_lookup p m k e :
  retain_sticky p m !! k = Some e ↔ m !! k = Some e ∧ p (ss_account_id e) = true.
Proof. unfold retain_sticky. by rewrite map_lookup_filter_Some. Qed.

Lemma keeps_replace_accounts accts : NoDup (ua_id <$> accts) → keeps (replace_accounts accts).
Proof.
  intros Hnd d w Hinv. unfold replace_accounts. do 11 wp_step. simpl.
  eapply inv_update; [done|..]; simpl; try done.
  - apply map_filter_subseteq.
  - apply map_filter_subseteq.
  - apply map_filter_subseteq.
  - intros id _ [[? Ht]|[[? Ht]|(k & e & Hk & <-)]].
    + apply retain_ids_lookup in Ht as [_ Ht]. by apply elem_of_account_ids.
    + apply retain_ids_lookup in Ht as [_ Ht]. by apply elem_of_account_ids.
    + apply retain_sticky_lookup in Hk as [_ Hk%bool_decide_eq_true].
      by apply elem_of_account_ids.
Qed.

Lemma keeps_replace_account_traits traits : keeps (replace_account_traits traits).
Proof.
  intros d w []. unfold replace_account_traits. do 3 wp_step. simpl.
  split; try done; simpl. intros id t Hlk.
  apply elem_of_list_to_map_2, elem_of_reverse, list_elem_of_fmap in Hlk as (x & [= -> ->] & Hx).
  apply list_elem_of_filter in Hx as [Hx _]. by apply elem_of_account_ids in Hx.
Qed.

Lemma replace_first_Some a l l' :
  replace_first a l = Some l' → ua_id <$> l' = ua_id <$> l.
Proof.
  revert l'. induction l as [|x l IH]; intros l'; simpl; [done|].
  case_bool_decide as Hid; [intros [= <-]; simpl; by rewrite Hid|].
  intros (l0 & Hl0 & ->)%fmap_Some. simpl. f_equal. by apply IH.
Qed.

Lemma replace_first_None a l : replace_first a l = None → ua_id a ∉ (ua_id <$> l).
Proof.
  induction l as [|x l IH]; simpl; [by intros _ ?%not_elem_of_nil|].
  case_bool_decide as Hid; [done|]. intros Hn%fmap_None.
  apply not_elem_of_cons. split; [by apply not_eq_sym|by apply IH].
Qed.

(** The new pool of [upsert_account] and its identifiers. *)
Definition upserted (a : UpstreamAccount) (l : list UpstreamAccount) : list UpstreamAccount :=
  default (l ++ [a]) (replace_first a l).

Lemma upserted_NoDup a l : NoDup (ua_id <$> l) → NoDup (ua_id <$> upserted a l).
Proof.
  unfold upserted. intros Hnd. destruct (replace_first a l) eqn:Hr; simpl.
  - by rewrite (replace_first_Some _ _ _ Hr).
  - apply replace_first_None in Hr. rewrite fmap_app. apply list.NoDup_app. split_and!; [done| |].
    + intros x Hx ->%list_elem_of_singleton. done.
    + apply NoDup_singleton.
Qed.

Lemma upserted_ids a l id : id ∈ (ua_id <$> l) → id ∈ (ua_id <$> upserted a l).
Proof.
  unfold upserted. destruct (replace_first a l) eqn:Hr; simpl.
  - by rewrite (replace_first_Some _ _ _ Hr).
  - rewrite fmap_app, elem_of_app. by left.
Qed.

Lemma inv_forget d w id :
  router_inv d w →
  wp (forget_account id) (λ _ w', router_inv d w' ∧ accounts (st w') = accounts (st w) ∧
    account_traits (st w') !! id = None ∧ recent_success (st w') !! id = None ∧
    health (st w') !! id = None ∧
    ∀ k e, sticky_sessions (st w') !! k = Some e → ss_account_id e ≠ id) w.
Proof.
  intros Hinv. unfold forget_account. do 7 wp_step. simpl.
  split_and!; [|done|apply lookup_delete_eq|apply lookup_delete_eq|apply lookup_delete_eq|].
  - eapply inv_update; [done|..]; simpl; try done; try apply Hinv;
      try apply delete_subseteq; apply map_filter_subseteq.
  - intros k e Hk. apply retain_sticky_lookup in Hk as [_ Hk%negb_true_iff].
    by apply bool_decide_eq_false in Hk.
Qed.

Lemma keeps_upsert_account a : keeps (upsert_account a).
Proof.
  intros d w Hinv. unfold upsert_account. wp_step. wp_step. wp_step.
  assert (Hset : ∀ c, is_u64 c →
    router_inv d (mkTimed (set_cursor c (set_accounts (upserted a (accounts (st w))) (st w))) (ticks w))).
  { intros c Hc. eapply inv_update; [done|..]; simpl; try done.
    - apply upserted_NoDup, Hinv.
    - intros id Hid _. by apply upserted_ids. }
  apply (wp_mono _ (λ (b : bool) w', w' =
    mkTimed (set_accounts (upserted a (accounts (st w))) (st w)) (ticks w))).
  { unfold upserted. destruct (replace_first a _); by do 3 wp_step. }
  intros b w' ->. wp_step. apply (wp_mono _ (λ _, router_inv d)).
  { destruct b; wp_step; simpl.
    - specialize (Hset (cursor (st w)) (inv_cursor _ _ Hinv)). by destruct (st w).
    - by apply Hset. }
  intros _ w1 Hinv1. destruct (ua_enabled a); [by wp_step|].
  eapply wp_mono; [by apply inv_forget|]. by intros ? ? [? _].
Qed.

Lemma filter_length_eq {A} (P : A → Prop) `{∀ x, Decision (P x)} (l : list A) :
  length (filter P l) = length l → filter P l = l.
Proof.
  induction l as [|x l IH]; [done|]. rewrite filter_cons. case_decide; simpl.
  - intros Hlen. f_equal. apply IH. lia.
  - intros Hlen. pose proof (length_filter P l). lia.
Qed.

Lemma filter_all {A} (P : A → Prop) `{∀ x, Decision (P x)} (l : list A) :
  (∀ x, x ∈ l → P x) → filter P l = l.
Proof.
  intros Hall. induction l as [|x l IH]; [done|]. rewrite filter_cons_True by (apply Hall; left).
  f_equal. apply IH. intros y Hy. apply Hall. by right.
Qed.

Lemma NoDup_ids_filter (P : UpstreamAccount → Prop) `{∀ x, Decision (P x)} l :
  NoDup (ua_id <$> l) → NoDup (ua_id <$> filter P l).
Proof. intros. eapply sublist_NoDup; [done|]. apply fmap_sublist, sublist_filter. Qed.

Lemma keeps_delete_account id : keeps (delete_account id).
Proof.
  intros d w Hinv. unfold delete_account. do 4 wp_step.
  case_bool_decide as Hlen.
  - wp_step. rewrite (filter_length_eq _ _ Hlen). simpl. by destruct w as [[] ?].
  - unfold forget_account. do 9 wp_step. simpl.
    eapply inv_update; [done|..]; simpl; try done; try apply Hinv;
      try apply delete_subseteq; try apply map_filter_subseteq.
    + apply NoDup_ids_filter, Hinv.
    + intros x Hx Hused. assert (x ≠ id) as Hne.
      { intros ->. destruct Hused as [[? Ht]|[[? Ht]|(k & e & Hk & He)]].
        - by rewrite lookup_delete_eq in Ht.
        - by rewrite lookup_delete_eq in Ht.
        - apply retain_sticky_lookup in Hk as [_ Hk%negb_true_iff].
          by apply bool_decide_eq_false in Hk. }
      apply list_elem_of_fmap in Hx as (a & -> & Ha). apply list_elem_of_fmap_2.
      by apply list_elem_of_filter.
Qed.

Lemma keeps_record_success id : keeps (record_success id).
Proof.
  intros d w Hinv. unfold record_success. wp_step. wp_step.
  destruct (existsb _ _) eqn:Hex; simpl; [|by wp_step]. do 3 wp_step.
  apply inv_tick in Hinv. destruct Hinv as [Ind Itr Irs Iss Isz Imx Itl Icnt Icur].
  split; try done; simpl.
  intros x t [[<- <-]|[_ Hx]]%lookup_insert_Some.
  - split; [|unfold time; simpl; apply clock_mono; lia].
    apply existsb_exists in Hex as (a & Ha & [Hid%bool_decide_eq_true _]%andb_true_iff).
    subst id. apply list_elem_of_fmap_2. by apply list_elem_of_In.
  - by apply (Irs x).
Qed.

Lemma keeps_health_ops id ttl :
  keeps (mark_unhealthy id ttl) ∧ keeps (clear_unhealthy id) ∧ keeps clear_all_unhealthy.
Proof.
  split_and!; intros d w Hinv.
  - unfold mark_unhealthy. destruct (ttl =? 0); [by wp_step|]. do 3 wp_step.
    by apply (inv_set_health d (mkTimed (st w) _)), inv_tick.
  - unfold clear_unhealthy. wp_step. wp_step. destruct (existsb _ _); simpl; [|by wp_step].
    do 3 wp_step. by apply inv_set_health.
  - unfold clear_all_unhealthy. do 5 wp_step. by apply inv_set_health.
Qed.
End pool_updates.

(** ** The public interface *)

Section interface.
Context `{Clock} `{HashOrder}.

(** The public methods, at any argument; a snapshot's account list has no
    duplicate identifiers (the control plane keys accounts by identifier). *)
Inductive public : ∀ A, RM A → Prop :=
| pub_pick_for_model model key excluded prefer :
    public _ (pick_for_model model key excluded prefer)
| pub_pick_excluding excluded : public _ (pick_excluding excluded)
| pub_pick_account id : public _ (pick_account id)
| pub_replace_accounts accts : NoDup (ua_id <$> accts) → public _ (replace_accounts accts)
| pub_replace_account_traits traits : public _ (replace_account_traits traits)
| pub_replace_plan plan : public _ (replace_compiled_routing_plan plan)
| pub_upsert_account a : public _ (upsert_account a)
| pub_delete_account id : public _ (delete_account id)
| pub_mark_unhealthy id ttl : public _ (mark_unhealthy id ttl)
| pub_clear_unhealthy id : public _ (clear_unhealthy id)
| pub_clear_all_unhealthy : public _ clear_all_unhealthy
| pub_record_success id : public _ (record_success id)
| pub_bind_sticky key id : public _ (bind_sticky key id)
| pub_unbind_sticky key : public _ (unbind_sticky key)
| pub_sticky_stats : public _ sticky_stats
| pub_list_diagnostics : public _ list_account_diagnostics
| pub_diagnostics id : public _ (account_diagnostics id).

Inductive router_step (w : Timed Router) : Timed Router → Prop :=
| router_call A (m : RM A) : public A m → router_step w (m w).2.

Lemma public_keeps A (m : RM A) w : public A m → router_inv 0 w → router_inv 0 (m w).2.
Proof.
  intros Hpub Hinv. enough (wp m (λ _, router_inv 0) w) by done.
  destruct Hpub.
  - by apply keeps_pick_for_model.
  - by apply keeps_pick_excluding.
  - by apply keeps_pick_specific.
  - by apply keeps_replace_accounts.
  - by apply keeps_replace_account_traits.
  - unfold replace_compiled_routing_plan. wp_step. by apply inv_set_plan.
  - by apply keeps_upsert_account.
  - by apply keeps_delete_account.
  - by apply (keeps_health_ops id ttl).
  - by apply (keeps_health_ops id 0).
  - by apply (keeps_health_ops 0%N 0).
  - by apply keeps_record_success.
  - by apply keeps_bind_sticky.
  - by apply keeps_unbind_sticky.
  - by apply keeps_sticky_stats.
  - unfold list_account_diagnostics. wp_go. by apply inv_tick.
  - unfold account_diagnostics. wp_go. by apply inv_tick.
Qed.

Lemma new_inv accts ttl max_entries n :
  NoDup (ua_id <$> accts) →
  router_inv 0 (mkTimed (new_with_sticky_limits accts ttl max_entries) n).
Proof.
  intros Hnd. split; simpl; unfold from_millis; try done; try lia; try (intros ? ?; by rewrite lookup_empty).
  rewrite map_size_empty. lia.
Qed.

Lemma reachable_inv w w' : router_inv 0 w → rtc router_step w w' → router_inv 0 w'.
Proof. intros Hinv Hst. induction Hst as [|w1 w2 w3 [A m Hpub] _ IH]; [done|]. eauto using public_keeps. Qed.
End interface.
