(* ===== verification/RouterTheorems.v ===== *)
(** * The router: theorems

    The promises of [RoundRobinRouter] to the proxy: what a pick returns, when
    it returns something, session affinity, fairness of the rotation, and the
    invariant of every reachable state. *)
From S2P Require Import Prelude RustStr CoreModel Router RouterFacts RouterComplete.
From S2P Require Import RouterInv RouterStep.

(** ** Session affinity *)

Section affinity.
Context `{Clock} `{HashOrder}.
Implicit Types (w : Timed Router).

(** [k] is bound to account [id] until at least [t]. *)
Definition bound_until (k : string) (id : Uuid) (t : Z) (r : Router) : Prop :=
  ∃ e, sticky_sessions r !! k = Some e ∧ ss_account_id e = id ∧ t <= ss_expires_at e.

Lemma get_sticky_binds k w :
  wp (get_sticky_account_id k) (λ o w', ∀ id, o = Some id →
    bound_until k id (time w + sticky_session_ttl (st w)) (st w')) w.
Proof.
  unfold get_sticky_account_id. do 6 wp_step.
  destruct (_ !! k) as [e|]; [|by wp_step]. do 3 wp_step. simpl.
  intros id [= <-]. unfold bound_until. simpl. rewrite lookup_insert_eq.
  eexists. split_and!; [done|done|]. simpl. unfold time. lia.
Qed.

Lemma get_sticky_hit k e w :
  sticky_sessions (st w) !! k = Some e → time w < ss_expires_at e →
  wp (get_sticky_account_id k) (λ o _, o = Some (ss_account_id e)) w.
Proof.
  intros Hk Hlive. unfold get_sticky_account_id. do 6 wp_step. simpl.
  change (clock (ticks w)) with (time w). rewrite (proj2 (prune_lookup _ _ _ _) (conj Hk Hlive)). by do 3 wp_step.
Qed.

Lemma insert_sticky_binds k id w :
  wp (insert_sticky_mapping k id) (λ _ w',
    bound_until k id (time w + sticky_session_ttl (st w)) (st w')) w.
Proof.
  unfold insert_sticky_mapping. do 11 wp_step. unfold bound_until. simpl.
  rewrite lookup_insert_eq. eexists. split_and!; [done|done|]. simpl. unfold time. lia.
Qed.

(** Picking a given account does not touch the sticky table. *)
Lemma pick_specific_sticky id w :
  wp (pick_specific id) (λ _ w', sticky_sessions (st w') = sticky_sessions (st w)) w.
Proof.
  unfold pick_specific. wp_step. wp_step. destruct (find_account _ _); [|by wp_step].
  destruct (negb _); [by wp_step|]. wp_step.
  wp_use is_healthy_spec as b w' [(h & -> & _) _]. destruct b; by wp_step.
Qed.

Lemma with_sticky_session_binds P k reject select w :
  sound P select → NoDup (ids_of (st w)) →
  wp (with_sticky_session k reject select) (λ r w', ∀ a, r = Some a →
    bound_until k (ua_id a) (time w + sticky_session_ttl (st w)) (st w')) w.
Proof.
  intros Hsel Hnd. unfold with_sticky_session. do 3 wp_step.
  set (w0 := mkTimed _ _). assert (Hfr0 : pick_frame w w0) by auto with router.
  eapply wp_mono; [apply wp_and; [apply get_sticky_binds|apply get_sticky_frame]|].
  intros o w1 [Ho Hfr1]. wp_step. assert (Hfr : pick_frame w w1) by (by etrans).
  apply (wp_mono _ (λ r w', pick_frame w w' ∧ ∀ a, r = Some a →
    bound_until k (ua_id a) (time w + sticky_session_ttl (st w)) (st w'))).
  - destruct o as [id|]; [|by wp_step]. destruct (reject id).
    + wp_step. wp_use remove_sticky_frame as ? w2 ?. wp_step. split; [by etrans|done].
    + wp_step. eapply wp_mono.
      { apply wp_and; [apply pick_specific_sound|apply pick_specific_sticky]. }
      intros [a|] w2 [[Hfr2 Hs] Hst].
      * assert (pick_frame w w2) by (by etrans).
        do 3 wp_step. split; [etrans; [done|]; auto with router|].
        intros ? [= <-]. destruct (Hs a eq_refl) as [_ ->].
        destruct (Ho id eq_refl) as (e & He & Hid & Hexp). exists e.
        simpl. by rewrite Hst.
      * wp_step. wp_use remove_sticky_frame as ? w3 ?. wp_step.
        split; [|done]. by do 2 (etrans; [done|]).
  - intros [a|] w2 [Hfr2 Hb]; [by wp_step|]. do 3 wp_step.
    eapply wp_mono.
    { apply (sound_after P select w); [done|done|]. etrans; [done|]. auto with router. }
    intros [a|] w3 [Hfr3 _]; [|by wp_step]. wp_step.
    wp_use insert_sticky_binds as b w4 Hb4. wp_step.
    apply (wp_mono _ (λ _ w5, sticky_sessions (st w5) = sticky_sessions (st w4))).
    { unfold rebind_if. wp_go; done. }
    intros _ w5 Hst. wp_step. intros ? [= <-]. destruct Hb4 as (e & He & Hid & Hexp).
    exists e. rewrite Hst. split_and!; [done|done|].
    rewrite (pf_ttl _ _ Hfr3) in Hexp.
    pose proof (time_mono w w3 (pf_ticks _ _ Hfr3)). lia.
Qed.

Lemma with_sticky_session_hits k reject select a e w :
  sticky_sessions (st w) !! k = Some e → time w < ss_expires_at e →
  ss_account_id e = ua_id a → reject (ua_id a) = false → eligible a w →
  wp (with_sticky_session k reject select) (λ r _, r = Some a) w.
Proof.
  intros Hk Hlive Hid Hrej Hel. unfold with_sticky_session. do 3 wp_step.
  eapply wp_mono; [apply wp_and; [by apply (get_sticky_hit k e)|apply get_sticky_frame]|].
  intros o w1 [-> Hfr]. rewrite Hid, Hrej. wp_step. wp_step.
  assert (Hel1 : eligible a w1).
  { eapply eligible_frame; [exact Hel|]. etrans; [|exact Hfr]. auto with router. }
  destruct Hel1 as (? & ? & ? & ?).
  eapply wp_mono; [by apply pick_specific_complete|]. intros r w2 ->. do 3 wp_step. by wp_step.
Qed.

Lemma pick_for_model_binds model key excluded prefer k w :
  NoDup (ids_of (st w)) → normalize_sticky_key key = Some k →
  wp (pick_for_model model key excluded prefer) (λ r w', ∀ a, r = Some a →
    bound_until k (ua_id a) (time w + sticky_session_ttl (st w)) (st w')) w.
Proof.
  intros Hnd Hk. unfold pick_for_model, candidate_account_ids_for_model. wp_step. wp_step.
  destruct (candidate_ids _ _) as [candidates|].
  - unfold pick_from_ordered_candidates. rewrite Hk.
    eapply with_sticky_session_binds; [|done].
    destruct prefer; [apply sound_or_else|]; eauto using
      pick_candidate_account_avoiding_conflicts_sound, pick_candidate_account_sound.
  - unfold pick_with_round_robin_policy. rewrite Hk.
    eapply with_sticky_session_binds; [|done].
    destruct prefer; [apply sound_or_else|]; eauto using
      pick_avoiding_sticky_conflicts_sound, pick_excluding_sound.
Qed.

Lemma pick_for_model_hits model key excluded prefer k a t w :
  normalize_sticky_key key = Some k → bound_until k (ua_id a) t (st w) → time w < t →
  eligible a w → routable (compiled_routing_plan (st w)) model excluded a →
  wp (pick_for_model model key excluded prefer) (λ r _, r = Some a) w.
Proof.
  intros Hk (e & He & Hid & Hexp) Ht Hel [Hex Hroute].
  unfold pick_for_model, candidate_account_ids_for_model. wp_step. wp_step.
  destruct (candidate_ids _ _) as [candidates|] eqn:Hc.
  - unfold pick_from_ordered_candidates. rewrite Hk.
    apply (with_sticky_session_hits k _ _ a e); [done|lia|done| |done].
    rewrite bool_decide_eq_false_2, bool_decide_eq_true_2 by
      (done || apply elem_of_list_to_set, Hroute; done). done.
  - unfold pick_with_round_robin_policy. rewrite Hk.
    apply (with_sticky_session_hits k _ _ a e); [done|lia|done| |done].
    by apply bool_decide_eq_false_2.
Qed.
End affinity.

(** ** Rotation over an idle pool *)

Section rotation.
Context `{Clock} `{HashOrder}.
Implicit Types (w : Timed Router).

(** Every account enabled, none ejected, no success or probe on record. *)
Definition idle (r : Router) : Prop :=
  health r = ∅ ∧ recent_success r = ∅ ∧ account_traits r = ∅ ∧ accounts r ≠ [] ∧
  ∀ a, a ∈ accounts r → ua_enabled a = true.

Lemma is_healthy_idle id w :
  health (st w) = ∅ → wp (is_healthy id) (λ b w', b = true ∧ st w' = st w) w.
Proof.
  intros Hh. unfold is_healthy. do 4 wp_step. simpl. rewrite Hh, lookup_empty. by wp_step.
Qed.

Lemma mfilter_idle excluded l w :
  health (st w) = ∅ → wp (mfilter (selectable excluded) l) (λ _ w', st w' = st w) w.
Proof.
  revert w. induction l as [|a l IH]; intros w Hh; simpl; [by wp_step|].
  wp_step. apply (wp_mono _ (λ _ w', st w' = st w)).
  - unfold selectable. destruct (bool_decide _); [by wp_step|].
    destruct (negb _); [by wp_step|]. wp_use is_healthy_idle; [done|]. by intros b w' [_ ?].
  - intros b w1 Hw1. wp_step. eapply wp_mono; [apply IH; by rewrite Hw1|].
    simpl. intros l' w2 Hw2. wp_step. by rewrite Hw2.
Qed.

Lemma omap_None {A B} (f : A → option B) l : (∀ x, f x = None) → omap f l = [].
Proof. intros Hf. induction l as [|x l IH]; csimpl; [done|]. by rewrite Hf. Qed.

Lemma pick_excluding_idle w :
  idle (st w) →
  wp (pick_excluding ∅) (λ r w',
    r = accounts (st w) !! Z.to_nat (cursor (st w) `mod` Z.of_nat (length (accounts (st w)))) ∧
    st w' = set_cursor (u64_wrap (cursor (st w) + 1)) (st w)) w.
Proof.
  intros (Hh & Hrs & Htr & Hne & Hen). unfold pick_excluding. wp_step. wp_step.
  destruct (accounts (st w)) as [|a0 l] eqn:Hacc; [done|]. rewrite <-Hacc in *. clear a0 l Hacc.
  unfold preferred_recent_success_account_id, preferred_recent_probe_account_id.
  do 4 wp_step. wp_use mfilter_idle; [done|]. intros l1 w1 Hw1. wp_step.
  rewrite omap_None by (intros; unfold last_success; by rewrite Hrs, lookup_empty). simpl.
  do 4 wp_step. wp_use mfilter_idle; [by rewrite Hw1|]. intros l2 w2 Hw2. wp_step.
  rewrite omap_None by (intros; unfold last_probe; by rewrite Hw1, Htr, lookup_empty). simpl.
  rewrite Hw1 in Hw2. destruct (length (accounts (st w))) as [|n] eqn:Hlen.
  { by apply nil_length_inv in Hlen. }
  cbn [round_robin_scan]. do 4 wp_step. simpl. rewrite Hw2, <-Hlen.
  destruct (lookup_mod_is_Some _ (cursor (st w)) Hne) as [a Ha]. rewrite Ha.
  rewrite bool_decide_eq_false_2 by set_solver.
  rewrite Hen by (by eapply list_elem_of_lookup_2). simpl. wp_step.
  wp_use is_healthy_idle; [done|]. simpl. intros b w3 [-> Hw3]. by wp_step.
Qed.

Lemma idle_set_cursor c r : idle r → idle (set_cursor c r).
Proof. by intros. Qed.

Lemma repeat_pick_idle n w :
  idle (st w) → 0 <= cursor (st w) → cursor (st w) + Z.of_nat n < u64_modulus →
  wp (repeatM n (pick_excluding ∅)) (λ l _,
    length l = n ∧ ∀ i : nat, (i < n)%nat →
      l !! i = Some (accounts (st w) !!
        Z.to_nat ((cursor (st w) + Z.of_nat i) `mod` Z.of_nat (length (accounts (st w)))))) w.
Proof.
  revert w. induction n as [|n IH]; intros w Hidle Hc Hmax; simpl; [wp_step; split; [done|lia]|].
  wp_step. wp_use pick_excluding_idle; [done|]. intros r w1 [Hr Hw1]. wp_step.
  assert (Hcur : u64_wrap (cursor (st w) + 1) = cursor (st w) + 1).
  { apply u64_wrap_small. unfold is_u64. lia. }
  rewrite Hcur in Hw1.
  eapply wp_mono; [apply IH; rewrite Hw1; simpl; [by apply idle_set_cursor|lia|lia]|].
  rewrite Hw1. simpl. intros l w2 [Hlen Hl]. wp_step. split; [simpl; lia|].
  intros [|i] Hi; simpl.
  - by rewrite Z.add_0_r, Hr.
  - rewrite Hl by lia. do 3 f_equal. f_equal. lia.
Qed.
End rotation.

(** ** Theorems *)

Section theorems.
Context `{Clock} `{HashOrder}.
Implicit Types (w : Timed Router).

(** C6: an account returned by [pick_for_model] is in the pool, enabled, not
    under an ejection, not excluded by the caller, and on the compiled route of
    the model when the plan has one. *)
Theorem pick_for_model_sound model key excluded prefer w :
  NoDup (ids_of (st w)) →
  wp (pick_for_model model key excluded prefer) (λ r w', ∀ a, r = Some a →
    a ∈ accounts (st w) ∧ ua_enabled a = true ∧ health (st w') !! ua_id a = None ∧
    (ua_id a ∉ excluded) ∧
    ∀ candidates, candidate_ids (compiled_routing_plan (st w)) model = Some candidates →
      ua_id a ∈ candidates) w.
Proof.
  intros Hnd. eapply wp_mono; [by apply pick_for_model_selects|].
  intros r w' [Hfr Hs] a ->. destruct (Hs a eq_refl) as [(Hin & He & Hh) [Hex Hroute]].
  rewrite (pf_accounts _ _ Hfr) in Hin. done.
Qed.

(** C7: when some account of the pool is enabled, routable and free of a
    pending ejection, [pick_for_model] returns an account, whatever the sticky
    key and the conflict preference, as long as the wrapping rotation counter
    stays in range for the two turns the call can make. *)
Theorem pick_for_model_complete model key excluded prefer a w :
  NoDup (ids_of (st w)) → a ∈ accounts (st w) → ua_enabled a = true → live (ua_id a) w →
  routable (compiled_routing_plan (st w)) model excluded a → 0 <= cursor (st w) →
  cursor (st w) + 2 * Z.of_nat (length (accounts (st w))) < u64_modulus →
  wp (pick_for_model model key excluded prefer) (λ r _, is_Some r) w.
Proof. intros. by apply (pick_for_model_finds _ _ _ _ a). Qed.

(** An account ejected by [mark_unhealthy] until some deadline is not
    returned by a pick that ends before the deadline. *)
Theorem ejected_account_not_picked model key excluded prefer id until w :
  NoDup (ids_of (st w)) → health (st w) !! id = Some until →
  wp (pick_for_model model key excluded prefer)
     (λ r w', time w' < until → ∀ a, r = Some a → ua_id a ≠ id) w.
Proof.
  intros Hnd Hu. eapply wp_mono; [by apply pick_for_model_selects|].
  intros r w' [Hfr Hs] Ht a -> <-. destruct (Hs a eq_refl) as [(_ & _ & Hh) _].
  rewrite (pf_ejected _ _ Hfr _ until Hu Ht) in Hh. done.
Qed.


(** On an idle pool of [n] accounts, [n] consecutive picks return the
    accounts in rotation, starting at the cursor: every account exactly once. *)
Theorem round_robin_is_fair w :
  idle (st w) → 0 <= cursor (st w) →
  cursor (st w) + Z.of_nat (length (accounts (st w))) < u64_modulus →
  wp (repeatM (length (accounts (st w))) (pick_excluding ∅)) (λ l _,
    l = Some <$> rotate (Z.to_nat (cursor (st w))) (accounts (st w)) ∧
    l ≡ₚ Some <$> accounts (st w)) w.
Proof.
  intros Hidle Hc Hmax. eapply wp_mono; [by apply repeat_pick_idle|].
  intros l w' [Hlen Hl].
  assert (Heq : l = Some <$> rotate (Z.to_nat (cursor (st w))) (accounts (st w))).
  { apply rotate_intro; [done|]. intros i Hi. rewrite Z2Nat.id by done. by apply Hl. }
  split; [done|]. rewrite Heq. apply fmap_Permutation, rotate_Permutation.
Qed.

(** C9: in every state reachable from the constructor by calls of the public
    methods, account identifiers are unique, the per-account tables and the
    sticky table only name accounts of the pool, sticky expiries are one TTL
    after the last use, the sticky table is within its capacity, and the
    sticky lookups counted are exactly the hits and the misses (modulo 2^64). *)
Theorem router_reachable_inv accts ttl max_entries n w :
  NoDup (ua_id <$> accts) →
  rtc router_step (mkTimed (new_with_sticky_limits accts ttl max_entries) n) w →
  router_inv 0 w.
Proof. intros Hnd. apply reachable_inv. by apply new_inv. Qed.

(** [enforce_sticky_capacity] leaves room for one more entry, removes
    nothing when there is room already, and what it removes was used no later
    than anything it keeps. *)
Theorem enforce_sticky_capacity_lru (items : gmap string StickySessionEntry) max_entries :
  (1 ≤ max_entries)%nat →
  let kept := enforce_sticky_capacity items max_entries in
  (size kept < max_entries)%nat ∧ kept ⊆ items ∧
  ((size items < max_entries)%nat → kept = items) ∧
  ∀ k e k' e', kept !! k = Some e → items !! k' = Some e' → kept !! k' = None →
    ss_last_used_at e' <= ss_last_used_at e.
Proof.
  intros Hmax kept. split_and!.
  - by apply enforce_sticky_capacity_size.
  - apply enforce_sticky_capacity_sub.
  - intros Hroom. subst kept. unfold enforce_sticky_capacity.
    destruct (size items) eqn:Hsz; simpl; [done|].
    rewrite bool_decide_eq_false_2; [done|lia].
  - intros. by eapply evict_oldest_lru.
Qed.

(** [delete_account] reports whether the account was there, removes it from
    the pool, keeps every other account in place, and leaves no trace of it in
    the health, success, trait and sticky tables when it was there. *)
Theorem delete_account_forgets id w :
  router_inv 0 w →
  wp (delete_account id) (λ removed w',
    (removed = true ↔ id ∈ ids_of (st w)) ∧ (id ∉ ids_of (st w')) ∧
    accounts (st w') = filter (λ a, ua_id a ≠ id) (accounts (st w)) ∧
    (removed = true → account_traits (st w') !! id = None ∧ health (st w') !! id = None ∧
       recent_success (st w') !! id = None ∧
       ∀ k e, sticky_sessions (st w') !! k = Some e → ss_account_id e ≠ id)) w.
Proof.
  intros Hinv. unfold delete_account. do 4 wp_step.
  assert (Hgone : id ∉ (ua_id <$> filter (λ a, ua_id a ≠ id) (accounts (st w)))).
  { intros (a & -> & [? _]%list_elem_of_filter)%list_elem_of_fmap. done. }
  case_bool_decide as Hlen.
  - wp_step. apply filter_length_eq in Hlen. split_and!; [|done|done|done].
    split; [done|]. intros Hin. rewrite Hlen in Hgone. done.
  - unfold forget_account. do 9 wp_step. simpl. split_and!; [|done|done|].
    + split; [|done]. intros _. destruct (decide (id ∈ ids_of (st w))) as [?|Hn]; [done|].
      exfalso. apply Hlen. f_equal. apply filter_all. intros a Ha Heq. apply Hn. rewrite <-Heq. by apply list_elem_of_fmap_2.
    + intros _. split_and!; [apply lookup_delete_eq|apply lookup_delete_eq|apply lookup_delete_eq|].
      intros k e Hk. apply retain_sticky_lookup in Hk as [_ Hk%negb_true_iff].
      by apply bool_decide_eq_false in Hk.
Qed.

(** A policy that lists the model exactly decides its route: neither a
    prefix policy, wherever it stands in the plan, nor the default route is
    consulted. *)
Theorem exact_policy_takes_precedence plan raw model p before after :
  trim raw = model → model ≠ ""%string →
  plan_policies plan = before ++ p :: after → model ∈ cmrp_exact_models p →
  (∀ q, q ∈ before → model ∉ cmrp_exact_models q) →
  candidate_ids (Some plan) (Some raw)
  = let ids := concat (crp_account_ids <$> cmrp_fallback_segments p) in
    match ids with [] => None | _ => Some ids end.
Proof.
  intros Htrim Hne Hpol Hp Hbefore.
  assert (Hfind : List.find (policy_matches_exact model) (plan_policies plan) = Some p).
  { rewrite Hpol. clear Hpol. induction before as [|q before IH]; simpl.
    - unfold policy_matches_exact at 1.
      rewrite (proj2 (existsb_exists _ _)); [done|]. exists model.
      split; [by apply list_elem_of_In|by apply bool_decide_eq_true].
    - destruct (policy_matches_exact model q) eqn:Hq; [|apply IH; set_solver].
      apply existsb_exists in Hq as (m & Hm%list_elem_of_In & ->%bool_decide_eq_true).
      exfalso. eapply Hbefore; [|exact Hm]. left. }
  unfold candidate_ids. rewrite Htrim. destruct (is_empty model) eqn:Hemp; [by destruct model|].
  unfold route_segments. rewrite Hfind. by destruct (cmrp_fallback_segments p).
Qed.
End theorems.

(** ** Witnesses *)

Module Witness.
Import Router.Samples.

(** Three accounts, the second disabled and the third ejected. *)
Definition pool : Router :=
  set_health {[3%N := 1000]}
    (new [account 1; mkUpstreamAccount 2 "b" CodexOauth "" "" None false 1 0; account 3]).
Definition w0 : Timed Router := mkTimed pool 0.

Lemma pool_nodup : NoDup (ids_of pool).
Proof. apply (bool_decide_unpack _). vm_compute. exact I. Qed.

Lemma acct1_live : @live 1%N unit_clock w0.
Proof. intros until 1. vm_compute in *. done. Qed.

Lemma pick_for_model_sound_witness :
  @wp (Timed Router) _ (@pick_for_model unit_clock list_order None (Some "s"%string) {[2%N]} true)
    (λ r w', ∀ a, r = Some a → a ∈ accounts pool ∧ ua_enabled a = true ∧
      health (st w') !! ua_id a = None ∧ (ua_id a ∉ ({[2%N]} : gset Uuid)) ∧
      ∀ candidates, candidate_ids None None = Some candidates → ua_id a ∈ candidates) w0.
Proof. apply (@pick_for_model_sound unit_clock list_order). exact pool_nodup. Defined.

Lemma pick_for_model_complete_witness :
  @wp (Timed Router) _ (@pick_for_model unit_clock list_order None (Some "s"%string) {[2%N]} true)
    (λ r _, is_Some r) w0.
Proof.
  apply (@pick_for_model_complete unit_clock list_order _ _ _ _ (account 1)).
  - exact pool_nodup.
  - left.
  - reflexivity.
  - exact acct1_live.
  - split; [|by intros ? [=]]. apply (bool_decide_unpack _). vm_compute. exact I.
  - vm_compute. discriminate.
  - vm_compute. reflexivity.
Defined.

Lemma ejected_account_not_picked_witness :
  @wp (Timed Router) _ (@pick_for_model unit_clock list_order None None ∅ false)
    (λ r w', @time _ unit_clock w' < 1000 → ∀ a, r = Some a → ua_id a ≠ 3%N) w0.
Proof.
  apply (@ejected_account_not_picked unit_clock list_order).
  - exact pool_nodup.
  - vm_compute. reflexivity.
Defined.


Lemma round_robin_is_fair_witness :
  @wp (Timed Router) _ (repeatM 3 (@pick_excluding unit_clock ∅)) (λ l _,
    l = Some <$> [account 3; account 1; account 2] ∧
    l ≡ₚ Some <$> [account 1; account 2; account 3])
    (mkTimed (set_cursor 5 (new [account 1; account 2; account 3])) 0).
Proof.
  apply (@round_robin_is_fair unit_clock
           (mkTimed (set_cursor 5 (new [account 1; account 2; account 3])) 0)).
  - split_and!; [done|done|done|done|]. intros a Ha. simpl in Ha.
    repeat (apply elem_of_cons in Ha as [->|Ha]; [done|]). by apply not_elem_of_nil in Ha.
  - vm_compute. discriminate.
  - vm_compute. reflexivity.
Defined.

Lemma router_reachable_inv_witness :
  @router_inv unit_clock 0 (@upsert_account (account 2) (mkTimed (new [account 1]) 0)).2.
Proof.
  apply (@router_reachable_inv unit_clock list_order [account 1] DEFAULT_STICKY_SESSION_TTL
           DEFAULT_STICKY_SESSION_MAX_ENTRIES 0).
  - apply (bool_decide_unpack _). vm_compute. exact I.
  - eapply rtc_l; [|apply rtc_refl]. apply router_call. constructor.
Defined.

Lemma enforce_sticky_capacity_lru_witness :
  let items := {["a"%string := mkStickySessionEntry 1 9 4; "b"%string := mkStickySessionEntry 2 9 7]} in
  let kept := @enforce_sticky_capacity list_order items 2 in
  (size kept < 2)%nat ∧ kept ⊆ items ∧ ((size items < 2)%nat → kept = items) ∧
  ∀ k e k' e', kept !! k = Some e → items !! k' = Some e' → kept !! k' = None →
    ss_last_used_at e' <= ss_last_used_at e.
Proof. apply (@enforce_sticky_capacity_lru list_order). lia. Defined.

Lemma delete_account_forgets_witness :
  @wp (Timed Router) _ (delete_account 1) (λ removed w',
    (removed = true ↔ 1%N ∈ ids_of (new [account 1])) ∧ (1%N ∉ ids_of (st w')) ∧
    accounts (st w') = filter (λ a, ua_id a ≠ 1%N) [account 1] ∧
    (removed = true → account_traits (st w') !! 1%N = None ∧ health (st w') !! 1%N = None ∧
       recent_success (st w') !! 1%N = None ∧
       ∀ k e, sticky_sessions (st w') !! k = Some e → ss_account_id e ≠ 1%N))
    (mkTimed (new [account 1]) 0).
Proof.
  apply (@delete_account_forgets unit_clock). apply new_inv.
  apply (bool_decide_unpack _). vm_compute. exact I.
Defined.

Definition exact_policy : CompiledModelRoutingPolicy :=
  mkCompiledModelRoutingPolicy 1 "p" "f" ["gpt-5.4"%string] []
    [mkCompiledRoutingProfile 1 "seg" [7%N]].
Definition prefix_policy : CompiledModelRoutingPolicy :=
  mkCompiledModelRoutingPolicy 2 "q" "f" [] ["gpt"%string]
    [mkCompiledRoutingProfile 2 "seg" [8%N]].

Lemma exact_policy_takes_precedence_witness :
  candidate_ids (Some (mkCompiledRoutingPlan 0 0 None [] [prefix_policy; exact_policy]))
    (Some " gpt-5.4"%string) = Some [7%N].
Proof.
  apply (exact_policy_takes_precedence _ _ "gpt-5.4"%string exact_policy [prefix_policy] []).
  - vm_compute. reflexivity.
  - discriminate.
  - reflexivity.
  - left.
  - intros q ->%list_elem_of_singleton Hm. by apply not_elem_of_nil in Hm.
Defined.
End Witness.

(** ** The router: the source's unit tests

    Scenarios of the tests of [services/data-plane/src/router.rs], evaluated on
    the model with a clock that advances by one nanosecond per reading. *)
Import Router.Samples.
#[local] Open Scope string_scope.
#[local] Open Scope list_scope.
#[local] Open Scope Z_scope.

#[local] Existing Instances unit_clock list_order.

Definition run {A} (m : RM A) (r : Router) : A := (m (mkTimed r 0)).1.
Definition ids (l : list (option UpstreamAccount)) : list (option Uuid) :=
  map (option_map ua_id) l.

Example sticky_session_reuses_same_account :
  run (a ← pick_with_sticky (Some "session-1"); b ← pick_with_sticky (Some "session-1");
       c ← pick_with_sticky (Some "session-2"); s ← sticky_stats;
       mret (ids [a; b; c], s)) (new [account 1; account 2])
  = ([Some 1; Some 1; Some 2]%N, mkStickyRoutingStats 3 1 2 0 2).
Proof. vm_compute. reflexivity. Qed.

Example sticky_session_capacity_evicts_oldest_mapping :
  run (a ← pick_with_sticky (Some "s1"); _ ← pick_with_sticky (Some "s2");
       _ ← pick_with_sticky (Some "s3"); d ← pick_with_sticky (Some "s1");
       s ← sticky_stats; mret (ids [a; d], srs_sticky_mapping_total s))
    (new_with_sticky_limits [account 1; account 2] 300000000000 2)
  = ([Some 1; Some 2]%N, 2%nat).
Proof. vm_compute. reflexivity. Qed.

Example pick_excluding_skips_already_tried_accounts :
  run (a ← pick_excluding {[1%N; 2%N]}; mret (ids [a]))
    (new [account 1; account 2; account 3]) = [Some 3%N].
Proof. vm_compute. reflexivity. Qed.

Example sticky_policy_prefers_non_conflicting_account_when_available :
  run (b ← bind_sticky "busy-session" 1; a ← pick_with_policy (Some "new-session") ∅ true;
       mret (b, ids [a])) (new [account 1; account 2]) = (true, [Some 2%N]).
Proof. vm_compute. reflexivity. Qed.
