(* ===== verification/RoutingCache.v ===== *)
(** * The routing cache: [services/data-plane/src/routing_cache.rs]

    The trait [RoutingCache] is a class of operations on a state; its three
    implementations are instances: the in-memory maps, the Redis client (the
    server and the text form of a UUID are parameters), and the hybrid of both
    that the data plane uses. [stats_snapshot] reads the counters of the state. *)
From S2P Require Import Prelude CoreModel.

#[local] Open Scope string_scope.
#[local] Open Scope Z_scope.

Abbreviation Error := string (only parsing).
Abbreviation CM C := (ST (Timed C)) (only parsing).

Definition DEFAULT_LOCAL_STICKY_REHYDRATE_TTL : Duration := from_secs (30 * 60).
Definition DEFAULT_LOCAL_UNHEALTHY_REHYDRATE_TTL : Duration := from_secs 30.

Record RoutingCacheStats := mkRoutingCacheStats {
  local_sticky_hit_total : Z;
  local_sticky_miss_total : Z;
  shared_sticky_hit_total : Z;
  shared_sticky_miss_total : Z;
  shared_sticky_error_total : Z;
  local_unhealthy_hit_total : Z;
  local_unhealthy_miss_total : Z;
  shared_unhealthy_hit_total : Z;
  shared_unhealthy_miss_total : Z;
  shared_unhealthy_error_total : Z;
  shared_write_error_total : Z;
}.

Definition default_stats : RoutingCacheStats := mkRoutingCacheStats 0 0 0 0 0 0 0 0 0 0 0.

(** The trait. [stats_snapshot] defaults to zero counters. *)
Class RoutingCache (C : Type) := {
  get_sticky_account_id : string → ST (Timed C) (result (option Uuid) Error);
  set_sticky_account_id : string → Uuid → Duration → ST (Timed C) (result unit Error);
  delete_sticky_account_id : string → ST (Timed C) (result unit Error);
  set_unhealthy : Uuid → Duration → ST (Timed C) (result unit Error);
  is_unhealthy : Uuid → ST (Timed C) (result bool Error);
  clear_unhealthy : Uuid → ST (Timed C) (result unit Error);
  stats_snapshot : C → RoutingCacheStats;
}.

(** ** [InMemoryRoutingCache] *)

Module InMemory.

Record StickyEntry := mkStickyEntry { account_id : Uuid; expires_at : Instant }.

Record InMemoryRoutingCache := mkInMemory {
  sticky : gmap string StickyEntry;
  unhealthy : gmap Uuid Instant;
}.

Definition new : InMemoryRoutingCache := mkInMemory ∅ ∅.

Definition set_sticky (v : gmap string StickyEntry) (c : InMemoryRoutingCache) :=
  mkInMemory v (unhealthy c).
Definition set_unhealthy_map (v : gmap Uuid Instant) (c : InMemoryRoutingCache) :=
  mkInMemory (sticky c) v.

Section ops.
Context `{Clock}.

Definition mem_get_sticky_account_id (sticky_key : string) :
    CM InMemoryRoutingCache (result (option Uuid) Error) :=
  t ← now;
  _ ← modify (λ c, set_sticky (filter (λ kv, t < expires_at kv.2) (sticky c)) c);
  gets (λ c, Ok (account_id <$> sticky c !! sticky_key)).

Definition mem_set_sticky_account_id (sticky_key : string) (id : Uuid) (ttl : Duration) :
    CM InMemoryRoutingCache (result unit Error) :=
  if ttl =? 0 then mret (Ok tt) else
  t ← now;
  _ ← modify (λ c, set_sticky (<[sticky_key := mkStickyEntry id (t + ttl)]> (sticky c)) c);
  mret (Ok tt).

Definition mem_delete_sticky_account_id (sticky_key : string) :
    CM InMemoryRoutingCache (result unit Error) :=
  _ ← modify (λ c, set_sticky (delete sticky_key (sticky c)) c);
  mret (Ok tt).

Definition mem_set_unhealthy (id : Uuid) (ttl : Duration) :
    CM InMemoryRoutingCache (result unit Error) :=
  if ttl =? 0 then mret (Ok tt) else
  t ← now;
  _ ← modify (λ c, set_unhealthy_map (<[id := t + ttl]> (unhealthy c)) c);
  mret (Ok tt).

Definition mem_is_unhealthy (id : Uuid) : CM InMemoryRoutingCache (result bool Error) :=
  t ← now;
  _ ← modify (λ c, set_unhealthy_map (filter (λ kv, t < kv.2) (unhealthy c)) c);
  gets (λ c, Ok (bool_decide (is_Some (unhealthy c !! id)))).

Definition mem_clear_unhealthy (id : Uuid) : CM InMemoryRoutingCache (result unit Error) :=
  _ ← modify (λ c, set_unhealthy_map (delete id (unhealthy c)) c);
  mret (Ok tt).

#[global] Instance in_memory_cache : RoutingCache InMemoryRoutingCache := {|
  get_sticky_account_id := mem_get_sticky_account_id;
  set_sticky_account_id := mem_set_sticky_account_id;
  delete_sticky_account_id := mem_delete_sticky_account_id;
  set_unhealthy := mem_set_unhealthy;
  is_unhealthy := mem_is_unhealthy;
  clear_unhealthy := mem_clear_unhealthy;
  stats_snapshot := λ _, default_stats;
|}.
End ops.
End InMemory.
Export InMemory (InMemoryRoutingCache, in_memory_cache).

(** ** [RedisRoutingCache] *)

(** The text form of a UUID: [Uuid::to_string] and [Uuid::parse_str]. *)
Class UuidText := {
  uuid_to_string : Uuid → string;
  uuid_parse_str : string → option Uuid;
  uuid_parse_to_string : ∀ u, uuid_parse_str (uuid_to_string u) = Some u;
}.

(** The commands the client sends; each may fail, opening the connection too. *)
Class RedisServer (W : Type) := {
  redis_client_open : string → ST (Timed W) (result unit Error);
  redis_multiplexed_connection : ST (Timed W) (result unit Error);
  redis_get : string → ST (Timed W) (result (option string) Error);
  redis_set_ex : string → string → Z → ST (Timed W) (result unit Error);
  redis_del : string → ST (Timed W) (result Z Error);
  redis_exists : string → ST (Timed W) (result Z Error);
}.

Module Redis.
(** The client's own fields, beside the server it talks to. *)
Record RedisRoutingCache (W : Type) := mkRedis {
  redis_url : string;
  key_prefix : string;
  server : W;
}.
Arguments mkRedis {_} _ _ _.
Arguments redis_url {_} _.
Arguments key_prefix {_} _.
Arguments server {_} _.

Definition sticky_key (prefix key : string) : string := prefix +:+ ":sticky:" +:+ key.

Section ops.
Context {W : Type} `{UuidText} `{RedisServer W}.
Implicit Types (c : RedisRoutingCache W).

Definition unhealthy_key (prefix : string) (id : Uuid) : string :=
  prefix +:+ ":unhealthy:" +:+ uuid_to_string id.

Definition with_server {A} (m : ST (Timed W) A) : ST (Timed (RedisRoutingCache W)) A :=
  zoom server (λ s c, mkRedis (redis_url c) (key_prefix c) s) m.

Definition connection : ST (Timed (RedisRoutingCache W)) (result unit Error) :=
  url ← gets redis_url;
  _ ←? with_context "failed to open redis client for routing cache"
         (with_server (redis_client_open url));
  with_context "failed to connect redis for routing cache"
    (with_server redis_multiplexed_connection).

Definition redis_get_sticky_account_id (key : string) :
    ST (Timed (RedisRoutingCache W)) (result (option Uuid) Error) :=
  _ ←? connection;
  prefix ← gets key_prefix;
  raw ←? with_context "failed to load sticky mapping from redis"
           (with_server (redis_get (sticky_key prefix key)));
  mret match raw with
       | None => Ok None
       | Some value =>
           match uuid_parse_str value with
           | Some id => Ok (Some id)
           | None => Err "invalid sticky uuid in redis"
           end
       end.

Definition redis_set_sticky_account_id (key : string) (id : Uuid) (ttl : Duration) :
    ST (Timed (RedisRoutingCache W)) (result unit Error) :=
  if ttl =? 0 then mret (Ok tt) else
  _ ←? connection;
  prefix ← gets key_prefix;
  with_context "failed to store sticky mapping in redis"
    (with_server (redis_set_ex (sticky_key prefix key) (uuid_to_string id)
                    (as_secs ttl `max` 1))).

Definition redis_delete_sticky_account_id (key : string) :
    ST (Timed (RedisRoutingCache W)) (result unit Error) :=
  _ ←? connection;
  prefix ← gets key_prefix;
  _ ←? with_context "failed to delete sticky mapping in redis"
         (with_server (redis_del (sticky_key prefix key)));
  mret (Ok tt).

Definition redis_set_unhealthy (id : Uuid) (ttl : Duration) :
    ST (Timed (RedisRoutingCache W)) (result unit Error) :=
  if ttl =? 0 then mret (Ok tt) else
  _ ←? connection;
  prefix ← gets key_prefix;
  with_context "failed to set unhealthy key in redis"
    (with_server (redis_set_ex (unhealthy_key prefix id) "1" (as_secs ttl `max` 1))).

Definition redis_is_unhealthy (id : Uuid) :
    ST (Timed (RedisRoutingCache W)) (result bool Error) :=
  _ ←? connection;
  prefix ← gets key_prefix;
  exists_ ←? with_context "failed to check unhealthy key in redis"
               (with_server (redis_exists (unhealthy_key prefix id)));
  mret (Ok (0 <? exists_)).

Definition redis_clear_unhealthy (id : Uuid) :
    ST (Timed (RedisRoutingCache W)) (result unit Error) :=
  _ ←? connection;
  prefix ← gets key_prefix;
  _ ←? with_context "failed to clear unhealthy key in redis"
         (with_server (redis_del (unhealthy_key prefix id)));
  mret (Ok tt).

#[global] Instance redis_cache : RoutingCache (RedisRoutingCache W) := {|
  get_sticky_account_id := redis_get_sticky_account_id;
  set_sticky_account_id := redis_set_sticky_account_id;
  delete_sticky_account_id := redis_delete_sticky_account_id;
  set_unhealthy := redis_set_unhealthy;
  is_unhealthy := redis_is_unhealthy;
  clear_unhealthy := redis_clear_unhealthy;
  stats_snapshot := λ _, default_stats;
|}.
End ops.
End Redis.
Export Redis (RedisRoutingCache, redis_cache).

(** ** [HybridRoutingCache] *)

Module Hybrid.
(** The local cache, the shared one when the data plane was given one, and
    the counters. *)
Record HybridRoutingCache (C : Type) := mkHybrid {
  local : InMemoryRoutingCache;
  shared : option C;
  counters : RoutingCacheStats;
}.
Arguments mkHybrid {_} _ _ _.
Arguments local {_} _.
Arguments shared {_} _.
Arguments counters {_} _.

Definition local_only {C} (l : InMemoryRoutingCache) : HybridRoutingCache C :=
  mkHybrid l None default_stats.
Definition with_shared {C} (l : InMemoryRoutingCache) (s : C) : HybridRoutingCache C :=
  mkHybrid l (Some s) default_stats.

(** [fetch_add(1)] on one of the counters. *)
Inductive counter :=
  | LocalStickyHit | LocalStickyMiss | SharedStickyHit | SharedStickyMiss | SharedStickyError
  | LocalUnhealthyHit | LocalUnhealthyMiss | SharedUnhealthyHit | SharedUnhealthyMiss
  | SharedUnhealthyError | SharedWriteError.

#[global] Instance counter_eq_dec : EqDecision counter.
Proof. solve_decision. Defined.

Definition incr (c : counter) (s : RoutingCacheStats) : RoutingCacheStats :=
  let up d v := if decide (c = d) then u64_wrap (v + 1) else v in
  mkRoutingCacheStats
    (up LocalStickyHit (local_sticky_hit_total s))
    (up LocalStickyMiss (local_sticky_miss_total s))
    (up SharedStickyHit (shared_sticky_hit_total s))
    (up SharedStickyMiss (shared_sticky_miss_total s))
    (up SharedStickyError (shared_sticky_error_total s))
    (up LocalUnhealthyHit (local_unhealthy_hit_total s))
    (up LocalUnhealthyMiss (local_unhealthy_miss_total s))
    (up SharedUnhealthyHit (shared_unhealthy_hit_total s))
    (up SharedUnhealthyMiss (shared_unhealthy_miss_total s))
    (up SharedUnhealthyError (shared_unhealthy_error_total s))
    (up SharedWriteError (shared_write_error_total s)).

Section ops.
Context `{Clock} {C : Type} `{RoutingCache C}.

Definition fetch_add (c : counter) : ST (Timed (HybridRoutingCache C)) unit :=
  modify (λ h, mkHybrid (local h) (shared h) (incr c (counters h))).

Definition on_local {A} (m : ST (Timed InMemoryRoutingCache) A) :
    ST (Timed (HybridRoutingCache C)) A :=
  zoom local (λ l h, mkHybrid l (shared h) (counters h)) m.

(** [if let Some(shared) = self.shared.as_ref() { .. }]. *)
Definition on_shared {A} (m : ST (Timed C) A) :
    ST (Timed (HybridRoutingCache C)) (option A) :=
  λ w, match shared (st w) with
       | None => (None, w)
       | Some c =>
           let '(a, w') := m (mkTimed c (ticks w)) in
           (Some a, mkTimed (mkHybrid (local (st w)) (Some (st w')) (counters (st w)))
                      (ticks w'))
       end.

(** A write to the shared cache: an error is counted and dropped. *)
Definition write_shared {A} (m : ST (Timed C) (result A Error)) :
    ST (Timed (HybridRoutingCache C)) (result unit Error) :=
  r ← on_shared m;
  match r with
  | Some (Err _) => _ ← fetch_add SharedWriteError; mret (Ok tt)
  | _ => mret (Ok tt)
  end.

Definition hybrid_get_sticky_account_id (sticky_key : string) :
    ST (Timed (HybridRoutingCache C)) (result (option Uuid) Error) :=
  hit ←? on_local (get_sticky_account_id sticky_key);
  match hit with
  | Some id => _ ← fetch_add LocalStickyHit; mret (Ok (Some id))
  | None =>
      _ ← fetch_add LocalStickyMiss;
      shared_hit ← on_shared (get_sticky_account_id sticky_key);
      match shared_hit with
      | None => mret (Ok None)
      | Some (Ok (Some id)) =>
          _ ← fetch_add SharedStickyHit;
          _ ← on_local (set_sticky_account_id sticky_key id DEFAULT_LOCAL_STICKY_REHYDRATE_TTL);
          mret (Ok (Some id))
      | Some (Ok None) => _ ← fetch_add SharedStickyMiss; mret (Ok None)
      | Some (Err _) => _ ← fetch_add SharedStickyError; mret (Ok None)
      end
  end.

Definition hybrid_set_sticky_account_id (sticky_key : string) (id : Uuid) (ttl : Duration) :
    ST (Timed (HybridRoutingCache C)) (result unit Error) :=
  _ ←? on_local (set_sticky_account_id sticky_key id ttl);
  write_shared (set_sticky_account_id sticky_key id ttl).

Definition hybrid_delete_sticky_account_id (sticky_key : string) :
    ST (Timed (HybridRoutingCache C)) (result unit Error) :=
  _ ←? on_local (delete_sticky_account_id sticky_key);
  write_shared (delete_sticky_account_id sticky_key).

Definition hybrid_set_unhealthy (id : Uuid) (ttl : Duration) :
    ST (Timed (HybridRoutingCache C)) (result unit Error) :=
  _ ←? on_local (set_unhealthy id ttl);
  write_shared (set_unhealthy id ttl).

Definition hybrid_is_unhealthy (id : Uuid) :
    ST (Timed (HybridRoutingCache C)) (result bool Error) :=
  hit ←? on_local (is_unhealthy id);
  if hit : bool then _ ← fetch_add LocalUnhealthyHit; mret (Ok true) else
  _ ← fetch_add LocalUnhealthyMiss;
  shared_hit ← on_shared (is_unhealthy id);
  match shared_hit with
  | None => mret (Ok false)
  | Some (Ok true) =>
      _ ← fetch_add SharedUnhealthyHit;
      _ ← on_local (set_unhealthy id DEFAULT_LOCAL_UNHEALTHY_REHYDRATE_TTL);
      mret (Ok true)
  | Some (Ok false) => _ ← fetch_add SharedUnhealthyMiss; mret (Ok false)
  | Some (Err _) => _ ← fetch_add SharedUnhealthyError; mret (Ok false)
  end.

Definition hybrid_clear_unhealthy (id : Uuid) :
    ST (Timed (HybridRoutingCache C)) (result unit Error) :=
  _ ←? on_local (clear_unhealthy id);
  write_shared (clear_unhealthy id).

#[global] Instance hybrid_cache : RoutingCache (HybridRoutingCache C) := {|
  get_sticky_account_id := hybrid_get_sticky_account_id;
  set_sticky_account_id := hybrid_set_sticky_account_id;
  delete_sticky_account_id := hybrid_delete_sticky_account_id;
  set_unhealthy := hybrid_set_unhealthy;
  is_unhealthy := hybrid_is_unhealthy;
  clear_unhealthy := hybrid_clear_unhealthy;
  stats_snapshot := counters;
|}.
End ops.
End Hybrid.
Export Hybrid (HybridRoutingCache, hybrid_cache).
