(* ===== verification/RoutingCacheFacts.v ===== *)
(** * Properties of the routing cache

    The contract of a routing cache is [ExpiringMap]: two maps with expiry
    times that are never pruned, an entry being visible until its time. The
    in-memory cache refines it, the hybrid cache refines it too while the shared
    cache is absent or unavailable, and instances that share a working Redis see
    each other's sticky sessions. *)
From S2P Require Import Prelude CoreModel RoutingCache.
Import InMemory Redis Hybrid.

#[local] Open Scope string_scope.
#[local] Open Scope Z_scope.

(** ** Scripts: sequences of trait calls with their answers *)

Inductive cmd :=
  | CGet (k : string) | CSet (k : string) (id : Uuid) (ttl : Duration) | CDelete (k : string)
  | CSetUnhealthy (id : Uuid) (ttl : Duration) | CIsUnhealthy (id : Uuid)
  | CClearUnhealthy (id : Uuid).

Inductive answer := ASticky (r : option Uuid) | AUnhealthy (b : bool) | ADone | AFailed (e : string).

Section scripts.
Context {C : Type} `{RoutingCache C}.

Definition answer_of {A} (f : A → answer) (m : ST (Timed C) (result A string)) :
    ST (Timed C) answer :=
  r ← m; mret match r with Ok a => f a | Err e => AFailed e end.

Definition exec (c : cmd) : ST (Timed C) answer :=
  match c with
  | CGet k => answer_of ASticky (get_sticky_account_id k)
  | CSet k id ttl => answer_of (λ _, ADone) (set_sticky_account_id k id ttl)
  | CDelete k => answer_of (λ _, ADone) (delete_sticky_account_id k)
  | CSetUnhealthy id ttl => answer_of (λ _, ADone) (set_unhealthy id ttl)
  | CIsUnhealthy id => answer_of AUnhealthy (is_unhealthy id)
  | CClearUnhealthy id => answer_of (λ _, ADone) (clear_unhealthy id)
  end.

Fixpoint exec_all (cs : list cmd) : ST (Timed C) (list answer) :=
  match cs with
  | [] => mret []
  | c :: cs => a ← exec c; l ← exec_all cs; mret (a :: l)
  end.
End scripts.

(** Lock-step simulation between two caches: related states answer every
    command alike and stay related; then so does every script. *)
Section simulation.
Context {C D : Type} `{RoutingCache C, RoutingCache D} (R : Timed C → Timed D → Prop).

Definition simulates : Prop := ∀ c w v, R w v →
  wp (exec c) (λ a w', wp (exec c) (λ b v', a = b ∧ R w' v') v) w.

Lemma simulates_all cs w v : simulates → R w v →
  wp (exec_all cs) (λ l w', wp (exec_all cs) (λ l' v', l = l' ∧ R w' v') v) w.
Proof.
  intros Hsim. revert w v. induction cs as [|c cs IH]; intros w v HR; simpl; [done|].
  apply wp_bind. eapply wp_mono; [by apply Hsim|]. intros a w1 H1.
  apply wp_bind. cbn beta in H1.
  destruct (exec c v) as [b v1] eqn:Hv. unfold wp in H1. rewrite Hv in H1.
  simpl in H1. destruct H1 as [-> HR1]. eapply wp_mono; [by apply IH|].
  intros l w2 H2. apply wp_ret. apply wp_bind. unfold wp at 1. rewrite Hv. simpl.
  apply wp_bind. eapply wp_mono; [exact H2|]. intros l' v2 [-> ?]. by apply wp_ret.
Qed.
End simulation.

(** ** The contract *)

Record ExpiringMap := mkExpiringMap {
  bindings : gmap string StickyEntry;
  ejected : gmap Uuid Instant;
}.

Definition visible {K V} `{Countable K} (exp : V → Instant) (t : Instant) (m : gmap K V) (k : K) :
    option V :=
  match m !! k with Some v => if t <? exp v then Some v else None | None => None end.

#[global] Instance expiring_map `{Clock} : RoutingCache ExpiringMap := {|
  get_sticky_account_id k :=
    t ← now; gets (λ s, Ok (account_id <$> visible expires_at t (bindings s) k));
  set_sticky_account_id k id ttl :=
    if ttl =? 0 then mret (Ok tt) else
    t ← now;
    _ ← modify (λ s, mkExpiringMap (<[k := mkStickyEntry id (t + ttl)]> (bindings s)) (ejected s));
    mret (Ok tt);
  delete_sticky_account_id k :=
    _ ← modify (λ s, mkExpiringMap (delete k (bindings s)) (ejected s)); mret (Ok tt);
  set_unhealthy id ttl :=
    if ttl =? 0 then mret (Ok tt) else
    t ← now;
    _ ← modify (λ s, mkExpiringMap (bindings s) (<[id := t + ttl]> (ejected s)));
    mret (Ok tt);
  is_unhealthy id :=
    t ← now; gets (λ s, Ok (bool_decide (is_Some (visible (λ u, u) t (ejected s) id))));
  clear_unhealthy id :=
    _ ← modify (λ s, mkExpiringMap (bindings s) (delete id (ejected s))); mret (Ok tt);
  stats_snapshot := λ _, default_stats;
|}.

Create HintDb cache.

(** Two maps agree on the entries that are visible at [t] or later. *)
Definition agree {K V} `{Countable K} (exp : V → Instant) (t : Instant) (m1 m2 : gmap K V) : Prop :=
  ∀ k v, t < exp v → m1 !! k = Some v ↔ m2 !! k = Some v.

Section agree.
Context {K V : Type} `{Countable K} (exp : V → Instant).
Implicit Types m : gmap K V.

Lemma agree_mono t t' m1 m2 : t <= t' → agree exp t m1 m2 → agree exp t' m1 m2.
Proof. intros ? Ha k v ?. apply Ha. lia. Qed.

Lemma agree_insert t m1 m2 k v : agree exp t m1 m2 → agree exp t (<[k:=v]> m1) (<[k:=v]> m2).
Proof.
  intros Ha j u ?. destruct (decide (k = j)) as [->|?].
  - by rewrite !lookup_insert_eq.
  - rewrite !lookup_insert_ne by done. by apply Ha.
Qed.

Lemma agree_delete t m1 m2 k : agree exp t m1 m2 → agree exp t (delete k m1) (delete k m2).
Proof.
  intros Ha j u ?. destruct (decide (k = j)) as [->|?].
  - by rewrite !lookup_delete_eq.
  - rewrite !lookup_delete_ne by done. by apply Ha.
Qed.

Lemma agree_prune t m1 m2 :
  agree exp t m1 m2 → agree exp t (filter (λ kv, t < exp kv.2) m1) m2.
Proof. intros Ha j u ?. rewrite map_lookup_filter_Some, (Ha j u) by done. naive_solver. Qed.

Lemma agree_visible t m1 m2 k :
  agree exp t m1 m2 → filter (λ kv, t < exp kv.2) m1 !! k = visible exp t m2 k.
Proof.
  intros Ha. apply option_eq. intros v. rewrite map_lookup_filter_Some. simpl. unfold visible.
  destruct (m2 !! k) as [u|] eqn:Hm2.
  - destruct (Z.ltb_spec t (exp u)).
    + split; [|intros [= <-]; split; [by apply Ha|done]].
      intros [Hv ?]. apply Ha in Hv; [|done]. congruence.
    + split; [|done]. intros [Hv ?]. apply Ha in Hv; [|done]. simplify_eq. lia.
  - split; [|done]. intros [Hv ?]. apply Ha in Hv; [|done]. congruence.
Qed.
End agree.

#[export] Hint Resolve agree_mono agree_insert agree_delete agree_prune : cache.

(** ** The in-memory cache *)

Section in_memory.
Context `{Clock}.

Definition mem_rel (w : Timed InMemoryRoutingCache) (v : Timed ExpiringMap) : Prop :=
  ticks w = ticks v ∧
  agree expires_at (time w) (sticky (st w)) (bindings (st v)) ∧
  agree (λ u, u) (time w) (unhealthy (st w)) (ejected (st v)).

Lemma time_tick {S T} (s : S) (s' : T) n : time (mkTimed s n) <= time (mkTimed s' (Datatypes.S n)).
Proof. apply clock_mono. simpl. lia. Qed.

Lemma mem_simulates : simulates mem_rel.
Proof.
  intros c w v (Ht & Hs & Hu). unfold time in Hs, Hu.
  pose proof (clock_mono (ticks w) (Datatypes.S (ticks w)) ltac:(lia)).
  destruct c; unfold exec, answer_of; simpl;
    unfold mem_get_sticky_account_id, mem_set_sticky_account_id, mem_delete_sticky_account_id,
      mem_set_unhealthy, mem_is_unhealthy, mem_clear_unhealthy; wp_go;
    unfold mem_rel, time; simpl; rewrite <-?Ht.
  all: split; [try done|split_and!; [done|eauto with cache..]].
  - by rewrite (agree_visible expires_at _ _ (bindings (st v))).
  - by rewrite (agree_visible (λ u, u) _ _ (ejected (st v))).
Qed.

Lemma mem_rel_new n : mem_rel (mkTimed new n) (mkTimed (mkExpiringMap ∅ ∅) n).
Proof. split_and!; done. Qed.

(** Any sequence of calls on a fresh in-memory cache gets the answers of the
    never-pruned expiring maps, none of them an error. *)
Lemma mem_refines cs n :
  (exec_all cs (mkTimed new n)).1 = (exec_all cs (mkTimed (mkExpiringMap ∅ ∅) n)).1.
Proof.
  pose proof (simulates_all mem_rel cs _ _ mem_simulates (mem_rel_new n)) as Hall.
  unfold wp in Hall. apply Hall.
Qed.
End in_memory.

Section local_reads.
Context `{Clock}.
Implicit Types w : Timed InMemoryRoutingCache.

Definition visible_sticky w (k : string) : option StickyEntry :=
  visible expires_at (time w) (sticky (st w)) k.

Lemma wp_mem_get k Q w :
  Q (Ok (account_id <$> visible_sticky w k))
    (mkTimed (set_sticky (filter (λ kv, time w < expires_at kv.2) (sticky (st w))) (st w))
       (Datatypes.S (ticks w))) →
  wp (mem_get_sticky_account_id k) Q w.
Proof.
  unfold mem_get_sticky_account_id, visible_sticky. intros ?. wp_go.
  unfold time in *. simpl.
  by rewrite (agree_visible expires_at _ (sticky (st w)) (sticky (st w)) k).
Qed.

Definition visible_unhealthy w (id : Uuid) : bool :=
  bool_decide (is_Some (visible (λ u, u) (time w) (unhealthy (st w)) id)).

Lemma wp_mem_is_unhealthy id Q w :
  Q (Ok (visible_unhealthy w id))
    (mkTimed (set_unhealthy_map (filter (λ kv, time w < kv.2) (unhealthy (st w))) (st w))
       (Datatypes.S (ticks w))) →
  wp (mem_is_unhealthy id) Q w.
Proof.
  unfold mem_is_unhealthy, visible_unhealthy. intros ?. wp_go.
  unfold time in *. simpl.
  by rewrite (agree_visible (λ u, u) _ (unhealthy (st w)) (unhealthy (st w)) id).
Qed.

Lemma wp_mem_set k id ttl Q w : ttl ≠ 0 →
  Q (Ok tt) (mkTimed (set_sticky (<[k := mkStickyEntry id (time w + ttl)]> (sticky (st w))) (st w))
              (Datatypes.S (ticks w))) →
  wp (mem_set_sticky_account_id k id ttl) Q w.
Proof. intros Hz ?. unfold mem_set_sticky_account_id. by destruct (Z.eqb_spec ttl 0). Qed.
End local_reads.

(** ** The hybrid cache *)

Section hybrid.
Context `{Clock} {C : Type} `{RoutingCache C}.
Implicit Types (w : Timed (HybridRoutingCache C)).

Definition local_view w : Timed InMemoryRoutingCache := mkTimed (local (st w)) (ticks w).

Lemma wp_on_shared {A} (m : ST (Timed C) A) Q w :
  (shared (st w) = None → Q None w) →
  (∀ c, shared (st w) = Some c →
     wp m (λ a v, Q (Some a) (mkTimed (mkHybrid (local (st w)) (Some (st v)) (counters (st w)))
                                (ticks v))) (mkTimed c (ticks w))) →
  wp (on_shared m) Q w.
Proof.
  intros Hn Hs. unfold wp, on_shared. destruct (shared (st w)) as [c|] eqn:Hc; [|by apply Hn].
  specialize (Hs c eq_refl). unfold wp in Hs. by destruct (m _).
Qed.

(** *** Degraded operation *)

(** The shared cache cannot be reached: its reads fail. *)
Definition unavailable : Prop :=
  (∀ k (v : Timed C),
     wp (get_sticky_account_id (C:=C) k) (λ r v', is_err r = true ∧ ticks v' = ticks v) v) ∧
  (∀ id (v : Timed C),
     wp (is_unhealthy (C:=C) id) (λ r v', is_err r = true ∧ ticks v' = ticks v) v) ∧
  (∀ k id ttl (v : Timed C),
     wp (set_sticky_account_id (C:=C) k id ttl) (λ _ v', ticks v' = ticks v) v) ∧
  (∀ k (v : Timed C), wp (delete_sticky_account_id (C:=C) k) (λ _ v', ticks v' = ticks v) v) ∧
  (∀ id ttl (v : Timed C), wp (set_unhealthy (C:=C) id ttl) (λ _ v', ticks v' = ticks v) v) ∧
  (∀ id (v : Timed C), wp (clear_unhealthy (C:=C) id) (λ _ v', ticks v' = ticks v) v).

Definition degraded_rel w (v : Timed InMemoryRoutingCache) : Prop :=
  local_view w = v ∧ (is_Some (shared (st w)) → unavailable).

Lemma wp_write_degraded {A} (m : ST (Timed C) (result A string)) w :
  (is_Some (shared (st w)) → ∀ v, wp m (λ _ v', ticks v' = ticks v) v) →
  (is_Some (shared (st w)) → unavailable) →
  wp (write_shared m) (λ r w', r = Ok tt ∧ degraded_rel w' (local_view w)) w.
Proof.
  intros Hm Hu. unfold write_shared. wp_step. apply wp_on_shared.
  { intros ?. wp_step. by split. }
  intros c Hc. specialize (Hm ltac:(by eexists)). specialize (Hu ltac:(by eexists)).
  eapply wp_mono; [apply Hm|]. intros r v Hv. cbn beta in Hv.
  unfold fetch_add. wp_go; (split; [done|split; [|done]]); unfold local_view; simpl; by rewrite Hv.
Qed.

Lemma degraded_write {A} (ml : ST (Timed InMemoryRoutingCache) (result unit string))
    (ms : ST (Timed C) (result A string)) w :
  (is_Some (shared (st w)) → ∀ v, wp ms (λ _ v', ticks v' = ticks v) v) →
  (is_Some (shared (st w)) → unavailable) →
  wp (answer_of (λ _, ADone) (_ ←? on_local ml; write_shared ms)) (λ a w',
    wp (answer_of (λ _, ADone) ml) (λ b v', a = b ∧ degraded_rel w' v') (local_view w)) w.
Proof.
  intros Hm Hu. unfold answer_of, on_local. do 3 wp_step. apply wp_intro.
  intros r v Hrun. destruct r as [[]|e].
  - eapply wp_mono; [by apply wp_write_degraded|]. simpl. intros r w' [-> Hrel].
    wp_step. wp_step. unfold wp. simpl in Hrun. unfold local_view. rewrite Hrun. simpl. split; [done|].
    by destruct v.
  - wp_step. wp_step. unfold wp. simpl in Hrun. unfold local_view. rewrite Hrun. simpl. split; [done|].
    split; [by destruct v|done].
Qed.

Lemma degraded_simulates : simulates degraded_rel.
Proof.
  intros c w v (<- & Hu). destruct c; unfold exec; simpl.
  2,3,4,6: apply degraded_write; [|done]; intros Hs; apply (Hu Hs).
  - unfold answer_of, hybrid_get_sticky_account_id, on_local, fetch_add.
    do 3 wp_step. apply wp_mem_get. change (visible_sticky _ k) with (visible_sticky (local_view w) k).
    destruct (visible_sticky (local_view w) k) as [e|] eqn:Hv; simpl.
    { wp_go. apply wp_mem_get. rewrite Hv. by split. }
    do 2 wp_step. wp_step. apply wp_on_shared.
    + intros Hn. wp_go. apply wp_mem_get. rewrite Hv. by split.
    + intros c Hc. eapply wp_mono; [apply (Hu ltac:(by eexists))|].
      intros r s [Hr Ht]. destruct r as [?|e]; [done|]. wp_go.
      apply wp_mem_get. rewrite Hv. split; [done|]. split; [|intros _; apply Hu; by eexists].
      unfold local_view. simpl. by rewrite Ht.
  - unfold answer_of, hybrid_is_unhealthy, on_local, fetch_add.
    do 3 wp_step. apply wp_mem_is_unhealthy.
    change (visible_unhealthy _ id) with (visible_unhealthy (local_view w) id).
    destruct (visible_unhealthy (local_view w) id) eqn:Hv; simpl.
    { wp_go. apply wp_mem_is_unhealthy. rewrite Hv. by split. }
    do 2 wp_step. wp_step. apply wp_on_shared.
    + intros Hn. wp_go. apply wp_mem_is_unhealthy. rewrite Hv. by split.
    + intros c Hc. eapply wp_mono; [apply (Hu ltac:(by eexists))|].
      intros r s [Hr Ht]. destruct r as [?|e]; [done|]. wp_go.
      apply wp_mem_is_unhealthy. rewrite Hv. split; [done|]. split; [|intros _; apply Hu; by eexists].
      unfold local_view. simpl. by rewrite Ht.
Qed.

(** *** Read-through *)

(** What a lookup of the hybrid cache does, in terms of the entry its local
    cache shows and of the shared cache's own lookup. *)
Definition read_through k w (r : result (option Uuid) string) (w' : Timed (HybridRoutingCache C)) :
    Prop :=
  match visible_sticky (local_view w) k, shared (st w) with
  | Some e, _ =>
      r = Ok (Some (account_id e)) ∧ shared (st w') = shared (st w) ∧
      counters (st w') = incr LocalStickyHit (counters (st w))
  | None, None =>
      r = Ok None ∧ shared (st w') = None ∧
      counters (st w') = incr LocalStickyMiss (counters (st w))
  | None, Some c =>
      wp (get_sticky_account_id (C:=C) k) (λ sr v,
        shared (st w') = Some (st v) ∧ (ticks v ≤ ticks w')%nat ∧
        match sr with
        | Ok (Some id) =>
            r = Ok (Some id) ∧
            sticky (local (st w')) !! k
              = Some (mkStickyEntry id (time v + DEFAULT_LOCAL_STICKY_REHYDRATE_TTL)) ∧
            counters (st w') = incr SharedStickyHit (incr LocalStickyMiss (counters (st w)))
        | Ok None =>
            r = Ok None ∧
            counters (st w') = incr SharedStickyMiss (incr LocalStickyMiss (counters (st w)))
        | Err _ =>
            r = Ok None ∧
            counters (st w') = incr SharedStickyError (incr LocalStickyMiss (counters (st w)))
        end) (mkTimed c (Datatypes.S (ticks w)))
  end.

Lemma hybrid_get_read_through k w :
  wp (hybrid_get_sticky_account_id k) (read_through k w) w.
Proof.
  unfold hybrid_get_sticky_account_id, on_local, fetch_add, read_through.
  do 2 wp_step. apply wp_mem_get.
  change (visible_sticky _ k) with (visible_sticky (local_view w) k).
  destruct (visible_sticky (local_view w) k) as [e|] eqn:Hv; simpl; [by wp_go|].
  do 3 wp_step. apply wp_on_shared; simpl.
  { intros Hn. wp_step. by rewrite Hn. }
  intros c ->. apply wp_intro. intros r v Hrun.
  destruct r as [[id|]|e]; [|wp_go; unfold wp; rewrite Hrun; simpl; by split_and!..].
  do 4 wp_step. apply wp_mem_set; [done|]. simpl. wp_step.
  unfold wp. rewrite Hrun. simpl. split_and!; [done|lia|done| |done].
  by rewrite lookup_insert_eq.
Qed.

(** *** Counters *)

(** Every local miss was followed by exactly one counted shared lookup. *)
Definition balanced (s : RoutingCacheStats) : Prop :=
  u64_wrap (local_sticky_miss_total s)
    = u64_wrap (shared_sticky_hit_total s + shared_sticky_miss_total s + shared_sticky_error_total s) ∧
  u64_wrap (local_unhealthy_miss_total s)
    = u64_wrap (shared_unhealthy_hit_total s + shared_unhealthy_miss_total s
                + shared_unhealthy_error_total s).

Definition stats_inv w : Prop := is_Some (shared (st w)) ∧ balanced (counters (st w)).

Lemma balanced_neutral c s :
  c ∈ [LocalStickyHit; LocalUnhealthyHit; SharedWriteError] → balanced s → balanced (incr c s).
Proof. rewrite !elem_of_cons, elem_of_nil. by intros [->|[->|[->|[]]]] ?. Qed.

Lemma wrap_succ a b : u64_wrap a = u64_wrap b → u64_wrap (u64_wrap (a + 1)) = u64_wrap (b + 1).
Proof.
  intros Hab. rewrite (u64_wrap_small (u64_wrap _)) by apply u64_wrap_bounds.
  by rewrite <-u64_wrap_add_l, Hab, u64_wrap_add_l.
Qed.

Lemma wrap_sum a b c m : u64_wrap m = u64_wrap (a + b + c) →
  u64_wrap (u64_wrap (m + 1)) = u64_wrap (u64_wrap (a + 1) + b + c) ∧
  u64_wrap (u64_wrap (m + 1)) = u64_wrap (a + u64_wrap (b + 1) + c) ∧
  u64_wrap (u64_wrap (m + 1)) = u64_wrap (a + b + u64_wrap (c + 1)).
Proof.
  intros Hm%wrap_succ. rewrite !Hm. split_and!.
  - replace (u64_wrap (a + 1) + b + c) with (u64_wrap (a + 1) + (b + c)) by lia.
    rewrite u64_wrap_add_l. f_equal. lia.
  - replace (a + u64_wrap (b + 1) + c) with (u64_wrap (b + 1) + (a + c)) by lia.
    rewrite u64_wrap_add_l. f_equal. lia.
  - rewrite u64_wrap_add_r. f_equal. lia.
Qed.

Lemma balanced_pair c d s :
  (c = LocalStickyMiss ∧ d ∈ [SharedStickyHit; SharedStickyMiss; SharedStickyError]) ∨
  (c = LocalUnhealthyMiss ∧ d ∈ [SharedUnhealthyHit; SharedUnhealthyMiss; SharedUnhealthyError]) →
  balanced s → balanced (incr d (incr c s)).
Proof.
  intros Hcd [Hs Hu]. unfold balanced.
  destruct (wrap_sum _ _ _ _ Hs) as (?&?&?), (wrap_sum _ _ _ _ Hu) as (?&?&?).
  destruct Hcd as [[-> Hd]|[-> Hd]]; repeat (apply elem_of_cons in Hd as [->|Hd]; [by split|]);
    by apply not_elem_of_nil in Hd.
Qed.

Lemma stats_write {A} (m : ST (Timed C) (result A string)) w :
  stats_inv w → wp (write_shared m) (λ r w', r = Ok tt ∧ stats_inv w') w.
Proof.
  intros [[c Hc] Hb]. unfold write_shared. wp_step. apply wp_on_shared.
  { intros Hn. congruence. }
  intros c' _. apply wp_intro. intros r v _. unfold fetch_add.
  wp_go; (split; [done|split; [done|]]); [done|].
  apply balanced_neutral; [set_solver|done].
Qed.

Lemma stats_local_write {A} (ml : ST (Timed InMemoryRoutingCache) (result unit string))
    (ms : ST (Timed C) (result A string)) w :
  stats_inv w →
  wp (answer_of (λ _, ADone) (_ ←? on_local ml; write_shared ms)) (λ _ w', stats_inv w') w.
Proof.
  intros Hinv. unfold answer_of, on_local. do 3 wp_step. apply wp_intro.
  intros [[]|e] v _; [|by wp_go].
  wp_use stats_write as r w' [-> ?]; [done|]. by wp_go.
Qed.

Lemma stats_exec c w : stats_inv w → wp (exec c) (λ _ w', stats_inv w') w.
Proof.
  intros Hinv. pose proof Hinv as [[c0 Hc] Hb]. destruct c; simpl; try by apply stats_local_write.
  - unfold answer_of. wp_step. wp_use hybrid_get_read_through as r w' Hr. wp_step.
    unfold read_through in Hr. rewrite Hc in Hr. destruct (visible_sticky _ _).
    + destruct Hr as (_ & Hs & Hcs). split; [by rewrite Hs|]. rewrite Hcs.
      apply balanced_neutral; [set_solver|done].
    + unfold wp in Hr. destruct Hr as (Hs & _ & Hr). split; [rewrite Hs; by eexists|].
      destruct (_.1) as [[?|]|?];
        [destruct Hr as (_ & _ & ->)|destruct Hr as (_ & ->)..];
        (apply balanced_pair; [left; set_solver|done]).
  - unfold answer_of, hybrid_is_unhealthy, on_local, fetch_add.
    do 3 wp_step. apply wp_mem_is_unhealthy. destruct (visible_unhealthy _ _).
    { wp_go. split; [done|]. apply balanced_neutral; [set_solver|done]. }
    do 3 wp_step. apply wp_on_shared; [simpl; congruence|].
    intros c' _. apply wp_intro. intros [[]|e] v _; simpl; unfold mem_set_unhealthy.
    all: wp_go; (split; [by eexists|]); (apply balanced_pair; [right; set_solver|done]).
Qed.

Lemma stats_exec_all cs w : stats_inv w → wp (exec_all cs) (λ _ w', stats_inv w') w.
Proof.
  revert w. induction cs as [|c cs IH]; intros w Hw; simpl; [done|].
  wp_step. wp_use stats_exec as a w1 H1; [done|]. wp_step. wp_use IH as l w2 H2; [done|]. done.
Qed.
End hybrid.

(** ** The shared cache *)

(** Documented behaviour of the server that the client relies on: a [SET .. EX]
    that succeeds stores the value for at least the given number of seconds, a
    [GET] that succeeds on a stored key returns the value while it lasts, and
    opening a connection changes nothing. *)
Class RedisLaws (W : Type) `{Clock} `{RedisServer W} := {
  redis_value : W → string → option (string * Instant);
  redis_open_frame : ∀ url (w : Timed W),
    wp (redis_client_open url) (λ _ w', st w' = st w ∧ (ticks w ≤ ticks w')%nat) w;
  redis_connection_frame : ∀ (w : Timed W),
    wp redis_multiplexed_connection (λ _ w', st w' = st w ∧ (ticks w ≤ ticks w')%nat) w;
  redis_set_stores : ∀ k v secs (w : Timed W),
    wp (redis_set_ex k v secs) (λ r w', r = Ok tt →
      ∃ e, redis_value (st w') k = Some (v, e) ∧ time w + from_secs secs <= e) w;
  redis_get_returns : ∀ k (w : Timed W),
    wp (redis_get k) (λ r w', (ticks w ≤ ticks w')%nat ∧
      ∀ x v e, r = Ok x → redis_value (st w) k = Some (v, e) → time w' < e → x = Some v) w;
}.

Section redis.
Context {W : Type} `{Clock} `{UuidText} `{RedisServer W} `{!RedisLaws W}.
Implicit Types (w : Timed (RedisRoutingCache W)).

Lemma redis_connection_spec w :
  wp connection (λ _ w', st w' = st w ∧ (ticks w ≤ ticks w')%nat) w.
Proof.
  unfold connection, with_server. do 5 wp_step. wp_use redis_open_frame as r v [Hv Ht].
  assert (Hsame : mkRedis (redis_url (st w)) (key_prefix (st w)) (st v) = st w).
  { rewrite Hv. simpl. by destruct (st w). }
  destruct r; simpl; rewrite Hsame; [|done].
  do 2 wp_step. wp_use redis_connection_frame as r v' [Hv' Ht']. simpl in *.
  rewrite Hv'. split; [by destruct (st w)|lia].
Qed.

Lemma redis_set_sticky_stores k id ttl w : ttl ≠ 0 →
  wp (redis_set_sticky_account_id k id ttl) (λ r w', r = Ok tt →
    key_prefix (st w') = key_prefix (st w) ∧
    ∃ e, redis_value (server (st w')) (sticky_key (key_prefix (st w)) k)
           = Some (uuid_to_string id, e) ∧ time w + from_secs (as_secs ttl `max` 1) <= e) w.
Proof.
  intros Hz. unfold redis_set_sticky_account_id. destruct (Z.eqb_spec ttl 0); [done|].
  wp_step. wp_use redis_connection_spec as r w1 [Hst Ht]. destruct r; [|done].
  unfold with_server. do 4 wp_step. wp_use redis_set_stores as r v Hr. simpl in *.
  rewrite Hst in *. intros Hok. destruct Hr as (e & He & Hle); [by destruct r|].
  split; [done|]. exists e. split; [done|]. pose proof (time_mono w w1 Ht).
  unfold time in *. simpl in *. lia.
Qed.

Lemma redis_get_sticky_returns k id e w :
  redis_value (server (st w)) (sticky_key (key_prefix (st w)) k) = Some (uuid_to_string id, e) →
  wp (redis_get_sticky_account_id k) (λ r w',
    time w' < e → ∀ x, r = Ok x → x = Some id) w.
Proof.
  intros Hval. unfold redis_get_sticky_account_id.
  wp_step. wp_use redis_connection_spec as r w1 [Hst Ht]. destruct r; [|done].
  unfold with_server. do 5 wp_step. wp_use redis_get_returns as r v [_ Hr].
  simpl in *. rewrite Hst in *. destruct r as [raw|]; [|done]. wp_step. intros Hlt x Hx.
  rewrite (Hr raw _ _ eq_refl Hval Hlt), uuid_parse_to_string in Hx. congruence.
Qed.

Lemma u64_wrap_succ_ne x : u64_wrap (x + 1) ≠ x.
Proof.
  intros Hx. assert (Hb : is_u64 x) by (rewrite <-Hx; apply u64_wrap_bounds).
  unfold is_u64, u64_wrap, u64_modulus in *. destruct (decide (x = 2 ^ 64 - 1)) as [->|?].
  - by vm_compute in Hx.
  - rewrite Z.mod_small in Hx; lia.
Qed.

Lemma hybrid_set_stores k id ttl (a : Timed (HybridRoutingCache (RedisRoutingCache W))) ca :
  ttl ≠ 0 → shared (st a) = Some ca →
  wp (hybrid_set_sticky_account_id k id ttl) (λ _ a',
    shared_write_error_total (counters (st a')) = shared_write_error_total (counters (st a)) →
    ∃ ca' e, shared (st a') = Some ca' ∧
      redis_value (server ca') (sticky_key (key_prefix ca) k) = Some (uuid_to_string id, e) ∧
      time a + from_secs (as_secs ttl `max` 1) <= e) a.
Proof.
  intros Hz Hca. unfold hybrid_set_sticky_account_id, on_local. do 2 wp_step.
  apply wp_mem_set; [done|]. unfold write_shared. wp_step.
  apply wp_on_shared; simpl; [congruence|]. intros c Hc. simplify_eq.
  wp_use redis_set_sticky_stores as r v Hr; [done|].
  destruct r as [[]|e]; unfold fetch_add; wp_go; simpl.
  - intros _. destruct (Hr eq_refl) as (_ & e & Hval & Hle). exists (st v), e.
    split_and!; [done|done|]. pose proof (clock_mono (ticks a) (Datatypes.S (ticks a)) ltac:(lia)).
    unfold time in *. simpl in *. lia.
  - intros Hx. by apply u64_wrap_succ_ne in Hx.
Qed.
End redis.

(** ** Claims *)

Section claims.
Context `{Clock}.

(** C35: pruning and expiry of the in-memory cache are unobservable: every
    sequence of calls on a fresh cache is answered as by maps that keep all
    their entries and show each one until its time, for every clock. *)
Theorem in_memory_refines_expiring_map cs n :
  (exec_all cs (mkTimed new n)).1 = (exec_all cs (mkTimed (mkExpiringMap ∅ ∅) n)).1.
Proof. apply mem_refines. Qed.

(** The hybrid cache degrades to its local cache: when there is no shared
    cache, or its reads fail, every sequence of calls gets the answers of the
    in-memory cache alone (so no call fails). *)
Theorem hybrid_degrades_to_local {C} `{RoutingCache C} cs (h : HybridRoutingCache C) n :
  (is_Some (shared h) → unavailable (C:=C)) →
  (exec_all cs (mkTimed h n)).1 = (exec_all cs (mkTimed (local h) n)).1.
Proof.
  intros Hu.
  pose proof (simulates_all degraded_rel cs (mkTimed h n) (mkTimed (local h) n)
                degraded_simulates (conj eq_refl Hu)) as Hall.
  apply Hall.
Qed.

(** With a shared cache, after any sequence of calls every local miss is
    accounted for by one shared hit, miss or error, for sticky sessions and
    for unhealthy marks (modulo the width of the counters). *)
Theorem hybrid_counters_balance {C} `{RoutingCache C} l (c : C) cs n :
  wp (exec_all cs) (λ _ w', balanced (stats_snapshot (st w'))) (mkTimed (with_shared l c) n).
Proof.
  eapply wp_mono; [apply stats_exec_all|by intros ? ? [_ ?]]. split; [by eexists|done].
Qed.

(** Two data planes that share a Redis agree on a sticky session: after one
    of them binds a key and its shared write is not counted as an error, a
    peer with no local entry for the key that reads within the time to live
    (at least a second) gets the same account, unless its shared read is
    counted as an error. *)
Theorem shared_sticky_visible_to_peer {W} `{UuidText} `{RedisServer W} `{!RedisLaws W}
    k id ttl (a b : Timed (HybridRoutingCache (RedisRoutingCache W))) ca cb :
  0 < ttl →
  shared (st a) = Some ca →
  let a' := (set_sticky_account_id k id ttl a).2 in
  shared_write_error_total (counters (st a')) = shared_write_error_total (counters (st a)) →
  shared (st b) = Some cb →
  key_prefix cb = key_prefix ca → Some (server cb) = server <$> shared (st a') →
  visible_sticky (local_view b) k = None →
  wp (get_sticky_account_id k) (λ r b',
    time b' < time a + from_secs (as_secs ttl `max` 1) →
    shared_sticky_error_total (counters (st b')) = shared_sticky_error_total (counters (st b)) →
    r = Ok (Some id)) b.
Proof.
  intros Httl Hca a' Hwrite Hcb Hprefix Hserver Hvis.
  destruct (wp_run _ _ _ _ _ (hybrid_set_stores k id ttl a ca ltac:(lia) Hca)
              (surjective_pairing _) Hwrite) as (ca' & e & Hca' & Hval & Hle).
  subst a'. cbn [set_sticky_account_id hybrid_cache] in Hserver.
  rewrite Hca' in Hserver. injection Hserver as Hserver.
  wp_use hybrid_get_read_through as r b' Hr. unfold read_through in Hr.
  rewrite Hvis, Hcb in Hr. intros Htime Herr.
  rewrite <-Hserver, <-Hprefix in Hval.
  pose proof (redis_get_sticky_returns k id e (mkTimed cb (Datatypes.S (ticks b))) Hval) as Hget.
  unfold wp in Hr, Hget. simpl in Hr, Hget. destruct Hr as (_ & Hticks & Hr).
  destruct (redis_get_sticky_account_id k _) as [sr v]. simpl in *.
  pose proof (time_mono v b' Hticks). specialize (Hget ltac:(lia)).
  destruct sr as [x|err].
  - rewrite (Hget x eq_refl) in Hr. by destruct Hr.
  - destruct Hr as [_ Hcnt]. rewrite Hcnt in Herr. by apply u64_wrap_succ_ne in Herr.
Qed.
End claims.

(** ** Witnesses *)

Module Witness.
(** A UUID written in unary, a server that keeps its keys in a map, and a
    server that refuses connections. *)
Fixpoint unary (n : nat) : string :=
  match n with O => EmptyString | Datatypes.S n => String Ascii.zero (unary n) end.

Lemma unary_length n : String.length (unary n) = n.
Proof. induction n; simpl; congruence. Qed.

Definition unary_uuid : UuidText.
Proof.
  refine {| uuid_to_string u := unary (N.to_nat u);
            uuid_parse_str s := Some (N.of_nat (String.length s)) |}.
  intros u. by rewrite unary_length, N2Nat.id.
Defined.

Abbreviation Store := (gmap string (string * Instant)).

Definition store_server `{Clock} : RedisServer Store := {|
  redis_client_open _ := mret (Ok tt);
  redis_multiplexed_connection := mret (Ok tt);
  redis_get k := t ← now; gets (λ s, Ok (fst <$> visible snd t s k));
  redis_set_ex k v secs := t ← now; _ ← modify (λ s, <[k := (v, t + from_secs secs)]> s); mret (Ok tt);
  redis_del k := _ ← modify (λ s : Store, delete k s); mret (Ok 1);
  redis_exists k := t ← now; gets (λ s, Ok match visible snd t s k with Some _ => 1 | None => 0 end);
|}.

Definition store_laws `{Clock} : @RedisLaws Store _ store_server.
Proof.
  refine (@Build_RedisLaws Store _ store_server (λ (s : Store) k, s !! k) _ _ _ _).
  - done.
  - done.
  - intros k v secs w. simpl. wp_go. intros _. eexists. split; [apply lookup_insert_eq|].
    unfold time. lia.
  - intros k w. simpl. wp_go. simpl. split; [lia|]. intros x v e [= <-] Hk Hlt.
    unfold visible. rewrite Hk. simpl.
    pose proof (time_mono w (mkTimed (st w) (Datatypes.S (ticks w))) ltac:(simpl; lia)).
    destruct (Z.ltb_spec (clock (ticks w)) e); [done|]. unfold time in *. simpl in *. lia.
Defined.

Definition down_server : RedisServer unit := {|
  redis_client_open _ := mret (Ok tt);
  redis_multiplexed_connection := mret (Err "connection refused");
  redis_get _ := mret (Err "closed");
  redis_set_ex _ _ _ := mret (Err "closed");
  redis_del _ := mret (Err "closed");
  redis_exists _ := mret (Err "closed");
|}.

#[local] Existing Instance unit_clock.
#[local] Existing Instance unary_uuid.
#[local] Existing Instance store_server.
#[local] Existing Instance store_laws.
#[local] Existing Instance down_server.

Definition script : list cmd :=
  [CSet "s" 7 4; CGet "s"; CSetUnhealthy 7 3; CIsUnhealthy 7; CIsUnhealthy 7; CIsUnhealthy 7;
   CGet "s"; CDelete "s"; CGet "s"].

Lemma hybrid_degrades_to_local_witness :
  (exec_all script (mkTimed (with_shared new (mkRedis "redis://x" "p" tt)) 0)).1
  = (exec_all script (mkTimed new 0)).1 ∧
  (exec_all script (mkTimed new 0)).1
  = [ADone; ASticky (Some 7%N); ADone; AUnhealthy true; AUnhealthy true; AUnhealthy false;
     ASticky None; ADone; ASticky None].
Proof.
  split.
  - apply (hybrid_degrades_to_local script (with_shared new (mkRedis "redis://x" "p" tt)) 0).
    intros _. split_and!; try done.
    + intros k id ttl v. simpl. unfold redis_set_sticky_account_id. by destruct (ttl =? 0).
    + intros id ttl v. simpl. unfold redis_set_unhealthy. by destruct (ttl =? 0).
  - vm_compute. reflexivity.
Defined.

Definition instance_a : Timed (HybridRoutingCache (RedisRoutingCache Store)) :=
  mkTimed (with_shared new (mkRedis "redis://x" "p" ∅)) 0.
Definition peer_cache : RedisRoutingCache Store :=
  mkRedis "redis://x" "p" {[ "p:sticky:s" := (unary 7, 1 + from_secs 60) ]}.
Definition instance_b : Timed (HybridRoutingCache (RedisRoutingCache Store)) :=
  mkTimed (with_shared new peer_cache) 5.

Lemma shared_sticky_visible_to_peer_witness :
  wp (get_sticky_account_id "s") (λ r b',
    time b' < time instance_a + from_secs (as_secs (from_secs 60) `max` 1) →
    shared_sticky_error_total (counters (st b'))
      = shared_sticky_error_total (counters (st instance_b)) →
    r = Ok (Some 7%N)) instance_b.
Proof.
  eapply (shared_sticky_visible_to_peer "s" 7%N (from_secs 60) instance_a instance_b).
  - vm_compute. reflexivity.
  - reflexivity.
  - vm_compute. reflexivity.
  - reflexivity.
  - reflexivity.
  - vm_compute. reflexivity.
  - reflexivity.
Defined.
End Witness.
