(* ===== verification/Auth.v ===== *)
(** * API-key authentication: [services/data-plane/src/auth.rs], [auth/validator.rs]

    [AuthValidatorClient] with its positive and negative caches, and the
    middleware that decides whether a request is forwarded. The control plane's
    validation endpoint, reached over HTTP, and the 64-bit hash of
    [DefaultHasher] (whose algorithm the standard library leaves unspecified) are
    parameters. A call of the validator runs to completion before the next. *)
From Stdlib Require Import Ascii.
From S2P Require Import Prelude RustStr CoreModel.

#[local] Open Scope string_scope.
#[local] Open Scope Z_scope.

Record ApiPrincipal := mkApiPrincipal {
  token : string;
  tenant_id : option Uuid;
  api_key_id : option Uuid;
  api_key_group_id : option Uuid;
  api_key_group_name : option string;
  api_key_group_invalid : bool;
  enabled : bool;
  key_ip_allowlist : list string;
  key_model_allowlist : list string;
  tenant_status : option string;
  tenant_expires_at : option DateTime;
  balance_microcredits : option Z;
}.

(** ** Errors

    A [reqwest::Error] as the fail-open test sees it, and the [anyhow::Error] of
    [validate]: its context and the error of the HTTP client under it. *)
Record ReqwestError := mkReqwestError {
  is_connect : bool;
  is_timeout : bool;
  is_request : bool;
  re_status : option Z;
}.

Record AuthError := mkAuthError { context : string; cause : ReqwestError }.

Definition is_server_error (status : Z) : bool := (500 <=? status) && (status <? 600).
Definition is_client_error (status : Z) : bool := (400 <=? status) && (status <? 500).

Definition is_fail_open_eligible (e : AuthError) : bool :=
  is_connect (cause e) || is_timeout (cause e) || is_request (cause e)
  || match re_status (cause e) with Some s => is_server_error s | None => false end.

(** ** Parameters *)

(** [POST validate_url] with the internal token and an API key: the send may
    fail, else there is a status and a body that parses or not. *)
Definition HttpOutcome : Type :=
  result (Z * result ValidateApiKeyResponse ReqwestError) ReqwestError.

Class ValidateApi (W : Type) := {
  post_validate : string → string → string → ST (Timed W) HttpOutcome;
}.

Class TokenHash := {
  hash64 : string → Z;
  hash64_u64 : ∀ s, is_u64 (hash64 s);
}.

(** ** [hash_api_key_token]: the hash in lower-case hexadecimal *)

(** Sixteen digits are enough for 64 bits. *)
Definition lower_hex (z : Z) : string := format_radix 16 16 z.

Definition hash_api_key_token `{TokenHash} (tok : string) : string := lower_hex (hash64 tok).

(** ** State *)

Record CachedPrincipal := mkCachedPrincipal { principal : ApiPrincipal; expires_at : Instant }.

Record AuthValidatorStats := mkAuthValidatorStats {
  cache_hit_count : Z;
  cache_miss_count : Z;
  remote_validate_count : Z;
  negative_cache_hit_count : Z;
  negative_cache_store_count : Z;
}.

Record AuthValidatorClient (W : Type) := mkAuthValidatorClient {
  http_client : W;
  validate_url : string;
  internal_auth_token : string;
  default_cache_ttl : Duration;
  default_negative_cache_ttl : Duration;
  cache : gmap string CachedPrincipal;
  negative_cache : gmap string Instant;
  stats : AuthValidatorStats;
}.
Arguments mkAuthValidatorClient {_} _ _ _ _ _ _ _ _.
Arguments http_client {_} _.
Arguments validate_url {_} _.
Arguments internal_auth_token {_} _.
Arguments default_cache_ttl {_} _.
Arguments default_negative_cache_ttl {_} _.
Arguments cache {_} _.
Arguments negative_cache {_} _.
Arguments stats {_} _.

Record AuthCacheEvictResult := mkAuthCacheEvictResult {
  positive_evicted : bool;
  negative_evicted : bool;
}.
Definition evicted (r : AuthCacheEvictResult) : bool := positive_evicted r || negative_evicted r.

Inductive AuthCacheLookupResult := PositiveHit (p : ApiPrincipal) | NegativeHit | Miss.

Definition zero_stats : AuthValidatorStats := mkAuthValidatorStats 0 0 0 0 0.

(** The counters, by name, for [fetch_add(1)]. *)
Inductive stat := CacheHit | CacheMiss | RemoteValidate | NegativeCacheHit | NegativeCacheStore.

#[global] Instance stat_eq_dec : EqDecision stat.
Proof. solve_decision. Defined.

Definition incr_stat (c : stat) (s : AuthValidatorStats) : AuthValidatorStats :=
  let up d v := if decide (c = d) then u64_wrap (v + 1) else v in
  mkAuthValidatorStats (up CacheHit (cache_hit_count s)) (up CacheMiss (cache_miss_count s))
    (up RemoteValidate (remote_validate_count s)) (up NegativeCacheHit (negative_cache_hit_count s))
    (up NegativeCacheStore (negative_cache_store_count s)).

Section writes.
Context {W : Type}.

Definition set_http x (v : AuthValidatorClient W) : AuthValidatorClient W := mkAuthValidatorClient x (validate_url v) (internal_auth_token v)
  (default_cache_ttl v) (default_negative_cache_ttl v) (cache v) (negative_cache v) (stats v).
Definition set_cache x (v : AuthValidatorClient W) : AuthValidatorClient W := mkAuthValidatorClient (http_client v) (validate_url v)
  (internal_auth_token v) (default_cache_ttl v) (default_negative_cache_ttl v) x
  (negative_cache v) (stats v).
Definition set_negative_cache x (v : AuthValidatorClient W) : AuthValidatorClient W := mkAuthValidatorClient (http_client v) (validate_url v)
  (internal_auth_token v) (default_cache_ttl v) (default_negative_cache_ttl v) (cache v) x (stats v).
Definition set_stats x (v : AuthValidatorClient W) : AuthValidatorClient W := mkAuthValidatorClient (http_client v) (validate_url v)
  (internal_auth_token v) (default_cache_ttl v) (default_negative_cache_ttl v) (cache v)
  (negative_cache v) x.
End writes.

Definition principal_of (tok : string) (payload : ValidateApiKeyResponse) : ApiPrincipal :=
  mkApiPrincipal tok (Some (vkr_tenant_id payload)) (Some (vkr_api_key_id payload))
    (Some (akg_id (vkr_group payload))) (Some (akg_name (vkr_group payload)))
    (akg_invalid (vkr_group payload)) (vkr_enabled payload)
    (akp_ip_allowlist (vkr_policy payload)) (akp_model_allowlist (vkr_policy payload))
    (vkr_tenant_status payload) (vkr_tenant_expires_at payload) (vkr_balance_microcredits payload).

(** ** Operations of the validator *)

Section validator.
Context `{Clock} `{TokenHash} {W : Type} `{ValidateApi W}.

Definition AuthValidatorClient_new (http : W) (url : string) (cache_ttl_sec negative_ttl_sec : Z)
    (internal_token : string) : AuthValidatorClient W :=
  mkAuthValidatorClient http url internal_token (from_secs (cache_ttl_sec `max` 1))
    (from_secs negative_ttl_sec) ∅ ∅ zero_stats.

Definition count (c : stat) : ST (Timed (AuthValidatorClient W)) unit :=
  modify (λ v, set_stats (incr_stat c (stats v)) v).

(** Remove an entry that has expired at [t]. *)
Definition drop_expired {V} (exp : V → Instant) (t : Instant) (k : string) (m : gmap string V) :
    gmap string V :=
  match m !! k with
  | Some e => if exp e <=? t then delete k m else m
  | None => m
  end.

Definition get_cached_principal (cache_key : string) :
    ST (Timed (AuthValidatorClient W)) (option ApiPrincipal) :=
  t ← now;
  c ← gets cache;
  match c !! cache_key with
  | Some cached =>
      if t <? expires_at cached then mret (Some (principal cached)) else
      _ ← modify (λ v, set_cache (drop_expired expires_at t cache_key (cache v)) v);
      mret None
  | None =>
      _ ← modify (λ v, set_cache (drop_expired expires_at t cache_key (cache v)) v);
      mret None
  end.

Definition is_cached_unauthorized (cache_key : string) :
    ST (Timed (AuthValidatorClient W)) bool :=
  t ← now;
  c ← gets negative_cache;
  match c !! cache_key with
  | Some expires =>
      if t <? expires then mret true else
      _ ← modify (λ v, set_negative_cache (drop_expired id t cache_key (negative_cache v)) v);
      mret false
  | None =>
      _ ← modify (λ v, set_negative_cache (drop_expired id t cache_key (negative_cache v)) v);
      mret false
  end.

Definition insert_cache (cache_key : string) (p : ApiPrincipal) (cache_ttl_sec : Z) :
    ST (Timed (AuthValidatorClient W)) unit :=
  default_ttl ← gets default_cache_ttl;
  let ttl := if cache_ttl_sec =? 0 then default_ttl else from_secs cache_ttl_sec in
  t ← now;
  modify (λ v, set_cache (<[cache_key := mkCachedPrincipal p (t + ttl)]> (cache v)) v).

Definition insert_negative_cache (cache_key : string) :
    ST (Timed (AuthValidatorClient W)) unit :=
  ttl ← gets default_negative_cache_ttl;
  if ttl =? 0 then mret tt else
  t ← now;
  modify (λ v, set_negative_cache (<[cache_key := t + ttl]> (negative_cache v)) v).

(** The HTTP call of [validate]. *)
Definition call_api (tok : string) : ST (Timed (AuthValidatorClient W)) HttpOutcome :=
  url ← gets validate_url;
  internal ← gets internal_auth_token;
  zoom http_client set_http (post_validate url internal tok).

Definition validate (tok : string) :
    ST (Timed (AuthValidatorClient W)) (result (option ApiPrincipal) AuthError) :=
  let cache_key := hash_api_key_token tok in
  cached ← get_cached_principal cache_key;
  match cached with
  | Some p => _ ← count CacheHit; mret (Ok (Some p))
  | None =>
      unauthorized ← is_cached_unauthorized cache_key;
      if unauthorized : bool then _ ← count NegativeCacheHit; mret (Ok None) else
      _ ← count CacheMiss;
      _ ← count RemoteValidate;
      outcome ← call_api tok;
      match outcome with
      | Err e => mret (Err (mkAuthError "failed to call auth validation api" e))
      | Ok (status, body) =>
          if status =? 401 then
            _ ← insert_negative_cache cache_key;
            _ ← count NegativeCacheStore;
            mret (Ok None)
          else if is_client_error status || is_server_error status then
            mret (Err (mkAuthError "auth validation api returned unexpected status"
                         (mkReqwestError false false false (Some status))))
          else
            match body with
            | Err e => mret (Err (mkAuthError "failed to parse auth validation response" e))
            | Ok payload =>
                let p := principal_of tok payload in
                _ ← insert_cache cache_key p (vkr_cache_ttl_sec payload);
                mret (Ok (Some p))
            end
      end
  end.

Definition cached_principal_total : ST (Timed (AuthValidatorClient W)) nat :=
  t ← now;
  _ ← modify (λ v, set_cache (filter (λ kv, t < expires_at kv.2) (cache v)) v);
  gets (λ v, size (cache v)).

Definition cached_negative_total : ST (Timed (AuthValidatorClient W)) nat :=
  t ← now;
  _ ← modify (λ v, set_negative_cache (filter (λ kv, t < kv.2) (negative_cache v)) v);
  gets (λ v, size (negative_cache v)).

Definition clear_cache : ST (Timed (AuthValidatorClient W)) nat :=
  cleared ← gets (λ v, size (cache v));
  _ ← modify (set_cache ∅);
  _ ← modify (set_negative_cache ∅);
  mret cleared.

(** [HashMap::remove(..).is_some()]. *)
Definition had {V} (k : string) (m : gmap string V) : bool := bool_decide (is_Some (m !! k)).

Definition evict_token (tok : string) : ST (Timed (AuthValidatorClient W)) AuthCacheEvictResult :=
  let cache_key := hash_api_key_token tok in
  t ← now;
  _ ← modify (λ v, set_cache (drop_expired expires_at t cache_key (cache v)) v);
  positive ← gets (λ v, had cache_key (cache v));
  _ ← modify (λ v, set_cache (delete cache_key (cache v)) v);
  _ ← modify (λ v, set_negative_cache (drop_expired id t cache_key (negative_cache v)) v);
  negative ← gets (λ v, had cache_key (negative_cache v));
  _ ← modify (λ v, set_negative_cache (delete cache_key (negative_cache v)) v);
  mret (mkAuthCacheEvictResult positive negative).

Definition lookup_cached_token (tok : string) :
    ST (Timed (AuthValidatorClient W)) AuthCacheLookupResult :=
  let cache_key := hash_api_key_token tok in
  cached ← get_cached_principal cache_key;
  match cached with
  | Some p => mret (PositiveHit p)
  | None =>
      unauthorized ← is_cached_unauthorized cache_key;
      mret (if unauthorized : bool then NegativeHit else Miss)
  end.

Definition cache_stats : ST (Timed (AuthValidatorClient W)) AuthValidatorStats := gets stats.

Definition reset_cache_stats : ST (Timed (AuthValidatorClient W)) AuthValidatorStats :=
  old ← gets stats;
  _ ← modify (set_stats zero_stats);
  mret old.
End validator.

(** ** The middleware *)

(** [HeaderMap]: lower-case names with the bytes of each value; [get] returns
    the first. [to_str] needs visible ASCII or a tab. *)
Definition HeaderMap : Type := list (string * string).

Definition header_get (name : string) (headers : HeaderMap) : option string :=
  snd <$> List.find (λ h, bool_decide (h.1 = name)) headers.

Definition header_to_str (value : string) : option string :=
  if forallb (λ a, let n := byte_of a in ((32 <=? n) && (n <? 127) || (n =? 9))%N)
       (String.list_ascii_of_string value)
  then Some value else None.

Definition extract_bearer (headers : HeaderMap) : option string :=
  raw ← header_get "authorization" headers ≫= header_to_str;
  tok ← match strip_prefix "Bearer " raw with
        | Some t => Some t
        | None => strip_prefix "bearer " raw
        end;
  if is_empty tok then None else Some tok.

Definition extract_x_api_key (headers : HeaderMap) : option string :=
  value ← header_get "x-api-key" headers ≫= header_to_str;
  let raw := trim value in
  if is_empty raw then None else Some raw.

Definition extract_bearer_or_x_api_key (headers : HeaderMap) : option string :=
  match extract_bearer headers with
  | Some t => Some t
  | None => extract_x_api_key headers
  end.

(** The two bodies an error is rendered with. *)
Inductive AuthErrorBody :=
  | OpenAiBody (envelope : ErrorEnvelope)
  | AnthropicBody (type message : string).

Definition auth_error_response (status : Z) (code message : string) : Z * AuthErrorBody :=
  (status, OpenAiBody (ErrorEnvelope_new code message)).

Definition anthropic_error_type_for_status (status : Z) : string :=
  if status =? 401 then "authentication_error"
  else if status =? 403 then "permission_error"
  else "api_error".

Definition anthropic_auth_error_response (status : Z) (code message : string) : Z * AuthErrorBody :=
  (status, AnthropicBody (anthropic_error_type_for_status status) message).

(** The verdict on a request: forwarded to the handler with the principal that
    was put in its extensions, or answered with an error. *)
Inductive AuthDecision :=
  | Forward (p : option ApiPrincipal)
  | Reject (response : Z * AuthErrorBody).

(** The fields of [AppState] the middleware reads. *)
Record AuthState (W : Type) := mkAuthState {
  auth_validator : option (AuthValidatorClient W);
  auth_fail_open : bool;
  allowed_api_keys : gset string;
  control_plane_internal_auth_token : string;
}.
Arguments mkAuthState {_} _ _ _ _.
Arguments auth_validator {_} _.
Arguments auth_fail_open {_} _.
Arguments allowed_api_keys {_} _.
Arguments control_plane_internal_auth_token {_} _.

Definition local_principal (tok : string) : ApiPrincipal :=
  mkApiPrincipal tok None None None None false true [] [] None None None.

Section middleware.
Context `{Clock} `{TokenHash} {W : Type} `{ValidateApi W}.
Context (extractor : HeaderMap → option string) (missing_token_message : string)
  (error_response : Z → string → string → Z * AuthErrorBody).

Definition authorize_with_local_mode (headers : HeaderMap) (state : AuthState W)
    (tok : option string) : AuthDecision :=
  if bool_decide (allowed_api_keys state = ∅) then Forward None else
  match (match tok with Some t => Some t | None => extractor headers end) with
  | None => Reject (error_response 401 "unauthorized" missing_token_message)
  | Some t =>
      if bool_decide (t ∈ allowed_api_keys state) then Forward (Some (local_principal t))
      else Reject (error_response 403 "forbidden" "api key is not allowed")
  end.

(** The validator inside the state. *)
Definition with_validator {A} (v : AuthValidatorClient W)
    (m : ST (Timed (AuthValidatorClient W)) A) : ST (Timed (AuthState W)) A :=
  zoom (λ _, v)
    (λ v' s, mkAuthState (Some v') (auth_fail_open s) (allowed_api_keys s)
               (control_plane_internal_auth_token s)) m.

Definition require_api_key_with_extractor (headers : HeaderMap) :
    ST (Timed (AuthState W)) AuthDecision :=
  validator ← gets auth_validator;
  match validator with
  | Some v =>
      match extractor headers with
      | None => mret (Reject (error_response 401 "unauthorized" missing_token_message))
      | Some tok =>
          r ← with_validator v (validate tok);
          match r with
          | Ok (Some p) =>
              if enabled p then mret (Forward (Some p))
              else mret (Reject (error_response 403 "forbidden" "api key is disabled"))
          | Ok None => mret (Reject (error_response 401 "unauthorized" "api key is unauthorized"))
          | Err e =>
              s ← gets id;
              if auth_fail_open s && is_fail_open_eligible e
              then mret (authorize_with_local_mode headers s (Some tok))
              else mret (Reject (error_response 503 "service_unavailable"
                                   "auth validator is unavailable"))
          end
      end
  | None => gets (λ s, authorize_with_local_mode headers s None)
  end.
End middleware.

Section entry_points.
Context `{Clock} `{TokenHash} {W : Type} `{ValidateApi W}.

Definition require_api_key : HeaderMap → ST (Timed (AuthState W)) AuthDecision :=
  require_api_key_with_extractor extract_bearer "missing or invalid bearer token"
    auth_error_response.

Definition require_anthropic_api_key : HeaderMap → ST (Timed (AuthState W)) AuthDecision :=
  require_api_key_with_extractor extract_bearer_or_x_api_key "missing or invalid api key"
    anthropic_auth_error_response.

Definition require_internal_service_token (headers : HeaderMap) (state : AuthState W) :
    AuthDecision :=
  match extract_bearer headers with
  | None => Reject (auth_error_response 401 "unauthorized" "missing or invalid bearer token")
  | Some tok =>
      if bool_decide (tok = control_plane_internal_auth_token state) then Forward None
      else Reject (auth_error_response 401 "unauthorized"
                     "internal bearer token is unauthorized")
  end.
End entry_points.
