(* ===== verification/OutboundProxy.v ===== *)
(** * The outbound proxy pool: [services/data-plane/src/outbound_proxy_runtime.rs]

    [OutboundProxyRuntime] chooses the proxy of every upstream connection. A
    [reqwest::Client] is the configuration it was built with; whether the HTTP
    library accepts a proxy URL and builds the client, and the network behind a
    WebSocket connection, are parameters. *)
From S2P Require Import Prelude RustStr CoreModel.

#[local] Open Scope string_scope.
#[local] Open Scope Z_scope.

Definition DEFAULT_PROXY_TRANSPORT_FAILURE_TTL : Duration := from_secs 30.

Record ClientConfig := mkClientConfig {
  cc_no_proxy : bool;
  cc_timeout : option Duration;
  cc_proxy : option string;
}.

Class HttpClientBuilder := {
  proxy_all_accepts : string → bool;
  build_succeeds : ClientConfig → bool;
}.

Record SelectedUpstreamRoute := mkSelectedUpstreamRoute {
  proxy_id : option Uuid;
  proxy_label : option string;
  proxy_url : option string;
  used_direct_fallback : bool;
}.

Record SelectedHttpClient := mkSelectedHttpClient {
  client : ClientConfig;
  selected : SelectedUpstreamRoute;
}.

Record OutboundProxyRuntime := mkOutboundProxyRuntime {
  settings : OutboundProxyPoolSettings;
  nodes : list OutboundProxyNode;
  client_cache : gmap string ClientConfig;
  sequence : Z; (* AtomicU64 *)
  unavailable_until : gmap Uuid Instant;
  allow_system_proxy : bool;
}.

Abbreviation PM := (ST (Timed OutboundProxyRuntime)).

Definition set_config s n (r : OutboundProxyRuntime) : OutboundProxyRuntime :=
  mkOutboundProxyRuntime s n (client_cache r) (sequence r) (unavailable_until r) (allow_system_proxy r).
Definition set_client_cache c (r : OutboundProxyRuntime) : OutboundProxyRuntime :=
  mkOutboundProxyRuntime (settings r) (nodes r) c (sequence r) (unavailable_until r)
    (allow_system_proxy r).
Definition set_sequence q (r : OutboundProxyRuntime) : OutboundProxyRuntime :=
  mkOutboundProxyRuntime (settings r) (nodes r) (client_cache r) q (unavailable_until r)
    (allow_system_proxy r).
Definition set_unavailable u (r : OutboundProxyRuntime) : OutboundProxyRuntime :=
  mkOutboundProxyRuntime (settings r) (nodes r) (client_cache r) (sequence r) u
    (allow_system_proxy r).

(** [OutboundProxyRuntime::new], given the value of the environment variable
    [DATA_PLANE_ALLOW_SYSTEM_PROXY] and the time. *)
Definition allow_system_proxy_of (env : option string) : bool :=
  match env with
  | Some value =>
      bool_decide (to_ascii_lowercase (trim value) ∈ ["1"; "true"; "yes"; "on"])
  | None => false
  end.

Definition OutboundProxyRuntime_new (env : option string) (utc_now : DateTime) :
    OutboundProxyRuntime :=
  mkOutboundProxyRuntime (OutboundProxyPoolSettings_default utc_now) [] ∅ 0 ∅
    (allow_system_proxy_of env).

(** The weight of a node in the rotation, and the node a slot falls on. *)
Definition node_weight (node : OutboundProxyNode) : Z := opn_weight node `max` 1.

Definition total_weight (l : list OutboundProxyNode) : Z :=
  u64_wrap (fold_right (λ node acc, node_weight node + acc) 0 l) `max` 1.

Fixpoint pick_slot (slot cursor : Z) (l : list OutboundProxyNode) : option OutboundProxyNode :=
  match l with
  | [] => None
  | node :: l =>
      let cursor := u64_saturating_add cursor (node_weight node) in
      if slot <? cursor then Some node else pick_slot slot cursor l
  end.

(** The key of [client_cache]. *)
Definition cache_key (proxy : option string) (timeout : option Duration) (allow : bool) : string :=
  let timeout_ms := decimal (match timeout with Some d => d `div` 1000000 | None => 0 end) in
  match proxy with
  | Some url => "proxy:" +:+ url +:+ "|timeout_ms:" +:+ timeout_ms
  | None => "direct|timeout_ms:" +:+ timeout_ms +:+ "|allow_system_proxy:"
              +:+ (if allow then "true" else "false")
  end.

(** How an upstream WebSocket connection ended. *)
Inductive WsOutcome := WsConnected | WsIo (message : string) | WsHttp (status : Z) | WsOther.

Definition PROXY_AUTHENTICATION_REQUIRED : Z := 407.

Section operations.
Context `{Clock} `{HttpClientBuilder}.

Definition replace_config (s : OutboundProxyPoolSettings) (l : list OutboundProxyNode) : PM unit :=
  let allowed_ids : gset Uuid := list_to_set (opn_id <$> l) in
  _ ← modify (set_config s l);
  modify (λ r, set_unavailable (filter (λ kv, kv.1 ∈ allowed_ids) (unavailable_until r)) r).

Definition current_settings : PM OutboundProxyPoolSettings := gets settings.
Definition current_nodes : PM (list OutboundProxyNode) := gets nodes.

Definition node_available (unavailable : gmap Uuid Instant) (t : Instant)
    (node : OutboundProxyNode) : bool :=
  opn_enabled node && (0 <? opn_weight node) &&
  match unavailable !! opn_id node with Some until_ => until_ <=? t | None => true end.

Definition available_nodes (l : list OutboundProxyNode) : PM (list OutboundProxyNode) :=
  t ← now;
  unavailable ← gets unavailable_until;
  mret (filter (λ n, node_available unavailable t n = true) l).

Definition pick_weighted (l : list OutboundProxyNode) : PM (option OutboundProxyNode) :=
  match l with
  | [] => mret None
  | _ =>
      let total := total_weight l in
      seq ← gets sequence;
      _ ← modify (λ r, set_sequence (u64_wrap (sequence r + 1)) r);
      mret (pick_slot (seq `mod` total) 0 l)
  end.

Definition direct (fallback : bool) : SelectedUpstreamRoute :=
  mkSelectedUpstreamRoute None None None fallback.

Definition select_route : PM (result SelectedUpstreamRoute string) :=
  s ← gets settings;
  if negb (opps_enabled s) then mret (Ok (direct false)) else
  all ← gets nodes;
  available ← available_nodes all;
  picked ← pick_weighted available;
  match picked with
  | Some node =>
      mret (Ok (mkSelectedUpstreamRoute (Some (opn_id node)) (Some (opn_label node))
                  (Some (opn_proxy_url node)) false))
  | None =>
      if bool_decide (opps_fail_mode s = AllowDirectFallback) then mret (Ok (direct true))
      else mret (Err "outbound proxy pool has no available proxy")
  end.

Definition cached_client (proxy : option string) (timeout : option Duration) :
    PM (result ClientConfig string) :=
  allow ← gets allow_system_proxy;
  let key := cache_key proxy timeout allow in
  cache ← gets client_cache;
  match cache !! key with
  | Some c => mret (Ok c)
  | None =>
      let config := mkClientConfig (negb allow) timeout proxy in
      if match proxy with Some url => negb (proxy_all_accepts url) | None => false end
      then mret (Err "failed to configure outbound proxy client")
      else if negb (build_succeeds config)
      then mret (Err "failed to build outbound proxy runtime client")
      else
        _ ← modify (λ r, set_client_cache (<[key := config]> (client_cache r)) r);
        mret (Ok config)
  end.

Definition select_http_client (timeout : option Duration) :
    PM (result SelectedHttpClient string) :=
  route ←? select_route;
  c ←? cached_client (proxy_url route) timeout;
  mret (Ok (mkSelectedHttpClient c route)).

Definition mark_proxy_transport_failure (selection : option Uuid) : PM unit :=
  match selection with
  | None => mret tt
  | Some id =>
      t ← now;
      modify (λ r, set_unavailable
                     (<[id := t + DEFAULT_PROXY_TRANSPORT_FAILURE_TTL]> (unavailable_until r)) r)
  end.

Definition mark_proxy_success (selection : option Uuid) : PM unit :=
  match selection with
  | None => mret tt
  | Some id => modify (λ r, set_unavailable (delete id (unavailable_until r)) r)
  end.

Definition mark_proxy_http_status (selection : option Uuid) (status : Z) : PM unit :=
  if status =? PROXY_AUTHENTICATION_REQUIRED then mark_proxy_transport_failure selection
  else mark_proxy_success selection.

(** [connect] is the network: the outcome of the connection through a proxy
    URL, or without one. *)
Definition connect_websocket (connect : option string → WsOutcome) :
    PM (SelectedUpstreamRoute * WsOutcome + WsOutcome) :=
  r ← select_route;
  match r with
  | Err e => mret (inr (WsIo e))
  | Ok route =>
      let outcome := connect (proxy_url route) in
      _ ← match outcome with
          | WsConnected => mark_proxy_success (proxy_id route)
          | WsIo _ => mark_proxy_transport_failure (proxy_id route)
          | WsHttp status =>
              if status =? PROXY_AUTHENTICATION_REQUIRED
              then mark_proxy_transport_failure (proxy_id route) else mret tt
          | WsOther => mret tt
          end;
      mret match outcome with WsConnected => inl (route, outcome) | _ => inr outcome end
  end.
End operations.
