(* ===== verification/OutboundProxyFacts.v ===== *)
(** * Properties of the outbound proxy pool *)
From Stdlib Require Import Ascii.
From S2P Require Import Prelude RustStr CoreModel OutboundProxy.

#[local] Open Scope string_scope.
#[local] Open Scope Z_scope.

(** ** The weighted rotation *)

(** Every node as often as its weight, in pool order. *)
Definition expand (l : list OutboundProxyNode) : list OutboundProxyNode :=
  concat ((λ n, replicate (Z.to_nat (node_weight n)) n) <$> l).

Lemma node_weight_pos n : 1 <= node_weight n.
Proof. unfold node_weight. lia. Qed.

Lemma expand_length l :
  Z.of_nat (length (expand l)) = fold_right (λ n acc, node_weight n + acc) 0 l.
Proof.
  unfold expand. induction l as [|n l IH]; csimpl; [done|].
  rewrite length_app, length_replicate, Nat2Z.inj_add, IH. pose proof (node_weight_pos n). lia.
Qed.

Lemma pick_slot_expand l slot cursor :
  0 <= cursor <= slot → cursor + Z.of_nat (length (expand l)) < u64_modulus →
  pick_slot slot cursor l = expand l !! Z.to_nat (slot - cursor).
Proof.
  revert cursor. induction l as [|n l IH]; intros cursor Hc Hb; [done|].
  pose proof (node_weight_pos n). unfold expand in *. csimpl in *.
  rewrite length_app, length_replicate in Hb.
  assert (Hsat : u64_saturating_add cursor (node_weight n) = cursor + node_weight n).
  { unfold u64_saturating_add. apply clamp_id. unfold u64_max, u64_modulus in *. lia. }
  rewrite Hsat. destruct (Z.ltb_spec slot (cursor + node_weight n)).
  - rewrite lookup_app_l by (rewrite length_replicate; lia).
    symmetry. apply lookup_replicate_2. lia.
  - rewrite IH by lia. rewrite lookup_app_r by (rewrite length_replicate; lia).
    rewrite length_replicate. f_equal. lia.
Qed.

Definition weights_fit (l : list OutboundProxyNode) : Prop :=
  Z.of_nat (length (expand l)) < u64_modulus.

Lemma total_weight_expand l :
  l ≠ [] → weights_fit l → total_weight l = Z.of_nat (length (expand l)).
Proof.
  intros Hl Hfit. unfold total_weight. rewrite <-expand_length, u64_wrap_small by (split; [lia|done]).
  destruct l as [|n l]; [done|]. pose proof (node_weight_pos n).
  unfold expand. csimpl. rewrite length_app, length_replicate. lia.
Qed.

Lemma pick_weighted_spec l (w : Timed OutboundProxyRuntime) :
  l ≠ [] → weights_fit l →
  wp (pick_weighted l) (λ r w',
    r = expand l !! Z.to_nat (sequence (st w) `mod` Z.of_nat (length (expand l))) ∧
    st w' = set_sequence (u64_wrap (sequence (st w) + 1)) (st w)) w.
Proof.
  intros Hl Hfit. unfold pick_weighted. destruct l as [|n l]; [done|]. wp_go. split; [|done].
  rewrite total_weight_expand by done.
  assert (0 < Z.of_nat (length (expand (n :: l)))).
  { rewrite <-total_weight_expand by done. unfold total_weight. lia. }
  pose proof (Z.mod_pos_bound (sequence (st w)) (Z.of_nat (length (expand (n :: l))))).
  rewrite pick_slot_expand; [by rewrite Z.sub_0_r|lia|done].
Qed.

Lemma elem_of_expand n l : n ∈ expand l ↔ n ∈ l.
Proof.
  unfold expand. rewrite list_elem_of_In, in_concat. setoid_rewrite <-list_elem_of_In. split.
  - intros (x & (m & -> & Hm)%list_elem_of_fmap & Hx). apply elem_of_replicate in Hx as [-> _]. done.
  - intros Hn. exists (replicate (Z.to_nat (node_weight n)) n).
    split; [by apply (list_elem_of_fmap_2 (λ n, replicate (Z.to_nat (node_weight n)) n))|].
    apply elem_of_replicate. split; [done|]. pose proof (node_weight_pos n). lia.
Qed.

Lemma pick_weighted_picks l (w : Timed OutboundProxyRuntime) :
  l ≠ [] → weights_fit l → wp (pick_weighted l) (λ r _, ∃ n, r = Some n ∧ n ∈ l) w.
Proof.
  intros Hl Hfit. wp_use pick_weighted_spec as r w' [-> _]; [done..|].
  destruct (lookup_mod_is_Some (expand l) (sequence (st w))) as [n Hn].
  { destruct l as [|m l]; [done|]. intros He. apply (elem_of_nil m). rewrite <-He.
    apply elem_of_expand. left. }
  exists n. split; [done|]. by eapply elem_of_expand, list_elem_of_lookup_2.
Qed.

Lemma repeat_pick_weighted k l (w : Timed OutboundProxyRuntime) :
  l ≠ [] → weights_fit l → 0 <= sequence (st w) → sequence (st w) + Z.of_nat k < u64_modulus →
  wp (repeatM k (pick_weighted l)) (λ r _, length r = k ∧ ∀ i : nat, (i < k)%nat →
    r !! i = Some (expand l !!
      Z.to_nat ((sequence (st w) + Z.of_nat i) `mod` Z.of_nat (length (expand l))))) w.
Proof.
  intros Hl Hfit. revert w. induction k as [|k IH]; intros w Hs Hmax; simpl; [wp_step; split; [done|lia]|].
  wp_step. wp_use pick_weighted_spec as r w1 [Hr Hw1]; [done..|]. wp_step.
  rewrite u64_wrap_small in Hw1 by (unfold is_u64; lia).
  eapply wp_mono; [apply IH; rewrite Hw1; simpl; lia|].
  rewrite Hw1. simpl. intros rs w2 [Hlen Hrs]. wp_step. split; [simpl; lia|].
  intros [|i] Hi; simpl.
  - by rewrite Z.add_0_r, Hr.
  - rewrite Hrs by lia. do 3 f_equal. f_equal. lia.
Qed.

(** ** Choosing a route *)

(** The nodes a selection made at [t] may use. *)
Definition usable_nodes (r : OutboundProxyRuntime) (t : Instant) : list OutboundProxyNode :=
  filter (λ n, node_available (unavailable_until r) t n = true) (nodes r).

Lemma usable_node r t n :
  n ∈ usable_nodes r t ↔
  n ∈ nodes r ∧ opn_enabled n = true ∧ 0 < opn_weight n ∧
  ∀ u, unavailable_until r !! opn_id n = Some u → u <= t.
Proof.
  unfold usable_nodes, node_available. rewrite list_elem_of_filter, !andb_true_iff, Z.ltb_lt.
  destruct (unavailable_until r !! opn_id n); rewrite ?Z.leb_le; naive_solver.
Qed.

Definition route_of (n : OutboundProxyNode) : SelectedUpstreamRoute :=
  mkSelectedUpstreamRoute (Some (opn_id n)) (Some (opn_label n)) (Some (opn_proxy_url n)) false.

(** What [select_route] may answer. *)
Definition route_ok (r : OutboundProxyRuntime) (t : Instant)
    (answer : result SelectedUpstreamRoute string) : Prop :=
  if negb (opps_enabled (settings r)) then answer = Ok (direct false)
  else match usable_nodes r t with
       | [] =>
           answer = match opps_fail_mode (settings r) with
                    | AllowDirectFallback => Ok (direct true)
                    | StrictProxy => Err "outbound proxy pool has no available proxy"
                    end
       | _ => ∃ n, answer = Ok (route_of n) ∧ n ∈ usable_nodes r t
       end.

Section selection.
Context `{Clock} `{HttpClientBuilder}.
Implicit Types w : Timed OutboundProxyRuntime.

Lemma select_route_spec w :
  weights_fit (usable_nodes (st w) (time w)) →
  wp select_route (λ answer w', route_ok (st w) (time w) answer ∧
    unavailable_until (st w') = unavailable_until (st w) ∧
    client_cache (st w') = client_cache (st w) ∧
    allow_system_proxy (st w') = allow_system_proxy (st w)) w.
Proof.
  intros Hfit. unfold select_route, route_ok. wp_step. wp_step.
  destruct (negb (opps_enabled (settings (st w)))); [by wp_go|]. do 3 wp_step.
  unfold available_nodes. do 5 wp_step.
  change (filter _ _) with (usable_nodes (st w) (time w)).
  destruct (usable_nodes (st w) (time w)) as [|n l] eqn:Hu.
  - simpl. do 2 wp_step. destruct (opps_fail_mode _); by wp_go.
  - wp_step. eapply wp_mono.
    { apply wp_and; [apply pick_weighted_picks|apply pick_weighted_spec]; done. }
    intros r w1 [(m & -> & Hm) [_ Hw1]]. wp_step. rewrite Hw1. split; [by exists m|done].
Qed.
End selection.

(** ** The client cache *)

Definition timeout_ms (t : option Duration) : Z :=
  match t with Some d => d `div` 1000000 | None => 0 end.

(** A [Duration] holds less than 2^64 seconds. *)
Definition is_timeout (t : option Duration) : Prop :=
  ∀ d, t = Some d → 0 <= d < from_secs u64_modulus.

Lemma timeout_ms_range t : is_timeout t → 0 <= timeout_ms t < 10 ^ 39.
Proof.
  intros Ht. destruct t as [d|]; simpl; [|lia]. specialize (Ht d eq_refl).
  unfold from_secs, u64_modulus in Ht. split; [apply Z.div_pos; lia|].
  apply Z.div_lt_upper_bound; lia.
Qed.

Lemma decimal_inj a b : 0 <= a < 10 ^ 39 → 0 <= b < 10 ^ 39 → decimal a = decimal b → a = b.
Proof. intros. by eapply (format_radix_inj 10 ltac:(lia) 39). Qed.

Lemma no_char_app c a b : no_char c a → no_char c b → no_char c (a +:+ b).
Proof.
  unfold no_char. intros Ha Hb. induction a as [|d a IH]; [done|]. simpl in *. set_solver.
Qed.

Lemma string_app_inv (a x y : string) : a +:+ x = a +:+ y → x = y.
Proof. induction a as [|c a IH]; [done|]. intros [= Heq]. by apply IH. Qed.

Lemma cache_key_inj p1 t1 p2 t2 allow :
  is_timeout t1 → is_timeout t2 → cache_key p1 t1 allow = cache_key p2 t2 allow →
  p1 = p2 ∧ timeout_ms t1 = timeout_ms t2.
Proof.
  intros H1%timeout_ms_range H2%timeout_ms_range Heq. unfold cache_key in Heq.
  fold (timeout_ms t1) (timeout_ms t2) in Heq.
  assert (Hbar : ∀ z, 0 <= z → no_char "|" (decimal z)).
  { intros z Hz. apply decimal_no_char; [done|]. right. vm_compute. done. }
  destruct p1 as [u1|], p2 as [u2|]; [|done|done|].
  - apply string_app_inv in Heq.
    change ("|timeout_ms:" +:+ ?d) with (String "|" ("timeout_ms:" +:+ d)) in Heq.
    apply split_unique in Heq as [-> Heq%string_app_inv%decimal_inj]; [by split|lia|lia|..].
    all: apply no_char_app; [vm_compute; set_solver|apply Hbar; lia].
  - apply string_app_inv in Heq.
    change ("|allow_system_proxy:" +:+ ?d) with (String "|" ("allow_system_proxy:" +:+ d)) in Heq.
    apply split_first_unique in Heq as [Heq%decimal_inj _]; [by split|lia|lia|apply Hbar; lia..].
Qed.

Section client_cache.
Context `{Clock} `{HttpClientBuilder}.
Implicit Types w : Timed OutboundProxyRuntime.

(** Every cached client was built for the key it is stored under. *)
Definition cache_inv (r : OutboundProxyRuntime) : Prop :=
  ∀ k c, client_cache r !! k = Some c → ∃ p t,
    is_timeout t ∧ k = cache_key p t (allow_system_proxy r) ∧
    c = mkClientConfig (negb (allow_system_proxy r)) t p.

Lemma cache_inv_frame r r' :
  client_cache r' = client_cache r → allow_system_proxy r' = allow_system_proxy r →
  cache_inv r → cache_inv r'.
Proof. unfold cache_inv. by intros -> ->. Qed.

Lemma cached_client_spec p t w :
  is_timeout t → cache_inv (st w) →
  wp (cached_client p t) (λ r w', cache_inv (st w') ∧ ∀ c, r = Ok c →
    cc_proxy c = p ∧ timeout_ms (cc_timeout c) = timeout_ms t ∧
    cc_no_proxy c = negb (allow_system_proxy (st w))) w.
Proof.
  intros Ht Hinv. unfold cached_client. do 4 wp_step.
  destruct (client_cache (st w) !! _) as [c|] eqn:Hk.
  - wp_step. split; [done|]. intros c' [= <-].
    destruct (Hinv _ _ Hk) as (p' & t' & Ht' & Hkey & ->).
    by apply cache_key_inj in Hkey as [-> ->].
  - wp_go; [by split..|]. split.
    + intros k c. simpl. intros [[<- <-]|[_ Hc]]%lookup_insert_Some; [by exists p, t|]. by apply Hinv in Hc.
    + by intros c [= <-].
Qed.

Lemma select_route_frame w :
  wp select_route (λ _ w', client_cache (st w') = client_cache (st w) ∧
    allow_system_proxy (st w') = allow_system_proxy (st w)) w.
Proof. unfold select_route, available_nodes, pick_weighted. by wp_go. Qed.

Lemma select_http_client_spec t w :
  is_timeout t → cache_inv (st w) →
  wp (select_http_client t) (λ r w', cache_inv (st w') ∧ ∀ sel, r = Ok sel →
    cc_proxy (client sel) = proxy_url (selected sel) ∧
    timeout_ms (cc_timeout (client sel)) = timeout_ms t ∧
    cc_no_proxy (client sel) = negb (allow_system_proxy (st w))) w.
Proof.
  intros Ht Hinv. unfold select_http_client. wp_step.
  wp_use select_route_frame as r w1 [Hc Ha].
  assert (cache_inv (st w1)) by (by eapply cache_inv_frame).
  destruct r as [route|e]; [|done]. wp_step.
  wp_use cached_client_spec as r w2 [Hinv2 Hr]; [done..|].
  destruct r as [c|e]; [|done]. wp_step. split; [done|]. intros sel [= <-]. simpl.
  rewrite <-Ha. by apply Hr.
Qed.

(** The operations of the runtime, in any order. *)
Inductive proxy_public : ∀ {A}, PM A → Prop :=
  | p_replace s l : proxy_public (replace_config s l)
  | p_settings : proxy_public current_settings
  | p_nodes : proxy_public current_nodes
  | p_select t : is_timeout t → proxy_public (select_http_client t)
  | p_connect f : proxy_public (connect_websocket f)
  | p_failure sel : proxy_public (mark_proxy_transport_failure sel)
  | p_status sel status : proxy_public (mark_proxy_http_status sel status)
  | p_success sel : proxy_public (mark_proxy_success sel).

Inductive proxy_step : relation (Timed OutboundProxyRuntime) :=
  | proxy_call {A} (m : PM A) w : proxy_public m → proxy_step w (m w).2.

Lemma mark_frame sel status w :
  wp (mark_proxy_transport_failure sel) (λ _ w', client_cache (st w') = client_cache (st w) ∧
    allow_system_proxy (st w') = allow_system_proxy (st w)) w ∧
  wp (mark_proxy_success sel) (λ _ w', client_cache (st w') = client_cache (st w) ∧
    allow_system_proxy (st w') = allow_system_proxy (st w)) w ∧
  wp (mark_proxy_http_status sel status) (λ _ w', client_cache (st w') = client_cache (st w) ∧
    allow_system_proxy (st w') = allow_system_proxy (st w)) w.
Proof.
  unfold mark_proxy_http_status, mark_proxy_transport_failure, mark_proxy_success.
  destruct sel; split_and!; by wp_go.
Qed.

Lemma connect_frame f w :
  wp (connect_websocket f) (λ _ w', client_cache (st w') = client_cache (st w) ∧
    allow_system_proxy (st w') = allow_system_proxy (st w)) w.
Proof.
  unfold connect_websocket. wp_step. wp_use select_route_frame as r w1 [Hc Ha].
  destruct r as [route|e]; [|by wp_go]. rewrite <-Hc, <-Ha.
  unfold mark_proxy_transport_failure, mark_proxy_success. by wp_go.
Qed.

Lemma proxy_reachable_cache_inv w w' : rtc proxy_step w w' → cache_inv (st w) → cache_inv (st w').
Proof.
  intros Hst. induction Hst as [|w1 w2 w3 [A m v Hm] _ IH]; [done|]. intros Hinv. apply IH.
  assert (Hframe : ∀ r, client_cache r = client_cache (st v) →
    allow_system_proxy r = allow_system_proxy (st v) → cache_inv r) by eauto using cache_inv_frame.
  change (wp m (λ _ v', cache_inv (st v')) v). destruct Hm.
  - unfold replace_config. wp_go. by apply Hframe.
  - done.
  - done.
  - wp_use select_http_client_spec as ? ? [? _]; done.
  - wp_use connect_frame as ? ? [? ?]. by apply Hframe.
  - eapply wp_mono; [apply (mark_frame sel 0)|]. intros ? ? [? ?]. by apply Hframe.
  - eapply wp_mono; [apply (mark_frame sel status)|]. intros ? ? [? ?]. by apply Hframe.
  - eapply wp_mono; [apply (mark_frame sel 0)|]. intros ? ? [? ?]. by apply Hframe.
Qed.
End client_cache.

(** ** Claims *)

Section claims.
Context `{Clock} `{HttpClientBuilder}.
Implicit Types w : Timed OutboundProxyRuntime.

(** What [select_route] answers: a direct connection when the pool is
    disabled; otherwise an enabled node of positive weight that is not
    sidelined, and when there is none, the direct fallback or an error as the
    fail mode says. *)
Theorem select_route_follows_policy w :
  weights_fit (usable_nodes (st w) (time w)) →
  wp select_route (λ answer _, route_ok (st w) (time w) answer) w.
Proof. intros ?. by wp_use select_route_spec as ? ? [? _]. Qed.


(** Over one turn of the rotation every available node is chosen exactly as
    often as its weight, wherever the sequence counter stands (short of its
    wrap-around). *)
Theorem pick_weighted_is_fair l w :
  l ≠ [] → weights_fit l → 0 <= sequence (st w) →
  sequence (st w) + total_weight l < u64_modulus →
  wp (repeatM (Z.to_nat (total_weight l)) (pick_weighted l)) (λ r _,
    r ≡ₚ Some <$> concat ((λ n, replicate (Z.to_nat (node_weight n)) n) <$> l)) w.
Proof.
  intros Hl Hfit Hs Hmax. rewrite total_weight_expand in * by done. rewrite Nat2Z.id.
  wp_use repeat_pick_weighted as r w' [Hlen Hr]; [done|done|done|lia|].
  rewrite (rotate_intro (expand l) r (Z.to_nat (sequence (st w)))); [|done|].
  - apply fmap_Permutation, rotate_Permutation.
  - intros i Hi. rewrite Z2Nat.id by lia. by apply Hr.
Qed.

(** A proxy whose transport failed is sidelined: a selection that starts
    within thirty seconds does not return it; one success restores it. *)
Theorem failed_proxy_is_sidelined id w :
  wp (mark_proxy_transport_failure (Some id)) (λ _ w',
    (time w' < time w + from_secs 30 → weights_fit (usable_nodes (st w') (time w')) →
     wp select_route (λ r _, ∀ route, r = Ok route → proxy_id route ≠ Some id) w') ∧
    wp (mark_proxy_success (Some id)) (λ _ w'', ∀ n t, n ∈ nodes (st w'') → opn_id n = id →
      opn_enabled n = true → 0 < opn_weight n → n ∈ usable_nodes (st w'') t) w') w.
Proof.
  unfold mark_proxy_transport_failure. do 3 wp_step. split.
  - set (w' := mkTimed _ _). intros Ht Hfit. wp_use select_route_spec as r w2 [Hr _]; [done|].
    intros route ->. unfold route_ok in Hr. destruct (negb _); [by simplify_eq|].
    destruct (usable_nodes _ _) as [|m l] eqn:Hu; [by destruct (opps_fail_mode _); simplify_eq|].
    rewrite <-Hu in Hr. destruct Hr as (n & [= ->] & (_ & _ & _ & Hun)%usable_node).
    simpl. intros [= Hid]. specialize (Hun (time w + from_secs 30)). simpl in Hun.
    rewrite Hid, lookup_insert_eq in Hun. specialize (Hun eq_refl). lia.
  - unfold mark_proxy_success. wp_step. intros n t Hn Hid Hen Hw. apply usable_node.
    split_and!; [done|done|done|]. simpl. rewrite Hid, lookup_delete_eq. done.
Qed.
End claims.

(** ** Witnesses *)

Module Witness.
Definition any_builder : HttpClientBuilder :=
  {| proxy_all_accepts _ := true; build_succeeds _ := true |}.
#[local] Existing Instance unit_clock.
#[local] Existing Instance any_builder.

Definition node (id : Uuid) (weight : Z) : OutboundProxyNode :=
  mkOutboundProxyNode id "n" "http://p:1" true weight None None None None 0 0.
Definition strict : OutboundProxyPoolSettings := mkOutboundProxyPoolSettings true StrictProxy 0.
Definition pool : list OutboundProxyNode := [node 1 2; node 2 1].
Definition w0 : Timed OutboundProxyRuntime := mkTimed (OutboundProxyRuntime_new None 0) 0.
Definition w1 : Timed OutboundProxyRuntime := (replace_config strict pool w0).2.

Lemma select_route_follows_policy_witness :
  wp select_route (λ answer _, route_ok (st w1) (time w1) answer) w1.
Proof. apply select_route_follows_policy. vm_compute. reflexivity. Defined.


Lemma pick_weighted_is_fair_witness :
  wp (repeatM 3 (pick_weighted pool)) (λ r _,
    r ≡ₚ Some <$> [node 1 2; node 1 2; node 2 1]) (mkTimed (set_sequence 7 (st w1)) 0).
Proof.
  apply (pick_weighted_is_fair pool (mkTimed (set_sequence 7 (st w1)) 0)).
  - discriminate.
  - vm_compute. reflexivity.
  - vm_compute. discriminate.
  - vm_compute. reflexivity.
Defined.
End Witness.
