(* ===== verification/Handshake.v ===== *)
(** * Proxy handshakes: [send_http_connect] and [send_socks5_connect] of
    [services/data-plane/src/outbound_proxy_runtime.rs]

    A connection is the byte chunks the peer sends, in the pieces the network
    delivers them in, and the bytes written so far; a byte is a [Z] in
    [0, 256). Writing does not fail. Text is examined on its bytes: replacing
    invalid UTF-8 as [from_utf8_lossy] does neither adds nor removes white
    space, line feeds or digits. *)
From Stdlib Require Import Ascii.
From S2P Require Import Prelude RustStr.

#[local] Open Scope string_scope.
#[local] Open Scope list_scope.
#[local] Open Scope Z_scope.

Definition CONNECT_RESPONSE_MAX_BYTES : nat := 8 * 1024.

Inductive ErrorKind := InvalidData | InvalidInput | UnexpectedEof | PermissionDenied.

Record IoError := mkIoError { kind : ErrorKind; message : string }.

Record Stream := mkStream { incoming : list (list Z); outgoing : list Z }.

Abbreviation IO A := (ST Stream (result A IoError)) (only parsing).

Definition fail {A} (k : ErrorKind) (msg : string) : IO A := mret (Err (mkIoError k msg)).

Definition write_all (bytes : list Z) : IO unit :=
  λ s, (Ok tt, mkStream (incoming s) (outgoing s ++ bytes)).

(** [read] into a buffer of [n] bytes: what the next chunk holds, nothing at the
    end of the stream. *)
Fixpoint read_chunk (n : nat) (chunks : list (list Z)) : list Z * list (list Z) :=
  match chunks with
  | [] => ([], [])
  | [] :: rest => read_chunk n rest
  | c :: rest => (take n c, drop n c :: rest)
  end.

Definition read (n : nat) : IO (list Z) :=
  λ s, let '(bytes, rest) := read_chunk n (incoming s) in (Ok bytes, mkStream rest (outgoing s)).

(** [read_exact]: [n] bytes across chunks. *)
Fixpoint take_bytes (n : nat) (chunks : list (list Z)) : option (list Z * list (list Z)) :=
  match n, chunks with
  | O, _ => Some ([], chunks)
  | _, [] => None
  | _, c :: rest =>
      if (length c <=? n)%nat then
        '(bytes, rest') ← take_bytes (n - length c) rest; Some (c ++ bytes, rest')
      else Some (take n c, drop n c :: rest)
  end.

Definition read_exact (n : nat) : IO (list Z) :=
  λ s, match take_bytes n (incoming s) with
       | Some (bytes, rest) => (Ok bytes, mkStream rest (outgoing s))
       | None => (Err (mkIoError UnexpectedEof "early eof"), mkStream [] (outgoing s))
       end.

(** Text and bytes. *)
Definition byte_to_ascii (b : Z) : ascii := ascii_of_N (Z.to_N b).
Definition text_of (bytes : list Z) : string := String.string_of_list_ascii (byte_to_ascii <$> bytes).
Definition bytes_of (s : string) : list Z := (λ a, Z.of_N (byte_of a)) <$> String.list_ascii_of_string s.

(** ** HTTP CONNECT *)

Definition crlf : string := String "013" (String "010" "").

Definition connect_request (target_host : string) (target_port : Z) (basic_auth : option string) :
    string :=
  let target := target_host +:+ ":" +:+ decimal target_port in
  "CONNECT " +:+ target +:+ " HTTP/1.1" +:+ crlf +:+ "Host: " +:+ target +:+ crlf +:+
  match basic_auth with
  | Some auth => "Proxy-Authorization: " +:+ auth +:+ crlf
  | None => ""
  end +:+ crlf.

(** [buffer.windows(4).any(|window| window == b"\r\n\r\n")]. *)
Fixpoint has_header_end (l : list Z) : bool :=
  match l with
  | a :: l' => bool_decide (take 4 l = [13; 10; 13; 10]) || has_header_end l'
  | [] => false
  end.

(** The read loop. Every turn adds at least one byte, so a fuel of one more than
    the limit is never used up. *)
Fixpoint read_response (fuel : nat) (buffer : list Z) : IO (list Z) :=
  match fuel with
  | O => fail InvalidData "out of fuel"
  | S fuel =>
      if (CONNECT_RESPONSE_MAX_BYTES <=? length buffer)%nat
      then fail InvalidData "proxy connect response exceeded limit"
      else
        chunk ←? read 512;
        if (length chunk =? 0)%nat
        then fail UnexpectedEof "proxy closed during connect handshake"
        else
          let buffer := buffer ++ chunk in
          if has_header_end buffer then mret (Ok buffer) else read_response fuel buffer
  end.

Definition response_status (response_text : string) : Z :=
  match split_whitespace (first_line response_text) !! 1%nat with
  | Some raw => match parse_unsigned 65535 raw with Some n => n | None => 0 end
  | None => 0
  end.

Definition send_http_connect (target_host : string) (target_port : Z) (basic_auth : option string) :
    IO unit :=
  _ ←? write_all (bytes_of (connect_request target_host target_port basic_auth));
  buffer ←? read_response (S CONNECT_RESPONSE_MAX_BYTES) [];
  let status := response_status (text_of buffer) in
  if status =? 200 then mret (Ok tt)
  else fail PermissionDenied ("proxy connect failed with status " +:+ decimal status).

(** ** SOCKS5 *)

(** The result of parsing the target host as an address, with its octets. *)
Inductive IpAddr := V4 (octets : list Z) | V6 (octets : list Z).

(** [len() as u8]. *)
Definition as_u8 (n : nat) : Z := Z.of_nat n `mod` 256.
Definition to_be_bytes_u16 (n : Z) : list Z := [n `div` 256; n `mod` 256].

Definition socks5_greeting (username password : option string) : list Z :=
  let methods := 0 :: match username, password with None, None => [] | _, _ => [2] end in
  [5; as_u8 (length methods)] ++ methods.

Definition socks5_auth (username password : list Z) : list Z :=
  [1; as_u8 (length username)] ++ username ++ [as_u8 (length password)] ++ password.

Definition unwrap_or_default (s : option string) : string := match s with Some s => s | None => "" end.

Definition socks5_authenticate (username password : option string) : IO unit :=
  let user := bytes_of (unwrap_or_default username) in
  let pass := bytes_of (unwrap_or_default password) in
  if (255 <? length user)%nat || (255 <? length pass)%nat
  then fail InvalidInput "socks5 auth credential is too long"
  else
    _ ←? write_all (socks5_auth user pass);
    auth_response ←? read_exact 2;
    if bool_decide (auth_response = [1; 0]) then mret (Ok tt)
    else fail PermissionDenied "socks5 username/password authentication failed".

Section socks5.
(** [target_host.parse::<IpAddr>()]. *)
Context (parse_ip : string → option IpAddr).

(** The connect request; a name of more than 255 bytes is an error. *)
Definition socks5_request (target_host : string) (target_port : Z) : option (list Z) :=
  address ← match parse_ip target_host with
            | Some (V4 octets) => Some (1 :: octets)
            | Some (V6 octets) => Some (4 :: octets)
            | None =>
                let host := bytes_of target_host in
                if (255 <? length host)%nat then None
                else Some (3 :: as_u8 (length host) :: host)
            end;
  Some ([5; 1; 0] ++ address ++ to_be_bytes_u16 target_port).

(** Read the bound address of the reply. *)
Definition socks5_read_bound (address_type : Z) : IO unit :=
  _ ←? (if address_type =? 1 then read_exact 4
        else if address_type =? 3 then
          len ←? read_exact 1;
          read_exact (Z.to_nat (default 0 (head len)))
        else if address_type =? 4 then read_exact 16
        else fail InvalidData "invalid socks5 bind address type");
  _ ←? read_exact 2;
  mret (Ok tt).

Definition send_socks5_connect (target_host : string) (target_port : Z)
    (username password : option string) : IO unit :=
  _ ←? write_all (socks5_greeting username password);
  method_response ←? read_exact 2;
  if negb (bool_decide (method_response !! 0%nat = Some 5))
  then fail InvalidData "invalid socks5 greeting response"
  else
    let method := default 0 (method_response !! 1%nat) in
    _ ←? (if method =? 0 then mret (Ok tt)
          else if method =? 2 then socks5_authenticate username password
          else if method =? 255
          then fail PermissionDenied "socks5 proxy rejected all auth methods"
          else fail InvalidData "unsupported socks5 auth method");
    match socks5_request target_host target_port with
    | None => fail InvalidInput "socks5 target host is too long"
    | Some request =>
        _ ←? write_all request;
        header ←? read_exact 4;
        if negb (bool_decide (header !! 0%nat = Some 5))
        then fail InvalidData "invalid socks5 connect response"
        else if negb (bool_decide (header !! 1%nat = Some 0))
        then fail PermissionDenied
               ("socks5 connect failed with code " +:+ decimal (default 0 (header !! 1%nat)))
        else socks5_read_bound (default 0 (header !! 3%nat))
    end.
End socks5.

(** ** Properties of the proxy handshakes

    The verdict of an HTTP CONNECT does not depend on how the network cuts the
    response into pieces and is reached within the size limit; a SOCKS5 session
    writes a request a server decodes to the intended target, and consumes
    exactly the server's reply. *)

(** The bytes still to come. *)
Definition pending (s : Stream) : list Z := concat (incoming s).

(** ** Reading *)

Lemma take_bytes_spec n chunks bytes rest :
  concat chunks = bytes ++ rest → length bytes = n →
  ∃ chunks', take_bytes n chunks = Some (bytes, chunks') ∧ concat chunks' = rest.
Proof.
  revert n bytes. induction chunks as [|c chunks IH]; intros n bytes Heq Hlen.
  { symmetry in Heq. apply app_nil in Heq as [-> ->]. simpl in Hlen. subst. by exists []. }
  destruct n as [|n].
  { apply nil_length_inv in Hlen as ->. by exists (c :: chunks). }
  simpl in *. destruct (Nat.leb_spec (length c) (S n)) as [Hle|Hgt].
  - assert (Hb : bytes = c ++ drop (length c) bytes).
    { rewrite <-(take_drop (length c) bytes) at 1. f_equal.
      apply (f_equal (take (length c))) in Heq.
      rewrite take_app_length, take_app_le in Heq by lia. done. }
    destruct (IH (S n - length c)%nat (drop (length c) bytes)) as (chunks' & Htake & Hc).
    + rewrite Hb, <-(assoc_L (++)) in Heq. by apply app_inv_head in Heq.
    + rewrite length_drop. lia.
    + exists chunks'. rewrite Htake. simpl. by rewrite <-Hb.
  - exists (drop (S n) c :: chunks). split.
    + do 2 f_equal. apply (f_equal (take (S n))) in Heq.
      rewrite take_app_le, take_app_length' in Heq by (done || lia). done.
    + simpl. apply (f_equal (drop (S n))) in Heq.
      rewrite drop_app_le, drop_app_length' in Heq by (done || lia). done.
Qed.

Lemma wp_read_exact bytes rest n Q s :
  pending s = bytes ++ rest → length bytes = n →
  (∀ s', pending s' = rest → outgoing s' = outgoing s → Q (Ok bytes) s') →
  wp (read_exact n) Q s.
Proof.
  intros Hp Hlen HQ. destruct (take_bytes_spec n (incoming s) bytes rest Hp Hlen) as (cs & Ht & Hcs).
  unfold wp, read_exact. rewrite Ht. by apply HQ.
Qed.

Lemma wp_write_all bytes Q s :
  Q (Ok tt) (mkStream (incoming s) (outgoing s ++ bytes)) → wp (write_all bytes) Q s.
Proof. done. Qed.

Lemma read_chunk_spec n chunks bytes rest :
  read_chunk (S n) chunks = (bytes, rest) →
  concat chunks = bytes ++ concat rest ∧ (length bytes ≤ S n)%nat ∧
  (bytes = [] → concat chunks = []).
Proof.
  induction chunks as [|[|b c] chunks IH]; simpl; [intros [= <- <-]; split_and!; simpl; (done || lia)|done|].
  intros [= <- <-]. split_and!; simpl; [|rewrite length_take; lia|by intros [=]].
  by rewrite app_assoc, take_drop.
Qed.

(** ** HTTP CONNECT *)

Lemma has_header_end_app a b : has_header_end a = true → has_header_end (a ++ b) = true.
Proof.
  induction a as [|x a IH]; [done|]. cbn [has_header_end app].
  rewrite !orb_true_iff, !bool_decide_eq_true. intros [Hx|Hx]; [left|right; by apply IH].
  destruct a as [|? [|? [|? a]]]; simplify_eq/=. by destruct a.
Qed.

Lemma has_header_end_newline a : has_header_end a = true → 10 ∈ a.
Proof.
  induction a as [|x a IH]; [done|]. cbn [has_header_end].
  rewrite orb_true_iff, bool_decide_eq_true. intros [Hx|Hx]; [|right; by apply IH].
  destruct a as [|? a]; simplify_eq/=. right. left.
Qed.

Lemma text_of_app a b : text_of (a ++ b) = text_of a +:+ text_of b.
Proof.
  unfold text_of. rewrite fmap_app. induction (byte_to_ascii <$> a) as [|x l IH]; [done|].
  change (String x (String.string_of_list_ascii (l ++ (byte_to_ascii <$> b)))
          = String x (String.string_of_list_ascii l +:+ String.string_of_list_ascii (byte_to_ascii <$> b))).
  by rewrite IH.
Qed.

Lemma before_newline_app a b l : before_newline a = Some l → before_newline (a +:+ b) = Some l.
Proof.
  revert l. induction a as [|c a IH]; intros l; [done|].
  change (String c a +:+ b) with (String c (a +:+ b)). simpl.
  destruct (byte_of c =? 10)%N; [done|]. intros (l' & Hl & ->)%fmap_Some. by rewrite (IH l').
Qed.

Lemma before_newline_is_Some a : 10 ∈ a → is_Some (before_newline (text_of a)).
Proof.
  induction a as [|x a IH]; [by intros ?%not_elem_of_nil|].
  intros [<-|Hin]%elem_of_cons; [by eexists|].
  change (text_of (x :: a)) with (String (byte_to_ascii x) (text_of a)). simpl.
  destruct (_ =? 10)%N; [by eexists|]. destruct (IH Hin) as [l Hl]. rewrite Hl. by eexists.
Qed.

(** The status only depends on the part of a response up to its header end. *)
Lemma response_status_app a b :
  has_header_end a = true → response_status (text_of (a ++ b)) = response_status (text_of a).
Proof.
  intros Ha%has_header_end_newline%before_newline_is_Some. destruct Ha as [l Hl].
  unfold response_status, first_line.
  by rewrite text_of_app, Hl, (before_newline_app _ _ _ Hl).
Qed.

Lemma read_response_spec fuel buffer s head rest :
  (CONNECT_RESPONSE_MAX_BYTES < length buffer + fuel)%nat → has_header_end buffer = false →
  buffer ++ pending s = head ++ rest → has_header_end head = true →
  (length head ≤ CONNECT_RESPONSE_MAX_BYTES)%nat →
  wp (read_response fuel buffer) (λ r s', outgoing s' = outgoing s ∧
    ∃ b, r = Ok b ∧ b ++ pending s' = head ++ rest ∧ has_header_end b = true) s.
Proof.
  revert buffer s. induction fuel as [|fuel IH]; intros buffer s Hfuel Hno Heq Hhead Hmax.
  all: assert (Hlt : (length buffer < length head)%nat).
  1,3: destruct (decide (length head ≤ length buffer)%nat) as [Hle|?]; [|lia].
  1,2: exfalso; apply (f_equal (take (length head))) in Heq;
    rewrite take_app_le, take_app_length in Heq by done;
    rewrite <-(take_drop (length head) buffer), Heq, has_header_end_app in Hno by done; done.
  { lia. }
  cbn [read_response]. destruct (Nat.leb_spec CONNECT_RESPONSE_MAX_BYTES (length buffer)); [lia|].
  wp_step. unfold wp at 1, read. destruct (read_chunk 512 (incoming s)) as [bytes cs] eqn:Hread.
  apply read_chunk_spec in Hread as (Hp & _ & Hnil). simpl. fold (pending s) in *.
  assert (Hne : bytes ≠ []).
  { intros Hb. rewrite Hnil, app_nil_r in Heq by done. apply (f_equal length) in Heq.
    rewrite length_app in Heq. lia. }
  destruct bytes as [|x bytes]; [done|]. simpl length. cbn [Nat.eqb].
  destruct (has_header_end (buffer ++ x :: bytes)) eqn:Hend.
  - wp_step. split; [done|]. eexists. split_and!; [done| |done]. unfold pending at 1. simpl.
    by rewrite <-(assoc_L (++)), <-Hp.
  - eapply wp_mono; [apply IH; try done|done].
    + rewrite length_app. simpl. lia.
    + unfold pending at 1. simpl. by rewrite <-(assoc_L (++)), <-Hp.
Qed.

(** Whatever the peer sends, the loop ends before its fuel does. *)
Lemma read_response_bounded fuel buffer s :
  (0 < fuel)%nat → (CONNECT_RESPONSE_MAX_BYTES < length buffer + fuel)%nat →
  wp (read_response fuel buffer) (λ r _,
    r ≠ Err (mkIoError InvalidData "out of fuel") ∧
    ∀ b, r = Ok b → (length b < CONNECT_RESPONSE_MAX_BYTES + 512)%nat) s.
Proof.
  revert buffer s. induction fuel as [|fuel IH]; intros buffer s Hpos Hfuel; [lia|].
  cbn [read_response]. destruct (Nat.leb_spec CONNECT_RESPONSE_MAX_BYTES (length buffer)) as [|Hlt].
  { by apply wp_ret. }
  wp_step. unfold wp at 1, read. destruct (read_chunk 512 (incoming s)) as [bytes cs] eqn:Hread.
  apply read_chunk_spec in Hread as (_ & Hlen & _). simpl.
  destruct bytes as [|x bytes]; [by apply wp_ret|]. simpl length in *. cbn [Nat.eqb].
  destruct (has_header_end _).
  - wp_step. split; [done|]. intros b [= <-]. rewrite length_app. unfold CONNECT_RESPONSE_MAX_BYTES in *. simpl. lia.
  - apply IH; [lia|]. rewrite length_app. simpl. lia.
Qed.

(** ** SOCKS5 *)

(** A SOCKS5 server's view of a connect request. *)
Inductive Target := TargetV4 (octets : list Z) | TargetDomain (name : list Z) | TargetV6 (octets : list Z).

Definition parse_port (l : list Z) : option Z :=
  match l with [hi; lo] => Some (256 * hi + lo) | _ => None end.

Definition parse_connect (l : list Z) : option (Target * Z) :=
  match l with
  | 5 :: 1 :: 0 :: 1 :: r => p ← parse_port (drop 4 r); Some (TargetV4 (take 4 r), p)
  | 5 :: 1 :: 0 :: 4 :: r => p ← parse_port (drop 16 r); Some (TargetV6 (take 16 r), p)
  | 5 :: 1 :: 0 :: 3 :: n :: r =>
      let n := Z.to_nat n in p ← parse_port (drop n r); Some (TargetDomain (take n r), p)
  | _ => None
  end.

Section socks5.
Context (parse_ip : string → option IpAddr).

(** Octets of an address. *)
Definition octets_ok : Prop := ∀ h,
  match parse_ip h with
  | Some (V4 o) => length o = 4%nat
  | Some (V6 o) => length o = 16%nat
  | None => True
  end.

Definition target_of (host : string) : Target :=
  match parse_ip host with
  | Some (V4 o) => TargetV4 o
  | Some (V6 o) => TargetV6 o
  | None => TargetDomain (bytes_of host)
  end.

Lemma parse_port_be p : 0 <= p < 65536 → parse_port (to_be_bytes_u16 p) = Some p.
Proof. intros Hp. simpl. f_equal. pose proof (Z.div_mod p 256 ltac:(lia)). lia. Qed.

Lemma as_u8_small n : (n ≤ 255)%nat → Z.to_nat (as_u8 n) = n.
Proof. intros Hn. unfold as_u8. rewrite Z.mod_small by lia. lia. Qed.

Lemma socks5_request_decodes host port request :
  octets_ok → 0 <= port < 65536 → socks5_request parse_ip host port = Some request →
  parse_connect request = Some (target_of host, port).
Proof.
  intros Hip Hport. specialize (Hip host). unfold socks5_request, target_of.
  destruct (parse_ip host) as [[o|o]|].
  1,2: intros [= <-]; simpl; rewrite drop_app_length', take_app_length' by done;
    change [?a; ?b] with (to_be_bytes_u16 port); by rewrite parse_port_be.
  destruct (Nat.ltb_spec 255 (length (bytes_of host))); [done|]. intros [= <-]. simpl.
  rewrite as_u8_small by done. rewrite drop_app_length, take_app_length.
  change [port `div` 256; port `mod` 256] with (to_be_bytes_u16 port). by rewrite parse_port_be.
Qed.

(** The bytes of a bound address of the given type. *)
Definition bound_ok (address_type : Z) (bound : list Z) : Prop :=
  (address_type = 1 ∧ length bound = 4%nat) ∨ (address_type = 4 ∧ length bound = 16%nat) ∨
  (address_type = 3 ∧ ∃ n name, bound = n :: name ∧ 0 <= n ∧ length name = Z.to_nat n).

Lemma socks5_read_bound_spec address_type bound port_bytes rest s :
  bound_ok address_type bound → length port_bytes = 2%nat →
  pending s = bound ++ port_bytes ++ rest →
  wp (socks5_read_bound address_type) (λ r s', r = Ok tt ∧ pending s' = rest ∧
    outgoing s' = outgoing s) s.
Proof.
  intros Hb Hport Hp. unfold socks5_read_bound. wp_step.
  apply (wp_mono _ (λ r s', is_ok r = true ∧ pending s' = port_bytes ++ rest ∧
    outgoing s' = outgoing s)).
  - destruct Hb as [[-> Hlen]|[[-> Hlen]|[-> (n & name & -> & Hn & Hlen)]]]; simpl.
    1,2: eapply wp_read_exact; [done|done|by intros].
    wp_step. eapply (wp_read_exact [n]); [exact Hp|done|]. intros s1 Hp1 Ho1. simpl.
    eapply (wp_read_exact name); [exact Hp1|done|]. intros s2 Hp2 Ho2. split_and!; [done|done|congruence].
  - intros [r|e] s1 (Hr & Hp1 & Ho1); [|done]. wp_step.
    eapply wp_read_exact; [done|done|]. intros s2 Hp2 Ho2. wp_step. split_and!; [done|done|congruence].
Qed.

(** What the server sends to accept the connection, by the method it chose. *)
Definition method_reply (auth : bool) : list Z := if auth then [5; 2; 1; 0] else [5; 0].
Definition method_request (auth : bool) (username password : option string) : list Z :=
  if auth then socks5_auth (bytes_of (unwrap_or_default username)) (bytes_of (unwrap_or_default password))
  else [].
Definition credentials_fit (username password : option string) : Prop :=
  (length (bytes_of (unwrap_or_default username)) ≤ 255)%nat ∧
  (length (bytes_of (unwrap_or_default password)) ≤ 255)%nat.

Lemma socks5_session auth host port username password request reserved address_type bound port_bytes
    rest s :
  socks5_request parse_ip host port = Some request →
  (auth = true → credentials_fit username password) →
  bound_ok address_type bound → length port_bytes = 2%nat →
  pending s = method_reply auth ++ [5; 0; reserved; address_type] ++ bound ++ port_bytes ++ rest →
  wp (send_socks5_connect parse_ip host port username password) (λ r s',
    r = Ok tt ∧ pending s' = rest ∧
    outgoing s' = outgoing s ++ socks5_greeting username password
                    ++ method_request auth username password ++ request) s.
Proof.
  intros Hreq Hcred Hb Hport Hp. unfold send_socks5_connect. wp_step.
  apply wp_write_all. wp_step.
  eapply (wp_read_exact [5; if auth then 2 else 0]
            (drop 2 (method_reply auth) ++ [5; 0; reserved; address_type] ++ bound ++ port_bytes ++ rest));
    [by destruct auth|done|].
  intros s1 Hp1 Ho1. simpl in Ho1. simpl. wp_step.
  apply (wp_mono _ (λ r s', r = Ok tt ∧
    pending s' = [5; 0; reserved; address_type] ++ bound ++ port_bytes ++ rest ∧
    outgoing s' = outgoing s ++ socks5_greeting username password ++ method_request auth username password)).
  - destruct auth; simpl; [|apply wp_ret; split_and!; [done|done|]; by rewrite app_nil_r].
    destruct (Hcred eq_refl) as [Hu Hpw]. unfold socks5_authenticate.
    destruct (Nat.ltb_spec 255 (length (bytes_of (unwrap_or_default username)))); [lia|].
    destruct (Nat.ltb_spec 255 (length (bytes_of (unwrap_or_default password)))); [lia|]. cbn [orb].
    wp_step. apply wp_write_all. wp_step.
    eapply (wp_read_exact [1; 0]); [exact Hp1|done|]. intros s2 Hp2 Ho2.
    rewrite bool_decide_eq_true_2 by done. wp_step. split_and!; [done|done|].
    rewrite Ho2. simpl. by rewrite Ho1, <-(assoc_L (++)).
  - intros r s2 (-> & Hp2 & Ho2). rewrite Hreq. wp_step. apply wp_write_all. wp_step.
    eapply (wp_read_exact [5; 0; reserved; address_type]); [exact Hp2|done|].
    intros s3 Hp3 Ho3. simpl. simpl in Ho3.
    eapply wp_mono; [by apply (socks5_read_bound_spec address_type bound port_bytes rest)|].
    simpl. intros r s4 (-> & Hp4 & Ho4). split_and!; [done|done|].
    rewrite Ho4, Ho3, Ho2. by rewrite <-!(assoc_L (++)).
Qed.
End socks5.

(** ** Claims *)

(** However the network fragments a response whose header ends within the
    size limit, HTTP CONNECT sends the request for the target and succeeds
    exactly when the status of the response is 200. *)
Theorem http_connect_independent_of_fragmentation host port auth chunks out head rest :
  concat chunks = head ++ rest → has_header_end head = true →
  (length head ≤ CONNECT_RESPONSE_MAX_BYTES)%nat →
  wp (send_http_connect host port auth) (λ r s',
    outgoing s' = out ++ bytes_of (connect_request host port auth) ∧
    (r = Ok tt ↔ response_status (text_of head) = 200)) (mkStream chunks out).
Proof.
  intros Hc Hhead Hlen. unfold send_http_connect. wp_step. apply wp_write_all. wp_step.
  eapply wp_mono; [apply (read_response_spec _ _ _ head rest); try done; simpl; lia|].
  intros r s' [Hout (b & -> & Hb & Hend)]. simpl in Hout.
  assert (Hst : response_status (text_of b) = response_status (text_of head)).
  { by rewrite <-(response_status_app b (pending s')), Hb, response_status_app. }
  rewrite Hst. destruct (Z.eqb_spec (response_status (text_of head)) 200); apply wp_ret; by split.
Qed.

(** HTTP CONNECT always ends: on every stream the read loop stops before its
    fuel, having buffered less than the limit and one more chunk. *)
Theorem http_connect_read_bounded s :
  wp (read_response (S CONNECT_RESPONSE_MAX_BYTES) []) (λ r _,
    r ≠ Err (mkIoError InvalidData "out of fuel") ∧
    ∀ b, r = Ok b → (length b < CONNECT_RESPONSE_MAX_BYTES + 512)%nat) s.
Proof. apply read_response_bounded; simpl; lia. Qed.

(** The connect request is decoded by a SOCKS5 server to the target host (its
    address octets, or its name) and port it was built from. *)
Theorem socks5_request_roundtrip parse_ip host port request :
  octets_ok parse_ip → 0 <= port < 65536 → socks5_request parse_ip host port = Some request →
  parse_connect request = Some (target_of parse_ip host, port).
Proof. apply socks5_request_decodes. Qed.

(** A SOCKS5 session with a server that accepts, with or without
    authentication and with any kind of bound address, succeeds; it writes the
    greeting, the credentials if asked and the request, and leaves every byte
    after the server's reply to the tunnel. *)
Theorem socks5_session_succeeds parse_ip auth host port username password request reserved
    address_type bound port_bytes rest s :
  socks5_request parse_ip host port = Some request →
  (auth = true → credentials_fit username password) →
  bound_ok address_type bound → length port_bytes = 2%nat →
  pending s = method_reply auth ++ [5; 0; reserved; address_type] ++ bound ++ port_bytes ++ rest →
  wp (send_socks5_connect parse_ip host port username password) (λ r s',
    r = Ok tt ∧ pending s' = rest ∧
    outgoing s' = outgoing s ++ socks5_greeting username password
                    ++ method_request auth username password ++ request) s.
Proof. apply socks5_session. Qed.

(** ** Witnesses *)

Module Witness.
(** A response cut after the status code. *)
Definition pieces : list (list Z) :=
  [bytes_of "HTTP/1.1 20"; bytes_of ("0 OK" +:+ crlf +:+ crlf); [1; 2]].
Definition head : list Z := bytes_of ("HTTP/1.1 200 OK" +:+ crlf +:+ crlf).

Lemma http_connect_independent_of_fragmentation_witness :
  wp (send_http_connect "up" 443 None) (λ r s',
    outgoing s' = bytes_of (connect_request "up" 443 None) ∧
    (r = Ok tt ↔ response_status (text_of head) = 200)) (mkStream pieces []) ∧
  response_status (text_of head) = 200.
Proof.
  split; [|vm_compute; reflexivity].
  apply (http_connect_independent_of_fragmentation "up" 443 None pieces [] head [1; 2]).
  - vm_compute. reflexivity.
  - vm_compute. reflexivity.
  - apply (bool_decide_unpack _). vm_compute. exact I.
Defined.

Definition no_ip (_ : string) : option IpAddr := None.

Lemma socks5_request_roundtrip_witness :
  parse_connect [5; 1; 0; 3; 2; 117; 112; 1; 187] = Some (TargetDomain [117; 112], 443).
Proof.
  apply (socks5_request_roundtrip no_ip "up" 443).
  - intros h. exact I.
  - lia.
  - vm_compute. reflexivity.
Defined.

Lemma socks5_session_succeeds_witness :
  wp (send_socks5_connect no_ip "up" 443 (Some "u") None) (λ r s',
    r = Ok tt ∧ pending s' = [9] ∧
    outgoing s' = [5; 2; 0; 2] ++ [1; 1; 117; 0] ++ [5; 1; 0; 3; 2; 117; 112; 1; 187])
    (mkStream [[5; 2; 1]; [0; 5; 0; 0; 3; 1]; [65; 0; 80; 9]] []).
Proof.
  apply (socks5_session_succeeds no_ip true "up" 443 (Some "u") None
           [5; 1; 0; 3; 2; 117; 112; 1; 187] 0 3 [1; 65] [0; 80] [9]).
  - vm_compute. reflexivity.
  - intros _. split; apply (bool_decide_unpack _); vm_compute; exact I.
  - right. right. split; [reflexivity|]. exists 1, [65]. split_and!; [reflexivity|lia|reflexivity].
  - reflexivity.
  - vm_compute. reflexivity.
Defined.
End Witness.
