(* ===== verification/Snapshot.v ===== *)
(** * Configuration sync: [services/data-plane/src/snapshot.rs]

    The data plane's copy of the control plane's configuration: full snapshots,
    incremental events and the polling loop that fetches them. [AppState] holds
    the fields of the source's [AppState] that these functions touch, with the
    router and the outbound proxy runtime as they are modelled in their own
    files; [route_notifications] counts the calls of [notify_waiters]. The HTTP
    exchange with the control plane is a parameter of the poller. *)
From S2P Require Import Prelude RustStr CoreModel Router OutboundProxy.

#[local] Open Scope string_scope.
#[local] Open Scope list_scope.
#[local] Open Scope Z_scope.

Definition builtin_error_template_key (k : BuiltinErrorTemplateKind) (code : string) : string :=
  match k with
  | GatewayError => "gateway_error"
  | HeuristicUpstream => "heuristic_upstream"
  end +:+ ":" +:+ code.

Record AppState := mkAppState {
  router : Router.Router;
  outbound_proxy_runtime : OutboundProxy.OutboundProxyRuntime;
  claude_code_routing_settings : ClaudeCodeRoutingSettings;
  ai_error_learning_settings : AiErrorLearningSettings;
  approved_upstream_error_templates : gmap string UpstreamErrorTemplateRecord;
  builtin_error_templates : gmap string BuiltinErrorTemplateRecord;
  snapshot_revision : Z;
  snapshot_cursor : Z;
  snapshot_remote_cursor : Z;
  snapshot_events_apply_total : Z;
  snapshot_events_cursor_gone_total : Z;
  route_notifications : nat;
}.

Abbreviation AM := (ST (Timed AppState)).

(** Writes to one field. *)
Definition set_router x a := mkAppState x (outbound_proxy_runtime a) (claude_code_routing_settings a)
  (ai_error_learning_settings a) (approved_upstream_error_templates a) (builtin_error_templates a)
  (snapshot_revision a) (snapshot_cursor a) (snapshot_remote_cursor a) (snapshot_events_apply_total a)
  (snapshot_events_cursor_gone_total a) (route_notifications a).
Definition set_proxy x a := mkAppState (router a) x (claude_code_routing_settings a)
  (ai_error_learning_settings a) (approved_upstream_error_templates a) (builtin_error_templates a)
  (snapshot_revision a) (snapshot_cursor a) (snapshot_remote_cursor a) (snapshot_events_apply_total a)
  (snapshot_events_cursor_gone_total a) (route_notifications a).
Definition set_claude x a := mkAppState (router a) (outbound_proxy_runtime a) x
  (ai_error_learning_settings a) (approved_upstream_error_templates a) (builtin_error_templates a)
  (snapshot_revision a) (snapshot_cursor a) (snapshot_remote_cursor a) (snapshot_events_apply_total a)
  (snapshot_events_cursor_gone_total a) (route_notifications a).
Definition set_learning x a := mkAppState (router a) (outbound_proxy_runtime a)
  (claude_code_routing_settings a) x (approved_upstream_error_templates a) (builtin_error_templates a)
  (snapshot_revision a) (snapshot_cursor a) (snapshot_remote_cursor a) (snapshot_events_apply_total a)
  (snapshot_events_cursor_gone_total a) (route_notifications a).
Definition set_approved x a := mkAppState (router a) (outbound_proxy_runtime a)
  (claude_code_routing_settings a) (ai_error_learning_settings a) x (builtin_error_templates a)
  (snapshot_revision a) (snapshot_cursor a) (snapshot_remote_cursor a) (snapshot_events_apply_total a)
  (snapshot_events_cursor_gone_total a) (route_notifications a).
Definition set_builtin x a := mkAppState (router a) (outbound_proxy_runtime a)
  (claude_code_routing_settings a) (ai_error_learning_settings a) (approved_upstream_error_templates a) x
  (snapshot_revision a) (snapshot_cursor a) (snapshot_remote_cursor a) (snapshot_events_apply_total a)
  (snapshot_events_cursor_gone_total a) (route_notifications a).
Definition set_position revision cursor remote a := mkAppState (router a) (outbound_proxy_runtime a)
  (claude_code_routing_settings a) (ai_error_learning_settings a) (approved_upstream_error_templates a)
  (builtin_error_templates a) revision cursor remote (snapshot_events_apply_total a)
  (snapshot_events_cursor_gone_total a) (route_notifications a).
Definition set_totals applied gone a := mkAppState (router a) (outbound_proxy_runtime a)
  (claude_code_routing_settings a) (ai_error_learning_settings a) (approved_upstream_error_templates a)
  (builtin_error_templates a) (snapshot_revision a) (snapshot_cursor a) (snapshot_remote_cursor a)
  applied gone (route_notifications a).
Definition notify a := mkAppState (router a) (outbound_proxy_runtime a)
  (claude_code_routing_settings a) (ai_error_learning_settings a) (approved_upstream_error_templates a)
  (builtin_error_templates a) (snapshot_revision a) (snapshot_cursor a) (snapshot_remote_cursor a)
  (snapshot_events_apply_total a) (snapshot_events_cursor_gone_total a) (S (route_notifications a)).

Definition notify_route_updated : AM unit := modify notify.
Definition on_router {A} (m : ST (Timed Router.Router) A) : AM A := zoom router set_router m.
Definition on_proxy {A} (m : ST (Timed OutboundProxy.OutboundProxyRuntime) A) : AM A :=
  zoom outbound_proxy_runtime set_proxy m.

(** [clear] and [extend]: the last template of a key wins. *)
Definition template_map (l : list UpstreamErrorTemplateRecord) :
    gmap string UpstreamErrorTemplateRecord :=
  list_to_map (reverse ((λ t, (uetr_fingerprint t, t)) <$> l)).
Definition builtin_template_map (l : list BuiltinErrorTemplateRecord) :
    gmap string BuiltinErrorTemplateRecord :=
  list_to_map (reverse ((λ t, (builtin_error_template_key (betr_kind t) (betr_code t), t)) <$> l)).

(** ** Full snapshots *)

(** The snapshot is not newer than what is applied. *)
Definition is_stale (snapshot : DataPlaneSnapshot) (a : AppState) : bool :=
  (dps_revision snapshot <? snapshot_revision a)
  || ((dps_revision snapshot =? snapshot_revision a) && (dps_cursor snapshot <=? snapshot_cursor a)).

Definition apply_snapshot (snapshot : DataPlaneSnapshot) : AM unit :=
  stale ← gets (is_stale snapshot);
  if stale : bool then mret tt else
  _ ← on_router (Router.replace_accounts (dps_accounts snapshot));
  _ ← on_router (Router.replace_account_traits (dps_account_traits snapshot));
  _ ← on_router (Router.replace_compiled_routing_plan (dps_compiled_routing_plan snapshot));
  _ ← modify (set_claude (dps_claude_code_routing_settings snapshot));
  _ ← modify (set_learning (dps_ai_error_learning_settings snapshot));
  _ ← modify (set_approved (template_map (dps_approved_upstream_error_templates snapshot)));
  _ ← modify (set_builtin (builtin_template_map (dps_builtin_error_templates snapshot)));
  _ ← on_proxy (OutboundProxy.replace_config (dps_outbound_proxy_pool_settings snapshot)
                  (dps_outbound_proxy_nodes snapshot));
  _ ← modify (set_position (dps_revision snapshot) (dps_cursor snapshot) (dps_cursor snapshot));
  notify_route_updated.

(** ** Events *)

(** [if let Some(x) = field { write(x); routing_changed = true; }]. *)
Definition when_some {A} (o : option A) (m : A → AM unit) : AM bool :=
  match o with
  | Some x => _ ← m x; mret true
  | None => mret false
  end.

Definition apply_proxy_fields (event : DataPlaneSnapshotEvent) : AM bool :=
  match ev_outbound_proxy_pool_settings event with
  | Some settings =>
      nodes ← match ev_outbound_proxy_nodes event with
              | Some nodes => mret nodes
              | None => on_proxy OutboundProxy.current_nodes
              end;
      _ ← on_proxy (OutboundProxy.replace_config settings nodes);
      mret true
  | None =>
      when_some (ev_outbound_proxy_nodes event) (λ nodes,
        settings ← on_proxy OutboundProxy.current_settings;
        on_proxy (OutboundProxy.replace_config settings nodes))
  end.

(** [if event.compiled_routing_plan.is_some() { replace }]. *)
Definition apply_plan_field (event : DataPlaneSnapshotEvent) : AM bool :=
  when_some (ev_compiled_routing_plan event)
    (λ plan, on_router (Router.replace_compiled_routing_plan (Some plan))).

Definition apply_account_fields (event : DataPlaneSnapshotEvent) : AM bool :=
  match ev_event_type event with
  | AccountUpsert =>
      changed ← match ev_account event with
                | Some account => _ ← on_router (Router.upsert_account account); mret true
                | None => on_router (Router.delete_account (ev_account_id event))
                end;
      planned ← apply_plan_field event;
      mret (changed || planned)
  | AccountDelete =>
      changed ← on_router (Router.delete_account (ev_account_id event));
      planned ← apply_plan_field event;
      mret (changed || planned)
  | RoutingPlanRefresh =>
      _ ← on_router (Router.replace_compiled_routing_plan (ev_compiled_routing_plan event));
      mret true
  end.

(** The effect of one event on the state; whether routing changed. *)
Definition apply_event (event : DataPlaneSnapshotEvent) : AM bool :=
  learning ← when_some (ev_ai_error_learning_settings event) (λ s, modify (set_learning s));
  claude ← when_some (ev_claude_code_routing_settings event) (λ s, modify (set_claude s));
  approved ← when_some (ev_approved_upstream_error_templates event)
               (λ l, modify (set_approved (template_map l)));
  builtin ← when_some (ev_builtin_error_templates event)
              (λ l, modify (set_builtin (builtin_template_map l)));
  proxied ← apply_proxy_fields event;
  routed ← apply_account_fields event;
  mret (learning || claude || approved || builtin || proxied || routed).

(** The accumulators of the event loop. *)
Record EventLoop := mkEventLoop {
  max_cursor : Z;
  remote_cursor : Z;
  applied : Z;
  routing_changed : bool;
}.

Fixpoint apply_events (acc : EventLoop) (events : list DataPlaneSnapshotEvent) : AM EventLoop :=
  match events with
  | [] => mret acc
  | event :: events =>
      changed ← apply_event event;
      apply_events
        (mkEventLoop (max_cursor acc `max` ev_id event) (remote_cursor acc `max` ev_id event)
           (u64_saturating_add (applied acc) 1) (routing_changed acc || changed)) events
  end.

Definition apply_snapshot_events (response : DataPlaneSnapshotEventsResponse) : AM Z :=
  acc ← apply_events
          (mkEventLoop (er_cursor response) (er_high_watermark response `max` er_cursor response)
             0 false) (er_events response);
  _ ← (if 0 <? applied acc
       then modify (λ a, set_totals (u64_wrap (snapshot_events_apply_total a + applied acc))
                           (snapshot_events_cursor_gone_total a) a)
       else mret tt);
  current ← gets snapshot_cursor;
  _ ← (if current <? max_cursor acc
       then modify (λ a, set_position (snapshot_revision a) (max_cursor acc) (snapshot_remote_cursor a) a)
       else mret tt);
  remote ← gets snapshot_remote_cursor;
  _ ← (if remote <? remote_cursor acc
       then modify (λ a, set_position (snapshot_revision a) (snapshot_cursor a) (remote_cursor acc) a)
       else mret tt);
  _ ← (if routing_changed acc then notify_route_updated else mret tt);
  gets snapshot_cursor.

(** ** The poller *)

(** [parse_u64_env] and [parse_u32_env], given the variable's value. *)
Definition parse_u64_env (value : option string) (default_ min max : Z) : Z :=
  clamp min max (default default_ (value ≫= parse_unsigned u64_max)).
Definition parse_u32_env (value : option string) (default_ min max : Z) : Z :=
  clamp min max (default default_ (value ≫= parse_unsigned (2 ^ 32 - 1))).

(** [String::truncate] panics inside a character: [None]. *)
Definition truncate_body (body : string) : option string := string_truncate body 200.

Record SnapshotPoller := mkSnapshotPoller {
  control_plane_base_url : string;
  retry_interval : Duration;
  events_wait_ms : Z;
  events_limit : Z;
}.

(** [SnapshotPoller::from_env], given the environment. *)
Definition from_env (env : string → option string) : option SnapshotPoller :=
  base ← env "CONTROL_PLANE_BASE_URL";
  Some (mkSnapshotPoller base
          (from_millis (parse_u64_env (env "SNAPSHOT_POLL_INTERVAL_MS") 1000 20 10000))
          (parse_u64_env (env "SNAPSHOT_EVENTS_WAIT_MS") 30000 0 60000)
          (parse_u32_env (env "SNAPSHOT_EVENTS_LIMIT") 500 1 5000)).

Definition snapshot_url (p : SnapshotPoller) : string :=
  trim_end_slashes (control_plane_base_url p) +:+ "/api/v1/data-plane/snapshot".
Definition events_url (p : SnapshotPoller) : string :=
  trim_end_slashes (control_plane_base_url p) +:+ "/api/v1/data-plane/snapshot/events".
Definition request_url (p : SnapshotPoller) (after : Z) : string :=
  events_url p +:+ "?after=" +:+ decimal after +:+ "&limit=" +:+ decimal (events_limit p)
  +:+ "&wait_ms=" +:+ decimal (events_wait_ms p).

(** The answer to an events request: a status with the text of the body and what
    it decodes to, or no answer. *)
Inductive EventsReply :=
  | NoReply
  | Reply (status : Z) (text : string) (payload : option DataPlaneSnapshotEventsResponse).

(** The control plane: [GET] of a full snapshot (decoded, or an error) and of the
    events at a URL. *)
Class ControlPlane (W : Type) := {
  get_snapshot : string → ST (Timed W) (option DataPlaneSnapshot);
  get_events : string → ST (Timed W) EventsReply;
}.

Record World (W : Type) := mkWorld { app : AppState; control_plane : W }.
Arguments mkWorld {_} _ _.
Arguments app {_} _.
Arguments control_plane {_} _.

Inductive PollEvents := PollOk (cursor : Z) | CursorGone | PollOther | PollPanic.

(** The outcome of one turn of the loop of [run]: the next cursor and whether the
    task slept before the next turn, or the end of the task by a panic. *)
Inductive Turn := Next (cursor : Z) (slept : bool) | Panicked.

Section poller.
Context {W : Type} `{ControlPlane W} (p : SnapshotPoller).

Definition on_app {A} (m : AM A) : ST (Timed (World W)) A :=
  zoom app (λ a w, mkWorld a (control_plane w)) m.
Definition on_network {A} (m : ST (Timed W) A) : ST (Timed (World W)) A :=
  zoom control_plane (λ n w, mkWorld (app w) n) m.

Definition fetch_full_snapshot : ST (Timed (World W)) (option Z) :=
  r ← on_network (get_snapshot (snapshot_url p));
  match r with
  | None => mret None
  | Some snapshot =>
      _ ← on_app (apply_snapshot snapshot);
      cursor ← on_app (gets snapshot_cursor);
      mret (Some cursor)
  end.

Definition poll_events_once (after : Z) : ST (Timed (World W)) PollEvents :=
  r ← on_network (get_events (request_url p after));
  match r with
  | NoReply => mret PollOther
  | Reply status text payload =>
      if status =? 410 then mret CursorGone
      else if negb ((200 <=? status) && (status <? 300)) then
        mret match truncate_body text with Some _ => PollOther | None => PollPanic end
      else match payload with
           | None => mret PollOther
           | Some response =>
               next_cursor ← on_app (apply_snapshot_events response);
               mret (PollOk (next_cursor `max` after))
           end
  end.

Definition poll_turn (cursor : Z) : ST (Timed (World W)) Turn :=
  r ← poll_events_once cursor;
  match r with
  | PollOk next => mret (Next next false)
  | CursorGone =>
      _ ← on_app (modify (λ a, set_totals (snapshot_events_apply_total a)
                                 (u64_wrap (snapshot_events_cursor_gone_total a + 1)) a));
      next ← fetch_full_snapshot;
      match next with
      | Some next => mret (Next next false)
      | None => mret (Next cursor true)
      end
  | PollOther => mret (Next cursor true)
  | PollPanic => mret Panicked
  end.

(** One turn of [run]. *)
Definition run_turn (cursor : Z) : ST (Timed (World W)) Turn :=
  if cursor =? 0 then
    loaded ← fetch_full_snapshot;
    match loaded with
    | Some cursor => poll_turn cursor
    | None => mret (Next cursor true)
    end
  else poll_turn cursor.
End poller.
