(* ===== verification/SnapshotFacts.v ===== *)
(** * Properties of configuration sync

    The specification is [Config]: the configuration as a plain value, with the
    account pool as a map, and [config_event], the effect of one event on it. The
    data plane refines it: a newer snapshot sets the configuration, a batch of
    events folds [config_event] over it, whatever the batches are. *)
From S2P Require Import Prelude RustStr CoreModel Router RouterFacts RouterInv RouterStep.
From S2P Require Import OutboundProxy OutboundProxyFacts Snapshot.

#[local] Open Scope string_scope.
#[local] Open Scope list_scope.
#[local] Open Scope Z_scope.

(** ** The specification *)

Record Config := mkConfig {
  cfg_pool : gmap Uuid UpstreamAccount;
  cfg_plan : option CompiledRoutingPlan;
  cfg_claude : ClaudeCodeRoutingSettings;
  cfg_learning : AiErrorLearningSettings;
  cfg_approved : gmap string UpstreamErrorTemplateRecord;
  cfg_builtin : gmap string BuiltinErrorTemplateRecord;
  cfg_proxy : OutboundProxyPoolSettings;
  cfg_nodes : list OutboundProxyNode;
}.

Definition pool_of (l : list UpstreamAccount) : gmap Uuid UpstreamAccount :=
  list_to_map ((λ a, (ua_id a, a)) <$> l).

Definition pool_event (e : DataPlaneSnapshotEvent) (m : gmap Uuid UpstreamAccount) :
    gmap Uuid UpstreamAccount :=
  match ev_event_type e, ev_account e with
  | AccountUpsert, Some a => <[ua_id a := a]> m
  | AccountUpsert, None | AccountDelete, _ => delete (ev_account_id e) m
  | RoutingPlanRefresh, _ => m
  end.

Definition plan_event (e : DataPlaneSnapshotEvent) (p : option CompiledRoutingPlan) :
    option CompiledRoutingPlan :=
  match ev_event_type e, ev_compiled_routing_plan e with
  | RoutingPlanRefresh, new_plan => new_plan
  | _, Some new_plan => Some new_plan
  | _, None => p
  end.

Definition config_event (e : DataPlaneSnapshotEvent) (c : Config) : Config :=
  mkConfig (pool_event e (cfg_pool c)) (plan_event e (cfg_plan c))
    (default (cfg_claude c) (ev_claude_code_routing_settings e))
    (default (cfg_learning c) (ev_ai_error_learning_settings e))
    (default (cfg_approved c) (template_map <$> ev_approved_upstream_error_templates e))
    (default (cfg_builtin c) (builtin_template_map <$> ev_builtin_error_templates e))
    (default (cfg_proxy c) (ev_outbound_proxy_pool_settings e))
    (default (cfg_nodes c) (ev_outbound_proxy_nodes e)).

Definition config_events (l : list DataPlaneSnapshotEvent) (c : Config) : Config :=
  fold_left (λ c e, config_event e c) l c.

Definition config_snapshot (s : DataPlaneSnapshot) : Config :=
  mkConfig (pool_of (dps_accounts s)) (dps_compiled_routing_plan s)
    (dps_claude_code_routing_settings s) (dps_ai_error_learning_settings s)
    (template_map (dps_approved_upstream_error_templates s))
    (builtin_template_map (dps_builtin_error_templates s))
    (dps_outbound_proxy_pool_settings s) (dps_outbound_proxy_nodes s).

(** The configuration a data plane runs with. *)
Definition config_of (a : AppState) : Config :=
  mkConfig (pool_of (accounts (router a))) (compiled_routing_plan (router a))
    (claude_code_routing_settings a) (ai_error_learning_settings a)
    (approved_upstream_error_templates a) (builtin_error_templates a)
    (settings (outbound_proxy_runtime a)) (nodes (outbound_proxy_runtime a)).

(** ** The pool as a map *)

Lemma pool_of_lookup l id a :
  NoDup (ua_id <$> l) → pool_of l !! id = Some a ↔ a ∈ l ∧ ua_id a = id.
Proof.
  intros Hnd. unfold pool_of. rewrite <-elem_of_list_to_map.
  - rewrite list_elem_of_fmap. naive_solver.
  - by rewrite <-list_fmap_compose.
Qed.

Lemma elem_of_upserted a b l :
  NoDup (ua_id <$> l) → b ∈ upserted a l ↔ b = a ∨ (b ∈ l ∧ ua_id b ≠ ua_id a).
Proof.
  unfold upserted. induction l as [|x l IH]; intros Hnd; simpl.
  { rewrite list_elem_of_singleton. set_solver. }
  apply list.NoDup_cons in Hnd as [Hx Hnd]. specialize (IH Hnd).
  assert (Hother : ∀ y, y ∈ l → ua_id y ≠ ua_id x).
  { intros y Hy Heq. apply Hx. rewrite <-Heq. by apply list_elem_of_fmap_2. }
  case_bool_decide as Hid.
  - simpl. rewrite !elem_of_cons. split.
    + intros [->|Hb]; [by left|right]. split; [by right|]. rewrite <-Hid. by apply Hother.
    + intros [->|[[->|Hb] Hne]]; [by left|done|by right].
  - destruct (replace_first a l) as [l'|]; simpl in *; rewrite ?elem_of_cons, ?elem_of_app in *;
      rewrite IH; naive_solver.
Qed.

Lemma pool_of_upserted a l :
  NoDup (ua_id <$> l) → pool_of (upserted a l) = <[ua_id a := a]> (pool_of l).
Proof.
  intros Hnd. apply map_eq. intros id. apply option_eq. intros b.
  rewrite pool_of_lookup by (by apply upserted_NoDup).
  rewrite elem_of_upserted, lookup_insert_Some, pool_of_lookup by done. naive_solver.
Qed.

Lemma pool_of_filter id l :
  NoDup (ua_id <$> l) → pool_of (filter (λ a, ua_id a ≠ id) l) = delete id (pool_of l).
Proof.
  intros Hnd. apply map_eq. intros j. apply option_eq. intros b.
  rewrite pool_of_lookup by (by apply NoDup_ids_filter).
  rewrite list_elem_of_filter, lookup_delete_Some, pool_of_lookup by done. naive_solver.
Qed.

(** ** Router updates, as the configuration sees them *)

Section router_updates.
Implicit Types w : Timed Router.

(** The rest of the configuration in the router is untouched. *)
Lemma upsert_account_pool a w :
  wp (upsert_account a) (λ _ w', accounts (st w') = upserted a (accounts (st w)) ∧
    compiled_routing_plan (st w') = compiled_routing_plan (st w)) w.
Proof.
  unfold upsert_account, upserted, forget_account. wp_step. wp_step.
  destruct (replace_first a (accounts (st w))); by wp_go.
Qed.

Lemma delete_account_pool id w :
  wp (delete_account id) (λ _ w', accounts (st w') = filter (λ a, ua_id a ≠ id) (accounts (st w)) ∧
    compiled_routing_plan (st w') = compiled_routing_plan (st w)) w.
Proof. unfold delete_account, forget_account. by wp_go. Qed.
End router_updates.

(** ** The state between calls *)

Section sync.
Context `{Clock}.
Implicit Types w : Timed AppState.

Definition router_view w : Timed Router := mkTimed (router (st w)) (ticks w).

(** Where the data plane is in the control plane's history, and its counters. *)
Definition position (a : AppState) : Z * Z * Z * Z * Z * nat :=
  (snapshot_revision a, snapshot_cursor a, snapshot_remote_cursor a,
   snapshot_events_apply_total a, snapshot_events_cursor_gone_total a, route_notifications a).

(** From [w] to [w'] the configuration became [c]; the position is untouched and
    the router keeps its invariant. *)
Definition configured (c : Config) w w' : Prop :=
  config_of (st w') = c ∧ position (st w') = position (st w) ∧ router_inv 0 (router_view w').

Lemma wp_when_some {A} (o : option A) (f : A → AppState → AppState) (get : AppState → A) Q w :
  (∀ a, f (get a) a = a) →
  (∀ b, Q b (mkTimed (f (default (get (st w)) o) (st w)) (ticks w))) →
  wp (when_some o (λ x, modify (f x))) Q w.
Proof.
  intros Heta HQ. destruct o as [x|]; simpl in *; wp_go; [done|]. rewrite Heta in HQ.
  by destruct w.
Qed.

Lemma when_some_fmap {A B} (o : option A) (g : A → B) (m : B → AM unit) :
  when_some o (λ x, m (g x)) = when_some (g <$> o) m.
Proof. by destruct o. Qed.

Lemma apply_proxy_fields_spec e w :
  router_inv 0 (router_view w) →
  wp (apply_proxy_fields e) (λ _ w', ∃ p,
    st w' = set_proxy p (st w) ∧ ticks w' = ticks w ∧
    settings p = default (settings (outbound_proxy_runtime (st w))) (ev_outbound_proxy_pool_settings e) ∧
    nodes p = default (nodes (outbound_proxy_runtime (st w))) (ev_outbound_proxy_nodes e)) w.
Proof.
  intros Hinv. unfold apply_proxy_fields, when_some, on_proxy, replace_config, current_nodes, current_settings.
  destruct (ev_outbound_proxy_pool_settings e), (ev_outbound_proxy_nodes e); wp_go; simpl.
  1-3: by eexists.
  exists (outbound_proxy_runtime (st w)). by destruct w as [[] ?].
Qed.

(** An update of the router that does to the pool and the plan what the event
    says. *)
Definition rerouted e w w' : Prop := ∃ r,
  st w' = set_router r (st w) ∧ router_inv 0 (mkTimed r (ticks w')) ∧
  pool_of (accounts r) = pool_event e (pool_of (accounts (router (st w)))) ∧
  compiled_routing_plan r = plan_event e (compiled_routing_plan (router (st w))).

Lemma wp_on_router {A} (m : ST (Timed Router) A) P Q w :
  keeps m → wp m P (router_view w) → router_inv 0 (router_view w) →
  (∀ x r n, P x (mkTimed r n) → router_inv 0 (mkTimed r n) →
     Q x (mkTimed (set_router r (st w)) n)) →
  wp (on_router m) Q w.
Proof.
  intros Hk Hm Hinv HQ. unfold on_router. wp_step.
  eapply wp_mono; [apply wp_and; [exact Hm|by apply Hk]|]. intros x [r n] [HP Hr]. by apply HQ.
Qed.

Lemma apply_plan_field_spec e w :
  router_inv 0 (router_view w) →
  wp (apply_plan_field e) (λ _ w', ∃ r, st w' = set_router r (st w) ∧
    router_inv 0 (mkTimed r (ticks w')) ∧ accounts r = accounts (router (st w)) ∧
    compiled_routing_plan r
      = match ev_compiled_routing_plan e with
        | Some p => Some p
        | None => compiled_routing_plan (router (st w))
        end) w.
Proof.
  intros Hinv. unfold apply_plan_field, when_some. destruct (ev_compiled_routing_plan e) as [p|].
  - wp_step. eapply (wp_on_router _ (λ _ v, st v = set_plan (Some p) (router (st w)))); [|done|done|].
    + intros d v Hv. by apply inv_set_plan.
    + intros ? r n Hst Hr. simpl in Hst. subst r. wp_step. eexists. split_and!; [done|done|done|done].
  - wp_step. exists (router (st w)). split_and!; [by destruct w as [[] ?]|done|done|done].
Qed.

(** The account part of an event, before its plan is applied. *)
Definition repooled e w w' : Prop := ∃ r,
  st w' = set_router r (st w) ∧ router_inv 0 (mkTimed r (ticks w')) ∧
  pool_of (accounts r) = pool_event e (pool_of (accounts (router (st w)))) ∧
  compiled_routing_plan r = compiled_routing_plan (router (st w)).

Lemma upsert_repools e a w :
  ev_event_type e = AccountUpsert → ev_account e = Some a → router_inv 0 (router_view w) →
  wp (on_router (upsert_account a)) (λ _, repooled e w) w.
Proof.
  intros He Ha Hinv.
  eapply wp_on_router; [apply keeps_upsert_account|apply upsert_account_pool|done|].
  simpl. intros _ r n [Hacc Hplan] Hr. exists r. split_and!; [done|done| |done].
  unfold pool_event. rewrite Hacc, He, Ha. apply pool_of_upserted, (inv_nodup _ _ Hinv).
Qed.

Lemma delete_repools e w :
  ev_event_type e = AccountDelete ∨ (ev_event_type e = AccountUpsert ∧ ev_account e = None) →
  router_inv 0 (router_view w) →
  wp (on_router (delete_account (ev_account_id e))) (λ _, repooled e w) w.
Proof.
  intros He Hinv.
  eapply wp_on_router; [apply keeps_delete_account|apply delete_account_pool|done|].
  simpl. intros _ r n [Hacc Hplan] Hr. exists r. split_and!; [done|done| |done].
  assert (Hev : pool_event e (pool_of (accounts (router (st w))))
                = delete (ev_account_id e) (pool_of (accounts (router (st w))))).
  { unfold pool_event. destruct He as [->|[-> ->]]; done. }
  rewrite Hacc, Hev. apply pool_of_filter, (inv_nodup _ _ Hinv).
Qed.

Lemma plan_after_repool e w w1 :
  ev_event_type e ≠ RoutingPlanRefresh → repooled e w w1 →
  wp (apply_plan_field e) (λ _, rerouted e w) w1.
Proof.
  intros He (r1 & Hst1 & Hinv1 & Hpool1 & Hplan1).
  eapply wp_mono; [apply apply_plan_field_spec; unfold router_view; by rewrite Hst1|].
  simpl. intros _ w2 (r2 & Hst2 & Hinv2 & Hacc2 & Hplan2). rewrite Hst1 in *. simpl in *.
  exists r2. split_and!; [done|done|congruence|]. rewrite Hplan2, Hplan1. unfold plan_event.
  by destruct (ev_event_type e), (ev_compiled_routing_plan e).
Qed.

Lemma apply_account_fields_spec e w :
  router_inv 0 (router_view w) → wp (apply_account_fields e) (λ _, rerouted e w) w.
Proof.
  intros Hinv. unfold apply_account_fields. destruct (ev_event_type e) eqn:He.
  - wp_step. apply (wp_mono _ (λ _, repooled e w)).
    + destruct (ev_account e) as [a|] eqn:Ha; [|apply delete_repools; auto].
      wp_step. eapply wp_mono; [by apply upsert_repools|]. intros u w1 Hw1. by wp_step.
    + intros b w1 Hw1. wp_step. eapply wp_mono; [apply plan_after_repool; [by rewrite He|exact Hw1]|].
      intros ? ? ?. by wp_step.
  - wp_step. eapply wp_mono; [apply delete_repools; auto|]. intros b w1 Hw1. wp_step.
    eapply wp_mono; [apply plan_after_repool; [by rewrite He|exact Hw1]|]. intros ? ? ?. by wp_step.
  - wp_step.
    eapply (wp_on_router _ (λ _ v, st v = set_plan (ev_compiled_routing_plan e) (router (st w)))); [|done|done|].
    + intros d v Hv. by apply inv_set_plan.
    + intros ? r n Hst Hr. simpl in Hst. subst r. wp_step. eexists.
      split_and!; [done|done|unfold pool_event; by rewrite He|unfold plan_event; by rewrite He].
Qed.

Lemma apply_event_spec e w :
  router_inv 0 (router_view w) →
  wp (apply_event e) (λ _, configured (config_event e (config_of (st w))) w) w.
Proof.
  intros Hinv. unfold apply_event.
  rewrite (when_some_fmap _ template_map (λ l, modify (set_approved l))).
  rewrite (when_some_fmap _ builtin_template_map (λ l, modify (set_builtin l))).
  wp_step. apply (wp_when_some _ _ ai_error_learning_settings); [by intros []|intros b1].
  wp_step. apply (wp_when_some _ _ claude_code_routing_settings); [by intros []|intros b2].
  wp_step. apply (wp_when_some _ _ approved_upstream_error_templates); [by intros []|intros b3].
  wp_step. apply (wp_when_some _ _ builtin_error_templates); [by intros []|intros b4].
  wp_step. eapply wp_mono; [by apply apply_proxy_fields_spec|].
  intros b5 w5 (p & Hst5 & Ht5 & Hset & Hnodes). wp_step.
  eapply wp_mono.
  { apply apply_account_fields_spec. unfold router_view. rewrite Hst5, Ht5. exact Hinv. }
  intros b6 w6 (r & Hst6 & Hinv6 & Hpool & Hplan). wp_step. unfold configured, router_view.
  rewrite Hst6, Hst5 in *. simpl in *. split_and!; [|done|done].
  unfold config_of, config_event. simpl. by rewrite Hpool, Hplan, Hset, Hnodes.
Qed.

Lemma configured_trans c1 c2 w1 w2 w3 :
  configured c1 w1 w2 → configured c2 w2 w3 → configured c2 w1 w3.
Proof. intros (_ & Hp & _) (Hc & Hp' & Hi). split_and!; [done|congruence|done]. Qed.

Lemma apply_events_spec acc l w :
  router_inv 0 (router_view w) →
  wp (apply_events acc l) (λ acc' w', configured (config_events l (config_of (st w))) w w' ∧
    max_cursor acc' = fold_left Z.max (ev_id <$> l) (max_cursor acc) ∧
    remote_cursor acc' = fold_left Z.max (ev_id <$> l) (remote_cursor acc)) w.
Proof.
  revert acc w. induction l as [|e l IH]; intros acc w Hinv; simpl.
  { apply wp_ret. by split_and!. }
  wp_step. eapply wp_mono; [by apply apply_event_spec|]. intros b w1 Hw1.
  pose proof Hw1 as (Hc & _ & Hinv1). eapply wp_mono; [by apply IH|].
  simpl. intros acc' w2 (Hw2 & Hm & Hr). split_and!; [|done|done].
  rewrite Hc in Hw2. exact (configured_trans _ _ _ _ _ Hw1 Hw2).
Qed.

(** The cursor after a response. *)
Definition next_cursor (r : DataPlaneSnapshotEventsResponse) (cursor : Z) : Z :=
  cursor `max` fold_left Z.max (ev_id <$> er_events r) (er_cursor r).

Lemma apply_snapshot_events_spec r w :
  router_inv 0 (router_view w) →
  wp (apply_snapshot_events r) (λ c w', c = next_cursor r (snapshot_cursor (st w)) ∧
    config_of (st w') = config_events (er_events r) (config_of (st w)) ∧
    router_inv 0 (router_view w') ∧ snapshot_cursor (st w') = c ∧
    snapshot_revision (st w') = snapshot_revision (st w)) w.
Proof.
  intros Hinv. unfold apply_snapshot_events. wp_step.
  eapply wp_mono; [by apply apply_events_spec|]. simpl.
  intros acc w1 ((Hc & Hpos & Hinv1) & Hmax & _). unfold position in Hpos. simplify_eq/=.
  unfold notify_route_updated. unfold next_cursor. rewrite <-Hmax.
  wp_go; simpl in *; (split_and!; [lia|done|done|lia|done]).
Qed.

Lemma apply_snapshot_stale s w : is_stale s (st w) = true → apply_snapshot s w = (tt, w).
Proof. intros Hs. unfold apply_snapshot, mbind, st_bind, gets. simpl. by rewrite Hs. Qed.

Lemma apply_snapshot_spec s w :
  is_stale s (st w) = false → NoDup (ua_id <$> dps_accounts s) → router_inv 0 (router_view w) →
  wp (apply_snapshot s) (λ _ w', config_of (st w') = config_snapshot s ∧
    router_inv 0 (router_view w') ∧
    snapshot_revision (st w') = dps_revision s ∧ snapshot_cursor (st w') = dps_cursor s ∧
    snapshot_remote_cursor (st w') = dps_cursor s) w.
Proof.
  intros Hs Hnd Hinv. unfold apply_snapshot. wp_step. wp_step. rewrite Hs. wp_step.
  eapply (wp_on_router _ (λ _ v, accounts (st v) = dps_accounts s));
    [by apply keeps_replace_accounts|unfold replace_accounts; by wp_go|done|].
  intros ? r1 n1 Hacc1 Hinv1. wp_step.
  eapply (wp_on_router _ (λ _ v, accounts (st v) = dps_accounts s));
    [apply keeps_replace_account_traits|unfold replace_account_traits; by wp_go|done|].
  intros ? r2 n2 Hacc2 Hinv2. wp_step.
  eapply (wp_on_router _ (λ _ v, accounts (st v) = dps_accounts s ∧
    compiled_routing_plan (st v) = dps_compiled_routing_plan s)); [|done|done|].
  { intros d v Hv. by apply inv_set_plan. }
  intros ? r3 n3 [Hacc3 Hplan3] Hinv3. unfold on_proxy, replace_config, notify_route_updated. wp_go.
  simpl in *. split_and!; [|done|done|done|done].
  unfold config_of, config_snapshot. simpl. by rewrite Hacc3, Hplan3.
Qed.
End sync.

(** ** Claims *)

Section claims.
Context `{Clock}.
Implicit Types w : Timed AppState.

(** A snapshot that is not newer, by revision and then by cursor, changes
    nothing; a newer one makes the configuration its own, in full, and moves
    the data plane to its revision and cursor. *)
Theorem apply_snapshot_installs_newer s w :
  NoDup (ua_id <$> dps_accounts s) → router_inv 0 (router_view w) →
  wp (apply_snapshot s) (λ _ w', router_inv 0 (router_view w') ∧
    if is_stale s (st w) then w' = w
    else config_of (st w') = config_snapshot s ∧ snapshot_revision (st w') = dps_revision s ∧
         snapshot_cursor (st w') = dps_cursor s ∧ snapshot_remote_cursor (st w') = dps_cursor s) w.
Proof.
  intros Hnd Hinv. destruct (is_stale s (st w)) eqn:Hs.
  - unfold wp. by rewrite (apply_snapshot_stale _ _ Hs).
  - wp_use apply_snapshot_spec as ? w' (? & ? & ? & ? & ?); done.
Qed.

(** C22: refinement. Applying a response changes the configuration by the events
    in their order, an upsert inserting in the pool, a delete (or an upsert
    without an account) removing from it; the router keeps its invariant and
    the cursor moves to the largest event seen, never back. *)
Theorem apply_snapshot_events_refines r w :
  router_inv 0 (router_view w) →
  wp (apply_snapshot_events r) (λ c w',
    config_of (st w') = config_events (er_events r) (config_of (st w)) ∧
    router_inv 0 (router_view w') ∧
    c = snapshot_cursor (st w') ∧ c = next_cursor r (snapshot_cursor (st w)) ∧
    snapshot_cursor (st w) <= c ∧ ∀ e, e ∈ er_events r → ev_id e <= c) w.
Proof.
  intros Hinv. wp_use apply_snapshot_events_spec as c w' (-> & Hc & Hi & Hcur & _); [done|].
  split_and!; [done|done|done|done|unfold next_cursor; lia|].
  intros e He. unfold next_cursor.
  assert (Hfold : ∀ l z, z <= fold_left Z.max l z ∧ ∀ x, x ∈ l → x <= fold_left Z.max l z).
  { induction l as [|y l IH]; intros z; simpl; [split; [lia|by intros ? ?%not_elem_of_nil]|].
    destruct (IH (z `max` y)) as [Hz Hl]. split; [lia|].
    intros x [->|Hx]%elem_of_cons; [lia|by apply Hl]. }
  destruct (Hfold (ev_id <$> er_events r) (er_cursor r)) as [_ Hl].
  specialize (Hl (ev_id e) (list_elem_of_fmap_2 _ _ _ He)). lia.
Qed.


(** The two kinds of update the data plane receives. *)
Inductive sync_step : relation (Timed AppState) :=
  | sync_snapshot s w : NoDup (ua_id <$> dps_accounts s) → sync_step w (apply_snapshot s w).2
  | sync_events r w : sync_step w (apply_snapshot_events r w).2.

(** The data plane never goes back in the control plane's history: along any
    sequence of updates the revision and then the cursor only grow, and the
    router keeps its invariant. *)
Theorem sync_position_monotone w w' :
  router_inv 0 (router_view w) → rtc sync_step w w' →
  router_inv 0 (router_view w') ∧
  (snapshot_revision (st w) < snapshot_revision (st w') ∨
   (snapshot_revision (st w) = snapshot_revision (st w') ∧
    snapshot_cursor (st w) <= snapshot_cursor (st w'))).
Proof.
  intros Hinv Hst. induction Hst as [w|w1 w2 w3 Hstep _ IH]; [split; [done|right; lia]|].
  destruct Hstep as [s w1 Hnd|r w1].
  - destruct (wp_run _ _ _ _ _ (apply_snapshot_installs_newer s w1 Hnd Hinv)
                (surjective_pairing _)) as [Hinv2 Hpos].
    destruct (IH Hinv2) as [Hinv3 Hmono]. split; [done|].
    destruct (is_stale s (st w1)) eqn:Hs; [by rewrite Hpos in Hmono|].
    destruct Hpos as (_ & Hrev & Hcur & _). rewrite Hrev, Hcur in Hmono.
    unfold is_stale in Hs. apply orb_false_iff in Hs as [Hlt Hle].
    apply Z.ltb_ge in Hlt. apply andb_false_iff in Hle. rewrite Z.eqb_neq, Z.leb_gt in Hle. lia.
  - destruct (wp_run _ _ _ _ _ (apply_snapshot_events_spec r w1 Hinv)
                (surjective_pairing _)) as (Hc & _ & Hinv2 & Hcur & Hrev).
    destruct (IH Hinv2) as [Hinv3 Hmono]. split; [done|].
    rewrite Hrev, Hcur, Hc in Hmono. unfold next_cursor in Hmono. lia.
Qed.
End claims.

(** ** The poller *)

Lemma inv_later `{Clock} d r n m :
  router_inv d (mkTimed r n) → (n ≤ m)%nat → router_inv d (mkTimed r m).
Proof. intros Hinv. induction 1 as [|m _ IH]; [done|]. by apply (inv_tick d (mkTimed r m)). Qed.

Section poller.
Context `{Clock} {W : Type} `{ControlPlane W} (p : SnapshotPoller).
Implicit Types w : Timed (World W).

Definition app_view w : Timed AppState := mkTimed (app (st w)) (ticks w).

(** Settings read from the environment are within their bounds whatever the
    variables hold; the poller exists when the control plane's URL is set. *)
Lemma poller_settings_bounded env :
  match from_env env with
  | Some q => env "CONTROL_PLANE_BASE_URL" = Some (control_plane_base_url q) ∧
              from_millis 20 <= retry_interval q <= from_millis 10000 ∧
              0 <= events_wait_ms q <= 60000 ∧ 1 <= events_limit q <= 5000
  | None => env "CONTROL_PLANE_BASE_URL" = None
  end.
Proof.
  unfold from_env. destruct (env "CONTROL_PLANE_BASE_URL") as [url|]; [|done]. simpl.
  unfold parse_u64_env, parse_u32_env.
  set (a := default 1000 _). set (b := default 30000 _). set (c := default 500 _).
  pose proof (clamp_bounds 20 10000 a). pose proof (clamp_bounds 0 60000 b).
  pose proof (clamp_bounds 1 5000 c). unfold from_millis. split_and!; [done|lia..].
Qed.

(** When the control plane reports the cursor gone and a full snapshot can be
    fetched, the same turn loads it: the configuration and the cursor become
    the snapshot's and the loop goes on without sleeping. *)
Theorem cursor_gone_reloads_snapshot cursor s text payload w :
  cursor ≠ 0 → router_inv 0 (router_view (app_view w)) → NoDup (ua_id <$> dps_accounts s) →
  (∀ v : Timed W, wp (get_events (request_url p cursor)) (λ r v', r = Reply 410 text payload ∧
     (ticks v ≤ ticks v')%nat) v) →
  (∀ v : Timed W, wp (get_snapshot (snapshot_url p)) (λ r v', r = Some s ∧
     (ticks v ≤ ticks v')%nat) v) →
  is_stale s (app (st w)) = false →
  wp (run_turn p cursor) (λ t w', t = Next (dps_cursor s) false ∧
    config_of (app (st w')) = config_snapshot s ∧ snapshot_cursor (app (st w')) = dps_cursor s) w.
Proof.
  intros Hc Hinv Hnd Hev Hsnap Hstale. unfold run_turn.
  destruct (Z.eqb_spec cursor 0); [done|].
  unfold poll_turn, poll_events_once, fetch_full_snapshot, on_network, on_app. do 3 wp_step.
  wp_use Hev as r v [-> Ht]. simpl. do 7 wp_step.
  wp_use Hsnap as r v' [-> Ht']. simpl in *. wp_step. wp_step.
  eapply wp_mono.
  { apply apply_snapshot_spec; [done|done|]. simpl. eapply inv_later; [exact Hinv|simpl; lia]. }
  simpl. intros ? w1 (Hcfg & _ & _ & Hcur & _). wp_go. simpl. by rewrite Hcur.
Qed.

(** An error status whose body has a character across byte 200 ends the
    polling task: truncating the body panics. *)
Theorem long_error_body_kills_poller cursor status text payload w :
  cursor ≠ 0 → status ≠ 410 → ¬ (200 <= status < 300) → truncate_body text = None →
  (∀ v : Timed W, wp (get_events (request_url p cursor)) (λ r _, r = Reply status text payload) v) →
  wp (run_turn p cursor) (λ t _, t = Panicked) w.
Proof.
  intros Hc H410 Hok Htrunc Hev. unfold run_turn. destruct (Z.eqb_spec cursor 0); [done|].
  unfold poll_turn, poll_events_once, on_network. do 3 wp_step. wp_use Hev as r v ->.
  destruct (Z.eqb_spec status 410); [done|].
  destruct (Z.leb_spec 200 status), (Z.ltb_spec status 300); simpl; try lia.
  all: rewrite Htrunc; by wp_go.
Qed.
End poller.

(** ** Witnesses *)

Module Witness.
#[local] Existing Instance unit_clock.

Definition account (id : Uuid) : UpstreamAccount :=
  mkUpstreamAccount id "a" CodexOauth "" "" None true 1 0.
Definition pool_settings : OutboundProxyPoolSettings := OutboundProxyPoolSettings_default 0.
Definition snapshot (rev cur : Z) (l : list UpstreamAccount) : DataPlaneSnapshot :=
  mkDataPlaneSnapshot rev cur l [] None (AiErrorLearningSettings_default) [] [] pool_settings []
    (ClaudeCodeRoutingSettings_default 0) 0.
Definition upsert (id : Z) (a : UpstreamAccount) : DataPlaneSnapshotEvent :=
  mkDataPlaneSnapshotEvent id AccountUpsert (ua_id a) (Some a) None None None None None None None 0.
Definition remove (id : Z) (u : Uuid) : DataPlaneSnapshotEvent :=
  mkDataPlaneSnapshotEvent id AccountDelete u None None None None None None None None 0.
Definition batch (l : list DataPlaneSnapshotEvent) : DataPlaneSnapshotEventsResponse :=
  mkDataPlaneSnapshotEventsResponse 0 0 l.
Definition empty_app : AppState :=
  mkAppState (Router.new []) (OutboundProxyRuntime_new None 0) (ClaudeCodeRoutingSettings_default 0)
    AiErrorLearningSettings_default ∅ ∅ 0 0 0 0 0 0.
Definition w0 : Timed AppState := mkTimed empty_app 0.

Lemma w0_inv : router_inv 0 (router_view w0).
Proof. apply new_inv. constructor. Qed.

Lemma nodup_ids l : bool_decide (NoDup (ua_id <$> l)) = true → NoDup (ua_id <$> l).
Proof. apply bool_decide_eq_true. Qed.

Lemma apply_snapshot_installs_newer_witness :
  let s := snapshot 1 5 [account 1; account 2] in
  wp (apply_snapshot s) (λ _ w', router_inv 0 (router_view w') ∧
    config_of (st w') = config_snapshot s ∧ snapshot_revision (st w') = 1 ∧
    snapshot_cursor (st w') = 5 ∧ snapshot_remote_cursor (st w') = 5) w0.
Proof.
  apply (apply_snapshot_installs_newer (snapshot 1 5 [account 1; account 2]) w0).
  - apply nodup_ids. vm_compute. reflexivity.
  - exact w0_inv.
Defined.

Lemma apply_snapshot_events_refines_witness :
  let r := batch [upsert 3 (account 1); remove 4 1] in
  wp (apply_snapshot_events r) (λ c w',
    config_of (st w') = config_events (er_events r) (config_of empty_app) ∧
    router_inv 0 (router_view w') ∧
    c = snapshot_cursor (st w') ∧ c = next_cursor r 0 ∧
    0 <= c ∧ ∀ e, e ∈ er_events r → ev_id e <= c) w0.
Proof.
  apply (apply_snapshot_events_refines (batch [upsert 3 (account 1); remove 4 1]) w0).
  exact w0_inv.
Defined.


Lemma sync_position_monotone_witness :
  let w1 := (apply_snapshot (snapshot 1 5 [account 1]) w0).2 in
  router_inv 0 (router_view w1) ∧
  (0 < snapshot_revision (st w1) ∨
   (0 = snapshot_revision (st w1) ∧ 0 <= snapshot_cursor (st w1))).
Proof.
  apply (sync_position_monotone w0 (apply_snapshot (snapshot 1 5 [account 1]) w0).2).
  - exact w0_inv.
  - eapply rtc_l; [|apply rtc_refl]. apply sync_snapshot.
    apply nodup_ids. vm_compute. reflexivity.
Defined.

(** A control plane that has dropped old events, and one that answers with a
    long page of three-byte characters. *)
Definition gone_plane : ControlPlane unit := {|
  get_snapshot _ := mret (Some (snapshot 2 9 [account 1]));
  get_events _ := mret (Reply 410 "" None);
|}.
Fixpoint euros (n : nat) : string :=
  match n with
  | O => ""
  | S n => String (Ascii.ascii_of_N 226) (String (Ascii.ascii_of_N 130)
             (String (Ascii.ascii_of_N 172) (euros n)))
  end.
Definition failing_plane : ControlPlane unit := {|
  get_snapshot _ := mret None;
  get_events _ := mret (Reply 502 (euros 67) None);
|}.
Definition poller : SnapshotPoller := mkSnapshotPoller "http://cp" (from_millis 1000) 30000 500.
Definition world : Timed (World unit) := mkTimed (mkWorld empty_app tt) 0.

Lemma cursor_gone_reloads_snapshot_witness :
  wp (@run_turn unit gone_plane poller 7) (λ t w', t = Next 9 false ∧
    config_of (app (st w')) = config_snapshot (snapshot 2 9 [account 1]) ∧
    snapshot_cursor (app (st w')) = 9) world.
Proof.
  apply (@cursor_gone_reloads_snapshot _ unit gone_plane poller 7 (snapshot 2 9 [account 1]) "" None).
  - discriminate.
  - exact w0_inv.
  - apply nodup_ids. vm_compute. reflexivity.
  - intros v. split; [reflexivity|simpl; lia].
  - intros v. split; [reflexivity|simpl; lia].
  - reflexivity.
Defined.

Lemma long_error_body_kills_poller_witness :
  wp (@run_turn unit failing_plane poller 7) (λ t _, t = Panicked) world.
Proof.
  apply (@long_error_body_kills_poller unit failing_plane poller 7 502 (euros 67) None).
  - discriminate.
  - discriminate.
  - lia.
  - vm_compute. reflexivity.
  - intros v. reflexivity.
Defined.
End Witness.
