(* ===== verification/UpstreamHealth.v ===== *)
(** * Upstream health signals: [services/data-plane/src/upstream_health.rs]

    The alive ring, a rotating list of healthy accounts that the control plane
    publishes in Redis, and the reporter of successes and failures, which limits
    how often it calls the control plane. The HTTP requests of the reporter are
    the list [sent] of its state, newest first, with the instant of the decision
    to send; whether a request succeeds only affects the log. *)
From S2P Require Import Prelude RustStr CoreModel RoutingCache.

#[local] Open Scope string_scope.
#[local] Open Scope list_scope.
#[local] Open Scope Z_scope.

(** ** The alive ring *)

Class RingServer (W : Type) := {
  ring_connection : ST (Timed W) (result unit string);
  ring_lrange : string → Z → Z → ST (Timed W) (result (list string) string);
}.

Record AliveRingRouter (W : Type) := mkAliveRingRouter {
  ring_server : W;
  ring_key : string;
  fetch_limit : nat;
  candidate_count : nat;
  cache_ttl : Duration;
  account_ids : list Uuid;
  ring_cursor : nat;
  fetched_at : option Instant;
}.
Arguments mkAliveRingRouter {_} _ _ _ _ _ _ _ _.
Arguments ring_server {_} _.
Arguments ring_key {_} _.
Arguments fetch_limit {_} _.
Arguments candidate_count {_} _.
Arguments cache_ttl {_} _.
Arguments account_ids {_} _.
Arguments ring_cursor {_} _.
Arguments fetched_at {_} _.

Definition clamp_nat (lo hi n : nat) : nat :=
  if (n <? lo)%nat then lo else if (hi <? n)%nat then hi else n.

Definition AliveRingRouter_new {W} (server : W) (redis_prefix : string) (limit count : nat)
    (ttl : Duration) : AliveRingRouter W :=
  mkAliveRingRouter server (redis_prefix +:+ ":alive_ring:v1") (clamp_nat 1 (Z.to_nat 50000) limit)
    (clamp_nat 1 (Z.to_nat 5000) count) (ttl `max` from_millis 100) [] 0 None.

Section ring.
Context `{Clock} `{UuidText} {W : Type} `{RingServer W}.

Definition set_ring (ids : list Uuid) (cursor : nat) (fetched : option Instant)
    (r : AliveRingRouter W) : AliveRingRouter W :=
  mkAliveRingRouter (ring_server r) (ring_key r) (fetch_limit r) (candidate_count r) (cache_ttl r)
    ids cursor fetched.

Definition on_ring_server {A} (m : ST (Timed W) A) : ST (Timed (AliveRingRouter W)) A :=
  zoom ring_server (λ s r, mkAliveRingRouter s (ring_key r) (fetch_limit r) (candidate_count r)
                             (cache_ttl r) (account_ids r) (ring_cursor r) (fetched_at r)) m.

(** [fetched_at.elapsed() >= self.cache_ttl]; [elapsed] reads the clock. *)
Definition should_refresh : ST (Timed (AliveRingRouter W)) bool :=
  fetched ← gets fetched_at;
  match fetched with
  | None => mret true
  | Some at_ => t ← now; ttl ← gets cache_ttl; mret (ttl <=? (t - at_) `max` 0)
  end.

Definition refresh_cache_if_needed : ST (Timed (AliveRingRouter W)) (result unit string) :=
  refresh ← should_refresh;
  if negb refresh then mret (Ok tt) else
  _ ←? with_context "failed to connect redis for alive ring refresh" (on_ring_server ring_connection);
  key ← gets ring_key;
  limit ← gets fetch_limit;
  raw_ids ←? with_context "failed to fetch alive ring ids from redis"
               (on_ring_server (ring_lrange key 0 (Z.of_nat (limit - 1))));
  let parsed_ids := omap (λ raw, uuid_parse_str (trim raw)) raw_ids in
  t ← now;
  _ ← modify (set_ring parsed_ids 0 (Some t));
  mret (Ok tt).

Definition next_candidate_ids : ST (Timed (AliveRingRouter W)) (result (list Uuid) string) :=
  _ ←? refresh_cache_if_needed;
  r ← gets id;
  let len := length (account_ids r) in
  if (len =? 0)%nat then mret (Ok []) else
  let max_take := (candidate_count r `min` len)%nat in
  let picked := omap (λ offset, account_ids r !! ((ring_cursor r + offset) mod len)%nat)
                  (seq 0 max_take) in
  _ ← modify (set_ring (account_ids r) ((ring_cursor r + max_take) mod len)%nat (fetched_at r));
  mret (Ok picked).
End ring.

(** ** The reporter *)

Inductive LiveResultReportStatus := ReportOk | ReportFailed.
Inductive LiveResultReportSource := ReportActive | ReportPassive.

Record LiveResultReportRequest := mkLiveResultReportRequest {
  lr_status : LiveResultReportStatus;
  lr_source : LiveResultReportSource;
  lr_status_code : option Z;
  lr_error_code : option string;
  lr_error_message : option string;
  lr_upstream_request_id : option string;
  lr_model : option string;
}.

(** The requests the reporter sends; of an observed rate limit only the number of
    entries matters here. *)
Inductive Signal :=
  | SeenOk
  | ModelSeenOk (model : string)
  | LiveResult (report : LiveResultReportRequest)
  | ObservedRateLimits (entries : nat).

Record Sent := mkSent { sent_at : Instant; sent_account : Uuid; sent_signal : Signal }.

Record SeenOkReporter := mkSeenOkReporter {
  endpoint_base : string;
  min_interval : Duration;
  latest_reported : gmap Uuid Instant;
  latest_live_reported : gmap Uuid (Instant * string);
  latest_model_reported : gmap (Uuid * string) Instant;
  sent : list Sent;
}.

Definition SeenOkReporter_new (endpoint : string) (interval : Duration) : SeenOkReporter :=
  mkSeenOkReporter (trim_end_slashes endpoint) interval ∅ ∅ ∅ [].

(** The text that [format!] gives the fields of a live report. *)
Definition debug_status (s : LiveResultReportStatus) : string :=
  match s with ReportOk => "Ok" | ReportFailed => "Failed" end.
Definition debug_source (s : LiveResultReportSource) : string :=
  match s with ReportActive => "Active" | ReportPassive => "Passive" end.
Definition debug_code (c : option Z) : string :=
  match c with Some n => "Some(" +:+ decimal n +:+ ")" | None => "None" end.
Definition or_empty (s : option string) : string := default "" s.

Definition live_signature (r : LiveResultReportRequest) : string :=
  debug_status (lr_status r) +:+ "|" +:+ debug_source (lr_source r) +:+ "|"
  +:+ debug_code (lr_status_code r) +:+ "|" +:+ or_empty (lr_error_code r) +:+ "|"
  +:+ or_empty (lr_error_message r) +:+ "|" +:+ or_empty (lr_model r).

Section reporter.
Context `{Clock}.

(** [now.duration_since(last) < min_interval]. *)
Definition too_soon (t last interval : Instant) : bool := (t - last) `max` 0 <? interval.

Definition set_reported x r := mkSeenOkReporter (endpoint_base r) (min_interval r) x
  (latest_live_reported r) (latest_model_reported r) (sent r).
Definition set_live x r := mkSeenOkReporter (endpoint_base r) (min_interval r) (latest_reported r)
  x (latest_model_reported r) (sent r).
Definition set_model x r := mkSeenOkReporter (endpoint_base r) (min_interval r) (latest_reported r)
  (latest_live_reported r) x (sent r).

Definition should_report (account_id : Uuid) : ST (Timed SeenOkReporter) (option Instant) :=
  t ← now;
  r ← gets id;
  match latest_reported r !! account_id with
  | Some last =>
      if too_soon t last (min_interval r) then mret None
      else _ ← modify (set_reported (<[account_id := t]> (latest_reported r))); mret (Some t)
  | None => _ ← modify (set_reported (<[account_id := t]> (latest_reported r))); mret (Some t)
  end.

Definition should_report_live_result (account_id : Uuid) (report : LiveResultReportRequest) :
    ST (Timed SeenOkReporter) (option Instant) :=
  t ← now;
  let signature := live_signature report in
  r ← gets id;
  match latest_live_reported r !! account_id with
  | Some (last, last_signature) =>
      if bool_decide (last_signature = signature) && too_soon t last (min_interval r)
      then mret None
      else _ ← modify (set_live (<[account_id := (t, signature)]> (latest_live_reported r)));
           mret (Some t)
  | None => _ ← modify (set_live (<[account_id := (t, signature)]> (latest_live_reported r)));
            mret (Some t)
  end.

Definition should_report_model (account_id : Uuid) (model : string) :
    ST (Timed SeenOkReporter) (option Instant) :=
  let model := trim model in
  if is_empty model then mret None else
  t ← now;
  r ← gets id;
  let key := (account_id, model) in
  match latest_model_reported r !! key with
  | Some last =>
      if too_soon t last (min_interval r) then mret None
      else _ ← modify (set_model (<[key := t]> (latest_model_reported r))); mret (Some t)
  | None => _ ← modify (set_model (<[key := t]> (latest_model_reported r))); mret (Some t)
  end.

Definition send (at_ : Instant) (account_id : Uuid) (s : Signal) : ST (Timed SeenOkReporter) unit :=
  modify (λ r, mkSeenOkReporter (endpoint_base r) (min_interval r) (latest_reported r)
                 (latest_live_reported r) (latest_model_reported r)
                 (mkSent at_ account_id s :: sent r)).

Definition send_if (decision : option Instant) (account_id : Uuid) (s : Signal) :
    ST (Timed SeenOkReporter) unit :=
  match decision with Some t => send t account_id s | None => mret tt end.

Definition report_seen_ok (account_id : Uuid) : ST (Timed SeenOkReporter) unit :=
  d ← should_report account_id;
  send_if d account_id SeenOk.

Definition report_model_seen_ok (account_id : Uuid) (model : string) :
    ST (Timed SeenOkReporter) unit :=
  let model := trim model in
  d ← should_report_model account_id model;
  send_if d account_id (ModelSeenOk model).

Definition report_live_result (account_id : Uuid) (report : LiveResultReportRequest) :
    ST (Timed SeenOkReporter) unit :=
  d ← should_report_live_result account_id report;
  send_if d account_id (LiveResult report).

(** Not limited: every non-empty observation is sent. *)
Definition report_observed_rate_limits (account_id : Uuid) (entries : nat) :
    ST (Timed SeenOkReporter) unit :=
  if (entries =? 0)%nat then mret tt else
  t ← now;
  send t account_id (ObservedRateLimits entries).
End reporter.

(** ** Log text and configuration *)

Definition SEEN_OK_FAILURE_BODY_PREVIEW_LIMIT : nat := 512.

Fixpoint join (sep : string) (l : list string) : string :=
  match l with
  | [] => ""
  | [s] => s
  | s :: l => s +:+ sep +:+ join sep l
  end.

Definition sanitize_seen_ok_failure_body_for_log (raw : string) : string :=
  let collapsed := join " " (split_whitespace raw) in
  if is_empty collapsed then "<empty>"
  else
    let '(preview, rest) := take_chars SEEN_OK_FAILURE_BODY_PREVIEW_LIMIT collapsed in
    if is_empty rest then preview else preview +:+ "...".

Record AliveRingConfig := mkAliveRingConfig {
  arc_enabled : bool;
  arc_fetch_limit : Z;
  arc_candidate_count : Z;
  arc_cache_ttl : Duration;
  arc_redis_prefix : string;
}.

Record SeenOkReportConfig := mkSeenOkReportConfig {
  src_enabled : bool;
  src_min_interval : Duration;
  src_timeout : Duration;
}.

(** [env::var(..).ok().and_then(|raw| raw.parse().ok()).unwrap_or(d).clamp(lo, hi)]. *)
Definition env_number (value : option string) (d lo hi : Z) : Z :=
  clamp lo hi (default d (value ≫= parse_unsigned u64_max)).

Definition alive_ring_config_from_env (env : string → option string) : AliveRingConfig :=
  mkAliveRingConfig
    (default true (env "DATA_PLANE_ALIVE_RING_ROUTING_ENABLED" ≫= parse_bool_flag))
    (env_number (env "DATA_PLANE_ALIVE_RING_FETCH_LIMIT") 200 1 50000)
    (env_number (env "DATA_PLANE_ALIVE_RING_CANDIDATE_COUNT") 32 1 2000)
    (from_millis (env_number (env "DATA_PLANE_ALIVE_RING_CACHE_TTL_MS") 2000 100 30000))
    match trim <$> env "DATA_PLANE_HEALTH_REDIS_PREFIX" with
    | Some prefix => if is_empty prefix then "codex_pool:health" else prefix
    | None => "codex_pool:health"
    end.

Definition seen_ok_report_config_from_env (env : string → option string) : SeenOkReportConfig :=
  mkSeenOkReportConfig
    (default true (env "DATA_PLANE_SEEN_OK_REPORT_ENABLED" ≫= parse_bool_flag))
    (from_secs (env_number (env "DATA_PLANE_SEEN_OK_REPORT_MIN_INTERVAL_SEC") 60 1 3600))
    (from_millis (env_number (env "DATA_PLANE_SEEN_OK_REPORT_TIMEOUT_MS") 1500 200 30000)).
