(* ===== verification/UpstreamHealthFacts.v ===== *)
(** * Properties of the health signals *)
From S2P Require Import Prelude RustStr CoreModel RoutingCache RoutingCacheFacts UpstreamHealth.

#[local] Open Scope string_scope.
#[local] Open Scope list_scope.
#[local] Open Scope Z_scope.

(** ** Rate limits of the reporter *)

(** Neighbouring entries of a log (newest first) with the same signature are at
    least [d] apart. *)
Definition limited (d : Duration) (log : list (Instant * string)) : Prop :=
  ∀ i t s t' s', log !! i = Some (t, s) → log !! S i = Some (t', s') → s = s' → d <= t - t'.

(** The log of what was sent for one key, and its last entry as recorded. *)
Definition tracked (d : Duration) (log : list (Instant * string)) (last : option (Instant * string)) :
    Prop := head log = last ∧ limited d log.

Lemma tracked_send d log last t s :
  tracked d log last → (∀ t' s', last = Some (t', s') → s' = s → d <= t - t') →
  tracked d ((t, s) :: log) (Some (t, s)).
Proof.
  intros [Hhead Hlim] Hnew. split; [done|]. intros [|i] u r u' r' Hi HSi Heq; simplify_eq/=.
  - apply (Hnew u' r'); [|done]. by destruct log.
  - by eapply (Hlim i).
Qed.

(** The logs: liveness of an account, results of an account, and a model on an
    account. *)
Definition seen_entry (a : Uuid) (e : Sent) : option (Instant * string) :=
  match sent_signal e with
  | SeenOk => if decide (sent_account e = a) then Some (sent_at e, "") else None
  | _ => None
  end.
Definition live_entry (a : Uuid) (e : Sent) : option (Instant * string) :=
  match sent_signal e with
  | LiveResult report =>
      if decide (sent_account e = a) then Some (sent_at e, live_signature report) else None
  | _ => None
  end.
Definition model_entry (k : Uuid * string) (e : Sent) : option (Instant * string) :=
  match sent_signal e with
  | ModelSeenOk model => if decide ((sent_account e, model) = k) then Some (sent_at e, "") else None
  | _ => None
  end.

Definition unsigned (t : Instant) : Instant * string := (t, "").

Record reporter_inv (r : SeenOkReporter) : Prop := {
  ri_seen a : tracked (min_interval r) (omap (seen_entry a) (sent r)) (unsigned <$> latest_reported r !! a);
  ri_live a : tracked (min_interval r) (omap (live_entry a) (sent r)) (latest_live_reported r !! a);
  ri_model k : tracked (min_interval r) (omap (model_entry k) (sent r)) (unsigned <$> latest_model_reported r !! k);
}.

Lemma SeenOkReporter_new_inv endpoint interval : reporter_inv (SeenOkReporter_new endpoint interval).
Proof. split; intros; split; done. Qed.

Lemma too_soon_false t last interval :
  0 < interval → too_soon t last interval = false → interval <= t - last.
Proof. unfold too_soon. intros Hi Ht%Z.ltb_ge. lia. Qed.

Section reporter.
Context `{Clock}.
Implicit Types w : Timed SeenOkReporter.

(** What a call does to the invariant and to the interval. *)
Definition reports (m : ST (Timed SeenOkReporter) unit) : Prop := ∀ w,
  0 < min_interval (st w) → reporter_inv (st w) →
  wp m (λ _ w', reporter_inv (st w') ∧ min_interval (st w') = min_interval (st w)) w.

Lemma report_seen_ok_reports a : reports (report_seen_ok a).
Proof.
  intros w Hpos [Hs Hl Hm]. unfold report_seen_ok, should_report, send_if, send.
  assert (Hsend : ∀ t, (∀ last, latest_reported (st w) !! a = Some last →
      too_soon t last (min_interval (st w)) = false) →
    reporter_inv (mkSeenOkReporter (endpoint_base (st w)) (min_interval (st w))
      (<[a := t]> (latest_reported (st w))) (latest_live_reported (st w))
      (latest_model_reported (st w)) (mkSent t a SeenOk :: sent (st w)))).
  { intros t Ht. split; [|intros b; apply Hl|intros k; apply Hm]. intros b. simpl.
    unfold seen_entry at 1. simpl. destruct (decide (a = b)) as [<-|Hne].
    - rewrite lookup_insert_eq. apply (tracked_send _ _ _ _ "" (Hs a)).
      intros t' s' (last & Hlast & [= -> ->])%fmap_Some _. by apply too_soon_false, Ht.
    - rewrite lookup_insert_ne by done. apply Hs. }
  wp_go; simpl in *; (split; [|done]).
  - by split.
  - apply Hsend. intros last Hlast. by simplify_eq.
  - apply Hsend. intros last Hlast. by simplify_eq.
Qed.

Lemma report_live_result_reports a report : reports (report_live_result a report).
Proof.
  intros w Hpos [Hs Hl Hm]. unfold report_live_result, should_report_live_result, send_if, send.
  assert (Hsend : ∀ t, (∀ last sig, latest_live_reported (st w) !! a = Some (last, sig) →
      sig = live_signature report → too_soon t last (min_interval (st w)) = false) →
    reporter_inv (mkSeenOkReporter (endpoint_base (st w)) (min_interval (st w))
      (latest_reported (st w)) (<[a := (t, live_signature report)]> (latest_live_reported (st w)))
      (latest_model_reported (st w)) (mkSent t a (LiveResult report) :: sent (st w)))).
  { intros t Ht. split; [intros b; apply Hs| |intros k; apply Hm]. intros b. simpl.
    unfold live_entry at 1. simpl. destruct (decide (a = b)) as [<-|Hne].
    - rewrite lookup_insert_eq. apply (tracked_send _ _ _ _ _ (Hl a)).
      intros t' s' Hlast Hsig. apply too_soon_false; [done|]. by eapply Ht.
    - rewrite lookup_insert_ne by done. apply Hl. }
  wp_go; simpl in *; (split; [|done]).
  - by split.
  - apply Hsend. intros last sig Hlast ->. simplify_eq. by rewrite bool_decide_eq_true_2 in Heqb.
  - apply Hsend. intros last sig Hlast. by simplify_eq.
Qed.

Lemma report_model_seen_ok_reports a model : reports (report_model_seen_ok a model).
Proof.
  intros w Hpos [Hs Hl Hm]. unfold report_model_seen_ok, should_report_model, send_if, send.
  rewrite trim_idemp.
  assert (Hsend : ∀ t, (∀ last, latest_model_reported (st w) !! (a, trim model) = Some last →
      too_soon t last (min_interval (st w)) = false) →
    reporter_inv (mkSeenOkReporter (endpoint_base (st w)) (min_interval (st w))
      (latest_reported (st w)) (latest_live_reported (st w))
      (<[(a, trim model) := t]> (latest_model_reported (st w)))
      (mkSent t a (ModelSeenOk (trim model)) :: sent (st w)))).
  { intros t Ht. split; [intros b; apply Hs|intros b; apply Hl|]. intros k. simpl.
    unfold model_entry at 1. simpl. destruct (decide ((a, trim model) = k)) as [<-|Hne].
    - rewrite lookup_insert_eq. apply (tracked_send _ _ _ _ "" (Hm (a, trim model))).
      intros t' s' (last & Hlast & [= -> ->])%fmap_Some _. by apply too_soon_false, Ht.
    - rewrite lookup_insert_ne by done. apply Hm. }
  wp_go; simpl in *; (split; [|done]).
  - by split.
  - by split.
  - apply Hsend. intros last Hlast. by simplify_eq.
  - apply Hsend. intros last Hlast. by simplify_eq.
Qed.

Lemma report_observed_reports a n : reports (report_observed_rate_limits a n).
Proof.
  intros w Hpos [Hs Hl Hm]. unfold report_observed_rate_limits, send. wp_go; (split; [|done]); by split.
Qed.

(** The public calls of the reporter. *)
Inductive reporter_step : relation (Timed SeenOkReporter) :=
  | step_seen a w : reporter_step w (report_seen_ok a w).2
  | step_model a m w : reporter_step w (report_model_seen_ok a m w).2
  | step_live a r w : reporter_step w (report_live_result a r w).2
  | step_observed a n w : reporter_step w (report_observed_rate_limits a n w).2.

Lemma reporter_step_inv w w' :
  reporter_step w w' → 0 < min_interval (st w) → reporter_inv (st w) →
  reporter_inv (st w') ∧ min_interval (st w') = min_interval (st w).
Proof.
  intros [] Hpos Hinv.
  - by apply report_seen_ok_reports.
  - by apply report_model_seen_ok_reports.
  - by apply report_live_result_reports.
  - by apply report_observed_reports.
Qed.

Lemma reporter_reachable_inv w w' :
  rtc reporter_step w w' → 0 < min_interval (st w) → reporter_inv (st w) →
  reporter_inv (st w') ∧ min_interval (st w') = min_interval (st w).
Proof.
  induction 1 as [|w1 w2 w3 Hst _ IH]; [done|]. intros Hpos Hinv.
  destruct (reporter_step_inv _ _ Hst Hpos Hinv) as [Hinv2 Heq].
  destruct IH as [? ?]; [lia|done|]. split; [done|congruence].
Qed.
End reporter.

(** ** The alive ring *)

Section ring.
Context `{Clock} `{UuidText} {W : Type} `{RingServer W}.
Implicit Types w : Timed (AliveRingRouter W).

(** [m] accounts of the ring from position [c]. *)
Definition window (ids : list Uuid) (c m : nat) : list Uuid :=
  omap (λ o, ids !! ((c + o) mod length ids)%nat) (seq 0 m).

Lemma window_add ids c m1 m2 :
  ids ≠ [] →
  window ids c (m1 + m2) = window ids c m1 ++ window ids ((c + m1) mod length ids)%nat m2.
Proof.
  intros Hne. unfold window. rewrite seq_app, omap_app. f_equal. simpl.
  rewrite <-(Nat.add_0_r m1) at 1. rewrite <-fmap_add_seq.
  generalize 0%nat as s. induction m2 as [|m2 IH]; intros s; [done|]. csimpl.
  rewrite IH. assert (Hlen : length ids ≠ 0%nat) by (by destruct ids).
  rewrite Nat.Div0.add_mod_idemp_l by done. by rewrite Nat.add_assoc.
Qed.

Lemma window_complete ids c m id : (length ids ≤ m)%nat → id ∈ ids → id ∈ window ids c m.
Proof.
  intros Hm Hin. apply list_elem_of_lookup in Hin as [j Hj].
  assert (Hjl : (j < length ids)%nat) by (by eapply lookup_lt_Some).
  set (n := length ids) in *. set (o := ((j + (n - c mod n)) mod n)%nat).
  apply list_elem_of_omap. exists o. split.
  - apply elem_of_seq. split; [lia|].
    pose proof (Nat.mod_upper_bound (j + (n - c mod n)) n ltac:(lia)). lia.
  - rewrite <-Hj. f_equal. subst o.
    pose proof (Nat.mod_upper_bound c n ltac:(lia)).
    rewrite Nat.Div0.add_mod_idemp_r, <-Nat.Div0.add_mod_idemp_l.
    fold n. replace (c mod n + (j + (n - c mod n)))%nat with (j + 1 * n)%nat by lia.
    rewrite Nat.Div0.mod_add. by apply Nat.mod_small.
Qed.

(** The list is loaded and stays fresh for the next [k] clock reads. *)
Definition ring_fresh (k : nat) w : Prop :=
  account_ids (st w) ≠ [] ∧ 0 < cache_ttl (st w) ∧
  ∃ f, fetched_at (st w) = Some f ∧
    ∀ i, (i < k)%nat → clock (ticks w + i) - f < cache_ttl (st w).

Definition ring_take (r : AliveRingRouter W) : nat :=
  (candidate_count r `min` length (account_ids r))%nat.

Lemma next_candidate_ids_spec k w :
  ring_fresh (S k) w →
  wp next_candidate_ids (λ r w',
    r = Ok (window (account_ids (st w)) (ring_cursor (st w)) (ring_take (st w))) ∧
    st w' = set_ring (account_ids (st w))
              ((ring_cursor (st w) + ring_take (st w)) mod length (account_ids (st w)))%nat
              (fetched_at (st w)) (st w) ∧ ticks w' = S (ticks w)) w.
Proof.
  intros (Hne & Httl & f & Hf & Hfresh).
  specialize (Hfresh 0%nat ltac:(lia)). rewrite Nat.add_0_r in Hfresh.
  unfold next_candidate_ids, refresh_cache_if_needed, should_refresh.
  do 4 wp_step. rewrite Hf. do 5 wp_step. simpl.
  destruct (Z.leb_spec (cache_ttl (st w)) ((clock (ticks w) - f) `max` 0)); [lia|].
  simpl. do 3 wp_step. simpl. destruct (Nat.eqb_spec (length (account_ids (st w))) 0) as [Hlen|_].
  { by apply nil_length_inv in Hlen. }
  wp_go. simpl. by rewrite Hf.
Qed.

Lemma repeat_next_candidate_ids n w :
  ring_fresh n w →
  wp (repeatM n next_candidate_ids) (λ l _, ∃ ls, l = Ok <$> ls ∧
    concat ls = window (account_ids (st w)) (ring_cursor (st w)) (n * ring_take (st w))) w.
Proof.
  revert w. induction n as [|n IH]; intros w Hw; simpl; [wp_step; by exists []|].
  wp_step. wp_use next_candidate_ids_spec as r w1 (-> & Hst & Ht); [done|]. wp_step.
  destruct Hw as (Hne & Httl & f & Hf & Hfresh).
  wp_use IH as l w2 (ls & -> & Hls).
  { unfold ring_fresh. rewrite Hst, Ht. simpl. split_and!; [done|done|]. exists f. split; [done|].
    intros i Hi. specialize (Hfresh (S i) ltac:(lia)). by rewrite <-Nat.add_succ_r. }
  wp_step. eexists (_ :: ls). split; [done|]. simpl. rewrite Hls, Hst. simpl. by rewrite <-window_add.
Qed.
End ring.

(** ** Claims *)

Section claims.
Context `{Clock}.

(** After any calls of a new reporter, the reports sent for one account, and
    for one model of one account, are at least the minimum interval apart; two
    results in a row for an account are too unless they differ. *)
Theorem reports_respect_min_interval endpoint interval n w :
  0 < interval →
  rtc reporter_step (mkTimed (SeenOkReporter_new endpoint interval) n) w →
  ∀ a model, limited interval (omap (seen_entry a) (sent (st w))) ∧
    limited interval (omap (live_entry a) (sent (st w))) ∧
    limited interval (omap (model_entry (a, model)) (sent (st w))).
Proof.
  intros Hpos Hst a model.
  destruct (reporter_reachable_inv _ _ Hst Hpos (SeenOkReporter_new_inv _ _)) as [[Hs Hl Hm] Hi].
  simpl in Hi. rewrite Hi in Hs, Hl, Hm. split_and!; [apply Hs|apply Hl|apply Hm].
Qed.

(** While the list is fresh, consecutive calls of [next_candidate_ids] walk
    round the ring: together they return the accounts in ring order from the
    cursor, and as soon as they have returned as many as the list holds, every
    account of it is among them. *)
Theorem alive_ring_visits_every_account `{UuidText} {W} `{RingServer W} n
    (w : Timed (AliveRingRouter W)) :
  ring_fresh n w →
  wp (repeatM n next_candidate_ids) (λ l _, ∃ ls, l = Ok <$> ls ∧
    concat ls = window (account_ids (st w)) (ring_cursor (st w)) (n * ring_take (st w)) ∧
    ((length (account_ids (st w)) ≤ n * ring_take (st w))%nat →
     ∀ id, id ∈ account_ids (st w) → id ∈ concat ls)) w.
Proof.
  intros Hw. wp_use repeat_next_candidate_ids as l w' (ls & -> & Hls); [done|].
  exists ls. split_and!; [done|done|]. intros Hn id Hid. rewrite Hls. by apply window_complete.
Qed.
End claims.

(** ** Witnesses *)

Module Witness.
#[local] Existing Instance unit_clock.

Definition reported : Timed SeenOkReporter :=
  (report_seen_ok 1 (mkTimed (SeenOkReporter_new "http://cp/" 60) 0)).2.

Lemma reports_respect_min_interval_witness :
  length (omap (seen_entry 1%N) (sent (st reported))) = 1%nat ∧
  limited 60 (omap (seen_entry 1%N) (sent (st reported))) ∧
  limited 60 (omap (live_entry 1%N) (sent (st reported))) ∧
  limited 60 (omap (model_entry (1%N, "gpt")) (sent (st reported))).
Proof.
  split; [reflexivity|]. apply (reports_respect_min_interval "http://cp/" 60 0).
  - lia.
  - eapply rtc_l; [|apply rtc_refl]. apply step_seen.
Defined.

Definition plain_uuid : UuidText := RoutingCacheFacts.Witness.unary_uuid.
Definition no_server : RingServer unit :=
  {| ring_connection := mret (Err "down"); ring_lrange _ _ _ := mret (Err "down") |}.
Definition ring : Timed (AliveRingRouter unit) :=
  mkTimed (mkAliveRingRouter tt "k" 200 2 100 [1; 2; 3]%N 2 (Some 0)) 0.

Lemma alive_ring_visits_every_account_witness :
  wp (repeatM 2 (@next_candidate_ids _ plain_uuid unit no_server)) (λ l _, ∃ ls, l = Ok <$> ls ∧
    concat ls = [3; 1; 2; 3]%N ∧
    ((3 ≤ 4)%nat → ∀ id, id ∈ [1; 2; 3]%N → id ∈ concat ls)) ring.
Proof.
  apply (@alive_ring_visits_every_account _ plain_uuid unit no_server 2 ring).
  split_and!; [discriminate|reflexivity|]. exists 0. split; [reflexivity|].
  intros i Hi. simpl. lia.
Defined.
End Witness.
