(* ===== verification/Failover.v ===== *)
(** * Upstream errors, failover and the invalid-request guard:
    [services/data-plane/src/proxy/request_utils.rs]

    How an upstream failure is classified, what the proxy decides to do about it
    (retry on the same account, fail over to another, return it), how long the
    account is ejected, and the guard that blocks clients that keep sending
    invalid requests. [ProxyState] holds the fields of [AppState] these functions
    read and write. *)
From S2P Require Import Prelude RustStr CoreModel Router RoutingCache Auth.

#[local] Open Scope string_scope.
#[local] Open Scope list_scope.
#[local] Open Scope Z_scope.

Inductive UpstreamErrorClass :=
  | TokenInvalidated | AuthExpired | AccountDeactivated | QuotaExhausted | RateLimited
  | Overloaded | UpstreamUnavailable | TransientServer | NonRetryableClient | UnknownClass.

Inductive UpstreamErrorSource := Http | WsHandshake | WsPrelude | SsePrelude.

Inductive RetryScope := RetryNone | RetrySame | RetryCross.

Inductive ProxyRecoveryAction := RotateRefreshToken | DisableAccount.

Inductive ProxyRecoveryOutcome := NotApplied | RotateSucceeded | RotateFailed | DisableAttempted.

Record LearnedTemplateResolution := mkLearnedTemplateResolution {
  ltr_semantic_error_code : string;
  ltr_localized_message : string;
  ltr_action : UpstreamErrorAction;
  ltr_retry_scope : UpstreamErrorRetryScope;
  ltr_fingerprint : string;
}.

Record UpstreamErrorContext := mkUpstreamErrorContext {
  uec_upstream_status : Z;
  uec_status : Z;
  uec_error_code : option string;
  uec_error_message : option string;
  uec_raw_error : option string;
  uec_retry_after : option Duration;
  uec_upstream_request_id : option string;
  uec_class : UpstreamErrorClass;
  uec_learned_resolution : option LearnedTemplateResolution;
}.

Record UpstreamErrorDecision := mkUpstreamErrorDecision {
  retry_scope : RetryScope;
  allow_cross_account_failover : bool;
  track_invalid_request : bool;
  outward_code : string;
  outward_message : string;
  recovery_action : option ProxyRecoveryAction;
  decision_rule : string;
}.

(** ** Classification *)

Definition classify_upstream_error (status : Z) (error_code error_message : option string) :
    UpstreamErrorClass :=
  let code := to_ascii_lowercase (default "" error_code) in
  let message := to_ascii_lowercase (default "" error_message) in
  let code_in l := bool_decide (code ∈ (l : list string)) in
  if code_in ["token_invalidated"] then TokenInvalidated
  else if code_in ["account_deactivated"; "deactivated_workspace"] then AccountDeactivated
  else if code_in ["refresh_token_reused"; "refresh_token_revoked"; "auth_expired"; "token_expired";
                   "expired_token"; "invalid_token"] then AuthExpired
  else if code_in ["usage_limit"; "insufficient_quota"; "quota_exceeded";
                   "billing_hard_limit_reached"] then QuotaExhausted
  else if code_in ["rate_limited"; "rate_limit_exceeded"] then RateLimited
  else if code_in ["server_is_overloaded"; "server_overloaded"; "engine_overloaded"; "slow_down"]
  then Overloaded
  else if code_in ["previous_response_not_found"; "websocket_connection_limit_reached"]
  then NonRetryableClient
  else if contains message "usage limit" || contains message "insufficient quota"
          || contains message "quota" || contains message "billing details"
          || contains message "start a free trial of plus" then QuotaExhausted
  else if contains message "rate limit" then RateLimited
  else if contains message "access token could not be refreshed" || contains message "logged out"
          || contains message "signed in to another account"
          || contains message "failed to extract accountid from token" then AuthExpired
  else if contains message "server is overloaded" || contains message "engine is currently overloaded"
          || contains message "slow_down" then Overloaded
  else if status =? 401 then AuthExpired
  else if status =? 402 then QuotaExhausted
  else if status =? 403 then NonRetryableClient
  else if status =? 429 then RateLimited
  else if status =? 503 then
    (if code_in ["server_is_overloaded"; "slow_down"] then Overloaded else UpstreamUnavailable)
  else if is_server_error status then TransientServer
  else if is_client_error status then NonRetryableClient
  else UnknownClass.

Definition status_for_error_class (class : UpstreamErrorClass) (fallback : Z) : Z :=
  match class with
  | TokenInvalidated | AuthExpired => 401
  | AccountDeactivated => 403
  | QuotaExhausted | RateLimited => 429
  | Overloaded | UpstreamUnavailable => 503
  | TransientServer => 502
  | NonRetryableClient | UnknownClass => fallback
  end.

(** [build_upstream_error_context], from the details already extracted from the
    body and the headers. *)
Definition build_upstream_error_context (status : Z) (error_code error_message raw_error : option string)
    (retry_after : option Duration) (request_id : option string) : option UpstreamErrorContext :=
  let success := (200 <=? status) && (status <? 300) in
  match success, error_code, error_message with
  | true, None, None => None
  | _, _, _ =>
      let class := classify_upstream_error status error_code error_message in
      match success, class with
      | true, UnknownClass => None
      | _, _ =>
          Some (mkUpstreamErrorContext status
                  (if success then status_for_error_class class 502 else status)
                  error_code error_message raw_error retry_after request_id class None)
      end
  end.

(** ** Decisions *)

Definition upstream_error_source_supports_server_retries (source : UpstreamErrorSource) : bool :=
  match source with Http | WsHandshake | SsePrelude => true | WsPrelude => false end.

Definition recovery_action_for_upstream_error_class (class : UpstreamErrorClass) :
    option ProxyRecoveryAction :=
  match class with
  | TokenInvalidated | AuthExpired => Some RotateRefreshToken
  | AccountDeactivated => Some DisableAccount
  | _ => None
  end.

Definition recovery_action_for_upstream_error_code (code : option string) :
    option ProxyRecoveryAction :=
  match code with
  | Some c =>
      if bool_decide (c = "token_invalidated") then Some RotateRefreshToken
      else if bool_decide (c ∈ ["account_deactivated"; "refresh_token_reused"; "refresh_token_revoked"])
      then Some DisableAccount
      else None
  | None => None
  end.

Abbreviation decision := mkUpstreamErrorDecision.

Definition decide_upstream_status (source : UpstreamErrorSource) (status : Z) : UpstreamErrorDecision :=
  if status =? 401 then
    decision RetryCross true false "auth_expired"
      "upstream account authentication expired; retry later with another account" None
      "status_401_cross_account"
  else if status =? 402 then
    decision RetryCross true false "quota_exhausted"
      "upstream account quota is exhausted; retry later" None "status_402_cross_account"
  else if status =? 429 then
    decision RetryCross true false "rate_limited" "upstream account is rate limited; retry later" None
      "status_429_cross_account"
  else if (status =? 503) && upstream_error_source_supports_server_retries source then
    decision RetrySame true false "upstream_unavailable" "upstream service is unavailable" None
      "status_503_same_then_cross"
  else if is_server_error status && upstream_error_source_supports_server_retries source then
    decision RetrySame true false "upstream_request_failed" "upstream request failed" None
      "status_5xx_same_then_cross"
  else if is_client_error status then
    decision RetryNone false true "upstream_request_failed" "upstream request failed" None
      "status_4xx_no_failover"
  else
    decision RetryNone false false "upstream_request_failed" "upstream request failed" None
      "status_default_no_failover".

(** The branch of [decide_upstream_error] on the error class. *)
Definition decide_upstream_class (source : UpstreamErrorSource) (context : UpstreamErrorContext)
    (recovery : option ProxyRecoveryAction) : UpstreamErrorDecision :=
  let retries := upstream_error_source_supports_server_retries source in
  match uec_class context with
  | TokenInvalidated =>
      decision RetryCross true false "token_invalidated"
        "upstream account token has been invalidated" recovery "token_invalidated_cross_account"
  | AuthExpired =>
      decision RetryCross true false "auth_expired"
        "upstream account authentication expired; retry later with another account" recovery
        "auth_expired_cross_account"
  | AccountDeactivated =>
      decision RetryCross true false "account_deactivated" "upstream account is deactivated" recovery
        "account_deactivated_cross_account"
  | QuotaExhausted =>
      decision RetryCross true false "quota_exhausted"
        "upstream account quota is exhausted; retry later" recovery "quota_exhausted_cross_account"
  | RateLimited =>
      decision RetryCross true false "rate_limited" "upstream account is rate limited; retry later"
        recovery "rate_limited_cross_account"
  | Overloaded =>
      if retries then
        decision RetrySame true false "server_overloaded" "upstream service is overloaded" recovery
          "overloaded_same_then_cross"
      else
        decision RetryNone false false "server_overloaded" "upstream service is overloaded" recovery
          "overloaded_no_ws_session_rotation"
  | UpstreamUnavailable =>
      if retries then
        decision RetrySame true false "upstream_unavailable" "upstream service is unavailable" recovery
          "unavailable_same_then_cross"
      else
        decision RetryNone false false "upstream_unavailable" "upstream service is unavailable" recovery
          "unavailable_no_ws_session_rotation"
  | TransientServer =>
      if retries then
        decision RetrySame true false "upstream_request_failed" "upstream request failed" recovery
          "transient_same_then_cross"
      else
        decision RetryNone false false "upstream_request_failed" "upstream request failed" recovery
          "transient_no_ws_session_rotation"
  | NonRetryableClient =>
      decision RetryNone false true "upstream_request_failed" "upstream request failed" recovery
        "non_retryable_client"
  | UnknownClass =>
      let d := decide_upstream_status source (uec_status context) in
      decision (retry_scope d) (allow_cross_account_failover d) (track_invalid_request d)
        (outward_code d) (outward_message d) recovery "unknown_class_fallback_to_status"
  end.

(** The branch on a learned template. *)
Definition decide_learned (context : UpstreamErrorContext) (learned : LearnedTemplateResolution)
    (recovery : option ProxyRecoveryAction) : UpstreamErrorDecision :=
  let scope := match ltr_action learned with
               | RetrySameAccount => RetrySame
               | RetryCrossAccount => RetryCross
               | ReturnFailure =>
                   match ltr_retry_scope learned with
                   | ScopeSameAccount => RetrySame
                   | ScopeCrossAccount => RetryCross
                   | ScopeNone => RetryNone
                   end
               end in
  let none := match scope with RetryNone => true | _ => false end in
  decision scope (negb none) (is_client_error (uec_status context) && none)
    (ltr_semantic_error_code learned) (ltr_localized_message learned) recovery "learned_template".

Definition decide_upstream_error (source : UpstreamErrorSource)
    (error_context : option UpstreamErrorContext) : UpstreamErrorDecision :=
  match error_context with
  | None => decide_upstream_status source 502
  | Some context =>
      let recovery := match recovery_action_for_upstream_error_code (uec_error_code context) with
                      | Some a => Some a
                      | None => recovery_action_for_upstream_error_class (uec_class context)
                      end in
      let is_code c := bool_decide (uec_error_code context = Some c) in
      let is_prelude := match source with WsPrelude => true | _ => false end in
      let is_handshake := match source with WsHandshake => true | _ => false end in
      if is_prelude && is_code "websocket_connection_limit_reached" then
        decision RetrySame false false "websocket_connection_limit_reached"
          "upstream websocket connection hit its lifetime limit" recovery
          "ws_connection_limit_same_account_reconnect"
      else if negb is_handshake && is_code "previous_response_not_found" then
        decision RetrySame false false "previous_response_not_found"
          "upstream continuation anchor expired" recovery
          "previous_response_reset_same_account_retry"
      else match uec_learned_resolution context with
           | Some learned => decide_learned context learned recovery
           | None => decide_upstream_class source context recovery
           end
  end.

(** [error_context.map(decide_upstream_error).unwrap_or_else(decide_upstream_status)]. *)
Definition decide (source : UpstreamErrorSource) (status : Z)
    (error_context : option UpstreamErrorContext) : UpstreamErrorDecision :=
  match error_context with
  | Some context => decide_upstream_error source (Some context)
  | None => decide_upstream_status source status
  end.

Definition is_failover_retryable_error (source : UpstreamErrorSource) (status : Z)
    (error_context : option UpstreamErrorContext) : bool :=
  let d := decide source status error_context in
  allow_cross_account_failover d || match retry_scope d with RetrySame => true | _ => false end.

Definition should_track_invalid_request_failure (source : UpstreamErrorSource) (status : Z)
    (error_context : option UpstreamErrorContext) : bool :=
  track_invalid_request (decide source status error_context).

Definition recovery_action_for_error_context (error_context : option UpstreamErrorContext) :
    option ProxyRecoveryAction :=
  recovery_action (decide_upstream_error Http error_context).

(** ** Ejection times *)

Definition u64_saturating_mul (a b : Z) : Z := clamp 0 u64_max (a * b).

Definition auth_error_ejection_ttl (base : Duration) : Duration :=
  from_secs (clamp 120 1800 (u64_saturating_mul (as_secs base) 10)).

Definition server_error_ejection_ttl (base : Duration) : Duration :=
  from_secs (clamp 5 60 ((as_secs base `div` 3) `max` 5)).

Definition auth_expired_ejection_ttl (base : Duration) : Duration :=
  from_secs (clamp 600 3600 (as_secs (auth_error_ejection_ttl base))).

Definition quota_exhausted_ejection_ttl (context : UpstreamErrorContext) : Duration :=
  from_secs (clamp 1800 (24 * 60 * 60) (default 1800 (as_secs <$> uec_retry_after context))).

Definition rate_limited_ejection_ttl (base : Duration) (context : UpstreamErrorContext) : Duration :=
  let base_seconds := as_secs base `max` 30 in
  from_secs (default base_seconds (as_secs <$> uec_retry_after context) `max` 30).

Definition ejection_ttl_for_status (status : Z) (base : Duration) (is_503_overloaded : bool) :
    option Duration :=
  if (status =? 429) || is_503_overloaded then Some base
  else if (status =? 401) || (status =? 403) then Some (auth_error_ejection_ttl base)
  else if is_server_error status then Some (server_error_ejection_ttl base)
  else None.

Definition ejection_ttl_for_response (status : Z) (base : Duration) (is_503_overloaded : bool)
    (error_context : option UpstreamErrorContext) (outcome : ProxyRecoveryOutcome) : option Duration :=
  match error_context with
  | None => ejection_ttl_for_status status base is_503_overloaded
  | Some context =>
      match uec_class context with
      | TokenInvalidated =>
          match outcome with
          | RotateSucceeded => Some (from_secs (5 `min` (as_secs base `max` 1)))
          | _ => Some (auth_expired_ejection_ttl base)
          end
      | AuthExpired =>
          match outcome with
          | RotateSucceeded => None
          | _ => Some (auth_expired_ejection_ttl base)
          end
      | AccountDeactivated | Overloaded | UpstreamUnavailable => Some base
      | QuotaExhausted => Some (quota_exhausted_ejection_ttl context)
      | RateLimited => Some (rate_limited_ejection_ttl base context)
      | TransientServer => Some (server_error_ejection_ttl base)
      | NonRetryableClient => None
      | UnknownClass => ejection_ttl_for_status (uec_status context) base is_503_overloaded
      end
  end.

(** ** State *)

(** The invalid-request guard keeps, per client, the recent failures, oldest
    first, and the end of a block. *)
Abbreviation GuardEntry := (list Instant * option Instant)%type.

Record ProxyState := mkProxyState {
  ps_router : Router;
  sticky_prefer_non_conflicting : bool;
  enable_request_failover : bool;
  same_account_quick_retry_max : Z;
  same_account_retry_total : Z;
  failover_attempt_total : Z;
  failover_success_total : Z;
  failover_exhausted_total : Z;
  invalid_request_guard_enabled : bool;
  invalid_request_guard_window : Duration;
  invalid_request_guard_threshold : nat;
  invalid_request_guard_block_ttl : Duration;
  invalid_request_guard : gmap string GuardEntry;
  invalid_request_guard_block_total : Z;
}.

Abbreviation XM := (ST (Timed ProxyState)).

Definition set_ps_router x s := mkProxyState x (sticky_prefer_non_conflicting s)
  (enable_request_failover s) (same_account_quick_retry_max s) (same_account_retry_total s)
  (failover_attempt_total s) (failover_success_total s) (failover_exhausted_total s)
  (invalid_request_guard_enabled s) (invalid_request_guard_window s)
  (invalid_request_guard_threshold s) (invalid_request_guard_block_ttl s) (invalid_request_guard s)
  (invalid_request_guard_block_total s).
Definition set_failover_totals same attempt success exhausted s := mkProxyState (ps_router s)
  (sticky_prefer_non_conflicting s) (enable_request_failover s) (same_account_quick_retry_max s)
  same attempt success exhausted (invalid_request_guard_enabled s) (invalid_request_guard_window s)
  (invalid_request_guard_threshold s) (invalid_request_guard_block_ttl s) (invalid_request_guard s)
  (invalid_request_guard_block_total s).
Definition set_guard g total s := mkProxyState (ps_router s)
  (sticky_prefer_non_conflicting s) (enable_request_failover s) (same_account_quick_retry_max s)
  (same_account_retry_total s) (failover_attempt_total s) (failover_success_total s)
  (failover_exhausted_total s) (invalid_request_guard_enabled s) (invalid_request_guard_window s)
  (invalid_request_guard_threshold s) (invalid_request_guard_block_ttl s) g total.

(** ** Retries and failover *)

Definition should_retry_same_account_on_transport (attempt : Z) (s : ProxyState) : bool :=
  attempt <? same_account_quick_retry_max s.

Definition should_retry_same_account_on_status (source : UpstreamErrorSource) (status attempt : Z)
    (s : ProxyState) (error_context : option UpstreamErrorContext) : bool :=
  if same_account_quick_retry_max s <=? attempt then false
  else match retry_scope (decide source status error_context) with
       | RetrySame =>
           if bool_decide ((error_context ≫= uec_error_code) = Some "previous_response_not_found")
           then true
           else is_server_error status && negb (status =? 401) && negb (status =? 403)
       | _ => false
       end.

Section failover.
Context `{Clock} `{HashOrder}.

Definition has_untried_cross_account_candidate (model sticky_key : option string)
    (tried : gset Uuid) (current : Uuid) : XM bool :=
  prefer ← gets sticky_prefer_non_conflicting;
  picked ← zoom ps_router set_ps_router
             (pick_for_model model sticky_key ({[current]} ∪ tried) prefer);
  mret (bool_decide (is_Some picked)).

Definition should_cross_account_failover (model sticky_key : option string) (deadline : Instant)
    (tried : gset Uuid) (current : Uuid) (retryable : bool) : XM bool :=
  enabled ← gets enable_request_failover;
  if negb enabled || negb retryable then mret false else
  has_candidate ← has_untried_cross_account_candidate model sticky_key tried current;
  if negb has_candidate then mret false else
  t ← now;
  if t <? deadline then mret true else mret has_candidate.
End failover.

Definition record_same_account_retry : XM unit :=
  modify (λ s, set_failover_totals (u64_wrap (same_account_retry_total s + 1)) (failover_attempt_total s)
                 (failover_success_total s) (failover_exhausted_total s) s).

(** The set of tried accounts and the flag are the caller's variables; the system
    event is not modelled. *)
Definition record_cross_account_failover_attempt (tried : gset Uuid) (account_id : Uuid)
    (did_failover : bool) : XM (gset Uuid * bool) :=
  if bool_decide (account_id ∈ tried) then mret (tried, did_failover) else
  _ ← modify (λ s, set_failover_totals (same_account_retry_total s)
                     (u64_wrap (failover_attempt_total s + 1)) (failover_success_total s)
                     (failover_exhausted_total s) s);
  mret ({[account_id]} ∪ tried, true).

Definition record_failover_success_if_needed (did_failover : bool) : XM unit :=
  if did_failover then
    modify (λ s, set_failover_totals (same_account_retry_total s) (failover_attempt_total s)
                   (u64_wrap (failover_success_total s + 1)) (failover_exhausted_total s) s)
  else mret tt.

Definition record_failover_exhausted_if_needed (did_failover : bool) : XM unit :=
  if did_failover then
    modify (λ s, set_failover_totals (same_account_retry_total s) (failover_attempt_total s)
                   (failover_success_total s) (u64_wrap (failover_exhausted_total s + 1)) s)
  else mret tt.

(** ** The invalid-request guard *)

Definition invalid_request_guard_key `{UuidText} (principal : option ApiPrincipal) : option string :=
  match principal with
  | None => None
  | Some p =>
      let token_part := "token:" +:+ decimal (Z.of_nat (String.length (token p))) +:+ ":"
                        +:+ (take_chars 8 (token p)).1 in
      match api_key_id p, tenant_id p with
      | Some id, _ => Some ("api_key:" +:+ uuid_to_string id)
      | None, Some id => Some ("tenant:" +:+ uuid_to_string id +:+ ":" +:+ token_part)
      | None, None => Some token_part
      end
  end.

Fixpoint prune_invalid_request_window (hits : list Instant) (t : Instant) (window : Duration) :
    list Instant :=
  match hits with
  | item :: rest =>
      if window <? (t - item) `max` 0 then prune_invalid_request_window rest t window else hits
  | [] => []
  end.

(** [if blocked_until.is_some_and(|until| until <= now) { *blocked_until = None }]. *)
Definition live_block (blocked_until : option Instant) (t : Instant) : option Instant :=
  match blocked_until with Some u => if u <=? t then None else Some u | None => None end.

Section guard.
Context `{Clock} `{UuidText}.

(** Whether the request is answered with 429. *)
Definition enforce_invalid_request_guard (principal : option ApiPrincipal) : XM bool :=
  s ← gets (λ s, s);
  if negb (invalid_request_guard_enabled s) then mret false else
  match invalid_request_guard_key principal with
  | None => mret false
  | Some key =>
      t ← now;
      match invalid_request_guard s !! key with
      | None => mret false
      | Some (hits, blocked_until) =>
          let hits := prune_invalid_request_window hits t (invalid_request_guard_window s) in
          let blocked_until := live_block blocked_until t in
          let blocked := match blocked_until with Some u => t <? u | None => false end in
          let should_remove := bool_decide (hits = []) && bool_decide (blocked_until = None) in
          let guard := if should_remove then delete key (invalid_request_guard s)
                       else <[key := (hits, blocked_until)]> (invalid_request_guard s) in
          _ ← modify (set_guard guard (invalid_request_guard_block_total s));
          mret blocked
      end
  end.

Definition record_invalid_request_guard_failure (principal : option ApiPrincipal)
    (source : UpstreamErrorSource) (status : Z) (error_context : option UpstreamErrorContext) :
    XM unit :=
  s ← gets (λ s, s);
  if negb (invalid_request_guard_enabled s) then mret tt else
  if negb (should_track_invalid_request_failure source status error_context) then mret tt else
  match invalid_request_guard_key principal with
  | None => mret tt
  | Some key =>
      t ← now;
      let '(hits, blocked_until) := default ([], None) (invalid_request_guard s !! key) in
      let hits := prune_invalid_request_window hits t (invalid_request_guard_window s) in
      let blocked_until := live_block blocked_until t in
      let write entry total := modify (set_guard (<[key := entry]> (invalid_request_guard s)) total) in
      if match blocked_until with Some u => t <? u | None => false end
      then write (hits, blocked_until) (invalid_request_guard_block_total s)
      else
        let hits := hits ++ [t] in
        if (length hits <? invalid_request_guard_threshold s)%nat
        then write (hits, blocked_until) (invalid_request_guard_block_total s)
        else write ([], Some (t + invalid_request_guard_block_ttl s))
               (u64_wrap (invalid_request_guard_block_total s + 1))
  end.
End guard.
