(* ===== verification/FailoverFacts.v ===== *)
(** * Properties of error decisions, failover and the invalid-request guard *)
From S2P Require Import Prelude RustStr CoreModel Router RouterFacts RouterComplete.
From S2P Require Import RoutingCache RoutingCacheFacts Auth Failover.

#[local] Open Scope string_scope.
#[local] Open Scope list_scope.
#[local] Open Scope Z_scope.

(** ** Decisions *)

(** A decision that counts against the client neither retries nor fails over; one
    that fails over first says so. *)
Definition coherent (d : UpstreamErrorDecision) : Prop :=
  (track_invalid_request d = true → retry_scope d = RetryNone ∧ allow_cross_account_failover d = false) ∧
  (retry_scope d = RetryCross → allow_cross_account_failover d = true) ∧
  (retry_scope d = RetryNone → allow_cross_account_failover d = false).

Lemma decide_upstream_status_coherent source status : coherent (decide_upstream_status source status).
Proof. unfold decide_upstream_status. repeat case_match; split_and!; done. Qed.

Lemma decide_learned_coherent context learned recovery : coherent (decide_learned context learned recovery).
Proof.
  unfold decide_learned. destruct (ltr_action learned), (ltr_retry_scope learned); simpl;
    rewrite ?andb_false_r, ?andb_true_r; split_and!; done.
Qed.

Lemma decide_upstream_class_coherent source context recovery :
  coherent (decide_upstream_class source context recovery).
Proof.
  unfold decide_upstream_class.
  destruct (uec_class context); try (destruct (upstream_error_source_supports_server_retries source));
    try (split_and!; done).
  all: apply decide_upstream_status_coherent.
Qed.

Lemma decide_coherent source status ctx : coherent (decide source status ctx).
Proof.
  unfold decide, decide_upstream_error. destruct ctx as [context|]; [|apply decide_upstream_status_coherent].
  repeat case_match; try (split_and!; done).
  all: first [apply decide_learned_coherent|apply decide_upstream_class_coherent].
Qed.

(** ** Ejection times *)

Lemma as_secs_nonneg d : 0 <= d → 0 <= as_secs d.
Proof. intros. unfold as_secs. apply Z.div_pos; lia. Qed.

Lemma as_secs_from_secs n : as_secs (from_secs n) = n.
Proof. unfold as_secs, from_secs. apply Z.div_mul. lia. Qed.

(** The time an account is out of rotation, by class of error. *)
Definition ttl_range (class : UpstreamErrorClass) (base ttl : Duration) : Prop :=
  match class with
  | TokenInvalidated => from_secs 1 <= ttl <= from_secs 3600
  | AuthExpired => from_secs 600 <= ttl <= from_secs 3600
  | QuotaExhausted => from_secs 1800 <= ttl <= from_secs 86400
  | RateLimited => from_secs 30 <= ttl
  | TransientServer => from_secs 5 <= ttl <= from_secs 60
  | AccountDeactivated | Overloaded | UpstreamUnavailable => ttl = base
  | NonRetryableClient => False
  | UnknownClass => ttl = base ∨ from_secs 5 <= ttl <= from_secs 1800
  end.

Lemma clamp_secs lo hi z : lo <= hi → from_secs lo <= from_secs (clamp lo hi z) <= from_secs hi.
Proof. intros Hlh. pose proof (clamp_bounds lo hi z Hlh). unfold from_secs. lia. Qed.

Lemma auth_error_ttl_range base : from_secs 120 <= auth_error_ejection_ttl base <= from_secs 1800.
Proof. unfold auth_error_ejection_ttl. apply clamp_secs. lia. Qed.
Lemma server_error_ttl_range base : from_secs 5 <= server_error_ejection_ttl base <= from_secs 60.
Proof. unfold server_error_ejection_ttl. apply clamp_secs. lia. Qed.
Lemma auth_expired_ttl_range base : from_secs 600 <= auth_expired_ejection_ttl base <= from_secs 3600.
Proof. unfold auth_expired_ejection_ttl. apply clamp_secs. lia. Qed.

Lemma ejection_ttl_for_status_range status base overloaded ttl :
  ejection_ttl_for_status status base overloaded = Some ttl → ttl_range UnknownClass base ttl.
Proof.
  unfold ejection_ttl_for_status. pose proof (auth_error_ttl_range base).
  pose proof (server_error_ttl_range base). unfold from_secs in *.
  repeat case_match; intros [= <-]; simpl; unfold from_secs in *; lia.
Qed.

(** ** The guard's window *)

Lemma prune_keeps hits t window :
  (∀ x, head hits = Some x → (t - x) `max` 0 <= window) →
  prune_invalid_request_window hits t window = hits.
Proof.
  destruct hits as [|x hits]; [done|]. intros Hx. specialize (Hx x eq_refl). simpl.
  by destruct (Z.ltb_spec window ((t - x) `max` 0)); [lia|].
Qed.

Section guard.
Context `{Clock} `{UuidText}.
Context (principal : option ApiPrincipal) (source : UpstreamErrorSource) (status : Z)
  (ctx : option UpstreamErrorContext) (key : string).
Context (Hkey : invalid_request_guard_key principal = Some key)
  (Htrack : should_track_invalid_request_failure source status ctx = true).
Implicit Types w : Timed ProxyState.

Abbreviation fail_once := (record_invalid_request_guard_failure principal source status ctx).

(** The entry after [m] failures from tick [n0] on. *)
Definition hits_from (n0 m : nat) : list Instant := (λ i, clock i) <$> seq n0 m.

Definition guard_config (s : ProxyState) :=
  (invalid_request_guard_enabled s, invalid_request_guard_window s, invalid_request_guard_threshold s,
   invalid_request_guard_block_ttl s).

(** [m] failures counted since tick [n0], no block. *)
Definition counting (n0 m : nat) w : Prop :=
  invalid_request_guard_enabled (st w) = true ∧ ticks w = (n0 + m)%nat ∧
  default ([], None) (invalid_request_guard (st w) !! key) = (hits_from n0 m, None).

Lemma hits_from_prune n0 m t window :
  clock n0 <= t → t - clock n0 <= window → 0 <= window →
  prune_invalid_request_window (hits_from n0 m) t window = hits_from n0 m.
Proof.
  intros Ht Hw Hpos. apply prune_keeps. destruct m; [done|]. intros x [= <-]. lia.
Qed.

Lemma fail_counts n0 m w :
  counting n0 m w → 0 <= invalid_request_guard_window (st w) →
  clock (n0 + m) - clock n0 <= invalid_request_guard_window (st w) →
  (S m < invalid_request_guard_threshold (st w))%nat →
  wp fail_once (λ _ w', counting n0 (S m) w' ∧ guard_config (st w') = guard_config (st w)) w.
Proof.
  intros (Hen & Hticks & Hentry) Hw0 Hwin Hthr.
  unfold record_invalid_request_guard_failure. do 2 wp_step. rewrite Hen, Htrack, Hkey. cbn [negb].
  do 2 wp_step. rewrite Hentry, Hticks. cbn [live_block].
  rewrite hits_from_prune by (done || apply clock_mono; lia).
  assert (Hlen : length (hits_from n0 m ++ [clock (n0 + m)]) = S m).
  { rewrite length_app. unfold hits_from. rewrite length_fmap, length_seq. simpl. lia. }
  rewrite Hlen. destruct (Nat.ltb_spec (S m) (invalid_request_guard_threshold (st w))); [|lia].
  wp_step. split; [|unfold guard_config; simpl; by rewrite Hen].
  split_and!; [done|simpl; lia|]. simpl. rewrite lookup_insert_eq. simpl.
  unfold hits_from. rewrite seq_S, fmap_app. done.
Qed.

Lemma repeat_fail_counts m n0 k w :
  counting n0 k w → 0 <= invalid_request_guard_window (st w) →
  clock (n0 + k + m) - clock n0 <= invalid_request_guard_window (st w) →
  (k + m < invalid_request_guard_threshold (st w))%nat →
  wp (repeatM m fail_once) (λ _ w', counting n0 (k + m) w' ∧ guard_config (st w') = guard_config (st w)) w.
Proof.
  revert k w. induction m as [|m IH]; intros k w Hc Hw0 Hwin Hthr; simpl.
  { wp_step. by rewrite Nat.add_0_r. }
  wp_step. eapply wp_mono.
  { apply (fail_counts n0 k); [done|done| |lia].
    pose proof (clock_mono (n0 + k) (n0 + k + S m) ltac:(lia)). lia. }
  intros ? w1 [Hc1 Hcfg]. wp_step. assert (Hcfg' := Hcfg). injection Hcfg' as He1 Hw1 Ht1 Hb1.
  eapply wp_mono.
  { apply (IH (S k)); [done|congruence| |rewrite Ht1; lia].
    rewrite Hw1. by replace (n0 + S k + m)%nat with (n0 + k + S m)%nat by lia. }
  simpl. intros ? w2 [Hc2 Hcfg2]. wp_step. split; [|congruence].
  by replace (k + S m)%nat with (S k + m)%nat by lia.
Qed.

Lemma fail_blocks n0 m w :
  counting n0 m w → 0 <= invalid_request_guard_window (st w) →
  clock (n0 + m) - clock n0 <= invalid_request_guard_window (st w) →
  (invalid_request_guard_threshold (st w) ≤ S m)%nat →
  wp fail_once (λ _ w', invalid_request_guard_enabled (st w') = true ∧
    invalid_request_guard (st w') !! key
      = Some ([], Some (clock (n0 + m) + invalid_request_guard_block_ttl (st w)))) w.
Proof.
  intros (Hen & Hticks & Hentry) Hw0 Hwin Hthr.
  unfold record_invalid_request_guard_failure. do 2 wp_step. rewrite Hen, Htrack, Hkey. cbn [negb].
  do 2 wp_step. rewrite Hentry, Hticks. cbn [live_block].
  rewrite hits_from_prune by (done || apply clock_mono; lia).
  destruct (Nat.ltb_spec (length (hits_from n0 m ++ [clock (n0 + m)]))
              (invalid_request_guard_threshold (st w))) as [Hl|_].
  { rewrite length_app in Hl. unfold hits_from in Hl. rewrite length_fmap, length_seq in Hl.
    simpl in Hl. lia. }
  wp_step. split; [done|]. apply lookup_insert_eq.
Qed.

Lemma enforce_blocked hits u w :
  invalid_request_guard_enabled (st w) = true →
  invalid_request_guard (st w) !! key = Some (hits, Some u) → time w < u →
  wp (enforce_invalid_request_guard principal) (λ b _, b = true) w.
Proof.
  intros Hen Hentry Hu. unfold enforce_invalid_request_guard. do 2 wp_step. rewrite Hen, Hkey. simpl.
  do 2 wp_step. rewrite Hentry. wp_step. wp_step. wp_step. unfold time in Hu. simpl.
  destruct (Z.leb_spec u (clock (ticks w))); [lia|]. by apply Z.ltb_lt.
Qed.

Lemma enforce_counting n0 m w :
  counting n0 m w → wp (enforce_invalid_request_guard principal) (λ b _, b = false) w.
Proof.
  intros (Hen & _ & Hentry). unfold enforce_invalid_request_guard. do 2 wp_step. rewrite Hen, Hkey. simpl.
  do 2 wp_step. destruct (invalid_request_guard (st w) !! key) as [[hits b]|]; [|by wp_step].
  simpl in Hentry. simplify_eq. simpl. by wp_go.
Qed.
End guard.

(** ** Claims *)

(** Every decision about an upstream failure is coherent: a failure held
    against the client is neither retried nor failed over, a cross-account retry
    always allows failover, and no retry allows none. *)
Theorem upstream_decisions_coherent source status ctx :
  let d := decide source status ctx in
  (track_invalid_request d = true → retry_scope d = RetryNone ∧ allow_cross_account_failover d = false) ∧
  (retry_scope d = RetryCross → allow_cross_account_failover d = true) ∧
  (retry_scope d = RetryNone → allow_cross_account_failover d = false).
Proof. apply decide_coherent. Qed.

(** The time an account is ejected for is in the range of its class of error,
    in particular never zero (which would not eject); an invalid request never
    ejects the account. *)
Theorem ejection_ttl_in_range status base overloaded ctx outcome ttl :
  ejection_ttl_for_response status base overloaded ctx outcome = Some ttl →
  ttl_range (match ctx with Some c => uec_class c | None => UnknownClass end) base ttl ∧
  (0 < base → 0 < ttl).
Proof.
  intros Httl.
  enough (Hr : ttl_range (match ctx with Some c => uec_class c | None => UnknownClass end) base ttl).
  { split; [done|]. intros Hb. destruct ctx as [c|]; [destruct (uec_class c)|]; simpl in Hr;
      unfold from_secs in Hr; destruct_or?; lia. }
  unfold ejection_ttl_for_response in Httl.
  destruct ctx as [c|]; [|by eapply ejection_ttl_for_status_range].
  pose proof (auth_expired_ttl_range base). pose proof (server_error_ttl_range base).
  destruct (uec_class c); simpl; try done.
  - destruct outcome; simplify_eq; unfold from_secs in *; lia.
  - destruct outcome; by simplify_eq.
  - by simplify_eq.
  - simplify_eq. apply clamp_secs. lia.
  - simplify_eq. unfold rate_limited_ejection_ttl, from_secs. lia.
  - by simplify_eq.
  - by simplify_eq.
  - by simplify_eq.
  - by eapply ejection_ttl_for_status_range.
Qed.

Section claims.
Context `{Clock} `{HashOrder}.

(** The failover test finds an account to move to exactly when there is one:
    a positive answer comes with an enabled account of the pool that is not
    ejected, not tried yet and on the model's route; and when an eligible one
    exists the answer is positive (short of the wrap-around of the rotation). *)
Theorem failover_candidate_exists model key tried current (w : Timed ProxyState) :
  let r := ps_router (st w) in
  NoDup (ids_of r) → 0 <= cursor r → cursor r + 2 * Z.of_nat (length (accounts r)) < u64_modulus →
  wp (has_untried_cross_account_candidate model key tried current) (λ b w',
    (b = true → ∃ a, a ∈ accounts r ∧ ua_enabled a = true ∧ ua_id a ≠ current ∧ (ua_id a ∉ tried) ∧
       health (ps_router (st w')) !! ua_id a = None ∧
       ∀ l, candidate_ids (compiled_routing_plan r) model = Some l → ua_id a ∈ l) ∧
    ((∃ a, a ∈ accounts r ∧ ua_enabled a = true ∧ live (ua_id a) (mkTimed r (ticks w)) ∧
        routable (compiled_routing_plan r) model ({[current]} ∪ tried) a) → b = true)) w.
Proof.
  intros r Hnd Hc Hmax. unfold has_untried_cross_account_candidate. do 3 wp_step.
  apply wp_zoom. apply wp_intro. intros o [r' n'] Hrun. wp_step. simpl. split.
  - intros [a ->]%bool_decide_eq_true.
    destruct (wp_run _ _ _ _ _ (pick_for_model_selects _ _ _ _ (mkTimed r (ticks w)) Hnd) Hrun)
      as [Hfr Hs].
    destruct (Hs a eq_refl) as [(Hin & He & Hh) [Hex Hroute]].
    rewrite (pf_accounts _ _ Hfr) in Hin. exists a.
    split_and!; [done|done|set_solver|set_solver|done|exact Hroute].
  - intros (a & Ha & He & Hl & Hr). apply bool_decide_eq_true.
    exact (wp_run _ _ _ _ _ (pick_for_model_finds model key _ _ a (mkTimed r (ticks w))
      (conj Hnd (conj Ha (conj He Hl))) Hr Hc Hmax) Hrun).
Qed.

(** The failover deadline has no effect: with any two deadlines the decision
    and the state after it are the same. *)
Theorem failover_deadline_has_no_effect model key d1 d2 tried current retryable (w : Timed ProxyState) :
  should_cross_account_failover model key d1 tried current retryable w
  = should_cross_account_failover model key d2 tried current retryable w.
Proof.
  unfold should_cross_account_failover, mbind, st_bind, gets, now. simpl.
  destruct (_ || _); [done|].
  destruct (has_untried_cross_account_candidate _ _ _ _ w) as [[] w']; [|done]. simpl.
  by destruct (_ <? d1), (_ <? d2).
Qed.

(** A client with no record is let through while it has fewer tracked
    failures than the threshold; the failure that reaches the threshold within
    the window blocks it, for the block time. *)
Theorem guard_blocks_at_threshold `{UuidText} principal source status ctx key n (w : Timed ProxyState) :
  invalid_request_guard_key principal = Some key →
  should_track_invalid_request_failure source status ctx = true →
  invalid_request_guard_enabled (st w) = true → invalid_request_guard (st w) !! key = None →
  invalid_request_guard_threshold (st w) = S n → 0 <= invalid_request_guard_window (st w) →
  clock (ticks w + n) - clock (ticks w) <= invalid_request_guard_window (st w) →
  let fail_once := record_invalid_request_guard_failure principal source status ctx in
  wp (repeatM n fail_once) (λ _ w',
    wp (enforce_invalid_request_guard principal) (λ b _, b = false) w' ∧
    wp fail_once (λ _ w'',
      time w'' < clock (ticks w + n) + invalid_request_guard_block_ttl (st w) →
      wp (enforce_invalid_request_guard principal) (λ b _, b = true) w'') w') w.
Proof.
  intros Hkey Htrack Hen Hnone Hthr Hw0 Hwin fail_once.
  assert (Hc : counting key (ticks w) 0 w).
  { split_and!; [done|lia|]. by rewrite Hnone. }
  eapply wp_mono; [eapply (repeat_fail_counts principal source status ctx key Hkey Htrack n (ticks w) 0); try done|].
  { by rewrite Nat.add_0_r. }
  { rewrite Hthr. lia. }
  simpl. intros _ w1 [Hc1 Hcfg]. injection Hcfg as He1 Hwin1 Ht1 Hb1. split.
  - by eapply enforce_counting.
  - eapply wp_mono; [eapply fail_blocks; try done|].
    + by rewrite Hwin1.
    + by rewrite Hwin1.
    + by rewrite Ht1, Hthr.
    + simpl. intros _ w2 [Hen2 Hentry2] Hlt. rewrite Hb1 in Hentry2. by eapply enforce_blocked.
Qed.
End claims.

(** ** Witnesses *)

Module Witness.
#[local] Existing Instance unit_clock.
#[local] Existing Instance list_order.
#[local] Existing Instance RoutingCacheFacts.Witness.unary_uuid.

Definition quota_error : UpstreamErrorContext :=
  mkUpstreamErrorContext 200 429 (Some "usage_limit") None None (Some (from_secs 7200)) None
    QuotaExhausted None.

Lemma ejection_ttl_in_range_witness :
  ttl_range QuotaExhausted (from_secs 30) (from_secs 7200) ∧ (0 < from_secs 30 → 0 < from_secs 7200).
Proof.
  apply (ejection_ttl_in_range 200 (from_secs 30) false (Some quota_error) NotApplied (from_secs 7200)).
  vm_compute. reflexivity.
Defined.

Definition state : ProxyState :=
  mkProxyState (Router.new [Samples.account 1; Samples.account 2]) true true 1 0 0 0 0 true
    (from_secs 60) 2 (from_secs 120) ∅ 0.
Definition w0 : Timed ProxyState := mkTimed state 0.

Lemma failover_candidate_exists_witness :
  (has_untried_cross_account_candidate None None ∅ 1%N w0).1 = true ∧
  wp (has_untried_cross_account_candidate None None ∅ 1%N) (λ b w',
    (b = true → ∃ a, a ∈ accounts (ps_router state) ∧ ua_enabled a = true ∧ ua_id a ≠ 1%N ∧
       (ua_id a ∉ (∅ : gset Uuid)) ∧ health (ps_router (st w')) !! ua_id a = None ∧
       ∀ l, candidate_ids None None = Some l → ua_id a ∈ l) ∧
    ((∃ a, a ∈ accounts (ps_router state) ∧ ua_enabled a = true ∧
        live (ua_id a) (mkTimed (ps_router state) 0) ∧ routable None None ({[1%N]} ∪ ∅) a) → b = true)) w0.
Proof.
  split; [vm_compute; reflexivity|]. apply (failover_candidate_exists None None ∅ 1%N w0).
  - apply (bool_decide_unpack _). vm_compute. exact I.
  - vm_compute. discriminate.
  - vm_compute. reflexivity.
Defined.

Definition client : option ApiPrincipal := Some (local_principal "sk-client-token").

Lemma guard_blocks_at_threshold_witness :
  wp (repeatM 1 (record_invalid_request_guard_failure client Http 400 None)) (λ _ w',
    wp (enforce_invalid_request_guard client) (λ b _, b = false) w' ∧
    wp (record_invalid_request_guard_failure client Http 400 None) (λ _ w'',
      time w'' < clock 1 + from_secs 120 →
      wp (enforce_invalid_request_guard client) (λ b _, b = true) w'') w') w0.
Proof.
  apply (guard_blocks_at_threshold client Http 400 None "token:15:sk-clien" 1 w0).
  - vm_compute. reflexivity.
  - reflexivity.
  - reflexivity.
  - reflexivity.
  - reflexivity.
  - vm_compute. discriminate.
  - vm_compute. discriminate.
Defined.
End Witness.
