(* ===== verification/Json.v ===== *)
(** * JSON values: the part of [serde_json::Value] the proxy uses

    The parser and the printer are parameters. [Map] is the crate's default, a
    [BTreeMap]: the list of its entries in the order of their keys. *)
From S2P Require Import Prelude RustStr.

#[local] Open Scope string_scope.
#[local] Open Scope list_scope.
#[local] Open Scope Z_scope.

(** [serde_json::Number] is an integer of 64 bits, signed or unsigned, or a
    finite [f64], here its bits. *)
Inductive Value :=
  | VNull
  | VBool (b : bool)
  | VInt (z : Z)
  | VFloat (bits : Z)
  | VString (s : string)
  | VArray (items : list Value)
  | VObject (map : list (string * Value)).

Abbreviation Map := (list (string * Value)) (only parsing).

(** Induction with the hypothesis for every child. *)
Lemma Value_ind' (P : Value → Prop) :
  P VNull → (∀ b, P (VBool b)) → (∀ z, P (VInt z)) → (∀ x, P (VFloat x)) → (∀ s, P (VString s)) →
  (∀ l, Forall P l → P (VArray l)) → (∀ m, Forall (λ kv, P kv.2) m → P (VObject m)) →
  ∀ v, P v.
Proof.
  intros Hn Hb Hi Hf Hs Ha Ho. fix IH 1. intros [|b|z|x|s|l|m].
  1: exact Hn. 1: apply Hb. 1: apply Hi. 1: apply Hf. 1: apply Hs.
  - apply Ha. induction l as [|v l IHl]; constructor; [apply IH|apply IHl].
  - apply Ho. induction m as [|[k v] m IHm]; constructor; [apply IH|apply IHm].
Qed.

Fixpoint value_eqb (v w : Value) : bool :=
  match v, w with
  | VNull, VNull => true
  | VBool a, VBool b => Bool.eqb a b
  | VInt a, VInt b | VFloat a, VFloat b => a =? b
  | VString a, VString b => String.eqb a b
  | VArray l, VArray r =>
      (fix go l r := match l, r with
                     | [], [] => true
                     | x :: l, y :: r => value_eqb x y && go l r
                     | _, _ => false
                     end) l r
  | VObject l, VObject r =>
      (fix go l r := match l, r with
                     | [], [] => true
                     | (k, x) :: l, (j, y) :: r => String.eqb k j && value_eqb x y && go l r
                     | _, _ => false
                     end) l r
  | _, _ => false
  end.

Lemma value_eqb_refl v : value_eqb v v = true.
Proof.
  induction v as [|b|z|x|s|l IH|m IH] using Value_ind'; simpl;
    auto using Bool.eqb_reflx, Z.eqb_refl, String.eqb_refl.
  - induction IH as [|v l Hv _ IH]; [done|]. by rewrite Hv.
  - induction IH as [|[k v] m Hv _ IH]; [done|]. simpl in Hv. by rewrite String.eqb_refl, Hv.
Qed.

Lemma value_eqb_eq v w : value_eqb v w = true → v = w.
Proof.
  revert w. induction v as [|b|z|x|s|l IH|m IH] using Value_ind'; intros []; simpl; try done.
  - intros ?%Bool.eqb_prop. congruence.
  - intros ?%Z.eqb_eq. congruence.
  - intros ?%Z.eqb_eq. congruence.
  - intros ?%String.eqb_eq. congruence.
  - intros Hr. f_equal. revert items Hr.
    induction IH as [|v l Hv _ IH]; intros [|y r]; try done.
    intros [Hy Hr]%andb_prop. f_equal; [by apply Hv|by apply IH].
  - intros Hr. f_equal. revert map Hr.
    induction IH as [|[k v] m Hv _ IH]; intros [|[j y] r]; try done.
    intros [[->%String.eqb_eq Hy]%andb_prop Hr]%andb_prop. f_equal; [f_equal; by apply Hv|by apply IH].
Qed.

#[global] Instance value_eq_dec : EqDecision Value.
Proof.
  intros v w. destruct (value_eqb v w) eqn:He; [left; by apply value_eqb_eq|right].
  intros ->. by rewrite value_eqb_refl in He.
Defined.

(** ** Maps *)

Fixpoint map_get (k : string) (m : Map) : option Value :=
  match m with
  | [] => None
  | (j, v) :: m => if String.eqb j k then Some v else map_get k m
  end.

Fixpoint map_insert (k : string) (v : Value) (m : Map) : Map :=
  match m with
  | [] => [(k, v)]
  | (j, w) :: r =>
      match String.compare k j with
      | Lt => (k, v) :: m
      | Eq => (k, v) :: r
      | Gt => (j, w) :: map_insert k v r
      end
  end.

Definition map_remove (k : string) (m : Map) : Map :=
  List.filter (λ kv, negb (String.eqb kv.1 k)) m.

Definition map_contains (k : string) (m : Map) : bool := bool_decide (is_Some (map_get k m)).

(** Replace the value of a key in place, as through [get_mut]. *)
Definition map_update (k : string) (f : Value → Value) (m : Map) : Map :=
  map (λ kv, if String.eqb kv.1 k then (kv.1, f kv.2) else kv) m.

(** [json!] of an object. *)
Definition json_object (fields : Map) : Value :=
  VObject (fold_left (λ m kv, map_insert kv.1 kv.2 m) fields []).

(** [Value::get] with a string, and the [as_*] conversions. *)
Definition get (k : string) (v : Value) : option Value :=
  match v with VObject m => map_get k m | _ => None end.
Definition as_str (v : Value) : option string :=
  match v with VString s => Some s | _ => None end.
Definition as_bool (v : Value) : option bool :=
  match v with VBool b => Some b | _ => None end.
Definition as_i64 (v : Value) : option Z :=
  match v with
  | VInt z => if (i64_min <=? z) && (z <=? i64_max) then Some z else None
  | _ => None
  end.

(** [serde_json::from_slice] and [to_string], on the bytes of the text. *)
Class SerdeJson := {
  from_slice : string → option Value;
  to_string : Value → option string;
}.

(** ** Laws of maps *)

(** The keys of a [BTreeMap] are in increasing order. *)
Definition key_lt (a b : string) : Prop := String.compare a b = Lt.
Definition map_ok (m : Map) : Prop := StronglySorted key_lt m.*1.

Lemma key_compare_refl a : String.compare a a = Eq.
Proof.
  induction a as [|x a IH]; simpl; [done|]. unfold Ascii.compare. by rewrite N.compare_refl.
Qed.

Lemma key_lt_irrefl a : ¬ key_lt a a.
Proof. unfold key_lt. by rewrite key_compare_refl. Qed.

Lemma ascii_compare_N a b : Ascii.compare a b = N.compare (Ascii.N_of_ascii a) (Ascii.N_of_ascii b).
Proof. done. Qed.

Lemma key_lt_trans a b c : key_lt a b → key_lt b c → key_lt a c.
Proof.
  unfold key_lt. revert b c. induction a as [|x a IH]; intros [|y b] [|z c]; simpl; try done.
  rewrite !ascii_compare_N.
  destruct (N.compare_spec (Ascii.N_of_ascii x) (Ascii.N_of_ascii y)) as [Hxy|Hxy|Hxy];
    destruct (N.compare_spec (Ascii.N_of_ascii y) (Ascii.N_of_ascii z)) as [Hyz|Hyz|Hyz];
    destruct (N.compare_spec (Ascii.N_of_ascii x) (Ascii.N_of_ascii z)) as [Hxz|Hxz|Hxz];
    try done; try lia; apply IH.
Qed.

Lemma map_get_insert k v m j :
  map_get j (map_insert k v m) = if String.eqb k j then Some v else map_get j m.
Proof.
  induction m as [|[i w] m IH]; simpl; [done|].
  destruct (String.compare k i) eqn:Hc; simpl.
  - apply String.compare_eq_iff in Hc as ->. by destruct (String.eqb i j).
  - by destruct (String.eqb k j).
  - rewrite IH. destruct (String.eqb_spec i j) as [->|]; [|done].
    destruct (String.eqb_spec k j) as [->|]; [|done]. by rewrite key_compare_refl in Hc.
Qed.

Lemma map_get_remove k m j :
  map_get j (map_remove k m) = if String.eqb k j then None else map_get j m.
Proof.
  induction m as [|[i w] m IH]; simpl; [by destruct (String.eqb k j)|].
  destruct (String.eqb_spec i k) as [->|Hik]; simpl; rewrite IH.
  - by destruct (String.eqb k j).
  - destruct (String.eqb_spec i j) as [->|]; [|done].
    destruct (String.eqb_spec k j) as [->|]; done.
Qed.

Lemma map_get_update k f m j :
  map_get j (map_update k f m) = if String.eqb k j then f <$> map_get j m else map_get j m.
Proof.
  induction m as [|[i w] m IH]; simpl; [by destruct (String.eqb k j)|].
  destruct (String.eqb_spec i k) as [->|Hik]; simpl; rewrite IH.
  - by destruct (String.eqb k j).
  - destruct (String.eqb_spec i j) as [->|]; [|done].
    destruct (String.eqb_spec k j) as [->|]; done.
Qed.

Lemma map_get_elem k m v : map_get k m = Some v → (k, v) ∈ m.
Proof.
  induction m as [|[i w] m IH]; simpl; [done|].
  destruct (String.eqb_spec i k) as [->|]; intros; simplify_eq; [left|right; auto].
Qed.

Lemma map_keys_insert k v m : (map_insert k v m).*1 ⊆ k :: m.*1.
Proof.
  induction m as [|[i w] m IH]; simpl; [done|].
  destruct (String.compare k i); simpl; intros x Hx; set_solver.
Qed.

Lemma map_insert_ok k v m : map_ok m → map_ok (map_insert k v m).
Proof.
  unfold map_ok. induction m as [|[i w] m IH]; simpl; [repeat constructor|].
  intros [Hs Hf]%StronglySorted_inv. destruct (String.compare k i) eqn:Hc; simpl.
  - apply String.compare_eq_iff in Hc as ->. by constructor.
  - constructor; [by constructor|]. constructor; [done|].
    eapply Forall_impl; [|exact Hf]. intros j. by apply key_lt_trans.
  - constructor; [by apply IH|]. apply list.Forall_forall. intros j Hj%map_keys_insert.
    apply elem_of_cons in Hj as [->|Hj].
    + unfold key_lt. by rewrite String.compare_antisym, Hc.
    + rewrite list.Forall_forall in Hf. auto.
Qed.

Lemma map_insert_same k v m : map_ok m → map_get k m = Some v → map_insert k v m = m.
Proof.
  unfold map_ok. induction m as [|[i w] m IH]; simpl; [done|].
  intros [Hs Hf]%StronglySorted_inv. destruct (String.eqb_spec i k) as [->|Hne]; intros Hg.
  - simplify_eq. by rewrite key_compare_refl.
  - destruct (String.compare k i) eqn:Hc.
    + by apply String.compare_eq_iff in Hc as ->.
    + exfalso. apply map_get_elem, (list_elem_of_fmap_2 fst) in Hg. simpl in Hg.
      rewrite list.Forall_forall in Hf. apply (key_lt_irrefl k).
      eapply key_lt_trans; [exact Hc|auto].
    + f_equal. auto.
Qed.

Lemma map_remove_absent k m : map_get k m = None → map_remove k m = m.
Proof.
  induction m as [|[i w] m IH]; simpl; [done|]. destruct (String.eqb i k); simpl; [done|].
  intros Hg. f_equal. auto.
Qed.

Lemma map_update_same k f m :
  (∀ v, (k, v) ∈ m → f v = v) → map_update k f m = m.
Proof.
  induction m as [|[i w] m IH]; simpl; intros Hf; [done|].
  rewrite IH by (intros v Hv; apply Hf; by right).
  destruct (String.eqb_spec i k) as [->|]; [|done]. rewrite Hf; [done|left].
Qed.

Lemma map_keys_update k f m : (map_update k f m).*1 = m.*1.
Proof.
  induction m as [|[i w] m IH]; csimpl; [done|]. rewrite IH. by destruct (String.eqb i k).
Qed.

Lemma map_keys_remove k m : map_ok m → map_ok (map_remove k m).
Proof.
  unfold map_ok. induction m as [|[i w] m IH]; csimpl; [done|].
  intros [Hs Hf]%StronglySorted_inv. destruct (String.eqb i k); csimpl; [auto|].
  constructor; [auto|]. rewrite list.Forall_forall in *. intros j Hj. apply Hf.
  apply list_elem_of_fmap in Hj as ([j' v] & -> & Hj). apply list_elem_of_fmap. eexists (_, v).
  split; [done|]. apply list_elem_of_In in Hj. apply list_elem_of_In.
  unfold map_remove in Hj. by apply filter_In in Hj as [Hj _].
Qed.
