(* ===== verification/Request.v ===== *)
(** * From the client's request to the upstream request:
    [services/data-plane/src/proxy/request_utils.rs]

    The path, query, headers and body of the request the proxy sends upstream, the
    policy of the API key that it enforces first, the locale of its error messages
    ([proxy/error_learning.rs]), and the token usage it reads from the response.
    URLs, form encoding and decompression are library code and parameters. *)
From Stdlib Require Import Ascii.
From S2P Require Import Prelude RustStr CoreModel Auth RoutingCache Router Failover Json.

#[local] Open Scope string_scope.
#[local] Open Scope list_scope.
#[local] Open Scope Z_scope.

Definition CHATGPT_ACCOUNT_ID : string := "chatgpt-account-id".
Definition OPENAI_BETA_HEADER : string := "openai-beta".
Definition X_OPENAI_SUBAGENT_HEADER : string := "x-openai-subagent".
Definition SESSION_ID_HEADER : string := "session_id".
Definition X_SESSION_ID_HEADER : string := "x-session-id".
Definition X_CODEX_HEADER_PREFIX : string := "x-codex-".
Definition SEC_WEBSOCKET_PROTOCOL_HEADER : string := "sec-websocket-protocol".
Definition CODEX_CLIENT_VERSION_QUERY_KEY : string := "client_version".
Definition CODEX_MODELS_PATH_SUFFIX : string := "/models".
Definition CONVERSATION_ID_HEADER : string := "conversation_id".
(** [env!(CARGO_PKG_VERSION)], from the workspace's Cargo.toml. *)
Definition CARGO_PKG_VERSION : string := "0.1.2".

(** ** Paths and queries *)

(** [url::form_urlencoded] and [url::Url]. *)
Class FormUrlencoded := {
  form_parse : string → list (string * string);
  form_serialize : list (string * string) → string;
}.
Class UrlLibrary := {
  Url : Type;
  url_parse : string → option Url;
  url_path : Url → string;
  url_scheme : Url → string;
  set_path : string → Url → Url;
  set_query : option string → Url → Url;
  set_scheme : string → Url → option Url;
  url_to_string : Url → string;
}.

Definition normalize_input_path (path : string) : string :=
  if starts_with path "/" then path else "/" +:+ path.

Definition is_codex_mode (mode : UpstreamMode) : bool :=
  match mode with ChatGptSession | CodexOauth => true | _ => false end.

Definition is_chatgpt_codex_profile (mode : UpstreamMode) (base_path : string) : bool :=
  is_codex_mode mode && ends_with (trim_end_slashes base_path) "/backend-api/codex".

Definition canonical_codex_path (mode : UpstreamMode) (base_path path : string) : option string :=
  if negb (is_chatgpt_codex_profile mode base_path) then None else
  let p := normalize_input_path path in
  if bool_decide (p ∈ ["/v1/responses"; "/backend-api/codex/responses"]) then Some "/responses"
  else if bool_decide (p = "/v1/responses/compact") then Some "/responses/compact"
  else if bool_decide (p = "/v1/memories/trace_summarize") then Some "/memories/trace_summarize"
  else if bool_decide (p ∈ ["/v1/models"; "/backend-api/codex/models"]) then Some "/models"
  else None.

Definition compose_upstream_path (base_path path : string) : string :=
  let base_path := trim_end_slashes base_path in
  let normalized_path := normalize_input_path path in
  if is_empty base_path || String.eqb base_path "/" then normalized_path else
  let base_prefix := base_path +:+ "/" in
  if String.eqb normalized_path base_path || starts_with normalized_path base_prefix
  then normalized_path
  else base_path +:+ "/" +:+ drop_slashes normalized_path.

Definition normalize_upstream_path (mode : UpstreamMode) (base_path path : string) : string :=
  compose_upstream_path base_path (default path (canonical_codex_path mode base_path path)).

Definition should_enforce_codex_models_client_version (mode : UpstreamMode) (final_path : string) :
    bool :=
  is_codex_mode mode && ends_with final_path CODEX_MODELS_PATH_SUFFIX.

Definition ensure_client_version_query `{FormUrlencoded} (query version_header : option string) :
    string :=
  let pairs := from_option form_parse [] query in
  let has_client_version := existsb (λ kv, String.eqb kv.1 CODEX_CLIENT_VERSION_QUERY_KEY) pairs in
  let fallback_client_version :=
    default CARGO_PKG_VERSION (v ← trim <$> version_header; if is_empty v then None else Some v) in
  let serialized :=
    form_serialize (pairs ++ [(CODEX_CLIENT_VERSION_QUERY_KEY, fallback_client_version)]) in
  match query with
  | Some raw => if has_client_version then raw else serialized
  | None => serialized
  end.

Definition normalize_upstream_query `{FormUrlencoded} (mode : UpstreamMode) (final_path : string)
    (query version_header : option string) : option string :=
  if should_enforce_codex_models_client_version mode final_path
  then Some (ensure_client_version_query query version_header) else query.

Definition build_upstream_url `{FormUrlencoded} `{UrlLibrary} (base : string) (mode : UpstreamMode)
    (path : string) (query version_header : option string) : option string :=
  base_url ← url_parse base;
  let final_path := normalize_upstream_path mode (url_path base_url) path in
  let final_query := normalize_upstream_query mode final_path query version_header in
  Some (url_to_string (set_query final_query (set_path final_path base_url))).

Definition build_upstream_ws_url `{UrlLibrary} (base : string) (mode : UpstreamMode) (path : string)
    (query : option string) : option Url :=
  base_url ← url_parse base;
  let final_path := normalize_upstream_path mode (url_path base_url) path in
  let base_url := set_query query (set_path final_path base_url) in
  let scheme := url_scheme base_url in
  if bool_decide (scheme = "http") then set_scheme "ws" base_url
  else if bool_decide (scheme = "https") then set_scheme "wss" base_url
  else if bool_decide (scheme ∈ ["ws"; "wss"]) then Some base_url
  else None.

(** ** Headers *)

Definition header_contains (name : string) (headers : HeaderMap) : bool :=
  bool_decide (is_Some (header_get name headers)).

(** [HeaderMap::insert] replaces every value of the name. *)
Definition header_insert (name value : string) (headers : HeaderMap) : HeaderMap :=
  List.filter (λ h, negb (String.eqb h.1 name)) headers ++ [(name, value)].

Definition is_hop_by_hop_header (name : string) : bool :=
  bool_decide (to_ascii_lowercase name ∈
    ["connection"; "keep-alive"; "proxy-authenticate"; "proxy-authorization"; "te"; "trailer";
     "transfer-encoding"; "upgrade"]).

Definition is_compatibility_passthrough_header_name (name : string) : bool :=
  bool_decide (name ∈ [OPENAI_BETA_HEADER; X_OPENAI_SUBAGENT_HEADER; SESSION_ID_HEADER;
                       CONVERSATION_ID_HEADER; X_SESSION_ID_HEADER])
  || starts_with name X_CODEX_HEADER_PREFIX.

(** The names [apply_passthrough_headers] skips. *)
Definition is_skipped_header (strip_content_encoding : bool) (name : string) : bool :=
  negb (is_compatibility_passthrough_header_name name)
  && (is_hop_by_hop_header name
      || String.eqb name "host"
      || String.eqb name "content-length"
      || (strip_content_encoding && String.eqb name "content-encoding")
      || String.eqb name "authorization"
      || String.eqb name CHATGPT_ACCOUNT_ID).

(** The request builder is the list of headers added so far. *)
Fixpoint apply_passthrough_headers (request_builder headers : HeaderMap)
    (strip_content_encoding : bool) : HeaderMap :=
  match headers with
  | [] => request_builder
  | (name, value) :: headers =>
      if is_skipped_header strip_content_encoding name
      then apply_passthrough_headers request_builder headers strip_content_encoding
      else apply_passthrough_headers (request_builder ++ [(name, value)]) headers
             strip_content_encoding
  end.

Definition non_blank (raw : option string) : option string :=
  value ← trim <$> raw; if is_empty value then None else Some value.

(** The headers of the upstream request ([proxy_handler] in [entry.rs]). A value
    the HTTP library refuses makes the request fail when it is sent. *)
Definition upstream_request_headers (account : UpstreamAccount) (headers : HeaderMap)
    (strip_content_encoding : bool) : HeaderMap :=
  let request := apply_passthrough_headers [] headers strip_content_encoding in
  let session :=
    match header_get SESSION_ID_HEADER headers with
    | Some _ => None
    | None =>
        match header_get X_SESSION_ID_HEADER headers with
        | Some raw => non_blank (header_to_str raw)
        | None => non_blank (header_get CONVERSATION_ID_HEADER headers ≫= header_to_str)
        end
    end in
  let request := request ++ match session with Some v => [(SESSION_ID_HEADER, v)] | None => [] end in
  let request := request ++ [("authorization", "Bearer " +:+ ua_bearer_token account)] in
  request ++ match ua_chatgpt_account_id account with
             | Some id => [(CHATGPT_ACCOUNT_ID, id)]
             | None => []
             end.

Definition is_websocket_passthrough_header (name : string) (forward_subprotocol : bool) : bool :=
  is_compatibility_passthrough_header_name name
  || (forward_subprotocol && String.eqb name SEC_WEBSOCKET_PROTOCOL_HEADER).

Fixpoint apply_websocket_passthrough_headers (upstream_headers client_headers : HeaderMap)
    (forward_subprotocol : bool) : HeaderMap :=
  match client_headers with
  | [] => upstream_headers
  | (name, value) :: client_headers =>
      apply_websocket_passthrough_headers
        (if is_websocket_passthrough_header name forward_subprotocol
         then header_insert name value upstream_headers else upstream_headers)
        client_headers forward_subprotocol
  end.

(** The libraries under the WebSocket handshake: [HeaderValue::from_str], and
    [into_client_request], which gives the headers of the handshake. *)
Class WebSocketLibrary `{UrlLibrary} := {
  header_value_from_str : string → option string;
  into_client_request : Url → option HeaderMap;
}.

Definition build_upstream_websocket_request `{WebSocketLibrary} (base_url : string)
    (mode : UpstreamMode) (bearer_token : string) (chatgpt_account_id : option string) (path : string)
    (query : option string) (client_headers : HeaderMap) (forward_subprotocol : bool) :
    option (Url * HeaderMap) :=
  upstream_ws_url ← build_upstream_ws_url base_url mode path query;
  handshake ← into_client_request upstream_ws_url;
  let headers := apply_websocket_passthrough_headers handshake client_headers forward_subprotocol in
  authorization_header ← header_value_from_str ("Bearer " +:+ bearer_token);
  let headers := header_insert "authorization" authorization_header headers in
  match chatgpt_account_id with
  | Some id =>
      chatgpt_account_header ← header_value_from_str id;
      Some (upstream_ws_url, header_insert CHATGPT_ACCOUNT_ID chatgpt_account_header headers)
  | None => Some (upstream_ws_url, headers)
  end.

Definition sticky_session_key_from_headers (headers : HeaderMap) : option string :=
  head (omap (λ name, non_blank (header_get name headers ≫= header_to_str))
          [SESSION_ID_HEADER; CONVERSATION_ID_HEADER; X_SESSION_ID_HEADER; "x-codex-turn-state"]).

Definition is_codex_compat_request (headers : HeaderMap) : bool :=
  header_contains "x-codex-turn-state" headers
  || header_contains "x-codex-turn-metadata" headers
  || header_contains "x-codex-beta-features" headers.

Definition header_string (headers : HeaderMap) (name : string) : option string :=
  non_blank (header_get name headers ≫= header_to_str).

Definition header_bool (headers : HeaderMap) (name : string) : option bool :=
  value ← header_string headers name;
  let v := to_ascii_lowercase value in
  if bool_decide (v ∈ ["1"; "true"; "yes"; "on"]) then Some true
  else if bool_decide (v ∈ ["0"; "false"; "no"; "off"]) then Some false
  else None.

Definition extract_client_ip (headers : HeaderMap) : option string :=
  non_blank (value ← header_get "x-forwarded-for" headers; raw ← header_to_str value;
             head (split "," raw)).

Definition extract_upstream_request_id (headers : HeaderMap) : option string :=
  non_blank (header_get "x-request-id" headers ≫= header_to_str).

(** ** The request body *)

Definition MAX_ZSTD_DECOMPRESSED_BODY_BYTES : Z := 64 * 1024 * 1024.

(** The zstd decoder of a body: [None] when it cannot be built; otherwise what
    its [read] calls return, an error as [None], until the end of the data. *)
Class ZstdDecoder := { zstd_reads : string → option (list (option string)) }.

Fixpoint read_limited (max_bytes : Z) (output : string) (reads : list (option string)) :
    option string :=
  match reads with
  | [] => Some output
  | None :: _ => None
  | Some chunk :: reads =>
      if is_empty chunk then Some output else
      if max_bytes <? Z.of_nat (String.length output) + Z.of_nat (String.length chunk) then None
      else read_limited max_bytes (output +:+ chunk) reads
  end.

Definition decode_zstd_body_limited `{ZstdDecoder} (body : string) (max_bytes : Z) : option string :=
  zstd_reads body ≫= read_limited max_bytes "".

Definition has_zstd_content_encoding (headers : HeaderMap) : bool :=
  existsb (λ h, String.eqb h.1 "content-encoding" &&
                match header_to_str h.2 with
                | Some raw => existsb (λ e, eq_ignore_ascii_case (trim e) "zstd") (split "," raw)
                | None => false
                end) headers.

Definition parse_request_json_body `{SerdeJson} `{ZstdDecoder} (headers : HeaderMap) (body : string) :
    option Value :=
  if is_empty body then None else
  let decoded :=
    if has_zstd_content_encoding headers
    then decode_zstd_body_limited body MAX_ZSTD_DECOMPRESSED_BODY_BYTES ≫= from_slice
    else None in
  match decoded with
  | Some value => Some value
  | None => from_slice body
  end.

(** ** Adaptation of the body to the Codex profile *)

Definition normalize_service_tier_value (raw : string) : option string :=
  let trimmed := trim raw in
  if is_empty trimmed then None else
  let lowered := to_ascii_lowercase trimmed in
  if String.eqb lowered "fast" then Some "priority" else Some lowered.

(** The new value of the field, and whether it changed. *)
Definition adapt_codex_service_tier_field (field : option Value) : option string :=
  match field with
  | Some (VString service_tier) =>
      normalized ← normalize_service_tier_value service_tier;
      if String.eqb service_tier normalized then None else Some normalized
  | _ => None
  end.

Definition adapt_tier_in_map (object : Map) : Map * bool :=
  match adapt_codex_service_tier_field (map_get "service_tier" object) with
  | Some tier => (map_update "service_tier" (λ _, VString tier) object, true)
  | None => (object, false)
  end.

Definition adapt_codex_service_tier_fields_in_value (value : Value) : Value * bool :=
  match value with
  | VObject object =>
      let '(object, changed) := adapt_tier_in_map object in
      match map_get "response" object with
      | Some (VObject response_object) =>
          let '(response_object, changed_response) := adapt_tier_in_map response_object in
          (VObject (map_update "response" (λ _, VObject response_object) object),
           changed || changed_response)
      | _ => (VObject object, changed)
      end
  | _ => (value, false)
  end.

Definition adapt_codex_input_value (input : Value) : Value :=
  match input with
  | VString text =>
      VArray [VObject [("content", VArray [VObject [("text", VString text);
                                                   ("type", VString "input_text")]]);
                       ("role", VString "user")]]
  | VArray items => VArray items
  | VNull => VArray []
  | other => VArray [other]
  end.

Definition ensure_instructions (object : Map) : Map * bool :=
  match map_get "instructions" object with
  | Some (VString _) => (object, false)
  | _ => (map_insert "instructions" (VString "") object, true)
  end.

Definition adapt_input (object : Map) : Map * bool :=
  match map_get "input" object with
  | Some input =>
      let adapted_input := adapt_codex_input_value input in
      if bool_decide (input = adapted_input) then (object, false)
      else (map_insert "input" adapted_input object, true)
  | None => (object, false)
  end.

Definition remove_field (k : string) (object : Map) : Map * bool :=
  (map_remove k object, map_contains k object).

Definition adapt_stream_fields (removed_max_output_tokens original_stream : bool) (object : Map) :
    Map * bool :=
  let has_previous_response_id :=
    bool_decide (is_Some (non_blank (map_get "previous_response_id" object ≫= as_str))) in
  let force_store :=
    removed_max_output_tokens && negb has_previous_response_id && negb (map_contains "store" object) in
  let object := if force_store then map_insert "store" (VBool false) object else object in
  let object := if original_stream then object else map_insert "stream" (VBool true) object in
  (object, force_store || negb original_stream).

Definition original_stream_of (object : Map) : bool :=
  default false (map_get "stream" object ≫= as_bool).

(** The body of [maybe_adapt_openai_responses_request_for_codex_profile] between
    parsing and printing: the adapted value, whether it changed, and whether the
    client asked for a stream. *)
Definition adapt_codex_request (is_compact : bool) (value : Value) : option (Value * bool * bool) :=
  let '(value, changed) := adapt_codex_service_tier_fields_in_value value in
  match value with
  | VObject object =>
      let original_stream := original_stream_of object in
      let '(object, c1) := ensure_instructions object in
      let '(object, c2) := adapt_input object in
      let '(object, removed_max_output_tokens) := remove_field "max_output_tokens" object in
      let '(object, c3) := remove_field "conversation" object in
      let '(object, c4) :=
        if is_compact then
          let '(object, c4) := remove_field "store" object in
          let '(object, c5) := remove_field "stream" object in
          (object, c4 || c5)
        else adapt_stream_fields removed_max_output_tokens original_stream object in
      Some (VObject object, changed || c1 || c2 || removed_max_output_tokens || c3 || c4,
            original_stream)
  | _ => None
  end.

Record UpstreamRequestCompatibilityAdaptation := mkAdaptation {
  adapted_body : string;
  strip_content_encoding : bool;
  bridge_stream_response : bool;
}.

Definition maybe_adapt_openai_responses_request_for_codex_profile `{SerdeJson} `{ZstdDecoder}
    (mode : UpstreamMode) (base_path path : string) (headers : HeaderMap) (body : string) :
    option UpstreamRequestCompatibilityAdaptation :=
  if negb (is_chatgpt_codex_profile mode base_path) then None else
  let normalized_path := normalize_input_path path in
  if negb (bool_decide (normalized_path ∈ ["/v1/responses"; "/v1/responses/compact"])) then None else
  let is_compact := String.eqb normalized_path "/v1/responses/compact" in
  value ← parse_request_json_body headers body;
  '(value, changed, original_stream) ← adapt_codex_request is_compact value;
  if negb changed then None else
  body ← to_string value;
  Some (mkAdaptation body (header_contains "content-encoding" headers)
          (negb is_compact && negb original_stream)).

Definition rewrite_http_retry_request_body `{SerdeJson} (original_request_body : string)
    (error_context : option UpstreamErrorContext) : option string :=
  if negb (bool_decide ((error_context ≫= uec_error_code) = Some "previous_response_not_found"))
  then Some original_request_body else
  value ← from_slice original_request_body;
  match value with
  | VObject object =>
      if map_contains "previous_response_id" object
      then to_string (VObject (map_remove "previous_response_id" object))
      else Some original_request_body
  | _ => None
  end.

Definition extract_service_tier_from_field (field : option Value) : option string :=
  value ← field; raw ← as_str value; normalize_service_tier_value raw.

Definition extract_service_tier_from_value (value : Value) : option string :=
  match extract_service_tier_from_field (get "service_tier" value) with
  | Some tier => Some tier
  | None =>
      response ← get "response" value;
      extract_service_tier_from_field (get "service_tier" response)
  end.
