(* ===== verification/RequestPolicy.v ===== *)
(** * The policy of a request, its locale and its token usage:
    [services/data-plane/src/proxy/request_utils.rs], [proxy/error_learning.rs]

    What the proxy reads from a request before it is routed, the check of the API
    key's limits, the details of an upstream error, and the usage of a response. *)
From Stdlib Require Import Ascii.
From S2P Require Import Prelude RustStr CoreModel Auth RoutingCache Router Failover Json Request.

#[local] Open Scope string_scope.
#[local] Open Scope list_scope.
#[local] Open Scope Z_scope.

(** ** Locale *)

Definition DEFAULT_ERROR_LOCALE : string := "en".

Definition canonicalize_locale (raw : string) : option string :=
  let raw := trim raw in
  if is_empty raw then None else
  let normalized := to_ascii_lowercase (str_replace "_" "-" raw) in
  if starts_with normalized "zh-tw" || starts_with normalized "zh-hant" then Some "zh-TW"
  else if starts_with normalized "zh" then Some "zh-CN"
  else if starts_with normalized "ja" then Some "ja"
  else if starts_with normalized "ru" then Some "ru"
  else if starts_with normalized "en" then Some "en"
  else None.

Definition locale_from_accept_language (raw : string) : option string :=
  head (omap canonicalize_locale (omap (λ entry, head (split ";" entry)) (split "," raw))).

Definition detect_locale_from_headers (headers : HeaderMap) : option string :=
  match head (omap (λ name, value ← header_get name headers; raw ← header_to_str value;
                            canonicalize_locale raw)
                ["x-codex-locale"; "x-user-locale"; "content-language"]) with
  | Some locale => Some locale
  | None =>
      value ← header_get "accept-language" headers; raw ← header_to_str value;
      locale_from_accept_language raw
  end.

(** Visit the children one by one until the sample is full. *)
Fixpoint visit_until_full (max_chars : nat) (visits : list (string → string)) (output : string) :
    string :=
  match visits with
  | [] => output
  | visit :: visits =>
      let output := visit output in
      if (max_chars <=? char_count output)%nat then output
      else visit_until_full max_chars visits output
  end.

Fixpoint assoc {A} (k : string) (l : list (string * A)) : option A :=
  match l with
  | [] => None
  | (j, a) :: l => if String.eqb j k then Some a else assoc k l
  end.

Fixpoint collect_request_text_sample (max_chars : nat) (value : Value) (output : string) : string :=
  if (max_chars <=? char_count output)%nat then output else
  match value with
  | VString text => output +:+ (take_chars (max_chars - char_count output) text).1 +:+ " "
  | VArray items =>
      visit_until_full max_chars (map (λ item, collect_request_text_sample max_chars item) items) output
  | VObject m =>
      let children := map (λ kv, (kv.1, collect_request_text_sample max_chars kv.2)) m in
      visit_until_full max_chars
        (omap (λ key, assoc key children)
           ["instructions"; "input"; "text"; "content"; "messages"; "prompt"]) output
  | _ => output
  end.

Definition detect_locale_from_text (text : string) : option string :=
  let trimmed := trim text in
  if is_empty trimmed then None else
  let any lo hi := existsb (λ ch, (lo <=? ch) && (ch <=? hi))%N (chars trimmed) in
  if any 12352%N 12543%N then Some "ja"
  else if any 1024%N 1279%N then Some "ru"
  else if any 19968%N 40959%N then Some "zh-CN"
  else None.

Definition detect_locale_from_request_body `{SerdeJson} `{ZstdDecoder} (body : string) :
    option string :=
  value ← parse_request_json_body [] body;
  detect_locale_from_text (collect_request_text_sample 512 value "").

Definition detect_request_locale `{SerdeJson} `{ZstdDecoder} (headers : HeaderMap) (body : string) :
    string :=
  match detect_locale_from_headers headers with
  | Some locale => locale
  | None => default DEFAULT_ERROR_LOCALE (detect_locale_from_request_body body)
  end.

(** ** Token estimates *)

(** A [u64] as [i64]. *)
Definition wrap_i64 (z : Z) : Z := (z + 2 ^ 63) `mod` u64_modulus - 2 ^ 63.

Definition text_chars (v : option Value) : Z :=
  match v ≫= as_str with Some text => Z.of_nat (char_count text) | None => 0 end.

(** [Iterator::sum] of [usize]. *)
Definition usize_sum (l : list Z) : Z := fold_right (λ a b, u64_wrap (a + b)) 0 l.

Fixpoint collect_request_text_chars (value : Value) : Z :=
  match value with
  | VString text => Z.of_nat (char_count text)
  | VArray items => usize_sum (map (λ item, collect_request_text_chars item) items)
  | VObject m =>
      let children := map (λ kv, (kv.1, collect_request_text_chars kv.2)) m in
      let total := u64_saturating_add 0 (text_chars (map_get "text" m)) in
      let total := u64_saturating_add total (text_chars (map_get "input_text" m)) in
      let total := u64_saturating_add total (default 0 (assoc "content" children)) in
      u64_saturating_add total (default 0 (assoc "parts" children))
  | _ => 0
  end.

Definition rough_token_estimate_from_char_count (char_count : Z) : Z :=
  if char_count =? 0 then 0 else Z.quot (i64_saturating_add (wrap_i64 char_count) 3) 4.

Definition chars_of (v : option Value) : Z := from_option collect_request_text_chars 0 v.

Definition estimate_request_input_tokens (value : Value) : option Z :=
  let total := u64_saturating_add 0 (text_chars (get "instructions" value)) in
  let total := u64_saturating_add total (chars_of (get "input" value)) in
  let total := u64_saturating_add total (chars_of (get "messages" value)) in
  if total =? 0 then None else Some (rough_token_estimate_from_char_count total).

Definition estimate_response_output_tokens `{SerdeJson} (body : string) : option Z :=
  value ← from_slice body;
  let total := text_chars (get "output_text" value) in
  let total := if total =? 0 then chars_of (get "output" value) else total in
  let total := if total =? 0 then chars_of (get "choices" value) else total in
  let total := if total =? 0 then collect_request_text_chars value else total in
  if total =? 0 then None else Some (rough_token_estimate_from_char_count total).

(** ** What is read from a request *)

Record ParsedRequestPolicyContext := mkParsedRequestPolicyContext {
  prpc_model : option string;
  prpc_requested_service_tier : option string;
  prpc_stream : bool;
  prpc_request_id : option string;
  prpc_detected_locale : string;
  prpc_estimated_input_tokens : option Z;
  prpc_continuation_key_hint : option string;
  prpc_sticky_key_hint : option string;
  prpc_session_key_hint : option string;
  prpc_conversation_id : option string;
}.

(** [a.or_else(|| b)]. *)
Definition or_else {A} (a b : option A) : option A :=
  match a with Some x => Some x | None => b end.

Definition text_field (k : string) (value : Value) : option string := non_blank (get k value ≫= as_str).

Definition parse_request_policy_context `{SerdeJson} `{ZstdDecoder} (headers : HeaderMap)
    (body : string) : ParsedRequestPolicyContext :=
  let request_id := non_blank (header_get "x-request-id" headers ≫= header_to_str) in
  let detected_locale := detect_request_locale headers body in
  match parse_request_json_body headers body with
  | None =>
      mkParsedRequestPolicyContext None None false request_id detected_locale None None None None None
  | Some value =>
      let conversation_id := text_field "conversation" value in
      let prompt_cache_key := text_field "prompt_cache_key" value in
      let metadata_session_id := get "metadata" value ≫= text_field "session_id" in
      let previous_response_id := text_field "previous_response_id" value in
      mkParsedRequestPolicyContext
        (text_field "model" value)
        (extract_service_tier_from_value value)
        (default false (get "stream" value ≫= as_bool))
        request_id detected_locale
        (estimate_request_input_tokens value)
        previous_response_id
        (or_else (or_else (or_else prompt_cache_key metadata_session_id) previous_response_id)
           conversation_id)
        (or_else (or_else (or_else (or_else (sticky_session_key_from_headers headers)
           metadata_session_id) prompt_cache_key) conversation_id) previous_response_id)
        conversation_id
  end.

(** ** The policy of the API key *)

(** [json_error]: the status and the envelope of the response. *)
Definition json_error (status : Z) (code message : string) : Z * ErrorEnvelope :=
  (status, ErrorEnvelope_new code message).

(** The two lists of the key; [None] when the request is on them. *)
Definition check_ip_allowlist (principal : ApiPrincipal) (headers : HeaderMap) :
    option (Z * ErrorEnvelope) :=
  match key_ip_allowlist principal with
  | [] => None
  | allowlist =>
      match extract_client_ip headers with
      | None => Some (json_error 403 "ip_not_allowed" "missing client IP for whitelist validation")
      | Some client_ip =>
          if existsb (λ item, String.eqb item client_ip) allowlist then None
          else Some (json_error 403 "ip_not_allowed" "request IP is not in api key allowlist")
      end
  end.

Definition check_model_allowlist (principal : ApiPrincipal) (context : ParsedRequestPolicyContext) :
    option (Z * ErrorEnvelope) :=
  match key_model_allowlist principal with
  | [] => None
  | allowlist =>
      match prpc_model context with
      | None => Some (json_error 400 "model_required"
                        "model is required for model allowlist validation")
      | Some model =>
          if existsb (λ item, eq_ignore_ascii_case item model) allowlist then None
          else Some (json_error 403 "model_not_allowed"
                       "requested model is not in api key allowlist")
      end
  end.

Definition enforce_principal_request_policy (utc_now : DateTime) (principal : option ApiPrincipal)
    (headers : HeaderMap) (context : ParsedRequestPolicyContext) : result unit (Z * ErrorEnvelope) :=
  match principal with
  | None => Ok tt
  | Some principal =>
      if api_key_group_invalid principal then
        Err (json_error 403 "api_key_group_invalid"
               "api key group is unavailable; update the api key group assignment")
      else if negb (eq_ignore_ascii_case (default "active" (tenant_status principal)) "active") then
        Err (json_error 403 "tenant_inactive" "tenant is inactive")
      else if from_option (λ expires_at, expires_at <=? utc_now) false (tenant_expires_at principal) then
        Err (json_error 403 "tenant_expired" "tenant subscription/plan is expired")
      else if from_option (λ balance, balance <=? 0) false (balance_microcredits principal) then
        Err (json_error 402 "insufficient_credits" "tenant credits are insufficient")
      else match check_ip_allowlist principal headers, check_model_allowlist principal context with
           | Some response, _ | None, Some response => Err response
           | None, None => Ok tt
           end
  end.

(** ** Details of an upstream error *)

(** [String::from_utf8_lossy]. *)
Class Utf8 := { from_utf8_lossy : string → string }.

Definition extract_upstream_raw_error `{Utf8} (body : string) : option string :=
  non_blank (Some (from_utf8_lossy body)).

Definition str_at (path : list string) (value : Value) : option string :=
  fold_left (λ v k, v ≫= get k) path (Some value) ≫= as_str.

Definition extract_upstream_error_details `{SerdeJson} `{Utf8} (body : string) :
    option string * option string :=
  match from_slice body with
  | Some value =>
      (or_else (or_else (str_at ["error"; "code"] value) (str_at ["detail"; "code"] value))
         (str_at ["code"] value),
       or_else (or_else (or_else (or_else (str_at ["error"; "message"] value)
         (str_at ["detail"; "message"] value)) (str_at ["error"; "detail"] value))
         (str_at ["message"] value)) (str_at ["detail"] value))
  | None => (None, extract_upstream_raw_error body)
  end.

(** [DateTime::parse_from_rfc2822], in seconds since the epoch. *)
Class Rfc2822 := { parse_from_rfc2822 : string → option Z }.

(** [Retry-After] in seconds or as a date; [utc_now] in nanoseconds, the result a
    number of whole seconds. *)
Definition extract_retry_after `{Rfc2822} (utc_now : Z) (headers : HeaderMap) : option Duration :=
  raw ← header_string headers "retry-after";
  match parse_unsigned u64_max raw with
  | Some seconds => Some (from_secs seconds)
  | None =>
      target ← parse_from_rfc2822 raw;
      if from_secs target <=? utc_now then None
      else Some (from_secs (Z.max (as_secs (from_secs target - utc_now)) 0))
  end.

(** [build_upstream_error_context] on the response itself. *)
Definition upstream_error_context_of_response `{SerdeJson} `{Utf8} `{Rfc2822} (utc_now : Z)
    (status : Z) (headers : HeaderMap) (body : string) : option UpstreamErrorContext :=
  let '(error_code, error_message) := extract_upstream_error_details body in
  build_upstream_error_context status error_code error_message (extract_upstream_raw_error body)
    (extract_retry_after utc_now headers) (extract_upstream_request_id headers).

Definition normalize_upstream_error_response (source : UpstreamErrorSource)
    (error_context : UpstreamErrorContext) : Z * ErrorEnvelope :=
  let d := decide_upstream_error source (Some error_context) in
  json_error (uec_status error_context) (outward_code d) (outward_message d).

(** ** Usage of a response *)

Record UsageTokens := mkUsageTokens {
  input_tokens : Z;
  cached_input_tokens : Z;
  output_tokens : Z;
  reasoning_tokens : Z;
}.

Definition usage_tokens_from_usage_object (value : Value) : option UsageTokens :=
  usage ← get "usage" value;
  let input := or_else (get "input_tokens" usage) (get "prompt_tokens" usage) ≫= as_i64 in
  let output := or_else (get "output_tokens" usage) (get "completion_tokens" usage) ≫= as_i64 in
  let detail a b k := or_else (get a usage ≫= get k) (get b usage ≫= get k) ≫= as_i64 in
  let reasoning :=
    Z.max (default 0 (detail "output_tokens_details" "completion_tokens_details" "reasoning_tokens")) 0 in
  let normalized_input := Z.max (default 0 input) 0 in
  let normalized_output := Z.max (default reasoning output) 0 in
  let cached :=
    Z.min (Z.max (default 0 (detail "input_tokens_details" "prompt_tokens_details" "cached_tokens")) 0)
      normalized_input in
  if (normalized_input =? 0) && (normalized_output =? 0) && (reasoning =? 0) then None
  else Some (mkUsageTokens normalized_input cached normalized_output reasoning).

(** [Iterator::find_map] of results already computed. *)
Fixpoint first_some {A} (l : list (option A)) : option A :=
  match l with
  | [] => None
  | Some a :: _ => Some a
  | None :: l => first_some l
  end.

Fixpoint extract_usage_tokens_from_value (value : Value) : option UsageTokens :=
  match usage_tokens_from_usage_object value with
  | Some tokens => Some tokens
  | None =>
      match value with
      | VObject m => first_some (map (λ kv, extract_usage_tokens_from_value kv.2) m)
      | VArray items => first_some (map (λ item, extract_usage_tokens_from_value item) items)
      | _ => None
      end
  end.

Definition extract_usage_tokens `{SerdeJson} (body : string) : option UsageTokens :=
  from_slice body ≫= extract_usage_tokens_from_value.

Definition extract_response_service_tier `{SerdeJson} (body : string) : option string :=
  from_slice body ≫= extract_service_tier_from_value.
