(* ===== verification/RequestFacts.v ===== *)
(** * Properties of upstream requests

    Whose credentials a request carries upstream, where its path leads, what the
    adaptation to the Codex profile does to its body, whom the policy admits, and
    what usage is read from a response. *)
From Stdlib Require Import Ascii.
From S2P Require Import Prelude RustStr CoreModel Auth RoutingCache Router Failover Json.
From S2P Require Import Request RequestPolicy.

#[local] Open Scope string_scope.
#[local] Open Scope list_scope.
#[local] Open Scope Z_scope.

(** ** Headers *)

(** The values a list of headers has for a name. *)
Definition values_of (name : string) (headers : HeaderMap) : list string :=
  omap (λ h, if String.eqb h.1 name then Some h.2 else None) headers.

Lemma values_of_app name a b : values_of name (a ++ b) = values_of name a ++ values_of name b.
Proof. unfold values_of. by rewrite omap_app. Qed.

Lemma values_of_single name n v :
  values_of name [(n, v)] = if String.eqb n name then [v] else [].
Proof. unfold values_of. simpl. by destruct (String.eqb n name). Qed.

(** The names the proxy passes on whatever they are have nothing in common with
    the names it must not pass on. *)
Lemma compat_header_safe name :
  is_compatibility_passthrough_header_name name = true →
  is_hop_by_hop_header name = false ∧ name ≠ "host" ∧ name ≠ "content-length" ∧
  name ≠ "authorization" ∧ name ≠ CHATGPT_ACCOUNT_ID.
Proof.
  intros [H|H]%orb_prop.
  - apply bool_decide_eq_true in H.
    repeat (apply elem_of_cons in H as [->|H]; [by vm_compute|]). by apply elem_of_nil in H.
  - apply starts_with_spec in H as [r ->]. by split_and!.
Qed.

Lemma skipped_names strip name :
  is_hop_by_hop_header name = true ∨ name ∈ ["host"; "content-length"; "authorization"; CHATGPT_ACCOUNT_ID] →
  is_skipped_header strip name = true.
Proof.
  intros Hn. unfold is_skipped_header.
  destruct (is_compatibility_passthrough_header_name name) eqn:Hc.
  - apply compat_header_safe in Hc as (Hh & ? & ? & ? & ?). destruct Hn as [Hn|Hn]; [congruence|].
    repeat (apply elem_of_cons in Hn as [Hn|Hn]; [done|]). by apply elem_of_nil in Hn.
  - destruct Hn as [->|Hn]; [done|].
    repeat (apply elem_of_cons in Hn as [->|Hn]; [by destruct strip|]). by apply elem_of_nil in Hn.
Qed.

Lemma apply_passthrough_headers_spec builder headers strip :
  apply_passthrough_headers builder headers strip
  = builder ++ List.filter (λ h, negb (is_skipped_header strip h.1)) headers.
Proof.
  revert builder. induction headers as [|[n v] headers IH]; intros builder; simpl;
    [by rewrite app_nil_r|]. destruct (is_skipped_header strip n); simpl; rewrite IH; [done|].
  by rewrite <-app_assoc.
Qed.

Lemma values_of_passthrough name headers strip :
  is_skipped_header strip name = true →
  values_of name (List.filter (λ h, negb (is_skipped_header strip h.1)) headers) = [].
Proof.
  intros Hs. induction headers as [|[n v] headers IH]; simpl; [done|].
  destruct (is_skipped_header strip n) eqn:Hn; simpl; [done|].
  unfold values_of in *. simpl. destruct (String.eqb_spec n name) as [->|]; simpl; [congruence|done].
Qed.

(** The headers the proxy adds itself, after those of the client. *)
Lemma upstream_request_headers_split account headers strip :
  ∃ session, upstream_request_headers account headers strip =
    List.filter (λ h, negb (is_skipped_header strip h.1)) headers ++
    ((SESSION_ID_HEADER,.) <$> session) ++
    [("authorization", "Bearer " +:+ ua_bearer_token account)] ++
    ((CHATGPT_ACCOUNT_ID,.) <$> option_list (ua_chatgpt_account_id account)).
Proof.
  unfold upstream_request_headers. rewrite apply_passthrough_headers_spec. simpl.
  set (session := match header_get SESSION_ID_HEADER headers with Some _ => None | None => _ end).
  exists (option_list session).
  destruct session, (ua_chatgpt_account_id account); simpl; by rewrite <-?app_assoc, ?app_nil_r.
Qed.

Lemma values_of_tag name n l :
  values_of name ((n,.) <$> l) = if String.eqb n name then l else [].
Proof.
  unfold values_of. induction l as [|v l IH]; csimpl; [by destruct (String.eqb n name)|].
  rewrite IH. by destruct (String.eqb n name).
Qed.

(** ** Paths *)

Definition below (base path : string) : Prop :=
  path = base ∨ ∃ r, path = base +:+ "/" +:+ r.

Lemma compose_below base path :
  trim_end_slashes base ≠ "" → below (trim_end_slashes base) (compose_upstream_path base path).
Proof.
  intros Hne. unfold compose_upstream_path. set (b := trim_end_slashes base) in *.
  set (p := normalize_input_path path).
  destruct (is_empty b) eqn:He; [by destruct b|]. cbn [orb].
  destruct (String.eqb_spec b "/") as [Hb|_].
  { exfalso. by apply (trim_end_slashes_no_slash base ""). }
  destruct (String.eqb_spec p b) as [->|_]; [by left|]. cbn [orb].
  destruct (starts_with p (b +:+ "/")) eqn:Hs; right; [|eauto].
  apply starts_with_spec in Hs as [r ->]. exists r. by rewrite string_app_assoc.
Qed.

Lemma compose_fixes base path :
  starts_with path "/" = true → below (trim_end_slashes base) path →
  compose_upstream_path base path = path.
Proof.
  intros Hs Hb. unfold compose_upstream_path, normalize_input_path. rewrite Hs.
  destruct (_ || _); [done|]. destruct Hb as [->|[r ->]].
  - by rewrite String.eqb_refl.
  - assert (starts_with (trim_end_slashes base +:+ "/" +:+ r) (trim_end_slashes base +:+ "/") = true)
      as ->; [|by rewrite orb_true_r].
    apply starts_with_spec. exists r. by rewrite string_app_assoc.
Qed.

Lemma compose_absolute base path :
  starts_with (trim_end_slashes base) "/" = true ∨ trim_end_slashes base = "" →
  starts_with (compose_upstream_path base path) "/" = true.
Proof.
  intros Hb. unfold compose_upstream_path.
  assert (Hp : starts_with (normalize_input_path path) "/" = true).
  { unfold normalize_input_path. by destruct (starts_with path "/") eqn:?. }
  destruct Hb as [Hb| ->]; [|done]. destruct (_ || _); [done|]. destruct (_ || _); [done|].
  apply starts_with_spec in Hb as [r ->]. done.
Qed.

(** ** Adaptation to the Codex profile *)

Lemma normalize_service_tier_idemp raw tier :
  normalize_service_tier_value raw = Some tier → normalize_service_tier_value tier = Some tier.
Proof.
  unfold normalize_service_tier_value. destruct (is_empty (trim raw)) eqn:He; [done|].
  destruct (String.eqb_spec (to_ascii_lowercase (trim raw)) "fast") as [Hf|Hf]; intros; simplify_eq;
    [done|].
  rewrite trim_lower, trim_idemp, is_empty_lower, He, lower_idemp.
  by destruct (String.eqb_spec (to_ascii_lowercase (trim raw)) "fast").
Qed.

(** What the fields of an adapted request look like. *)
Definition tier_ok (v : option Value) : Prop := adapt_codex_service_tier_field v = None.
Definition response_tier_ok (m : Map) : Prop :=
  match map_get "response" m with
  | Some (VObject r) => tier_ok (map_get "service_tier" r)
  | _ => True
  end.

Lemma adapted_tier_ok v tier : adapt_codex_service_tier_field v = Some tier → tier_ok (Some (VString tier)).
Proof.
  unfold tier_ok, adapt_codex_service_tier_field. destruct v as [[| | | |s| |]|]; try done. simpl.
  destruct (normalize_service_tier_value s) as [n|] eqn:Hn; simpl; [|done].
  destruct (String.eqb s n); intros; simplify_eq.
  apply normalize_service_tier_idemp in Hn. rewrite Hn. simpl. by rewrite String.eqb_refl.
Qed.

Lemma adapt_tier_field v tier :
  adapt_codex_service_tier_field v = Some tier → is_Some v.
Proof. by destruct v. Qed.

Lemma adapt_tier_in_map_spec m m' c :
  adapt_tier_in_map m = (m', c) →
  tier_ok (map_get "service_tier" m') ∧ (∀ k, k ≠ "service_tier" → map_get k m' = map_get k m) ∧
  (c = false → m' = m) ∧ m'.*1 = m.*1 ∧ (map_get "service_tier" m = None → map_get "service_tier" m' = None).
Proof.
  unfold adapt_tier_in_map.
  destruct (adapt_codex_service_tier_field (map_get "service_tier" m)) as [tier|] eqn:Ht;
    intros; simplify_eq; [|done].
  split_and!; [| |done| |].
  - rewrite map_get_update, String.eqb_refl. destruct (map_get "service_tier" m); [|done].
    simpl. by eapply adapted_tier_ok.
  - intros k Hk. rewrite map_get_update. by destruct (String.eqb_spec "service_tier" k).
  - apply map_keys_update.
  - intros Hn. by rewrite Hn in Ht.
Qed.

Lemma adapt_tier_in_map_ok m : tier_ok (map_get "service_tier" m) → adapt_tier_in_map m = (m, false).
Proof. unfold adapt_tier_in_map. by intros ->. Qed.

(** A step of the adaptation: it keeps the map sorted, touches only the given
    keys, and reports a change when there is one. *)
Definition step_ok (keys : list string) (m : Map) (r : Map * bool) : Prop :=
  map_ok r.1 ∧ (∀ k, k ∉ keys → map_get k r.1 = map_get k m) ∧ (r.2 = false → r.1 = m).

Lemma step_ok_insert k v m (c : bool) :
  map_ok m → step_ok [k] m (if c then (map_insert k v m, true) else (m, false)).
Proof.
  intros Hm. destruct c; simpl; [|done]. split_and!; [by apply map_insert_ok| |done].
  intros j Hj. cbn [fst]. rewrite map_get_insert. destruct (String.eqb_spec k j) as [->|]; [set_solver|done].
Qed.

Lemma adapt_tier_step m : map_ok m → step_ok ["service_tier"] m (adapt_tier_in_map m).
Proof.
  intros Hm. destruct (adapt_tier_in_map m) as [m' c] eqn:He.
  apply adapt_tier_in_map_spec in He as (_ & Hk & Hc & Hkeys & _).
  split_and!; simpl; [by unfold map_ok; rewrite Hkeys| |done]. intros k Hk'. apply Hk. set_solver.
Qed.

Lemma ensure_instructions_step m : map_ok m →
  step_ok ["instructions"] m (ensure_instructions m) ∧
  ∃ s, map_get "instructions" (ensure_instructions m).1 = Some (VString s).
Proof.
  intros Hm. unfold ensure_instructions.
  assert (Hi := step_ok_insert "instructions" (VString "") m true Hm).
  destruct (map_get "instructions" m) as [[| | | |s| |]|] eqn:Hg;
    (split; [done|]); first [by exists s | exists ""; cbn [fst]; by rewrite map_get_insert].
Qed.

Lemma adapt_input_step m : map_ok m →
  step_ok ["input"] m (adapt_input m) ∧
  ∀ v, map_get "input" (adapt_input m).1 = Some v → ∃ items, v = VArray items.
Proof.
  intros Hm. unfold adapt_input. destruct (map_get "input" m) as [v|] eqn:Hg;
    [|split; [done|]; simpl; intros; congruence].
  assert (Ha : ∃ items, adapt_codex_input_value v = VArray items) by (destruct v; eauto).
  assert (Hi := step_ok_insert "input" (adapt_codex_input_value v) m true Hm).
  case_bool_decide as Heq; (split; [done|]); simpl.
  - intros w Hw. destruct Ha as [items Ha]. exists items. congruence.
  - intros w. rewrite map_get_insert. simpl. intros. simplify_eq. done.
Qed.

Lemma remove_field_step k m : map_ok m →
  step_ok [k] m (remove_field k m) ∧ map_get k (remove_field k m).1 = None.
Proof.
  intros Hm. unfold remove_field. simpl. split; [split_and!; simpl|].
  - by apply map_keys_remove.
  - intros j Hj. rewrite map_get_remove. destruct (String.eqb_spec k j) as [->|]; [set_solver|done].
  - unfold map_contains. intros Hc%bool_decide_eq_false. apply map_remove_absent.
    destruct (map_get k m); [|done]. destruct Hc. eauto.
  - by rewrite map_get_remove, String.eqb_refl.
Qed.

Lemma adapt_stream_step removed m : map_ok m →
  step_ok ["store"; "stream"] m (adapt_stream_fields removed (original_stream_of m) m) ∧
  map_get "stream" (adapt_stream_fields removed (original_stream_of m) m).1 = Some (VBool true).
Proof.
  intros Hm. unfold adapt_stream_fields.
  set (force := _ && _ && _). set (m1 := if force then _ else m).
  assert (H1 : step_ok ["store"] m (m1, force)).
  { assert (H1 := step_ok_insert "store" (VBool false) m force Hm). subst m1. by destruct force. }
  destruct H1 as (Hok & Hk & Hc).
  assert (H2 := step_ok_insert "stream" (VBool true) m1 (negb (original_stream_of m)) Hok).
  destruct (original_stream_of m) eqn:Ho; simpl in H2; simpl.
  - rewrite orb_false_r. split; [split_and!; [done| |done]; intros k Hn; apply Hk; set_solver|].
    rewrite Hk by set_solver. unfold original_stream_of in Ho.
    destruct (map_get "stream" m) as [[|[]| | | | |]|]; simpl in Ho; done.
  - rewrite orb_true_r. split; [|by rewrite map_get_insert]. destruct H2 as (H2 & H3 & _).
    split_and!; [done| |done]. intros k Hn. rewrite H3 by set_solver. apply Hk. set_solver.
Qed.

Lemma step_ok_trans keys keys' m r r' :
  step_ok keys m r → step_ok keys' r.1 r' → step_ok (keys ++ keys') m (r'.1, r.2 || r'.2).
Proof.
  intros (_ & Hk & Hc) (Hm & Hk' & Hc'). split_and!; simpl; [done| |].
  - intros k Hn. rewrite Hk', Hk; set_solver.
  - intros [? ?]%orb_false_elim. rewrite Hc', Hc; done.
Qed.

Lemma map_get_unique m k v w : map_ok m → map_get k m = Some v → (k, w) ∈ m → w = v.
Proof.
  unfold map_ok. induction m as [|[i x] m IH]; csimpl; [done|].
  intros [Hs Hf]%StronglySorted_inv Hg Hin. apply elem_of_cons in Hin as [?|Hin]; simplify_eq.
  - rewrite String.eqb_refl in Hg. congruence.
  - destruct (String.eqb_spec i k) as [->|]; [|auto]. exfalso. apply (key_lt_irrefl k).
    rewrite list.Forall_forall in Hf. apply Hf, list_elem_of_fmap. by exists (k, w).
Qed.

(** The tiers of a request and of the response inside it. *)
Lemma adapt_tiers_step m : map_ok m →
  ∃ m' c, adapt_codex_service_tier_fields_in_value (VObject m) = (VObject m', c) ∧
    step_ok ["service_tier"; "response"] m (m', c) ∧
    tier_ok (map_get "service_tier" m') ∧ response_tier_ok m'.
Proof.
  intros Hm. unfold adapt_codex_service_tier_fields_in_value.
  assert (H1 := adapt_tier_step m Hm). destruct (adapt_tier_in_map m) as [m1 c1] eqn:He.
  apply adapt_tier_in_map_spec in He as (Ht & _). destruct H1 as (Hok & Hk & Hc).
  assert (Hsame : step_ok ["service_tier"; "response"] m (m1, c1)).
  { split_and!; [done| |done]. intros k Hn. apply Hk. set_solver. }
  destruct (map_get "response" m1) as [[| | | | | |r]|] eqn:Hr;
    try (exists m1, c1; split_and!; try done; unfold response_tier_ok; by rewrite Hr).
  destruct (adapt_tier_in_map r) as [r' c2] eqn:He2.
  apply adapt_tier_in_map_spec in He2 as (Ht2 & _ & Hc2 & _).
  set (m2 := map_update "response" (λ _, VObject r') m1). exists m2, (c1 || c2).
  assert (H2 : step_ok ["response"] m1 (m2, c2)).
  { split_and!; simpl; [unfold map_ok, m2; by rewrite map_keys_update| |].
    - intros k Hn. unfold m2. rewrite map_get_update.
      destruct (String.eqb_spec "response" k) as [<-|]; [set_solver|done].
    - intros Hf. apply map_update_same. intros v Hin.
      rewrite (map_get_unique _ _ _ _ Hok Hr Hin), Hc2 by done. done. }
  split_and!; [done|by apply (step_ok_trans _ _ _ (m1, c1) _ (conj Hok (conj Hk Hc)) H2)| |].
  - unfold m2. by rewrite map_get_update.
  - unfold response_tier_ok, m2. rewrite map_get_update, Hr. done.
Qed.

(** What the Codex profile asks of a request: normalised tiers, instructions, an
    input that is a list, none of the fields it refuses, and a stream unless the
    request is compact. *)
Record conforms (is_compact : bool) (m : Map) : Prop := {
  cf_tier : tier_ok (map_get "service_tier" m);
  cf_response : response_tier_ok m;
  cf_instructions : ∃ s, map_get "instructions" m = Some (VString s);
  cf_input : ∀ v, map_get "input" m = Some v → ∃ items, v = VArray items;
  cf_max_output : map_get "max_output_tokens" m = None;
  cf_conversation : map_get "conversation" m = None;
  cf_stream : if is_compact then map_get "store" m = None ∧ map_get "stream" m = None
              else map_get "stream" m = Some (VBool true);
}.

Definition adapted_keys : list string :=
  ["service_tier"; "response"; "instructions"; "input"; "max_output_tokens"; "conversation";
   "store"; "stream"].

Lemma remove_field_absent k m : map_get k m = None → remove_field k m = (m, false).
Proof.
  intros Hn. unfold remove_field, map_contains. rewrite map_remove_absent by done.
  f_equal. apply bool_decide_eq_false. rewrite Hn. by intros [].
Qed.

Lemma conforms_tiers m :
  map_ok m → tier_ok (map_get "service_tier" m) → response_tier_ok m →
  adapt_codex_service_tier_fields_in_value (VObject m) = (VObject m, false).
Proof.
  intros Hm Ht Hr. unfold adapt_codex_service_tier_fields_in_value.
  rewrite adapt_tier_in_map_ok by done. unfold response_tier_ok in Hr.
  destruct (map_get "response" m) as [[| | | | | |r]|] eqn:Hg; try done.
  rewrite adapt_tier_in_map_ok by done. simpl. do 2 f_equal. apply map_update_same.
  intros v Hin. by rewrite (map_get_unique _ _ _ _ Hm Hg Hin).
Qed.

Lemma conforms_adapted is_compact m :
  map_ok m → conforms is_compact m →
  adapt_codex_request is_compact (VObject m) = Some (VObject m, false, negb is_compact).
Proof.
  intros Hm [Ht Hr [s Hi] Hin Hmax Hconv Hst]. unfold adapt_codex_request.
  rewrite conforms_tiers by done.
  assert (Hins : ensure_instructions m = (m, false)) by (unfold ensure_instructions; by rewrite Hi).
  assert (Hinp : adapt_input m = (m, false)).
  { unfold adapt_input. destruct (map_get "input" m) as [v|] eqn:Hg; [|done].
    destruct (Hin v eq_refl) as [items ->]. simpl. by rewrite bool_decide_eq_true_2. }
  rewrite Hins, Hinp, !remove_field_absent by done.
  destruct is_compact; [destruct Hst as [Hs1 Hs2]|].
  - rewrite !remove_field_absent by done. unfold original_stream_of. by rewrite Hs2.
  - unfold original_stream_of. rewrite Hst. simpl. done.
Qed.

Lemma original_stream_frame keys m r :
  step_ok keys m r → "stream" ∉ keys → original_stream_of r.1 = original_stream_of m.
Proof. intros (_ & Hk & _) Hn. unfold original_stream_of. by rewrite Hk. Qed.

Lemma response_tier_frame keys m r :
  step_ok keys m r → "response" ∉ keys → response_tier_ok m → response_tier_ok r.1.
Proof. intros (_ & Hk & _) Hn. unfold response_tier_ok. by rewrite Hk. Qed.

(** The last step, which depends on the kind of request. *)
Definition adapt_last (is_compact removed original_stream : bool) (m : Map) : Map * bool :=
  if is_compact then
    let '(m, c4) := remove_field "store" m in
    let '(m, c5) := remove_field "stream" m in (m, c4 || c5)
  else adapt_stream_fields removed original_stream m.

Lemma adapt_last_step is_compact removed m : map_ok m →
  step_ok ["store"; "stream"] m (adapt_last is_compact removed (original_stream_of m) m) ∧
  let m' := (adapt_last is_compact removed (original_stream_of m) m).1 in
  if is_compact then map_get "store" m' = None ∧ map_get "stream" m' = None
  else map_get "stream" m' = Some (VBool true).
Proof.
  intros Hm. destruct is_compact; [|by apply adapt_stream_step].
  destruct (remove_field_step "store" m Hm) as [H1 G1].
  destruct (remove_field_step "stream" (remove_field "store" m).1) as [H2 G2]; [apply H1|].
  split; [exact (step_ok_trans _ _ _ _ _ H1 H2)|]. simpl. split; [|exact G2].
  destruct H2 as (_ & Hk & _). etransitivity; [apply Hk; set_solver|exact G1].
Qed.

Lemma adapt_codex_request_steps is_compact m m0 c0 :
  adapt_codex_service_tier_fields_in_value (VObject m) = (VObject m0, c0) →
  let i := ensure_instructions m0 in
  let n := adapt_input i.1 in
  let x := remove_field "max_output_tokens" n.1 in
  let v := remove_field "conversation" x.1 in
  let l := adapt_last is_compact x.2 (original_stream_of m0) v.1 in
  adapt_codex_request is_compact (VObject m)
  = Some (VObject l.1, c0 || i.2 || n.2 || x.2 || v.2 || l.2, original_stream_of m0).
Proof.
  intros Ht. unfold adapt_codex_request, adapt_last. rewrite Ht.
  destruct (ensure_instructions m0) as [m1 c1]; simpl. destruct (adapt_input m1) as [m2 c2]; simpl.
  by destruct is_compact.
Qed.

Lemma adapt_codex_request_spec is_compact m :
  map_ok m → ∃ m' c, adapt_codex_request is_compact (VObject m) = Some (VObject m', c, original_stream_of m)
    ∧ step_ok adapted_keys m (m', c) ∧ conforms is_compact m'.
Proof.
  intros Hm. destruct (adapt_tiers_step m Hm) as (m0 & c0 & Heq & H0 & Ht & Hr).
  pose proof (adapt_codex_request_steps is_compact m m0 c0 Heq) as Hsteps. cbn zeta in Hsteps.
  destruct (ensure_instructions_step m0) as [H1 [s Hi]]; [apply H0|].
  set (i := ensure_instructions m0) in *.
  destruct (adapt_input_step i.1) as [H2 Hin]; [apply H1|]. set (n := adapt_input i.1) in *.
  destruct (remove_field_step "max_output_tokens" n.1) as [H3 Hmax]; [apply H2|].
  set (x := remove_field "max_output_tokens" n.1) in *.
  destruct (remove_field_step "conversation" x.1) as [H4 Hconv]; [apply H3|].
  set (v := remove_field "conversation" x.1) in *.
  assert (Hos : original_stream_of v.1 = original_stream_of m0).
  { rewrite (original_stream_frame _ _ _ H4), (original_stream_frame _ _ _ H3),
      (original_stream_frame _ _ _ H2), (original_stream_frame _ _ _ H1); set_solver. }
  destruct (adapt_last_step is_compact x.2 v.1) as [H5 Hst]; [apply H4|]. rewrite Hos in H5, Hst.
  set (l := adapt_last is_compact x.2 (original_stream_of m0) v.1) in *.
  assert (Hos0 := original_stream_frame _ _ _ H0 ltac:(set_solver)). simpl in Hos0.
  rewrite Hos0 in Hsteps.
  exists l.1, (c0 || i.2 || n.2 || x.2 || v.2 || l.2). split; [exact Hsteps|].
  assert (H6 := step_ok_trans _ _ _ _ _ (step_ok_trans _ _ _ _ _ (step_ok_trans _ _ _ _ _
    (step_ok_trans _ _ _ _ _ (step_ok_trans _ _ _ _ _ H0 H1) H2) H3) H4) H5).
  split; [exact H6|].
  destruct H1 as (_ & K1 & _), H2 as (_ & K2 & _), H3 as (_ & K3 & _), H4 as (_ & K4 & _).
  assert (Hr' : response_tier_ok l.1).
  { eapply (response_tier_frame _ _ _ H5); [set_solver|]. unfold response_tier_ok.
    rewrite K4, K3, K2, K1 by set_solver. exact Hr. }
  destruct H5 as (_ & K5 & _).
  constructor; [|exact Hr'| | | | |exact Hst].
  - rewrite K5, K4, K3, K2, K1 by set_solver. exact Ht.
  - rewrite K5, K4, K3, K2 by set_solver. eauto.
  - intros w. rewrite K5, K4, K3 by set_solver. apply Hin.
  - rewrite K5, K4 by set_solver. exact Hmax.
  - rewrite K5 by set_solver. exact Hconv.
Qed.

(** ** Policy *)

(** The requests the limits of an API key admit. *)
Record admits (utc_now : DateTime) (headers : HeaderMap) (context : ParsedRequestPolicyContext)
    (p : ApiPrincipal) : Prop := {
  ad_group : api_key_group_invalid p = false;
  ad_tenant : eq_ignore_ascii_case (default "active" (tenant_status p)) "active" = true;
  ad_expiry : ∀ t, tenant_expires_at p = Some t → utc_now < t;
  ad_balance : ∀ b, balance_microcredits p = Some b → 0 < b;
  ad_ip : key_ip_allowlist p = [] ∨
    ∃ ip, extract_client_ip headers = Some ip ∧ ip ∈ key_ip_allowlist p;
  ad_model : key_model_allowlist p = [] ∨
    ∃ model item, prpc_model context = Some model ∧ item ∈ key_model_allowlist p ∧
      eq_ignore_ascii_case item model = true;
}.

Lemma existsb_elem {A} (f : A → bool) l : existsb f l = true ↔ ∃ x, x ∈ l ∧ f x = true.
Proof.
  rewrite existsb_exists. by setoid_rewrite list_elem_of_In.
Qed.

Lemma check_ip_spec p headers :
  check_ip_allowlist p headers = None ↔
  key_ip_allowlist p = [] ∨ ∃ ip, extract_client_ip headers = Some ip ∧ ip ∈ key_ip_allowlist p.
Proof.
  unfold check_ip_allowlist. destruct (key_ip_allowlist p) as [|i l]; [by split; [left|]|].
  destruct (extract_client_ip headers) as [ip|]; [|naive_solver].
  destruct (existsb _ _) eqn:He.
  - apply existsb_elem in He as (x & Hx & ->%String.eqb_eq). split; [|done]. right. eauto.
  - split; [done|]. intros [?|(ip' & ? & Hin)]; [done|]. simplify_eq. apply not_true_iff_false in He.
    destruct He. apply existsb_elem. exists ip'. split; [done|apply String.eqb_refl].
Qed.

Lemma check_model_spec p context :
  check_model_allowlist p context = None ↔
  key_model_allowlist p = [] ∨ ∃ model item, prpc_model context = Some model ∧
    item ∈ key_model_allowlist p ∧ eq_ignore_ascii_case item model = true.
Proof.
  unfold check_model_allowlist. destruct (key_model_allowlist p) as [|i l]; [by split; [left|]|].
  destruct (prpc_model context) as [m|]; [|naive_solver].
  destruct (existsb _ _) eqn:He.
  - apply existsb_elem in He as (x & Hx & ?). split; [|done]. right. eauto.
  - split; [done|]. intros [?|(m' & x & ? & Hin & Hx)]; [done|]. simplify_eq.
    apply not_true_iff_false in He. destruct He. apply existsb_elem. eauto.
Qed.

Lemma from_option_leb (o : option Z) (f : Z → bool) (P : Z → Prop) :
  (∀ z, f z = false ↔ P z) → from_option f false o = false ↔ ∀ z, o = Some z → P z.
Proof. intros Hf. destruct o as [z|]; simpl; [rewrite Hf|]; naive_solver. Qed.

(** ** Usage *)

(** The values inside a value, itself included. *)
Inductive inside : Value → Value → Prop :=
  | inside_refl v : inside v v
  | inside_array v x l : x ∈ l → inside v x → inside v (VArray l)
  | inside_object v k x m : (k, x) ∈ m → inside v x → inside v (VObject m).

Lemma first_some_Some {A} (l : list (option A)) a : first_some l = Some a → Some a ∈ l.
Proof. induction l as [|[b|] l IH]; simpl; intros; simplify_eq; set_solver. Qed.

Lemma first_some_is_Some {A} (l : list (option A)) : is_Some (first_some l) ↔ ∃ a, Some a ∈ l.
Proof.
  induction l as [|[b|] l IH]; simpl.
  - split; [by intros []|intros [a Ha]; by apply elem_of_nil in Ha].
  - split; [intros _; exists b; left|eauto].
  - rewrite IH. split; intros [a Ha]; exists a; set_solver.
Qed.

Lemma extract_usage_found v t :
  extract_usage_tokens_from_value v = Some t →
  ∃ w, inside w v ∧ usage_tokens_from_usage_object w = Some t.
Proof.
  induction v as [|b|z|x|s|l IH|m IH] using Value_ind'; cbn [extract_usage_tokens_from_value];
    destruct (usage_tokens_from_usage_object _) as [t'|] eqn:Hu; try done;
    try (intros; simplify_eq; eexists; split; [apply inside_refl|done]).
  - intros (x & Hx & Hin)%first_some_Some%list_elem_of_fmap. rewrite list.Forall_forall in IH.
    destruct (IH x Hin (eq_sym Hx)) as (w & Hw & Ht). exists w. split; [by eapply inside_array|done].
  - intros ([k x] & Hx & Hin)%first_some_Some%list_elem_of_fmap. rewrite list.Forall_forall in IH.
    destruct (IH (k, x) Hin (eq_sym Hx)) as (w & Hw & Ht). exists w.
    split; [by eapply inside_object|done].
Qed.

Lemma extract_usage_complete w v :
  inside w v → is_Some (usage_tokens_from_usage_object w) →
  is_Some (extract_usage_tokens_from_value v).
Proof.
  induction 1 as [v|w x l Hin _ IH|w k x m Hin _ IH]; intros Hw.
  - destruct Hw as [t Hw]. destruct v; cbn [extract_usage_tokens_from_value]; rewrite Hw; by eexists.
  - cbn [extract_usage_tokens_from_value]. destruct (usage_tokens_from_usage_object (VArray l)); [by eexists|].
    apply first_some_is_Some. destruct (IH Hw) as [t Ht]. exists t.
    apply list_elem_of_fmap. eauto.
  - cbn [extract_usage_tokens_from_value]. destruct (usage_tokens_from_usage_object (VObject m)); [by eexists|].
    apply first_some_is_Some. destruct (IH Hw) as [t Ht]. exists t.
    apply list_elem_of_fmap. by exists (k, x).
Qed.

Lemma as_i64_range v z : v ≫= as_i64 = Some z → is_i64 z.
Proof.
  destruct v as [[]|]; simpl; try done. unfold is_i64. destruct (_ && _) eqn:Hb; [|done].
  intros. simplify_eq. lia.
Qed.

Lemma usage_tokens_bounds v t :
  usage_tokens_from_usage_object v = Some t →
  0 <= cached_input_tokens t <= input_tokens t ∧ input_tokens t <= i64_max ∧
  0 <= output_tokens t <= i64_max ∧ 0 <= reasoning_tokens t <= i64_max ∧
  0 < input_tokens t + output_tokens t + reasoning_tokens t.
Proof.
  unfold usage_tokens_from_usage_object. destruct (get "usage" v) as [usage|]; simpl; [|done].
  set (input := or_else _ _ ≫= as_i64). set (output := or_else (get "output_tokens" usage) _ ≫= as_i64).
  set (reason := or_else (get "output_tokens_details" usage ≫= _) _ ≫= as_i64).
  set (cached := or_else (get "input_tokens_details" usage ≫= _) _ ≫= as_i64).
  assert (Hr : ∀ (o : option Value) z, 0 <= z <= i64_max → default z (o ≫= as_i64) <= i64_max).
  { intros o z Hz. destruct (o ≫= as_i64) as [y|] eqn:Ho; simpl; [|lia].
    apply as_i64_range in Ho. unfold is_i64 in Ho. lia. }
  assert (Hmax : 0 <= 0 <= i64_max) by (unfold i64_max; lia).
  assert (H1 := Hr (or_else (get "input_tokens" usage) (get "prompt_tokens" usage)) 0 Hmax).
  assert (H2 : default 0 reason <= i64_max) by by apply Hr.
  assert (H3 := Hr (or_else (get "output_tokens" usage) (get "completion_tokens" usage))
                  (Z.max (default 0 reason) 0) ltac:(lia)).
  fold input in H1. fold output in H3.
  destruct (_ && _) eqn:Hz; [done|]. intros. simplify_eq. simpl. lia.
Qed.

(** ** WebSocket headers *)

Lemma values_of_insert name n v headers :
  values_of name (header_insert n v headers) = if String.eqb n name then [v] else values_of name headers.
Proof.
  unfold header_insert. rewrite values_of_app, values_of_single.
  assert (Hf : values_of name (List.filter (λ h, negb (String.eqb h.1 n)) headers)
               = if String.eqb n name then [] else values_of name headers).
  { unfold values_of. induction headers as [|[j w] headers IH]; [by destruct (String.eqb n name)|].
    simpl. destruct (String.eqb_spec j n) as [->|Hj]; csimpl; rewrite IH.
    - by destruct (String.eqb n name).
    - destruct (String.eqb_spec n name) as [->|]; [|done]. by rewrite (proj2 (String.eqb_neq j name)). }
  rewrite Hf. destruct (String.eqb n name); [done|]. by rewrite app_nil_r.
Qed.

Lemma values_of_websocket_passthrough name upstream client fwd :
  is_websocket_passthrough_header name fwd = false →
  values_of name (apply_websocket_passthrough_headers upstream client fwd) = values_of name upstream.
Proof.
  intros Hn. revert upstream. induction client as [|[j w] client IH]; intros upstream; simpl; [done|].
  rewrite IH. destruct (is_websocket_passthrough_header j fwd) eqn:Hj; [|done].
  rewrite values_of_insert. destruct (String.eqb_spec j name) as [->|]; [congruence|done].
Qed.

(** ** Decompression *)

Lemma read_limited_bounded max_bytes output reads decoded :
  read_limited max_bytes output reads = Some decoded →
  Z.of_nat (String.length output) <= max_bytes → Z.of_nat (String.length decoded) <= max_bytes.
Proof.
  revert output. induction reads as [|[chunk|] reads IH]; intros output; simpl; [congruence| |done].
  destruct (is_empty chunk); [congruence|]. destruct (_ <? _) eqn:Hlt; [done|]. intros Hr _.
  apply (IH _ Hr). rewrite string_app_length. lia.
Qed.

(** ** Claims *)


(** A WebSocket handshake carries the account's token and account id, whatever
    the client sent, and of the client's headers only those on the passthrough
    list. *)
Theorem websocket_request_carries_account_credentials `{WebSocketLibrary} base mode token account
    path query client fwd url headers :
  (∀ s v, header_value_from_str s = Some v → v = s) →
  build_upstream_websocket_request base mode token account path query client fwd = Some (url, headers) →
  ∃ handshake, into_client_request url = Some handshake ∧
    values_of "authorization" headers = ["Bearer " +:+ token] ∧
    values_of CHATGPT_ACCOUNT_ID headers
      = from_option (λ id, [id]) (values_of CHATGPT_ACCOUNT_ID handshake) account ∧
    ∀ name, name ∉ ["authorization"; CHATGPT_ACCOUNT_ID] →
      is_websocket_passthrough_header name fwd = false →
      values_of name headers = values_of name handshake.
Proof.
  intros Hv. unfold build_upstream_websocket_request.
  destruct (build_upstream_ws_url _ _ _ _) as [u|]; simpl; [|done].
  destruct (into_client_request u) as [h|] eqn:Hh; simpl; [|done].
  destruct (header_value_from_str _) as [a|] eqn:Ha; simpl; [|done]. apply Hv in Ha as ->.
  assert (Hc : ∀ name, name ∉ ["authorization"] → is_websocket_passthrough_header name fwd = false →
    values_of name (header_insert "authorization" ("Bearer " +:+ token)
      (apply_websocket_passthrough_headers h client fwd)) = values_of name h).
  { intros name Hn Hp. rewrite values_of_insert, values_of_websocket_passthrough by done.
    destruct (String.eqb_spec "authorization" name) as [<-|]; [set_solver|done]. }
  destruct account as [id|]; [destruct (header_value_from_str id) as [i|] eqn:Hi; simpl; [|done];
    apply Hv in Hi as ->|]; intros; simplify_eq; exists h; (split; [done|]); simpl.
  - rewrite !values_of_insert. split_and!; [done|done|]. intros name Hn Hp.
    rewrite values_of_insert. destruct (String.eqb_spec CHATGPT_ACCOUNT_ID name) as [<-|]; [set_solver|].
    apply Hc; [set_solver|done].
  - split_and!; [by rewrite values_of_insert|by apply Hc; [set_solver|destruct fwd]|].
    intros name Hn Hp. apply Hc; [set_solver|done].
Qed.

(** The path of an upstream request is the account's base path or lies below
    it, whatever path the client asked for; on an absolute base path the result is
    absolute, and composing it with the base path again does not change it. *)
Theorem upstream_path_stays_below_base mode base path :
  let b := trim_end_slashes base in
  let p := normalize_upstream_path mode base path in
  (b ≠ "" → below b p) ∧
  (b = "" ∨ starts_with b "/" = true → starts_with p "/" = true ∧ compose_upstream_path base p = p).
Proof.
  simpl. split; [apply compose_below|]. intros Hb.
  assert (Hs : starts_with (normalize_upstream_path mode base path) "/" = true)
    by (apply compose_absolute; tauto).
  split; [done|]. destruct Hb as [Hb|Hb].
  - unfold compose_upstream_path, normalize_input_path. by rewrite Hb, Hs.
  - apply compose_fixes; [done|]. apply compose_below. by intros He; rewrite He in Hb.
Qed.

(** C33: adapting a request body gives one that conforms to the Codex profile,
    changes only the fields the profile is about, reports a change whenever it
    makes one, and adapts an adapted body to itself, so a retry sends the same
    body; the reply is turned back into a single response exactly when the client
    did not ask for a stream. *)
Theorem adapted_request_conforms is_compact m :
  map_ok m →
  ∃ m' changed,
    adapt_codex_request is_compact (VObject m) = Some (VObject m', changed, original_stream_of m) ∧
    conforms is_compact m' ∧
    (∀ k, k ∉ adapted_keys → map_get k m' = map_get k m) ∧
    (changed = false → m' = m) ∧
    adapt_codex_request is_compact (VObject m') = Some (VObject m', false, negb is_compact).
Proof.
  intros Hm. destruct (adapt_codex_request_spec is_compact m Hm) as (m' & c & He & (Hok & Hk & Hc) & Hcf).
  exists m', c. split_and!; [done..|]. by apply conforms_adapted.
Qed.

(** C34: a request passes the policy check exactly when the key's group is valid,
    its tenant active, unexpired and in credit, and the client address and the
    model are on the key's lists or the lists are empty. *)
Theorem policy_admits_exactly utc_now principal headers context :
  enforce_principal_request_policy utc_now principal headers context = Ok tt ↔
  ∀ p, principal = Some p → admits utc_now headers context p.
Proof.
  destruct principal as [p|]; simpl; [|naive_solver].
  trans (admits utc_now headers context p); [|naive_solver].
  pose proof (check_ip_spec p headers) as Hip. pose proof (check_model_spec p context) as Hm.
  pose proof (from_option_leb (tenant_expires_at p) (λ t, t <=? utc_now) (λ t, utc_now < t)
    (λ t, Z.leb_gt t utc_now)) as Hexp.
  pose proof (from_option_leb (balance_microcredits p) (λ b, b <=? 0) (λ b, 0 < b)
    (λ b, Z.leb_gt b 0)) as Hbal.
  split.
  - destruct (api_key_group_invalid p) eqn:?; [done|].
    destruct (eq_ignore_ascii_case _ _) eqn:?; [|done]. destruct (from_option _ _ _); [done|].
    destruct (from_option _ _ (balance_microcredits p)); [done|].
    destruct (check_ip_allowlist p headers); [done|]. destruct (check_model_allowlist p context); [done|].
    intros _. constructor; tauto.
  - intros [-> -> He Hb Hi Hmo]. apply Hexp in He. apply Hbal in Hb. apply Hip in Hi. apply Hm in Hmo.
    cbn. by rewrite He, Hb, Hi, Hmo.
Qed.

(** The usage read from a response is that of some object inside it, present
    whenever there is one with a positive count; counts are not negative, fit in 64
    bits, and the cached input is part of the input. *)
Theorem usage_extraction_sound_and_complete v :
  (is_Some (extract_usage_tokens_from_value v) ↔
     ∃ w, inside w v ∧ is_Some (usage_tokens_from_usage_object w)) ∧
  ∀ t, extract_usage_tokens_from_value v = Some t →
    (∃ w, inside w v ∧ usage_tokens_from_usage_object w = Some t) ∧
    0 <= cached_input_tokens t <= input_tokens t ∧ input_tokens t <= i64_max ∧
    0 <= output_tokens t <= i64_max ∧ 0 <= reasoning_tokens t <= i64_max.
Proof.
  split.
  - split.
    + intros [t (w & Hw & Ht)%extract_usage_found]. exists w. split; [done|by eexists].
    + intros (w & Hw & Hs). by eapply extract_usage_complete.
  - intros t (w & Hw & Ht)%extract_usage_found. split; [eauto|].
    apply usage_tokens_bounds in Ht. tauto.
Qed.

Module Witness.
(** A URL is its path, under [https]. *)
#[local] Instance path_url : UrlLibrary :=
  {| Url := string; url_parse := Some; url_path u := u; url_scheme _ := "https";
     set_path p _ := p; set_query _ u := u; set_scheme _ u := Some u; url_to_string u := u |}.
#[local] Instance plain_ws : WebSocketLibrary :=
  {| header_value_from_str := Some; into_client_request _ := Some [("upgrade", "websocket")] |}.

Definition client : HeaderMap :=
  [("authorization", "Bearer client-key"); ("x-codex-turn-state", "t1"); ("cookie", "c")].
Definition target : @Url path_url := ("/backend-api/codex/responses" : string).
Definition handshake_headers : HeaderMap :=
  [("upgrade", "websocket"); ("x-codex-turn-state", "t1");
   ("authorization", "Bearer acct-token"); ("chatgpt-account-id", "acct_1")].

Lemma websocket_request_carries_account_credentials_witness :
  build_upstream_websocket_request "/backend-api/codex" CodexOauth "acct-token" (Some "acct_1")
    "/v1/responses" None client false = Some (target, handshake_headers) ∧
  ∃ handshake, into_client_request target = Some handshake ∧
    values_of "authorization" handshake_headers = ["Bearer acct-token"].
Proof.
  split; [by vm_compute|].
  destruct (websocket_request_carries_account_credentials "/backend-api/codex" CodexOauth "acct-token"
    (Some "acct_1") "/v1/responses" None client false target handshake_headers) as (h & Hh & Ha & _).
  - intros s v Hs. simpl in Hs. congruence.
  - by vm_compute.
  - exists h. split; [exact Hh|exact Ha].
Defined.

Definition body : Map :=
  [("conversation", VString "c1"); ("input", VString "hi"); ("max_output_tokens", VInt 5);
   ("model", VString "gpt-5"); ("service_tier", VString " Fast ")].
Definition adapted : Map :=
  [("input", adapt_codex_input_value (VString "hi")); ("instructions", VString "");
   ("model", VString "gpt-5"); ("service_tier", VString "priority"); ("store", VBool false);
   ("stream", VBool true)].

Lemma adapted_request_conforms_witness :
  adapt_codex_request false (VObject body) = Some (VObject adapted, true, false) ∧
  ∃ m' changed,
    adapt_codex_request false (VObject body) = Some (VObject m', changed, original_stream_of body) ∧
    conforms false m' ∧
    (∀ k, k ∉ adapted_keys → map_get k m' = map_get k body) ∧
    (changed = false → m' = body) ∧
    adapt_codex_request false (VObject m') = Some (VObject m', false, true).
Proof.
  split; [by vm_compute|]. apply (adapted_request_conforms false body).
  unfold map_ok. repeat (constructor; [|by repeat constructor]). constructor.
Defined.
End Witness.
