(* ===== verification/ErrorLearning.v ===== *)
(** * Learned error templates: [services/data-plane/src/proxy/error_learning.rs]

    An upstream error is given a fingerprint and looked up among the approved
    templates of the configuration; an unknown one may be sent to the control
    plane, without the client's content. The regular expressions are evaluated by
    the regex crate, a parameter. *)
From Stdlib Require Import Ascii.
From S2P Require Import Prelude RustStr CoreModel Auth RoutingCache Router Failover Json.
From S2P Require Import Request RequestPolicy OutboundProxy Snapshot.

#[local] Open Scope string_scope.
#[local] Open Scope list_scope.
#[local] Open Scope Z_scope.

Definition SANITIZED_UPSTREAM_RAW_MAX_CHARS : Z := 2048.
Definition SANITIZED_UPSTREAM_RAW_MAX_DEPTH : nat := 6.
Definition SANITIZED_UPSTREAM_RAW_MAX_ITEMS : nat := 12.

(** [Regex::replace_all] of a pattern in a text by a replacement. *)
Class RegexLibrary := { replace_all : string → string → string → string }.

Definition EMAIL_RE : string := "(?i)\b[a-z0-9._%+\-]+@[a-z0-9.\-]+\.[a-z]{2,}\b".
Definition UUID_RE : string :=
  "(?i)\b[0-9a-f]{8}-[0-9a-f]{4}-[1-5][0-9a-f]{3}-[89ab][0-9a-f]{3}-[0-9a-f]{12}\b".
Definition REQUEST_ID_RE : string := "\b(?:req|resp|msg|conv|chatcmpl|cmpl|file)_[a-z0-9_\-]+\b".
Definition MODEL_RE : string :=
  "\b(?:gpt-[a-z0-9.\-]+|o\d[a-z0-9.\-]*|codex[a-z0-9.\-]+|claude-[a-z0-9.\-]+|gemini-[a-z0-9.\-]+|deepseek-[a-z0-9.\-]+)\b".
Definition NUMBER_RE : string := "\b\d{4,}\b".
Definition WHITESPACE_RE : string := "\s+".

(** ** Sanitising *)

Definition is_sensitive_upstream_error_key (key : string) : bool :=
  bool_decide (to_ascii_lowercase (trim key) ∈
    ["input"; "prompt"; "messages"; "instructions"; "content"; "text"; "arguments"; "args";
     "user_prompt"; "conversation"; "history"; "tool_input"; "tool_output"; "tool_calls"; "response";
     "completion"; "raw_input"; "raw_prompt"; "file"; "files"; "attachment"; "attachments"]).

(** [keys.sort()], in the order of the bytes. *)
Definition key_le (a b : string) : Prop := String.compare a b ≠ Gt.
#[global] Instance key_le_dec : RelDecision key_le.
Proof. intros a b. unfold key_le, Decision. destruct (String.compare a b); [left|left|right]; auto. Defined.
Definition sort_keys (keys : list string) : list string := merge_sort key_le keys.

Section sanitise.
Context `{RegexLibrary}.

(** The replacements both normalisations end with. *)
Definition replace_details (text : string) : string :=
  let text := replace_all EMAIL_RE text "{email}" in
  let text := replace_all UUID_RE text "{id}" in
  let text := replace_all REQUEST_ID_RE text "{id}" in
  let text := replace_all MODEL_RE text "{model}" in
  let text := replace_all NUMBER_RE text "{number}" in
  replace_all WHITESPACE_RE (trim text) " ".

Definition sanitize_upstream_error_text (text : string) (model : option string) : string :=
  let sanitized := trim text in
  let sanitized := match non_blank model with
                   | Some model => str_replace model "{model}" sanitized
                   | None => sanitized
                   end in
  replace_details sanitized.

(** The recursion is on the levels left, [SANITIZED_UPSTREAM_RAW_MAX_DEPTH] less
    the depth. *)
Fixpoint sanitize_value (levels : nat) (value : Value) (key : option string) (model : option string) :
    Value :=
  if from_option is_sensitive_upstream_error_key false key then VString "[redacted]" else
  match levels with
  | O => VString "[truncated]"
  | S levels =>
      match value with
      | VObject m =>
          let sanitized :=
            fold_left
              (λ acc k, match map_get k m with
                        | Some child => map_insert k (sanitize_value levels child (Some k) model) acc
                        | None => acc
                        end)
              (firstn SANITIZED_UPSTREAM_RAW_MAX_ITEMS (sort_keys (map fst m))) [] in
          VObject (if (SANITIZED_UPSTREAM_RAW_MAX_ITEMS <? length m)%nat
                   then map_insert "_truncated" (VBool true) sanitized else sanitized)
      | VArray items =>
          VArray (map (λ item, sanitize_value levels item None model)
                    (firstn SANITIZED_UPSTREAM_RAW_MAX_ITEMS items)
                  ++ if (SANITIZED_UPSTREAM_RAW_MAX_ITEMS <? length items)%nat
                     then [VString "[truncated]"] else [])
      | VString text => VString (sanitize_upstream_error_text text model)
      | _ => value
      end
  end.

Definition sanitize_upstream_error_json_value (value : Value) (key : option string) (depth : nat)
    (model : option string) : Value :=
  sanitize_value (SANITIZED_UPSTREAM_RAW_MAX_DEPTH - depth) value key model.

Definition truncate_upstream_error_text (value : string) : string :=
  let '(truncated, rest) := take_chars (Z.to_nat SANITIZED_UPSTREAM_RAW_MAX_CHARS) value in
  if is_empty rest then truncated else truncated +:+ "...[truncated]".

Definition sanitize_upstream_error_raw `{SerdeJson} (raw model : option string) : option string :=
  raw ← non_blank raw;
  let sanitized :=
    match from_slice raw with
    | Some value => default (sanitize_upstream_error_text raw model)
                      (to_string (sanitize_upstream_error_json_value value None 0 model))
    | None => sanitize_upstream_error_text raw model
    end in
  Some (truncate_upstream_error_text sanitized).

Definition normalize_upstream_error_fingerprint (provider : string) (normalized_status_code : Z)
    (normalized_upstream_message : string) (model : option string) : string :=
  let normalized := to_ascii_lowercase (trim normalized_upstream_message) in
  let normalized := match to_ascii_lowercase <$> non_blank model with
                    | Some model => str_replace model "{model}" normalized
                    | None => normalized
                    end in
  to_ascii_lowercase (trim provider) +:+ ":" +:+ decimal normalized_status_code +:+ ":" +:+
  replace_details normalized.
End sanitise.

(** ** Localised messages *)

Definition localized_template (templates : LocalizedErrorTemplates) (locale : string) :
    option string :=
  let locale := default DEFAULT_ERROR_LOCALE (canonicalize_locale locale) in
  if String.eqb locale "zh-CN" then let_zh_cn templates
  else if String.eqb locale "zh-TW" then let_zh_tw templates
  else if String.eqb locale "ja" then let_ja templates
  else if String.eqb locale "ru" then let_ru templates
  else let_en templates.

Definition localized_message_from_template (template : UpstreamErrorTemplateRecord)
    (locale : string) : option string :=
  localized_template (uetr_templates template) locale.

(** [BuiltinLikeTemplate] has one implementation. *)
Definition localized_message_from_template_like (template : BuiltinErrorTemplateRecord)
    (locale : string) : option string :=
  localized_template (betr_templates template) locale.

Definition builtin_error_template_key (kind : BuiltinErrorTemplateKind) (code : string) : string :=
  (match kind with GatewayError => "gateway_error" | HeuristicUpstream => "heuristic_upstream" end)
  +:+ ":" +:+ code.

Definition localized_message_from_builtin_template (state : AppState) (code locale : string) :
    option string :=
  template ← builtin_error_templates state !! builtin_error_template_key GatewayError code;
  localized_message_from_template_like template locale.

(** The texts built into [localized_gateway_message], by locale and code. *)
Definition gateway_messages (locale : string) : list (string * string) :=
  if String.eqb locale "zh-CN" then
    [("payload_too_large", "请求体超过了服务端限制。");
     ("invalid_request_body", "请求体解析失败。");
     ("no_upstream_account", "当前没有可用的上游账号。");
     ("invalid_upstream_url", "上游地址无效。");
     ("upstream_transport_error", "上游请求失败。");
     ("proxy_unavailable", "当前配置的出口代理不可用。");
     ("invalid_websocket_upgrade", "无效的 WebSocket 升级请求。");
     ("upstream_websocket_connect_error", "连接上游 WebSocket 失败。");
     ("websocket_upgrade_required", "上游要求使用 WebSocket 协议升级。");
     ("websocket_handshake_error", "上游 WebSocket 握手失败。");
     ("invalid_request_rate_limited", "无效请求过多，请稍后再试。")]
  else if String.eqb locale "zh-TW" then
    [("payload_too_large", "請求體超過了伺服器限制。");
     ("invalid_request_body", "請求體解析失敗。");
     ("no_upstream_account", "目前沒有可用的上游帳號。");
     ("invalid_upstream_url", "上游位址無效。");
     ("upstream_transport_error", "上游請求失敗。");
     ("proxy_unavailable", "目前設定的出口代理不可用。");
     ("invalid_websocket_upgrade", "無效的 WebSocket 升級請求。");
     ("upstream_websocket_connect_error", "連接上游 WebSocket 失敗。");
     ("websocket_upgrade_required", "上游要求使用 WebSocket 協議升級。");
     ("websocket_handshake_error", "上游 WebSocket 握手失敗。");
     ("invalid_request_rate_limited", "無效請求過多，請稍後再試。")]
  else if String.eqb locale "ja" then
    [("payload_too_large", "リクエスト本文がサーバー制限を超えています。");
     ("invalid_request_body", "リクエスト本文を解析できませんでした。");
     ("no_upstream_account", "利用可能な上流アカウントがありません。");
     ("invalid_upstream_url", "上流 URL が無効です。");
     ("upstream_transport_error", "上流リクエストに失敗しました。");
     ("proxy_unavailable", "設定されたアウトバウンドプロキシは現在利用できません。");
     ("invalid_websocket_upgrade", "無効な WebSocket アップグレード要求です。");
     ("upstream_websocket_connect_error", "上流 WebSocket への接続に失敗しました。");
     ("websocket_upgrade_required", "上流は WebSocket アップグレードを要求しています。");
     ("websocket_handshake_error", "上流 WebSocket ハンドシェイクに失敗しました。");
     ("invalid_request_rate_limited", "無効なリクエストが多すぎます。しばらくしてから再試行してください。")]
  else if String.eqb locale "ru" then
    [("payload_too_large", "Тело запроса превышает лимит сервера.");
     ("invalid_request_body", "Не удалось разобрать тело запроса.");
     ("no_upstream_account", "Сейчас нет доступных upstream-аккаунтов.");
     ("invalid_upstream_url", "Некорректный upstream URL.");
     ("upstream_transport_error", "Ошибка запроса к upstream.");
     ("proxy_unavailable", "Настроенный исходящий прокси сейчас недоступен.");
     ("invalid_websocket_upgrade", "Некорректный запрос на обновление WebSocket.");
     ("upstream_websocket_connect_error", "Не удалось подключиться к upstream WebSocket.");
     ("websocket_upgrade_required", "Upstream требует обновления до WebSocket.");
     ("websocket_handshake_error", "Ошибка рукопожатия upstream WebSocket.");
     ("invalid_request_rate_limited", "Слишком много некорректных запросов, попробуйте позже.")]
  else [].

Definition localized_gateway_message (code locale fallback : string) : string :=
  let locale := default DEFAULT_ERROR_LOCALE (canonicalize_locale locale) in
  default fallback (assoc code (gateway_messages locale)).

Definition localized_gateway_message_with_state (state : AppState) (code locale fallback : string) :
    string :=
  default (localized_gateway_message code locale fallback)
    (localized_message_from_builtin_template state code locale).

Definition localized_json_error_with_state (state : AppState) (locale : string) (status : Z)
    (code fallback : string) : Z * ErrorEnvelope :=
  json_error status code (localized_gateway_message_with_state state code locale fallback).

(** ** Resolution *)

Definition should_attempt_ai_error_learning (error_context : UpstreamErrorContext) : bool :=
  match uec_class error_context with
  | UnknownClass => true
  | NonRetryableClient =>
      bool_decide (uec_error_code error_context = None)
      && bool_decide (is_Some (non_blank (uec_raw_error error_context)))
  | _ => false
  end.

Record ResolveUpstreamErrorTemplateRequest := mkResolveRequest {
  rr_fingerprint : string;
  rr_provider : string;
  rr_normalized_status_code : Z;
  rr_normalized_upstream_message : string;
  rr_sanitized_upstream_raw : option string;
  rr_target_locale : string;
  rr_model : option string;
}.

(** The resolve endpoint: given the URL, the bearer token, the timeout and the
    payload, the template of a successful answer. *)
Class ResolveApi (W : Type) := {
  post_resolve : string → string → Duration → ResolveUpstreamErrorTemplateRequest →
                 ST W (option UpstreamErrorTemplateRecord);
}.

(** The state resolution reads, the outside world, and the payloads sent to it,
    newest first. *)
Record LearningState (W : Type) := mkLearningState {
  ls_app : AppState;
  ls_control_plane_base_url : option string;
  ls_control_plane_internal_auth_token : string;
  ls_world : W;
  ls_sent : list ResolveUpstreamErrorTemplateRequest;
}.
Arguments mkLearningState {W}.
Arguments ls_app {W}.
Arguments ls_control_plane_base_url {W}.
Arguments ls_control_plane_internal_auth_token {W}.
Arguments ls_world {W}.
Arguments ls_sent {W}.

(** The template's message in the locale, or in English. *)
Definition message_or_default (template : UpstreamErrorTemplateRecord) (locale : string) :
    option string :=
  or_else (localized_message_from_template template locale)
    (localized_message_from_template template DEFAULT_ERROR_LOCALE).

Section resolve.
Context `{RegexLibrary} `{SerdeJson} {W : Type} `{ResolveApi W}.

(** The call, whose failures the caller drops. *)
Definition resolve_template_via_control_plane (control_plane_base_url internal_auth_token : string)
    (timeout_ms : Z) (payload : ResolveUpstreamErrorTemplateRequest) :
    ST (LearningState W) (option LearnedTemplateResolution) := λ s,
  let endpoint := trim_end_slashes control_plane_base_url +:+ "/internal/v1/upstream-errors/resolve" in
  let '(answer, world) :=
    post_resolve endpoint internal_auth_token (from_millis (clamp 100 10000 timeout_ms)) payload
      (ls_world s) in
  (template ← answer;
   localized_message ← message_or_default template (rr_target_locale payload);
   Some (mkLearnedTemplateResolution (uetr_semantic_error_code template) localized_message
           (uetr_action template) (uetr_retry_scope template) (uetr_fingerprint template)),
   mkLearningState (ls_app s) (ls_control_plane_base_url s) (ls_control_plane_internal_auth_token s)
     world (payload :: ls_sent s)).

(** What the error is known by: its message, code or sanitised text. *)
Definition normalized_message_of (error_context : UpstreamErrorContext) (model : option string) :
    string :=
  default "unknown upstream error"
    (or_else (or_else (uec_error_message error_context) (uec_error_code error_context))
       (sanitize_upstream_error_raw (uec_raw_error error_context) model)).

Definition fingerprint_of (provider : string) (error_context : UpstreamErrorContext)
    (model : option string) : string :=
  normalize_upstream_error_fingerprint provider (uec_status error_context)
    (normalized_message_of error_context model) model.

Definition resolve_request (provider : string) (error_context : UpstreamErrorContext)
    (locale : string) (model : option string) : ResolveUpstreamErrorTemplateRequest :=
  mkResolveRequest (fingerprint_of provider error_context model) (trim provider)
    (uec_status error_context) (normalized_message_of error_context model)
    (sanitize_upstream_error_raw (uec_raw_error error_context) model)
    (default DEFAULT_ERROR_LOCALE (canonicalize_locale locale)) model.

Definition resolve_upstream_error_learning (provider : string) (error_context : UpstreamErrorContext)
    (locale : string) (model : option string) :
    ST (LearningState W) (option LearnedTemplateResolution) := λ s,
  let fingerprint := fingerprint_of provider error_context model in
  match approved_upstream_error_templates (ls_app s) !! fingerprint with
  | Some template =>
      (localized_message ← message_or_default template locale;
       Some (mkLearnedTemplateResolution (uetr_semantic_error_code template) localized_message
               (uetr_action template) (uetr_retry_scope template) fingerprint), s)
  | None =>
      let settings := ai_error_learning_settings (ls_app s) in
      if negb (aels_enabled settings) then (None, s) else
      if negb (should_attempt_ai_error_learning error_context) then (None, s) else
      match ls_control_plane_base_url s with
      | None => (None, s)
      | Some control_plane_base_url =>
          resolve_template_via_control_plane control_plane_base_url
            (ls_control_plane_internal_auth_token s) (aels_first_seen_timeout_ms settings)
            (resolve_request provider error_context locale model) s
      end
  end.

Definition with_learned_resolution (learned : option LearnedTemplateResolution)
    (c : UpstreamErrorContext) : UpstreamErrorContext :=
  mkUpstreamErrorContext (uec_upstream_status c) (uec_status c) (uec_error_code c)
    (uec_error_message c) (uec_raw_error c) (uec_retry_after c) (uec_upstream_request_id c)
    (uec_class c) learned.

Definition apply_upstream_error_learning (source : UpstreamErrorSource) (provider locale : string)
    (model : option string) (error_context : UpstreamErrorContext) :
    ST (LearningState W) ((Z * ErrorEnvelope) * UpstreamErrorContext) :=
  learned ← resolve_upstream_error_learning provider error_context locale model;
  let error_context := with_learned_resolution learned error_context in
  mret (normalize_upstream_error_response source error_context, error_context).

Definition upstream_provider_label (mode : UpstreamMode) : string := "openai_compatible".
End resolve.
