(* ===== verification/ErrorLearningFacts.v ===== *)
(** * Properties of learned error templates

    What leaves the data plane about an upstream error does not depend on the
    fields that may hold the client's content and is bounded in size; the control
    plane is asked only about errors that are not known; and the messages of
    approved templates reach the client. *)
From Stdlib Require Import Ascii.
From S2P Require Import Prelude RustStr CoreModel Auth RoutingCache Router Failover Json.
From S2P Require Import Request RequestPolicy OutboundProxy Snapshot ErrorLearning.

#[local] Open Scope string_scope.
#[local] Open Scope list_scope.
#[local] Open Scope Z_scope.

(** ** Privacy *)

(** Two values that differ at most in what is under sensitive keys. *)
Inductive alike : Value → Value → Prop :=
  | alike_refl v : alike v v
  | alike_array l l' : Forall2 alike l l' → alike (VArray l) (VArray l')
  | alike_object m m' :
      Forall2 (λ a b, a.1 = b.1 ∧ (is_sensitive_upstream_error_key a.1 = true ∨ alike a.2 b.2)) m m' →
      alike (VObject m) (VObject m').

Abbreviation entry_alike :=
  (λ a b : string * Value,
     a.1 = b.1 ∧ (is_sensitive_upstream_error_key a.1 = true ∨ alike a.2 b.2)).

Lemma entry_alike_keys m m' : Forall2 entry_alike m m' → map fst m = map fst m'.
Proof. induction 1 as [|[] [] m m' [Hk _] _ IH]; simpl in *; congruence. Qed.

Lemma entry_alike_get k m m' :
  Forall2 entry_alike m m' →
  match map_get k m, map_get k m' with
  | Some v, Some v' => is_sensitive_upstream_error_key k = true ∨ alike v v'
  | None, None => True
  | _, _ => False
  end.
Proof.
  induction 1 as [|[i v] [j v'] m m' [Hk Ha] _ IH]; simpl in *; [done|]. subst j.
  destruct (String.eqb_spec i k) as [->|]; done.
Qed.

Section sanitise.
Context `{RegexLibrary}.

Lemma sanitize_sensitive levels value k model :
  is_sensitive_upstream_error_key k = true →
  sanitize_value levels value (Some k) model = VString "[redacted]".
Proof. intros Hk. destruct levels; simpl; by rewrite Hk. Qed.

Lemma sanitize_alike levels v v' key model :
  alike v v' → sanitize_value levels v key model = sanitize_value levels v' key model.
Proof.
  revert v v' key. induction levels as [|levels IH]; intros v v' key Ha; [done|].
  destruct Ha as [v|l l' Hl|m m' Hm]; [done| |]; cbn [sanitize_value]; case_match; try done.
  - f_equal. rewrite (Forall2_length Hl). f_equal.
    apply Forall2_take with (n := SANITIZED_UPSTREAM_RAW_MAX_ITEMS) in Hl. revert Hl.
    generalize (firstn SANITIZED_UPSTREAM_RAW_MAX_ITEMS l), (firstn SANITIZED_UPSTREAM_RAW_MAX_ITEMS l').
    induction 1 as [|x y xs ys Hxy _ IHl]; simpl; [done|]. f_equal; [by apply IH|done].
  - rewrite (entry_alike_keys _ _ Hm), (Forall2_length Hm).
    assert (Hfold : ∀ keys acc,
      fold_left (λ acc k, match map_get k m with
                          | Some child => map_insert k (sanitize_value levels child (Some k) model) acc
                          | None => acc end) keys acc =
      fold_left (λ acc k, match map_get k m' with
                          | Some child => map_insert k (sanitize_value levels child (Some k) model) acc
                          | None => acc end) keys acc).
    { induction keys as [|k keys IHk]; intros acc; [done|]. simpl. rewrite IHk. f_equal.
      pose proof (entry_alike_get k _ _ Hm) as Hg.
      destruct (map_get k m), (map_get k m'); try done. f_equal.
      destruct Hg as [Hg|Hg]; [by rewrite !sanitize_sensitive|by apply IH]. }
    by rewrite Hfold.
Qed.

(** ** Size *)

(** Values with at most [n] levels of arrays and objects of at most thirteen
    children. *)
Inductive compact : nat → Value → Prop :=
  | compact_scalar n v :
      (∀ l, v ≠ VArray l) → (∀ m, v ≠ VObject m) → compact n v
  | compact_array n l : (length l ≤ 13)%nat → Forall (compact n) l → compact (S n) (VArray l)
  | compact_object n m :
      (length m ≤ 13)%nat → Forall (λ kv, compact n kv.2) m → compact (S n) (VObject m).

Lemma map_insert_length k v m : (length (map_insert k v m) ≤ S (length m))%nat.
Proof.
  induction m as [|[i w] m IH]; simpl; [done|]. destruct (String.compare k i); simpl; lia.
Qed.

Lemma map_insert_Forall (P : Value → Prop) k v m :
  P v → Forall (λ kv, P kv.2) m → Forall (λ kv, P kv.2) (map_insert k v m).
Proof.
  intros Hv Hm. induction Hm as [|[i w] m Hw Hm IH]; simpl; [by constructor|].
  destruct (String.compare k i); constructor; simpl; auto.
Qed.

Lemma sanitized_entries (P : Value → Prop) (h : string → Value → Value) m keys acc :
  (∀ k v, P (h k v)) → Forall (λ kv, P kv.2) acc →
  let r := fold_left (λ acc k, match map_get k m with
                               | Some child => map_insert k (h k child) acc
                               | None => acc end) keys acc in
  Forall (λ kv, P kv.2) r ∧ (length r ≤ length acc + length keys)%nat.
Proof.
  intros Hh. simpl. revert acc. induction keys as [|k keys IH]; intros acc Hacc; simpl.
  - split; [done|lia].
  - destruct (map_get k m) as [v|].
    + destruct (IH (map_insert k (h k v) acc)) as [HF HL]; [by apply map_insert_Forall|].
      split; [done|]. pose proof (map_insert_length k (h k v) acc). lia.
    + destruct (IH acc Hacc). split; [done|lia].
Qed.

Lemma sanitize_compact levels v key model : compact levels (sanitize_value levels v key model).
Proof.
  revert v key. induction levels as [|levels IH]; intros v key; cbn [sanitize_value]; case_match;
    try by constructor.
  destruct v as [| | | | |l|m]; try by constructor.
  - apply compact_array.
    + rewrite length_app, length_map, length_firstn. unfold SANITIZED_UPSTREAM_RAW_MAX_ITEMS.
      destruct (_ <? _)%nat; cbn [length]; lia.
    + apply Forall_app. split; [|destruct (_ <? _)%nat; repeat constructor; done].
      apply list.Forall_forall. intros x Hx. apply list_elem_of_fmap in Hx as (y & -> & _). apply IH.
  - destruct (sanitized_entries (compact levels)
      (λ k child, sanitize_value levels child (Some k) model) m
      (firstn SANITIZED_UPSTREAM_RAW_MAX_ITEMS (sort_keys (map fst m))) []) as [HF HL];
      [intros; apply IH|constructor|].
    rewrite length_firstn in HL. cbn [length] in HL.
    assert (SANITIZED_UPSTREAM_RAW_MAX_ITEMS = 12%nat) as Hmax by done.
    destruct (_ <? _)%nat; apply compact_object;
      [|by apply map_insert_Forall; [by constructor|]|lia|done].
    etransitivity; [apply map_insert_length|]. lia.
Qed.
End sanitise.

Lemma take_chars_count n s : (char_count (take_chars n s).1 ≤ n)%nat.
Proof.
  revert n. induction s as [|a s IH]; intros n; simpl; [lia|].
  destruct (is_continuation a) eqn:Ha.
  - specialize (IH n). destruct (take_chars n s). simpl in *. by rewrite Ha.
  - destruct n as [|n]; simpl; [lia|]. specialize (IH n). destruct (take_chars n s). simpl in *.
    rewrite Ha. lia.
Qed.

Lemma char_count_app a b : char_count (a +:+ b) = (char_count a + char_count b)%nat.
Proof. induction a as [|x a IH]; simpl; [done|]. rewrite IH. by destruct (is_continuation x). Qed.

Lemma truncate_bounded s :
  Z.of_nat (char_count (truncate_upstream_error_text s)) <= SANITIZED_UPSTREAM_RAW_MAX_CHARS + 14.
Proof.
  unfold truncate_upstream_error_text.
  pose proof (take_chars_count (Z.to_nat SANITIZED_UPSTREAM_RAW_MAX_CHARS) s) as Hc.
  assert (Hm : 0 <= SANITIZED_UPSTREAM_RAW_MAX_CHARS) by done.
  destruct (take_chars _ s) as [t r]. cbn [fst] in Hc. destruct (is_empty r); [lia|].
  rewrite char_count_app. change (char_count "...[truncated]") with 14%nat. lia.
Qed.

(** ** Locales *)

Definition supported_locales : list string := ["en"; "zh-CN"; "zh-TW"; "ja"; "ru"].

Lemma canonicalize_locale_supported raw locale :
  canonicalize_locale raw = Some locale → locale ∈ supported_locales.
Proof.
  unfold canonicalize_locale. destruct (is_empty _); [done|].
  repeat (destruct (starts_with _ _); simpl; [intros; simplify_eq; set_solver|]). done.
Qed.

Lemma canonical_locale_fixed locale :
  locale ∈ supported_locales → canonicalize_locale locale = Some locale.
Proof.
  intros Hl. repeat (apply elem_of_cons in Hl as [->|Hl]; [by vm_compute|]). by apply elem_of_nil in Hl.
Qed.

Lemma head_omap_elem {A B} (f : A → option B) l b :
  head (omap f l) = Some b → ∃ a, a ∈ l ∧ f a = Some b.
Proof.
  induction l as [|a l IH]; csimpl; [done|]. destruct (f a) as [c|] eqn:Ha; csimpl.
  - intros. simplify_eq. exists a. split; [left|done].
  - intros (x & Hx & Hf)%IH. exists x. split; [by right|done].
Qed.

Lemma detect_headers_supported headers locale :
  detect_locale_from_headers headers = Some locale → locale ∈ supported_locales.
Proof.
  unfold detect_locale_from_headers. destruct (head _) as [l|] eqn:Hh.
  - intros. simplify_eq. apply head_omap_elem in Hh as (name & _ & Hl).
    destruct (header_get name headers); simpl in Hl; [|done].
    destruct (header_to_str _); simpl in Hl; [|done]. by eapply canonicalize_locale_supported.
  - destruct (header_get _ headers); simpl; [|done]. destruct (header_to_str _); simpl; [|done].
    unfold locale_from_accept_language. intros (e & _ & Hl)%head_omap_elem.
    by eapply canonicalize_locale_supported.
Qed.

Lemma detect_request_locale_supported `{SerdeJson} `{ZstdDecoder} headers body :
  detect_request_locale headers body ∈ supported_locales.
Proof.
  unfold detect_request_locale. destruct (detect_locale_from_headers headers) as [l|] eqn:Hh.
  - by eapply detect_headers_supported.
  - unfold detect_locale_from_request_body. destruct (parse_request_json_body _ _); simpl; [|set_solver].
    unfold detect_locale_from_text. destruct (is_empty _); [set_solver|].
    repeat (destruct (existsb _ _); [set_solver|]). set_solver.
Qed.

(** ** Claims *)

Section claims.
Context `{RegexLibrary} `{SerdeJson}.

(** C32: two error bodies that differ only under keys that may hold the client's
    content (at any depth) have the same sanitised form, so that content does not
    leave the data plane with it. *)
Theorem sanitised_error_hides_client_content raw raw' v v' model :
  (∀ x, is_Some (to_string x)) →
  trim raw ≠ "" → trim raw' ≠ "" →
  from_slice (trim raw) = Some v → from_slice (trim raw') = Some v' → alike v v' →
  ∃ out, sanitize_upstream_error_raw (Some raw) model = Some out ∧
         sanitize_upstream_error_raw (Some raw') model = Some out.
Proof.
  intros Hs Hr Hr' Hv Hv' Ha. unfold sanitize_upstream_error_raw, non_blank. simpl.
  destruct (is_empty (trim raw)) eqn:He; [by destruct (trim raw)|].
  destruct (is_empty (trim raw')) eqn:He'; [by destruct (trim raw')|]. simpl. rewrite Hv, Hv'.
  unfold sanitize_upstream_error_json_value. rewrite (sanitize_alike _ v v') by done.
  destruct (Hs (sanitize_value (SANITIZED_UPSTREAM_RAW_MAX_DEPTH - 0) v' None model)) as [out Hout].
  rewrite Hout. eauto.
Qed.

(** A sanitised value has at most six levels and thirteen children per array
    or object, whatever the upstream sent, and the sanitised text at most 2062
    characters. *)
Theorem sanitised_error_is_bounded value raw model :
  compact 6 (sanitize_upstream_error_json_value value None 0 model) ∧
  ∀ out, sanitize_upstream_error_raw raw model = Some out → Z.of_nat (char_count out) <= 2062.
Proof.
  split; [apply sanitize_compact|]. intros out. unfold sanitize_upstream_error_raw.
  destruct (non_blank raw); simpl; [|done]. intros. simplify_eq. apply truncate_bounded.
Qed.

(** An error with an approved template is resolved from it without a request;
    otherwise at most one request goes to the control plane, only when learning is
    enabled, the error is one to learn from and there is a control plane, and it
    carries the sanitised form of the error. The configuration does not change. *)
Theorem learning_asks_only_about_unknown_errors {W} `{ResolveApi W} provider ctx locale model
    (s : LearningState W) :
  let fp := fingerprint_of provider ctx model in
  let approved := approved_upstream_error_templates (ls_app s) in
  let '(r, s') := resolve_upstream_error_learning provider ctx locale model s in
  ls_app s' = ls_app s ∧
  (∀ template, approved !! fp = Some template →
     s' = s ∧ r = (λ message, mkLearnedTemplateResolution (uetr_semantic_error_code template) message
                     (uetr_action template) (uetr_retry_scope template) fp)
                  <$> message_or_default template locale) ∧
  (ls_sent s' ≠ ls_sent s →
     approved !! fp = None ∧ aels_enabled (ai_error_learning_settings (ls_app s)) = true ∧
     should_attempt_ai_error_learning ctx = true ∧ is_Some (ls_control_plane_base_url s) ∧
     ∃ request, ls_sent s' = request :: ls_sent s ∧ rr_fingerprint request = fp ∧
       rr_sanitized_upstream_raw request = sanitize_upstream_error_raw (uec_raw_error ctx) model).
Proof.
  simpl. unfold resolve_upstream_error_learning.
  destruct (approved_upstream_error_templates (ls_app s) !! _) as [template|] eqn:Hf.
  - split_and!; [done| |done]. intros t Ht. simplify_eq. split; [done|].
    by destruct (message_or_default t locale).
  - destruct (aels_enabled _) eqn:Hen; simpl; [|done].
    destruct (should_attempt_ai_error_learning ctx) eqn:Hat; simpl; [|done].
    destruct (ls_control_plane_base_url s) as [url|] eqn:Hurl; [|done].
    unfold resolve_template_via_control_plane. destruct (post_resolve _ _ _ _ _) as [answer world].
    split_and!; [done..|]. intros _. split_and!; [done..|by eexists|]. by eexists.
Qed.

(** The client is answered with the code and the message of the approved
    template, in its own language or in English, unless the error is one of the two
    the proxy retries on the same account. *)
Theorem approved_template_reaches_client {W} `{ResolveApi W} source provider ctx locale model template
    message (s : LearningState W) :
  approved_upstream_error_templates (ls_app s) !! fingerprint_of provider ctx model = Some template →
  message_or_default template locale = Some message →
  uec_error_code ctx ∉ [Some "websocket_connection_limit_reached"; Some "previous_response_not_found"] →
  (apply_upstream_error_learning source provider locale model ctx s).1.1
  = json_error (uec_status ctx) (uetr_semantic_error_code template) message.
Proof.
  intros Hf Hm Hc. unfold apply_upstream_error_learning, mbind, st_bind, resolve_upstream_error_learning.
  rewrite Hf, Hm. simpl. unfold normalize_upstream_error_response, decide_upstream_error.
  cbn [with_learned_resolution uec_error_code uec_learned_resolution uec_status].
  rewrite !bool_decide_eq_false_2 by set_solver. rewrite !andb_false_r. done.
Qed.
End claims.

Module Witness.
#[local] Instance no_regex : RegexLibrary := {| replace_all _ text _ := text |}.
(** A parser that knows two bodies, and a printer of strings and objects. *)
Definition body (prompt : string) : Value :=
  VObject [("error", VObject [("message", VString "boom"); ("prompt", VString prompt)])].
#[local] Instance two_bodies : SerdeJson :=
  {| from_slice s := if String.eqb s "A" then Some (body "alice")
                     else if String.eqb s "B" then Some (body "bob") else None;
     to_string v := Some (if bool_decide (v = body "[redacted]") then "redacted" else "other") |}.

Lemma sanitised_error_hides_client_content_witness :
  sanitize_upstream_error_raw (Some " A ") None = Some "redacted" ∧
  ∃ out, sanitize_upstream_error_raw (Some " A ") None = Some out ∧
         sanitize_upstream_error_raw (Some "B") None = Some out.
Proof.
  split; [by vm_compute|].
  apply (sanitised_error_hides_client_content " A " "B" (body "alice") (body "bob") None).
  - intros x. by eexists.
  - by vm_compute.
  - by vm_compute.
  - by vm_compute.
  - by vm_compute.
  - apply alike_object. apply Forall2_cons; [|constructor]. split; [done|]. right. apply alike_object.
    apply Forall2_cons; [split; [done|right; apply alike_refl]|]. apply Forall2_cons; [|constructor].
    split; [done|]. left. by vm_compute.
Defined.

Definition context : UpstreamErrorContext :=
  mkUpstreamErrorContext 400 400 None (Some "boom") None None None NonRetryableClient None.
Definition template : UpstreamErrorTemplateRecord :=
  mkUpstreamErrorTemplateRecord 1 "openai:400:boom" "openai" 400 "bad_input" ReturnFailure ScopeNone
    Approved (mkLocalizedErrorTemplates (Some "Bad input.") None None (Some "ja-text") None) [] 3 0 0 0.
Definition app : AppState :=
  mkAppState (Router.new []) (OutboundProxyRuntime_new None 0)
    (ClaudeCodeRoutingSettings_default 0) AiErrorLearningSettings_default
    {["openai:400:boom" := template]} ∅ 0 0 0 0 0 0.
#[local] Instance no_api : ResolveApi unit := {| post_resolve _ _ _ _ := mret None |}.

Lemma approved_template_reaches_client_witness :
  (apply_upstream_error_learning Http "OpenAI" "ja-JP" None context
     (mkLearningState app None "t" tt [])).1.1 = json_error 400 "bad_input" "ja-text".
Proof.
  apply (approved_template_reaches_client Http "OpenAI" context "ja-JP" None template "ja-text").
  - by vm_compute.
  - by vm_compute.
  - by apply (bool_decide_unpack _); vm_compute.
Defined.
End Witness.
