(* ===== verification/Cost.v ===== *)
(** * Usage cost: [services/control-plane/src/cost.rs]

    Prices are in millionths of a dollar per million tokens; an amount is rounded
    to the nearest millionth and stays within 64 bits. *)
From S2P Require Import Prelude.

#[local] Open Scope Z_scope.

Record TokenPriceMicrousd := mkTokenPriceMicrousd {
  input_price_microusd : Z;
  cached_input_price_microusd : Z;
  output_price_microusd : Z;
}.

Definition PRICE_PER_MILLION_TOKENS_SCALE : Z := 1000000.

Definition charge_tokens_by_per_million_price (tokens price_per_million_microusd : Z) : Z :=
  let normalized_tokens := Z.max tokens 0 in
  let normalized_price := Z.max price_per_million_microusd 0 in
  if (normalized_tokens =? 0) || (normalized_price =? 0) then 0 else
  let numerator :=
    i128_saturating_add (i128_saturating_mul normalized_tokens normalized_price)
      (Z.quot PRICE_PER_MILLION_TOKENS_SCALE 2) in
  let charged := Z.quot numerator PRICE_PER_MILLION_TOKENS_SCALE in
  clamp 0 i64_max charged.

Definition calculate_estimated_cost_microusd (input_tokens cached_input_tokens output_tokens : Z)
    (pricing : TokenPriceMicrousd) : Z :=
  let normalized_input_tokens := Z.max input_tokens 0 in
  let normalized_cached_input_tokens := Z.min (Z.max cached_input_tokens 0) normalized_input_tokens in
  let billable_input_tokens :=
    i64_saturating_sub normalized_input_tokens normalized_cached_input_tokens in
  let normalized_output_tokens := Z.max output_tokens 0 in
  let input_charge :=
    charge_tokens_by_per_million_price billable_input_tokens (input_price_microusd pricing) in
  let cached_input_charge :=
    charge_tokens_by_per_million_price normalized_cached_input_tokens
      (cached_input_price_microusd pricing) in
  let output_charge :=
    charge_tokens_by_per_million_price normalized_output_tokens (output_price_microusd pricing) in
  i64_saturating_add (i64_saturating_add input_charge cached_input_charge) output_charge.

Example charge_samples :
  charge_tokens_by_per_million_price 1 1250000 = 1 ∧
  charge_tokens_by_per_million_price 2 1250000 = 3 ∧
  calculate_estimated_cost_microusd 800 100 400 (mkTokenPriceMicrousd 1250000 125000 10000000) = 4888.
Proof. by vm_compute. Qed.

(** ** Accuracy *)

(** The product of two 64-bit numbers and the rounding term fit in 128 bits, so
    the intermediate arithmetic never saturates. *)
Lemma charge_spec tokens price :
  is_i64 tokens → is_i64 price →
  charge_tokens_by_per_million_price tokens price
  = Z.min i64_max ((Z.max tokens 0 * Z.max price 0 + 500000) `div` 1000000).
Proof.
  unfold is_i64, i64_min, i64_max. intros Ht Hp. unfold charge_tokens_by_per_million_price.
  set (t := Z.max tokens 0). set (p := Z.max price 0).
  assert (Hb : 0 <= t * p <= (2 ^ 63 - 1) * (2 ^ 63 - 1)) by (unfold t, p; nia).
  destruct ((t =? 0) || (p =? 0)) eqn:Hz.
  - assert (t * p = 0) as ->; [|by vm_compute].
    apply orb_prop in Hz as [Hz%Z.eqb_eq|Hz%Z.eqb_eq]; rewrite Hz; lia.
  - unfold i128_saturating_add, i128_saturating_mul, i128_min, i128_max, PRICE_PER_MILLION_TOKENS_SCALE.
    change (Z.quot 1000000 2) with 500000.
    rewrite (clamp_id (- 2 ^ 127) (2 ^ 127 - 1) (t * p)) by lia.
    rewrite (clamp_id (- 2 ^ 127) (2 ^ 127 - 1) (t * p + 500000)) by lia.
    rewrite Z.quot_div_nonneg by lia.
    assert (Hq : 0 <= (t * p + 500000) `div` 1000000) by (apply Z.div_pos; lia).
    set (q := (t * p + 500000) `div` 1000000) in *. unfold clamp, i64_max.
    destruct (q <? 0) eqn:H1; [lia|]. destruct (2 ^ 63 - 1 <? q) eqn:H2; lia.
Qed.

Lemma charge_range tokens price :
  is_i64 tokens → is_i64 price → 0 <= charge_tokens_by_per_million_price tokens price <= i64_max.
Proof.
  intros Ht Hp. rewrite charge_spec by done. split; [|lia].
  apply Z.min_glb; [done|]. apply Z.div_pos; lia.
Qed.

Lemma charge_accurate tokens price :
  is_i64 tokens → is_i64 price →
  charge_tokens_by_per_million_price tokens price < i64_max →
  Z.abs (1000000 * charge_tokens_by_per_million_price tokens price - Z.max tokens 0 * Z.max price 0)
  <= 500000.
Proof.
  intros Ht Hp. rewrite charge_spec by done. intros Hlt.
  set (n := Z.max tokens 0 * Z.max price 0) in *. rewrite Z.min_r in * by lia.
  pose proof (Z.div_mod (n + 500000) 1000000 ltac:(lia)).
  pose proof (Z.mod_pos_bound (n + 500000) 1000000 ltac:(lia)). lia.
Qed.

Lemma i64_max_pos : 0 < i64_max.
Proof. done. Qed.

Lemma saturating_add_spec a b :
  0 <= a <= i64_max → 0 <= b <= i64_max → i64_saturating_add a b = Z.min i64_max (a + b).
Proof.
  intros Ha Hb. unfold i64_saturating_add, clamp, i64_min.
  destruct (_ <? _) eqn:H1; [lia|]. destruct (i64_max <? a + b) eqn:H2; lia.
Qed.

(** The exact cost, in millionths of the unit of account. *)
Definition exact_cost (input cached output : Z) (pricing : TokenPriceMicrousd) : Z :=
  let input := Z.max input 0 in
  let cached := Z.min (Z.max cached 0) input in
  (input - cached) * Z.max (input_price_microusd pricing) 0 +
  cached * Z.max (cached_input_price_microusd pricing) 0 +
  Z.max output 0 * Z.max (output_price_microusd pricing) 0.

Definition pricing_ok (p : TokenPriceMicrousd) : Prop :=
  is_i64 (input_price_microusd p) ∧ is_i64 (cached_input_price_microusd p) ∧
  is_i64 (output_price_microusd p).


Module Witness.
Definition prices : TokenPriceMicrousd := mkTokenPriceMicrousd 1250000 125000 10000000.

End Witness.
