(* ===== verification/BuiltinTemplates.v ===== *)
(** * Built-in error templates: [crates/codex-pool-core/src/model.rs]

    The default messages in five languages, in the order of kind and code. *)
From S2P Require Import Prelude RustStr CoreModel.

#[local] Open Scope string_scope.
#[local] Open Scope list_scope.
#[local] Open Scope Z_scope.

Definition localized_templates (en zh_cn zh_tw ja ru : string) : LocalizedErrorTemplates :=
  mkLocalizedErrorTemplates (Some en) (Some zh_cn) (Some zh_tw) (Some ja) (Some ru).

Definition builtin_template_record (kind : BuiltinErrorTemplateKind) (code : string)
    (templates : LocalizedErrorTemplates) (action : option UpstreamErrorAction)
    (retry_scope : option UpstreamErrorRetryScope) : BuiltinErrorTemplateRecord :=
  mkBuiltinErrorTemplateRecord kind code templates templates action retry_scope false None.

(** The derived order of the kinds and [left.kind.cmp(..).then_with(.. code ..)]. *)
Definition kind_compare (a b : BuiltinErrorTemplateKind) : comparison :=
  match a, b with
  | GatewayError, HeuristicUpstream => Lt
  | HeuristicUpstream, GatewayError => Gt
  | _, _ => Eq
  end.
Definition kind_code_compare (l r : BuiltinErrorTemplateKind * string) : comparison :=
  then_with (kind_compare l.1 r.1) (String.compare l.2 r.2).
Definition template_key (t : BuiltinErrorTemplateRecord) : BuiltinErrorTemplateKind * string :=
  (betr_kind t, betr_code t).
Definition sort_templates (l : list BuiltinErrorTemplateRecord) : list BuiltinErrorTemplateRecord :=
  sort_by (λ a b, kind_code_compare (template_key a) (template_key b)) l.

Definition default_builtin_error_templates : list BuiltinErrorTemplateRecord :=
  sort_templates [
    builtin_template_record GatewayError "invalid_request_body"
      (localized_templates
         "Could not parse the request body."
         "请求体解析失败。"
         "請求體解析失敗。"
         "リクエスト本文を解析できませんでした。"
         "Не удалось разобрать тело запроса.")
      None None;
    builtin_template_record GatewayError "invalid_request_rate_limited"
      (localized_templates
         "Too many invalid requests. Please retry later."
         "无效请求过多，请稍后再试。"
         "無效請求過多，請稍後再試。"
         "無効なリクエストが多すぎます。しばらくしてから再試行してください。"
         "Слишком много некорректных запросов, попробуйте позже.")
      None None;
    builtin_template_record GatewayError "invalid_upstream_url"
      (localized_templates
         "The upstream URL is invalid."
         "上游地址无效。"
         "上游位址無效。"
         "上流 URL が無効です。"
         "Некорректный upstream URL.")
      None None;
    builtin_template_record GatewayError "invalid_websocket_upgrade"
      (localized_templates
         "Invalid WebSocket upgrade request."
         "无效的 WebSocket 升级请求。"
         "無效的 WebSocket 升級請求。"
         "無効な WebSocket アップグレード要求です。"
         "Некорректный запрос на обновление WebSocket.")
      None None;
    builtin_template_record GatewayError "no_upstream_account"
      (localized_templates
         "No upstream accounts are currently available."
         "当前没有可用的上游账号。"
         "目前沒有可用的上游帳號。"
         "利用可能な上流アカウントがありません。"
         "Сейчас нет доступных upstream-аккаунтов.")
      None None;
    builtin_template_record GatewayError "payload_too_large"
      (localized_templates
         "The request body exceeds the server limit."
         "请求体超过了服务端限制。"
         "請求體超過了伺服器限制。"
         "リクエスト本文がサーバー制限を超えています。"
         "Тело запроса превышает лимит сервера.")
      None None;
    builtin_template_record GatewayError "upstream_transport_error"
      (localized_templates
         "The upstream request failed."
         "上游请求失败。"
         "上游請求失敗。"
         "上流リクエストに失敗しました。"
         "Ошибка запроса к upstream.")
      None None;
    builtin_template_record GatewayError "upstream_websocket_connect_error"
      (localized_templates
         "Failed to connect to the upstream WebSocket."
         "连接上游 WebSocket 失败。"
         "連接上游 WebSocket 失敗。"
         "上流 WebSocket への接続に失敗しました。"
         "Не удалось подключиться к upstream WebSocket.")
      None None;
    builtin_template_record GatewayError "websocket_handshake_error"
      (localized_templates
         "The upstream WebSocket handshake failed."
         "上游 WebSocket 握手失败。"
         "上游 WebSocket 握手失敗。"
         "上流 WebSocket ハンドシェイクに失敗しました。"
         "Ошибка рукопожатия upstream WebSocket.")
      None None;
    builtin_template_record GatewayError "websocket_upgrade_required"
      (localized_templates
         "The upstream requires a WebSocket upgrade."
         "上游要求使用 WebSocket 协议升级。"
         "上游要求使用 WebSocket 協議升級。"
         "上流は WebSocket アップグレードを要求しています。"
         "Upstream требует обновления до WebSocket.")
      None None;
    builtin_template_record HeuristicUpstream "quota_exhausted"
      (localized_templates
         "The upstream quota is exhausted. Please retry shortly."
         "上游额度已耗尽，请稍后重试。"
         "上游額度已耗盡，請稍後重試。"
         "上流のクォータが尽きています。しばらくしてから再試行してください。"
         "Квота на стороне апстрима исчерпана. Повторите попытку позже.")
      (Some RetryCrossAccount) (Some ScopeCrossAccount);
    builtin_template_record HeuristicUpstream "unsupported_model"
      (localized_templates
         "The requested model is not available."
         "请求的模型当前不可用。"
         "請求的模型目前不可用。"
         "要求されたモデルは現在利用できません。"
         "Запрошенная модель сейчас недоступна.")
      (Some ReturnFailure) (Some ScopeNone);
    builtin_template_record HeuristicUpstream "upstream_request_failed"
      (localized_templates
         "The upstream request failed. Please retry later."
         "上游请求失败，请稍后重试。"
         "上游請求失敗，請稍後重試。"
         "上流リクエストに失敗しました。しばらくしてから再試行してください。"
         "Ошибка запроса к апстриму. Повторите попытку позже.")
      (Some ReturnFailure) (Some ScopeNone)].

Definition default_builtin_error_template (kind : BuiltinErrorTemplateKind) (code : string) :
    option BuiltinErrorTemplateRecord :=
  List.find (λ template, bool_decide (betr_kind template = kind) && String.eqb (betr_code template) code)
    default_builtin_error_templates.
