(* ===== verification/ControlModel.v ===== *)
(** * Control plane data model

    The types the control plane keeps and exchanges: configuration types of
    [crates/codex-pool-core/src/model.rs] that only it uses, system events of
    [events.rs], the management API of [services/control-plane/src/contracts.rs],
    and the records of [store/defs.rs]. A field [f] of a struct is a projection
    with a prefix for the struct; constructors that two enums share carry the
    name of their enum. A [f64] is its 64 bits. *)
From S2P Require Import Prelude RustStr CoreModel Json.

#[local] Open Scope string_scope.
#[local] Open Scope Z_scope.

Abbreviation F64 := Z (only parsing).

(** ** Configuration ([model.rs]) *)

Record Tenant := mkTenant {
  tn_id : Uuid;
  tn_name : string;
  tn_created_at : DateTime;
}.
#[global] Instance eta_Tenant : Eta Tenant := λ r,
  mkTenant (tn_id r) (tn_name r) (tn_created_at r).

Record ApiKey := mkApiKey {
  ak_id : Uuid;
  ak_tenant_id : Uuid;
  ak_name : string;
  ak_key_prefix : string;
  ak_key_hash : string;
  ak_enabled : bool;
  ak_created_at : DateTime;
}.
#[global] Instance eta_ApiKey : Eta ApiKey := λ r,
  mkApiKey (ak_id r) (ak_tenant_id r) (ak_name r) (ak_key_prefix r) (ak_key_hash r) (ak_enabled r)
    (ak_created_at r).

Inductive RoutingStrategy := RoundRobin | FillFirst.

Record RoutingPolicy := mkRoutingPolicy {
  rp_tenant_id : Uuid;
  rp_strategy : RoutingStrategy;
  rp_max_retries : Z;
  rp_stream_max_retries : Z;
  rp_updated_at : DateTime;
}.
#[global] Instance eta_RoutingPolicy : Eta RoutingPolicy := λ r,
  mkRoutingPolicy (rp_tenant_id r) (rp_strategy r) (rp_max_retries r) (rp_stream_max_retries r)
    (rp_updated_at r).

Record RoutingProfileSelector := mkRoutingProfileSelector {
  sel_plan_types : list string;
  sel_modes : list UpstreamMode;
  sel_auth_providers : list UpstreamAuthProvider;
  sel_include_account_ids : list Uuid;
  sel_exclude_account_ids : list Uuid;
}.

Record RoutingProfile := mkRoutingProfile {
  rprof_id : Uuid;
  rprof_name : string;
  rprof_description : option string;
  rprof_enabled : bool;
  rprof_priority : Z;
  rprof_selector : RoutingProfileSelector;
  rprof_created_at : DateTime;
  rprof_updated_at : DateTime;
}.
#[global] Instance eta_RoutingProfile : Eta RoutingProfile := λ r,
  mkRoutingProfile (rprof_id r) (rprof_name r) (rprof_description r) (rprof_enabled r) (rprof_priority r)
    (rprof_selector r) (rprof_created_at r) (rprof_updated_at r).

Record ModelRoutingPolicy := mkModelRoutingPolicy {
  mrp_id : Uuid;
  mrp_name : string;
  mrp_family : string;
  mrp_exact_models : list string;
  mrp_model_prefixes : list string;
  mrp_fallback_profile_ids : list Uuid;
  mrp_enabled : bool;
  mrp_priority : Z;
  mrp_created_at : DateTime;
  mrp_updated_at : DateTime;
}.
#[global] Instance eta_ModelRoutingPolicy : Eta ModelRoutingPolicy := λ r,
  mkModelRoutingPolicy (mrp_id r) (mrp_name r) (mrp_family r) (mrp_exact_models r) (mrp_model_prefixes r)
    (mrp_fallback_profile_ids r) (mrp_enabled r) (mrp_priority r) (mrp_created_at r)
    (mrp_updated_at r).

Inductive ModelRoutingTriggerMode := Hybrid | ScheduledOnly | EventOnly.

Record ModelRoutingSettings := mkModelRoutingSettings {
  mrs_enabled : bool;
  mrs_auto_publish : bool;
  mrs_planner_model_chain : list string;
  mrs_trigger_mode : ModelRoutingTriggerMode;
  mrs_kill_switch : bool;
  mrs_updated_at : DateTime;
}.

Record RoutingPlanVersion := mkRoutingPlanVersion {
  rpv_id : Uuid;
  rpv_reason : option string;
  rpv_published_at : DateTime;
  rpv_compiled_plan : CompiledRoutingPlan;
}.

Record BuiltinErrorTemplateOverrideRecord := mkBuiltinErrorTemplateOverrideRecord {
  beto_kind : BuiltinErrorTemplateKind;
  beto_code : string;
  beto_templates : LocalizedErrorTemplates;
  beto_updated_at : DateTime;
}.

(** ** System events ([events.rs]) *)

Inductive SystemEventCategory := CatRequest | CatAccountPool | CatPatrol | CatImport | CatInfra | CatAdminAction.
Inductive SystemEventSeverity := SevDebug | SevInfo | SevWarn | SevError.

Record SystemEventWrite := mkSystemEventWrite {
  sew_event_id : option Uuid;
  sew_ts : option DateTime;
  sew_category : SystemEventCategory;
  sew_event_type : string;
  sew_severity : SystemEventSeverity;
  sew_source : string;
  sew_tenant_id : option Uuid;
  sew_account_id : option Uuid;
  sew_request_id : option string;
  sew_trace_request_id : option string;
  sew_job_id : option Uuid;
  sew_account_label : option string;
  sew_auth_provider : option string;
  sew_operator_state_from : option string;
  sew_operator_state_to : option string;
  sew_reason_class : option string;
  sew_reason_code : option string;
  sew_next_action_at : option DateTime;
  sew_path : option string;
  sew_method : option string;
  sew_model : option string;
  sew_selected_account_id : option Uuid;
  sew_selected_proxy_id : option Uuid;
  sew_routing_decision : option string;
  sew_failover_scope : option string;
  sew_status_code : option Z;
  sew_upstream_status_code : option Z;
  sew_latency_ms : option Z;
  sew_message : option string;
  sew_preview_text : option string;
  sew_payload_json : option Value;
  sew_secret_preview : option string;
}.
#[global] Instance eta_SystemEventWrite : Eta SystemEventWrite := λ r,
  mkSystemEventWrite (sew_event_id r) (sew_ts r) (sew_category r) (sew_event_type r) (sew_severity r)
    (sew_source r) (sew_tenant_id r) (sew_account_id r) (sew_request_id r)
    (sew_trace_request_id r) (sew_job_id r) (sew_account_label r) (sew_auth_provider r)
    (sew_operator_state_from r) (sew_operator_state_to r) (sew_reason_class r)
    (sew_reason_code r) (sew_next_action_at r) (sew_path r) (sew_method r) (sew_model r)
    (sew_selected_account_id r) (sew_selected_proxy_id r) (sew_routing_decision r)
    (sew_failover_scope r) (sew_status_code r) (sew_upstream_status_code r)
    (sew_latency_ms r) (sew_message r) (sew_preview_text r) (sew_payload_json r)
    (sew_secret_preview r).

(** ** Enums of the management API ([contracts.rs]) *)

Inductive AccountHealthFreshness := HealthFresh | HealthStale | HealthUnknown.
Inductive AccountPoolOperatorState := OpInventory | OpRoutable | OpCooling | OpPendingDelete.
Inductive AccountPoolReasonClass := RcHealthy | RcQuota | RcFatal | RcTransient | RcAdmin.
Inductive AccountPoolRecordScope := ScopeRuntime | ScopeInventory.
Inductive AccountProbeOutcome := ProbeOk | ProbeQuota | ProbeTransient | ProbeFatal.
Inductive OAuthAccountPoolState := PoolActive | PoolQuarantine | PoolPendingPurge.
Inductive OAuthLiveResultStatus := LiveOk | LiveFailed.
Inductive OAuthLiveResultSource := SourceActive | SourcePassive.
Inductive OAuthRateLimitRefreshJobStatus := JobQueued | JobRunning | JobCompleted | JobFailed | JobCancelled.
Inductive OAuthRefreshStatus := RefreshNever | RefreshOk | RefreshFailed.
Inductive OAuthVaultRecordStatus := VaultQueued | VaultReady | VaultNeedsRefresh | VaultNoQuota | VaultFailed.
Inductive RefreshCredentialState := CredHealthy | CredTransientFailed | CredTerminalInvalid.
Inductive SessionCredentialKind := RefreshRotatable | OneTimeAccessToken.
Inductive OAuthInventoryFailureStage := AdmissionProbe | ActivationRefresh | ActivationRateLimits | RuntimeRefresh.

(** ** Structs of the management API ([contracts.rs]) *)

Record OAuthRateLimitWindow := mkOAuthRateLimitWindow {
  rlw_used_percent : F64;
  rlw_window_minutes : option Z;
  rlw_resets_at : option DateTime;
}.

Record OAuthRateLimitSnapshot := mkOAuthRateLimitSnapshot {
  rls_limit_id : option string;
  rls_limit_name : option string;
  rls_primary : option OAuthRateLimitWindow;
  rls_secondary : option OAuthRateLimitWindow;
}.

Record CreateTenantRequest := mkCreateTenantRequest {
  ctr_name : string;
}.

Record CreateApiKeyRequest := mkCreateApiKeyRequest {
  ckr_tenant_id : Uuid;
  ckr_name : string;
}.

Record CreateApiKeyResponse := mkCreateApiKeyResponse {
  ckresp_record : ApiKey;
  ckresp_plaintext_key : string;
}.

Record CreateOutboundProxyNodeRequest := mkCreateOutboundProxyNodeRequest {
  cpn_label : string;
  cpn_proxy_url : string;
  cpn_enabled : option bool;
  cpn_weight : option Z;
}.

Record UpdateOutboundProxyNodeRequest := mkUpdateOutboundProxyNodeRequest {
  upn_label : option string;
  upn_proxy_url : option string;
  upn_enabled : option bool;
  upn_weight : option Z;
}.

Record UpdateOutboundProxyPoolSettingsRequest := mkUpdateOutboundProxyPoolSettingsRequest {
  ups_enabled : bool;
  ups_fail_mode : ProxyFailMode;
}.

Record CreateUpstreamAccountRequest := mkCreateUpstreamAccountRequest {
  cua_label : string;
  cua_mode : UpstreamMode;
  cua_base_url : string;
  cua_bearer_token : string;
  cua_chatgpt_account_id : option string;
  cua_auth_provider : option UpstreamAuthProvider;
  cua_enabled : option bool;
  cua_priority : option Z;
}.

Record ImportOAuthRefreshTokenRequest := mkImportOAuthRefreshTokenRequest {
  imp_label : string;
  imp_base_url : string;
  imp_refresh_token : string;
  imp_fallback_access_token : option string;
  imp_fallback_token_expires_at : option DateTime;
  imp_chatgpt_account_id : option string;
  imp_mode : option UpstreamMode;
  imp_enabled : option bool;
  imp_priority : option Z;
  imp_chatgpt_plan_type : option string;
  imp_source_type : option string;
}.
#[global] Instance eta_ImportOAuthRefreshTokenRequest : Eta ImportOAuthRefreshTokenRequest := λ r,
  mkImportOAuthRefreshTokenRequest (imp_label r) (imp_base_url r) (imp_refresh_token r) (imp_fallback_access_token r)
    (imp_fallback_token_expires_at r) (imp_chatgpt_account_id r) (imp_mode r)
    (imp_enabled r) (imp_priority r) (imp_chatgpt_plan_type r) (imp_source_type r).

Record UpsertRoutingPolicyRequest := mkUpsertRoutingPolicyRequest {
  urp_tenant_id : Uuid;
  urp_strategy : RoutingStrategy;
  urp_max_retries : Z;
  urp_stream_max_retries : Z;
}.

Record UpsertRetryPolicyRequest := mkUpsertRetryPolicyRequest {
  urt_tenant_id : Uuid;
  urt_max_retries : Z;
}.

Record UpsertStreamRetryPolicyRequest := mkUpsertStreamRetryPolicyRequest {
  usr_tenant_id : Uuid;
  usr_stream_max_retries : Z;
}.

Record UpsertRoutingProfileRequest := mkUpsertRoutingProfileRequest {
  uprof_id : option Uuid;
  uprof_name : string;
  uprof_description : option string;
  uprof_enabled : bool;
  uprof_priority : Z;
  uprof_selector : RoutingProfileSelector;
}.

Record UpsertModelRoutingPolicyRequest := mkUpsertModelRoutingPolicyRequest {
  ump_id : option Uuid;
  ump_name : string;
  ump_family : string;
  ump_exact_models : list string;
  ump_model_prefixes : list string;
  ump_fallback_profile_ids : list Uuid;
  ump_enabled : bool;
  ump_priority : Z;
}.

Record UpdateModelRoutingSettingsRequest := mkUpdateModelRoutingSettingsRequest {
  ums_enabled : bool;
  ums_auto_publish : bool;
  ums_planner_model_chain : list string;
  ums_trigger_mode : ModelRoutingTriggerMode;
  ums_kill_switch : bool;
}.

Record UpdateAiErrorLearningSettingsRequest := mkUpdateAiErrorLearningSettingsRequest {
  uls_enabled : bool;
  uls_first_seen_timeout_ms : Z;
  uls_review_hit_threshold : Z;
}.

Record ValidateOAuthRefreshTokenRequest := mkValidateOAuthRefreshTokenRequest {
  vrq_refresh_token : string;
  vrq_base_url : option string;
}.

Record ValidateOAuthRefreshTokenResponse := mkValidateOAuthRefreshTokenResponse {
  vrs_expires_at : DateTime;
  vrs_token_type : option string;
  vrs_scope : option string;
  vrs_chatgpt_account_id : option string;
  vrs_chatgpt_user_id : option string;
  vrs_chatgpt_account_user_id : option string;
}.

Record OAuthFamilyActionResponse := mkOAuthFamilyActionResponse {
  far_account_id : Uuid;
  far_token_family_id : option string;
  far_enabled : bool;
  far_affected_accounts : Z;
}.

Record OAuthRateLimitRefreshErrorSummary := mkOAuthRateLimitRefreshErrorSummary {
  es_error_code : string;
  es_count : Z;
}.

Record OAuthRateLimitRefreshJobSummary := mkOAuthRateLimitRefreshJobSummary {
  job_job_id : Uuid;
  job_status : OAuthRateLimitRefreshJobStatus;
  job_total : Z;
  job_processed : Z;
  job_success_count : Z;
  job_failed_count : Z;
  job_started_at : option DateTime;
  job_finished_at : option DateTime;
  job_created_at : DateTime;
  job_throughput_per_min : option F64;
  job_error_summary : list OAuthRateLimitRefreshErrorSummary;
}.
#[global] Instance eta_OAuthRateLimitRefreshJobSummary : Eta OAuthRateLimitRefreshJobSummary := λ r,
  mkOAuthRateLimitRefreshJobSummary (job_job_id r) (job_status r) (job_total r) (job_processed r) (job_success_count r)
    (job_failed_count r) (job_started_at r) (job_finished_at r) (job_created_at r)
    (job_throughput_per_min r) (job_error_summary r).

Record OAuthAccountStatusResponse := mkOAuthAccountStatusResponse {
  oas_account_id : Uuid;
  oas_auth_provider : UpstreamAuthProvider;
  oas_credential_kind : option SessionCredentialKind;
  oas_has_refresh_credential : bool;
  oas_has_access_token_fallback : bool;
  oas_refresh_credential_state : option RefreshCredentialState;
  oas_email : option string;
  oas_oauth_subject : option string;
  oas_oauth_identity_provider : option string;
  oas_email_verified : option bool;
  oas_chatgpt_plan_type : option string;
  oas_chatgpt_user_id : option string;
  oas_chatgpt_subscription_active_start : option DateTime;
  oas_chatgpt_subscription_active_until : option DateTime;
  oas_chatgpt_subscription_last_checked : option DateTime;
  oas_chatgpt_account_user_id : option string;
  oas_chatgpt_compute_residency : option string;
  oas_workspace_name : option string;
  oas_organizations : option (list Value);
  oas_groups : option (list Value);
  oas_source_type : option string;
  oas_token_family_id : option string;
  oas_token_version : option Z;
  oas_token_expires_at : option DateTime;
  oas_last_refresh_at : option DateTime;
  oas_last_refresh_status : OAuthRefreshStatus;
  oas_refresh_reused_detected : bool;
  oas_last_refresh_error_code : option string;
  oas_last_refresh_error : option string;
  oas_effective_enabled : bool;
  oas_pool_state : OAuthAccountPoolState;
  oas_quarantine_until : option DateTime;
  oas_quarantine_reason : option string;
  oas_pending_purge_at : option DateTime;
  oas_pending_purge_reason : option string;
  oas_last_live_result_at : option DateTime;
  oas_last_live_result_status : option OAuthLiveResultStatus;
  oas_last_live_result_source : option OAuthLiveResultSource;
  oas_last_seen_ok_at : option DateTime;
  oas_last_probe_at : option DateTime;
  oas_last_probe_outcome : option AccountProbeOutcome;
  oas_last_live_result_status_code : option Z;
  oas_last_live_error_code : option string;
  oas_last_live_error_message_preview : option string;
  oas_supported_models : list string;
  oas_rate_limits : list OAuthRateLimitSnapshot;
  oas_rate_limits_fetched_at : option DateTime;
  oas_rate_limits_expires_at : option DateTime;
  oas_rate_limits_last_error_code : option string;
  oas_rate_limits_last_error : option string;
  oas_next_refresh_at : option DateTime;
}.

Record OAuthInventoryRecord := mkOAuthInventoryRecord {
  oir_id : Uuid;
  oir_label : string;
  oir_email : option string;
  oir_chatgpt_account_id : option string;
  oir_chatgpt_plan_type : option string;
  oir_source_type : option string;
  oir_vault_status : OAuthVaultRecordStatus;
  oir_has_refresh_token : bool;
  oir_has_access_token_fallback : bool;
  oir_admission_source : option string;
  oir_admission_checked_at : option DateTime;
  oir_admission_retry_after : option DateTime;
  oir_admission_error_code : option string;
  oir_admission_error_message : option string;
  oir_admission_rate_limits : list OAuthRateLimitSnapshot;
  oir_admission_rate_limits_expires_at : option DateTime;
  oir_failure_stage : option OAuthInventoryFailureStage;
  oir_attempt_count : Z;
  oir_transient_retry_count : Z;
  oir_next_retry_at : option DateTime;
  oir_retryable : bool;
  oir_terminal_reason : option string;
  oir_created_at : DateTime;
  oir_updated_at : DateTime;
}.

Record AccountSignalHeatmapSummary := mkAccountSignalHeatmapSummary {
  ash_bucket_minutes : Z;
  ash_window_minutes : Z;
  ash_window_start : DateTime;
  ash_intensity_levels : list Z;
  ash_active_counts : list Z;
  ash_passive_counts : list Z;
  ash_success_counts : list Z;
  ash_error_counts : list Z;
  ash_latest_signal_at : option DateTime;
  ash_latest_signal_source : option OAuthLiveResultSource;
}.

Record AccountPoolRecord := mkAccountPoolRecord {
  apr_id : Uuid;
  apr_record_scope : AccountPoolRecordScope;
  apr_operator_state : AccountPoolOperatorState;
  apr_health_freshness : AccountHealthFreshness;
  apr_reason_class : AccountPoolReasonClass;
  apr_reason_code : option string;
  apr_route_eligible : bool;
  apr_next_action_at : option DateTime;
  apr_last_signal_at : option DateTime;
  apr_last_signal_source : option OAuthLiveResultSource;
  apr_recent_signal_heatmap : option AccountSignalHeatmapSummary;
  apr_last_probe_at : option DateTime;
  apr_last_probe_outcome : option AccountProbeOutcome;
  apr_label : string;
  apr_email : option string;
  apr_chatgpt_account_id : option string;
  apr_chatgpt_plan_type : option string;
  apr_source_type : option string;
  apr_mode : option UpstreamMode;
  apr_auth_provider : option UpstreamAuthProvider;
  apr_credential_kind : option SessionCredentialKind;
  apr_has_refresh_credential : bool;
  apr_has_access_token_fallback : bool;
  apr_refresh_credential_state : option RefreshCredentialState;
  apr_enabled : option bool;
  apr_rate_limits : list OAuthRateLimitSnapshot;
  apr_rate_limits_fetched_at : option DateTime;
  apr_created_at : DateTime;
  apr_updated_at : DateTime;
}.

Record OAuthInventorySummaryResponse := mkOAuthInventorySummaryResponse {
  ois_total : Z;
  ois_queued : Z;
  ois_ready : Z;
  ois_needs_refresh : Z;
  ois_no_quota : Z;
  ois_failed : Z;
}.

Record AccountPoolSummaryResponse := mkAccountPoolSummaryResponse {
  aps_total : Z;
  aps_inventory : Z;
  aps_routable : Z;
  aps_cooling : Z;
  aps_pending_delete : Z;
  aps_healthy : Z;
  aps_quota : Z;
  aps_fatal : Z;
  aps_transient : Z;
  aps_admin : Z;
}.

Record OAuthRuntimePoolSummaryResponse := mkOAuthRuntimePoolSummaryResponse {
  orp_total : Z;
  orp_active : Z;
  orp_quarantine : Z;
  orp_pending_purge : Z;
  orp_oauth_refresh_token : Z;
  orp_legacy_bearer : Z;
  orp_rate_limits_ready : Z;
}.

Record OAuthHealthSignalsSummaryResponse := mkOAuthHealthSignalsSummaryResponse {
  ohs_total : Z;
  ohs_live_result_ok : Z;
  ohs_live_result_failed : Z;
  ohs_pending_purge_signals : Z;
  ohs_quarantine_signals : Z;
}.

(** ** Records of the store ([store/defs.rs]) and tokens ([oauth.rs]) *)

Inductive AccountPoolState := Active | Quarantine | PendingPurge.

Record ValidatedPrincipal := mkValidatedPrincipal {
  vp_tenant_id : Uuid;
  vp_api_key_id : Uuid;
  vp_api_key_group_id : Uuid;
  vp_api_key_group_name : string;
  vp_api_key_group_invalid : bool;
  vp_enabled : bool;
  vp_key_ip_allowlist : list string;
  vp_key_model_allowlist : list string;
  vp_tenant_status : option string;
  vp_tenant_expires_at : option DateTime;
  vp_balance_microcredits : option Z;
}.

Record OAuthUpsertResult := mkOAuthUpsertResult {
  our_account : UpstreamAccount;
  our_created : bool;
}.

Record UpsertOneTimeSessionAccountRequest := mkUpsertOneTimeSessionAccountRequest {
  one_label : string;
  one_mode : UpstreamMode;
  one_base_url : string;
  one_access_token : string;
  one_chatgpt_account_id : option string;
  one_enabled : option bool;
  one_priority : option Z;
  one_token_expires_at : option DateTime;
  one_chatgpt_plan_type : option string;
  one_source_type : option string;
}.

Record OAuthTokenInfo := mkOAuthTokenInfo {
  oti_access_token : string;
  oti_refresh_token : string;
  oti_expires_at : DateTime;
  oti_token_type : option string;
  oti_scope : option string;
  oti_email : option string;
  oti_oauth_subject : option string;
  oti_oauth_identity_provider : option string;
  oti_email_verified : option bool;
  oti_chatgpt_account_id : option string;
  oti_chatgpt_user_id : option string;
  oti_chatgpt_plan_type : option string;
  oti_chatgpt_subscription_active_start : option DateTime;
  oti_chatgpt_subscription_active_until : option DateTime;
  oti_chatgpt_subscription_last_checked : option DateTime;
  oti_chatgpt_account_user_id : option string;
  oti_chatgpt_compute_residency : option string;
  oti_workspace_name : option string;
  oti_organizations : option (list Value);
  oti_groups : option (list Value);
}.

Record OAuthCredentialRecord := mkOAuthCredentialRecord {
  ocr_access_token_enc : string;
  ocr_refresh_token_enc : string;
  ocr_fallback_access_token_enc : option string;
  ocr_refresh_token_sha256 : string;
  ocr_token_family_id : string;
  ocr_token_version : Z;
  ocr_token_expires_at : DateTime;
  ocr_fallback_token_expires_at : option DateTime;
  ocr_last_refresh_at : option DateTime;
  ocr_last_refresh_status : OAuthRefreshStatus;
  ocr_refresh_reused_detected : bool;
  ocr_last_refresh_error_code : option string;
  ocr_last_refresh_error : option string;
  ocr_refresh_failure_count : Z;
  ocr_refresh_backoff_until : option DateTime;
}.
#[global] Instance eta_OAuthCredentialRecord : Eta OAuthCredentialRecord := λ r,
  mkOAuthCredentialRecord (ocr_access_token_enc r) (ocr_refresh_token_enc r) (ocr_fallback_access_token_enc r)
    (ocr_refresh_token_sha256 r) (ocr_token_family_id r) (ocr_token_version r)
    (ocr_token_expires_at r) (ocr_fallback_token_expires_at r) (ocr_last_refresh_at r)
    (ocr_last_refresh_status r) (ocr_refresh_reused_detected r)
    (ocr_last_refresh_error_code r) (ocr_last_refresh_error r)
    (ocr_refresh_failure_count r) (ocr_refresh_backoff_until r).

Record SessionProfileRecord := mkSessionProfileRecord {
  spr_credential_kind : SessionCredentialKind;
  spr_token_expires_at : option DateTime;
  spr_email : option string;
  spr_oauth_subject : option string;
  spr_oauth_identity_provider : option string;
  spr_email_verified : option bool;
  spr_chatgpt_plan_type : option string;
  spr_chatgpt_user_id : option string;
  spr_chatgpt_subscription_active_start : option DateTime;
  spr_chatgpt_subscription_active_until : option DateTime;
  spr_chatgpt_subscription_last_checked : option DateTime;
  spr_chatgpt_account_user_id : option string;
  spr_chatgpt_compute_residency : option string;
  spr_workspace_name : option string;
  spr_organizations : option (list Value);
  spr_groups : option (list Value);
  spr_source_type : option string;
}.
#[global] Instance eta_SessionProfileRecord : Eta SessionProfileRecord := λ r,
  mkSessionProfileRecord (spr_credential_kind r) (spr_token_expires_at r) (spr_email r) (spr_oauth_subject r)
    (spr_oauth_identity_provider r) (spr_email_verified r) (spr_chatgpt_plan_type r)
    (spr_chatgpt_user_id r) (spr_chatgpt_subscription_active_start r)
    (spr_chatgpt_subscription_active_until r) (spr_chatgpt_subscription_last_checked r)
    (spr_chatgpt_account_user_id r) (spr_chatgpt_compute_residency r)
    (spr_workspace_name r) (spr_organizations r) (spr_groups r) (spr_source_type r).

Record UpstreamAccountHealthStateRecord := mkUpstreamAccountHealthStateRecord {
  hs_seen_ok_at : option DateTime;
  hs_last_probe_at : option DateTime;
  hs_last_probe_outcome : option AccountProbeOutcome;
  hs_last_live_result_at : option DateTime;
  hs_last_live_result_status : option OAuthLiveResultStatus;
  hs_last_live_result_source : option OAuthLiveResultSource;
  hs_last_live_result_status_code : option Z;
  hs_last_live_error_code : option string;
  hs_last_live_error_message_preview : option string;
  hs_pool_state : AccountPoolState;
  hs_quarantine_until : option DateTime;
  hs_quarantine_reason : option string;
  hs_pending_purge_at : option DateTime;
  hs_pending_purge_reason : option string;
  hs_last_pool_transition_at : option DateTime;
  hs_token_invalidated_strike_count : Z;
  hs_token_invalidated_first_at : option DateTime;
}.
#[global] Instance eta_UpstreamAccountHealthStateRecord : Eta UpstreamAccountHealthStateRecord := λ r,
  mkUpstreamAccountHealthStateRecord (hs_seen_ok_at r) (hs_last_probe_at r) (hs_last_probe_outcome r)
    (hs_last_live_result_at r) (hs_last_live_result_status r)
    (hs_last_live_result_source r) (hs_last_live_result_status_code r)
    (hs_last_live_error_code r) (hs_last_live_error_message_preview r) (hs_pool_state r)
    (hs_quarantine_until r) (hs_quarantine_reason r) (hs_pending_purge_at r)
    (hs_pending_purge_reason r) (hs_last_pool_transition_at r)
    (hs_token_invalidated_strike_count r) (hs_token_invalidated_first_at r).

Definition UpstreamAccountHealthStateRecord_default : UpstreamAccountHealthStateRecord :=
  mkUpstreamAccountHealthStateRecord None None None None None None None None None Active
    None None None None None 0 None.

Record AccountModelSupportRecord := mkAccountModelSupportRecord {
  ams_supported_models : list string;
}.

Record OAuthRefreshTokenVaultRecord := mkOAuthRefreshTokenVaultRecord {
  vr_id : Uuid;
  vr_label : string;
  vr_email : option string;
  vr_base_url : string;
  vr_refresh_token_enc : string;
  vr_fallback_access_token_enc : option string;
  vr_fallback_token_expires_at : option DateTime;
  vr_refresh_token_sha256 : string;
  vr_chatgpt_account_id : option string;
  vr_chatgpt_plan_type : option string;
  vr_source_type : option string;
  vr_desired_mode : UpstreamMode;
  vr_desired_enabled : bool;
  vr_desired_priority : Z;
  vr_status : OAuthVaultRecordStatus;
  vr_failure_count : Z;
  vr_backoff_until : option DateTime;
  vr_next_attempt_at : option DateTime;
  vr_last_error_code : option string;
  vr_last_error_message : option string;
  vr_admission_source : option string;
  vr_admission_checked_at : option DateTime;
  vr_admission_retry_after : option DateTime;
  vr_admission_error_code : option string;
  vr_admission_error_message : option string;
  vr_admission_rate_limits : list OAuthRateLimitSnapshot;
  vr_admission_rate_limits_expires_at : option DateTime;
  vr_failure_stage : option OAuthInventoryFailureStage;
  vr_attempt_count : Z;
  vr_transient_retry_count : Z;
  vr_next_retry_at : option DateTime;
  vr_retryable : bool;
  vr_terminal_reason : option string;
  vr_created_at : DateTime;
  vr_updated_at : DateTime;
}.
#[global] Instance eta_OAuthRefreshTokenVaultRecord : Eta OAuthRefreshTokenVaultRecord := λ r,
  mkOAuthRefreshTokenVaultRecord (vr_id r) (vr_label r) (vr_email r) (vr_base_url r) (vr_refresh_token_enc r)
    (vr_fallback_access_token_enc r) (vr_fallback_token_expires_at r)
    (vr_refresh_token_sha256 r) (vr_chatgpt_account_id r) (vr_chatgpt_plan_type r)
    (vr_source_type r) (vr_desired_mode r) (vr_desired_enabled r) (vr_desired_priority r)
    (vr_status r) (vr_failure_count r) (vr_backoff_until r) (vr_next_attempt_at r)
    (vr_last_error_code r) (vr_last_error_message r) (vr_admission_source r)
    (vr_admission_checked_at r) (vr_admission_retry_after r) (vr_admission_error_code r)
    (vr_admission_error_message r) (vr_admission_rate_limits r)
    (vr_admission_rate_limits_expires_at r) (vr_failure_stage r) (vr_attempt_count r)
    (vr_transient_retry_count r) (vr_next_retry_at r) (vr_retryable r)
    (vr_terminal_reason r) (vr_created_at r) (vr_updated_at r).

Record OAuthRateLimitCacheRecord := mkOAuthRateLimitCacheRecord {
  rlc_rate_limits : list OAuthRateLimitSnapshot;
  rlc_fetched_at : option DateTime;
  rlc_expires_at : option DateTime;
  rlc_last_error_code : option string;
  rlc_last_error : option string;
}.
#[global] Instance eta_OAuthRateLimitCacheRecord : Eta OAuthRateLimitCacheRecord := λ r,
  mkOAuthRateLimitCacheRecord (rlc_rate_limits r) (rlc_fetched_at r) (rlc_expires_at r) (rlc_last_error_code r)
    (rlc_last_error r).

Definition OAuthRateLimitCacheRecord_default : OAuthRateLimitCacheRecord :=
  mkOAuthRateLimitCacheRecord [] None None None None.

(** ** Decidable equality *)

#[global] Instance AccountHealthFreshness_eq_dec : EqDecision AccountHealthFreshness.
Proof. solve_decision. Defined.
#[global] Instance AccountPoolOperatorState_eq_dec : EqDecision AccountPoolOperatorState.
Proof. solve_decision. Defined.
#[global] Instance AccountPoolReasonClass_eq_dec : EqDecision AccountPoolReasonClass.
Proof. solve_decision. Defined.
#[global] Instance AccountProbeOutcome_eq_dec : EqDecision AccountProbeOutcome.
Proof. solve_decision. Defined.
#[global] Instance OAuthLiveResultStatus_eq_dec : EqDecision OAuthLiveResultStatus.
Proof. solve_decision. Defined.
#[global] Instance OAuthRateLimitRefreshJobStatus_eq_dec : EqDecision OAuthRateLimitRefreshJobStatus.
Proof. solve_decision. Defined.
#[global] Instance OAuthRefreshStatus_eq_dec : EqDecision OAuthRefreshStatus.
Proof. solve_decision. Defined.
#[global] Instance OAuthVaultRecordStatus_eq_dec : EqDecision OAuthVaultRecordStatus.
Proof. solve_decision. Defined.
#[global] Instance SessionCredentialKind_eq_dec : EqDecision SessionCredentialKind.
Proof. solve_decision. Defined.
#[global] Instance OAuthInventoryFailureStage_eq_dec : EqDecision OAuthInventoryFailureStage.
Proof. solve_decision. Defined.
#[global] Instance AccountPoolState_eq_dec : EqDecision AccountPoolState.
Proof. solve_decision. Defined.
#[global] Instance RefreshCredentialState_eq_dec : EqDecision RefreshCredentialState.
Proof. solve_decision. Defined.
#[global] Instance UpstreamErrorTemplateStatus_eq_dec : EqDecision UpstreamErrorTemplateStatus.
Proof. solve_decision. Defined.

#[global] Instance BuiltinErrorTemplateKind_countable : Countable BuiltinErrorTemplateKind.
Proof.
  refine (inj_countable' (λ k, match k with GatewayError => true | HeuristicUpstream => false end)
            (λ b : bool, if b then GatewayError else HeuristicUpstream) _).
  by intros [].
Defined.

(** ** Rebuilding the records of [CoreModel] that the store updates in place *)

#[global] Instance eta_UpstreamAccount : Eta UpstreamAccount := λ r,
  mkUpstreamAccount (ua_id r) (ua_label r) (ua_mode r) (ua_base_url r) (ua_bearer_token r)
    (ua_chatgpt_account_id r) (ua_enabled r) (ua_priority r) (ua_created_at r).
#[global] Instance eta_OutboundProxyNode : Eta OutboundProxyNode := λ r,
  mkOutboundProxyNode (opn_id r) (opn_label r) (opn_proxy_url r) (opn_enabled r) (opn_weight r)
    (opn_last_test_status r) (opn_last_latency_ms r) (opn_last_error r) (opn_last_tested_at r)
    (opn_created_at r) (opn_updated_at r).
#[global] Instance eta_BuiltinErrorTemplateRecord : Eta BuiltinErrorTemplateRecord := λ r,
  mkBuiltinErrorTemplateRecord (betr_kind r) (betr_code r) (betr_templates r)
    (betr_default_templates r) (betr_action r) (betr_retry_scope r) (betr_is_overridden r)
    (betr_updated_at r).
