(* ===== verification/StoreDefs.v ===== *)
(** * Rules of the account store: [services/control-plane/src/store/defs.rs]

    Settings from the environment, the classes of upstream errors, when an
    account may be used, rate-limit windows and the record builders of the account
    pool pages. The process environment and the URL library are parameters. *)
From S2P Require Import Prelude RustStr CoreModel Json Request ControlModel.
From Stdlib Require Import Ascii.

#[local] Open Scope string_scope.
#[local] Open Scope list_scope.
#[local] Open Scope Z_scope.

(** ** Times *)

Definition minutes (n : Z) : Duration := from_secs (60 * n).
Definition hours (n : Z) : Duration := from_secs (3600 * n).

Definition OAUTH_MANAGED_BEARER_SENTINEL : string := "__managed_oauth__".
Definition OAUTH_REFRESH_WINDOW_SEC : Z := 300.
Definition OAUTH_MIN_VALID_SEC : Z := 60.
Definition OAUTH_VAULT_TERMINAL_AUTH_RETRY_LIMIT : Z := 3.
Definition ACCOUNT_HEALTH_FRESHNESS_TTL_SEC : Z := 15 * 60.
Definition PRIMARY_RATE_LIMIT_WINDOW_MINUTES : Z := 300.
Definition SECONDARY_RATE_LIMIT_WINDOW_MINUTES : Z := 10080.
Definition DEFAULT_CODEX_ACCOUNT_BASE_URL : string := "https://chatgpt.com/backend-api/codex".
Definition CODEX_ACCOUNT_BASE_PATH : string := "/backend-api/codex".

(** ** Settings from the environment *)

Class Environment := { env_var : string → option string }.

Definition u32_max : Z := 2 ^ 32 - 1.
Definition u32_saturating_add (a b : Z) : Z := clamp 0 u32_max (a + b).

(** [env::var(name).ok().and_then(|raw| raw.parse().ok()).unwrap_or(default).clamp(lo, hi)]
    at [usize], [u32] and [i64]. *)
Definition env_clamped `{Environment} (parse : string → option Z) (name : string) (dflt lo hi : Z) : Z :=
  clamp lo hi (default dflt (env_var name ≫= parse)).
Definition env_usize `{Environment} := env_clamped (parse_unsigned u64_max).
Definition env_u32 `{Environment} := env_clamped (parse_unsigned u32_max).
Definition env_i64 `{Environment} := env_clamped (parse_signed i64_min i64_max).

Section settings.
Context `{Environment}.

Definition oauth_refresh_batch_size_from_env : Z :=
  env_usize "CONTROL_PLANE_OAUTH_REFRESH_BATCH_SIZE" 200 1 2000.
Definition oauth_refresh_concurrency_from_env : Z :=
  env_usize "CONTROL_PLANE_OAUTH_REFRESH_CONCURRENCY" 8 1 64.
Definition oauth_vault_activate_batch_size_from_env : Z :=
  env_usize "CONTROL_PLANE_VAULT_ACTIVATE_BATCH_SIZE" 200 1 2000.
Definition oauth_vault_activate_concurrency_from_env : Z :=
  env_usize "CONTROL_PLANE_VAULT_ACTIVATE_CONCURRENCY" 8 1 64.
Definition oauth_vault_activate_max_rps_from_env : Z :=
  env_u32 "CONTROL_PLANE_VAULT_ACTIVATE_MAX_RPS" 1 1 100.
Definition active_pool_target_from_env : Z :=
  env_usize "CONTROL_PLANE_ACTIVE_POOL_TARGET" 5000 1 100000.
Definition active_pool_min_from_env : Z :=
  env_usize "CONTROL_PLANE_ACTIVE_POOL_MIN" 4500 1 100000.
Definition runtime_pool_cap_from_env : Z :=
  env_usize "CONTROL_PLANE_RUNTIME_POOL_CAP" 100000 1 100000.
Definition pending_purge_delay_sec_from_env : Z :=
  env_i64 "CONTROL_PLANE_PENDING_PURGE_DELAY_SEC" 300 5 (7 * 24 * 60 * 60).
Definition pending_purge_batch_size_from_env : Z :=
  env_usize "CONTROL_PLANE_PENDING_PURGE_BATCH_SIZE" 200 1 5000.
Definition token_invalidated_purge_window_sec_from_env : Z :=
  env_i64 "CONTROL_PLANE_TOKEN_INVALIDATED_PURGE_WINDOW_SEC" 3600 60 (7 * 24 * 60 * 60).
Definition token_invalidated_purge_threshold_for_provider (provider : UpstreamAuthProvider) : Z :=
  let env_name := match provider with
    | OAuthRefreshToken => "CONTROL_PLANE_TOKEN_INVALIDATED_OAUTH_PURGE_THRESHOLD"
    | LegacyBearer => "CONTROL_PLANE_TOKEN_INVALIDATED_LEGACY_PURGE_THRESHOLD"
    end in
  let dflt := match provider with OAuthRefreshToken => 3 | LegacyBearer => 2 end in
  env_u32 env_name dflt 1 10.
Definition rate_limit_cache_ttl_sec_from_env : Z :=
  env_i64 "CONTROL_PLANE_RATE_LIMIT_CACHE_TTL_SEC" 180 30 86400.
Definition rate_limit_refresh_batch_size_from_env : Z :=
  env_usize "CONTROL_PLANE_RATE_LIMIT_REFRESH_BATCH_SIZE" 200 1 2000.
Definition rate_limit_refresh_concurrency_from_env : Z :=
  env_usize "CONTROL_PLANE_RATE_LIMIT_REFRESH_CONCURRENCY" 8 1 64.
Definition rate_limit_refresh_error_backoff_sec_from_env : Z :=
  env_i64 "CONTROL_PLANE_RATE_LIMIT_REFRESH_ERROR_BACKOFF_SEC" 60 5 3600.
Definition active_patrol_batch_size_from_env : Z :=
  env_usize "CONTROL_PLANE_ACTIVE_PATROL_BATCH_SIZE" 5 1 100.
End settings.

(** ** Error templates *)

(** [a.or_else(|| b)] on options. *)
Definition or_else {A} (a b : option A) : option A := match a with Some x => Some x | None => b end.

Definition merge_localized_error_templates (base override_templates : LocalizedErrorTemplates) :
    LocalizedErrorTemplates :=
  mkLocalizedErrorTemplates
    (or_else (let_en override_templates) (let_en base))
    (or_else (let_zh_cn override_templates) (let_zh_cn base))
    (or_else (let_zh_tw override_templates) (let_zh_tw base))
    (or_else (let_ja override_templates) (let_ja base))
    (or_else (let_ru override_templates) (let_ru base)).

(** ** Classes of upstream errors *)

Definition normalize_health_error_code (raw : string) : string := to_ascii_lowercase (trim raw).

(** [matches!(code, "a" | "b" ..)] and [message.contains("a") || ..]. *)
Definition is_one_of (l : list string) (code : string) : bool := bool_decide (code ∈ l).
Definition contains_one_of (l : list string) (message : string) : bool :=
  existsb (contains message) l.

(** Each test looks at the normalised code first and then at the message. *)
Definition signal_test (codes phrases : list string) (error_code error_message : string) : bool :=
  is_one_of codes (normalize_health_error_code error_code)
  || contains_one_of phrases (to_ascii_lowercase error_message).

Definition is_quota_error_signal : string → string → bool :=
  signal_test
    ["quota_exhausted"; "usage_limit"; "insufficient_quota"; "quota_exceeded";
     "billing_hard_limit_reached"]
    ["usage limit"; "insufficient quota"; "quota exceeded"; "billing hard limit";
     "start a free trial of plus"].

Definition is_auth_error_signal : string → string → bool :=
  signal_test
    ["auth_expired"; "token_invalidated"; "invalid_refresh_token"; "refresh_token_reused";
     "refresh_token_revoked"; "missing_client_id"; "unauthorized_client"]
    ["access token could not be refreshed"; "logged out"; "signed in to another account";
     "invalid refresh token"].

Definition is_rate_limited_signal : string → string → bool :=
  signal_test ["rate_limited"] ["rate limit"; "too many requests"].

Definition is_transient_upstream_error_signal : string → string → bool :=
  signal_test ["upstream_unavailable"; "overloaded"; "timeout"]
    ["service unavailable"; "temporarily unavailable"; "upstream unavailable"; "timed out";
     "timeout"; "connection reset"].

Definition normalized_auth_failure_reason_code (auth_provider : UpstreamAuthProvider)
    (error_code error_message : string) : string :=
  let normalized := normalize_health_error_code error_code in
  if String.eqb normalized "token_invalidated" then normalized
  else if bool_decide (auth_provider = LegacyBearer) && is_auth_error_signal error_code error_message
  then "token_invalidated"
  else if is_empty normalized then "invalid_refresh_token" else normalized.

Definition is_fatal_refresh_error_code (error_code : option string) : bool :=
  match error_code with
  | None => false
  | Some error_code =>
      is_one_of ["refresh_token_reused"; "refresh_token_revoked"; "invalid_refresh_token";
                 "missing_client_id"; "unauthorized_client"]
        (normalize_health_error_code error_code)
  end.

(** ** Base URLs *)

Definition trim_base_url (raw : string) : string := trim_end_slashes (trim raw).

(** [trim_end_matches("/v1")]: every suffix [/v1], on the reversed text. *)
Fixpoint drop_rev_v1 (s : string) : string :=
  match s with
  | String "1"%char (String "v"%char (String "/"%char r)) => drop_rev_v1 r
  | _ => s
  end.
Definition trim_end_v1 (s : string) : string := string_reverse (drop_rev_v1 (string_reverse s)).

Class UrlFragment `{UrlLibrary} := { set_fragment : option string → Url → Url }.

Definition normalize_upstream_account_base_url `{UrlFragment} (mode : UpstreamMode) (raw : string) :
    string :=
  let trimmed := trim_base_url raw in
  if negb (is_codex_mode mode) then trimmed
  else if is_empty trimmed then DEFAULT_CODEX_ACCOUNT_BASE_URL
  else match url_parse trimmed with
       | None => trimmed
       | Some parsed =>
           let parsed := set_fragment None (set_query None parsed) in
           let current_path := trim_end_slashes (url_path parsed) in
           let normalized_path :=
             if is_empty current_path || String.eqb current_path "/" || String.eqb current_path "/v1"
             then CODEX_ACCOUNT_BASE_PATH
             else if ends_with current_path CODEX_ACCOUNT_BASE_PATH then current_path
             else if ends_with current_path "/v1"
             then trim_end_v1 current_path +:+ CODEX_ACCOUNT_BASE_PATH
             else current_path +:+ CODEX_ACCOUNT_BASE_PATH in
           trim_base_url (url_to_string (set_path normalized_path parsed))
       end.

Definition resolve_oauth_import_mode (mode : option UpstreamMode) (source_type : option string) :
    UpstreamMode :=
  match mode with
  | Some mode => mode
  | None =>
      if from_option (λ raw, eq_ignore_ascii_case (trim raw) "codex") false source_type
      then CodexOauth else ChatGptSession
  end.

(** ** Refresh credentials and rate-limit blocks *)

Definition has_refresh_credential (auth_provider : UpstreamAuthProvider) : bool :=
  bool_decide (auth_provider = OAuthRefreshToken).

Definition refresh_credential_state (auth_provider : UpstreamAuthProvider)
    (last_refresh_status : OAuthRefreshStatus) (refresh_reused_detected : bool)
    (last_refresh_error_code : option string) : option RefreshCredentialState :=
  if negb (has_refresh_credential auth_provider) then None
  else if refresh_reused_detected || is_fatal_refresh_error_code last_refresh_error_code
  then Some CredTerminalInvalid
  else if bool_decide (last_refresh_status = RefreshFailed) then Some CredTransientFailed
  else Some CredHealthy.

Definition is_blocking_rate_limit_error (rate_limits_last_error_code rate_limits_last_error : option string) :
    bool :=
  match rate_limits_last_error_code with
  | None => false
  | Some error_code =>
      let error_message := default "" rate_limits_last_error in
      is_quota_error_signal error_code error_message
      || is_auth_error_signal error_code error_message
      || is_one_of ["primary_window_exhausted"; "secondary_window_exhausted"]
           (normalize_health_error_code error_code)
  end.

(** [o.is_some_and(|at| at > bound)]. *)
Definition later_than (bound : DateTime) (o : option DateTime) : bool :=
  from_option (λ at_, bound <? at_) false o.

Definition has_active_rate_limit_block (now : DateTime) (rate_limits_expires_at : option DateTime)
    (rate_limits_last_error_code rate_limits_last_error : option string) : bool :=
  later_than now rate_limits_expires_at
  && is_blocking_rate_limit_error rate_limits_last_error_code rate_limits_last_error.

Definition rate_limit_failure_backoff_seconds `{Environment} (error_code error_message : string) : Z :=
  if is_quota_error_signal error_code error_message then 6 * 60 * 60
  else if is_auth_error_signal error_code error_message then 30 * 60
  else if is_rate_limited_signal error_code error_message then 120
  else rate_limit_refresh_error_backoff_sec_from_env.

Definition admission_probe_retry_after `{Environment} (checked_at : DateTime)
    (error_code error_message : string) : option DateTime :=
  if is_quota_error_signal error_code error_message || is_rate_limited_signal error_code error_message
  then Some (checked_at + from_secs (rate_limit_failure_backoff_seconds error_code error_message))
  else if is_transient_upstream_error_signal error_code error_message
  then Some (checked_at + minutes 5)
  else None.

Definition admission_probe_retry_after_with_budget `{Environment} (checked_at : DateTime)
    (error_code error_message : string) (transient_retry_count : Z) : option DateTime :=
  if is_quota_error_signal error_code error_message || is_rate_limited_signal error_code error_message
  then admission_probe_retry_after checked_at error_code error_message
  else if negb (is_transient_upstream_error_signal error_code error_message) then None
  else
    let delay := if transient_retry_count =? 0 then minutes 5
                 else if transient_retry_count =? 1 then minutes 30 else hours 6 in
    Some (checked_at + delay).

Definition can_retry_transient_admission_failure (transient_retry_count : Z) : bool :=
  transient_retry_count <? OAUTH_VAULT_TERMINAL_AUTH_RETRY_LIMIT.
Definition can_retry_fatal_activation_failure (failure_count : Z) : bool :=
  failure_count <? OAUTH_VAULT_TERMINAL_AUTH_RETRY_LIMIT.

(** ** When an account may be used *)

Definition min_valid (now : DateTime) : DateTime := now + from_secs OAUTH_MIN_VALID_SEC.

Record SeenOkRateLimitRefreshContext := mkSeenOkRateLimitRefreshContext {
  so_token_expires_at : option DateTime;
  so_last_refresh_status : OAuthRefreshStatus;
  so_refresh_reused_detected : bool;
  so_last_refresh_error_code : option string;
  so_rate_limits_expires_at : option DateTime;
  so_rate_limits_last_error_code : option string;
  so_rate_limits_last_error : option string;
}.

Definition should_refresh_rate_limit_cache_on_seen_ok (now : DateTime)
    (ctx : SeenOkRateLimitRefreshContext) : bool :=
  if negb (later_than (min_valid now) (so_token_expires_at ctx)) then false
  else if so_refresh_reused_detected ctx then false
  else if bool_decide (so_last_refresh_status ctx = RefreshFailed)
          && is_fatal_refresh_error_code (so_last_refresh_error_code ctx) then false
  else if has_active_rate_limit_block now (so_rate_limits_expires_at ctx)
            (so_rate_limits_last_error_code ctx) (so_rate_limits_last_error ctx) then true
  else true.

Definition has_usable_access_token_fallback (has_access_token_fallback : bool)
    (fallback_token_expires_at : option DateTime) (now : DateTime) : bool :=
  has_access_token_fallback
  && from_option (λ expires_at, min_valid now <? expires_at) true fallback_token_expires_at.

Definition refresh_credential_is_terminal_invalid (last_refresh_status : OAuthRefreshStatus)
    (refresh_reused_detected : bool) (last_refresh_error_code : option string) : bool :=
  refresh_reused_detected
  || bool_decide (last_refresh_status = RefreshFailed)
     && is_fatal_refresh_error_code last_refresh_error_code.

Definition should_use_access_token_fallback_for_runtime (token_expires_at : option DateTime)
    (has_access_token_fallback : bool) (fallback_token_expires_at : option DateTime)
    (last_refresh_status : OAuthRefreshStatus) (refresh_reused_detected : bool)
    (last_refresh_error_code : option string) (now : DateTime) : bool :=
  has_usable_access_token_fallback has_access_token_fallback fallback_token_expires_at now
  && refresh_credential_is_terminal_invalid last_refresh_status refresh_reused_detected
       last_refresh_error_code
  && negb (later_than (min_valid now) token_expires_at).

Definition oauth_effective_enabled (enabled : bool) (auth_provider : UpstreamAuthProvider)
    (credential_kind : option SessionCredentialKind) (token_expires_at : option DateTime)
    (has_access_token_fallback : bool) (fallback_token_expires_at : option DateTime)
    (last_refresh_status : OAuthRefreshStatus) (refresh_reused_detected : bool)
    (last_refresh_error_code : option string) (rate_limits_expires_at : option DateTime)
    (rate_limits_last_error_code rate_limits_last_error : option string) (now : DateTime) : bool :=
  let fallback_usable :=
    has_usable_access_token_fallback has_access_token_fallback fallback_token_expires_at now in
  let base_enabled :=
    match auth_provider, credential_kind with
    | OAuthRefreshToken, _ =>
        enabled && (later_than (min_valid now) token_expires_at || fallback_usable)
    | _, Some OneTimeAccessToken =>
        enabled && from_option (λ expires_at, min_valid now <? expires_at) true token_expires_at
    | _, _ => enabled
    end in
  if negb base_enabled then false
  else if bool_decide (auth_provider = OAuthRefreshToken) then
    if refresh_credential_is_terminal_invalid last_refresh_status refresh_reused_detected
         last_refresh_error_code && negb fallback_usable then false
    else if has_active_rate_limit_block now rate_limits_expires_at rate_limits_last_error_code
              rate_limits_last_error then false
    else true
  else true.

(** ** Rate-limit windows *)

(** The order of [f64] on the bits: a sign, then magnitude; a NaN is in no order. *)
Definition f64_magnitude (bits : F64) : Z := bits `mod` 2 ^ 63.
Definition f64_is_nan (bits : F64) : bool := 0x7FF0000000000000 <? f64_magnitude bits.
Definition f64_key (bits : F64) : Z :=
  if 2 ^ 63 <=? bits then - f64_magnitude bits else f64_magnitude bits.
Definition f64_lt (a b : F64) : bool :=
  negb (f64_is_nan a) && negb (f64_is_nan b) && (f64_key a <? f64_key b).
Definition f64_100 : F64 := 0x4059000000000000.

(** [Iterator::max] of times: the latest, if any. *)
Definition max_time (l : list DateTime) : option DateTime :=
  max_by Z.compare l.

Definition window_blocked_until (secondary : bool) (window_minutes : option Z) (now : DateTime)
    (snapshot : OAuthRateLimitSnapshot) : option DateTime :=
  match (if secondary then rls_secondary snapshot else rls_primary snapshot) with
  | None => None
  | Some window =>
      if f64_lt (rlw_used_percent window) f64_100 then None
      else if match window_minutes, rlw_window_minutes window with
              | Some expected_minutes, Some actual_minutes => negb (actual_minutes =? expected_minutes)
              | _, _ => false
              end then None
      else match rlw_resets_at window with
           | Some resets_at => if now <? resets_at then Some resets_at else None
           | None => None
           end
  end.

Definition find_blocked_until_for_window (snapshots : list OAuthRateLimitSnapshot) (secondary : bool)
    (window_minutes : option Z) (now : DateTime) : option DateTime :=
  max_time (omap (window_blocked_until secondary window_minutes now) snapshots).

Definition derive_rate_limit_block (snapshots : list OAuthRateLimitSnapshot) (now : DateTime) :
    option DateTime * option string :=
  match find_blocked_until_for_window snapshots true (Some SECONDARY_RATE_LIMIT_WINDOW_MINUTES) now with
  | Some blocked_until => (Some blocked_until, Some "secondary_window_exhausted")
  | None =>
      match find_blocked_until_for_window snapshots false (Some PRIMARY_RATE_LIMIT_WINDOW_MINUTES) now with
      | Some blocked_until => (Some blocked_until, Some "primary_window_exhausted")
      | None => (None, None)
      end
  end.

Definition rate_limit_block_message (block_reason : string) : string :=
  let code := normalize_health_error_code block_reason in
  if String.eqb code "secondary_window_exhausted"
  then "secondary rate limit window is exhausted until reset"
  else if String.eqb code "primary_window_exhausted"
  then "primary rate limit window is exhausted until reset"
  else "rate limit window is exhausted until reset".

(** ** Reason classes and freshness of the account pool *)

Definition account_pool_operator_state_order (s : AccountPoolOperatorState) : Z :=
  match s with OpRoutable => 0 | OpCooling => 1 | OpInventory => 2 | OpPendingDelete => 3 end.

Definition account_pool_reason_class_from_code (code : option string) (fallback : AccountPoolReasonClass) :
    AccountPoolReasonClass :=
  match trim <$> code with
  | None => fallback
  | Some value =>
      if is_empty value then fallback else
      let code := to_ascii_lowercase value in
      if is_one_of ["token_invalidated"; "account_deactivated"; "invalid_refresh_token";
                    "refresh_token_revoked"; "refresh_token_reused"; "terminal_invalid";
                    "credential_cipher_missing"] code then RcFatal
      else if is_one_of ["rate_limited"; "quota_exhausted"; "no_quota"] code then RcQuota
      else if is_one_of ["upstream_unavailable"; "transport_error"; "overloaded";
                         "upstream_network_error"] code then RcTransient
      else if starts_with code "operator_" || String.eqb code "disabled_by_admin" then RcAdmin
      else fallback
  end.

Definition account_pool_reason_class_name (reason_class : AccountPoolReasonClass) : string :=
  match reason_class with
  | RcHealthy => "healthy" | RcQuota => "quota" | RcFatal => "fatal"
  | RcTransient => "transient" | RcAdmin => "admin"
  end.

Definition account_pool_state_event_name (s : AccountPoolState) : string :=
  match s with
  | Active => "routable" | Quarantine => "cooling" | PendingPurge => "pending_delete"
  end.

Definition auth_provider_name (provider : UpstreamAuthProvider) : string :=
  match provider with OAuthRefreshToken => "oauth_refresh_token" | LegacyBearer => "legacy_bearer" end.

(** [[a, b, ..].into_iter().flatten().max()]. *)
Definition latest (l : list (option DateTime)) : option DateTime := max_time (omap id l).

(** [o.filter(|_| b)]. *)
Definition keep_if {A} (b : bool) (o : option A) : option A := if b then o else None.

Definition account_health_freshness_from_signals (now : DateTime)
    (last_seen_ok_at last_probe_at : option DateTime) (last_probe_outcome : option AccountProbeOutcome)
    (last_live_result_at : option DateTime) (last_live_result_status : option OAuthLiveResultStatus) :
    AccountHealthFreshness :=
  let cutoff := now - from_secs ACCOUNT_HEALTH_FRESHNESS_TTL_SEC in
  let last_success_at :=
    latest [last_seen_ok_at;
            keep_if (bool_decide (last_probe_outcome = Some ProbeOk)) last_probe_at;
            keep_if (bool_decide (last_live_result_status = Some LiveOk)) last_live_result_at] in
  let last_failure_at :=
    latest [keep_if match last_probe_outcome with
                    | Some (ProbeFatal | ProbeQuota | ProbeTransient) => true
                    | _ => false
                    end last_probe_at;
            keep_if (bool_decide (last_live_result_status = Some LiveFailed)) last_live_result_at] in
  match last_success_at, last_failure_at with
  | None, None => HealthUnknown
  | _, _ =>
      if from_option (λ failure, (cutoff <=? failure)
                        && from_option (λ success, success <=? failure) true last_success_at)
           false last_failure_at
      then HealthStale
      else if from_option (λ success, cutoff <=? success) false last_success_at then HealthFresh
      else HealthStale
  end.
