(* ===== verification/Secrets.v ===== *)
(** * Secrets: [services/control-plane/src/crypto.rs] and [security.rs]

    Encryption of the stored credentials and hashing of API keys. The base64
    engine, AES-256-GCM, HMAC-SHA-256, SHA-256 and the random generator are
    parameters. Bytes and text are byte strings. *)
From S2P Require Import Prelude RustStr CoreModel StoreDefs.
From Stdlib Require Import Ascii.

#[local] Open Scope string_scope.
#[local] Open Scope list_scope.
#[local] Open Scope Z_scope.

Abbreviation Error := string (only parsing).

(** [base64::engine::general_purpose::STANDARD]. *)
Class Base64 := {
  base64_encode : string → string;
  base64_decode : string → option string;
}.

(** [Aes256Gcm]: a cipher for a key of the right length; sealing and opening
    with a nonce of twelve bytes. *)
Class Aes256Gcm := {
  AesKey : Type;
  aes_new_from_slice : string → option AesKey;
  aes_encrypt : AesKey → string → string → option string;
  aes_decrypt : AesKey → string → string → option string;
}.

(** [rand::fill] of twelve bytes: each draw is a tick. *)
Class NonceSource := {
  nonce_at : nat → string;
  nonce_length : ∀ n, String.length (nonce_at n) = 12%nat;
}.

Class Digests := {
  hmac_sha256 : string → string → string;
  sha256 : string → string;
  hex_encode : string → string;
}.

(** ** [CredentialCipher] ([crypto.rs]) *)

Definition CIPHERTEXT_VERSION_PREFIX : string := "v1".

Section crypto.
Context `{Base64, Aes256Gcm}.

Record CredentialCipher := mkCredentialCipher { cipher : AesKey }.

Definition from_base64_key (raw : string) : result CredentialCipher Error :=
  match base64_decode raw with
  | None => Err "failed to decode base64 encryption key"
  | Some key_bytes =>
      if negb (bool_decide (String.length key_bytes = 32%nat))
      then Err "invalid encryption key length: expected 32 bytes after base64 decode"
      else match aes_new_from_slice key_bytes with
           | None => Err "failed to initialize AES-256-GCM cipher"
           | Some c => Ok (mkCredentialCipher c)
           end
  end.

Definition CredentialCipher_from_env `{Environment} : result (option CredentialCipher) Error :=
  match env_var "CREDENTIALS_ENCRYPTION_KEY" with
  | None => Ok None
  | Some raw => match from_base64_key raw with
                | Ok c => Ok (Some c)
                | Err e => Err e
                end
  end.

Definition encrypt_with (c : CredentialCipher) (nonce plaintext : string) : result string Error :=
  match aes_encrypt (cipher c) nonce plaintext with
  | None => Err "failed to encrypt credential"
  | Some ciphertext =>
      Ok (CIPHERTEXT_VERSION_PREFIX +:+ ":" +:+ base64_encode nonce +:+ ":" +:+ base64_encode ciphertext)
  end.

Definition encrypt {S} `{NonceSource} (c : CredentialCipher) (plaintext : string) :
    ST (Timed S) (result string Error) :=
  λ w, (encrypt_with c (nonce_at (ticks w)) plaintext, mkTimed (st w) (Datatypes.S (ticks w))).

(** [encrypted.splitn(3, ':')]: the version, then the nonce and the ciphertext
    when there are enough colons. *)
Definition decrypt (c : CredentialCipher) (encrypted : string) : result string Error :=
  let '(version, rest) := match split_once ":" encrypted with
                          | Some (v, r) => (v, Some r)
                          | None => (encrypted, None)
                          end in
  if negb (String.eqb version CIPHERTEXT_VERSION_PREFIX) then Err "unsupported ciphertext version"
  else match rest with
  | None => Err "missing nonce"
  | Some rest =>
      let '(nonce_text, rest) := match split_once ":" rest with
                                 | Some (n, r) => (n, Some r)
                                 | None => (rest, None)
                                 end in
      match base64_decode nonce_text with
      | None => Err "failed to decode nonce"
      | Some nonce =>
          if negb (bool_decide (String.length nonce = 12%nat)) then Err "invalid nonce length"
          else match rest with
          | None => Err "missing ciphertext"
          | Some ciphertext_text =>
              match base64_decode ciphertext_text with
              | None => Err "failed to decode ciphertext"
              | Some ciphertext =>
                  match aes_decrypt (cipher c) nonce ciphertext with
                  | None => Err "failed to decrypt credential"
                  | Some plaintext =>
                      if valid_utf8 plaintext then Ok plaintext
                      else Err "decrypted credential is not valid UTF-8"
                  end
              end
          end
      end
  end.
End crypto.

(** ** API-key hashing ([security.rs]) *)

Definition API_KEY_HMAC_ALGO : string := "hmac-sha256".

Record ApiKeyHmacKey := mkApiKeyHmacKey { key_id : string; secret : string }.
Record ApiKeyTokenHasher := mkApiKeyTokenHasher { active : ApiKeyHmacKey; all : list ApiKeyHmacKey }.

(** [char::is_ascii_alphanumeric], [-] and [_]: bytes of longer characters are
    above the ASCII range and fail the test as their character does. *)
Definition key_id_byte (a : Ascii.ascii) : bool :=
  let b := byte_of a in
  ((48 <=? b) && (b <=? 57) || (65 <=? b) && (b <=? 90) || (97 <=? b) && (b <=? 122)
   || (b =? 45) || (b =? 95))%N.

Section security.
Context `{Base64, Digests}.

Definition parse_hmac_key (item : string) : result ApiKeyHmacKey Error :=
  match split_once ":" item with
  | None => Err ("invalid api-key hmac key entry: " +:+ item)
  | Some (key_id, secret_b64) =>
      let key_id := trim key_id in
      if is_empty key_id then Err "api-key hmac key id must not be empty"
      else if negb (forallb key_id_byte (String.list_ascii_of_string key_id))
      then Err ("api-key hmac key id contains invalid characters: " +:+ key_id)
      else match base64_decode (trim secret_b64) with
           | None => Err ("failed to decode base64 secret for key id " +:+ key_id)
           | Some secret =>
               if bool_decide (String.length secret < 32)%nat
               then Err ("api-key hmac secret for key id " +:+ key_id +:+ " must be at least 32 bytes")
               else Ok (mkApiKeyHmacKey key_id secret)
           end
  end.

(** The loop over the entries: the first bad one ends it. *)
Fixpoint parse_hmac_keys (items : list string) : result (list ApiKeyHmacKey) Error :=
  match items with
  | [] => Ok []
  | item :: items =>
      match parse_hmac_key item with
      | Err e => Err e
      | Ok key => match parse_hmac_keys items with
                  | Ok keys => Ok (key :: keys)
                  | Err e => Err e
                  end
      end
  end.

Definition from_raw_keys (raw : string) : result ApiKeyTokenHasher Error :=
  match parse_hmac_keys (List.filter (λ item, negb (is_empty item)) (trim <$> split "," raw)) with
  | Err e => Err e
  | Ok [] => Err "CONTROL_PLANE_API_KEY_HMAC_KEYS must contain at least one key"
  | Ok ((active :: _) as keys) => Ok (mkApiKeyTokenHasher active keys)
  end.

Definition hasher_from_env `{Environment} : result ApiKeyTokenHasher Error :=
  match env_var "CONTROL_PLANE_API_KEY_HMAC_KEYS" with
  | None => Err "CONTROL_PLANE_API_KEY_HMAC_KEYS is required (format: kid:base64_secret[,kid2:base64_secret2])"
  | Some raw => from_raw_keys raw
  end.

Definition hash_with_key (key : ApiKeyHmacKey) (token : string) : string :=
  API_KEY_HMAC_ALGO +:+ ":" +:+ key_id key +:+ ":" +:+ hex_encode (hmac_sha256 (secret key) token).

Definition hash_active (self : ApiKeyTokenHasher) (token : string) : string :=
  hash_with_key (active self) token.

Definition legacy_sha256_hash_api_key_token (token : string) : string := hex_encode (sha256 token).

(** Push a value unless it is there. *)
Definition push_new (x : string) (values : list string) : list string :=
  if bool_decide (x ∈ values) then values else values ++ [x].

Definition candidates (self : ApiKeyTokenHasher) (token : string) : list string :=
  push_new token
    (push_new (legacy_sha256_hash_api_key_token token)
       ((λ key, hash_with_key key token) <$> all self)).

(** The lookup of [validate_api_key] in [store/postgres/impl_crud/tenant_accounts.rs]:
    [WHERE tok.token = ANY(candidates)] finds a row when a stored token is one of
    the candidates. *)
Definition stored_token_matches (self : ApiKeyTokenHasher) (stored token : string) : bool :=
  bool_decide (stored ∈ candidates self token).
End security.
