(* ===== verification/SecretsFacts.v ===== *)
(** * Properties of the secrets

    Decryption undoes encryption, and the keys that hash API-key tokens are strong
    enough when they are accepted. *)
From S2P Require Import Prelude RustStr CoreModel StoreDefs Secrets.
From Stdlib Require Import Ascii.

#[local] Open Scope string_scope.
#[local] Open Scope list_scope.
#[local] Open Scope Z_scope.

(** [split_once] at a character that the first part does not have. *)
Fixpoint no_char (c : ascii) (s : string) : bool :=
  match s with
  | EmptyString => true
  | String a r => negb (Ascii.eqb a c) && no_char c r
  end.

Lemma split_once_app c a b :
  no_char c a = true → split_once c (a +:+ String c b) = Some (a, b).
Proof.
  induction a as [|x a IH]; intros Ha.
  - change ("" +:+ String c b) with (String c b). cbn -[Ascii.eqb]. by rewrite Ascii.eqb_refl.
  - change (String x a +:+ String c b) with (String x (a +:+ String c b)).
    cbn -[Ascii.eqb] in Ha |- *. apply andb_true_iff in Ha as [Hx Ha]. apply negb_true_iff in Hx.
    by rewrite Hx, IH.
Qed.

(** What an accepted key is. *)
Definition strong_key (k : ApiKeyHmacKey) : Prop :=
  key_id k ≠ "" ∧ forallb key_id_byte (String.list_ascii_of_string (key_id k)) = true
  ∧ (32 ≤ String.length (secret k))%nat.

Section secrets.
Context `{Base64, Aes256Gcm, Digests}.

Lemma parse_hmac_key_strong item k : parse_hmac_key item = Ok k → strong_key k.
Proof.
  unfold parse_hmac_key. destruct (split_once ":" item) as [[id text]|]; [|done].
  destruct (is_empty (trim id)) eqn:Hid; [done|]. destruct (forallb _ _) eqn:Hb; [|done].
  destruct (base64_decode (trim text)) as [bytes|]; [|done]. cbn [negb].
  case_bool_decide as Hl; [done|]. intros [= <-]. split_and!; cbn; [|done|lia].
  intros He. by rewrite He in Hid.
Qed.

Lemma parse_hmac_keys_strong items ks : parse_hmac_keys items = Ok ks → Forall strong_key ks.
Proof.
  revert ks. induction items as [|item items IH]; intros ks; cbn; [intros [= <-]; constructor|].
  destruct (parse_hmac_key item) as [k|] eqn:Hk; [|done].
  destruct (parse_hmac_keys items) as [l|]; [|done]. intros [= <-].
  constructor; [by apply parse_hmac_key_strong in Hk|by apply IH].
Qed.

(** C38: type. A hasher built from the configured keys is well formed: it has a key,
    new tokens are hashed with the first of them, and every key has an identifier of
    letters, digits, hyphens and underscores and a secret of at least 32 bytes; so
    every hash it makes is recognised, with the token it was made from, when the
    token is presented again. *)
Theorem configured_keys_are_strong raw h :
  from_raw_keys raw = Ok h →
  head (all h) = Some (active h) ∧ Forall strong_key (all h)
  ∧ ∀ k token, k ∈ all h → stored_token_matches h (hash_with_key k token) token = true.
Proof.
  unfold from_raw_keys. destruct (parse_hmac_keys _) as [[|k ks]|] eqn:Hp; [done| |done]. intros [= <-].
  split_and!; [done|by apply parse_hmac_keys_strong in Hp|]. cbn [all]. intros k' token Hk.
  unfold stored_token_matches. apply bool_decide_eq_true_2. unfold candidates, push_new. cbn [all].
  assert (Hin : hash_with_key k' token ∈ (λ key, hash_with_key key token) <$> k :: ks)
    by (by apply (list_elem_of_fmap_2 (λ key, hash_with_key key token))).
  repeat (case_bool_decide; [|apply elem_of_app; left]); done.
Qed.

(** A stored hash is a candidate for itself: presented as a token, it matches. *)
Lemma stored_hash_matches_itself h stored : stored_token_matches h stored stored = true.
Proof.
  unfold stored_token_matches. apply bool_decide_eq_true_2. unfold candidates, push_new at 1.
  case_bool_decide; [done|]. set_solver.
Qed.

(** What is assumed of the libraries: base64 text has no colon and decodes to what was
    encoded, and the cipher opens what it sealed under the same nonce. *)
Class SealLaws : Prop := {
  seal_decode : ∀ x, base64_decode (base64_encode x) = Some x;
  seal_no_colon : ∀ x, no_char ":" (base64_encode x) = true;
  seal_opens : ∀ k n p t, aes_encrypt k n p = Some t → aes_decrypt k n t = Some p;
}.

(** A text that was encrypted at some time opens. *)
Definition sealed `{NonceSource} (c : CredentialCipher) (text plaintext : string) : Prop :=
  ∃ n, encrypt_with c (nonce_at n) plaintext = Ok text.

Lemma sealed_opens `{NonceSource, SealLaws} c text plaintext :
  valid_utf8 plaintext = true → sealed c text plaintext → decrypt c text = Ok plaintext.
Proof.
  intros Hu [n He]. unfold encrypt_with in He. destruct (aes_encrypt _ _ _) as [t|] eqn:Ha; [|done].
  injection He as <-. apply seal_opens in Ha. unfold decrypt, CIPHERTEXT_VERSION_PREFIX.
  change (":" +:+ ?x) with (String ":" x). rewrite split_once_app by done. cbn [negb String.eqb Ascii.eqb].
  change (":" +:+ ?x) with (String ":" x). rewrite split_once_app by apply seal_no_colon.
  rewrite seal_decode. rewrite bool_decide_eq_true_2 by apply nonce_length. cbn [negb].
  by rewrite seal_decode, Ha, Hu.
Qed.

(** Round trip. With an engine whose base64 text has no colon and decodes to what
    was encoded, and a cipher that opens what it sealed under the same nonce, a
    credential that was encrypted decrypts to the text it was, whatever nonce was
    drawn; and no text of another version is ever decrypted. *)
Theorem encrypt_decrypt_roundtrip `{NonceSource} {S} (c : CredentialCipher) plaintext (w : Timed S) :
  (∀ x, base64_decode (base64_encode x) = Some x) → (∀ x, no_char ":" (base64_encode x) = true) →
  (∀ k n p t, aes_encrypt k n p = Some t → aes_decrypt k n t = Some p) →
  valid_utf8 plaintext = true →
  wp (encrypt c plaintext) (λ r w', st w' = st w ∧ ticks w' = Datatypes.S (ticks w) ∧
    match r with
    | Ok text => decrypt c text = Ok plaintext
    | Err _ => aes_encrypt (cipher c) (nonce_at (ticks w)) plaintext = None
    end) w
  ∧ ∀ version rest, no_char ":" version = true → version ≠ "v1" →
      decrypt c (version +:+ ":" +:+ rest) = Err "unsupported ciphertext version".
Proof.
  intros Hb Hc Ha Hu. split.
  - apply wp_intro. unfold encrypt. intros r w' [= <- <-]. split_and!; [done|done|].
    destruct (encrypt_with _ _ _) as [t|] eqn:He.
    + assert SealLaws by (by constructor). apply sealed_opens; [done|]. by exists (ticks w).
    + unfold encrypt_with in He. by destruct (aes_encrypt _ _ _).
  - intros version rest Hn Hv. unfold decrypt. change (":" +:+ rest) with (String ":" rest).
    rewrite split_once_app by done. apply String.eqb_neq in Hv.
    unfold CIPHERTEXT_VERSION_PREFIX. by rewrite Hv.
Qed.
End secrets.
