(* ===== verification/Instances.v ===== *)
(** * Instances of the parameters, for running the model

    Concrete functions for the parameters of the control plane: an engine that writes
    every byte as two letters, a cipher that writes the nonce before the text, digests
    that keep the text, identifiers that count, a clock of one second per tick, an
    empty environment and URLs that are their paths. They satisfy the hypotheses the
    theorems make of the real libraries. *)
From S2P Require Import Prelude RustStr CoreModel Request RoutingCache RoutingCacheFacts StoreDefs Secrets SecretsFacts.
From Stdlib Require Import Ascii.

#[local] Open Scope string_scope.
#[local] Open Scope list_scope.
#[local] Open Scope Z_scope.

(** ** Base64: two letters from [a] to [p] for a byte *)

Definition letter (n : N) : ascii := ascii_of_N (97 + n).
Definition letter_value (a : ascii) : N := N_of_ascii a - 97.

Fixpoint letters (s : string) : string :=
  match s with
  | EmptyString => EmptyString
  | String a r => String (letter (N_of_ascii a / 16)) (String (letter (N_of_ascii a mod 16)) (letters r))
  end.
Fixpoint unletters (s : string) : option string :=
  match s with
  | EmptyString => Some EmptyString
  | String _ EmptyString => None
  | String a (String b r) =>
      String (ascii_of_N (letter_value a * 16 + letter_value b)) <$> unletters r
  end.

Lemma letter_value_letter n : (n < 16)%N → letter_value (letter n) = n.
Proof. intros Hn. unfold letter_value, letter. rewrite N_ascii_embedding by lia. lia. Qed.

Lemma letter_ne_colon n : (n < 16)%N → Ascii.eqb (letter n) ":" = false.
Proof.
  intros Hn. apply Ascii.eqb_neq. unfold letter. intros He. apply (f_equal N_of_ascii) in He.
  rewrite N_ascii_embedding in He by lia. change (N_of_ascii ":") with 58%N in He. lia.
Qed.

Lemma byte_digits a : (N_of_ascii a / 16 < 16)%N ∧ (N_of_ascii a mod 16 < 16)%N.
Proof.
  pose proof (N_ascii_bounded a). split; [apply N.Div0.div_lt_upper_bound; lia|apply N.mod_lt; lia].
Qed.

Lemma unletters_letters s : unletters (letters s) = Some s.
Proof.
  induction s as [|a s IH]; [done|]. cbn [letters unletters]. rewrite IH. destruct (byte_digits a).
  rewrite !letter_value_letter by done. cbn. do 2 f_equal.
  rewrite N.mul_comm, <- N.div_mod by lia. apply ascii_N_embedding.
Qed.

Lemma letters_no_colon s : no_char ":" (letters s) = true.
Proof.
  induction s as [|a s IH]; [done|]. cbn [letters no_char]. destruct (byte_digits a).
  by rewrite !letter_ne_colon, IH.
Qed.

#[export] Instance letter_base64 : Base64 := {| base64_encode := letters; base64_decode := unletters |}.

(** ** The cipher *)

#[export] Instance toy_aes : Aes256Gcm := {|
  AesKey := string;
  aes_new_from_slice := Some;
  aes_encrypt k n p := Some (n +:+ p);
  aes_decrypt k n t := strip_prefix n t;
|}.

Lemma strip_prefix_app p s : strip_prefix p (p +:+ s) = Some s.
Proof.
  induction p as [|a p IH]; [done|]. change (String a p +:+ s) with (String a (p +:+ s)). cbn -[Ascii.eqb].
  by rewrite Ascii.eqb_refl.
Qed.

#[export] Instance toy_nonce : NonceSource.
Proof. by refine {| nonce_at _ := "000000000000" |}. Defined.

#[export] Instance toy_digests : Digests :=
  {| hmac_sha256 k t := k +:+ t; sha256 t := t; hex_encode t := t |}.

(** ** Clock, identifiers, environment, URLs *)

#[export] Instance counting_uuid : UuidSource := {| uuid_v4 n := N.of_nat (S n) |}.
#[export] Instance second_clock : WallClock := {| utc n := Z.of_nat n * 1000000000 |}.
#[export] Instance empty_env : Environment := {| env_var _ := None |}.
#[export] Existing Instance id_list_order.
#[export] Instance path_library : UrlLibrary :=
  {| Url := string; url_parse := Some; url_path u := u; url_scheme _ := "https";
     set_path p _ := p; set_query _ u := u; set_scheme _ u := Some u; url_to_string u := u |}.
#[export] Instance path_fragment : UrlFragment := {| set_fragment _ u := u |}.

Lemma counting_uuid_inj : Inj (=) (=) uuid_v4.
Proof. intros a b. cbn. lia. Qed.

#[export] Existing Instance RoutingCacheFacts.Witness.unary_uuid.

Definition toy_cipher : CredentialCipher := mkCredentialCipher "key".
Definition toy_hasher : ApiKeyTokenHasher :=
  let k := mkApiKeyHmacKey "k1" "01234567890123456789012345678901" in mkApiKeyTokenHasher k [k].

(** ** The hypotheses about secrets hold of them *)

#[export] Instance toy_seal : SealLaws.
Proof.
  split; [exact unletters_letters|exact letters_no_colon|].
  intros k n p t Ht. injection Ht as <-. apply strip_prefix_app.
Qed.

Lemma encrypt_decrypt_roundtrip_witness :
  wp (encrypt toy_cipher "token") (λ r w', st w' = tt ∧ ticks w' = 6%nat ∧
    match r with
    | Ok text => decrypt toy_cipher text = Ok "token"
    | Err _ => aes_encrypt "key" "000000000000" "token" = None
    end) (mkTimed tt 5)
  ∧ ∀ version rest, no_char ":" version = true → version ≠ "v1" →
      decrypt toy_cipher (version +:+ ":" +:+ rest) = Err "unsupported ciphertext version".
Proof.
  apply (encrypt_decrypt_roundtrip toy_cipher "token" (mkTimed tt 5)).
  - exact unletters_letters.
  - exact letters_no_colon.
  - intros k n p t Ht. injection Ht as <-. apply strip_prefix_app.
  - reflexivity.
Defined.

Definition raw_keys : string := " k1:" +:+ letters "01234567890123456789012345678901" +:+ " , old-2:"
  +:+ letters "abcdefghijklmnopqrstuvwxyzabcdef" +:+ ",".

Lemma configured_keys_are_strong_witness :
  ∃ h, from_raw_keys raw_keys = Ok h ∧ length (all h) = 2%nat
    ∧ head (all h) = Some (active h) ∧ Forall strong_key (all h)
    ∧ ∀ k token, k ∈ all h → stored_token_matches h (hash_with_key k token) token = true.
Proof.
  eexists. split; [vm_compute; reflexivity|]. split; [reflexivity|].
  apply (configured_keys_are_strong raw_keys). vm_compute. reflexivity.
Defined.
