(* ===== verification/Credentials.v ===== *)
(** * Credential and profile records: [services/control-plane/src/store/defs.rs]

    The methods of [OAuthCredentialRecord] and [SessionProfileRecord]. *)
From S2P Require Import Prelude RustStr CoreModel Json Request RoutingCache ControlModel StoreDefs Secrets.

#[local] Open Scope string_scope.
#[local] Open Scope list_scope.
#[local] Open Scope Z_scope.

(** [opt.map(str::trim).filter(|v| !v.is_empty())]. *)
Definition trimmed_non_empty (o : option string) : option string :=
  match o with
  | Some value => let t := trim value in if is_empty t then None else Some t
  | None => None
  end.

Section credentials.
Context `{Base64, Aes256Gcm, NonceSource, Digests, UuidSource, WallClock, UuidText}.

Definition refresh_token_sha256 (token : string) : string := hex_encode (sha256 token).

Definition from_token_info {S} (c : CredentialCipher) (token_info : OAuthTokenInfo) :
    ST (Timed S) (result OAuthCredentialRecord Error) :=
  access_token_enc ←? encrypt c (oti_access_token token_info);
  refresh_token_enc ←? encrypt c (oti_refresh_token token_info);
  family ← new_v4;
  now ← utc_now;
  mret (Ok (mkOAuthCredentialRecord access_token_enc refresh_token_enc None
    (refresh_token_sha256 (oti_refresh_token token_info)) (uuid_to_string family) 1
    (oti_expires_at token_info) None (Some now) RefreshOk false None None 0 None)).

Definition backoff_duration (self : OAuthCredentialRecord) : Duration :=
  let n := ocr_refresh_failure_count self in
  if n =? 0 then from_secs 0 else if n =? 1 then from_secs 30 else if n =? 2 then from_secs 60
  else if n =? 3 then from_secs 120 else from_secs 300.

Definition has_access_token_fallback (self : OAuthCredentialRecord) : bool :=
  bool_decide (is_Some (ocr_fallback_access_token_enc self)).

Definition set_fallback_access_token {S} (self : OAuthCredentialRecord) (c : CredentialCipher)
    (fallback_access_token : option string) (fallback_token_expires_at : option DateTime) :
    ST (Timed S) (result OAuthCredentialRecord Error) :=
  match trimmed_non_empty fallback_access_token with
  | Some token =>
      enc ←? encrypt c token;
      mret (Ok self <| ocr_fallback_access_token_enc := Some enc |>
                    <| ocr_fallback_token_expires_at := fallback_token_expires_at |>)
  | None =>
      mret (Ok self <| ocr_fallback_access_token_enc := None |>
                    <| ocr_fallback_token_expires_at := None |>)
  end.
End credentials.

Definition from_oauth_token_info (t : OAuthTokenInfo) (credential_kind : SessionCredentialKind)
    (chatgpt_plan_type source_type : option string) : SessionProfileRecord :=
  mkSessionProfileRecord credential_kind (Some (oti_expires_at t)) (oti_email t) (oti_oauth_subject t)
    (oti_oauth_identity_provider t) (oti_email_verified t)
    (or_else chatgpt_plan_type (oti_chatgpt_plan_type t)) (oti_chatgpt_user_id t)
    (oti_chatgpt_subscription_active_start t) (oti_chatgpt_subscription_active_until t)
    (oti_chatgpt_subscription_last_checked t) (oti_chatgpt_account_user_id t)
    (oti_chatgpt_compute_residency t) (oti_workspace_name t) (oti_organizations t) (oti_groups t)
    source_type.

Definition one_time_access_token (token_expires_at : option DateTime)
    (chatgpt_plan_type source_type : option string) : SessionProfileRecord :=
  mkSessionProfileRecord OneTimeAccessToken token_expires_at None None None None chatgpt_plan_type
    None None None None None None None None None source_type.

Definition merge_oauth_token_info (self : SessionProfileRecord) (t : OAuthTokenInfo)
    (credential_kind : SessionCredentialKind) (chatgpt_plan_type source_type : option string) :
    SessionProfileRecord :=
  mkSessionProfileRecord credential_kind (Some (oti_expires_at t))
    (or_else (oti_email t) (spr_email self))
    (or_else (oti_oauth_subject t) (spr_oauth_subject self))
    (or_else (oti_oauth_identity_provider t) (spr_oauth_identity_provider self))
    (or_else (oti_email_verified t) (spr_email_verified self))
    (or_else (or_else chatgpt_plan_type (oti_chatgpt_plan_type t)) (spr_chatgpt_plan_type self))
    (or_else (oti_chatgpt_user_id t) (spr_chatgpt_user_id self))
    (or_else (oti_chatgpt_subscription_active_start t) (spr_chatgpt_subscription_active_start self))
    (or_else (oti_chatgpt_subscription_active_until t) (spr_chatgpt_subscription_active_until self))
    (or_else (oti_chatgpt_subscription_last_checked t) (spr_chatgpt_subscription_last_checked self))
    (or_else (oti_chatgpt_account_user_id t) (spr_chatgpt_account_user_id self))
    (or_else (oti_chatgpt_compute_residency t) (spr_chatgpt_compute_residency self))
    (or_else (oti_workspace_name t) (spr_workspace_name self))
    (or_else (oti_organizations t) (spr_organizations self))
    (or_else (oti_groups t) (spr_groups self))
    (or_else source_type (spr_source_type self)).
