(* ===== verification/OAuthClient.v ===== *)
(** * The OAuth client: [services/control-plane/src/oauth.rs]

    The trait [OAuthTokenClient] the store calls, its errors, and the client of the
    OpenAI endpoints: which requests it sends, how it reads replies and tokens. The
    HTTP library with the outbound proxy runtime, the decoders of [serde], the URL-safe
    base64 engines, URLs and the calendar of [chrono] are parameters. *)
From S2P Require Import Prelude RustStr CoreModel Json Request ControlModel StoreDefs.
From Stdlib Require Import Ascii.

#[local] Open Scope string_scope.
#[local] Open Scope list_scope.
#[local] Open Scope Z_scope.

(** ** Errors *)

Inductive OAuthRefreshErrorCode :=
  | InvalidRefreshTokenCode | RefreshTokenReused | RefreshTokenRevoked | MissingClientId
  | UnauthorizedClient | RateLimitedCode | UpstreamUnavailable | UnknownCode.

Definition error_code_str (self : OAuthRefreshErrorCode) : string :=
  match self with
  | InvalidRefreshTokenCode => "invalid_refresh_token"
  | RefreshTokenReused => "refresh_token_reused"
  | RefreshTokenRevoked => "refresh_token_revoked"
  | MissingClientId => "missing_client_id"
  | UnauthorizedClient => "unauthorized_client"
  | RateLimitedCode => "rate_limited"
  | UpstreamUnavailable => "upstream_unavailable"
  | UnknownCode => "unknown_oauth_error"
  end.

Inductive OAuthTokenClientError :=
  | NotConfigured
  | InvalidRefreshToken (code : OAuthRefreshErrorCode) (message : string)
  | UpstreamError (code : OAuthRefreshErrorCode) (message : string)
  | ParseError.

Definition client_error_code (self : OAuthTokenClientError) : OAuthRefreshErrorCode :=
  match self with
  | NotConfigured | ParseError => UnknownCode
  | InvalidRefreshToken code _ | UpstreamError code _ => code
  end.

(** The messages of [#[error(..)]]. *)
Definition client_error_display (self : OAuthTokenClientError) : string :=
  match self with
  | NotConfigured => "oauth token endpoint is not configured"
  | InvalidRefreshToken code message =>
      "invalid refresh token (" +:+ error_code_str code +:+ "): " +:+ message
  | UpstreamError code message =>
      "oauth token endpoint error (" +:+ error_code_str code +:+ "): " +:+ message
  | ParseError => "oauth token response parse error"
  end.

Record OAuthUsageSnapshot := mkOAuthUsageSnapshot {
  ous_rate_limits : list OAuthRateLimitSnapshot;
  ous_chatgpt_plan_type : option string;
}.
Definition OAuthUsageSnapshot_default : OAuthUsageSnapshot := mkOAuthUsageSnapshot [] None.

(** ** The trait

    A call is a tick of the run it is made in: the reply to the same question may be
    another one later. *)
Class OAuthTokenClient := {
  refresh_token : nat → string → option string → result OAuthTokenInfo OAuthTokenClientError;
  fetch_workspace_name : nat → string → option string → option string →
    result (option string) OAuthTokenClientError;
  fetch_rate_limits : nat → string → option string → option string →
    result (list OAuthRateLimitSnapshot) OAuthTokenClientError;
  fetch_usage : nat → string → option string → option string →
    result OAuthUsageSnapshot OAuthTokenClientError;
}.

(** Await a reply. *)
Definition call {S A} (f : nat → A) : ST (Timed S) A :=
  λ w, (f (ticks w), mkTimed (st w) (Datatypes.S (ticks w))).

Lemma wp_call {S A} (f : nat → A) (Q : A → Timed S → Prop) w :
  Q (f (ticks w)) (mkTimed (st w) (Datatypes.S (ticks w))) → wp (call f) Q w.
Proof. done. Qed.

(** The default method of the trait. *)
Definition default_fetch_usage
    (fetch_rate_limits : result (list OAuthRateLimitSnapshot) OAuthTokenClientError) :
    result OAuthUsageSnapshot OAuthTokenClientError :=
  match fetch_rate_limits with
  | Ok rate_limits => Ok (mkOAuthUsageSnapshot rate_limits None)
  | Err e => Err e
  end.

(** ** Constants and settings *)

Definition DEFAULT_OPENAI_CHATGPT_BASE_URL : string := "https://chatgpt.com/backend-api/codex".
Definition DEFAULT_PERSONAL_OPENAI_OAUTH_CLIENT_ID : string := "app_EMoamEEZ73f0CkXaXp7hrann".
Definition DEFAULT_OAUTH_EXPIRES_IN_SEC : Z := 3600.
Definition CODEX_DEFAULT_USER_AGENT : string := "codex-cli".
Definition CHATGPT_ACCOUNT_ID_HEADER : string := "ChatGPT-Account-Id".
Definition CHATGPT_ACCOUNTS_CHECK_PATH : string :=
  "/backend-api/accounts/check/v4-2023-04-27?timezone_offset_min=0".
Definition OPENAI_AUTH_NESTED_CLAIM_KEY : string := "https://api.openai.com/auth".
Definition OPENAI_PROFILE_NESTED_CLAIM_KEY : string := "https://api.openai.com/profile".

Definition normalize_optional_string (value : option string) : option string :=
  match value with
  | Some raw => let t := trim raw in if is_empty t then None else Some t
  | None => None
  end.

Inductive ProductEdition := Personal | Team | Business.

Definition resolve_openai_oauth_client_id (configured : option string) (edition : ProductEdition) :
    option string :=
  or_else (normalize_optional_string configured)
    match edition with
    | Personal => Some DEFAULT_PERSONAL_OPENAI_OAUTH_CLIENT_ID
    | Team | Business => None
    end.

Record OpenAiOAuthClient := mkOpenAiOAuthClient {
  token_url : string;
  authorize_url : string;
  client_id : option string;
}.

(** [from_parts]: the HTTP client and its timeout are the transport's. *)
Definition from_parts (token_url authorize_url : string) (client_id : option string) : OpenAiOAuthClient :=
  mkOpenAiOAuthClient token_url authorize_url (normalize_optional_string client_id).

(** ** Claims of a token *)

(** The first key whose value passes. *)
Fixpoint first_claim {A} (read : Value → option A) (claims : Value) (keys : list string) : option A :=
  match keys with
  | [] => None
  | key :: keys =>
      match get key claims ≫= read with
      | Some a => Some a
      | None => first_claim read claims keys
      end
  end.

Definition claim_string : Value → list string → option string :=
  first_claim (λ value, normalize_optional_string (as_str value)).
Definition claim_bool : Value → list string → option bool := first_claim as_bool.
Definition claim_array : Value → list string → option (list Value) :=
  first_claim (λ value, match value with VArray values => Some values | _ => None end).

(** [DateTime::from_timestamp] with no nanoseconds and [DateTime::parse_from_rfc3339]. *)
Class Chrono := {
  from_timestamp : Z → option DateTime;
  parse_from_rfc3339 : string → option DateTime;
}.

Definition claim_datetime `{Chrono} : Value → list string → option DateTime :=
  first_claim (λ value, normalize_optional_string (as_str value) ≫= parse_from_rfc3339).

(** [URL_SAFE_NO_PAD] and [URL_SAFE] of [base64::engine::general_purpose]. *)
Class UrlSafeBase64 := {
  url_safe_no_pad_decode : string → option string;
  url_safe_decode : string → option string;
}.

Record OAuthIdTokenClaims := mkOAuthIdTokenClaims {
  idc_email : option string;
  idc_oauth_subject : option string;
  idc_oauth_identity_provider : option string;
  idc_email_verified : option bool;
  idc_chatgpt_account_id : option string;
  idc_chatgpt_user_id : option string;
  idc_chatgpt_plan_type : option string;
  idc_chatgpt_subscription_active_start : option DateTime;
  idc_chatgpt_subscription_active_until : option DateTime;
  idc_chatgpt_subscription_last_checked : option DateTime;
  idc_organizations : option (list Value);
  idc_groups : option (list Value);
  idc_raw_claims : Value;
}.

Record OAuthAccessTokenClaims := mkOAuthAccessTokenClaims {
  atc_oauth_subject : option string;
  atc_email : option string;
  atc_email_verified : option bool;
  atc_chatgpt_account_id : option string;
  atc_chatgpt_account_user_id : option string;
  atc_chatgpt_compute_residency : option string;
  atc_chatgpt_plan_type : option string;
  atc_chatgpt_user_id : option string;
}.

Definition ACCOUNT_ID_KEYS := ["chatgpt_account_id"; "chatgptAccountId"; "account_id"; "accountId"].
Definition USER_ID_KEYS := ["chatgpt_user_id"; "chatgptUserId"; "user_id"; "userId"].
Definition PLAN_TYPE_KEYS := ["chatgpt_plan_type"; "chatgptPlanType"; "plan_type"; "planType"; "plan"].

(** [claims.get(key).filter(|value| value.is_object())]. *)
Definition nested_object (key : string) (claims : Value) : option Value :=
  match get key claims with
  | Some (VObject m) => Some (VObject m)
  | _ => None
  end.

Section claims.
Context `{UrlSafeBase64, SerdeJson, Chrono}.

(** The second segment of a token, decoded. *)
Definition token_payload (decode : string → option string) (token : string) : option Value :=
  match split "." token with
  | _ :: payload :: _ => decode payload ≫= from_slice
  | _ => None
  end.

Definition parse_id_token_claims (id_token : string) : option OAuthIdTokenClaims :=
  claims ← token_payload url_safe_no_pad_decode id_token;
  let nested := nested_object OPENAI_AUTH_NESTED_CLAIM_KEY claims in
  let nested_first keys := or_else (nested ≫= λ n, claim_string n keys) (claim_string claims keys) in
  Some (mkOAuthIdTokenClaims
    (claim_string claims ["email"]) (claim_string claims ["sub"])
    (claim_string claims ["auth_provider"]) (claim_bool claims ["email_verified"])
    (nested_first ACCOUNT_ID_KEYS) (nested_first USER_ID_KEYS) (nested_first PLAN_TYPE_KEYS)
    (nested ≫= λ n, claim_datetime n
       ["chatgpt_subscription_active_start"; "chatgptSubscriptionActiveStart"])
    (nested ≫= λ n, claim_datetime n
       ["chatgpt_subscription_active_until"; "chatgptSubscriptionActiveUntil"])
    (nested ≫= λ n, claim_datetime n
       ["chatgpt_subscription_last_checked"; "chatgptSubscriptionLastChecked"])
    (nested ≫= λ n, claim_array n ["organizations"])
    (nested ≫= λ n, claim_array n ["groups"])
    claims).

Definition parse_access_token_claims (access_token : string) : option OAuthAccessTokenClaims :=
  claims ← token_payload url_safe_no_pad_decode access_token;
  let auth := nested_object OPENAI_AUTH_NESTED_CLAIM_KEY claims in
  let profile := nested_object OPENAI_PROFILE_NESTED_CLAIM_KEY claims in
  let nested keys := auth ≫= λ n, claim_string n keys in
  Some (mkOAuthAccessTokenClaims
    (claim_string claims ["sub"])
    (or_else (profile ≫= λ n, claim_string n ["email"]) (claim_string claims ["email"]))
    (or_else (profile ≫= λ n, claim_bool n ["email_verified"]) (claim_bool claims ["email_verified"]))
    (nested ACCOUNT_ID_KEYS)
    (nested ["chatgpt_account_user_id"; "chatgptAccountUserId"])
    (nested ["chatgpt_compute_residency"; "chatgptComputeResidency"])
    (nested PLAN_TYPE_KEYS) (nested USER_ID_KEYS)).

(** [parse_jwt_exp_from_access_token] of [store/oauth_ops.rs]: the time a token
    expires, if it says so. The engine without padding is tried first. *)
Definition parse_jwt_exp_from_access_token (access_token : string) : option DateTime :=
  let decode payload := or_else (url_safe_no_pad_decode payload) (url_safe_decode payload) in
  payload_json ← token_payload decode access_token;
  exp ← get "exp" payload_json ≫= as_i64;
  if 0 <? exp then from_timestamp exp else None.
End claims.

(** ** The workspace of an account *)

Definition WORKSPACE_NAME_KEYS :=
  ["workspace_name"; "workspaceName"; "display_name"; "displayName"; "name"; "title"; "label"].

Definition object_matches_workspace_id (value : Value) (target_account_id : string) : bool :=
  bool_decide
    (claim_string value ["workspace_id"; "workspaceId"; "account_id"; "accountId"; "id"]
     = Some target_account_id).

Definition extract_workspace_name_label (value : Value) : option string :=
  claim_string value WORKSPACE_NAME_KEYS.

(** What an object says of the target itself, before its children are searched. *)
Definition own_workspace_name (value : Value) (target_account_id : string) : option string :=
  or_else
    (if object_matches_workspace_id value target_account_id
     then or_else (claim_string value WORKSPACE_NAME_KEYS)
            (first_claim extract_workspace_name_label value
               ["workspace"; "account"; "current_workspace"; "current_account"])
     else None)
    (get target_account_id value ≫= extract_workspace_name_label).

Fixpoint find_workspace_name_in_value (value : Value) (target_account_id : string) : option string :=
  match value with
  | VObject map =>
      or_else (own_workspace_name value target_account_id)
        ((fix children map :=
            match map with
            | [] => None
            | (_, child) :: map =>
                or_else (find_workspace_name_in_value child target_account_id) (children map)
            end) map)
  | VArray items =>
      (fix children items :=
         match items with
         | [] => None
         | item :: items =>
             or_else (find_workspace_name_in_value item target_account_id) (children items)
         end) items
  | _ => None
  end.

Definition parse_workspace_name_from_accounts_check (payload : Value) (target_account_id : string) :
    option string :=
  let trimmed_target := trim target_account_id in
  if is_empty trimmed_target then None else find_workspace_name_in_value payload trimmed_target.

(** ** Replies *)

Record OAuthTokenEndpointResponse := mkOAuthTokenEndpointResponse {
  ter_access_token : string;
  ter_refresh_token : option string;
  ter_expires_in : option Z;
  ter_token_type : option string;
  ter_scope : option string;
  ter_chatgpt_account_id : option string;
  ter_id_token : option string;
}.

Record OAuthTokenEndpointError := mkOAuthTokenEndpointError {
  tee_error : option string;
  tee_error_description : option string;
  tee_message : option string;
}.

Record RateLimitWindowSnapshot := mkRateLimitWindowSnapshot {
  rws_used_percent : option F64;
  rws_limit_window_seconds : option Z;
  rws_reset_at : option Z;
}.
Record RateLimitStatusDetails := mkRateLimitStatusDetails {
  rsd_primary_window : option RateLimitWindowSnapshot;
  rsd_secondary_window : option RateLimitWindowSnapshot;
}.
Record AdditionalRateLimitDetails := mkAdditionalRateLimitDetails {
  ard_limit_name : option string;
  ard_metered_feature : option string;
  ard_rate_limit : option RateLimitStatusDetails;
}.
Record RateLimitStatusPayload := mkRateLimitStatusPayload {
  rsp_plan_type : option string;
  rsp_rate_limit : option RateLimitStatusDetails;
  rsp_additional_rate_limits : option (list AdditionalRateLimitDetails);
}.

(** [serde_json] at the types of the replies. *)
Class OAuthDecoders := {
  decode_token_response : string → option OAuthTokenEndpointResponse;
  decode_token_error : string → option OAuthTokenEndpointError;
  decode_rate_limit_status : string → option RateLimitStatusPayload;
}.

Definition newline : string := String "010"%char EmptyString.

(** The text that is searched for a cause: the fields of the error, each of the first
    two with a line break, or the body when there are none. *)
Definition error_search_space (parsed_error : option OAuthTokenEndpointError) (raw_body : string) : string :=
  let search_space :=
    match parsed_error with
    | None => ""
    | Some e =>
        from_option (λ s, s +:+ newline) "" (tee_error e)
        +:+ from_option (λ s, s +:+ newline) "" (tee_error_description e)
        +:+ default "" (tee_message e)
    end in
  if is_empty search_space then raw_body else search_space.

Definition is_server_error (status : Z) : bool := (500 <=? status) && (status <? 600).
Definition is_success (status : Z) : bool := (200 <=? status) && (status <? 300).

Definition classify_oauth_error_code (status : Z) (parsed_error : option OAuthTokenEndpointError)
    (raw_body : string) : OAuthRefreshErrorCode :=
  if status =? 429 then RateLimitedCode
  else if is_server_error status then UpstreamUnavailable
  else
    let lowered := to_ascii_lowercase (error_search_space parsed_error raw_body) in
    if contains_one_of ["refresh_token_reused"; "token reused"; "token has already been used"] lowered
    then RefreshTokenReused
    else if contains_one_of ["refresh_token_revoked"; "token revoked"] lowered
            || contains lowered "invalid_grant" && contains lowered "revoked"
    then RefreshTokenRevoked
    else if contains_one_of ["missing_client_id"; "client_id is required"; "client id is required"] lowered
    then MissingClientId
    else if contains lowered "unauthorized_client" then UnauthorizedClient
    else if contains_one_of ["rate limit"; "too many requests"] lowered then RateLimitedCode
    else if (status =? 400) || (status =? 401) then InvalidRefreshTokenCode
    else UnknownCode.

Definition truncate_message (message : string) (max_len : nat) : string :=
  if bool_decide (String.length message ≤ max_len)%nat then message else (take_chars max_len message).1.

(** The message of an error reply. *)
Definition reply_message (parsed_error : option OAuthTokenEndpointError) (raw_body : string) : string :=
  default (truncate_message raw_body 256)
    (or_else (parsed_error ≫= λ e, or_else (tee_error_description e) (tee_message e))
       (parsed_error ≫= tee_error)).

Section rate_limits.
Context `{Chrono}.

(** The sum [seconds + 59] is written without the 64-bit overflow it has for the last
    59 values of the type. *)
Definition to_rate_limit_window (window : RateLimitWindowSnapshot) : OAuthRateLimitWindow :=
  mkOAuthRateLimitWindow
    (default 0 (rws_used_percent window))
    (match rws_limit_window_seconds window with
     | Some seconds => if 0 <? seconds then Some (Z.quot (seconds + 59) 60) else None
     | None => None
     end)
    (rws_reset_at window ≫= from_timestamp).

Definition to_rate_limit_snapshot (limit_id limit_name : option string)
    (details : option RateLimitStatusDetails) : option OAuthRateLimitSnapshot :=
  details ← details;
  match to_rate_limit_window <$> rsd_primary_window details,
        to_rate_limit_window <$> rsd_secondary_window details with
  | None, None => None
  | primary, secondary => Some (mkOAuthRateLimitSnapshot limit_id limit_name primary secondary)
  end.

Definition usage_snapshot_from_payload (payload : RateLimitStatusPayload) : OAuthUsageSnapshot :=
  let snapshots :=
    option_list (rsp_rate_limit payload ≫= λ r, to_rate_limit_snapshot (Some "codex") None (Some r))
    ++ omap (λ limit, to_rate_limit_snapshot (ard_metered_feature limit) (ard_limit_name limit)
                        (ard_rate_limit limit))
         (default [] (rsp_additional_rate_limits payload)) in
  mkOAuthUsageSnapshot snapshots (normalize_optional_string (rsp_plan_type payload)).
End rate_limits.

(** ** Endpoints *)

(** [str::split_once] on a text. *)
Fixpoint split_once_str (p s : string) : option (string * string) :=
  match strip_prefix p s with
  | Some rest => Some (EmptyString, rest)
  | None =>
      match s with
      | EmptyString => None
      | String a r => (λ '(before, after), (String a before, after)) <$> split_once_str p r
      end
  end.

Definition normalize_chatgpt_base_url (base_url : option string) : string :=
  trim_end_slashes (default DEFAULT_OPENAI_CHATGPT_BASE_URL (normalize_optional_string base_url)).

Definition resolve_usage_endpoint (base_url : option string) : string :=
  let normalized := normalize_chatgpt_base_url base_url in
  match split_once_str "/backend-api" normalized with
  | Some (prefix, _) => prefix +:+ "/backend-api/wham/usage"
  | None => normalized +:+ "/api/codex/usage"
  end.

Class UrlParts `{UrlLibrary} := {
  url_host : Url → option string;
  append_pairs : list (string * string) → Url → Url;
}.

Definition resolve_workspace_check_endpoint `{UrlParts} (base_url : option string) : option string :=
  let normalized := normalize_chatgpt_base_url base_url in
  match split_once_str "/backend-api" normalized with
  | Some (prefix, _) => Some (prefix +:+ CHATGPT_ACCOUNTS_CHECK_PATH)
  | None =>
      parsed ← url_parse normalized;
      host ← url_host parsed;
      let host := trim host in
      if negb (eq_ignore_ascii_case host "chatgpt.com" || ends_with host ".chatgpt.com") then None
      else Some (url_scheme parsed +:+ "://" +:+ host +:+ CHATGPT_ACCOUNTS_CHECK_PATH)
  end.

Definition build_authorize_url `{UrlParts} (self : OpenAiOAuthClient)
    (redirect_uri state code_challenge : string) (scope : option string) :
    result string OAuthTokenClientError :=
  if is_empty (trim (authorize_url self)) then Err NotConfigured else
  match normalize_optional_string (client_id self), url_parse (authorize_url self) with
  | Some client_id, Some url =>
      Ok (url_to_string (append_pairs
        ([("response_type", "code"); ("client_id", client_id); ("redirect_uri", trim redirect_uri);
          ("state", trim state); ("code_challenge", trim code_challenge);
          ("code_challenge_method", "S256"); ("prompt", "login");
          ("id_token_add_organizations", "true"); ("codex_cli_simplified_flow", "true")]
         ++ option_list (pair "scope" <$> normalize_optional_string scope)) url))
  | _, _ => Err NotConfigured
  end.

(** ** Requests

    [OutboundProxyRuntime] gives a client, the request is sent with it, and the runtime
    is told the outcome; the state [W] is the runtime's and the network's. *)
Record HttpRequest := mkHttpRequest {
  hr_post_form : option (list (string * string));  (* [POST] with a form, else [GET] *)
  hr_url : string;
  hr_bearer : option string;
  hr_headers : list (string * string);
}.
Record HttpResponse := mkHttpResponse {
  hres_status : Z;
  hres_body : string;
}.

Class OutboundHttp (W : Type) := {
  Selection : Type;
  select_http_client : ST W (result Selection string);
  http_send : Selection → HttpRequest → ST W (result HttpResponse string);
  mark_proxy_http_status : Selection → Z → ST W unit;
  mark_proxy_transport_failure : Selection → ST W unit;
  http_utc_now : ST W DateTime;
  (** [Display] of a [StatusCode]: the number with its reason phrase. *)
  status_display : Z → string;
}.

Definition result_ok {A E} (r : result A E) : option A := match r with Ok a => Some a | Err _ => None end.

Section client.
Context {W : Type} `{OutboundHttp W} `{OAuthDecoders, UrlSafeBase64, SerdeJson, Chrono} `{UrlParts}.
Context (self : OpenAiOAuthClient).

Abbreviation CM := (ST W).

(** Select a client, send, and report. *)
Definition exchange (request : HttpRequest) : CM (result HttpResponse OAuthTokenClientError) :=
  selected ← select_http_client;
  match selected with
  | Err message => mret (Err (UpstreamError UpstreamUnavailable message))
  | Ok selection =>
      reply ← http_send selection request;
      match reply with
      | Ok response =>
          _ ← mark_proxy_http_status selection (hres_status response);
          mret (Ok response)
      | Err message =>
          _ ← mark_proxy_transport_failure selection;
          mret (Err (UpstreamError UpstreamUnavailable message))
      end
  end.

(** The error of a reply whose status is no success. *)
Definition upstream_error (response : HttpResponse) : OAuthTokenClientError :=
  let parsed_error := decode_token_error (hres_body response) in
  UpstreamError (classify_oauth_error_code (hres_status response) parsed_error (hres_body response))
    ("status=" +:+ status_display (hres_status response)
     +:+ " message=" +:+ reply_message parsed_error (hres_body response)).

Definition refresh_error (response : HttpResponse) : OAuthTokenClientError :=
  let parsed_error := decode_token_error (hres_body response) in
  let error_code :=
    classify_oauth_error_code (hres_status response) parsed_error (hres_body response) in
  if ((hres_status response =? 400) || (hres_status response =? 401))
     && match error_code with MissingClientId | UnauthorizedClient => false | _ => true end
  then InvalidRefreshToken error_code (reply_message parsed_error (hres_body response))
  else upstream_error response.

Definition expires_in_or_default (expires_in : option Z) : Z :=
  match expires_in with
  | Some value => if 0 <? value then value else DEFAULT_OAUTH_EXPIRES_IN_SEC
  | None => DEFAULT_OAUTH_EXPIRES_IN_SEC
  end.

Definition usage_request (trimmed_access_token : string) (base_url chatgpt_account_id : option string) :
    HttpRequest :=
  mkHttpRequest None (resolve_usage_endpoint base_url) (Some trimmed_access_token)
    (("user-agent", CODEX_DEFAULT_USER_AGENT)
     :: option_list (pair CHATGPT_ACCOUNT_ID_HEADER <$> normalize_optional_string chatgpt_account_id)).

Definition client_fetch_usage (access_token : string) (base_url chatgpt_account_id : option string) :
    CM (result OAuthUsageSnapshot OAuthTokenClientError) :=
  let trimmed_access_token := trim access_token in
  if is_empty trimmed_access_token then mret (Ok OAuthUsageSnapshot_default) else
  response ←? exchange (usage_request trimmed_access_token base_url chatgpt_account_id);
  if negb (is_success (hres_status response)) then mret (Err (upstream_error response)) else
  mret match decode_rate_limit_status (hres_body response) with
       | Some payload => Ok (usage_snapshot_from_payload payload)
       | None => Err ParseError
       end.

Definition client_fetch_rate_limits (access_token : string) (base_url chatgpt_account_id : option string) :
    CM (result (list OAuthRateLimitSnapshot) OAuthTokenClientError) :=
  usage ←? client_fetch_usage access_token base_url chatgpt_account_id;
  mret (Ok (ous_rate_limits usage)).

Definition fetch_workspace_name_from_backend_api (access_token : string)
    (base_url chatgpt_account_id : option string) :
    CM (result (option string) OAuthTokenClientError) :=
  let trimmed_access_token := trim access_token in
  if is_empty trimmed_access_token then mret (Ok None) else
  match normalize_optional_string chatgpt_account_id, resolve_workspace_check_endpoint base_url with
  | Some account_id, Some endpoint =>
      response ←? exchange (mkHttpRequest None endpoint (Some trimmed_access_token)
                              [("user-agent", CODEX_DEFAULT_USER_AGENT);
                               (CHATGPT_ACCOUNT_ID_HEADER, account_id)]);
      if negb (is_success (hres_status response)) then mret (Err (upstream_error response)) else
      mret match from_slice (hres_body response) with
           | Some payload => Ok (parse_workspace_name_from_accounts_check payload account_id)
           | None => Err ParseError
           end
  | _, _ => mret (Ok None)
  end.

Definition is_team_plan (plan : option string) : bool :=
  from_option (λ plan, eq_ignore_ascii_case (trim plan) "team") false plan.

Definition refresh_form (refresh_token : string) : list (string * string) :=
  [("grant_type", "refresh_token"); ("refresh_token", refresh_token)]
  ++ option_list (pair "client_id" <$> client_id self).

(** The token information of a successful reply, but for the workspace and the time. *)
Definition token_info_of (given_refresh_token : string) (payload : OAuthTokenEndpointResponse)
    (id_claims : option OAuthIdTokenClaims) (access_claims : option OAuthAccessTokenClaims)
    (workspace_name : option string) (now : DateTime) : OAuthTokenInfo :=
  mkOAuthTokenInfo (ter_access_token payload)
    (default given_refresh_token (ter_refresh_token payload))
    (now + from_secs (expires_in_or_default (ter_expires_in payload)))
    (ter_token_type payload) (ter_scope payload)
    (or_else (id_claims ≫= idc_email) (access_claims ≫= atc_email))
    (or_else (id_claims ≫= idc_oauth_subject) (access_claims ≫= atc_oauth_subject))
    (id_claims ≫= idc_oauth_identity_provider)
    (or_else (id_claims ≫= idc_email_verified) (access_claims ≫= atc_email_verified))
    (or_else (or_else (ter_chatgpt_account_id payload) (id_claims ≫= idc_chatgpt_account_id))
       (access_claims ≫= atc_chatgpt_account_id))
    (or_else (id_claims ≫= idc_chatgpt_user_id) (access_claims ≫= atc_chatgpt_user_id))
    (or_else (id_claims ≫= idc_chatgpt_plan_type) (access_claims ≫= atc_chatgpt_plan_type))
    (id_claims ≫= idc_chatgpt_subscription_active_start)
    (id_claims ≫= idc_chatgpt_subscription_active_until)
    (id_claims ≫= idc_chatgpt_subscription_last_checked)
    (access_claims ≫= atc_chatgpt_account_user_id)
    (access_claims ≫= atc_chatgpt_compute_residency)
    workspace_name (id_claims ≫= idc_organizations) (id_claims ≫= idc_groups).

Definition client_refresh_token (refresh_token : string) (base_url : option string) :
    CM (result OAuthTokenInfo OAuthTokenClientError) :=
  if is_empty (trim (token_url self)) then mret (Err NotConfigured) else
  response ←? exchange (mkHttpRequest (Some (refresh_form refresh_token)) (token_url self) None []);
  if negb (is_success (hres_status response)) then mret (Err (refresh_error response)) else
  match decode_token_response (hres_body response) with
  | None => mret (Err ParseError)
  | Some payload =>
      let id_claims := ter_id_token payload ≫= parse_id_token_claims in
      let access_claims := parse_access_token_claims (ter_access_token payload) in
      let chatgpt_account_id :=
        or_else (or_else (ter_chatgpt_account_id payload) (id_claims ≫= idc_chatgpt_account_id))
          (access_claims ≫= atc_chatgpt_account_id) in
      let chatgpt_plan_type :=
        or_else (id_claims ≫= idc_chatgpt_plan_type) (access_claims ≫= atc_chatgpt_plan_type) in
      workspace_name ←
        (if is_team_plan chatgpt_plan_type
         then r ← fetch_workspace_name_from_backend_api (ter_access_token payload) base_url
                    chatgpt_account_id;
              mret (mjoin (result_ok r))
         else mret None);
      now ← http_utc_now;
      mret (Ok (token_info_of refresh_token payload id_claims access_claims workspace_name now))
  end.

Record OAuthCodeExchangeInfo := mkOAuthCodeExchangeInfo {
  cei_access_token : string;
  cei_refresh_token : option string;
  cei_expires_at : DateTime;
  cei_token_type : option string;
  cei_scope : option string;
  cei_chatgpt_account_id : option string;
  cei_id_token_claims : option OAuthIdTokenClaims;
  cei_id_token_raw : option string;
  cei_raw_payload : Value;
}.

(** [serde_json::to_value] of a reply: an object in the order of its keys. *)
Definition token_response_value (payload : OAuthTokenEndpointResponse) : Value :=
  let text o := from_option VString VNull o in
  VObject [("access_token", VString (ter_access_token payload));
           ("chatgpt_account_id", text (ter_chatgpt_account_id payload));
           ("expires_in", from_option VInt VNull (ter_expires_in payload));
           ("id_token", text (ter_id_token payload));
           ("refresh_token", text (ter_refresh_token payload));
           ("scope", text (ter_scope payload));
           ("token_type", text (ter_token_type payload))].

Definition exchange_authorization_code (code redirect_uri code_verifier : string) :
    CM (result OAuthCodeExchangeInfo OAuthTokenClientError) :=
  if is_empty (trim (token_url self)) then mret (Err NotConfigured) else
  match normalize_optional_string (client_id self) with
  | None => mret (Err NotConfigured)
  | Some client_id =>
      let form := [("grant_type", "authorization_code"); ("client_id", client_id);
                   ("code", trim code); ("redirect_uri", trim redirect_uri);
                   ("code_verifier", trim code_verifier)] in
      response ←? exchange (mkHttpRequest (Some form) (token_url self) None []);
      if negb (is_success (hres_status response)) then mret (Err (upstream_error response)) else
      match decode_token_response (hres_body response) with
      | None => mret (Err ParseError)
      | Some payload =>
          let claims := ter_id_token payload ≫= parse_id_token_claims in
          now ← http_utc_now;
          mret (Ok (mkOAuthCodeExchangeInfo (ter_access_token payload) (ter_refresh_token payload)
            (now + from_secs (expires_in_or_default (ter_expires_in payload)))
            (ter_token_type payload) (ter_scope payload)
            (or_else (ter_chatgpt_account_id payload) (claims ≫= idc_chatgpt_account_id))
            claims (ter_id_token payload) (token_response_value payload)))
      end
  end.
End client.

(** The client as the trait, in a world that is the number of the tick. *)
Definition openai_oauth_client `{OutboundHttp nat} `{OAuthDecoders, UrlSafeBase64, SerdeJson, Chrono}
    `{UrlParts} (self : OpenAiOAuthClient) : OAuthTokenClient := {|
  refresh_token n token base_url := (client_refresh_token self token base_url n).1;
  fetch_workspace_name n token base_url account :=
    (fetch_workspace_name_from_backend_api token base_url account n).1;
  fetch_rate_limits n token base_url account := (client_fetch_rate_limits token base_url account n).1;
  fetch_usage n token base_url account := (client_fetch_usage token base_url account n).1;
|}.
