(* ===== verification/Store.v ===== *)
(** * The in-memory store: [services/control-plane/src/store/in_memory_core.rs]

    [InMemoryStore] of [store/defs.rs] and its methods: tenants, API keys, proxy
    nodes, upstream accounts, routing policies, and the state of each account in
    the pool (active, in quarantine, to be purged) as live results change it. A
    method is a computation on the store; the OAuth client is not in the record,
    [system_event_runtime] holds the events given to the runtime, if there is one.
    Readings of the wall clock, fresh identifiers and nonces are ticks. *)
From S2P Require Import Prelude RustStr CoreModel BuiltinTemplates Json Request RoutingCache ControlModel StoreDefs Secrets Credentials.
From Stdlib Require Import Ascii.

#[local] Open Scope string_scope.
#[local] Open Scope list_scope.
#[local] Open Scope Z_scope.

Record InMemoryStore `{Aes256Gcm} := mkInMemoryStore {
  tenants : gmap Uuid Tenant;
  api_keys : gmap Uuid ApiKey;
  api_key_tokens : gmap string Uuid;
  accounts : gmap Uuid UpstreamAccount;
  account_auth_providers : gmap Uuid UpstreamAuthProvider;
  oauth_credentials : gmap Uuid OAuthCredentialRecord;
  oauth_refresh_token_vault : gmap Uuid OAuthRefreshTokenVaultRecord;
  session_profiles : gmap Uuid SessionProfileRecord;
  account_health_states : gmap Uuid UpstreamAccountHealthStateRecord;
  account_model_support : gmap Uuid AccountModelSupportRecord;
  oauth_rate_limit_caches : gmap Uuid OAuthRateLimitCacheRecord;
  oauth_rate_limit_refresh_jobs : gmap Uuid OAuthRateLimitRefreshJobSummary;
  outbound_proxy_pool_settings : OutboundProxyPoolSettings;
  outbound_proxy_nodes : gmap Uuid OutboundProxyNode;
  policies : gmap Uuid RoutingPolicy;
  routing_profiles : gmap Uuid RoutingProfile;
  model_routing_policies : gmap Uuid ModelRoutingPolicy;
  model_routing_settings : ModelRoutingSettings;
  claude_code_routing_settings : ClaudeCodeRoutingSettings;
  upstream_error_learning_settings : AiErrorLearningSettings;
  upstream_error_templates : gmap Uuid UpstreamErrorTemplateRecord;
  upstream_error_template_index : gmap string Uuid;
  builtin_error_template_overrides : gmap (BuiltinErrorTemplateKind * string) BuiltinErrorTemplateOverrideRecord;
  routing_plan_versions : list RoutingPlanVersion;
  system_event_runtime : option (list SystemEventWrite);
  revision : Z;
  credential_cipher : option CredentialCipher;
}.
Arguments mkInMemoryStore {_}.
#[global] Instance eta_InMemoryStore `{Aes256Gcm} : Eta InMemoryStore := λ r,
  mkInMemoryStore (tenants r) (api_keys r) (api_key_tokens r) (accounts r) (account_auth_providers r)
    (oauth_credentials r) (oauth_refresh_token_vault r) (session_profiles r)
    (account_health_states r) (account_model_support r) (oauth_rate_limit_caches r)
    (oauth_rate_limit_refresh_jobs r) (outbound_proxy_pool_settings r)
    (outbound_proxy_nodes r) (policies r) (routing_profiles r) (model_routing_policies r)
    (model_routing_settings r) (claude_code_routing_settings r)
    (upstream_error_learning_settings r) (upstream_error_templates r)
    (upstream_error_template_index r) (builtin_error_template_overrides r)
    (routing_plan_versions r) (system_event_runtime r) (revision r) (credential_cipher r).

Section store.
Context `{Base64, Aes256Gcm, NonceSource, Digests, UuidSource, WallClock, UuidText, Environment, IdOrder}.
Context `{UrlFragment} (hasher : ApiKeyTokenHasher).

Abbreviation SM := (ST (Timed InMemoryStore)).

(** [hash_api_key_token]: the process has one hasher. *)
Definition hash_api_key_token (token : string) : string := hash_active hasher token.

(** [ModelRoutingSettings] of a new store and [new_with_oauth]. The three times
    are those of the settings' defaults. *)
Definition new_with_oauth (credential_cipher : option CredentialCipher) (t1 t2 t3 : DateTime) :
    InMemoryStore :=
  mkInMemoryStore ∅ ∅ ∅ ∅ ∅ ∅ ∅ ∅ ∅ ∅ ∅ ∅ (OutboundProxyPoolSettings_default t1) ∅ ∅ ∅ ∅
    (mkModelRoutingSettings true true [] Hybrid false t2) (ClaudeCodeRoutingSettings_default t3)
    AiErrorLearningSettings_default ∅ ∅ ∅ [] None 1 credential_cipher.

(** [self.revision.fetch_add(1, Ordering::Relaxed)]. *)
Definition bump_revision : SM unit :=
  modify (λ s, s <| revision ::= λ r, u64_wrap (r + 1) |>).

(** ** Built-in error templates *)

Definition override_template (overrides : gmap (BuiltinErrorTemplateKind * string) BuiltinErrorTemplateOverrideRecord)
    (template : BuiltinErrorTemplateRecord) : BuiltinErrorTemplateRecord :=
  match overrides !! template_key template with
  | Some record =>
      template
        <| betr_templates :=
             merge_localized_error_templates (betr_default_templates template) (beto_templates record) |>
        <| betr_is_overridden := true |>
        <| betr_updated_at := Some (beto_updated_at record) |>
  | None => template
  end.

Definition list_builtin_error_templates_inner : SM (list BuiltinErrorTemplateRecord) :=
  overrides ← gets builtin_error_template_overrides;
  mret (sort_templates (override_template overrides <$> default_builtin_error_templates)).

(** ** Tenants and API keys *)

Definition create_tenant_inner (req : CreateTenantRequest) : SM Tenant :=
  i ← new_v4;
  now ← utc_now;
  let tenant := mkTenant i (ctr_name req) now in
  _ ← modify (λ s, s <| tenants ::= insert i tenant |>);
  mret tenant.

Definition list_tenants_inner : SM (list Tenant) :=
  m ← gets tenants; mret (id_values m).

Definition create_api_key_inner (req : CreateApiKeyRequest) : SM CreateApiKeyResponse :=
  u ← new_v4;
  let plaintext := "cp_" +:+ uuid_simple u in
  let key_hash := hash_api_key_token plaintext in
  i ← new_v4;
  now ← utc_now;
  let record := mkApiKey i (ckr_tenant_id req) (ckr_name req) (take_chars 12 plaintext).1 key_hash true now in
  _ ← modify (λ s, s <| api_keys ::= insert i record |>);
  _ ← modify (λ s, s <| api_key_tokens ::= insert (hash_api_key_token plaintext) i |>);
  mret (mkCreateApiKeyResponse record plaintext).

Definition list_api_keys_inner : SM (list ApiKey) :=
  m ← gets api_keys; mret (id_values m).

Definition set_api_key_enabled_inner (api_key_id : Uuid) (enabled : bool) : SM (result ApiKey Error) :=
  keys ← gets api_keys;
  match keys !! api_key_id with
  | None => mret (Err "api key not found")
  | Some key =>
      let key := key <| ak_enabled := enabled |> in
      _ ← modify (λ s, s <| api_keys ::= insert api_key_id key |>);
      mret (Ok key)
  end.

Definition validate_api_key_inner (token : string) : SM (option ValidatedPrincipal) :=
  let token_hash := hash_api_key_token token in
  tokens ← gets api_key_tokens;
  match tokens !! token_hash with
  | None => mret None
  | Some api_key_id =>
      keys ← gets api_keys;
      mret match keys !! api_key_id with
           | None => None
           | Some key =>
               Some (mkValidatedPrincipal (ak_tenant_id key) (ak_id key) 0%N "default" false
                       (ak_enabled key) [] [] (Some "active") None None)
           end
  end.

(** ** Outbound proxies *)

Definition node_compare (l r : OutboundProxyNode) : comparison :=
  then_with (opn_created_at l ?= opn_created_at r) (opn_id l ?= opn_id r)%N.

Definition list_outbound_proxy_nodes_inner : SM (list OutboundProxyNode) :=
  m ← gets outbound_proxy_nodes; mret (sort_by node_compare (id_values m)).

Definition create_outbound_proxy_node_inner (req : CreateOutboundProxyNodeRequest) : SM OutboundProxyNode :=
  now ← utc_now;
  i ← new_v4;
  let node := mkOutboundProxyNode i (cpn_label req) (cpn_proxy_url req) (default true (cpn_enabled req))
                (default 1 (cpn_weight req)) None None None None now now in
  _ ← modify (λ s, s <| outbound_proxy_nodes ::= insert i node |>);
  _ ← bump_revision;
  mret node.

Definition update_outbound_proxy_node_inner (node_id : Uuid) (req : UpdateOutboundProxyNodeRequest) :
    SM (result OutboundProxyNode Error) :=
  nodes ← gets outbound_proxy_nodes;
  match nodes !! node_id with
  | None => mret (Err "outbound proxy node not found")
  | Some node =>
      now ← utc_now;
      let node := node <| opn_label ::= λ x, default x (upn_label req) |>
                       <| opn_proxy_url ::= λ x, default x (upn_proxy_url req) |>
                       <| opn_enabled ::= λ x, default x (upn_enabled req) |>
                       <| opn_weight ::= λ x, default x (upn_weight req) |>
                       <| opn_updated_at := now |> in
      _ ← modify (λ s, s <| outbound_proxy_nodes ::= insert node_id node |>);
      _ ← bump_revision;
      mret (Ok node)
  end.

Definition delete_outbound_proxy_node_inner (node_id : Uuid) : SM (result unit Error) :=
  nodes ← gets outbound_proxy_nodes;
  match nodes !! node_id with
  | None => mret (Err "outbound proxy node not found")
  | Some _ =>
      _ ← modify (λ s, s <| outbound_proxy_nodes ::= delete node_id |>);
      _ ← bump_revision;
      mret (Ok tt)
  end.

Definition record_outbound_proxy_test_result_inner (node_id : Uuid) (last_test_status : option string)
    (last_latency_ms : option Z) (last_error : option string) (last_tested_at : option DateTime) :
    SM (result OutboundProxyNode Error) :=
  nodes ← gets outbound_proxy_nodes;
  match nodes !! node_id with
  | None => mret (Err "outbound proxy node not found")
  | Some node =>
      now ← utc_now;
      let node := node <| opn_last_test_status := last_test_status |>
                       <| opn_last_latency_ms := last_latency_ms |>
                       <| opn_last_error := last_error |>
                       <| opn_last_tested_at := last_tested_at |>
                       <| opn_updated_at := now |> in
      _ ← modify (λ s, s <| outbound_proxy_nodes ::= insert node_id node |>);
      _ ← bump_revision;
      mret (Ok node)
  end.

(** ** System events *)

(** [emit_system_event_inner]: with no runtime the event is dropped. *)
Definition emit_system_event_inner (event : SystemEventWrite) : SM unit :=
  modify (λ s, s <| system_event_runtime ::= fmap (λ log, log ++ [event]) |>).

(** An event with the four fields every one has; the others are [None] until set. *)
Definition system_event (category : SystemEventCategory) (event_type : string)
    (severity : SystemEventSeverity) (source : string) : SystemEventWrite :=
  mkSystemEventWrite None None category event_type severity source None None None None None None
    None None None None None None None None None None None None None None None None None None None None.

Definition account_auth_provider (account_id : Uuid) : SM UpstreamAuthProvider :=
  m ← gets account_auth_providers; mret (default LegacyBearer (m !! account_id)).

Definition transition_reason_class (to_ : AccountPoolState) (reason_code : option string) :
    AccountPoolReasonClass :=
  account_pool_reason_class_from_code reason_code
    match to_ with Active => RcHealthy | PendingPurge => RcFatal | Quarantine => RcTransient end.

Definition reason_class_severity (c : AccountPoolReasonClass) : SystemEventSeverity :=
  match c with
  | RcHealthy => SevInfo
  | RcQuota | RcTransient => SevWarn
  | RcFatal | RcAdmin => SevError
  end.

Definition emit_account_pool_state_transition_inner (account_id : Uuid) (from to_ : AccountPoolState)
    (reason_code : option string) (next_action_at : option DateTime) (source : string)
    (message : option string) : SM unit :=
  m ← gets accounts;
  let account := m !! account_id in
  auth_provider ← match account with
                  | Some _ => p ← account_auth_provider account_id; mret (Some p)
                  | None => mret None
                  end;
  let reason_class := transition_reason_class to_ reason_code in
  now ← utc_now;
  emit_system_event_inner
    ((system_event CatAccountPool "account_pool_state_transition" (reason_class_severity reason_class) source)
       <| sew_ts := Some now |>
       <| sew_account_id := Some account_id |>
       <| sew_account_label := ua_label <$> account |>
       <| sew_auth_provider := auth_provider_name <$> auth_provider |>
       <| sew_operator_state_from := Some (account_pool_state_event_name from) |>
       <| sew_operator_state_to := Some (account_pool_state_event_name to_) |>
       <| sew_reason_class := Some (account_pool_reason_class_name reason_class) |>
       <| sew_reason_code := reason_code |>
       <| sew_next_action_at := next_action_at |>
       <| sew_message := message |>).

Definition emit_account_deleted_inner (account_id : Uuid) (account_label : string)
    (auth_provider : UpstreamAuthProvider) (reason_code : option string) (source : string) : SM unit :=
  let reason_class := account_pool_reason_class_from_code reason_code RcFatal in
  now ← utc_now;
  emit_system_event_inner
    ((system_event CatAccountPool "account_deleted" SevError source)
       <| sew_ts := Some now |>
       <| sew_account_id := Some account_id |>
       <| sew_account_label := Some account_label |>
       <| sew_auth_provider := Some (auth_provider_name auth_provider) |>
       <| sew_operator_state_from := Some "pending_delete" |>
       <| sew_reason_class := Some (account_pool_reason_class_name reason_class) |>
       <| sew_reason_code := reason_code |>
       <| sew_message := Some "account deleted from pool" |>).

(** ** The state of an account in the pool *)

(** [states.entry(account_id).or_default()], and a write through the entry. *)
Definition health_of (account_id : Uuid) (s : InMemoryStore) : UpstreamAccountHealthStateRecord :=
  default UpstreamAccountHealthStateRecord_default (account_health_states s !! account_id).
Definition health_entry (account_id : Uuid) : SM UpstreamAccountHealthStateRecord := gets (health_of account_id).
Definition put_health (account_id : Uuid) (state : UpstreamAccountHealthStateRecord) : SM unit :=
  modify (λ s, s <| account_health_states ::= insert account_id state |>).

Definition contains_account (account_id : Uuid) : SM bool :=
  m ← gets accounts; mret (bool_decide (is_Some (m !! account_id))).

Definition mark_account_seen_ok_inner (account_id : Uuid) (seen_ok_at : DateTime)
    (min_write_interval_sec : Z) : SM bool :=
  state ← health_entry account_id;
  let min_interval := from_secs (min_write_interval_sec `max` 0) in
  if from_option (λ previous, seen_ok_at - min_interval <=? previous) false (hs_seen_ok_at state)
  then _ ← put_health account_id state; mret false
  else
    _ ← put_health account_id
      (state <| hs_seen_ok_at ::= λ o, Some (from_option (λ previous, previous `max` seen_ok_at) seen_ok_at o) |>
             <| hs_token_invalidated_strike_count := 0 |>
             <| hs_token_invalidated_first_at := None |>);
    mret true.

Definition reset_token_invalidated_strikes_inner (account_id : Uuid) : SM unit :=
  state ← health_entry account_id;
  put_health account_id
    (state <| hs_token_invalidated_strike_count := 0 |> <| hs_token_invalidated_first_at := None |>).

Definition record_token_invalidated_strike_inner (account_id : Uuid) (reported_at : DateTime) :
    SM (result bool Error) :=
  known ← contains_account account_id;
  if negb known then mret (Err "upstream account not found") else
  provider ← account_auth_provider account_id;
  let threshold := token_invalidated_purge_threshold_for_provider provider in
  let window := from_secs token_invalidated_purge_window_sec_from_env in
  state ← health_entry account_id;
  let within_window := from_option (λ first_at, reported_at <=? first_at + window) false
                         (hs_token_invalidated_first_at state) in
  let state :=
    if negb within_window
    then state <| hs_token_invalidated_first_at := Some reported_at |>
               <| hs_token_invalidated_strike_count := 1 |>
    else state <| hs_token_invalidated_strike_count ::= λ n, u32_saturating_add n 1 `max` 1 |> in
  _ ← put_health account_id state;
  mret (Ok (threshold <=? hs_token_invalidated_strike_count state)).

Definition runtime_pool_account_count_inner : SM nat := m ← gets accounts; mret (size m).

Definition set_account_pool_state_active_inner (account_id : Uuid) (at_ : DateTime) : SM unit :=
  state ← health_entry account_id;
  let previous_state := hs_pool_state state in
  let should_emit := negb (bool_decide (previous_state = Active))
                     || bool_decide (is_Some (hs_quarantine_reason state))
                     || bool_decide (is_Some (hs_pending_purge_reason state)) in
  _ ← put_health account_id
    (state <| hs_pool_state := Active |>
           <| hs_quarantine_until := None |>
           <| hs_quarantine_reason := None |>
           <| hs_pending_purge_at := None |>
           <| hs_pending_purge_reason := None |>
           <| hs_last_pool_transition_at := Some at_ |>);
  if should_emit
  then emit_account_pool_state_transition_inner account_id previous_state Active None None
         "control_plane.account_pool" (Some "account returned to routable state")
  else mret tt.

Definition set_account_pool_state_quarantine_inner (account_id : Uuid) (at_ : DateTime)
    (until : option DateTime) (reason : option string) : SM (result unit Error) :=
  known ← contains_account account_id;
  if negb known then mret (Err "upstream account not found") else
  let normalized_reason := trimmed_non_empty reason in
  state ← health_entry account_id;
  let previous_state := hs_pool_state state in
  let should_emit := negb (bool_decide (previous_state = Quarantine))
                     || negb (bool_decide (hs_quarantine_reason state = normalized_reason))
                     || negb (bool_decide (hs_quarantine_until state = until)) in
  _ ← put_health account_id
    (state <| hs_pool_state := Quarantine |>
           <| hs_quarantine_until := until |>
           <| hs_quarantine_reason := normalized_reason |>
           <| hs_pending_purge_at := None |>
           <| hs_pending_purge_reason := None |>
           <| hs_last_pool_transition_at := Some at_ |>);
  _ ← (if should_emit
       then emit_account_pool_state_transition_inner account_id previous_state Quarantine
              normalized_reason until "control_plane.account_pool" (Some "account entered cooling state")
       else mret tt);
  _ ← bump_revision;
  mret (Ok tt).

Definition mark_upstream_account_pending_purge_inner (account_id : Uuid) (reason : option string) :
    SM (result UpstreamAccount Error) :=
  now ← utc_now;
  let pending_purge_at := now + from_secs pending_purge_delay_sec_from_env in
  let normalized_reason := trimmed_non_empty reason in
  m ← gets accounts;
  match m !! account_id with
  | None => mret (Err "upstream account not found")
  | Some account =>
      let updated := account <| ua_enabled := false |> in
      _ ← modify (λ s, s <| accounts ::= insert account_id updated |>);
      state ← health_entry account_id;
      let previous_state := hs_pool_state state in
      let scheduled_at := match hs_pending_purge_at state with
                          | Some existing => if now <? existing then existing else pending_purge_at
                          | None => pending_purge_at
                          end in
      let should_emit := negb (bool_decide (previous_state = PendingPurge))
                         || negb (bool_decide (hs_pending_purge_reason state = normalized_reason))
                         || negb (bool_decide (hs_pending_purge_at state = Some scheduled_at)) in
      _ ← put_health account_id
        (state <| hs_pool_state := PendingPurge |>
               <| hs_quarantine_until := None |>
               <| hs_quarantine_reason := None |>
               <| hs_pending_purge_at := Some scheduled_at |>
               <| hs_pending_purge_reason ::= λ old, or_else normalized_reason old |>
               <| hs_last_pool_transition_at := Some now |>);
      _ ← (if should_emit
           then emit_account_pool_state_transition_inner account_id previous_state PendingPurge
                  normalized_reason (Some scheduled_at) "control_plane.account_pool"
                  (Some "account scheduled for deletion")
           else mret tt);
      _ ← bump_revision;
      mret (Ok updated)
  end.

(** The read of an account's state ends a quarantine whose time is over. *)
Definition account_pool_state_record_inner (account_id : Uuid) : SM UpstreamAccountHealthStateRecord :=
  now ← utc_now;
  state ← health_entry account_id;
  let state :=
    if bool_decide (hs_pool_state state = Quarantine)
       && from_option (λ quarantine_until, quarantine_until <=? now) false (hs_quarantine_until state)
    then state <| hs_pool_state := Active |>
               <| hs_quarantine_until := None |>
               <| hs_quarantine_reason := None |>
               <| hs_last_pool_transition_at := Some now |>
    else state in
  _ ← put_health account_id state;
  mret state.

(** ** Live results *)

(** [replace([' ', '-'], "_")]. *)
Fixpoint underscores (s : string) : string :=
  match s with
  | EmptyString => EmptyString
  | String a r => String (if Ascii.eqb a " " || Ascii.eqb a "-" then "_"%char else a) (underscores r)
  end.

Definition truncate_error_message (raw : string) : string :=
  if bool_decide (String.length raw ≤ 256)%nat then raw else (take_chars 256 raw).1.

Definition normalize_error_code (error_code : option string) : option string :=
  match error_code with
  | Some value =>
      let normalized := underscores (to_ascii_lowercase (trim value)) in
      if is_empty normalized then None else Some normalized
  | None => None
  end.

Definition normalize_error_preview (error_message_preview : option string) : option string :=
  truncate_error_message <$> trimmed_non_empty error_message_preview.

(** The record of the result itself. *)
Definition put_live_result (account_id : Uuid) (reported_at : DateTime) (status : OAuthLiveResultStatus)
    (source : OAuthLiveResultSource) (status_code : option Z)
    (normalized_error_code normalized_error_message : option string) : SM unit :=
  state ← health_entry account_id;
  let failed := bool_decide (status = LiveFailed) in
  put_health account_id
    (state <| hs_last_live_result_at := Some reported_at |>
           <| hs_last_live_result_status := Some status |>
           <| hs_last_live_result_source := Some source |>
           <| hs_last_live_result_status_code :=
                match status_code with
                | Some code => if (200 <=? code) && (code <? 600) then Some code else None
                | None => None
                end |>
           <| hs_last_live_error_code := keep_if failed normalized_error_code |>
           <| hs_last_live_error_message_preview := keep_if failed normalized_error_message |>).

(** The transition that the status and the normalised error code ask for. *)
Definition apply_live_result (account_id : Uuid) (reported_at : DateTime) (status : OAuthLiveResultStatus)
    (normalized_error_code : option string) : SM (result bool Error) :=
  match status, normalized_error_code with
  | LiveOk, _ =>
      _ ← mark_account_seen_ok_inner account_id reported_at 0;
      _ ← set_account_pool_state_active_inner account_id reported_at;
      mret (Ok true)
  | LiveFailed, Some code =>
      if String.eqb code "account_deactivated" then
        _ ← reset_token_invalidated_strikes_inner account_id;
        _ ←? mark_upstream_account_pending_purge_inner account_id (Some "account_deactivated");
        mret (Ok true)
      else if String.eqb code "rate_limited" || String.eqb code "quota_exhausted" then
        _ ← reset_token_invalidated_strikes_inner account_id;
        _ ←? set_account_pool_state_quarantine_inner account_id reported_at
               (Some (reported_at + from_secs (rate_limit_failure_backoff_seconds code ""))) (Some code);
        mret (Ok true)
      else if String.eqb code "auth_expired" then
        _ ← reset_token_invalidated_strikes_inner account_id;
        _ ←? set_account_pool_state_quarantine_inner account_id reported_at
               (Some (reported_at + minutes 30)) normalized_error_code;
        mret (Ok true)
      else if String.eqb code "token_invalidated" then
        escalate ←? record_token_invalidated_strike_inner account_id reported_at;
        if escalate : bool then
          _ ←? mark_upstream_account_pending_purge_inner account_id (Some "token_invalidated");
          mret (Ok true)
        else
          _ ←? set_account_pool_state_quarantine_inner account_id reported_at
                 (Some (reported_at + minutes 30)) normalized_error_code;
          mret (Ok true)
      else
        _ ← reset_token_invalidated_strikes_inner account_id;
        mret (Ok false)
  | LiveFailed, None =>
      _ ← reset_token_invalidated_strikes_inner account_id;
      mret (Ok false)
  end.

Definition record_upstream_account_live_result_inner (account_id : Uuid) (reported_at : DateTime)
    (status : OAuthLiveResultStatus) (source : OAuthLiveResultSource) (status_code : option Z)
    (error_code error_message_preview : option string) : SM (result bool Error) :=
  known ← contains_account account_id;
  if negb known then mret (Err "upstream account not found") else
  let normalized_error_code := normalize_error_code error_code in
  let normalized_error_message := normalize_error_preview error_message_preview in
  _ ← put_live_result account_id reported_at status source status_code normalized_error_code
        normalized_error_message;
  accepted ←? apply_live_result account_id reported_at status normalized_error_code;
  _ ← bump_revision;
  mret (Ok accepted).

(** ** Accounts *)

Definition create_upstream_account_inner (req : CreateUpstreamAccountRequest) : SM UpstreamAccount :=
  let base_url := normalize_upstream_account_base_url (cua_mode req) (cua_base_url req) in
  i ← new_v4;
  now ← utc_now;
  let account := mkUpstreamAccount i (cua_label req) (cua_mode req) base_url (cua_bearer_token req)
                   (cua_chatgpt_account_id req) (default true (cua_enabled req))
                   (default 100 (cua_priority req)) now in
  _ ← modify (λ s, s <| accounts ::= insert i account |>);
  _ ← modify (λ s, s <| account_auth_providers ::= insert i LegacyBearer |>);
  _ ← bump_revision;
  mret account.

(** The accounts whose only token is a one-time access token that is about to expire. *)
Definition one_time_expired (now : DateTime) (profile : SessionProfileRecord) : bool :=
  bool_decide (spr_credential_kind profile = OneTimeAccessToken)
  && from_option (λ expires_at, expires_at <=? now) false (spr_token_expires_at profile).

Definition expired_one_time_ids (now : DateTime) (profiles : gmap Uuid SessionProfileRecord) : list Uuid :=
  (List.filter (λ kv, one_time_expired now kv.2) (id_iter profiles)).*1.

Definition forget_account (s : InMemoryStore) (account_id : Uuid) : InMemoryStore :=
  s <| accounts ::= delete account_id |>
    <| account_auth_providers ::= delete account_id |>
    <| oauth_credentials ::= delete account_id |>
    <| session_profiles ::= delete account_id |>
    <| oauth_rate_limit_caches ::= delete account_id |>.

Definition purge_expired_one_time_accounts_inner : SM unit :=
  t ← utc_now;
  let now := t + from_secs OAUTH_MIN_VALID_SEC in
  profiles ← gets session_profiles;
  match expired_one_time_ids now profiles with
  | [] => mret tt
  | expired_ids =>
      _ ← modify (λ s, fold_left forget_account expired_ids s);
      bump_revision
  end.

Definition list_upstream_accounts_inner : SM (list UpstreamAccount) :=
  _ ← purge_expired_one_time_accounts_inner;
  m ← gets accounts;
  mret (id_values m).

Definition set_upstream_account_enabled_inner (account_id : Uuid) (enabled : bool) :
    SM (result UpstreamAccount Error) :=
  m ← gets accounts;
  match m !! account_id with
  | None => mret (Err "upstream account not found")
  | Some account =>
      let updated := account <| ua_enabled := enabled |> in
      _ ← modify (λ s, s <| accounts ::= insert account_id updated |>);
      _ ← (if enabled
           then now ← utc_now; set_account_pool_state_active_inner account_id now
           else mret tt);
      _ ← bump_revision;
      mret (Ok updated)
  end.

Definition delete_upstream_account_inner (account_id : Uuid) : SM (result unit Error) :=
  m ← gets accounts;
  match m !! account_id with
  | None => mret (Err "upstream account not found")
  | Some deleted =>
      _ ← modify (λ s, s <| accounts ::= delete account_id |>);
      auth_provider ← account_auth_provider account_id;
      states ← gets account_health_states;
      let pending_reason := states !! account_id ≫= hs_pending_purge_reason in
      _ ← modify (λ s, s <| account_auth_providers ::= delete account_id |>);
      _ ← modify (λ s, s <| oauth_credentials ::= delete account_id |>);
      _ ← modify (λ s, s <| session_profiles ::= delete account_id |>);
      _ ← modify (λ s, s <| account_health_states ::= delete account_id |>);
      _ ← modify (λ s, s <| oauth_rate_limit_caches ::= delete account_id |>);
      _ ← emit_account_deleted_inner account_id (ua_label deleted) auth_provider pending_reason
            "control_plane.account_pool";
      _ ← bump_revision;
      mret (Ok tt)
  end.

(** ** Purging *)

Definition due_item : Type := Uuid * option DateTime * option DateTime.

Definition purge_due (now : DateTime) (kv : Uuid * UpstreamAccountHealthStateRecord) : option due_item :=
  let '(account_id, state) := kv in
  if negb (bool_decide (hs_pool_state state = PendingPurge)) then None
  else if later_than now (hs_pending_purge_at state) then None
  else Some (account_id, hs_pending_purge_at state, hs_last_pool_transition_at state).

Definition due_compare (l r : due_item) : comparison :=
  then_with (option_compare Z.compare l.1.2 r.1.2)
    (then_with (option_compare Z.compare l.2 r.2) (l.1.1 ?= r.1.1)%N).

Definition pending_purge_due_account_ids_inner (now : DateTime) (limit : nat) : SM (list Uuid) :=
  states ← gets account_health_states;
  mret ((λ item : due_item, item.1.1) <$>
          take limit (sort_by due_compare (omap (purge_due now) (id_iter states)))).

Fixpoint purge_candidates (purged : Z) (l : list Uuid) : SM Z :=
  match l with
  | [] => mret purged
  | account_id :: l =>
      r ← delete_upstream_account_inner account_id;
      purge_candidates (if is_ok r then u64_saturating_add purged 1 else purged) l
  end.

Definition purge_pending_upstream_accounts_inner : SM (result Z Error) :=
  started_at ← utc_now;
  candidates ← pending_purge_due_account_ids_inner started_at (Z.to_nat pending_purge_batch_size_from_env);
  purged ← purge_candidates 0 candidates;
  _ ← (if 0 <? purged
       then emit_system_event_inner
              ((system_event CatAccountPool "pending_delete_batch_completed" SevInfo
                  "control_plane.pending_delete")
                 <| sew_ts := Some started_at |>
                 <| sew_reason_class := Some "cleanup" |>
                 <| sew_reason_code := Some "pending_delete_batch_completed" |>
                 <| sew_message := Some ("pending delete loop removed " +:+ decimal purged +:+ " accounts") |>
                 <| sew_payload_json := Some (VObject [("purged", VInt purged)]) |>)
       else mret tt);
  mret (Ok purged).

(** ** Routing policies *)

Definition upsert_routing_policy_inner (req : UpsertRoutingPolicyRequest) : SM RoutingPolicy :=
  now ← utc_now;
  let policy := mkRoutingPolicy (urp_tenant_id req) (urp_strategy req) (urp_max_retries req)
                  (urp_stream_max_retries req) now in
  _ ← modify (λ s, s <| policies ::= insert (urp_tenant_id req) policy |>);
  _ ← bump_revision;
  mret policy.

Definition upsert_retry_policy_inner (req : UpsertRetryPolicyRequest) : SM RoutingPolicy :=
  m ← gets policies;
  now ← utc_now;
  let policy := match m !! urt_tenant_id req with
                | Some policy => policy <| rp_max_retries := urt_max_retries req |>
                                        <| rp_updated_at := now |>
                | None => mkRoutingPolicy (urt_tenant_id req) RoundRobin (urt_max_retries req) 0 now
                end in
  _ ← modify (λ s, s <| policies ::= insert (urt_tenant_id req) policy |>);
  _ ← bump_revision;
  mret policy.

Definition upsert_stream_retry_policy_inner (req : UpsertStreamRetryPolicyRequest) : SM RoutingPolicy :=
  m ← gets policies;
  now ← utc_now;
  let policy := match m !! usr_tenant_id req with
                | Some policy => policy <| rp_stream_max_retries := usr_stream_max_retries req |>
                                        <| rp_updated_at := now |>
                | None => mkRoutingPolicy (usr_tenant_id req) RoundRobin 0 (usr_stream_max_retries req) now
                end in
  _ ← modify (λ s, s <| policies ::= insert (usr_tenant_id req) policy |>);
  _ ← bump_revision;
  mret policy.

(** ** Account status *)

Definition upsert_oauth_credential (account_id : Uuid) (credential : OAuthCredentialRecord) : SM unit :=
  modify (λ s, s <| oauth_credentials ::= insert account_id credential |>).
Definition upsert_session_profile (account_id : Uuid) (profile : SessionProfileRecord) : SM unit :=
  modify (λ s, s <| session_profiles ::= insert account_id profile |>).

Definition require_credential_cipher : SM (result CredentialCipher Error) :=
  c ← gets credential_cipher;
  mret match c with
       | Some c => Ok c
       | None => Err "oauth credential encryption key is missing: set CREDENTIALS_ENCRYPTION_KEY"
       end.

Definition contract_pool_state (s : AccountPoolState) : OAuthAccountPoolState :=
  match s with Active => PoolActive | Quarantine => PoolQuarantine | PendingPurge => PoolPendingPurge end.

Definition status_credential_kind (account : UpstreamAccount) (provider : UpstreamAuthProvider)
    (session_profile : option SessionProfileRecord) : option SessionCredentialKind :=
  match session_profile with
  | Some item => Some (spr_credential_kind item)
  | None =>
      match provider, ua_mode account with
      | OAuthRefreshToken, _ => Some RefreshRotatable
      | LegacyBearer, (ChatGptSession | CodexOauth) => Some OneTimeAccessToken
      | _, _ => None
      end
  end.

Definition oauth_status_from (account : UpstreamAccount) (provider : UpstreamAuthProvider)
    (credential : option OAuthCredentialRecord) (session_profile : option SessionProfileRecord) :
    SM OAuthAccountStatusResponse :=
  let token_expires_at := or_else (ocr_token_expires_at <$> credential)
                            (session_profile ≫= spr_token_expires_at) in
  let credential_kind := status_credential_kind account provider session_profile in
  t ← utc_now;
  let now_guard := t + from_secs OAUTH_MIN_VALID_SEC in
  caches ← gets oauth_rate_limit_caches;
  let rate_limit_cache := default OAuthRateLimitCacheRecord_default (caches !! ua_id account) in
  let last_refresh_status := from_option ocr_last_refresh_status RefreshNever credential in
  let fallback := from_option has_access_token_fallback false credential in
  let reused := from_option ocr_refresh_reused_detected false credential in
  let refresh_error_code := credential ≫= ocr_last_refresh_error_code in
  let effective_enabled :=
    oauth_effective_enabled (ua_enabled account) provider credential_kind token_expires_at fallback
      (credential ≫= ocr_fallback_token_expires_at) last_refresh_status reused refresh_error_code
      (rlc_expires_at rate_limit_cache) (rlc_last_error_code rate_limit_cache)
      (rlc_last_error rate_limit_cache) now_guard in
  let credential_state :=
    refresh_credential_state provider last_refresh_status reused refresh_error_code in
  let next_refresh_at := match provider with
                         | OAuthRefreshToken =>
                             (λ expires_at, expires_at - from_secs OAUTH_REFRESH_WINDOW_SEC) <$> token_expires_at
                         | _ => None
                         end in
  support ← gets account_model_support;
  let supported_models := from_option ams_supported_models [] (support !! ua_id account) in
  p ← account_pool_state_record_inner (ua_id account);
  mret (mkOAuthAccountStatusResponse (ua_id account) provider credential_kind
    (has_refresh_credential provider) fallback credential_state
    (session_profile ≫= spr_email) (session_profile ≫= spr_oauth_subject)
    (session_profile ≫= spr_oauth_identity_provider) (session_profile ≫= spr_email_verified)
    (session_profile ≫= spr_chatgpt_plan_type) (session_profile ≫= spr_chatgpt_user_id)
    (session_profile ≫= spr_chatgpt_subscription_active_start)
    (session_profile ≫= spr_chatgpt_subscription_active_until)
    (session_profile ≫= spr_chatgpt_subscription_last_checked)
    (session_profile ≫= spr_chatgpt_account_user_id)
    (session_profile ≫= spr_chatgpt_compute_residency) (session_profile ≫= spr_workspace_name)
    (session_profile ≫= spr_organizations) (session_profile ≫= spr_groups)
    (session_profile ≫= spr_source_type)
    (ocr_token_family_id <$> credential) (ocr_token_version <$> credential) token_expires_at
    (credential ≫= ocr_last_refresh_at) last_refresh_status reused refresh_error_code
    (credential ≫= ocr_last_refresh_error) effective_enabled
    (contract_pool_state (hs_pool_state p)) (hs_quarantine_until p) (hs_quarantine_reason p)
    (hs_pending_purge_at p) (hs_pending_purge_reason p) (hs_last_live_result_at p)
    (hs_last_live_result_status p) (hs_last_live_result_source p) (hs_seen_ok_at p)
    (hs_last_probe_at p) (hs_last_probe_outcome p) (hs_last_live_result_status_code p)
    (hs_last_live_error_code p) (hs_last_live_error_message_preview p) supported_models
    (rlc_rate_limits rate_limit_cache) (rlc_fetched_at rate_limit_cache)
    (rlc_expires_at rate_limit_cache) (rlc_last_error_code rate_limit_cache)
    (rlc_last_error rate_limit_cache) next_refresh_at).
End store.
