(* ===== verification/StoreConfig.v ===== *)
(** * Configuration operations of the store: [services/control-plane/src/store/trait_impl.rs]

    The methods of [ControlPlaneStore for InMemoryStore] that are not forwarded to
    an inner method: settings, routing profiles and policies, error templates,
    model support, refresh jobs and the event feed. *)
From S2P Require Import Prelude RustStr CoreModel BuiltinTemplates Json Request RoutingCache ControlModel StoreDefs Secrets Credentials Store.

#[local] Open Scope string_scope.
#[local] Open Scope list_scope.
#[local] Open Scope Z_scope.

Record UpdateClaudeCodeRoutingSettingsRequest := mkUpdateClaudeCodeRoutingSettingsRequest {
  ucc_enabled : bool;
  ucc_opus_target_model : option string;
  ucc_sonnet_target_model : option string;
  ucc_haiku_target_model : option string;
  ucc_effort_routing : option ClaudeCodeEffortRoutingSettings;
}.

Definition normalize_optional_model (value : option string) : option string :=
  match value with
  | Some value => let t := trim value in if is_empty t then None else Some t
  | None => None
  end.

(** [right.priority.cmp(&left.priority).then_with(|| left.created_at.cmp(&right.created_at))]. *)
Definition priority_compare {A} (priority created_at : A → Z) (l r : A) : comparison :=
  then_with (priority r ?= priority l) (created_at l ?= created_at r).
Definition sort_profiles : list RoutingProfile → list RoutingProfile :=
  sort_by (priority_compare rprof_priority rprof_created_at).
Definition sort_policies : list ModelRoutingPolicy → list ModelRoutingPolicy :=
  sort_by (priority_compare mrp_priority mrp_created_at).

Section config.
Context `{Base64, Aes256Gcm, UuidSource, WallClock, IdOrder}.

Abbreviation SM := (ST (Timed InMemoryStore)).

(** ** Settings *)

Definition update_outbound_proxy_pool_settings (req : UpdateOutboundProxyPoolSettingsRequest) :
    SM OutboundProxyPoolSettings :=
  now ← utc_now;
  let settings := mkOutboundProxyPoolSettings (ups_enabled req) (ups_fail_mode req) now in
  _ ← modify (λ s, s <| outbound_proxy_pool_settings := settings |>);
  _ ← bump_revision;
  mret settings.

Definition update_model_routing_settings (req : UpdateModelRoutingSettingsRequest) : SM ModelRoutingSettings :=
  now ← utc_now;
  let settings := mkModelRoutingSettings (ums_enabled req) (ums_auto_publish req)
                    (ums_planner_model_chain req) (ums_trigger_mode req) (ums_kill_switch req) now in
  _ ← modify (λ s, s <| model_routing_settings := settings |>);
  _ ← bump_revision;
  mret settings.

Definition update_claude_code_routing_settings (req : UpdateClaudeCodeRoutingSettingsRequest) :
    SM ClaudeCodeRoutingSettings :=
  existing ← gets claude_code_routing_settings;
  now ← utc_now;
  let settings := mkClaudeCodeRoutingSettings (ucc_enabled req)
                    (normalize_optional_model (ucc_opus_target_model req))
                    (normalize_optional_model (ucc_sonnet_target_model req))
                    (normalize_optional_model (ucc_haiku_target_model req))
                    (default (ccrs_effort_routing existing) (ucc_effort_routing req)) now in
  _ ← modify (λ s, s <| claude_code_routing_settings := settings |>);
  _ ← bump_revision;
  mret settings.

Definition update_upstream_error_learning_settings (req : UpdateAiErrorLearningSettingsRequest) :
    SM AiErrorLearningSettings :=
  now ← utc_now;
  let settings := mkAiErrorLearningSettings (uls_enabled req) (uls_first_seen_timeout_ms req)
                    (uls_review_hit_threshold req) (Some now) in
  _ ← modify (λ s, s <| upstream_error_learning_settings := settings |>);
  _ ← bump_revision;
  mret settings.

(** ** Routing profiles and model routing policies *)

Definition list_routing_profiles : SM (list RoutingProfile) :=
  m ← gets routing_profiles; mret (sort_profiles (id_values m)).

(** [req.id.unwrap_or_else(Uuid::new_v4)]. *)
Definition given_or_new (i : option Uuid) : SM Uuid :=
  match i with Some i => mret i | None => new_v4 end.

Definition upsert_routing_profile (req : UpsertRoutingProfileRequest) : SM (result RoutingProfile Error) :=
  now ← utc_now;
  i ← given_or_new (uprof_id req);
  let profile := mkRoutingProfile i (uprof_name req) (uprof_description req) (uprof_enabled req)
                   (uprof_priority req) (uprof_selector req) now now in
  _ ← modify (λ s, s <| routing_profiles ::= λ m,
        <[i := match m !! i with
               | Some existing =>
                   existing <| rprof_name := rprof_name profile |>
                            <| rprof_description := rprof_description profile |>
                            <| rprof_enabled := rprof_enabled profile |>
                            <| rprof_priority := rprof_priority profile |>
                            <| rprof_selector := rprof_selector profile |>
                            <| rprof_updated_at := now |>
               | None => profile
               end]> m |>);
  _ ← bump_revision;
  m ← gets routing_profiles;
  mret match m !! i with
       | Some profile => Ok profile
       | None => Err "routing profile not found after upsert"
       end.

Definition delete_routing_profile (profile_id : Uuid) : SM (result unit Error) :=
  m ← gets routing_profiles;
  match m !! profile_id with
  | None => mret (Err "routing profile not found")
  | Some _ =>
      _ ← modify (λ s, s <| routing_profiles ::= delete profile_id |>);
      _ ← bump_revision;
      mret (Ok tt)
  end.

Definition list_model_routing_policies : SM (list ModelRoutingPolicy) :=
  m ← gets model_routing_policies; mret (sort_policies (id_values m)).

Definition upsert_model_routing_policy (req : UpsertModelRoutingPolicyRequest) :
    SM (result ModelRoutingPolicy Error) :=
  now ← utc_now;
  i ← given_or_new (ump_id req);
  let policy := mkModelRoutingPolicy i (ump_name req) (ump_family req) (ump_exact_models req)
                  (ump_model_prefixes req) (ump_fallback_profile_ids req) (ump_enabled req)
                  (ump_priority req) now now in
  _ ← modify (λ s, s <| model_routing_policies ::= λ m,
        <[i := match m !! i with
               | Some existing =>
                   existing <| mrp_name := mrp_name policy |>
                            <| mrp_family := mrp_family policy |>
                            <| mrp_exact_models := mrp_exact_models policy |>
                            <| mrp_model_prefixes := mrp_model_prefixes policy |>
                            <| mrp_fallback_profile_ids := mrp_fallback_profile_ids policy |>
                            <| mrp_enabled := mrp_enabled policy |>
                            <| mrp_priority := mrp_priority policy |>
                            <| mrp_updated_at := now |>
               | None => policy
               end]> m |>);
  _ ← bump_revision;
  m ← gets model_routing_policies;
  mret match m !! i with
       | Some policy => Ok policy
       | None => Err "model routing policy not found after upsert"
       end.

Definition delete_model_routing_policy (policy_id : Uuid) : SM (result unit Error) :=
  m ← gets model_routing_policies;
  match m !! policy_id with
  | None => mret (Err "model routing policy not found")
  | Some _ =>
      _ ← modify (λ s, s <| model_routing_policies ::= delete policy_id |>);
      _ ← bump_revision;
      mret (Ok tt)
  end.

(** ** Error templates *)

Definition template_recency (l r : UpstreamErrorTemplateRecord) : comparison :=
  then_with (uetr_last_seen_at r ?= uetr_last_seen_at l) (uetr_updated_at r ?= uetr_updated_at l).

Definition list_upstream_error_templates (status : option UpstreamErrorTemplateStatus) :
    SM (list UpstreamErrorTemplateRecord) :=
  m ← gets upstream_error_templates;
  mret (sort_by template_recency
          (List.filter (λ t, from_option (λ item, bool_decide (uetr_status t = item)) true status)
             (id_values m))).

Definition upstream_error_template_by_id (template_id : Uuid) : SM (option UpstreamErrorTemplateRecord) :=
  m ← gets upstream_error_templates; mret (m !! template_id).

Definition upstream_error_template_by_fingerprint (fingerprint : string) :
    SM (option UpstreamErrorTemplateRecord) :=
  index ← gets upstream_error_template_index;
  m ← gets upstream_error_templates;
  mret (match index !! fingerprint with Some template_id => m !! template_id | None => None end).

Definition save_upstream_error_template (template : UpstreamErrorTemplateRecord) :
    SM UpstreamErrorTemplateRecord :=
  _ ← modify (λ s, s <| upstream_error_template_index ::= insert (uetr_fingerprint template) (uetr_id template) |>);
  _ ← modify (λ s, s <| upstream_error_templates ::= insert (uetr_id template) template |>);
  _ ← bump_revision;
  mret template.

Definition override_key (r : BuiltinErrorTemplateOverrideRecord) : BuiltinErrorTemplateKind * string :=
  (beto_kind r, beto_code r).

(** The keys are distinct, so the order before the sort does not matter. *)
Definition list_builtin_error_template_overrides : SM (list BuiltinErrorTemplateOverrideRecord) :=
  m ← gets builtin_error_template_overrides;
  mret (sort_by (λ l r, kind_code_compare (override_key l) (override_key r)) (map_to_list m).*2).

Definition save_builtin_error_template_override (record : BuiltinErrorTemplateOverrideRecord) :
    SM BuiltinErrorTemplateOverrideRecord :=
  _ ← modify (λ s, s <| builtin_error_template_overrides ::= insert (override_key record) record |>);
  _ ← bump_revision;
  mret record.

Definition delete_builtin_error_template_override (kind : BuiltinErrorTemplateKind) (code : string) : SM unit :=
  _ ← modify (λ s, s <| builtin_error_template_overrides ::= delete (kind, code) |>);
  bump_revision.

(** ** Model support *)

Definition record_account_model_support (account_id : Uuid) (supported_models : list string) : SM unit :=
  let normalized := List.filter (λ item, negb (is_empty item)) (trim <$> supported_models) in
  let normalized := dedup (sort_by String.compare normalized) in
  _ ← modify (λ s, s <| account_model_support ::= insert account_id (mkAccountModelSupportRecord normalized) |>);
  bump_revision.

(** ** Jobs that refresh the rate-limit caches *)

Definition RECOVERED : string := "job_recovered_after_restart".

(** Count an error code in a summary, adding it when it is new. *)
Fixpoint bump_error (code : string) (n : Z) (l : list OAuthRateLimitRefreshErrorSummary) :
    option (list OAuthRateLimitRefreshErrorSummary) :=
  match l with
  | [] => None
  | item :: l =>
      if String.eqb (es_error_code item) code
      then Some (mkOAuthRateLimitRefreshErrorSummary (es_error_code item)
                   (u64_saturating_add (es_count item) n) :: l)
      else cons item <$> bump_error code n l
  end.
Definition count_error (code : string) (n : Z) (l : list OAuthRateLimitRefreshErrorSummary) :
    list OAuthRateLimitRefreshErrorSummary :=
  default (l ++ [mkOAuthRateLimitRefreshErrorSummary code n]) (bump_error code n l).

Definition is_running (summary : OAuthRateLimitRefreshJobSummary) : bool :=
  bool_decide (job_status summary = JobRunning).

Definition recover_job (now : DateTime) (summary : OAuthRateLimitRefreshJobSummary) :
    OAuthRateLimitRefreshJobSummary :=
  if negb (is_running summary) then summary
  else summary <| job_status := JobFailed |>
               <| job_finished_at := Some now |>
               <| job_error_summary ::= count_error RECOVERED 1 |>.

Definition recover_oauth_rate_limit_refresh_jobs : SM Z :=
  now ← utc_now;
  jobs ← gets oauth_rate_limit_refresh_jobs;
  _ ← modify (λ s, s <| oauth_rate_limit_refresh_jobs := recover_job now <$> jobs |>);
  mret (fold_left (λ n summary, if is_running summary then u64_saturating_add n 1 else n)
          (id_values jobs) 0).

Definition job_compare (l r : OAuthRateLimitRefreshJobSummary) : comparison :=
  then_with (job_created_at l ?= job_created_at r) (job_job_id l ?= job_job_id r)%N.

Definition is_open (summary : OAuthRateLimitRefreshJobSummary) : bool :=
  match job_status summary with JobQueued | JobRunning => true | _ => false end.

(** [total] is [count_rate_limit_refresh_targets()]. *)
Definition create_oauth_rate_limit_refresh_job (count_targets : SM Z) : SM OAuthRateLimitRefreshJobSummary :=
  jobs ← gets oauth_rate_limit_refresh_jobs;
  match max_by job_compare (List.filter is_open (id_values jobs)) with
  | Some existing => mret existing
  | None =>
      now ← utc_now;
      i ← new_v4;
      total ← count_targets;
      let summary := mkOAuthRateLimitRefreshJobSummary i JobQueued total 0 0 0 None None now None [] in
      _ ← modify (λ s, s <| oauth_rate_limit_refresh_jobs ::= insert i summary |>);
      mret summary
  end.

Definition oauth_rate_limit_refresh_job (job_id : Uuid) : SM (result OAuthRateLimitRefreshJobSummary Error) :=
  jobs ← gets oauth_rate_limit_refresh_jobs;
  mret match jobs !! job_id with Some summary => Ok summary | None => Err "job not found" end.

(** ** Event feed *)

Definition data_plane_snapshot_events (after : Z) : SM DataPlaneSnapshotEventsResponse :=
  mret (mkDataPlaneSnapshotEventsResponse after after []).
End config.
