(* ===== verification/StoreSnapshot.v ===== *)
(** * Families and snapshots: [services/control-plane/src/store/family_snapshot.rs]

    Enabling and purging the accounts of one OAuth token family, the traits the
    router sees of each account, the compilation of profiles and policies into a
    routing plan, and the snapshot the data plane receives. *)
From S2P Require Import Prelude RustStr CoreModel BuiltinTemplates Json Request RoutingCache ControlModel StoreDefs Secrets Credentials Store StoreConfig.

#[local] Open Scope string_scope.
#[local] Open Scope list_scope.
#[local] Open Scope Z_scope.

(** ** Pure parts *)

Definition routing_health_freshness_from_contract (freshness : AccountHealthFreshness) :
    AccountRoutingHealthFreshness :=
  match freshness with HealthFresh => Fresh | HealthStale => Stale | HealthUnknown => Unknown end.

Definition profile_matches_account (profile : RoutingProfile) (account : UpstreamAccount)
    (account_traits : gmap Uuid AccountRoutingTraits) : bool :=
  let selector := rprof_selector profile in
  if bool_decide (ua_id account ∈ sel_exclude_account_ids selector) then false
  else if bool_decide (ua_id account ∈ sel_include_account_ids selector) then true
  else match account_traits !! ua_id account with
  | None => false
  | Some traits =>
      if negb (bool_decide (sel_plan_types selector = []))
         && negb (from_option (λ plan_type, existsb (λ candidate, eq_ignore_ascii_case candidate plan_type)
                                              (sel_plan_types selector)) false (art_plan_type traits))
      then false
      else if negb (bool_decide (sel_modes selector = []))
              && negb (bool_decide (ua_mode account ∈ sel_modes selector)) then false
      else if negb (bool_decide (sel_auth_providers selector = []))
              && negb (from_option (λ provider, bool_decide (provider ∈ sel_auth_providers selector))
                         false (art_auth_provider traits)) then false
      else true
  end.

(** One account's traits, at one reading of the clock. *)
Definition account_traits_of `{Aes256Gcm} (s : InMemoryStore) (now : DateTime) (account : UpstreamAccount) :
    AccountRoutingTraits :=
  let provider := default LegacyBearer (account_auth_providers s !! ua_id account) in
  let supported := from_option ams_supported_models [] (account_model_support s !! ua_id account) in
  let rate_limits := from_option rlc_rate_limits [] (oauth_rate_limit_caches s !! ua_id account) in
  let '(blocked_until, hard_block_reason) := derive_rate_limit_block rate_limits now in
  let health := health_of (ua_id account) s in
  let freshness :=
    account_health_freshness_from_signals now (hs_seen_ok_at health) (hs_last_probe_at health)
      (hs_last_probe_outcome health) (hs_last_live_result_at health) (hs_last_live_result_status health) in
  mkAccountRoutingTraits (ua_id account)
    (session_profiles s !! ua_id account ≫= spr_chatgpt_plan_type)
    (Some provider) supported (Some (routing_health_freshness_from_contract freshness))
    (hs_last_probe_at health) blocked_until hard_block_reason.

(** The accounts of a profile that no rate limit blocks, best priority and oldest first. *)
Definition profile_accounts (now : DateTime) (accounts : list UpstreamAccount)
    (account_traits : gmap Uuid AccountRoutingTraits) (profile : RoutingProfile) : list UpstreamAccount :=
  sort_by (priority_compare ua_priority ua_created_at)
    (List.filter (λ account,
       profile_matches_account profile account account_traits
       && from_option (λ blocked_until, blocked_until <=? now) true
            (account_traits !! ua_id account ≫= art_blocked_until)) accounts).

Definition compile_profile (now : DateTime) (accounts : list UpstreamAccount)
    (account_traits : gmap Uuid AccountRoutingTraits) (profile : RoutingProfile) : CompiledRoutingProfile :=
  mkCompiledRoutingProfile (rprof_id profile) (rprof_name profile)
    (ua_id <$> profile_accounts now accounts account_traits profile).

(** The profiles of a policy that exist and have accounts, in the policy's order. *)
Definition fallback_segments (compiled_profiles : gmap Uuid CompiledRoutingProfile)
    (policy : ModelRoutingPolicy) : list CompiledRoutingProfile :=
  List.filter (λ profile, negb (bool_decide (crp_account_ids profile = [])))
    (omap (λ profile_id, compiled_profiles !! profile_id) (mrp_fallback_profile_ids policy)).

Definition is_default_policy (policy : ModelRoutingPolicy) : bool :=
  bool_decide (mrp_exact_models policy = []) && bool_decide (mrp_model_prefixes policy = []).

Definition sort_dedup (l : list string) : list string := dedup (sort_by String.compare l).

(** The models of a policy: its exact ones and the known ones with one of its prefixes. *)
Definition policy_models (known_models : list string) (policy : ModelRoutingPolicy) : list string :=
  sort_dedup (mrp_exact_models policy
              ++ List.filter (λ model, existsb (starts_with model) (mrp_model_prefixes policy)) known_models).

Definition compiled_policy (policy : ModelRoutingPolicy) (model : string)
    (segments : list CompiledRoutingProfile) : CompiledModelRoutingPolicy :=
  mkCompiledModelRoutingPolicy (mrp_id policy) (mrp_name policy) (mrp_family policy) [model] [] segments.

(** The loop over the models of one policy; [routed] is the set of models that
    have a route. The first policy with segments takes the model. *)
Fixpoint route_models (policy : ModelRoutingPolicy) (segments : list CompiledRoutingProfile)
    (models : list string) (routed : gset string) :
    list CompiledModelRoutingPolicy * gset string :=
  match models with
  | [] => ([], routed)
  | model :: models =>
      if bool_decide (model ∈ routed) then route_models policy segments models routed
      else if bool_decide (segments = []) then route_models policy segments models routed
      else let '(l, routed) := route_models policy segments models ({[model]} ∪ routed) in
           (compiled_policy policy model segments :: l, routed)
  end.

Fixpoint route_policies (compiled_profiles : gmap Uuid CompiledRoutingProfile) (known_models : list string)
    (policies : list ModelRoutingPolicy) (routed : gset string) :
    list CompiledModelRoutingPolicy * gset string :=
  match policies with
  | [] => ([], routed)
  | policy :: policies =>
      let '(l, routed) := route_models policy (fallback_segments compiled_profiles policy)
                            (policy_models known_models policy) routed in
      let '(l', routed) := route_policies compiled_profiles known_models policies routed in
      (l ++ l', routed)
  end.

(** The known models that are left go to the default policy; the set does not
    grow, since the list has no duplicates. *)
Definition route_rest (policy : ModelRoutingPolicy) (segments : list CompiledRoutingProfile)
    (known_models : list string) (routed : gset string) : list CompiledModelRoutingPolicy :=
  if bool_decide (segments = []) then []
  else (λ model, compiled_policy policy model segments)
         <$> List.filter (λ model, negb (bool_decide (model ∈ routed))) known_models.

Definition known_models_of (account_traits : gmap Uuid AccountRoutingTraits)
    (source_policies : list ModelRoutingPolicy) : list string :=
  sort_dedup ((map_to_list account_traits ≫= λ kv, art_supported_models kv.2)
              ++ (source_policies ≫= mrp_exact_models)).

(** The default route and the policies of the plan. *)
Definition compile_policies (compiled_profiles : gmap Uuid CompiledRoutingProfile)
    (account_traits : gmap Uuid AccountRoutingTraits) (source_policies : list ModelRoutingPolicy) :
    list CompiledRoutingProfile * list CompiledModelRoutingPolicy :=
  let known_models := known_models_of account_traits source_policies in
  let default_policy := List.find is_default_policy source_policies in
  let '(policies, routed) :=
    route_policies compiled_profiles known_models
      (List.filter (λ policy, negb (is_default_policy policy)) source_policies) ∅ in
  match default_policy with
  | None => ([], policies)
  | Some policy =>
      let segments := fallback_segments compiled_profiles policy in
      (segments, policies ++ route_rest policy segments known_models routed)
  end.

(** What the snapshot says of an account with a managed token: whether it can
    be used, and its decrypted token. *)
Section publish.
Context `{Base64, Aes256Gcm}.

Definition disable (account : UpstreamAccount) : UpstreamAccount :=
  account <| ua_enabled := false |> <| ua_bearer_token := "" |>.

Definition with_token (account : UpstreamAccount) (token : option string) : UpstreamAccount :=
  match token with
  | Some access_token => account <| ua_bearer_token := access_token |>
  | None => disable account
  end.

Definition ok_of {A E} (r : result A E) : option A := match r with Ok a => Some a | Err _ => None end.

Definition decrypt_fallback (c : CredentialCipher) (credential : OAuthCredentialRecord) : option string :=
  match ocr_fallback_access_token_enc credential with
  | Some token => ok_of (decrypt c token)
  | None => None
  end.

Definition credential_enabled (enabled : bool) (profile : option SessionProfileRecord)
    (credential : OAuthCredentialRecord) (cache : OAuthRateLimitCacheRecord) (now : DateTime) : bool :=
  oauth_effective_enabled enabled OAuthRefreshToken
    (or_else (spr_credential_kind <$> profile) (Some RefreshRotatable))
    (Some (ocr_token_expires_at credential)) (has_access_token_fallback credential)
    (ocr_fallback_token_expires_at credential) (ocr_last_refresh_status credential)
    (ocr_refresh_reused_detected credential) (ocr_last_refresh_error_code credential)
    (rlc_expires_at cache) (rlc_last_error_code cache) (rlc_last_error cache) now.

(** The token to publish, if one can be decrypted. *)
Definition runtime_token (c : CredentialCipher) (credential : OAuthCredentialRecord) (now : DateTime) :
    option string :=
  let fallback_usable :=
    has_usable_access_token_fallback (has_access_token_fallback credential)
      (ocr_fallback_token_expires_at credential) now in
  let prefer_fallback :=
    should_use_access_token_fallback_for_runtime (Some (ocr_token_expires_at credential))
      (has_access_token_fallback credential) (ocr_fallback_token_expires_at credential)
      (ocr_last_refresh_status credential) (ocr_refresh_reused_detected credential)
      (ocr_last_refresh_error_code credential) now in
  if prefer_fallback then decrypt_fallback c credential
  else match decrypt c (ocr_access_token_enc credential) with
       | Ok access_token => Some access_token
       | Err _ => if fallback_usable then decrypt_fallback c credential else None
       end.

Definition publish_account (s : InMemoryStore) (now : DateTime) (account : UpstreamAccount) : UpstreamAccount :=
  let provider := default LegacyBearer (account_auth_providers s !! ua_id account) in
  if negb (bool_decide (provider = OAuthRefreshToken)) then account else
  match oauth_credentials s !! ua_id account with
  | None => disable account
  | Some credential =>
      let cache := default OAuthRateLimitCacheRecord_default (oauth_rate_limit_caches s !! ua_id account) in
      let account := account <| ua_enabled ::= λ enabled,
                       credential_enabled enabled (session_profiles s !! ua_id account) credential cache now |> in
      match credential_cipher s with
      | Some c => with_token account (runtime_token c credential now)
      | None => disable account
      end
  end.
End publish.

Section snapshot.
Context `{Base64, Aes256Gcm, UuidSource, WallClock, UuidText, Environment, IdOrder}.

Abbreviation SM := (ST (Timed InMemoryStore)).

(** ** Families *)

Definition family_accounts (family_id : string) (credentials : gmap Uuid OAuthCredentialRecord) : list Uuid :=
  (List.filter (λ kv, String.eqb (ocr_token_family_id kv.2) family_id) (id_iter credentials)).*1.

Definition clear_reuse (m : gmap Uuid OAuthCredentialRecord) (account_id : Uuid) : gmap Uuid OAuthCredentialRecord :=
  alter (λ c, c <| ocr_refresh_reused_detected := false |> <| ocr_refresh_backoff_until := None |>) account_id m.

(** Set the flag of one account of the family; [affected] counts the changes. *)
Definition switch_account (enabled : bool) (acc : gmap Uuid UpstreamAccount * nat) (account_id : Uuid) :
    gmap Uuid UpstreamAccount * nat :=
  let '(m, affected) := acc in
  match m !! account_id with
  | Some account =>
      if Bool.eqb (ua_enabled account) enabled then (m, affected)
      else (<[account_id := account <| ua_enabled := enabled |>]> m, S affected)
  | None => (m, affected)
  end.

Definition disable_or_enable_oauth_family (family_id : string) (enabled : bool) : SM nat :=
  credentials ← gets oauth_credentials;
  match family_accounts family_id credentials with
  | [] => mret 0%nat
  | account_ids =>
      _ ← (if enabled then modify (λ s, s <| oauth_credentials ::= λ m, fold_left clear_reuse account_ids m |>)
           else mret tt);
      m ← gets accounts;
      let '(m, affected) := fold_left (switch_account enabled) account_ids (m, 0%nat) in
      _ ← modify (λ s, s <| accounts := m |>);
      _ ← (if enabled then
             now ← utc_now;
             for_each (λ account_id, set_account_pool_state_active_inner account_id now) account_ids
           else mret tt);
      mret affected
  end.

Definition set_oauth_family_enabled_inner (account_id : Uuid) (enabled : bool) :
    SM (result OAuthFamilyActionResponse Error) :=
  provider ← account_auth_provider account_id;
  if negb (bool_decide (provider = OAuthRefreshToken)) then mret (Err "account is not an oauth account") else
  credentials ← gets oauth_credentials;
  match credentials !! account_id with
  | None => mret (Err "oauth credential not found")
  | Some target =>
      let family_id := ocr_token_family_id target in
      affected ← disable_or_enable_oauth_family family_id enabled;
      _ ← (if bool_decide (0 < affected)%nat then bump_revision else mret tt);
      mret (Ok (mkOAuthFamilyActionResponse account_id (Some family_id) enabled (Z.of_nat affected)))
  end.

Definition mark_oauth_family_pending_purge_inner (family_id : string) (reason : option string) : SM unit :=
  credentials ← gets oauth_credentials;
  for_each (λ account_id, _ ← mark_upstream_account_pending_purge_inner account_id reason; mret tt)
    (family_accounts family_id credentials).

(** ** Snapshots *)

Definition build_account_routing_traits (accounts : list UpstreamAccount) : SM (gmap Uuid AccountRoutingTraits) :=
  s ← gets (λ s, s);
  now ← utc_now;
  mret (list_to_map (reverse ((λ account, (ua_id account, account_traits_of s now account)) <$> accounts))).

Definition compile_routing_plan_from_state (accounts : list UpstreamAccount)
    (account_traits : gmap Uuid AccountRoutingTraits) : SM (option CompiledRoutingPlan) :=
  m ← gets routing_profiles;
  let profiles := sort_profiles (List.filter rprof_enabled (id_values m)) in
  compiled ← mapM_st (λ profile,
    now ← utc_now;
    mret (rprof_id profile, compile_profile now accounts account_traits profile)) profiles;
  let compiled_profiles := list_to_map (reverse compiled) in
  p ← gets model_routing_policies;
  let source_policies := sort_policies (List.filter mrp_enabled (id_values p)) in
  let '(default_route, policies) := compile_policies compiled_profiles account_traits source_policies in
  if bool_decide (default_route = []) && bool_decide (policies = []) then mret None
  else
    version_id ← new_v4;
    published_at ← utc_now;
    mret (Some (mkCompiledRoutingPlan version_id published_at (Some "in_memory_snapshot")
                  default_route policies)).

Definition fingerprint_compare (l r : UpstreamErrorTemplateRecord) : comparison :=
  String.compare (uetr_fingerprint l) (uetr_fingerprint r).

Definition snapshot_inner : SM (result DataPlaneSnapshot Error) :=
  _ ← purge_expired_one_time_accounts_inner;
  s ← gets (λ s, s);
  listed ← list_upstream_accounts_inner;
  now ← utc_now;
  retained ← mfilter (λ account,
    state ← account_pool_state_record_inner (ua_id account);
    mret (bool_decide (hs_pool_state state = Active))) listed;
  let accounts := publish_account s now <$> retained in
  account_traits_map ← build_account_routing_traits accounts;
  compiled_routing_plan ← compile_routing_plan_from_state accounts account_traits_map;
  learning ← gets upstream_error_learning_settings;
  proxy_settings ← gets outbound_proxy_pool_settings;
  proxy_nodes ← list_outbound_proxy_nodes_inner;
  claude ← gets claude_code_routing_settings;
  templates ← gets upstream_error_templates;
  let approved := sort_by fingerprint_compare
                    (List.filter (λ t, bool_decide (uetr_status t = Approved)) (id_values templates)) in
  r ← gets revision;
  let revision := r `max` 1 in
  builtin ← list_builtin_error_templates_inner;
  issued_at ← utc_now;
  mret (Ok (mkDataPlaneSnapshot revision revision accounts (id_values account_traits_map)
              compiled_routing_plan learning approved builtin proxy_settings proxy_nodes claude issued_at)).
End snapshot.
