(* ===== verification/Kept.v ===== *)
(** * Predicates that computations keep

    A predicate [P] of the timed state that holds after a computation when it held
    before, by the structure of the computation: what remains to show is that each
    write keeps [P], and that the passing of a tick does. *)
From S2P Require Import Prelude.

Section kept.
Context {S : Type} (P : Timed S → Prop).

Definition kept {A} (m : ST (Timed S) A) : Prop := ∀ w, P w → wp m (λ _ w', P w') w.

(** Time may pass. *)
Definition ticking : Prop := ∀ s n, P (mkTimed s n) → P (mkTimed s (Datatypes.S n)).

Lemma kept_ret {A} (a : A) : kept (mret a).
Proof. intros w Hw. by wp_step. Qed.
Lemma kept_bind {A B} (m : ST (Timed S) A) (k : A → ST (Timed S) B) :
  kept m → (∀ a, kept (k a)) → kept (m ≫= k).
Proof. intros Hm Hk w Hw. wp_step. wp_use (Hm w Hw) as a w' Hw'. by apply Hk. Qed.
Lemma kept_try_bind {A B E} (m : ST (Timed S) (result A E)) (k : A → ST (Timed S) (result B E)) :
  kept m → (∀ a, kept (k a)) → kept (try_bind m k).
Proof. intros Hm Hk w Hw. wp_step. wp_use (Hm w Hw) as [a|e] w' Hw'; [by apply Hk|done]. Qed.
Lemma kept_gets {A} (f : S → A) : kept (gets f).
Proof. intros w Hw. by wp_step. Qed.
Lemma kept_modify (f : S → S) : (∀ s n, P (mkTimed s n) → P (mkTimed (f s) n)) → kept (modify f).
Proof. intros Hf [s n] Hw. wp_step. by apply Hf. Qed.
Lemma kept_now `{Clock} : ticking → kept now.
Proof. intros Ht [s n] Hw. wp_step. by apply Ht. Qed.
Lemma kept_utc_now `{WallClock} : ticking → kept utc_now.
Proof. intros Ht [s n] Hw. wp_step. by apply Ht. Qed.
Lemma kept_new_v4 `{UuidSource} : ticking → kept new_v4.
Proof. intros Ht [s n] Hw. wp_step. by apply Ht. Qed.
Lemma kept_for_each {A} (f : A → ST (Timed S) unit) l : (∀ x, kept (f x)) → kept (for_each f l).
Proof. intros Hf. induction l as [|x l IH]; cbn [for_each]; [apply kept_ret|]. by apply kept_bind. Qed.
Lemma kept_mfilter {A} (p : A → ST (Timed S) bool) l : (∀ x, kept (p x)) → kept (mfilter p l).
Proof.
  intros Hp. induction l as [|x l IH]; cbn [mfilter]; [apply kept_ret|].
  apply kept_bind; [done|intros b]. apply kept_bind; [done|intros l']. apply kept_ret.
Qed.
Lemma kept_mapM {A B} (f : A → ST (Timed S) B) l : (∀ x, kept (f x)) → kept (mapM_st f l).
Proof.
  intros Hf. induction l as [|x l IH]; cbn [mapM_st]; [apply kept_ret|].
  apply kept_bind; [done|intros b]. apply kept_bind; [done|intros bs]. apply kept_ret.
Qed.
End kept.

(** [kept_step] takes one step of a computation apart, unfolding definitions;
    [kept_with tac] goes down to the writes and ticks and gives them to [tac]. *)
Ltac head_of t := lazymatch t with ?f _ => head_of f | _ => t end.
Ltac kept_step :=
  cbv beta zeta;
  lazymatch goal with
  | |- kept _ (mret _) => apply kept_ret
  | |- kept _ (_ ≫= _) => apply kept_bind; [|intros ?]
  | |- kept _ (try_bind _ _) => apply kept_try_bind; [|intros ?]
  | |- kept _ (gets _) => apply kept_gets
  | |- kept _ now => apply kept_now
  | |- kept _ utc_now => apply kept_utc_now
  | |- kept _ new_v4 => apply kept_new_v4
  | |- kept _ (for_each _ _) => apply kept_for_each; intros ?
  | |- kept _ (mfilter _ _) => apply kept_mfilter; intros ?
  | |- kept _ (mapM_st _ _) => apply kept_mapM; intros ?
  | |- kept _ (modify _) => apply kept_modify
  | |- kept _ (match ?x with _ => _ end) => destruct x
  | |- kept _ ?m => let f := head_of m in unfold f
  end.
Ltac kept_with tac := repeat kept_step; try tac.

(** ** Loops

    A [loop] whose body may go on or break, run with a fuel: [None] is a run that the
    fuel did not suffice for. The rules: a variant that decreases makes the fuel
    suffice; an invariant of a body that always goes on makes no fuel suffice. *)

Section loops.
Context {S A R : Type}.
Implicit Types (body : A → ST S (A + R)) (s : S).

Fixpoint loop (fuel : nat) body (a : A) : ST S (option R) :=
  match fuel with
  | O => mret None
  | Datatypes.S fuel =>
      r ← body a;
      match r with
      | inl a => loop fuel body a
      | inr x => mret (Some x)
      end
  end.

(** Total correctness: the invariant holds at each turn and the variant decreases. *)
Lemma wp_loop body (I : A → S → Prop) (variant : A → S → nat) (Q : option R → S → Prop) fuel a s :
  (∀ a s, I a s →
     wp (body a) (λ r s', match r with
                          | inl a' => I a' s' ∧ (variant a' s' < variant a s)%nat
                          | inr x => Q (Some x) s'
                          end) s) →
  I a s → (variant a s < fuel)%nat → wp (loop fuel body a) Q s.
Proof.
  intros Hbody. revert a s. induction fuel as [|fuel IH]; intros a s HI Hf; [lia|].
  cbn [loop]. wp_step. wp_use (Hbody a s HI) as [a'|x] s' Hr.
  - destruct Hr as [HI' Hv]. apply IH; [done|lia].
  - by wp_step.
Qed.

(** Divergence: from a state of the invariant the body always goes on to one. *)
Lemma loop_diverges body (I : A → S → Prop) fuel a s :
  (∀ a s, I a s → wp (body a) (λ r s', ∃ a', r = inl a' ∧ I a' s') s) →
  I a s → wp (loop fuel body a) (λ r _, r = None) s.
Proof.
  intros Hbody. revert a s. induction fuel as [|fuel IH]; intros a s HI; cbn [loop]; [by wp_step|].
  wp_step. wp_use (Hbody a s HI) as r s' Hr. destruct Hr as (a' & -> & HI'). by apply IH.
Qed.

(** A run that ended does not change with more fuel. *)
Lemma loop_more body fuel more a s x s' :
  loop fuel body a s = (Some x, s') → (fuel ≤ more)%nat → loop more body a s = (Some x, s').
Proof.
  revert more a s. induction fuel as [|fuel IH]; intros more a s; [done|].
  destruct more as [|more]; [lia|]. cbn [loop]. unfold mbind, st_bind.
  destruct (body a s) as [[a'|y] s1]; [|done]. intros Hr Hle. apply IH; [done|lia].
Qed.

(** Partial correctness: what holds of the results the fuel suffices for. *)
Lemma wp_loop_partial body (I : A → S → Prop) (Q : option R → S → Prop) fuel a s :
  (∀ a s, I a s → wp (body a) (λ r s', match r with inl a' => I a' s' | inr x => Q (Some x) s' end) s) →
  (∀ s, Q None s) → I a s → wp (loop fuel body a) Q s.
Proof.
  intros Hbody HQ. revert a s. induction fuel as [|fuel IH]; intros a s HI; cbn [loop]; [by wp_step|].
  wp_step. wp_use (Hbody a s HI) as [a'|x] s' Hr; [by apply IH|by wp_step].
Qed.

(** Termination: the state decreases in a well-founded order at each turn. *)
Lemma loop_ends body (I : A → S → Prop) (lt : A * S → A * S → Prop) (Q : R → S → Prop) a s :
  well_founded lt →
  (∀ a s, I a s →
     wp (body a) (λ r s', match r with inl a' => I a' s' ∧ lt (a', s') (a, s) | inr x => Q x s' end) s) →
  I a s → ∃ fuel x s', loop fuel body a s = (Some x, s') ∧ Q x s'.
Proof.
  intros Hwf Hbody. cut (∀ p : A * S, I p.1 p.2 → ∃ fuel x s', loop fuel body p.1 p.2 = (Some x, s') ∧ Q x s');
    [intros Hp; apply (Hp (a, s))|].
  intros p. induction (Hwf p) as [[b t] _ IH]. cbn [fst snd]. intros HI.
  pose proof (Hbody b t HI) as Hb. unfold wp in Hb. destruct (body b t) as [[b'|x] t'] eqn:E; cbn [fst snd] in Hb.
  - destruct Hb as [HI' Hlt]. destruct (IH (b', t') Hlt HI') as (fuel & x & s' & Hl & HQ).
    exists (Datatypes.S fuel), x, s'. split; [|done]. cbn [loop]. unfold mbind, st_bind. by rewrite E.
  - exists 1%nat, x, t'. split; [|done]. cbn [loop]. unfold mbind, st_bind. by rewrite E.
Qed.
End loops.
