(* ===== verification/StoreFacts.v ===== *)
(** * Facts about the store's account pool

    Specifications of the methods that change the state of an account, the
    automaton of live results, and the purge of accounts. *)
From S2P Require Import Prelude RustStr CoreModel BuiltinTemplates Json Request RoutingCache ControlModel StoreDefs Secrets Credentials Store.

#[local] Open Scope string_scope.
#[local] Open Scope list_scope.
#[local] Open Scope Z_scope.

(** [rproj] reads fields of updated records one update at a time: normalising a
    chain of updates of a wide record is exponential. *)
Ltac rproj1 :=
  match goal with
  | |- context [?f (set_field ?g ?u ?s)] =>
      first [constr_eq f g; change (f (set_field g u s)) with (u (f s)); cbv beta
            |change (f (set_field g u s)) with (f s)]
  end.
Ltac rproj := cbn [st ticks]; repeat rproj1.
Ltac rproj_in H :=
  cbn [st ticks] in H;
  repeat match type of H with
  | context [?f (set_field ?g ?u ?s)] =>
      first [constr_eq f g; change (f (set_field g u s)) with (u (f s)) in H; cbv beta in H
            |change (f (set_field g u s)) with (f s) in H]
  end.

Section facts.
Context `{Base64, Aes256Gcm, NonceSource, Digests, UuidSource, WallClock, UuidText, Environment, IdOrder}.

Abbreviation SM := (ST (Timed InMemoryStore)).
Implicit Types (w : Timed InMemoryStore) (s : InMemoryStore).

Lemma is_one_of_two a b c : is_one_of [a; b] c = String.eqb c a || String.eqb c b.
Proof.
  unfold is_one_of. apply eq_bool_prop_intro. rewrite bool_decide_spec, !elem_of_cons, elem_of_nil.
  destruct (String.eqb_spec c a), (String.eqb_spec c b); simpl; naive_solver.
Qed.

(** ** Frames: what a method leaves as it was *)

(** Every table but the accounts, their health states, the events and the revision. *)
Definition rest s :=
  (tenants s, api_keys s, api_key_tokens s, account_auth_providers s, oauth_credentials s,
   oauth_refresh_token_vault s, session_profiles s, account_model_support s, oauth_rate_limit_caches s,
   oauth_rate_limit_refresh_jobs s, outbound_proxy_pool_settings s, outbound_proxy_nodes s, policies s,
   routing_profiles s, model_routing_policies s, model_routing_settings s, claude_code_routing_settings s,
   upstream_error_learning_settings s, upstream_error_templates s, upstream_error_template_index s,
   builtin_error_template_overrides s, routing_plan_versions s, credential_cipher s).

Definition same_tables s s' : Prop := accounts s' = accounts s ∧ rest s' = rest s.

Lemma same_tables_trans s1 s2 s3 : same_tables s1 s2 → same_tables s2 s3 → same_tables s1 s3.
Proof. unfold same_tables. intuition congruence. Qed.

(** The state of one account changes to [h]; the other accounts keep theirs. *)
Definition health_set (i : Uuid) (h : UpstreamAccountHealthStateRecord) s s' : Prop :=
  account_health_states s' = <[i := h]> (account_health_states s).

Lemma emit_spec e w :
  wp (emit_system_event_inner e) (λ _ w', same_tables (st w) (st w')
    ∧ account_health_states (st w') = account_health_states (st w)
    ∧ revision (st w') = revision (st w) ∧ ticks w' = ticks w) w.
Proof. unfold emit_system_event_inner. by wp_go. Qed.

Lemma emit_transition_spec i a b r n src m w :
  wp (emit_account_pool_state_transition_inner i a b r n src m) (λ _ w',
    same_tables (st w) (st w')
    ∧ account_health_states (st w') = account_health_states (st w)
    ∧ revision (st w') = revision (st w) ∧ (ticks w ≤ ticks w')%nat) w.
Proof.
  unfold emit_account_pool_state_transition_inner, account_auth_provider. wp_go.
  all: wp_use emit_spec as ? w' (Ht & Hh & Hr & Hk); cbn [st ticks] in *; split_and!; try done; lia.
Qed.

(** ** Transitions of one account *)

(** The state of an account after each transition of the pool. *)
Definition to_active (at_ : DateTime) (h : UpstreamAccountHealthStateRecord) :=
  h <| hs_pool_state := Active |> <| hs_quarantine_until := None |> <| hs_quarantine_reason := None |>
    <| hs_pending_purge_at := None |> <| hs_pending_purge_reason := None |>
    <| hs_last_pool_transition_at := Some at_ |>.

Definition to_quarantine (at_ : DateTime) (until : option DateTime) (reason : option string)
    (h : UpstreamAccountHealthStateRecord) :=
  h <| hs_pool_state := Quarantine |> <| hs_quarantine_until := until |>
    <| hs_quarantine_reason := trimmed_non_empty reason |>
    <| hs_pending_purge_at := None |> <| hs_pending_purge_reason := None |>
    <| hs_last_pool_transition_at := Some at_ |>.

(** The deadline of a purge: one that is still ahead is kept. *)
Definition purge_deadline (now : DateTime) (h : UpstreamAccountHealthStateRecord) : DateTime :=
  match hs_pending_purge_at h with
  | Some existing => if now <? existing then existing else now + from_secs pending_purge_delay_sec_from_env
  | None => now + from_secs pending_purge_delay_sec_from_env
  end.

Definition to_pending (now : DateTime) (reason : option string) (h : UpstreamAccountHealthStateRecord) :=
  h <| hs_pool_state := PendingPurge |> <| hs_quarantine_until := None |> <| hs_quarantine_reason := None |>
    <| hs_pending_purge_at := Some (purge_deadline now h) |>
    <| hs_pending_purge_reason ::= λ old, or_else (trimmed_non_empty reason) old |>
    <| hs_last_pool_transition_at := Some now |>.

Definition no_strikes (h : UpstreamAccountHealthStateRecord) :=
  h <| hs_token_invalidated_strike_count := 0 |> <| hs_token_invalidated_first_at := None |>.

(** A step that only changes the health of account [i], by [f], and perhaps
    emits events. *)
Definition health_step (i : Uuid) (h : UpstreamAccountHealthStateRecord) (bumps : Z) w w' : Prop :=
  same_tables (st w) (st w') ∧ health_set i h (st w) (st w')
  ∧ revision (st w') = u64_wrap (revision (st w) + bumps) ∧ (ticks w ≤ ticks w')%nat.

Definition rev_ok s : Prop := is_u64 (revision s).

Lemma health_set_of i h s s' : health_set i h s s' → health_of i s' = h.
Proof. unfold health_set, health_of. intros ->. by rewrite lookup_insert_eq. Qed.

Lemma health_step_trans i h1 h2 a b w1 w2 w3 :
  health_step i h1 a w1 w2 → health_step i h2 b w2 w3 → health_step i h2 (a + b) w1 w3.
Proof.
  intros (T1 & S1 & R1 & K1) (T2 & S2 & R2 & K2). split_and!.
  - by eapply same_tables_trans.
  - unfold health_set in *. by rewrite S2, S1, insert_insert_eq.
  - rewrite R2, R1, u64_wrap_add_l. f_equal. lia.
  - lia.
Qed.

Lemma same_tables_accounts s s' : same_tables s s' → accounts s' = accounts s.
Proof. by intros [? _]. Qed.
(** The equation of the other tables, one by one. *)
Record same_rest s s' : Prop := mkSameRest {
  sr_tenants : tenants s' = tenants s;
  sr_api_keys : api_keys s' = api_keys s;
  sr_api_key_tokens : api_key_tokens s' = api_key_tokens s;
  sr_providers : account_auth_providers s' = account_auth_providers s;
  sr_credentials : oauth_credentials s' = oauth_credentials s;
  sr_vault : oauth_refresh_token_vault s' = oauth_refresh_token_vault s;
  sr_profiles : session_profiles s' = session_profiles s;
  sr_support : account_model_support s' = account_model_support s;
  sr_caches : oauth_rate_limit_caches s' = oauth_rate_limit_caches s;
  sr_jobs : oauth_rate_limit_refresh_jobs s' = oauth_rate_limit_refresh_jobs s;
  sr_proxy_settings : outbound_proxy_pool_settings s' = outbound_proxy_pool_settings s;
  sr_proxy_nodes : outbound_proxy_nodes s' = outbound_proxy_nodes s;
  sr_policies : policies s' = policies s;
  sr_routing_profiles : routing_profiles s' = routing_profiles s;
  sr_model_policies : model_routing_policies s' = model_routing_policies s;
  sr_model_settings : model_routing_settings s' = model_routing_settings s;
  sr_claude : claude_code_routing_settings s' = claude_code_routing_settings s;
  sr_learning : upstream_error_learning_settings s' = upstream_error_learning_settings s;
  sr_templates : upstream_error_templates s' = upstream_error_templates s;
  sr_index : upstream_error_template_index s' = upstream_error_template_index s;
  sr_overrides : builtin_error_template_overrides s' = builtin_error_template_overrides s;
  sr_versions : routing_plan_versions s' = routing_plan_versions s;
  sr_cipher : credential_cipher s' = credential_cipher s;
}.

Lemma rest_same s s' : rest s' = rest s → same_rest s s'.
Proof. unfold rest. intros [=]. by split. Qed.

Lemma rest_providers s s' : rest s' = rest s → account_auth_providers s' = account_auth_providers s.
Proof. intros E%rest_same. apply (sr_providers _ _ E). Qed.

Lemma put_health_spec i h w :
  rev_ok (st w) → wp (put_health i h) (λ _ w', health_step i h 0 w w' ∧ ticks w' = ticks w) w.
Proof.
  intros Hr. unfold put_health. wp_go. split; [|done]. split_and!; [done|done| |done].
  change (revision (st w) = u64_wrap (revision (st w) + 0)).
  rewrite Z.add_0_r. symmetry. by apply u64_wrap_small.
Qed.

(** An event keeps a step. *)
Lemma health_step_emit i h n w w' w'' :
  health_step i h n w w' →
  same_tables (st w') (st w'') ∧ account_health_states (st w'') = account_health_states (st w')
    ∧ revision (st w'') = revision (st w') ∧ (ticks w' ≤ ticks w'')%nat →
  health_step i h n w w''.
Proof.
  intros (T1 & S1 & R1 & K1) (T2 & S2 & R2 & K2). split_and!.
  - by eapply same_tables_trans.
  - unfold health_set in *. by rewrite S2.
  - by rewrite R2.
  - lia.
Qed.

Lemma health_step_tick i h n w w' w'' :
  st w = st w' → (ticks w ≤ ticks w')%nat → health_step i h n w' w'' → health_step i h n w w''.
Proof.
  intros E K (T1 & S1 & R1 & K1). unfold health_step. rewrite E. split_and!; try done. lia.
Qed.

Lemma set_active_spec i t w :
  rev_ok (st w) →
  wp (set_account_pool_state_active_inner i t)
    (λ _ w', health_step i (to_active t (health_of i (st w))) 0 w w') w.
Proof.
  intros Hr. unfold set_account_pool_state_active_inner, health_entry. do 2 wp_step.
  wp_step. wp_use (put_health_spec _ _ _ Hr) as [] w' [Hs Hk]. wp_step.
  - wp_use emit_transition_spec as [] w'' He. by eapply health_step_emit.
  - by wp_step.
Qed.

Lemma contains_account_spec i w :
  wp (contains_account i) (λ b w', b = bool_decide (is_Some (accounts (st w) !! i)) ∧ w' = w) w.
Proof. unfold contains_account. by wp_go. Qed.

Lemma bump_spec i h n w w' :
  health_step i h n w w' → wp bump_revision (λ _ w'', health_step i h (n + 1) w w'') w'.
Proof.
  intros (T1 & S1 & R1 & K1). unfold bump_revision. wp_go. split_and!; [done|done| |done].
  change (u64_wrap (revision (st w') + 1) = u64_wrap (revision (st w) + (n + 1))).
  rewrite R1, u64_wrap_add_l. f_equal. lia.
Qed.

Lemma set_quarantine_spec i t until reason w :
  rev_ok (st w) →
  wp (set_account_pool_state_quarantine_inner i t until reason) (λ r w',
    match accounts (st w) !! i with
    | None => r = Err "upstream account not found" ∧ w' = w
    | Some _ => r = Ok tt ∧ health_step i (to_quarantine t until reason (health_of i (st w))) 1 w w'
    end) w.
Proof.
  intros Hr. unfold set_account_pool_state_quarantine_inner, health_entry.
  wp_step. wp_use contains_account_spec as b w0 [-> ->].
  destruct (accounts (st w) !! i) as [a|] eqn:Ha.
  2: { rewrite bool_decide_eq_false_2 by (intros [? ?]; congruence). by wp_go. }
  rewrite bool_decide_eq_true_2 by eauto. cbn [negb]. do 2 wp_step.
  wp_step. wp_use (put_health_spec _ _ _ Hr) as [] w1 [Hs Hk]. wp_step.
  eapply (wp_mono _ (λ _ w2, health_step i (to_quarantine t until reason (health_of i (st w))) 0 w w2)).
  { destruct (_ || _); [|wp_step; exact Hs].
    wp_use emit_transition_spec as [] w2 He. by eapply health_step_emit. }
  intros [] w2 Hs2. wp_step. wp_use (bump_spec _ _ _ _ _ Hs2) as [] w3 Hs3. by wp_step.
Qed.

(** The whole effect of a method on one account: its record, its state, the
    revision and the event log; nothing else changes. *)
Definition account_step (i : Uuid) (a : UpstreamAccount) (h : UpstreamAccountHealthStateRecord) (bumps : Z)
    w w' : Prop :=
  accounts (st w') = <[i := a]> (accounts (st w))
  ∧ account_health_states (st w') = <[i := h]> (account_health_states (st w))
  ∧ rest (st w') = rest (st w)
  ∧ revision (st w') = u64_wrap (revision (st w) + bumps)
  ∧ (ticks w ≤ ticks w')%nat.

Lemma health_of_accounts i f s : health_of i (s <| accounts ::= f |>) = health_of i s.
Proof. done. Qed.

Lemma mark_pending_spec i reason w :
  rev_ok (st w) →
  wp (mark_upstream_account_pending_purge_inner i reason) (λ r w',
    match accounts (st w) !! i with
    | None => r = Err "upstream account not found" ∧ st w' = st w ∧ (ticks w ≤ ticks w')%nat
    | Some a =>
        let a' := a <| ua_enabled := false |> in
        r = Ok a' ∧ account_step i a' (to_pending (utc (ticks w)) reason (health_of i (st w))) 1 w w'
    end) w.
Proof.
  intros Hr. unfold mark_upstream_account_pending_purge_inner, health_entry. do 4 wp_step.
  cbn [st]. destruct (accounts (st w) !! i) as [a|] eqn:Ha.
  2: { wp_step. split_and!; [done|done|cbn; lia]. }
  cbv zeta. wp_step. wp_step. wp_step. wp_step. wp_step.
  wp_use put_health_spec as [] w1 [Hs Hk]; [done|].
  cbn [st ticks] in *. rewrite health_of_accounts in *.
  set (w0 := mkTimed _ (S (ticks w))) in Hs. wp_step.
  eapply (wp_mono _ (λ _ w2, health_step i (to_pending (utc (ticks w)) reason (health_of i (st w))) 0 w0 w2)).
  { destruct (_ || _); [|wp_step; exact Hs].
    wp_use emit_transition_spec as [] w2 He. by eapply health_step_emit. }
  intros [] w2 Hs2. wp_step. wp_use (bump_spec _ _ _ _ _ Hs2) as [] w3 Hs3. wp_step.
  split; [done|]. destruct Hs3 as ([A T] & S & R & K).
  split_and!; [by rewrite A|by rewrite S|by rewrite T|by rewrite R|subst w0; cbn [ticks] in K; lia].
Qed.

(** ** Live results *)

(** The result is a function of the account's state: what is recorded, then the
    transition its status and normalised error code ask for. *)
Definition recorded (t : DateTime) (status : OAuthLiveResultStatus) (source : OAuthLiveResultSource)
    (status_code : option Z) (code message : option string) (h : UpstreamAccountHealthStateRecord) :=
  let failed := bool_decide (status = LiveFailed) in
  h <| hs_last_live_result_at := Some t |>
    <| hs_last_live_result_status := Some status |>
    <| hs_last_live_result_source := Some source |>
    <| hs_last_live_result_status_code :=
         match status_code with
         | Some c => if (200 <=? c) && (c <? 600) then Some c else None
         | None => None
         end |>
    <| hs_last_live_error_code := keep_if failed code |>
    <| hs_last_live_error_message_preview := keep_if failed message |>.

(** A success that is not older than the last one counts as seen, and clears the strikes. *)
Definition seen (t : DateTime) (h : UpstreamAccountHealthStateRecord) :=
  if from_option (λ previous, t <=? previous) false (hs_seen_ok_at h) then h
  else no_strikes (h <| hs_seen_ok_at := Some t |>).

Definition in_strike_window (t : DateTime) (h : UpstreamAccountHealthStateRecord) : bool :=
  from_option (λ first_at, t <=? first_at + from_secs token_invalidated_purge_window_sec_from_env) false
    (hs_token_invalidated_first_at h).

Definition struck (t : DateTime) (h : UpstreamAccountHealthStateRecord) :=
  if in_strike_window t h
  then h <| hs_token_invalidated_strike_count ::= λ n, u32_saturating_add n 1 `max` 1 |>
  else h <| hs_token_invalidated_first_at := Some t |> <| hs_token_invalidated_strike_count := 1 |>.

Definition out_of_strikes (provider : UpstreamAuthProvider) (h : UpstreamAccountHealthStateRecord) : bool :=
  token_invalidated_purge_threshold_for_provider provider <=? hs_token_invalidated_strike_count h.

(** What a result does to the account. *)
Inductive LiveEffect :=
  | Routable
  | Cooling (until : DateTime) (reason : string)
  | Doomed (reason : string)
  | Unchanged.

Definition live_effect (provider : UpstreamAuthProvider) (t : DateTime) (status : OAuthLiveResultStatus)
    (code : option string) (h : UpstreamAccountHealthStateRecord) :
    LiveEffect * UpstreamAccountHealthStateRecord :=
  match status, code with
  | LiveOk, _ => (Routable, seen t h)
  | LiveFailed, Some code =>
      if String.eqb code "account_deactivated" then (Doomed code, no_strikes h)
      else if is_one_of ["rate_limited"; "quota_exhausted"] code
      then (Cooling (t + from_secs (rate_limit_failure_backoff_seconds code "")) code, no_strikes h)
      else if String.eqb code "auth_expired" then (Cooling (t + minutes 30) code, no_strikes h)
      else if String.eqb code "token_invalidated" then
        (if out_of_strikes provider (struck t h) then Doomed code else Cooling (t + minutes 30) code, struck t h)
      else (Unchanged, no_strikes h)
  | LiveFailed, None => (Unchanged, no_strikes h)
  end.

(** The account and its state after the effect; [now] is the time of the report's arrival. *)
Definition enact (e : LiveEffect) (t now : DateTime) (a : UpstreamAccount)
    (h : UpstreamAccountHealthStateRecord) : UpstreamAccount * UpstreamAccountHealthStateRecord :=
  match e with
  | Routable => (a, to_active t h)
  | Cooling until reason => (a, to_quarantine t (Some until) (Some reason) h)
  | Doomed reason => (a <| ua_enabled := false |>, to_pending now (Some reason) h)
  | Unchanged => (a, h)
  end.

Definition effect_bumps (e : LiveEffect) : Z :=
  match e with Cooling _ _ | Doomed _ => 2 | _ => 1 end.

Lemma seen_ok_spec i t w :
  rev_ok (st w) →
  wp (mark_account_seen_ok_inner i t 0) (λ _ w', health_step i (seen t (health_of i (st w))) 0 w w') w.
Proof.
  intros Hr. unfold mark_account_seen_ok_inner, health_entry. do 2 wp_step. cbv zeta.
  change (from_secs (0 `max` 0)) with 0. rewrite Z.sub_0_r. unfold seen.
  destruct (from_option _ _ _) eqn:Hs; wp_step; wp_use (put_health_spec _ _ _ Hr) as [] w' [Hw Hk]; wp_step; [done|].
  destruct (hs_seen_ok_at (health_of i (st w))) as [p|] eqn:Hp; [|].
  - simpl in Hs. apply Z.leb_gt in Hs.
    assert (He : (health_of i (st w)) <| hs_seen_ok_at ::= λ o, Some (from_option (λ previous, previous `max` t) t o) |>
                 = (health_of i (st w)) <| hs_seen_ok_at := Some t |>).
    { unfold set_field. rewrite Hp. cbn [from_option]. rewrite Z.max_r by lia. done. }
    rewrite He in Hw. exact Hw.
  - assert (He : (health_of i (st w)) <| hs_seen_ok_at ::= λ o, Some (from_option (λ previous, previous `max` t) t o) |>
                 = (health_of i (st w)) <| hs_seen_ok_at := Some t |>).
    { unfold set_field. by rewrite Hp. }
    rewrite He in Hw. exact Hw.
Qed.

Lemma reset_strikes_spec i w :
  rev_ok (st w) →
  wp (reset_token_invalidated_strikes_inner i)
    (λ _ w', health_step i (no_strikes (health_of i (st w))) 0 w w' ∧ ticks w' = ticks w) w.
Proof.
  intros Hr. unfold reset_token_invalidated_strikes_inner, health_entry. do 2 wp_step.
  wp_use (put_health_spec _ _ _ Hr) as [] w' [Hw Hk]. by split.
Qed.

Lemma record_strike_spec i t w a :
  rev_ok (st w) → accounts (st w) !! i = Some a →
  wp (record_token_invalidated_strike_inner i t) (λ r w',
    r = Ok (out_of_strikes (default LegacyBearer (account_auth_providers (st w) !! i))
              (struck t (health_of i (st w))))
    ∧ health_step i (struck t (health_of i (st w))) 0 w w' ∧ ticks w' = ticks w) w.
Proof.
  intros Hr Ha. unfold record_token_invalidated_strike_inner, health_entry, account_auth_provider.
  wp_step. wp_use contains_account_spec as b w0 [-> ->].
  rewrite Ha, bool_decide_eq_true_2 by eauto. cbn [negb]. do 5 wp_step. cbv zeta. wp_step.
  assert (He : (if negb (from_option (λ first_at, t <=? first_at + from_secs token_invalidated_purge_window_sec_from_env)
                           false (hs_token_invalidated_first_at (health_of i (st w))))
                then (health_of i (st w)) <| hs_token_invalidated_first_at := Some t |>
                                          <| hs_token_invalidated_strike_count := 1 |>
                else (health_of i (st w)) <| hs_token_invalidated_strike_count ::= λ n, u32_saturating_add n 1 `max` 1 |>)
               = struck t (health_of i (st w))).
  { unfold struck, in_strike_window. by destruct (from_option _ _ _). }
  rewrite !He. wp_step. wp_use (put_health_spec _ _ _ Hr) as [] w' [Hw Hk]. by wp_step.
Qed.

Lemma health_step_rev i h n w w' : health_step i h n w w' → rev_ok (st w').
Proof. intros (_ & _ & R & _). unfold rev_ok. rewrite R. apply u64_wrap_bounds. Qed.

Lemma health_step_health i h n w w' : health_step i h n w w' → health_of i (st w') = h.
Proof. intros (_ & S & _). by apply health_set_of in S. Qed.

Lemma health_step_accounts i h n w w' : health_step i h n w w' → accounts (st w') = accounts (st w).
Proof. intros (T & _). by apply same_tables_accounts in T. Qed.

Lemma health_step_providers i h n w w' :
  health_step i h n w w' → account_auth_providers (st w') = account_auth_providers (st w).
Proof. intros ([_ T] & _). by apply rest_providers. Qed.

Lemma health_step_account i a h n w w' :
  accounts (st w) !! i = Some a → health_step i h n w w' → account_step i a h n w w'.
Proof.
  intros Ha ([Ta Tr] & S & R & K). split_and!; try done. by rewrite Ta, insert_id.
Qed.

Lemma account_step_bump i a h n w w' :
  account_step i a h n w w' → wp bump_revision (λ _ w'', account_step i a h (n + 1) w w'') w'.
Proof.
  intros (A & S & T & R & K). unfold bump_revision. wp_go. split_and!; try done.
  change (u64_wrap (revision (st w') + 1) = u64_wrap (revision (st w) + (n + 1))).
  rewrite R, u64_wrap_add_l. f_equal. lia.
Qed.

(** A health step followed by the purge mark of the same account. *)
Lemma health_then_pending i a h n reason w w1 :
  rev_ok (st w) → accounts (st w) !! i = Some a → health_step i h n w w1 → ticks w1 = ticks w →
  wp (mark_upstream_account_pending_purge_inner i reason) (λ r w',
    r = Ok (a <| ua_enabled := false |>)
    ∧ account_step i (a <| ua_enabled := false |>) (to_pending (utc (ticks w)) reason h) (n + 1) w w') w1.
Proof.
  intros Hr Ha Hs Ht. wp_use (mark_pending_spec _ _ _ (health_step_rev _ _ _ _ _ Hs)) as r w' Hm.
  rewrite (health_step_accounts _ _ _ _ _ Hs), Ha, Ht, (health_step_health _ _ _ _ _ Hs) in Hm.
  destruct Hm as [-> (A & S & T & R & K)]. split; [done|].
  destruct Hs as ([A1 T1] & S1 & R1 & K1). unfold health_set in S1. split_and!.
  - by rewrite A, A1.
  - by rewrite S, S1, insert_insert_eq.
  - by rewrite T.
  - rewrite R, R1, u64_wrap_add_l. f_equal. lia.
  - lia.
Qed.

Lemma health_then_quarantine i a h n t until reason w w1 :
  rev_ok (st w) → accounts (st w) !! i = Some a → health_step i h n w w1 →
  wp (set_account_pool_state_quarantine_inner i t until reason) (λ r w',
    r = Ok tt ∧ account_step i a (to_quarantine t until reason h) (n + 1) w w') w1.
Proof.
  intros Hr Ha Hs. wp_use (set_quarantine_spec _ _ _ _ _ (health_step_rev _ _ _ _ _ Hs)) as r w' Hq.
  rewrite (health_step_accounts _ _ _ _ _ Hs), Ha, (health_step_health _ _ _ _ _ Hs) in Hq.
  destruct Hq as [-> Hq]. split; [done|]. apply health_step_account; [done|].
  by eapply health_step_trans.
Qed.

Lemma put_live_result_spec i t status source status_code code message w :
  rev_ok (st w) →
  wp (put_live_result i t status source status_code code message) (λ _ w',
    health_step i (recorded t status source status_code code message (health_of i (st w))) 0 w w'
    ∧ ticks w' = ticks w) w.
Proof.
  intros Hr. unfold put_live_result, health_entry. do 2 wp_step.
  wp_use (put_health_spec _ _ _ Hr) as [] w' [Hw Hk]. by split.
Qed.

(** Clearing the strikes, after the result is recorded. *)
Lemma reset_then {i h w w1} (m : SM (result bool Error)) Q :
  health_step i h 0 w w1 → ticks w1 = ticks w →
  (∀ w2, health_step i (no_strikes h) 0 w w2 → ticks w2 = ticks w → wp m Q w2) →
  wp (_ ← reset_token_invalidated_strikes_inner i; m) Q w1.
Proof.
  intros Hs Ht Hm. wp_step.
  wp_use (reset_strikes_spec _ _ (health_step_rev _ _ _ _ _ Hs)) as [] w2 [E2 Hk].
  rewrite (health_step_health _ _ _ _ _ Hs) in E2.
  apply Hm; [by eapply (health_step_trans _ _ _ 0 0)|congruence].
Qed.

Definition effect_accepted (e : LiveEffect) : bool := match e with Unchanged => false | _ => true end.

(** The three endings of a branch. *)
Section endings.
Context {i : Uuid} {a : UpstreamAccount} {h : UpstreamAccountHealthStateRecord} {w w1 : Timed InMemoryStore}.
Context (Hr : rev_ok (st w)) (Ha : accounts (st w) !! i = Some a).
Context (Hs : health_step i h 0 w w1) (Ht : ticks w1 = ticks w).

Lemma ending_pending t reason :
  wp (_ ←? mark_upstream_account_pending_purge_inner i (Some reason); mret (Ok true : result bool Error))
    (λ r w', r = Ok (effect_accepted (Doomed reason))
       ∧ account_step i (enact (Doomed reason) t (utc (ticks w)) a h).1
           (enact (Doomed reason) t (utc (ticks w)) a h).2 (effect_bumps (Doomed reason) - 1) w w') w1.
Proof using Hr Ha Hs Ht.
  wp_step. wp_use (health_then_pending _ _ _ _ _ _ _ Hr Ha Hs Ht) as r w2 [-> E2]. by wp_step.
Qed.

Lemma ending_quarantine t until reason :
  wp (_ ←? set_account_pool_state_quarantine_inner i t (Some until) (Some reason); mret (Ok true : result bool Error))
    (λ r w', r = Ok (effect_accepted (Cooling until reason))
       ∧ account_step i (enact (Cooling until reason) t (utc (ticks w)) a h).1
           (enact (Cooling until reason) t (utc (ticks w)) a h).2 (effect_bumps (Cooling until reason) - 1) w w') w1.
Proof using Hr Ha Hs.
  wp_step. wp_use (health_then_quarantine _ _ _ _ _ _ _ _ _ Hr Ha Hs) as r w2 [-> E2]. by wp_step.
Qed.

Lemma ending_unchanged t :
  wp (mret (Ok false : result bool Error))
    (λ r w', r = Ok (effect_accepted Unchanged)
       ∧ account_step i (enact Unchanged t (utc (ticks w)) a h).1
           (enact Unchanged t (utc (ticks w)) a h).2 (effect_bumps Unchanged - 1) w w') w1.
Proof using Ha Hs. wp_step. split; [done|]. by apply health_step_account. Qed.
End endings.

Lemma apply_live_result_spec i a t status code w w1 h :
  rev_ok (st w) → accounts (st w) !! i = Some a → health_step i h 0 w w1 → ticks w1 = ticks w →
  let eh := live_effect (default LegacyBearer (account_auth_providers (st w) !! i)) t status code h in
  let ah := enact eh.1 t (utc (ticks w)) a eh.2 in
  wp (apply_live_result i t status code) (λ r w',
    r = Ok (effect_accepted eh.1) ∧ account_step i ah.1 ah.2 (effect_bumps eh.1 - 1) w w') w1.
Proof.
  intros Hr Ha Hs Ht eh ah. subst eh ah.
  assert (Hr1 := health_step_rev _ _ _ _ _ Hs).
  destruct status; [|destruct code as [c|]]; cbn [live_effect apply_live_result].
  - wp_step. wp_use (seen_ok_spec _ _ _ Hr1) as ? w2 E2. wp_step.
    rewrite (health_step_health _ _ _ _ _ Hs) in E2.
    wp_use (set_active_spec _ _ _ (health_step_rev _ _ _ _ _ E2)) as ? w3 E3. wp_step.
    rewrite (health_step_health _ _ _ _ _ E2) in E3.
    split; [done|]. apply health_step_account; [done|].
    eapply (health_step_trans _ _ _ 0 0); [|done]. by eapply (health_step_trans _ _ _ 0 0).
  - destruct (String.eqb_spec c "account_deactivated") as [->|Hne1].
    { apply (reset_then _ _ Hs Ht). intros w2 E2 Ht2. by apply ending_pending. }
    rewrite is_one_of_two. destruct (_ || _).
    { apply (reset_then _ _ Hs Ht). intros w2 E2 Ht2. by apply ending_quarantine. }
    destruct (String.eqb_spec c "auth_expired") as [->|Hne2].
    { apply (reset_then _ _ Hs Ht). intros w2 E2 Ht2. by apply ending_quarantine. }
    destruct (String.eqb_spec c "token_invalidated") as [->|Hne3].
    2: { apply (reset_then _ _ Hs Ht). intros w2 E2 Ht2. by apply ending_unchanged. }
    assert (Ha1 : accounts (st w1) !! i = Some a) by (by rewrite (health_step_accounts _ _ _ _ _ Hs)).
    wp_step. wp_use (record_strike_spec _ t _ _ Hr1 Ha1) as r w2 (-> & E2 & Ht2).
    rewrite (health_step_health _ _ _ _ _ Hs), (health_step_providers _ _ _ _ _ Hs) in *.
    assert (E2' : health_step i (struck t h) 0 w w2) by (by eapply (health_step_trans _ _ _ 0 0)).
    cbn [fst snd]. destruct (out_of_strikes _ _); [apply ending_pending|apply ending_quarantine]; congruence.
  - apply (reset_then _ _ Hs Ht). intros w2 E2 Ht2. by apply ending_unchanged.
Qed.

(** The account, its state and the verdict after a report, as a function of what they were. *)
Definition live_outcome (provider : UpstreamAuthProvider) (t now : DateTime) (status : OAuthLiveResultStatus)
    (source : OAuthLiveResultSource) (status_code : option Z) (error_code message : option string)
    (a : UpstreamAccount) (h : UpstreamAccountHealthStateRecord) :
    LiveEffect * UpstreamAccount * UpstreamAccountHealthStateRecord :=
  let code := normalize_error_code error_code in
  let h := recorded t status source status_code code (normalize_error_preview message) h in
  let eh := live_effect provider t status code h in
  let ah := enact eh.1 t now a eh.2 in (eh.1, ah.1, ah.2).

Lemma live_result_spec i t status source status_code error_code message w :
  rev_ok (st w) →
  wp (record_upstream_account_live_result_inner i t status source status_code error_code message) (λ r w',
    match accounts (st w) !! i with
    | None => r = Err "upstream account not found" ∧ w' = w
    | Some a =>
        let o := live_outcome (default LegacyBearer (account_auth_providers (st w) !! i)) t (utc (ticks w))
                   status source status_code error_code message a (health_of i (st w)) in
        r = Ok (effect_accepted o.1.1) ∧ account_step i o.1.2 o.2 (effect_bumps o.1.1) w w'
    end) w.
Proof.
  intros Hr. unfold record_upstream_account_live_result_inner.
  wp_step. wp_use contains_account_spec as b w0 [-> ->].
  destruct (accounts (st w) !! i) as [a|] eqn:Ha.
  2: { rewrite bool_decide_eq_false_2 by (intros [? ?]; congruence). by wp_go. }
  rewrite bool_decide_eq_true_2 by eauto. cbn [negb]. cbv zeta. wp_step.
  wp_use (put_live_result_spec _ _ _ _ _ _ _ _ Hr) as [] w1 [E1 Ht1]. wp_step.
  wp_use (apply_live_result_spec _ _ _ _ _ _ _ _ Hr Ha E1 Ht1) as r w2 [-> E2].
  wp_step. wp_use (account_step_bump _ _ _ _ _ _ E2) as [] w3 E3. wp_step.
  split; [done|]. by rewrite Z.sub_add in E3.
Qed.

(** ** Strikes *)

(** Reports of an invalidated token, in the order they arrive. *)
Definition invalidated_reports (i : Uuid) (ts : list DateTime) : SM unit :=
  for_each (λ t, _ ← record_upstream_account_live_result_inner i t LiveFailed SourcePassive (Some 401)
                       (Some "token_invalidated") None; mret tt) ts.

(** After [n] reports since [t0], the last of them at [t]. *)
Definition struck_state (i : Uuid) (provider : UpstreamAuthProvider) (n : Z) (t0 t : DateTime)
    (enabled0 : bool) (s : InMemoryStore) : Prop :=
  let h := health_of i s in
  ∃ a, accounts s !! i = Some a ∧ default LegacyBearer (account_auth_providers s !! i) = provider
  ∧ hs_token_invalidated_strike_count h = n ∧ hs_token_invalidated_first_at h = Some t0
  ∧ if token_invalidated_purge_threshold_for_provider provider <=? n
    then hs_pool_state h = PendingPurge ∧ ua_enabled a = false
    else hs_pool_state h = Quarantine ∧ hs_quarantine_until h = Some (t + minutes 30)
         ∧ ua_enabled a = enabled0.

(** One report, when the strike count reaches [n]. *)
Lemma invalidated_report i a t t0 n w :
  rev_ok (st w) → accounts (st w) !! i = Some a →
  let h := health_of i (st w) in
  let h' := struck t (recorded t LiveFailed SourcePassive (Some 401) (Some "token_invalidated") None h) in
  hs_token_invalidated_strike_count h' = n → hs_token_invalidated_first_at h' = Some t0 →
  wp (record_upstream_account_live_result_inner i t LiveFailed SourcePassive (Some 401)
        (Some "token_invalidated") None)
    (λ _ w', struck_state i (default LegacyBearer (account_auth_providers (st w) !! i)) n t0 t
               (ua_enabled a) (st w') ∧ rev_ok (st w')) w.
Proof.
  intros Hr Ha h h' Hn Hf. wp_use (live_result_spec _ _ _ _ _ _ _ _ Hr) as r w' Hl.
  rewrite Ha in Hl. unfold live_outcome in Hl. cbv zeta in Hl.
  change (normalize_error_code (Some "token_invalidated")) with (Some "token_invalidated") in Hl.
  change (normalize_error_preview None) with (@None string) in Hl.
  cbn [live_effect] in Hl.
  change (String.eqb "token_invalidated" "account_deactivated") with false in Hl.
  change (is_one_of ["rate_limited"; "quota_exhausted"] "token_invalidated") with false in Hl.
  change (String.eqb "token_invalidated" "auth_expired") with false in Hl.
  rewrite String.eqb_refl in Hl. cbv iota in Hl. cbn [fst snd] in Hl. fold h in Hl. fold h' in Hl.
  destruct Hl as (_ & A & S & T & R & _). split.
  2: { unfold rev_ok. rewrite R. apply u64_wrap_bounds. }
  unfold struck_state, health_of. rewrite S, lookup_insert_eq, A, lookup_insert_eq. cbn [default].
  eexists. split; [done|]. rewrite (rest_providers _ _ T).
  unfold out_of_strikes. rewrite Hn.
  destruct (_ <=? n); cbn; rewrite Hn, Hf; done.
Qed.

Lemma struck_more i provider n t0 t e t' w :
  rev_ok (st w) → struck_state i provider n t0 t e (st w) → 1 <= n < u32_max →
  t' <= t0 + from_secs token_invalidated_purge_window_sec_from_env →
  wp (record_upstream_account_live_result_inner i t' LiveFailed SourcePassive (Some 401)
        (Some "token_invalidated") None)
    (λ _ w', struck_state i provider (n + 1) t0 t' e (st w') ∧ rev_ok (st w')) w.
Proof.
  intros Hr (a & Ha & Hp & Hn & Hf & Hst) Hb Ht.
  wp_use (invalidated_report i a t' t0 (n + 1) w Hr Ha) as r w' [Hs Hr'].
  - unfold struck, in_strike_window. cbn. rewrite Hf. cbn. apply Z.leb_le in Ht. rewrite Ht. cbn.
    rewrite Hn. unfold u32_saturating_add. rewrite clamp_id by lia. lia.
  - unfold struck, in_strike_window. cbn. rewrite Hf. cbn. apply Z.leb_le in Ht. rewrite Ht. done.
  - split; [|done]. rewrite Hp in Hs. destruct Hs as (a' & Ha' & Hp' & Hn' & Hf' & Hst').
    exists a'. split_and!; try done.
    destruct (Z.leb_spec (token_invalidated_purge_threshold_for_provider provider) (n + 1)); [done|].
    destruct (Z.leb_spec (token_invalidated_purge_threshold_for_provider provider) n); [lia|].
    destruct Hst as (_ & _ & <-). done.
Qed.

Lemma struck_run i provider n t0 t e ts w :
  rev_ok (st w) → struck_state i provider n t0 t e (st w) → 1 <= n → n + Z.of_nat (length ts) <= u32_max →
  Forall (λ t', t' <= t0 + from_secs token_invalidated_purge_window_sec_from_env) ts →
  wp (invalidated_reports i ts)
    (λ _ w', struck_state i provider (n + Z.of_nat (length ts)) t0 (List.last ts t) e (st w')) w.
Proof.
  revert n t w. induction ts as [|t' ts IH]; intros n t w Hr Hs Hn Hb Hall.
  { cbn. apply wp_ret. by rewrite Z.add_0_r. }
  inversion Hall as [|? ? Ht' Hall']; subst. cbn [length] in *. unfold invalidated_reports. cbn [for_each].
  wp_step. wp_step. wp_use (struck_more _ _ _ _ _ _ t' _ Hr Hs) as ? w1 [E1 Hr1]; [lia|done|].
  wp_step. change (List.last (t' :: ts) t) with (match ts with [] => t' | _ => List.last ts t end).
  assert (List.last ts t' = match ts with [] => t' | _ => List.last ts t end) as <-.
  { destruct ts as [|x ts]; [done|]. clear. revert x. induction ts as [|y ts IH]; intros x; [done|]. apply (IH y). }
  replace (n + Z.of_nat (S (length ts))) with (n + 1 + Z.of_nat (length ts)) by lia.
  apply IH; [done|done|lia|lia|done].
Qed.

(** Reports of an invalidated token within the window of the first escalate:
    below the threshold of the account's provider the account cools down for
    thirty minutes, from the threshold on it is disabled and scheduled for purge. *)
Lemma invalidated_tokens_escalate_aux i a t0 ts w :
  rev_ok (st w) → accounts (st w) !! i = Some a →
  hs_token_invalidated_first_at (health_of i (st w)) = None →
  1 + Z.of_nat (length ts) <= u32_max →
  Forall (λ t, t <= t0 + from_secs token_invalidated_purge_window_sec_from_env) ts →
  wp (invalidated_reports i (t0 :: ts))
    (λ _ w', struck_state i (default LegacyBearer (account_auth_providers (st w) !! i))
               (1 + Z.of_nat (length ts)) t0 (List.last ts t0) (ua_enabled a) (st w')) w.
Proof.
  intros Hr Ha Hf Hb Hall. unfold invalidated_reports. cbn [for_each]. wp_step. wp_step.
  wp_use (invalidated_report i a t0 t0 1 w Hr Ha) as ? w1 [E1 Hr1].
  - unfold struck, in_strike_window. cbn. by rewrite Hf.
  - unfold struck, in_strike_window. cbn. by rewrite Hf.
  - wp_step. by apply struck_run.
Qed.
End facts.
