(* ===== verification/StorePurge.v ===== *)
(** * Facts about the purge of accounts

    Which accounts a purge removes, that it removes every due account when the
    batch is large enough, and that states left behind by expired one-time
    accounts can keep it from removing any. *)
From S2P Require Import Prelude RustStr CoreModel BuiltinTemplates Json Request RoutingCache ControlModel StoreDefs Secrets Credentials Store StoreFacts.

#[local] Open Scope string_scope.
#[local] Open Scope list_scope.
#[local] Open Scope Z_scope.

Lemma bool_decide_ext_if {A} (P Q : Prop) `{Decision P, Decision Q} (x y : A) :
  P ↔ Q → (if bool_decide P then x else y) = (if bool_decide Q then x else y).
Proof. intros HPQ. by rewrite (bool_decide_ext _ _ HPQ). Qed.

Section purge.
Context `{Base64, Aes256Gcm, NonceSource, Digests, UuidSource, WallClock, UuidText, Environment, IdOrder}.

Abbreviation SM := (ST (Timed InMemoryStore)).
Implicit Types (w : Timed InMemoryStore) (s : InMemoryStore).

(** The tables of accounts after the removal of one. *)
Definition removed (i : Uuid) s s' : Prop :=
  accounts s' = delete i (accounts s)
  ∧ account_auth_providers s' = delete i (account_auth_providers s)
  ∧ oauth_credentials s' = delete i (oauth_credentials s)
  ∧ session_profiles s' = delete i (session_profiles s)
  ∧ account_health_states s' = delete i (account_health_states s)
  ∧ oauth_rate_limit_caches s' = delete i (oauth_rate_limit_caches s)
  ∧ account_model_support s' = account_model_support s
  ∧ api_keys s' = api_keys s
  ∧ api_key_tokens s' = api_key_tokens s
  ∧ revision s' = u64_wrap (revision s + 1).

Lemma delete_account_spec i w :
  wp (delete_upstream_account_inner i) (λ r w',
    match accounts (st w) !! i with
    | None => r = Err "upstream account not found" ∧ w' = w
    | Some _ => r = Ok tt ∧ removed i (st w) (st w') ∧ (ticks w ≤ ticks w')%nat
    end) w.
Proof.
  unfold delete_upstream_account_inner, account_auth_provider, emit_account_deleted_inner.
  do 2 wp_step. destruct (accounts (st w) !! i) as [a|] eqn:Ha; [|by wp_step].
  repeat (wp_step || wp_use emit_spec as [] w1 ([A T] & Sh & R & K)).
  unfold bump_revision. wp_step. wp_step. split; [done|].
  apply rest_same in T. split; [|cbn [ticks] in *; lia].
  unfold removed. rproj. rewrite R, A, Sh, (sr_providers _ _ T), (sr_credentials _ _ T),
    (sr_profiles _ _ T), (sr_support _ _ T), (sr_caches _ _ T), (sr_api_keys _ _ T),
    (sr_api_key_tokens _ _ T). rproj. done.
Qed.

(** ** Which accounts are due *)

(** The account is scheduled for purge and its deadline is not ahead. *)
Definition purge_is_due (now : DateTime) s (i : Uuid) : Prop :=
  ∃ h, account_health_states s !! i = Some h ∧ hs_pool_state h = PendingPurge
       ∧ ∀ at_, hs_pending_purge_at h = Some at_ → at_ <= now.

Definition due_items (now : DateTime) s : list due_item :=
  omap (purge_due now) (id_iter (account_health_states s)).
Definition due_id (item : due_item) : Uuid := item.1.1.
Definition due_batch (now : DateTime) (limit : nat) s : list Uuid :=
  due_id <$> take limit (sort_by due_compare (due_items now s)).

Lemma purge_due_Some now i h x :
  purge_due now (i, h) = Some x ↔
  x = (i, hs_pending_purge_at h, hs_last_pool_transition_at h) ∧ hs_pool_state h = PendingPurge
  ∧ ∀ at_, hs_pending_purge_at h = Some at_ → at_ <= now.
Proof.
  unfold purge_due, later_than. destruct (bool_decide_reflect (hs_pool_state h = PendingPurge)) as [Hp|Hp]; cbn [negb].
  2: naive_solver.
  destruct (hs_pending_purge_at h) as [t|]; cbn [from_option]; [destruct (Z.ltb_spec now t)|]; split.
  - done.
  - intros (_ & _ & Hle). specialize (Hle _ eq_refl). lia.
  - intros [= <-]. split_and!; [done|done|]. by intros ? [= <-].
  - by intros [-> _].
  - by intros [= <-].
  - by intros [-> _].
Qed.

Lemma elem_of_due_items now s x :
  x ∈ due_items now s ↔ purge_is_due now s (due_id x) ∧
    x = (due_id x, from_option hs_pending_purge_at None (account_health_states s !! due_id x),
         from_option hs_last_pool_transition_at None (account_health_states s !! due_id x)).
Proof.
  unfold due_items. rewrite list_elem_of_omap. split.
  - intros [[i h] [Hin Hx]]. apply elem_of_id_iter in Hin. apply purge_due_Some in Hx as (-> & Hp & Hle).
    cbn. rewrite Hin. split; [|done]. exists h. done.
  - intros [(h & Hh & Hp & Hle) Hx]. exists (due_id x, h). split; [by apply elem_of_id_iter|].
    apply purge_due_Some. rewrite Hh in Hx. done.
Qed.

Lemma due_ids_NoDup now s : NoDup (due_id <$> due_items now s).
Proof.
  unfold due_items. assert (Hnd := NoDup_id_keys (account_health_states s)). unfold id_keys in Hnd.
  induction (id_iter (account_health_states s)) as [|[i h] l IH]; [constructor|].
  cbn in Hnd. apply list.NoDup_cons in Hnd as [Hni Hnd]. specialize (IH Hnd). cbn [omap list_omap].
  destruct (purge_due now (i, h)) as [x|] eqn:Hx; [|done].
  cbn [fmap list_fmap]. constructor; [|done].
  apply purge_due_Some in Hx as (-> & _). intros Hin. apply Hni.
  apply list_elem_of_fmap in Hin as (y & Hy & Hiny). apply list_elem_of_omap in Hiny as ([j g] & Hj & Hjy).
  apply purge_due_Some in Hjy as (-> & _). cbn in Hy. subst j. apply list_elem_of_fmap. by exists (i, g).
Qed.

Lemma due_batch_NoDup now limit s : NoDup (due_batch now limit s).
Proof.
  unfold due_batch.
  assert (Hnd : NoDup ((due_id <$> take limit (sort_by due_compare (due_items now s)))
                       ++ (due_id <$> drop limit (sort_by due_compare (due_items now s))))).
  { rewrite <- fmap_app, take_drop, sort_by_perm. apply due_ids_NoDup. }
  by apply list.NoDup_app in Hnd as [? _].
Qed.

Lemma due_batch_length now limit s : (length (due_batch now limit s) ≤ limit)%nat.
Proof. unfold due_batch. rewrite length_fmap, length_take. lia. Qed.

Lemma due_batch_due now limit s i : i ∈ due_batch now limit s → purge_is_due now s i.
Proof.
  unfold due_batch. intros (x & -> & Hin)%list_elem_of_fmap.
  apply elem_of_take in Hin as (k & Hk & _). apply list_elem_of_lookup_2 in Hk.
  rewrite elem_of_sort_by in Hk. by apply elem_of_due_items in Hk as [? _].
Qed.

Lemma due_batch_all now limit s i :
  (length (due_items now s) ≤ limit)%nat → purge_is_due now s i → i ∈ due_batch now limit s.
Proof.
  intros Hlen Hdue. unfold due_batch. rewrite take_ge by (by rewrite sort_by_perm).
  destruct Hdue as (h & Hh & Hp & Hle). apply list_elem_of_fmap.
  exists (i, hs_pending_purge_at h, hs_last_pool_transition_at h). split; [done|].
  rewrite elem_of_sort_by. apply elem_of_due_items. cbn. rewrite Hh. split; [|done]. by exists h.
Qed.

(** ** The purge *)

(** The candidates that are accounts. *)
Definition known_ids s (l : list Uuid) : list Uuid :=
  List.filter (λ i, bool_decide (is_Some (accounts s !! i))) l.

(** After the candidates [l] have been deleted from [s]. *)
Definition purged_to (l : list Uuid) s s' : Prop :=
  (∀ j, accounts s' !! j = if bool_decide (j ∈ l) then None else accounts s !! j)
  ∧ (∀ j, account_health_states s' !! j =
          if bool_decide (j ∈ l ∧ is_Some (accounts s !! j)) then None else account_health_states s !! j).

Lemma elem_of_known_ids s l j : j ∈ known_ids s l ↔ j ∈ l ∧ is_Some (accounts s !! j).
Proof.
  unfold known_ids. rewrite !list_elem_of_In, filter_In, bool_decide_eq_true. done.
Qed.

Lemma known_ids_ext s s' l :
  (∀ j, j ∈ l → accounts s' !! j = accounts s !! j) → known_ids s' l = known_ids s l.
Proof.
  induction l as [|x l IH]; intros He; [done|]. unfold known_ids in *. cbn [List.filter].
  rewrite (He x) by set_solver. rewrite IH by (intros; apply He; set_solver). done.
Qed.

Lemma purge_candidates_spec n l w :
  NoDup l → 0 <= n → n + Z.of_nat (length l) <= u64_max →
  wp (purge_candidates n l) (λ m w',
    m = n + Z.of_nat (length (known_ids (st w) l)) ∧ purged_to l (st w) (st w')) w.
Proof.
  revert n w. induction l as [|i l IH]; intros n w Hnd Hn Hb; cbn [purge_candidates].
  { wp_step. cbn. split; [lia|]. split; intros j; rewrite bool_decide_eq_false_2; set_solver. }
  apply list.NoDup_cons in Hnd as [Hni Hnd]. cbn [length] in Hb.
  wp_step. wp_use delete_account_spec as r w1 Hd.
  destruct (accounts (st w) !! i) as [a|] eqn:Ha.
  - destruct Hd as (-> & (Da & _ & _ & _ & Dh & _) & _). cbn [is_ok].
    unfold u64_saturating_add. rewrite clamp_id by (unfold u64_max in *; lia).
    wp_use (IH (n + 1) w1 Hnd) as m w2 [-> [P1 P2]]; [lia|lia|].
    rewrite (known_ids_ext (st w) (st w1)).
    2: { intros j Hj. rewrite Da, lookup_delete_ne; [done|]. intros ->. done. }
    split.
    + unfold known_ids. cbn [List.filter]. rewrite Ha, bool_decide_eq_true_2 by eauto. cbn [length]. lia.
    + split; intros j.
      * rewrite P1, Da. destruct (decide (j = i)) as [->|Hji].
        { rewrite lookup_delete_eq, (bool_decide_eq_true_2 (i ∈ i :: l)) by set_solver. by destruct (bool_decide _). }
        rewrite lookup_delete_ne by done. apply bool_decide_ext_if. set_solver.
      * rewrite P2, Da, Dh. destruct (decide (j = i)) as [->|Hji].
        { rewrite !lookup_delete_eq, (bool_decide_eq_true_2 (i ∈ i :: l ∧ _)) by (rewrite Ha; set_solver).
          by destruct (bool_decide _). }
        rewrite !lookup_delete_ne by done. apply bool_decide_ext_if. set_solver.
  - destruct Hd as (-> & ->). cbn [is_ok].
    wp_use (IH n w Hnd) as m w2 [-> [P1 P2]]; [lia|lia|]. split.
    + unfold known_ids. cbn [List.filter]. rewrite Ha, bool_decide_eq_false_2 by (intros [? ?]; done). done.
    + split; intros j.
      * rewrite P1. destruct (decide (j = i)) as [->|Hji].
        { rewrite Ha. by do 2 destruct (bool_decide _). }
        apply bool_decide_ext_if. set_solver.
      * rewrite P2. destruct (decide (j = i)) as [->|Hji].
        { rewrite !bool_decide_eq_false_2; [done|rewrite Ha; intros [_ [? ?]]; done..]. }
        apply bool_decide_ext_if. set_solver.
Qed.

Definition purge_batch : nat := Z.to_nat pending_purge_batch_size_from_env.

Lemma purge_batch_bounds : (1 ≤ purge_batch ≤ 5000)%nat.
Proof.
  unfold purge_batch, pending_purge_batch_size_from_env, env_usize, env_clamped.
  match goal with |- context [clamp ?l ?h ?z] => pose proof (clamp_bounds l h z ltac:(lia)) end. lia.
Qed.

(** A purge runs over the first [purge_batch] due entries. *)
Lemma purge_spec w :
  let now := utc (ticks w) in
  let batch := due_batch now purge_batch (st w) in
  wp purge_pending_upstream_accounts_inner (λ r w',
    r = Ok (Z.of_nat (length (known_ids (st w) batch))) ∧ purged_to batch (st w) (st w')) w.
Proof.
  intros now batch. unfold purge_pending_upstream_accounts_inner, pending_purge_due_account_ids_inner.
  do 5 wp_step. wp_step. wp_step.
  match goal with |- wp (purge_candidates 0 ?l) _ _ => change l with batch end.
  pose proof purge_batch_bounds. pose proof (due_batch_length now purge_batch (st w)) as Hlen.
  change (length batch ≤ purge_batch)%nat in Hlen.
  wp_use purge_candidates_spec as m w1 [-> Hp]; [apply due_batch_NoDup|done|unfold u64_max; lia|].
  cbn [st] in Hp. wp_step.
  eapply (wp_mono _ (λ _ w2, purged_to batch (st w) (st w2))).
  - destruct (0 <? _); [|by wp_step]. wp_use emit_spec as [] w2 ([A T] & Sh & _).
    unfold purged_to in *. by rewrite A, Sh.
  - intros [] w2 E2. by wp_step.
Qed.

Lemma purge_removes_due w :
  let now := utc (ticks w) in
  wp purge_pending_upstream_accounts_inner (λ r w',
    ∃ gone, NoDup gone ∧ r = Ok (Z.of_nat (length gone)) ∧ (length gone ≤ purge_batch)%nat
    ∧ (∀ j, j ∈ gone → is_Some (accounts (st w) !! j) ∧ purge_is_due now (st w) j
                       ∧ accounts (st w') !! j = None)
    ∧ (∀ j, j ∉ gone → accounts (st w') !! j = accounts (st w) !! j
                       ∧ account_health_states (st w') !! j = account_health_states (st w) !! j)
    ∧ ((length (due_items now (st w)) ≤ purge_batch)%nat →
       ∀ j, is_Some (accounts (st w) !! j) → purge_is_due now (st w) j → j ∈ gone)) w.
Proof.
  intros now. wp_use purge_spec as r w' [-> [P1 P2]]. fold now in P1, P2.
  exists (known_ids (st w) (due_batch now purge_batch (st w))). split_and!.
  - unfold known_ids. apply NoDup_ListNoDup, NoDup_filter, NoDup_ListNoDup, due_batch_NoDup.
  - done.
  - pose proof (due_batch_length now purge_batch (st w)). unfold known_ids.
    pose proof (filter_length_le (λ i, bool_decide (is_Some (accounts (st w) !! i)))
                  (due_batch now purge_batch (st w))). lia.
  - intros j [Hj Ha]%elem_of_known_ids. split_and!; [done|by eapply due_batch_due|].
    rewrite P1. by rewrite bool_decide_eq_true_2.
  - intros j Hj. rewrite elem_of_known_ids in Hj. split.
    + rewrite P1. destruct (bool_decide_reflect (j ∈ due_batch now purge_batch (st w))); [|done].
      destruct (accounts (st w) !! j) eqn:Ha; [|done]. exfalso. apply Hj. eauto.
    + rewrite P2. by rewrite bool_decide_eq_false_2.
  - intros Hlen j Ha Hdue. apply elem_of_known_ids. split; [|done]. by apply due_batch_all.
Qed.

(** ** States without an account *)

(** When the oldest due entries belong to no account, the purge removes nothing
    and leaves the tables as they are, so it does so the next time too. *)
Lemma orphans_block_purge w :
  (∀ i, i ∈ due_batch (utc (ticks w)) purge_batch (st w) → accounts (st w) !! i = None) →
  wp purge_pending_upstream_accounts_inner (λ r w',
    r = Ok 0 ∧ accounts (st w') = accounts (st w)
    ∧ account_health_states (st w') = account_health_states (st w)) w.
Proof.
  intros Ho. wp_use purge_spec as r w' [-> [P1 P2]].
  assert (Hk : known_ids (st w) (due_batch (utc (ticks w)) purge_batch (st w)) = []).
  { apply elem_of_nil_inv. intros x [Hx [a Ha]]%elem_of_known_ids. rewrite Ho in Ha; done. }
  rewrite Hk. split_and!; [done|apply map_eq; intros j..].
  - rewrite P1. destruct (bool_decide_reflect (j ∈ due_batch (utc (ticks w)) purge_batch (st w))); [|done].
    symmetry. by apply Ho.
  - rewrite P2, bool_decide_eq_false_2; [done|]. intros [Hj [a Ha]]. rewrite Ho in Ha; done.
Qed.
End purge.
