(* ===== verification/StoreInv.v ===== *)
(** * Invariant of the store

    The operations of the store as one type, the invariant of the account and key
    tables, and the proof that every operation keeps it. *)
From S2P Require Import Prelude RustStr CoreModel BuiltinTemplates Json Request RoutingCache ControlModel StoreDefs Secrets Credentials Store StoreConfig StoreSnapshot Kept StoreFacts StorePurge.

#[local] Open Scope string_scope.
#[local] Open Scope list_scope.
#[local] Open Scope Z_scope.

(** ** Operations *)

(** A call of a method, with its arguments. *)
Inductive StoreOp :=
  | CreateTenant (req : CreateTenantRequest)
  | CreateApiKey (req : CreateApiKeyRequest)
  | SetApiKeyEnabled (api_key_id : Uuid) (enabled : bool)
  | ValidateApiKey (token : string)
  | CreateProxyNode (req : CreateOutboundProxyNodeRequest)
  | UpdateProxyNode (node_id : Uuid) (req : UpdateOutboundProxyNodeRequest)
  | DeleteProxyNode (node_id : Uuid)
  | RecordProxyTest (node_id : Uuid) (status : option string) (latency : option Z) (error : option string)
      (tested_at : option DateTime)
  | CreateAccount (req : CreateUpstreamAccountRequest)
  | ListAccounts
  | SetAccountEnabled (account_id : Uuid) (enabled : bool)
  | DeleteAccount (account_id : Uuid)
  | MarkPendingPurge (account_id : Uuid) (reason : option string)
  | PurgePending
  | LiveResult (account_id : Uuid) (reported_at : DateTime) (status : OAuthLiveResultStatus)
      (source : OAuthLiveResultSource) (status_code : option Z) (error_code message : option string)
  | SeenOk (account_id : Uuid) (seen_ok_at : DateTime) (min_write_interval_sec : Z)
  | ReadPoolState (account_id : Uuid)
  | UpsertPolicy (req : UpsertRoutingPolicyRequest)
  | UpsertRetry (req : UpsertRetryPolicyRequest)
  | UpsertStreamRetry (req : UpsertStreamRetryPolicyRequest)
  | UpdateProxySettings (req : UpdateOutboundProxyPoolSettingsRequest)
  | UpdateModelSettings (req : UpdateModelRoutingSettingsRequest)
  | UpdateClaudeSettings (req : UpdateClaudeCodeRoutingSettingsRequest)
  | UpdateLearningSettings (req : UpdateAiErrorLearningSettingsRequest)
  | UpsertProfile (req : UpsertRoutingProfileRequest)
  | DeleteProfile (profile_id : Uuid)
  | UpsertModelPolicy (req : UpsertModelRoutingPolicyRequest)
  | DeleteModelPolicy (policy_id : Uuid)
  | SaveTemplate (template : UpstreamErrorTemplateRecord)
  | SaveOverride (record : BuiltinErrorTemplateOverrideRecord)
  | DeleteOverride (kind : BuiltinErrorTemplateKind) (code : string)
  | RecordModelSupport (account_id : Uuid) (supported_models : list string)
  | RecoverJobs
  | SetFamilyEnabled (account_id : Uuid) (enabled : bool)
  | PurgeFamily (family_id : string) (reason : option string)
  | TakeSnapshot.

(** Run a computation for its effect. *)
Definition effect {S A} (m : ST S A) : ST S unit := _ ← m; mret tt.

Section ops.
Context `{Base64, Aes256Gcm, NonceSource, Digests, UuidSource, WallClock, UuidText, Environment, IdOrder}.
Context `{UrlFragment} (hasher : ApiKeyTokenHasher).

Abbreviation SM := (ST (Timed InMemoryStore)).
Implicit Types (w : Timed InMemoryStore) (s : InMemoryStore).

Definition run_op (op : StoreOp) : SM unit :=
  match op with
  | CreateTenant req => effect (create_tenant_inner req)
  | CreateApiKey req => effect (create_api_key_inner hasher req)
  | SetApiKeyEnabled i b => effect (set_api_key_enabled_inner i b)
  | ValidateApiKey token => effect (validate_api_key_inner hasher token)
  | CreateProxyNode req => effect (create_outbound_proxy_node_inner req)
  | UpdateProxyNode i req => effect (update_outbound_proxy_node_inner i req)
  | DeleteProxyNode i => effect (delete_outbound_proxy_node_inner i)
  | RecordProxyTest i a b c d => effect (record_outbound_proxy_test_result_inner i a b c d)
  | CreateAccount req => effect (create_upstream_account_inner req)
  | ListAccounts => effect list_upstream_accounts_inner
  | SetAccountEnabled i b => effect (set_upstream_account_enabled_inner i b)
  | DeleteAccount i => effect (delete_upstream_account_inner i)
  | MarkPendingPurge i reason => effect (mark_upstream_account_pending_purge_inner i reason)
  | PurgePending => effect purge_pending_upstream_accounts_inner
  | LiveResult i t st src c e m => effect (record_upstream_account_live_result_inner i t st src c e m)
  | SeenOk i t n => effect (mark_account_seen_ok_inner i t n)
  | ReadPoolState i => effect (account_pool_state_record_inner i)
  | UpsertPolicy req => effect (upsert_routing_policy_inner req)
  | UpsertRetry req => effect (upsert_retry_policy_inner req)
  | UpsertStreamRetry req => effect (upsert_stream_retry_policy_inner req)
  | UpdateProxySettings req => effect (update_outbound_proxy_pool_settings req)
  | UpdateModelSettings req => effect (update_model_routing_settings req)
  | UpdateClaudeSettings req => effect (update_claude_code_routing_settings req)
  | UpdateLearningSettings req => effect (update_upstream_error_learning_settings req)
  | UpsertProfile req => effect (upsert_routing_profile req)
  | DeleteProfile i => effect (delete_routing_profile i)
  | UpsertModelPolicy req => effect (upsert_model_routing_policy req)
  | DeleteModelPolicy i => effect (delete_model_routing_policy i)
  | SaveTemplate t => effect (save_upstream_error_template t)
  | SaveOverride r => effect (save_builtin_error_template_override r)
  | DeleteOverride k c => effect (delete_builtin_error_template_override k c)
  | RecordModelSupport i l => effect (record_account_model_support i l)
  | RecoverJobs => effect recover_oauth_rate_limit_refresh_jobs
  | SetFamilyEnabled i b => effect (set_oauth_family_enabled_inner i b)
  | PurgeFamily f reason => mark_oauth_family_pending_purge_inner f reason
  | TakeSnapshot => effect snapshot_inner
  end.

(** ** The invariant *)

(** Fields of an account's state that agree with each other. *)
Definition pool_ok (h : UpstreamAccountHealthStateRecord) : Prop :=
  match hs_pool_state h with
  | Active => hs_quarantine_until h = None ∧ hs_quarantine_reason h = None
              ∧ hs_pending_purge_at h = None ∧ hs_pending_purge_reason h = None
  | Quarantine => hs_pending_purge_at h = None ∧ hs_pending_purge_reason h = None
  | PendingPurge => hs_quarantine_until h = None ∧ hs_quarantine_reason h = None
                    ∧ is_Some (hs_pending_purge_at h)
  end
  ∧ (hs_token_invalidated_strike_count h = 0 ↔ hs_token_invalidated_first_at h = None)
  ∧ 0 <= hs_token_invalidated_strike_count h <= u32_max.

(** An identifier the run has drawn. *)
Definition issued w (i : Uuid) : Prop := ∃ k, (k < ticks w)%nat ∧ i = uuid_v4 k.

(** The invariant has one clause that is asked for only when it is [strict]: an account
    that waits to be purged is disabled. The calls of [StoreOp] keep it; an import that
    finds such an account enables it (see [OAuthInv]). *)
Context {strict : bool}.

Record table_inv w : Prop := mkTableInv {
  si_revision : rev_ok (st w);
  si_keyed : ∀ i a, accounts (st w) !! i = Some a → ua_id a = i;
  si_providers : ∀ i, is_Some (account_auth_providers (st w) !! i) ↔ is_Some (accounts (st w) !! i);
  si_credentials : ∀ i, is_Some (oauth_credentials (st w) !! i) → is_Some (accounts (st w) !! i);
  si_profiles : ∀ i, is_Some (session_profiles (st w) !! i) → is_Some (accounts (st w) !! i);
  si_pool : ∀ i h, account_health_states (st w) !! i = Some h → pool_ok h;
  si_doomed : strict = true → ∀ i h a, account_health_states (st w) !! i = Some h → hs_pool_state h = PendingPurge →
                accounts (st w) !! i = Some a → ua_enabled a = false;
  si_doomed_issued : ∀ i h, account_health_states (st w) !! i = Some h → hs_pool_state h = PendingPurge →
                issued w i;
  si_issued : ∀ i, is_Some (accounts (st w) !! i) → issued w i;
  si_keys : ∀ i k, api_keys (st w) !! i = Some k → ak_id k = i ∧ issued w i;
  si_tokens : ∀ x i, api_key_tokens (st w) !! x = Some i →
                ∃ k, api_keys (st w) !! i = Some k ∧ ak_key_hash k = x;
}.

Abbreviation store_inv := table_inv.

Abbreviation keeps_inv := (kept store_inv).

Lemma issued_mono w w' i : (ticks w ≤ ticks w')%nat → issued w i → issued w' i.
Proof. intros Hle (k & Hk & ->). exists k. split; [lia|done]. Qed.

Lemma effect_keeps {A} (m : SM A) : keeps_inv m → keeps_inv (effect m).
Proof. intros Hm w Hw. unfold effect. wp_step. wp_use (Hm w Hw) as a w' Hw'. by wp_step. Qed.

(** The tables of the invariant. *)
Definition acct_tables s :=
  (accounts s, account_auth_providers s, oauth_credentials s, session_profiles s, account_health_states s,
   api_keys s, api_key_tokens s).

(** A method that leaves these tables as they were keeps the invariant. *)
Lemma frame_inv w w' :
  store_inv w → acct_tables (st w') = acct_tables (st w) → rev_ok (st w') → (ticks w ≤ ticks w')%nat →
  store_inv w'.
Proof.
  intros [] Ht Hr Hk. unfold acct_tables in Ht. injection Ht as Ea Ep Ec Es Eh Ek Et.
  split; rewrite ?Ea, ?Ep, ?Ec, ?Es, ?Eh, ?Ek, ?Et; try done; eauto using issued_mono.
  intros i k Hi. destruct (si_keys0 i k Hi). eauto using issued_mono.
Qed.

Lemma rev_ok_wrap s n : revision s = u64_wrap n → rev_ok s.
Proof. unfold rev_ok. intros ->. apply u64_wrap_bounds. Qed.
End ops.

(** Close a goal of a method that does not touch the tables of the invariant. *)
Ltac frame_op :=
  intros w Hw; unfold bump_revision; wp_go;
  (eapply frame_inv; [exact Hw|reflexivity| |cbn [ticks]; lia]);
  first [exact (si_revision _ Hw) | exact (u64_wrap_bounds _)].

Section frames.
Context `{Base64, Aes256Gcm, NonceSource, Digests, UuidSource, WallClock, UuidText, Environment, IdOrder}.
Context {strict : bool}.
Abbreviation store_inv := (table_inv (strict:=strict)).
Abbreviation keeps_inv := (kept store_inv).
Context `{UrlFragment} (hasher : ApiKeyTokenHasher).

Lemma tenant_keeps req : keeps_inv (create_tenant_inner req).
Proof. unfold create_tenant_inner. frame_op. Qed.
Lemma validate_keeps t : keeps_inv (validate_api_key_inner hasher t).
Proof. unfold validate_api_key_inner. frame_op. Qed.
Lemma create_node_keeps req : keeps_inv (create_outbound_proxy_node_inner req).
Proof. unfold create_outbound_proxy_node_inner. frame_op. Qed.
Lemma update_node_keeps i req : keeps_inv (update_outbound_proxy_node_inner i req).
Proof. unfold update_outbound_proxy_node_inner. frame_op. Qed.
Lemma delete_node_keeps i : keeps_inv (delete_outbound_proxy_node_inner i).
Proof. unfold delete_outbound_proxy_node_inner. frame_op. Qed.
Lemma proxy_test_keeps i a b c d : keeps_inv (record_outbound_proxy_test_result_inner i a b c d).
Proof. unfold record_outbound_proxy_test_result_inner. frame_op. Qed.
Lemma policy_keeps req : keeps_inv (upsert_routing_policy_inner req).
Proof. unfold upsert_routing_policy_inner. frame_op. Qed.
Lemma retry_keeps req : keeps_inv (upsert_retry_policy_inner req).
Proof. unfold upsert_retry_policy_inner. frame_op. Qed.
Lemma stream_retry_keeps req : keeps_inv (upsert_stream_retry_policy_inner req).
Proof. unfold upsert_stream_retry_policy_inner. frame_op. Qed.
Lemma proxy_settings_keeps req : keeps_inv (update_outbound_proxy_pool_settings req).
Proof. unfold update_outbound_proxy_pool_settings. frame_op. Qed.
Lemma model_settings_keeps req : keeps_inv (update_model_routing_settings req).
Proof. unfold update_model_routing_settings. frame_op. Qed.
Lemma claude_settings_keeps req : keeps_inv (update_claude_code_routing_settings req).
Proof. unfold update_claude_code_routing_settings. frame_op. Qed.
Lemma learning_settings_keeps req : keeps_inv (update_upstream_error_learning_settings req).
Proof. unfold update_upstream_error_learning_settings. frame_op. Qed.
Lemma upsert_profile_keeps req : keeps_inv (upsert_routing_profile req).
Proof. unfold upsert_routing_profile, given_or_new. frame_op. Qed.
Lemma delete_profile_keeps i : keeps_inv (delete_routing_profile i).
Proof. unfold delete_routing_profile. frame_op. Qed.
Lemma upsert_model_policy_keeps req : keeps_inv (upsert_model_routing_policy req).
Proof. unfold upsert_model_routing_policy, given_or_new. frame_op. Qed.
Lemma delete_model_policy_keeps i : keeps_inv (delete_model_routing_policy i).
Proof. unfold delete_model_routing_policy. frame_op. Qed.
Lemma save_template_keeps t : keeps_inv (save_upstream_error_template t).
Proof. unfold save_upstream_error_template. frame_op. Qed.
Lemma save_override_keeps r : keeps_inv (save_builtin_error_template_override r).
Proof. unfold save_builtin_error_template_override. frame_op. Qed.
Lemma delete_override_keeps k c : keeps_inv (delete_builtin_error_template_override k c).
Proof. unfold delete_builtin_error_template_override. frame_op. Qed.
Lemma model_support_keeps i l : keeps_inv (record_account_model_support i l).
Proof. unfold record_account_model_support. frame_op. Qed.
Lemma recover_jobs_keeps : keeps_inv recover_oauth_rate_limit_refresh_jobs.
Proof. unfold recover_oauth_rate_limit_refresh_jobs. frame_op. Qed.
End frames.

(** ** States of accounts that are well formed *)
Section pool.
Context `{Base64, Aes256Gcm, NonceSource, Digests, UuidSource, WallClock, UuidText, Environment, IdOrder}.
Context {strict : bool}.
Abbreviation store_inv := (table_inv (strict:=strict)).
Abbreviation keeps_inv := (kept store_inv).
Implicit Types (w : Timed InMemoryStore) (h : UpstreamAccountHealthStateRecord).

Lemma pool_ok_default : pool_ok UpstreamAccountHealthStateRecord_default.
Proof. unfold pool_ok, u32_max. cbn. split_and!; try done; lia. Qed.

Lemma health_pool_ok w i : store_inv w → pool_ok (health_of i (st w)).
Proof.
  intros Hw. unfold health_of. destruct (account_health_states (st w) !! i) as [h|] eqn:Hh; cbn.
  - by apply (si_pool _ Hw i).
  - apply pool_ok_default.
Qed.

Lemma pool_ok_active t h : pool_ok h → pool_ok (to_active t h).
Proof. by intros (_ & ? & ?). Qed.
Lemma pool_ok_quarantine t u r h : pool_ok h → pool_ok (to_quarantine t u r h).
Proof. by intros (_ & ? & ?). Qed.
Lemma pool_ok_pending t r h : pool_ok h → pool_ok (to_pending t r h).
Proof. intros (_ & Hs & Hb). split; [|by split]. cbn. eauto. Qed.
Lemma pool_ok_no_strikes h : pool_ok h → pool_ok (no_strikes h).
Proof. intros (? & _ & _). unfold pool_ok, u32_max. cbn. split_and!; try done; lia. Qed.
Lemma pool_ok_recorded t s src c e m h : pool_ok h → pool_ok (recorded t s src c e m h).
Proof. done. Qed.
Lemma pool_ok_seen_at t h : pool_ok h → pool_ok (h <| hs_seen_ok_at := t |>).
Proof. done. Qed.
Lemma pool_ok_seen t h : pool_ok h → pool_ok (seen t h).
Proof. intros. unfold seen. destruct (from_option _ _ _); [done|]. by apply pool_ok_no_strikes, pool_ok_seen_at. Qed.
Lemma pool_ok_struck t h : pool_ok h → pool_ok (struck t h).
Proof.
  intros (Hf & Hs & Hb). unfold struck. destruct (in_strike_window t h) eqn:Hw.
  - assert (hs_token_invalidated_first_at h ≠ None).
    { unfold in_strike_window in Hw. by destruct (hs_token_invalidated_first_at h). }
    unfold pool_ok. cbn. split; [done|]. unfold u32_saturating_add.
    pose proof (clamp_bounds 0 u32_max (hs_token_invalidated_strike_count h + 1)) as Hc.
    split; [split; [lia|done]|]. unfold u32_max in *. lia.
  - unfold pool_ok, u32_max. cbn. split_and!; try done; lia.
Qed.
End pool.

Create HintDb pool.
#[export] Hint Resolve pool_ok_active pool_ok_quarantine pool_ok_pending pool_ok_no_strikes pool_ok_recorded pool_ok_seen pool_ok_struck health_pool_ok : pool.

Section steps.
Context `{Base64, Aes256Gcm, NonceSource, Digests, UuidSource, WallClock, UuidText, Environment, IdOrder}.
Context {strict : bool}.
Abbreviation store_inv := (table_inv (strict:=strict)).
Abbreviation keeps_inv := (kept store_inv).
Implicit Types (w : Timed InMemoryStore) (h : UpstreamAccountHealthStateRecord).

(** A step on a known account keeps the invariant when its new record and state
    are well formed, and disabled if the state is doomed. *)
Lemma account_step_inv i a0 a h n w w' :
  store_inv w → accounts (st w) !! i = Some a0 → ua_id a = i → pool_ok h →
  (strict = true → hs_pool_state h = PendingPurge → ua_enabled a = false) →
  account_step i a h n w w' → store_inv w'.
Proof.
  intros Hw Ha Hid Hok Hd (A & S & T & R & K). apply rest_same in T.
  assert (Hacc : ∀ j, is_Some (accounts (st w') !! j) ↔ is_Some (accounts (st w) !! j)).
  { intros j. rewrite A. destruct (decide (j = i)) as [->|]; [rewrite lookup_insert_eq, Ha; split; eauto|].
    by rewrite lookup_insert_ne. }
  assert (Hiss : issued w' i) by (eapply issued_mono, si_issued; eauto).
  destruct Hw. split.
  - eapply rev_ok_wrap, R.
  - intros j b. rewrite A. intros [[-> <-]|[? ?]]%lookup_insert_Some; eauto.
  - intros j. rewrite (sr_providers _ _ T), Hacc. done.
  - intros j. rewrite (sr_credentials _ _ T), Hacc. eauto.
  - intros j. rewrite (sr_profiles _ _ T), Hacc. eauto.
  - intros j g. rewrite S. intros [[-> <-]|[? ?]]%lookup_insert_Some; eauto.
  - intros Hst j g b. rewrite S, A. intros [[-> <-]|[? Hg]]%lookup_insert_Some Hp.
    + rewrite lookup_insert_eq. intros [= <-]. auto.
    + rewrite lookup_insert_ne by done. eauto.
  - intros j g. rewrite S. intros [[-> <-]|[? Hg]]%lookup_insert_Some Hp; eauto using issued_mono.
  - intros j. rewrite Hacc. eauto using issued_mono.
  - intros j k. rewrite (sr_api_keys _ _ T). intros Hk. destruct (si_keys0 j k Hk). eauto using issued_mono.
  - intros x j. rewrite (sr_api_key_tokens _ _ T), (sr_api_keys _ _ T). eauto.
Qed.

(** A step on the state of any identifier, when it does not doom the account. *)
Lemma health_step_inv i h n w w' :
  store_inv w → pool_ok h →
  (hs_pool_state h = PendingPurge → hs_pool_state (health_of i (st w)) = PendingPurge) →
  health_step i h n w w' → store_inv w'.
Proof.
  intros Hw Hok Hd ([A T] & S & R & K). apply rest_same in T. unfold health_set in S.
  assert (Hold : hs_pool_state h = PendingPurge →
                 ∃ g, account_health_states (st w) !! i = Some g ∧ hs_pool_state g = PendingPurge).
  { intros Hp. specialize (Hd Hp). unfold health_of in Hd.
    destruct (account_health_states (st w) !! i) as [g|]; [by exists g|done]. }
  destruct Hw. split; rewrite ?A, ?(sr_providers _ _ T), ?(sr_credentials _ _ T), ?(sr_profiles _ _ T),
    ?(sr_api_keys _ _ T), ?(sr_api_key_tokens _ _ T); eauto using issued_mono.
  - eapply rev_ok_wrap, R.
  - intros j g. rewrite S. intros [[-> <-]|[? ?]]%lookup_insert_Some; eauto.
  - intros Hst j g b. rewrite S. intros [[-> <-]|[? ?]]%lookup_insert_Some Hp; [|eauto].
    destruct (Hold Hp) as (g & Hg & Hpg). eauto.
  - intros j g. rewrite S. intros [[-> <-]|[? ?]]%lookup_insert_Some Hp; [|eauto using issued_mono].
    destruct (Hold Hp) as (g & Hg & Hpg). eauto using issued_mono.
  - intros j k Hk. destruct (si_keys0 j k Hk). eauto using issued_mono.
Qed.

Lemma live_result_keeps i t status src c e m :
  keeps_inv (record_upstream_account_live_result_inner i t status src c e m).
Proof.
  intros w Hw. wp_use (live_result_spec _ _ _ _ _ _ _ _ (si_revision _ Hw)) as r w' Hl.
  destruct (accounts (st w) !! i) as [a|] eqn:Ha; [|by destruct Hl as [_ ->]].
  destruct Hl as [_ Hs]. unfold live_outcome in Hs. cbn [fst snd] in Hs.
  set (h := recorded _ _ _ _ _ _ _) in Hs.
  assert (Hok : pool_ok h) by (subst h; apply pool_ok_recorded; exact (health_pool_ok w i Hw)).
  assert (Hid := si_keyed _ Hw _ _ Ha).
  assert (Hdis : strict = true → hs_pool_state h = PendingPurge → ua_enabled a = false).
  { intros Hst. subst h. change (hs_pool_state (recorded t status src c (normalize_error_code e) (normalize_error_preview m)
      (health_of i (st w)))) with (hs_pool_state (health_of i (st w))). unfold health_of.
    destruct (account_health_states (st w) !! i) as [g|] eqn:Hg; cbn; [|done].
    intros Hp. by eapply (si_doomed _ Hw Hst). }
  eapply account_step_inv; [exact Hw|exact Ha|..|exact Hs]; clear Hs.
  all: unfold live_effect; destruct status; [|destruct (normalize_error_code e) as [code|]].
  all: repeat match goal with |- context [if ?b then _ else _] => destruct b end; cbn [enact fst snd].
  all: first [exact Hid | solve [auto 6 with pool] | exact Hdis | solve [intros _ _; reflexivity]
             | intros _ Hp; discriminate Hp].
Qed.

(** ** Keys *)

Lemma set_key_enabled_keeps i b : keeps_inv (set_api_key_enabled_inner i b).
Proof.
  intros w Hw. unfold set_api_key_enabled_inner. do 2 wp_step.
  destruct (api_keys (st w) !! i) as [k|] eqn:Hk; [|by wp_step].
  wp_go. destruct Hw. split; rproj; try done.
  - intros j k'. intros [[-> <-]|[? ?]]%lookup_insert_Some; [|eauto].
    apply (si_keys0 _ _ Hk).
  - intros x j Hx. destruct (si_tokens0 x j Hx) as (k' & Hk' & Hx'). destruct (decide (j = i)) as [->|Hne].
    + rewrite lookup_insert_eq. eexists. split; [done|]. by simplify_eq.
    + rewrite lookup_insert_ne by done. eauto.
Qed.

Context `{!Inj (=) (=) uuid_v4}.

(** A fresh identifier is not one that was issued before. *)
Lemma fresh_not_issued w n i : (ticks w ≤ n)%nat → issued w i → uuid_v4 n ≠ i.
Proof. intros Hle (k & Hk & ->) He. apply (inj uuid_v4) in He. lia. Qed.

Lemma create_key_keeps hasher req : keeps_inv (create_api_key_inner hasher req).
Proof.
  intros w Hw. unfold create_api_key_inner. wp_go. cbn [st ticks].
  set (i := uuid_v4 (S (ticks w))). set (k := mkApiKey _ _ _ _ _ _ _).
  assert (Hnew : api_keys (st w) !! i = None).
  { destruct (api_keys (st w) !! i) as [k'|] eqn:Hk; [|done]. destruct (si_keys _ Hw _ _ Hk) as [_ Hi].
    exfalso. by apply (fresh_not_issued w (S (ticks w)) i) in Hi; [|lia]. }
  assert (Hle : (ticks w ≤ S (S (S (ticks w))))%nat) by lia.
  destruct Hw. split; rproj; try done.
  - intros j h Hj Hp. eapply (issued_mono w); [done|eauto].
  - intros j Hj. eapply (issued_mono w); [done|eauto].
  - intros j k'. intros [[<- <-]|[? Hk]]%lookup_insert_Some.
    + split; [done|]. exists (S (ticks w)). split; [cbn; lia|done].
    + destruct (si_keys0 _ _ Hk). split; [done|]. by eapply (issued_mono w).
  - intros x j. intros [[<- <-]|[? Hx]]%lookup_insert_Some.
    + exists k. by rewrite lookup_insert_eq.
    + destruct (si_tokens0 _ _ Hx) as (k' & Hk' & <-). exists k'.
      rewrite lookup_insert_ne; [done|]. intros ->. congruence.
Qed.

(** ** Accounts *)

Lemma create_account_keeps `{UrlFragment} req : keeps_inv (create_upstream_account_inner req).
Proof.
  intros w Hw. unfold create_upstream_account_inner, bump_revision. wp_go. cbn [st ticks].
  set (i := uuid_v4 (ticks w)). set (a := mkUpstreamAccount _ _ _ _ _ _ _ _ _).
  assert (Hnew : ∀ j, issued w j → i ≠ j) by (intros j; apply fresh_not_issued; lia).
  assert (Hle : (ticks w ≤ S (S (ticks w)))%nat) by lia.
  destruct Hw. split; rproj.
  - apply u64_wrap_bounds.
  - intros j b. intros [[<- <-]|[? ?]]%lookup_insert_Some; [done|eauto].
  - intros j. rewrite !lookup_insert_is_Some. naive_solver.
  - intros j Hj. rewrite lookup_insert_is_Some. destruct (decide (i = j)); [by left|right]. eauto.
  - intros j Hj. rewrite lookup_insert_is_Some. destruct (decide (i = j)); [by left|right]. eauto.
  - eauto.
  - intros Hst j h b Hj Hp. intros [[<- <-]|[? ?]]%lookup_insert_Some; [|eauto].
    exfalso. by apply (Hnew i); [eauto|].
  - intros j h Hj Hp. eapply (issued_mono w); [done|eauto].
  - intros j [<-|[? ?]]%lookup_insert_is_Some.
    + exists (ticks w). split; [cbn; lia|done].
    + eapply (issued_mono w); [done|eauto].
  - intros j k Hk. destruct (si_keys0 _ _ Hk). split; [done|]. by eapply (issued_mono w).
  - eauto.
Qed.

Lemma removed_inv i w w' :
  store_inv w → removed i (st w) (st w') → (ticks w ≤ ticks w')%nat → store_inv w'.
Proof.
  intros [] (A & P & C & S & Hh & _ & _ & Ek & Et & R) K.
  assert (Hd : ∀ {V} (m : gmap Uuid V) j, is_Some (delete i m !! j) ↔ j ≠ i ∧ is_Some (m !! j)).
  { intros V m j. destruct (decide (j = i)) as [->|]; [rewrite lookup_delete_eq|rewrite lookup_delete_ne by done];
      naive_solver. }
  split; rewrite ?A, ?P, ?C, ?S, ?Hh, ?Ek, ?Et.
  - eapply rev_ok_wrap, R.
  - intros j b [? ?]%lookup_delete_Some. eauto.
  - intros j. rewrite !Hd, si_providers0. done.
  - intros j. rewrite !Hd. intros [? ?]. eauto.
  - intros j. rewrite !Hd. intros [? ?]. eauto.
  - intros j h [? ?]%lookup_delete_Some. eauto.
  - intros Hst j h b [? ?]%lookup_delete_Some Hp [? ?]%lookup_delete_Some. eauto.
  - intros j h [? ?]%lookup_delete_Some Hp. eauto using issued_mono.
  - intros j. rewrite Hd. intros [? ?]. eauto using issued_mono.
  - intros j k Hk. destruct (si_keys0 _ _ Hk). eauto using issued_mono.
  - eauto.
Qed.

Lemma delete_account_keeps i : keeps_inv (delete_upstream_account_inner i).
Proof.
  intros w Hw. wp_use delete_account_spec as r w' Hd. destruct (accounts (st w) !! i).
  - destruct Hd as (_ & Hr & Hk). by eapply removed_inv.
  - by destruct Hd as [_ ->].
Qed.

Lemma set_active_keeps i t : keeps_inv (set_account_pool_state_active_inner i t).
Proof.
  intros w Hw. wp_use (set_active_spec _ _ _ (si_revision _ Hw)) as [] w' Hs.
  eapply health_step_inv; [exact Hw| | |exact Hs]; [|done]. by eapply pool_ok_active, health_pool_ok.
Qed.

Lemma set_enabled_keeps i b : keeps_inv (set_upstream_account_enabled_inner i b).
Proof.
  intros w Hw. unfold set_upstream_account_enabled_inner. do 2 wp_step.
  destruct (accounts (st w) !! i) as [a|] eqn:Ha; [|by wp_step].
  assert (Hid := si_keyed _ Hw _ _ Ha). wp_step. wp_step.
  set (w0 := mkTimed _ _).
  assert (Hr0 : rev_ok (st w0)) by exact (si_revision _ Hw).
  destruct b.
  - wp_step. wp_step. wp_step. set (w1 := mkTimed _ _).
    wp_use (set_active_spec i (utc (ticks w0)) w1 Hr0) as [] w2 ([A T] & S & R & K).
    unfold bump_revision. wp_go. eapply (account_step_inv i a (a <| ua_enabled := true |>)
      (to_active (utc (ticks w0)) (health_of i (st w))) 1 w); [exact Hw|exact Ha|done| |done|].
    { by eapply pool_ok_active, health_pool_ok. }
    split_and!; rproj; [by rewrite A|by rewrite S|by rewrite T| |cbn in *; lia].
    rewrite R. by rewrite u64_wrap_add_l, Z.add_0_r.
  - unfold bump_revision. wp_go. subst w0. destruct Hw. split; rproj; try done.
    + apply u64_wrap_bounds.
    + intros j x. intros [[-> <-]|[? ?]]%lookup_insert_Some; eauto.
    + intros j. rewrite si_providers0, lookup_insert_is_Some. destruct (decide (i = j)) as [->|]; naive_solver.
    + intros j Hj. rewrite lookup_insert_is_Some. destruct (decide (i = j)); [by left|right; eauto].
    + intros j Hj. rewrite lookup_insert_is_Some. destruct (decide (i = j)); [by left|right; eauto].
    + intros Hst j h x Hj Hp. intros [[-> <-]|[? ?]]%lookup_insert_Some; [done|eauto].
    + intros j [->|[? ?]]%lookup_insert_is_Some; eauto.
Qed.

Lemma mark_pending_keeps i reason : keeps_inv (mark_upstream_account_pending_purge_inner i reason).
Proof.
  intros w Hw. wp_use (mark_pending_spec _ _ _ (si_revision _ Hw)) as r w' Hm.
  destruct (accounts (st w) !! i) as [a|] eqn:Ha.
  - destruct Hm as [_ Hs]. assert (Hid := si_keyed _ Hw _ _ Ha).
    eapply (account_step_inv i a (a <| ua_enabled := false |>)); [exact Hw|exact Ha|exact Hid| | |exact Hs]; [|done].
    by eapply pool_ok_pending, health_pool_ok.
  - destruct Hm as (_ & E & K). apply (frame_inv w); [done|by rewrite E| |done].
    rewrite E. apply (si_revision _ Hw).
Qed.

Lemma purge_candidates_keeps n l : keeps_inv (purge_candidates n l).
Proof.
  revert n. induction l as [|i l IH]; intros n w Hw; cbn [purge_candidates]; [by wp_step|].
  wp_step. wp_use (delete_account_keeps i w Hw) as r w' Hw'. by apply IH.
Qed.

Lemma emit_keeps e : keeps_inv (emit_system_event_inner e).
Proof. unfold emit_system_event_inner. frame_op. Qed.

Lemma tick_inv w : store_inv w → store_inv (mkTimed (st w) (S (ticks w))).
Proof. intros Hw. apply (frame_inv w); [done|done|apply (si_revision _ Hw)|cbn; lia]. Qed.

Lemma purge_pending_keeps : keeps_inv purge_pending_upstream_accounts_inner.
Proof.
  intros w Hw. unfold purge_pending_upstream_accounts_inner, pending_purge_due_account_ids_inner.
  do 6 wp_step. wp_step. wp_use (purge_candidates_keeps _ _ _ (tick_inv _ Hw)) as m w1 E1. wp_step.
  eapply (wp_mono _ (λ _ w2, store_inv w2)).
  - destruct (0 <? m); [by apply emit_keeps|by wp_step].
  - intros [] w2 E2. by wp_step.
Qed.

Lemma seen_ok_keeps i t n : keeps_inv (mark_account_seen_ok_inner i t n).
Proof.
  intros w Hw. unfold mark_account_seen_ok_inner, health_entry. do 2 wp_step.
  assert (Hok := health_pool_ok w i Hw).
  destruct (from_option _ _ _); wp_step; wp_use (put_health_spec _ _ _ (si_revision _ Hw)) as [] w' [Hs _]; wp_step.
  - by eapply health_step_inv.
  - eapply health_step_inv; [exact Hw| | |exact Hs]; [|done].
    by apply pool_ok_no_strikes, (pool_ok_seen_at _ _ Hok).
Qed.

Lemma read_pool_keeps i : keeps_inv (account_pool_state_record_inner i).
Proof.
  intros w Hw. unfold account_pool_state_record_inner, health_entry. do 4 wp_step.
  apply tick_inv in Hw. wp_step. wp_use (put_health_spec _ _ _ (si_revision _ Hw)) as [] w' [Hs _]. wp_step.
  assert (Hok := health_pool_ok _ i Hw).
  eapply health_step_inv; [exact Hw| | |exact Hs]; destruct (_ && _) eqn:Hb; try done.
  destruct Hok as (Hf & Hst). apply andb_true_iff in Hb as [Hq%bool_decide_eq_true _].
  rewrite Hq in Hf. split; [|done]. cbn. naive_solver.
Qed.

(** ** Composition *)

Lemma tick_keeps : ticking store_inv.
Proof. intros s n Hw. by apply (tick_inv (mkTimed s n)). Qed.
Lemma keeps_bump : keeps_inv bump_revision.
Proof. frame_op. Qed.
(** ** Expired one-time accounts *)

Lemma forget_inv s k i : store_inv (mkTimed s k) → store_inv (mkTimed (forget_account s i) k).
Proof.
  intros [].
  assert (Hd : ∀ {V} (m : gmap Uuid V) j, is_Some (delete i m !! j) ↔ j ≠ i ∧ is_Some (m !! j)).
  { intros V m j. destruct (decide (j = i)) as [->|]; [rewrite lookup_delete_eq|rewrite lookup_delete_ne by done];
      naive_solver. }
  unfold forget_account. cbn [st ticks] in *. split; rproj; try done.
  - intros j b [? ?]%lookup_delete_Some. eauto.
  - intros j. rewrite !Hd. naive_solver.
  - intros j. rewrite !Hd. intros [? ?]. eauto.
  - intros j. rewrite !Hd. intros [? ?]. eauto.
  - intros Hst j h b Hj Hp [? ?]%lookup_delete_Some. eauto.
  - intros j. rewrite Hd. intros [? ?]. eauto.
Qed.

Lemma forget_all_inv l s k : store_inv (mkTimed s k) → store_inv (mkTimed (fold_left forget_account l s) k).
Proof. revert s. induction l as [|i l IH]; intros s Hs; [done|]. by apply IH, forget_inv. Qed.

Lemma purge_expired_keeps : keeps_inv purge_expired_one_time_accounts_inner.
Proof.
  intros w Hw. unfold purge_expired_one_time_accounts_inner. do 4 wp_step. apply tick_inv in Hw.
  destruct (expired_one_time_ids _ _); [by wp_step|]. wp_step. wp_step. apply keeps_bump. by apply forget_all_inv.
Qed.

Lemma list_accounts_keeps : keeps_inv list_upstream_accounts_inner.
Proof.
  apply kept_bind; [apply purge_expired_keeps|intros _]. apply kept_bind; [apply kept_gets|intros m].
  apply kept_ret.
Qed.

(** ** Snapshots *)

Lemma traits_keeps l : keeps_inv (build_account_routing_traits l).
Proof.
  apply kept_bind; [apply kept_gets|intros s]. apply kept_bind; [apply kept_utc_now, tick_keeps|intros now].
  apply kept_ret.
Qed.

Lemma plan_keeps l t : keeps_inv (compile_routing_plan_from_state l t).
Proof.
  apply kept_bind; [apply kept_gets|intros m]. apply kept_bind.
  { apply kept_mapM. intros p. apply kept_bind; [apply kept_utc_now, tick_keeps|intros now]. apply kept_ret. }
  intros c. apply kept_bind; [apply kept_gets|intros p]. cbv zeta.
  destruct (compile_policies _ _ _) as [d q]. destruct (_ && _); [apply kept_ret|].
  apply kept_bind; [apply kept_new_v4, tick_keeps|intros v]. apply kept_bind; [apply kept_utc_now, tick_keeps|intros n].
  apply kept_ret.
Qed.

Lemma snapshot_keeps : keeps_inv snapshot_inner.
Proof.
  unfold snapshot_inner. apply kept_bind; [apply purge_expired_keeps|intros _].
  apply kept_bind; [apply kept_gets|intros s]. apply kept_bind; [apply list_accounts_keeps|intros l].
  apply kept_bind; [apply kept_utc_now, tick_keeps|intros now]. apply kept_bind.
  { apply kept_mfilter. intros a. apply kept_bind; [apply read_pool_keeps|intros h]. apply kept_ret. }
  intros retained. apply kept_bind; [apply traits_keeps|intros t].
  apply kept_bind; [apply plan_keeps|intros plan].
  unfold list_outbound_proxy_nodes_inner, list_builtin_error_templates_inner.
  do 8 (first [apply kept_bind; [first [apply kept_gets | apply kept_utc_now, tick_keeps
    | apply kept_bind; [apply kept_gets|intros ?; apply kept_ret]]|intros ?]]). apply kept_ret.
Qed.

(** ** Families *)

Lemma switch_fold_lookup b ids m n j :
  (fold_left (switch_account b) ids (m, n)).1 !! j =
  (λ a : UpstreamAccount, if bool_decide (j ∈ ids) then a <| ua_enabled := b |> else a) <$> m !! j.
Proof.
  revert m n. induction ids as [|i ids IH]; intros m n; cbn [fold_left].
  { rewrite bool_decide_eq_false_2 by set_solver. cbn [fst]. by destruct (m !! j). }
  assert (Hsame : ∀ a : UpstreamAccount, ua_enabled a = b → a <| ua_enabled := b |> = a) by (by intros [] <-).
  assert (Hfst : ∀ k, (switch_account b (m, n) i).1 !! k =
     (λ a : UpstreamAccount, if bool_decide (k = i) then a <| ua_enabled := b |> else a) <$> m !! k).
  { intros k. cbn. destruct (m !! i) as [a|] eqn:Hi.
    - destruct (Bool.eqb_spec (ua_enabled a) b) as [He|He]; cbn [fst].
      + destruct (decide (k = i)) as [->|]; [|by rewrite bool_decide_eq_false_2; [destruct (m !! k)|]].
        rewrite bool_decide_eq_true_2, Hi by done. cbn. by rewrite Hsame.
      + destruct (decide (k = i)) as [->|].
        * rewrite lookup_insert_eq, bool_decide_eq_true_2, Hi by done. done.
        * rewrite lookup_insert_ne, bool_decide_eq_false_2 by done. by destruct (m !! k).
    - cbn [fst]. destruct (decide (k = i)) as [->|]; [by rewrite Hi|].
      rewrite bool_decide_eq_false_2 by done. by destruct (m !! k). }
  destruct (switch_account b (m, n) i) as [m1 n1]. cbn [fst] in Hfst. rewrite IH, Hfst.
  destruct (m !! j) as [a|]; [|done]. cbn [fmap option_fmap option_map]. f_equal.
  destruct (decide (j = i)) as [->|Hji].
  - rewrite (bool_decide_eq_true_2 (i = i)), (bool_decide_eq_true_2 (i ∈ i :: ids)) by set_solver.
    destruct a. by destruct (bool_decide (i ∈ ids)).
  - rewrite (bool_decide_eq_false_2 (j = i)) by done. apply bool_decide_ext_if. set_solver.
Qed.

Lemma clear_reuse_dom ids m j : is_Some (fold_left clear_reuse ids m !! j) ↔ is_Some (m !! j).
Proof.
  revert m. induction ids as [|i ids IH]; intros m; cbn [fold_left]; [done|].
  rewrite IH. unfold clear_reuse. destruct (decide (i = j)) as [->|].
  - by rewrite lookup_alter_eq, fmap_is_Some.
  - by rewrite lookup_alter_ne.
Qed.

(** The states after a family has been activated. *)
Lemma activate_all_spec t ids w :
  rev_ok (st w) →
  wp (for_each (λ i, set_account_pool_state_active_inner i t) ids) (λ _ w',
    accounts (st w') = accounts (st w) ∧ rest (st w') = rest (st w) ∧ rev_ok (st w')
    ∧ (ticks w ≤ ticks w')%nat
    ∧ (∀ j, j ∉ ids → account_health_states (st w') !! j = account_health_states (st w) !! j)
    ∧ (∀ j h, j ∈ ids → account_health_states (st w') !! j = Some h → hs_pool_state h = Active)
    ∧ ((∀ j, pool_ok (health_of j (st w))) → ∀ j, pool_ok (health_of j (st w')))) w.
Proof.
  revert w. induction ids as [|i ids IH]; intros w Hr; cbn [for_each].
  { wp_step. split_and!; try done. set_solver. }
  wp_step. wp_use (set_active_spec i t _ Hr) as [] w1 ([A T] & S & R & K).
  assert (Hr1 : rev_ok (st w1)) by (eapply rev_ok_wrap, R). unfold health_set in S.
  wp_use (IH w1 Hr1) as [] w2 (A2 & T2 & R2 & K2 & Hn & Hin & Hp). split_and!; try done.
  - by rewrite A2.
  - by rewrite T2.
  - lia.
  - intros j Hj. rewrite Hn by set_solver. rewrite S. by rewrite lookup_insert_ne by set_solver.
  - intros j h Hj Hh. destruct (decide (j ∈ ids)); [by eapply Hin|].
    assert (j = i) as -> by set_solver. rewrite Hn, S, lookup_insert_eq in Hh by done. by simplify_eq.
  - intros Hok. apply Hp. intros j. unfold health_of. rewrite S. destruct (decide (j = i)) as [->|].
    + rewrite lookup_insert_eq. cbn. apply pool_ok_active, Hok.
    + rewrite lookup_insert_ne by done. apply Hok.
Qed.

(** The account tables after a family has been switched. *)
Definition switched (b : bool) (ids : list Uuid) w w' : Prop :=
  (∀ j, accounts (st w') !! j =
     (λ a : UpstreamAccount, if bool_decide (j ∈ ids) then a <| ua_enabled := b |> else a) <$> accounts (st w) !! j)
  ∧ account_auth_providers (st w') = account_auth_providers (st w)
  ∧ (∀ j, is_Some (oauth_credentials (st w') !! j) ↔ is_Some (oauth_credentials (st w) !! j))
  ∧ session_profiles (st w') = session_profiles (st w)
  ∧ api_keys (st w') = api_keys (st w) ∧ api_key_tokens (st w') = api_key_tokens (st w)
  ∧ (∀ j, pool_ok (health_of j (st w')))
  ∧ (∀ j, j ∉ ids ∨ b = false → account_health_states (st w') !! j = account_health_states (st w) !! j)
  ∧ (∀ j h, j ∈ ids → b = true → account_health_states (st w') !! j = Some h → hs_pool_state h = Active)
  ∧ rev_ok (st w') ∧ (ticks w ≤ ticks w')%nat.

Lemma switched_inv b ids w w' : store_inv w → switched b ids w w' → store_inv w'.
Proof.
  intros Hw (A & P & C & Sp & Ek & Et & Hp & Hn & Hin & R & K).
  assert (Ha : ∀ j, is_Some (accounts (st w') !! j) ↔ is_Some (accounts (st w) !! j)).
  { intros j. rewrite A. by rewrite fmap_is_Some. }
  assert (Hold : ∀ j h, account_health_states (st w') !! j = Some h → hs_pool_state h = PendingPurge →
                  (j ∉ ids ∨ b = false) ∧ account_health_states (st w) !! j = Some h).
  { intros j h Hj Hd. assert (Hc : j ∉ ids ∨ b = false).
    { destruct (decide (j ∈ ids)); [|by left]. destruct b; [|by right].
      rewrite (Hin j h) in Hd by done. done. }
    split; [done|]. by rewrite <- Hn. }
  destruct Hw. split; rewrite ?P, ?Sp, ?Ek, ?Et; try done.
  - intros j a. rewrite A. destruct (accounts (st w) !! j) as [a0|] eqn:Hj; [|done]. cbn. intros [= <-].
    rewrite <- (si_keyed0 _ _ Hj). by destruct (bool_decide _).
  - intros j. rewrite Ha. done.
  - intros j. rewrite C, Ha. eauto.
  - intros j. rewrite Ha. eauto.
  - intros j h Hj. specialize (Hp j). unfold health_of in Hp. by rewrite Hj in Hp.
  - intros Hst j h a Hj Hd. destruct (Hold _ _ Hj Hd) as [Hc Hj']. rewrite A.
    destruct (accounts (st w) !! j) as [a0|] eqn:Ha0; [|done]. cbn. intros [= <-].
    destruct (bool_decide_reflect (j ∈ ids)); [|by eapply si_doomed0]. by destruct Hc as [| ->].
  - intros j h Hj Hd. destruct (Hold _ _ Hj Hd) as [_ Hj']. eauto using issued_mono.
  - intros j. rewrite Ha. eauto using issued_mono.
  - intros j k Hk. destruct (si_keys0 _ _ Hk). eauto using issued_mono.
Qed.

Lemma switch_family_spec f b w :
  store_inv w →
  wp (disable_or_enable_oauth_family f b) (λ _ w', store_inv w') w.
Proof.
  intros Hw. unfold disable_or_enable_oauth_family. do 2 wp_step.
  destruct (family_accounts f (oauth_credentials (st w))) as [|i0 ids0] eqn:Hids; [by wp_step|].
  set (ids := i0 :: ids0). clearbody ids. clear Hids.
  assert (Hok : ∀ j, pool_ok (health_of j (st w))) by (intros j; by eapply health_pool_ok).
  destruct b.
  - do 4 wp_step. destruct (fold_left _ ids _) as [m n] eqn:Hfold. do 5 wp_step.
    wp_use (activate_all_spec _ ids _) as [] w2 (A & T & R & K & Hn & Hin & Hp);
      [apply (si_revision _ Hw)|]. wp_step. apply rest_same in T.
    apply (switched_inv true ids w); [done|]. split_and!; try done.
    + intros j. rewrite A. rproj. rproj_in Hfold.
      pose proof (switch_fold_lookup true ids (accounts (st w)) 0 j) as Hs. rewrite Hfold in Hs. exact Hs.
    + by rewrite (sr_providers _ _ T).
    + intros j. rewrite (sr_credentials _ _ T). rproj. apply clear_reuse_dom.
    + by rewrite (sr_profiles _ _ T).
    + by rewrite (sr_api_keys _ _ T).
    + by rewrite (sr_api_key_tokens _ _ T).
    + intros j. apply Hp. exact Hok.
    + intros j [Hj|?]; [|done]. by rewrite Hn.
    + intros j h Hj _ Hh. by eapply Hin.
    + cbn in K. lia.
  - do 4 wp_step. destruct (fold_left _ ids _) as [m n] eqn:Hfold. do 5 wp_step.
    apply (switched_inv false ids w); [done|]. split_and!; try done.
    + intros j. rproj. rproj_in Hfold.
      pose proof (switch_fold_lookup false ids (accounts (st w)) 0 j) as Hs. rewrite Hfold in Hs. exact Hs.
    + apply (si_revision _ Hw).
Qed.

Lemma set_family_keeps i b : keeps_inv (set_oauth_family_enabled_inner i b).
Proof.
  unfold set_oauth_family_enabled_inner. apply kept_bind.
  { apply kept_bind; [apply kept_gets|intros m]. apply kept_ret. }
  intros p. destruct (negb _); [apply kept_ret|]. apply kept_bind; [apply kept_gets|intros c].
  destruct (c !! i); [|apply kept_ret]. apply kept_bind; [intros w Hw; by apply switch_family_spec|intros n].
  apply kept_bind; [destruct (bool_decide _); [apply keeps_bump|apply kept_ret]|intros _]. apply kept_ret.
Qed.

Lemma purge_family_keeps f r : keeps_inv (mark_oauth_family_pending_purge_inner f r).
Proof.
  apply kept_bind; [apply kept_gets|intros c]. apply kept_for_each. intros i.
  apply kept_bind; [apply mark_pending_keeps|intros _]. apply kept_ret.
Qed.

(** ** Every operation, and every run *)

Context `{UrlFragment} (hasher : ApiKeyTokenHasher).

Lemma run_op_keeps op : keeps_inv (run_op hasher op).
Proof.
  destruct op; cbn [run_op].
  - apply effect_keeps, tenant_keeps.
  - apply effect_keeps, create_key_keeps.
  - apply effect_keeps, set_key_enabled_keeps.
  - apply effect_keeps, validate_keeps.
  - apply effect_keeps, create_node_keeps.
  - apply effect_keeps, update_node_keeps.
  - apply effect_keeps, delete_node_keeps.
  - apply effect_keeps, proxy_test_keeps.
  - apply effect_keeps, create_account_keeps.
  - apply effect_keeps, list_accounts_keeps.
  - apply effect_keeps, set_enabled_keeps.
  - apply effect_keeps, delete_account_keeps.
  - apply effect_keeps, mark_pending_keeps.
  - apply effect_keeps, purge_pending_keeps.
  - apply effect_keeps, live_result_keeps.
  - apply effect_keeps, seen_ok_keeps.
  - apply effect_keeps, read_pool_keeps.
  - apply effect_keeps, policy_keeps.
  - apply effect_keeps, retry_keeps.
  - apply effect_keeps, stream_retry_keeps.
  - apply effect_keeps, proxy_settings_keeps.
  - apply effect_keeps, model_settings_keeps.
  - apply effect_keeps, claude_settings_keeps.
  - apply effect_keeps, learning_settings_keeps.
  - apply effect_keeps, upsert_profile_keeps.
  - apply effect_keeps, delete_profile_keeps.
  - apply effect_keeps, upsert_model_policy_keeps.
  - apply effect_keeps, delete_model_policy_keeps.
  - apply effect_keeps, save_template_keeps.
  - apply effect_keeps, save_override_keeps.
  - apply effect_keeps, delete_override_keeps.
  - apply effect_keeps, model_support_keeps.
  - apply effect_keeps, recover_jobs_keeps.
  - apply effect_keeps, set_family_keeps.
  - apply purge_family_keeps.
  - apply effect_keeps, snapshot_keeps.
Qed.

Definition run_ops (ops : list StoreOp) : ST (Timed InMemoryStore) unit := for_each (run_op hasher) ops.

Lemma new_store_inv c t1 t2 t3 n : store_inv (mkTimed (new_with_oauth c t1 t2 t3) n).
Proof.
  split; cbn; intros *; rewrite ?lookup_empty; try done; by intros [? ?].
Qed.

Lemma run_ops_inv ops c t1 t2 t3 n :
  wp (run_ops ops) (λ _ w, store_inv w) (mkTimed (new_with_oauth c t1 t2 t3) n).
Proof. apply kept_for_each; [intros op; apply run_op_keeps|apply new_store_inv]. Qed.
End steps.

(** The invariant of the store, and the one of a store that serves no imports. *)
Abbreviation store_inv := (table_inv (strict:=false)).
Abbreviation strict_store_inv := (table_inv (strict:=true)).

Lemma strict_inv_inv `{Base64, Aes256Gcm, NonceSource, Digests, UuidSource, WallClock, UuidText, Environment, IdOrder}
    (w : Timed InMemoryStore) : strict_store_inv w → store_inv w.
Proof. intros []. by split. Qed.
