(* ===== verification/OAuthPool.v ===== *)
(** * Probes and rate limits of the account pool: [store/oauth_ops.rs]

    Which token an account answers with, the cache of its rate limits, probes of
    accounts and the patrol, and the refresh of caches in batches and jobs (with the
    methods of [store/trait_impl.rs] that run them). The token client is a parameter;
    a batch runs its tasks concurrently and takes their results as they complete. *)
From S2P Require Import Prelude RustStr CoreModel Json Request RoutingCache ControlModel StoreDefs Secrets Credentials Store StoreConfig OAuthClient Kept.
From Stdlib Require Import SpecFloat.

#[local] Open Scope string_scope.
#[local] Open Scope list_scope.
#[local] Open Scope Z_scope.

(** ** Tasks that run concurrently

    [buffer_unordered] and [for_each_concurrent] over a list: the order in which the
    tasks complete, which may differ each time. The tasks here wait for the network
    between reading the clock or their own records and writing to the store, and what
    they read no other task of the batch writes: a schedule changes the store as the
    tasks one after the other in the order of their completion, for some readings of
    the clock. *)
Class CompletionOrder := {
  completion : ∀ {A : Type}, nat → list A → list A;
  completion_perm : ∀ (A : Type) n (l : list A), completion n l ≡ₚ l;
}.

(** ** Floating point: [x as f64 * 60.0 / y as f64], as bits *)

Definition f64_of_Z (z : Z) : spec_float := binary_normalize 53 1024 z 0 false.
Definition f64_bits (x : spec_float) : F64 :=
  let sign (s : bool) := if s then 2 ^ 63 else 0 in
  match x with
  | S754_zero s => sign s
  | S754_infinity s => sign s + 0x7FF0000000000000
  | S754_nan => 0x7FF8000000000000
  | S754_finite s m e =>
      sign s + (if Z.pos m <? 2 ^ 52 then Z.pos m else (e + 1075) * 2 ^ 52 + (Z.pos m - 2 ^ 52))
  end.
Definition per_minute (count seconds : Z) : F64 :=
  f64_bits (SFdiv 53 1024 (SFmul 53 1024 (f64_of_Z count) (f64_of_Z 60)) (f64_of_Z seconds)).

Example per_minute_samples : per_minute 5 150 = 0x4000000000000000 ∧ per_minute 0 7 = 0.
Proof. by vm_compute. Qed.

(** ** Targets of a refresh *)

Inductive InMemoryRateLimitRefreshTokenSource :=
  | EncryptedAccessToken (access_token_enc : string)
  | BearerToken (access_token : string).

Record InMemoryRateLimitRefreshTarget := mkInMemoryRateLimitRefreshTarget {
  rt_account_id : Uuid;
  rt_base_url : string;
  rt_chatgpt_account_id : option string;
  rt_token_source : InMemoryRateLimitRefreshTokenSource;
}.

Record InMemoryRateLimitRefreshBatchStats := mkInMemoryRateLimitRefreshBatchStats {
  bs_processed : Z;
  bs_success : Z;
  bs_failed : Z;
  bs_error_counts : gmap string Z;
}.
#[global] Instance eta_InMemoryRateLimitRefreshBatchStats : Eta InMemoryRateLimitRefreshBatchStats := λ r,
  mkInMemoryRateLimitRefreshBatchStats (bs_processed r) (bs_success r) (bs_failed r) (bs_error_counts r).

(** The token of an account that is good for a while, if it has one. *)
Definition build_live_rate_limit_token_source_inner (account : UpstreamAccount)
    (provider : UpstreamAuthProvider) (credential : option OAuthCredentialRecord)
    (session_profile : option SessionProfileRecord) (now : DateTime) :
    option InMemoryRateLimitRefreshTokenSource :=
  if negb (ua_enabled account) then None else
  match provider with
  | OAuthRefreshToken =>
      credential ← credential;
      if ocr_token_expires_at credential <=? now + from_secs OAUTH_MIN_VALID_SEC then None
      else if ocr_refresh_reused_detected credential then None
      else if bool_decide (ocr_last_refresh_status credential = RefreshFailed)
              && is_fatal_refresh_error_code (ocr_last_refresh_error_code credential) then None
      else Some (EncryptedAccessToken (ocr_access_token_enc credential))
  | LegacyBearer =>
      session_profile ← session_profile;
      if negb (bool_decide (ua_mode account = CodexOauth)) then None
      else if negb (bool_decide (spr_credential_kind session_profile = OneTimeAccessToken)) then None
      else
        token_expires_at ← spr_token_expires_at session_profile;
        if token_expires_at <=? now + from_secs OAUTH_MIN_VALID_SEC then None
        else
          let bearer_token := trim (ua_bearer_token account) in
          if is_empty bearer_token then None else Some (BearerToken bearer_token)
  end.

Definition build_rate_limit_refresh_target_inner (account : UpstreamAccount)
    (provider : UpstreamAuthProvider) (credential : option OAuthCredentialRecord)
    (session_profile : option SessionProfileRecord) (cache : option OAuthRateLimitCacheRecord)
    (now : DateTime) (due_only : bool) : option InMemoryRateLimitRefreshTarget :=
  token_source ← build_live_rate_limit_token_source_inner account provider credential session_profile now;
  if due_only && from_option (λ entry, later_than now (rlc_expires_at entry)) false cache then None
  else Some (mkInMemoryRateLimitRefreshTarget (ua_id account) (ua_base_url account)
               (ua_chatgpt_account_id account) token_source).

(** ** Classes of probe failures *)

Definition nonempty_or (dflt s : string) : string := if is_empty s then dflt else s.

Definition classify_runtime_probe_failure `{Environment} (auth_provider : UpstreamAuthProvider)
    (checked_at : DateTime) (error_code error_message : string) :
    AccountProbeOutcome * string * option DateTime :=
  let normalized_code := normalize_health_error_code error_code in
  let normalized_message := to_ascii_lowercase error_message in
  let after reason := Some (checked_at + from_secs (rate_limit_failure_backoff_seconds reason error_message)) in
  if String.eqb normalized_code "account_deactivated" || contains normalized_message "account_deactivated"
  then (ProbeFatal, "account_deactivated", None)
  else if String.eqb normalized_code "token_invalidated" || contains normalized_message "token_invalidated"
  then (ProbeFatal, "token_invalidated", None)
  else if is_quota_error_signal error_code error_message then
    let reason := nonempty_or "quota_exhausted" normalized_code in (ProbeQuota, reason, after reason)
  else if is_rate_limited_signal error_code error_message then
    let reason := nonempty_or "rate_limited" normalized_code in (ProbeQuota, reason, after reason)
  else if is_fatal_refresh_error_code (Some error_code) || is_auth_error_signal error_code error_message
  then (ProbeFatal, normalized_auth_failure_reason_code auth_provider error_code error_message, None)
  else if is_transient_upstream_error_signal error_code error_message
  then (ProbeTransient, nonempty_or "upstream_unavailable" normalized_code, Some (checked_at + minutes 5))
  else (ProbeTransient, nonempty_or "upstream_unavailable" normalized_code, Some (checked_at + minutes 5)).

(** ** Order of the patrol *)

(** An account with whether its health is unknown, its last probe, its last success
    and its creation. *)
Record PatrolItem := mkPatrolItem {
  pi_id : Uuid;
  pi_unknown : bool;
  pi_last_probe_at : option DateTime;
  pi_seen_ok_at : option DateTime;
  pi_created_at : DateTime;
}.

Definition bool_compare (a b : bool) : comparison :=
  match a, b with false, true => Lt | true, false => Gt | _, _ => Eq end.

Definition patrol_compare (l r : PatrolItem) : comparison :=
  then_with (bool_compare (pi_unknown r) (pi_unknown l))
    (then_with (option_compare Z.compare (pi_last_probe_at l) (pi_last_probe_at r))
      (then_with (option_compare Z.compare (pi_seen_ok_at l) (pi_seen_ok_at r))
        (then_with (pi_created_at l ?= pi_created_at r) (pi_id l ?= pi_id r)%N))).

Record PatrolCounts := mkPatrolCounts {
  pc_patrolled : Z; pc_ok : Z; pc_quota : Z; pc_fatal : Z; pc_transient : Z;
}.

Definition count_outcome (c : PatrolCounts) (outcome : AccountProbeOutcome) : PatrolCounts :=
  let bump n := u64_saturating_add n 1 in
  mkPatrolCounts (bump (pc_patrolled c))
    (match outcome with ProbeOk => bump (pc_ok c) | _ => pc_ok c end)
    (match outcome with ProbeQuota => bump (pc_quota c) | _ => pc_quota c end)
    (match outcome with ProbeFatal => bump (pc_fatal c) | _ => pc_fatal c end)
    (match outcome with ProbeTransient => bump (pc_transient c) | _ => pc_transient c end).

(** ** Results of a batch *)

Definition error_summary_compare (l r : OAuthRateLimitRefreshErrorSummary) : comparison :=
  then_with (es_count r ?= es_count l) (String.compare (es_error_code l) (es_error_code r)).

Definition count_result (stats : InMemoryRateLimitRefreshBatchStats) (r : bool * option string) :
    InMemoryRateLimitRefreshBatchStats :=
  if r.1 then stats <| bs_success ::= λ n, u64_saturating_add n 1 |>
  else
    let stats := stats <| bs_failed ::= λ n, u64_saturating_add n 1 |> in
    match r.2 with
    | Some error_code =>
        stats <| bs_error_counts ::= λ m, <[error_code := default 0 (m !! error_code) + 1]> m |>
    | None => stats
    end.

Definition batch_stats (results : list (bool * option string)) : InMemoryRateLimitRefreshBatchStats :=
  fold_left count_result results
    (mkInMemoryRateLimitRefreshBatchStats (Z.of_nat (length results)) 0 0 ∅).

(** The object [serde_json] makes of the counts. *)
Definition error_counts_value (m : gmap string Z) : Value :=
  VObject (fold_right (λ '(code, n) acc, map_insert code (VInt n) acc) [] (map_to_list m)).

Section pool.
Context `{Base64, Aes256Gcm, NonceSource, Digests, UuidSource, WallClock, UuidText, Environment, IdOrder}.
Context `{HashOrder, CompletionOrder, OAuthTokenClient}.

Abbreviation SM := (ST (Timed InMemoryStore)).

(** ** The cache of rate limits *)

(** An account of the store, and the update of one record of a table in place. *)
Definition lookup_account (account_id : Uuid) : SM (option UpstreamAccount) :=
  m ← gets accounts; mret (m !! account_id).

Definition persist_rate_limit_cache_success_inner (account_id : Uuid)
    (rate_limits : list OAuthRateLimitSnapshot) (fetched_at : DateTime)
    (chatgpt_plan_type : option string) : SM unit :=
  let '(blocked_until, block_reason) := derive_rate_limit_block rate_limits fetched_at in
  let expires_at := default (fetched_at + from_secs rate_limit_cache_ttl_sec_from_env) blocked_until in
  let last_error := rate_limit_block_message <$> block_reason in
  _ ← modify (λ s, s <| oauth_rate_limit_caches ::= insert account_id
        (mkOAuthRateLimitCacheRecord rate_limits (Some fetched_at) (Some expires_at) block_reason last_error) |>);
  _ ← match trimmed_non_empty chatgpt_plan_type with
      | Some plan_type =>
          modify (λ s, s <| session_profiles ::= alter (λ profile,
            profile <| spr_chatgpt_plan_type := Some plan_type |>) account_id |>)
      | None => mret tt
      end;
  bump_revision.

Definition failed_cache (now : DateTime) (backoff_sec : Z) (error_code message : string)
    (cache : OAuthRateLimitCacheRecord) : OAuthRateLimitCacheRecord :=
  cache <| rlc_fetched_at ::= λ at_, match rlc_rate_limits cache with [] => None | _ => at_ end |>
        <| rlc_expires_at := Some (now + from_secs backoff_sec) |>
        <| rlc_last_error_code := Some error_code |>
        <| rlc_last_error := Some message |>.

Definition persist_rate_limit_cache_failure_inner (account_id : Uuid) (error_code error_message : string) :
    SM string :=
  now ← utc_now;
  let backoff_sec := rate_limit_failure_backoff_seconds error_code error_message in
  let truncated_message := truncate_error_message error_message in
  normalized_error_code ←
    (if is_auth_error_signal error_code error_message
     then provider ← account_auth_provider account_id;
          mret (normalized_auth_failure_reason_code provider error_code error_message)
     else mret error_code);
  _ ← modify (λ s, s <| oauth_rate_limit_caches ::= λ caches,
        <[account_id := failed_cache now backoff_sec normalized_error_code truncated_message
            (default OAuthRateLimitCacheRecord_default (caches !! account_id))]> caches |>);
  _ ← bump_revision;
  mret normalized_error_code.

(** ** Probes *)

Definition record_account_probe_result_inner (account_id : Uuid) (checked_at : DateTime)
    (outcome : AccountProbeOutcome) : SM unit :=
  state ← health_entry account_id;
  put_health account_id
    (state <| hs_last_probe_at := Some checked_at |> <| hs_last_probe_outcome := Some outcome |>).

Definition probe_event_kind (outcome : AccountProbeOutcome) :
    string * SystemEventSeverity * AccountPoolReasonClass :=
  match outcome with
  | ProbeOk => ("probe_succeeded", SevInfo, RcHealthy)
  | ProbeQuota => ("probe_failed", SevWarn, RcQuota)
  | ProbeFatal => ("probe_failed", SevError, RcFatal)
  | ProbeTransient => ("probe_failed", SevWarn, RcTransient)
  end.

Definition emit_probe_result_event_inner (source : string) (account_id : Uuid) (checked_at : DateTime)
    (outcome : AccountProbeOutcome) (reason_code : option string) (next_action_at : option DateTime)
    (message : option string) : SM unit :=
  account ← lookup_account account_id;
  auth_provider ← match account with
                  | Some _ => p ← account_auth_provider account_id; mret (Some (auth_provider_name p))
                  | None => mret None
                  end;
  let '(event_type, severity, reason_class) := probe_event_kind outcome in
  emit_system_event_inner
    ((system_event CatPatrol event_type severity source)
       <| sew_ts := Some checked_at |>
       <| sew_account_id := Some account_id |>
       <| sew_account_label := ua_label <$> account |>
       <| sew_auth_provider := auth_provider |>
       <| sew_reason_class := Some (account_pool_reason_class_name reason_class) |>
       <| sew_reason_code := reason_code |>
       <| sew_next_action_at := next_action_at |>
       <| sew_message := message |>).

(** What a probe of an account that could not be decrypted leaves behind. *)
Definition probe_undecryptable (account_id : Uuid) (source message error : string) (checked_at : DateTime) :
    SM (result AccountProbeOutcome Error) :=
  _ ← record_account_probe_result_inner account_id checked_at ProbeFatal;
  _ ← emit_probe_result_event_inner source account_id checked_at ProbeFatal
        (Some "credential_decrypt_failed") None (Some message);
  _ ←? mark_upstream_account_pending_purge_inner account_id (Some "credential_decrypt_failed");
  _ ← persist_rate_limit_cache_failure_inner account_id "credential_decrypt_failed"
        (truncate_error_message error);
  mret (Ok ProbeFatal).

(** A reply with the usage of an account. *)
Definition probe_answered (account_id : Uuid) (source success_message quota_message : string)
    (checked_at : DateTime) (usage : OAuthUsageSnapshot) : SM (result AccountProbeOutcome Error) :=
  let '(blocked_until, block_reason) := derive_rate_limit_block (ous_rate_limits usage) checked_at in
  _ ← persist_rate_limit_cache_success_inner account_id (ous_rate_limits usage) checked_at
        (ous_chatgpt_plan_type usage);
  match block_reason with
  | Some reason_code =>
      _ ← record_account_probe_result_inner account_id checked_at ProbeQuota;
      _ ← emit_probe_result_event_inner source account_id checked_at ProbeQuota (Some reason_code)
            blocked_until (Some quota_message);
      _ ←? set_account_pool_state_quarantine_inner account_id checked_at blocked_until (Some reason_code);
      mret (Ok ProbeQuota)
  | None =>
      _ ← record_account_probe_result_inner account_id checked_at ProbeOk;
      _ ← emit_probe_result_event_inner source account_id checked_at ProbeOk None None
            (Some success_message);
      _ ← set_account_pool_state_active_inner account_id checked_at;
      mret (Ok ProbeOk)
  end.

(** A reply with an error. *)
Definition probe_refused (account_id : Uuid) (source : string) (provider : UpstreamAuthProvider)
    (checked_at : DateTime) (err : OAuthTokenClientError) : SM (result AccountProbeOutcome Error) :=
  let error_code := error_code_str (client_error_code err) in
  let error_message := truncate_error_message (client_error_display err) in
  _ ← persist_rate_limit_cache_failure_inner account_id error_code error_message;
  let '(outcome, reason_code, retry_after) :=
    classify_runtime_probe_failure provider checked_at error_code error_message in
  _ ← record_account_probe_result_inner account_id checked_at outcome;
  _ ← emit_probe_result_event_inner source account_id checked_at outcome (Some reason_code) retry_after
        (Some error_message);
  match outcome with
  | ProbeOk =>
      _ ← set_account_pool_state_active_inner account_id checked_at;
      mret (Ok outcome)
  | ProbeFatal =>
      _ ←? mark_upstream_account_pending_purge_inner account_id (Some reason_code);
      mret (Ok outcome)
  | ProbeQuota | ProbeTransient =>
      _ ←? set_account_pool_state_quarantine_inner account_id checked_at retry_after (Some reason_code);
      mret (Ok outcome)
  end.

Definition probe_runtime_oauth_account_inner (account_id : Uuid)
    (source success_message quota_message decrypt_failure_message : string) :
    SM (result AccountProbeOutcome Error) :=
  account ← lookup_account account_id;
  match account with
  | None => mret (Err "account not found")
  | Some account =>
      provider ← account_auth_provider account_id;
      credentials ← gets oauth_credentials;
      profiles ← gets session_profiles;
      now ← utc_now;
      match build_live_rate_limit_token_source_inner account provider (credentials !! account_id)
              (profiles !! account_id) now with
      | None => mret (Err "unsupported account pool action")
      | Some token_source =>
          checked_at ← utc_now;
          let ask access_token :=
            reply ← call (λ n, fetch_usage n access_token (Some (ua_base_url account))
                                 (ua_chatgpt_account_id account));
            match reply with
            | Ok usage => probe_answered account_id source success_message quota_message checked_at usage
            | Err err => probe_refused account_id source provider checked_at err
            end in
          match token_source with
          | EncryptedAccessToken access_token_enc =>
              cipher ←? require_credential_cipher;
              match decrypt cipher access_token_enc with
              | Ok access_token => ask access_token
              | Err err =>
                  probe_undecryptable account_id source decrypt_failure_message err checked_at
              end
          | BearerToken access_token => ask access_token
          end
      end
  end.

Definition reprobe_runtime_oauth_account_inner (account_id : Uuid) : SM (result unit Error) :=
  _ ←? probe_runtime_oauth_account_inner account_id "control_plane.account_pool_reprobe"
         "manual reprobe succeeded" "manual reprobe observed a quota block"
         "failed to decrypt oauth access token for reprobe";
  mret (Ok tt).

(** ** The patrol *)

Definition patrol_item (s : InMemoryStore) (now : DateTime) (account : UpstreamAccount) : option PatrolItem :=
  if negb (ua_enabled account) then None else
  let i := ua_id account in
  provider ← account_auth_providers s !! i;
  _ ← build_live_rate_limit_token_source_inner account provider (oauth_credentials s !! i)
        (session_profiles s !! i) now;
  let state := health_of i s in
  if negb (bool_decide (hs_pool_state state = Active)) then None else
  match account_health_freshness_from_signals now (hs_seen_ok_at state) (hs_last_probe_at state)
          (hs_last_probe_outcome state) (hs_last_live_result_at state)
          (hs_last_live_result_status state) with
  | HealthFresh => None
  | freshness =>
      Some (mkPatrolItem i (bool_decide (freshness = HealthUnknown)) (hs_last_probe_at state)
              (hs_seen_ok_at state) (ua_created_at account))
  end.

Definition oauth_active_patrol_candidates_inner (now : DateTime) (limit : nat) : SM (list Uuid) :=
  gets (λ s, pi_id <$> take limit (sort_by patrol_compare (omap (patrol_item s now) (id_values (accounts s))))).

Definition emit_active_patrol_batch_summary_inner (started_at : DateTime) (c : PatrolCounts) : SM unit :=
  emit_system_event_inner
    ((system_event CatPatrol "active_patrol_batch_completed" (if 0 <? pc_fatal c then SevWarn else SevInfo)
        "control_plane.active_patrol")
       <| sew_ts := Some started_at |>
       <| sew_message := Some ("active patrol scanned " +:+ decimal (pc_patrolled c) +:+ " accounts ("
            +:+ decimal (pc_ok c) +:+ " ok / " +:+ decimal (pc_quota c) +:+ " quota / "
            +:+ decimal (pc_fatal c) +:+ " fatal / " +:+ decimal (pc_transient c) +:+ " transient)") |>
       <| sew_payload_json := Some (VObject
            [("fatal", VInt (pc_fatal c)); ("ok", VInt (pc_ok c)); ("patrolled", VInt (pc_patrolled c));
             ("quota", VInt (pc_quota c)); ("transient", VInt (pc_transient c))]) |>).

Fixpoint patrol_loop (c : PatrolCounts) (candidate_ids : list Uuid) : SM PatrolCounts :=
  match candidate_ids with
  | [] => mret c
  | account_id :: candidate_ids =>
      r ← probe_runtime_oauth_account_inner account_id "control_plane.active_patrol"
            "active patrol probe succeeded" "active patrol observed a quota block"
            "failed to decrypt oauth access token for patrol";
      patrol_loop (match r with Ok outcome => count_outcome c outcome | Err _ => c end) candidate_ids
  end.

Definition patrol_active_oauth_accounts_inner : SM (result Z Error) :=
  _ ← purge_expired_one_time_accounts_inner;
  now ← utc_now;
  candidate_ids ← oauth_active_patrol_candidates_inner now (Z.to_nat active_patrol_batch_size_from_env);
  match candidate_ids with
  | [] => mret (Ok 0)
  | _ =>
      c ← patrol_loop (mkPatrolCounts 0 0 0 0 0) candidate_ids;
      _ ← emit_active_patrol_batch_summary_inner now c;
      mret (Ok (pc_patrolled c))
  end.

(** ** Refreshing the caches *)

Definition refresh_target (s : InMemoryStore) (now : DateTime) (due_only : bool) (account : UpstreamAccount) :
    option InMemoryRateLimitRefreshTarget :=
  let i := ua_id account in
  provider ← account_auth_providers s !! i;
  build_rate_limit_refresh_target_inner account provider (oauth_credentials s !! i)
    (session_profiles s !! i) (oauth_rate_limit_caches s !! i) now due_only.

Definition target_compare (l r : InMemoryRateLimitRefreshTarget) : comparison :=
  (rt_account_id l ?= rt_account_id r)%N.

Definition load_rate_limit_refresh_targets (after_id : option Uuid) (limit : nat) (due_only : bool) :
    SM (list InMemoryRateLimitRefreshTarget) :=
  now ← utc_now;
  gets (λ s, take limit (sort_by target_compare
    (omap (λ account,
             if from_option (λ cursor, (ua_id account <=? cursor)%N) false after_id then None
             else refresh_target s now due_only account)
       (id_values (accounts s))))).

Definition count_rate_limit_refresh_targets : SM Z :=
  now ← utc_now;
  gets (λ s, Z.of_nat (length (omap (refresh_target s now false) (id_values (accounts s))))).

Definition fetch_live_rate_limits_result (target : InMemoryRateLimitRefreshTarget) :
    SM (result OAuthUsageSnapshot (string * string)) :=
  access_token ←? match rt_token_source target with
                  | EncryptedAccessToken access_token_enc =>
                      c ← gets credential_cipher;
                      mret match c with
                           | None => Err ("credential_cipher_missing",
                                          "oauth credential cipher is not configured")
                           | Some cipher =>
                               match decrypt cipher access_token_enc with
                               | Ok t => Ok t
                               | Err err => Err ("credential_decrypt_failed", err)
                               end
                           end
                  | BearerToken access_token => mret (Ok access_token)
                  end;
  if is_empty (trim access_token) then mret (Ok OAuthUsageSnapshot_default) else
  reply ← call (λ n, fetch_usage n access_token (Some (rt_base_url target)) (rt_chatgpt_account_id target));
  mret match reply with
       | Ok usage => Ok usage
       | Err err => Err (error_code_str (client_error_code err), client_error_display err)
       end.

(** One task of a batch. *)
Definition refresh_one_target (target : InMemoryRateLimitRefreshTarget) : SM (bool * option string) :=
  fetched_at ← utc_now;
  r ← fetch_live_rate_limits_result target;
  match r with
  | Ok usage =>
      _ ← persist_rate_limit_cache_success_inner (rt_account_id target) (ous_rate_limits usage)
            fetched_at (ous_chatgpt_plan_type usage);
      mret (true, None)
  | Err (error_code, error_message) =>
      stored ← persist_rate_limit_cache_failure_inner (rt_account_id target) error_code error_message;
      mret (false, Some stored)
  end.

(** The tasks in the order of their completion; [concurrency] bounds how many are
    under way. *)
Definition refresh_rate_limit_targets_batch (targets : list InMemoryRateLimitRefreshTarget) (concurrency : Z) :
    SM InMemoryRateLimitRefreshBatchStats :=
  order ← call (λ n, completion n targets);
  results ← mapM_st refresh_one_target order;
  mret (batch_stats results).

Definition emit_rate_limit_refresh_batch_summary_inner (started_at : DateTime) (source : string)
    (job_id : option Uuid) (fetched : Z) (stats : InMemoryRateLimitRefreshBatchStats) (due_only : bool) :
    SM unit :=
  emit_system_event_inner
    ((system_event CatPatrol "rate_limit_refresh_batch_completed"
        (if 0 <? bs_failed stats then SevWarn else SevInfo) source)
       <| sew_ts := Some started_at |>
       <| sew_job_id := job_id |>
       <| sew_reason_code := Some "rate_limit_refresh_batch_completed" |>
       <| sew_message := Some ("rate-limit refresh scanned " +:+ decimal fetched +:+ " targets ("
            +:+ decimal (bs_success stats) +:+ " ok / " +:+ decimal (bs_failed stats) +:+ " failed)") |>
       <| sew_payload_json := Some (VObject
            [("due_only", VBool due_only); ("error_counts", error_counts_value (bs_error_counts stats));
             ("failed", VInt (bs_failed stats)); ("fetched", VInt fetched);
             ("processed", VInt (bs_processed stats)); ("success", VInt (bs_success stats))]) |>).

(** A turn of [refresh_due_oauth_rate_limit_caches], which carries the total so far. *)
Definition refresh_due_turn (refreshed_total : Z) : SM (Z + Z) :=
  let batch_size := rate_limit_refresh_batch_size_from_env in
  started_at ← utc_now;
  targets ← load_rate_limit_refresh_targets None (Z.to_nat batch_size) true;
  match targets with
  | [] => mret (inr refreshed_total)
  | _ =>
      let fetched := Z.of_nat (length targets) in
      stats ← refresh_rate_limit_targets_batch targets rate_limit_refresh_concurrency_from_env;
      _ ← emit_rate_limit_refresh_batch_summary_inner started_at "control_plane.rate_limit_refresh" None
            fetched stats true;
      let refreshed_total := u64_saturating_add refreshed_total (bs_processed stats) in
      mret (if fetched <? batch_size then inr refreshed_total else inl refreshed_total)
  end.

Definition refresh_due_oauth_rate_limit_caches (fuel : nat) : SM (option Z) := loop fuel refresh_due_turn 0.

(** ** Jobs *)

Definition throughput (summary : OAuthRateLimitRefreshJobSummary) (finished_at : DateTime) : option F64 :=
  started_at ← job_started_at summary;
  let elapsed_sec := Z.quot (finished_at - started_at) 1000000000 in
  if elapsed_sec <=? 0 then None else Some (per_minute (job_processed summary) elapsed_sec).

(** Update a job, or say that there is none. *)
Definition with_job (job_id : Uuid)
    (f : OAuthRateLimitRefreshJobSummary → SM OAuthRateLimitRefreshJobSummary) : SM (result unit Error) :=
  jobs ← gets oauth_rate_limit_refresh_jobs;
  match jobs !! job_id with
  | None => mret (Err "job not found")
  | Some summary =>
      summary ← f summary;
      _ ← modify (λ s, s <| oauth_rate_limit_refresh_jobs ::= insert job_id summary |>);
      mret (Ok tt)
  end.

Definition append_rate_limit_refresh_job_progress (job_id : Uuid) (stats : InMemoryRateLimitRefreshBatchStats) :
    SM (result unit Error) :=
  with_job job_id (λ summary, mret (summary
    <| job_processed ::= λ n, u64_saturating_add n (bs_processed stats) |>
    <| job_success_count ::= λ n, u64_saturating_add n (bs_success stats) |>
    <| job_failed_count ::= λ n, u64_saturating_add n (bs_failed stats) |>
    <| job_error_summary ::= λ l, sort_by error_summary_compare
         (fold_left (λ l '(error_code, count), count_error error_code count l)
            (hash_iter (bs_error_counts stats)) l) |>)).

Definition finish_rate_limit_refresh_job (job_id : Uuid) (status : OAuthRateLimitRefreshJobStatus) :
    SM (result unit Error) :=
  with_job job_id (λ summary,
    finished_at ← utc_now;
    mret (summary <| job_status := status |>
                  <| job_finished_at := Some finished_at |>
                  <| job_throughput_per_min := throughput summary finished_at |>)).

Definition mark_rate_limit_refresh_job_failed (job_id : Uuid) (error_code : string) : SM (result unit Error) :=
  with_job job_id (λ summary,
    finished_at ← utc_now;
    mret (summary <| job_status := JobFailed |>
                  <| job_failed_count ::= λ n, u64_saturating_add n 1 |>
                  <| job_error_summary ::= count_error error_code 1 |>
                  <| job_finished_at := Some finished_at |>
                  <| job_throughput_per_min := throughput summary finished_at |>)).

Definition create_rate_limit_refresh_job : SM OAuthRateLimitRefreshJobSummary :=
  create_oauth_rate_limit_refresh_job count_rate_limit_refresh_targets.

(** Claim a queued job: [false] when it is not queued. *)
Definition start_rate_limit_refresh_job (job_id : Uuid) (total : Z) : SM (result bool Error) :=
  jobs ← gets oauth_rate_limit_refresh_jobs;
  match jobs !! job_id with
  | None => mret (Err "job not found")
  | Some summary =>
      if negb (bool_decide (job_status summary = JobQueued)) then mret (Ok false) else
      now ← utc_now;
      let summary := summary <| job_status := JobRunning |>
                             <| job_total := total |>
                             <| job_processed := 0 |>
                             <| job_success_count := 0 |>
                             <| job_failed_count := 0 |>
                             <| job_started_at := Some now |>
                             <| job_finished_at := None |>
                             <| job_throughput_per_min := None |>
                             <| job_error_summary := [] |> in
      _ ← modify (λ s, s <| oauth_rate_limit_refresh_jobs ::= insert job_id summary |>);
      mret (Ok true)
  end.

(** A turn of the job's loop, which carries the cursor. *)
Definition refresh_job_turn (job_id : Uuid) (cursor : option Uuid) :
    SM (option Uuid + result unit Error) :=
  let batch_size := rate_limit_refresh_batch_size_from_env in
  started_at ← utc_now;
  targets ← load_rate_limit_refresh_targets cursor (Z.to_nat batch_size) false;
  match targets return SM (option Uuid + result unit Error) with
  | [] => mret (inr (Ok tt))
  | _ =>
      let fetched := Z.of_nat (length targets) in
      let cursor : option Uuid := rt_account_id <$> list.last targets in
      stats ← refresh_rate_limit_targets_batch targets rate_limit_refresh_concurrency_from_env;
      _ ← emit_rate_limit_refresh_batch_summary_inner started_at "control_plane.rate_limit_refresh_job"
            (Some job_id) fetched stats false;
      r ← append_rate_limit_refresh_job_progress job_id stats;
      mret match r with
           | Err e => inr (Err e)
           | Ok _ => if fetched <? batch_size then inr (Ok tt) else inl cursor
           end
  end.

Definition run_oauth_rate_limit_refresh_job (fuel : nat) (job_id : Uuid) : SM (option (result unit Error)) :=
  total ← count_rate_limit_refresh_targets;
  started ← start_rate_limit_refresh_job job_id total;
  match started with
  | Err e => mret (Some (Err e))
  | Ok false => mret (Some (Ok tt))
  | Ok true =>
      ended ← loop fuel (refresh_job_turn job_id) None;
      match ended with
      | None => mret None
      | Some r =>
          run_result ← match r with
                       | Ok _ => finish_rate_limit_refresh_job job_id JobCompleted
                       | Err e => mret (Err e)
                       end;
          match run_result with
          | Err err =>
              _ ← mark_rate_limit_refresh_job_failed job_id "internal_error";
              mret (Some (Err err))
          | Ok _ => mret (Some (Ok tt))
          end
      end
  end.

(** ** After a success was seen *)

Definition seen_ok_context (account : UpstreamAccount) (provider : UpstreamAuthProvider)
    (credential : option OAuthCredentialRecord) (session_profile : option SessionProfileRecord)
    (cache : OAuthRateLimitCacheRecord) : option SeenOkRateLimitRefreshContext :=
  match provider with
  | OAuthRefreshToken =>
      credential ← credential;
      Some (mkSeenOkRateLimitRefreshContext (Some (ocr_token_expires_at credential))
        (ocr_last_refresh_status credential) (ocr_refresh_reused_detected credential)
        (ocr_last_refresh_error_code credential) (rlc_expires_at cache) (rlc_last_error_code cache)
        (rlc_last_error cache))
  | LegacyBearer =>
      profile ← session_profile;
      if negb (bool_decide (ua_mode account = CodexOauth))
         || negb (bool_decide (spr_credential_kind profile = OneTimeAccessToken)) then None
      else Some (mkSeenOkRateLimitRefreshContext (spr_token_expires_at profile) RefreshNever false None
                   (rlc_expires_at cache) (rlc_last_error_code cache) (rlc_last_error cache))
  end.

Definition maybe_refresh_oauth_rate_limit_cache_on_seen_ok (account_id : Uuid) : SM (result unit Error) :=
  now ← utc_now;
  s ← gets id;
  let credential := oauth_credentials s !! account_id in
  let session_profile := session_profiles s !! account_id in
  let cache := default OAuthRateLimitCacheRecord_default (oauth_rate_limit_caches s !! account_id) in
  match accounts s !! account_id, account_auth_providers s !! account_id with
  | Some account, Some provider =>
      if negb (ua_enabled account) then mret (Ok tt) else
      match seen_ok_context account provider credential session_profile cache with
      | None => mret (Ok tt)
      | Some ctx =>
          if negb (should_refresh_rate_limit_cache_on_seen_ok now ctx) then mret (Ok tt) else
          match build_rate_limit_refresh_target_inner account provider credential session_profile
                  (Some cache) now false with
          | None => mret (Ok tt)
          | Some target =>
              _ ← refresh_rate_limit_targets_batch [target] 1;
              mret (Ok tt)
          end
      end
  | _, _ => mret (Ok tt)
  end.

Definition update_oauth_rate_limit_cache_from_observation (account_id : Uuid)
    (rate_limits : list OAuthRateLimitSnapshot) (observed_at : DateTime) : SM (result unit Error) :=
  _ ← persist_rate_limit_cache_success_inner account_id rate_limits observed_at None;
  mret (Ok tt).
End pool.
