(* ===== verification/OAuthVault.v ===== *)
(** * The vault of refresh tokens: [store/oauth_ops.rs]

    Records of refresh tokens that wait to become accounts: the inventory pages and
    their operations, queueing a token, the probe that admits a record with its fallback
    access token, and the outcome of an activation that failed. *)
From S2P Require Import Prelude RustStr CoreModel Json Request RoutingCache ControlModel StoreDefs Secrets Credentials Store OAuthClient OAuthPool.

#[local] Open Scope string_scope.
#[local] Open Scope list_scope.
#[local] Open Scope Z_scope.

(** ** Errors of an activation *)

Definition classify_vault_activation_error_code (message : string) : string :=
  let lowered := to_ascii_lowercase message in
  if contains lowered "refresh token reused" then "refresh_token_reused"
  else if contains lowered "refresh token revoked" then "refresh_token_revoked"
  else if contains lowered "invalid refresh token" then "invalid_refresh_token"
  else if contains lowered "missing client id" then "missing_client_id"
  else if contains lowered "unauthorized client" then "unauthorized_client"
  else if contains_one_of ["rate_limited"; "rate limit"; "too many requests"] lowered then "rate_limited"
  else if contains_one_of ["upstream unavailable"; "service unavailable"; "temporarily unavailable"] lowered
  then "upstream_unavailable"
  else "vault_activation_failed".

Definition vault_activation_backoff (failure_count : Z) : Duration :=
  if failure_count =? 0 then from_secs 30 else if failure_count =? 1 then from_secs 60
  else if failure_count =? 2 then from_secs 120 else from_secs 300.

Definition derive_admission_rate_limits_expires_at `{Environment} (snapshots : list OAuthRateLimitSnapshot)
    (checked_at : DateTime) : option DateTime :=
  match snapshots with
  | [] => None
  | _ => Some (default (checked_at + from_secs rate_limit_cache_ttl_sec_from_env)
                 (derive_rate_limit_block snapshots checked_at).1)
  end.

Definition stable_vault_token_family_id (refresh_token_sha256 : string) : string :=
  "vault:" +:+ refresh_token_sha256.

Definition oauth_vault_activation_priority (status : OAuthVaultRecordStatus) : Z :=
  match status with
  | VaultReady => 0 | VaultNeedsRefresh => 1 | VaultQueued => 2 | VaultNoQuota => 3 | VaultFailed => 4
  end.

Definition oauth_vault_activation_fallback_status (status : OAuthVaultRecordStatus) : OAuthVaultRecordStatus :=
  match status with VaultReady => VaultNeedsRefresh | other => other end.

(** ** Inventory pages *)

Definition inventory_record (item : OAuthRefreshTokenVaultRecord) : OAuthInventoryRecord :=
  mkOAuthInventoryRecord (vr_id item) (vr_label item) (vr_email item) (vr_chatgpt_account_id item)
    (vr_chatgpt_plan_type item) (vr_source_type item) (vr_status item) true
    (bool_decide (is_Some (vr_fallback_access_token_enc item))) (vr_admission_source item)
    (vr_admission_checked_at item) (vr_admission_retry_after item) (vr_admission_error_code item)
    (vr_admission_error_message item) (vr_admission_rate_limits item)
    (vr_admission_rate_limits_expires_at item) (vr_failure_stage item) (vr_attempt_count item)
    (vr_transient_retry_count item) (vr_next_retry_at item) (vr_retryable item) (vr_terminal_reason item)
    (vr_created_at item) (vr_updated_at item).

Definition inventory_compare (l r : OAuthInventoryRecord) : comparison :=
  then_with (oir_created_at l ?= oir_created_at r) (oir_id l ?= oir_id r)%N.

Definition count_status (summary : OAuthInventorySummaryResponse) (item : OAuthRefreshTokenVaultRecord) :
    OAuthInventorySummaryResponse :=
  let '(mkOAuthInventorySummaryResponse total queued ready needs_refresh no_quota failed) := summary in
  let bump n := u64_saturating_add n 1 in
  match vr_status item with
  | VaultQueued => mkOAuthInventorySummaryResponse total (bump queued) ready needs_refresh no_quota failed
  | VaultReady => mkOAuthInventorySummaryResponse total queued (bump ready) needs_refresh no_quota failed
  | VaultNeedsRefresh => mkOAuthInventorySummaryResponse total queued ready (bump needs_refresh) no_quota failed
  | VaultNoQuota => mkOAuthInventorySummaryResponse total queued ready needs_refresh (bump no_quota) failed
  | VaultFailed => mkOAuthInventorySummaryResponse total queued ready needs_refresh no_quota (bump failed)
  end.

(** ** Records after an operation *)

Definition failed_item (now delete_due_at : DateTime) (reason : option string)
    (item : OAuthRefreshTokenVaultRecord) : OAuthRefreshTokenVaultRecord :=
  item <| vr_status := VaultFailed |>
       <| vr_admission_checked_at := Some now |>
       <| vr_admission_retry_after := None |>
       <| vr_next_retry_at := Some delete_due_at |>
       <| vr_retryable := false |>
       <| vr_terminal_reason ::= λ old,
            if negb (bool_decide (is_Some old)) || bool_decide (is_Some reason)
            then or_else reason (or_else old (vr_admission_error_code item)) else old |>
       <| vr_updated_at := now |>.

Definition restored_item (now : DateTime) (item : OAuthRefreshTokenVaultRecord) : OAuthRefreshTokenVaultRecord :=
  item <| vr_status := VaultQueued |>
       <| vr_failure_count := 0 |>
       <| vr_backoff_until := None |>
       <| vr_next_attempt_at := Some now |>
       <| vr_last_error_code := None |>
       <| vr_last_error_message := None |>
       <| vr_admission_source := None |>
       <| vr_admission_checked_at := None |>
       <| vr_admission_retry_after := None |>
       <| vr_admission_error_code := None |>
       <| vr_admission_error_message := None |>
       <| vr_admission_rate_limits := [] |>
       <| vr_admission_rate_limits_expires_at := None |>
       <| vr_failure_stage := None |>
       <| vr_attempt_count := 0 |>
       <| vr_transient_retry_count := 0 |>
       <| vr_next_retry_at := Some now |>
       <| vr_retryable := true |>
       <| vr_terminal_reason := None |>
       <| vr_updated_at := now |>.

(** The arguments of [update_oauth_vault_admission_result]. *)
Record AdmissionResult := mkAdmissionResult {
  ar_status : OAuthVaultRecordStatus;
  ar_checked_at : DateTime;
  ar_admission_source : option string;
  ar_retry_after : option DateTime;
  ar_error_code : option string;
  ar_error_message : option string;
  ar_fallback_token_expires_at : option DateTime;
  ar_rate_limits : list OAuthRateLimitSnapshot;
  ar_rate_limits_expires_at : option DateTime;
  ar_failure_stage : option OAuthInventoryFailureStage;
  ar_retryable : bool;
  ar_terminal_reason : option string;
  ar_increment_transient_retry_count : bool;
}.

Definition admitted_item (r : AdmissionResult) (item : OAuthRefreshTokenVaultRecord) : OAuthRefreshTokenVaultRecord :=
  item <| vr_status := ar_status r |>
       <| vr_admission_source := ar_admission_source r |>
       <| vr_admission_checked_at := Some (ar_checked_at r) |>
       <| vr_admission_retry_after := ar_retry_after r |>
       <| vr_admission_error_code := ar_error_code r |>
       <| vr_admission_error_message := ar_error_message r |>
       <| vr_fallback_token_expires_at ::= λ old, or_else (ar_fallback_token_expires_at r) old |>
       <| vr_admission_rate_limits := ar_rate_limits r |>
       <| vr_admission_rate_limits_expires_at := ar_rate_limits_expires_at r |>
       <| vr_failure_stage := ar_failure_stage r |>
       <| vr_attempt_count ::= λ n, u32_saturating_add n 1 |>
       <| vr_transient_retry_count ::= λ n,
            if ar_increment_transient_retry_count r then u32_saturating_add n 1 else n |>
       <| vr_next_retry_at := ar_retry_after r |>
       <| vr_retryable := ar_retryable r |>
       <| vr_terminal_reason := ar_terminal_reason r |>
       <| vr_updated_at := ar_checked_at r |>.

(** ** Outcomes of the admission probe *)

Definition FALLBACK : option string := Some "fallback_access_token".

(** No probe could be made. *)
Definition admission_unprobed (status : OAuthVaultRecordStatus) (checked_at : DateTime)
    (source : option string) (code message : string) (retryable : bool) : AdmissionResult :=
  mkAdmissionResult status checked_at source None (Some code) (Some message) None [] None
    (Some AdmissionProbe) retryable (if retryable then None else Some code) false.

Definition admission_answered `{Environment} (checked_at : DateTime)
    (fallback_expires_at : option DateTime) (rate_limits : list OAuthRateLimitSnapshot) : AdmissionResult :=
  let rate_limits_expires_at := derive_admission_rate_limits_expires_at rate_limits checked_at in
  let '(blocked_until, block_reason) := derive_rate_limit_block rate_limits checked_at in
  match fallback_expires_at, block_reason with
  | None, _ =>
      mkAdmissionResult VaultNeedsRefresh checked_at FALLBACK None (Some "expiry_unknown")
        (Some "fallback access token expiry is unknown") None rate_limits rate_limits_expires_at
        (Some AdmissionProbe) true None false
  | _, Some block_reason =>
      mkAdmissionResult VaultNoQuota checked_at FALLBACK blocked_until (Some block_reason)
        (Some (rate_limit_block_message block_reason)) fallback_expires_at rate_limits
        rate_limits_expires_at (Some AdmissionProbe) true None false
  | _, None =>
      mkAdmissionResult VaultReady checked_at FALLBACK None None None fallback_expires_at rate_limits
        rate_limits_expires_at None false None false
  end.

Definition admission_retry_after `{Environment} (checked_at : DateTime) (error_code error_message : string)
    (transient_retry_count : Z) : option DateTime :=
  let transient_signal := is_transient_upstream_error_signal error_code error_message in
  if transient_signal && can_retry_transient_admission_failure transient_retry_count
  then admission_probe_retry_after_with_budget checked_at error_code error_message transient_retry_count
  else if transient_signal then None
  else admission_probe_retry_after_with_budget checked_at error_code error_message transient_retry_count.

Definition admission_refused `{Environment} (checked_at : DateTime) (fallback_expires_at : option DateTime)
    (transient_retry_count : Z) (err : OAuthTokenClientError) : AdmissionResult :=
  let error_code := error_code_str (client_error_code err) in
  let error_message := truncate_error_message (client_error_display err) in
  let transient_signal := is_transient_upstream_error_signal error_code error_message in
  let retry_after := admission_retry_after checked_at error_code error_message transient_retry_count in
  let has_retry := bool_decide (is_Some retry_after) in
  let fatal_auth := is_fatal_refresh_error_code (Some error_code) in
  let status :=
    if fatal_auth then VaultFailed
    else if has_retry && (is_quota_error_signal error_code error_message
                          || is_rate_limited_signal error_code error_message) then VaultNoQuota
    else if is_auth_error_signal error_code error_message then VaultNeedsRefresh
    else VaultFailed in
  let retryable := match status with
                   | VaultReady | VaultQueued => false
                   | VaultNeedsRefresh => true
                   | VaultNoQuota => has_retry
                   | VaultFailed => has_retry && negb fatal_auth
                   end in
  mkAdmissionResult status checked_at FALLBACK retry_after (Some error_code) (Some error_message)
    fallback_expires_at [] retry_after (Some AdmissionProbe) retryable
    (if retryable then None else Some error_code) (transient_signal && has_retry).

(** ** A failed activation *)

Definition activation_failed_item (now : DateTime) (candidate_status : OAuthVaultRecordStatus)
    (error_code error_message : string) (item : OAuthRefreshTokenVaultRecord) : OAuthRefreshTokenVaultRecord :=
  let fatal_auth := is_fatal_refresh_error_code (Some error_code) in
  let terminal_config_error :=
    is_one_of ["credential_cipher_missing"; "credential_decrypt_failed"]
      (normalize_health_error_code error_code) in
  let next_failure_count := u32_saturating_add (vr_failure_count item) 1 in
  let allow_retry := if terminal_config_error then false
                     else if fatal_auth then can_retry_fatal_activation_failure next_failure_count
                     else true in
  let retry_at := if allow_retry then Some (now + vault_activation_backoff next_failure_count) else None in
  item <| vr_status := if allow_retry then oauth_vault_activation_fallback_status candidate_status
                       else VaultFailed |>
       <| vr_failure_count := next_failure_count |>
       <| vr_last_error_code := Some error_code |>
       <| vr_last_error_message := Some error_message |>
       <| vr_failure_stage := Some ActivationRefresh |>
       <| vr_attempt_count ::= λ n, u32_saturating_add n 1 |>
       <| vr_updated_at := now |>
       <| vr_retryable := allow_retry |>
       <| vr_terminal_reason := if allow_retry then None else Some error_code |>
       <| vr_backoff_until := retry_at |>
       <| vr_next_attempt_at := retry_at |>
       <| vr_next_retry_at := retry_at |>.

(** ** Candidates *)

(** [o.is_none_or(|t| t <= now)] and [o.is_some_and(|t| t <= now)]. *)
Definition none_or_due (now : DateTime) (o : option DateTime) : bool := from_option (λ t, t <=? now) true o.
Definition some_due (now : DateTime) (o : option DateTime) : bool := from_option (λ t, t <=? now) false o.

Definition activation_candidate (now : DateTime) (item : OAuthRefreshTokenVaultRecord) : bool :=
  match vr_status item with VaultReady | VaultNeedsRefresh | VaultQueued => true | _ => false end
  && none_or_due now (vr_backoff_until item) && none_or_due now (vr_next_attempt_at item).

Definition activation_compare (l r : OAuthRefreshTokenVaultRecord) : comparison :=
  then_with (oauth_vault_activation_priority (vr_status l) ?= oauth_vault_activation_priority (vr_status r))
    (then_with (vr_created_at l ?= vr_created_at r) (vr_id l ?= vr_id r)%N).

Definition reprobe_candidate (now : DateTime) (item : OAuthRefreshTokenVaultRecord) : bool :=
  match vr_status item with VaultNoQuota | VaultFailed => true | _ => false end
  && some_due now (vr_admission_retry_after item).

Definition reprobe_compare (l r : OAuthRefreshTokenVaultRecord) : comparison :=
  then_with (option_compare Z.compare (vr_admission_retry_after l) (vr_admission_retry_after r))
    (then_with (vr_created_at l ?= vr_created_at r) (vr_id l ?= vr_id r)%N).

Definition inventory_due (now : DateTime) (delete_delay : Duration) (item : OAuthRefreshTokenVaultRecord) : bool :=
  bool_decide (vr_status item = VaultFailed) && negb (vr_retryable item)
  && (default (vr_updated_at item + delete_delay) (vr_next_retry_at item) <=? now).

Section vault.
Context `{Base64, Aes256Gcm, NonceSource, Digests, UuidSource, WallClock, UuidText, Environment, IdOrder}.
Context `{OAuthTokenClient, UrlSafeBase64, SerdeJson, Chrono}.
Context `{UrlFragment}.

Abbreviation SM := (ST (Timed InMemoryStore)).

Definition oauth_inventory_summary_inner : SM OAuthInventorySummaryResponse :=
  vault ← gets oauth_refresh_token_vault;
  mret (fold_left count_status (id_values vault)
          (mkOAuthInventorySummaryResponse (Z.of_nat (size vault)) 0 0 0 0 0)).

Definition oauth_inventory_records_inner : SM (list OAuthInventoryRecord) :=
  vault ← gets oauth_refresh_token_vault;
  mret (sort_by inventory_compare (inventory_record <$> id_values vault)).

(** Update a record, or say that there is none. *)
Definition with_vault_record (record_id : Uuid) (f : OAuthRefreshTokenVaultRecord → OAuthRefreshTokenVaultRecord) :
    SM (result unit Error) :=
  vault ← gets oauth_refresh_token_vault;
  match vault !! record_id with
  | None => mret (Err "oauth inventory record not found")
  | Some item =>
      _ ← modify (λ s, s <| oauth_refresh_token_vault ::= insert record_id (f item) |>);
      _ ← bump_revision;
      mret (Ok tt)
  end.

(** Update the records that exist; the revision moves when there was one. *)
Definition with_vault_records (record_ids : list Uuid)
    (f : OAuthRefreshTokenVaultRecord → OAuthRefreshTokenVaultRecord) : SM unit :=
  vault ← gets oauth_refresh_token_vault;
  let changed := existsb (λ i, bool_decide (is_Some (vault !! i))) record_ids in
  _ ← modify (λ s, s <| oauth_refresh_token_vault ::= λ vault,
        fold_left (λ vault i, alter f i vault) record_ids vault |>);
  if changed then bump_revision else mret tt.

Definition mark_oauth_inventory_record_failed_inner (record_id : Uuid) (reason : option string) :
    SM (result unit Error) :=
  now ← utc_now;
  let delete_due_at := now + from_secs pending_purge_delay_sec_from_env in
  with_vault_record record_id (failed_item now delete_due_at (trimmed_non_empty reason)).

Definition mark_oauth_inventory_records_failed_inner (record_ids : list Uuid) (reason : option string) : SM unit :=
  now ← utc_now;
  let delete_due_at := now + from_secs pending_purge_delay_sec_from_env in
  with_vault_records record_ids (failed_item now delete_due_at (trimmed_non_empty reason)).

Definition delete_oauth_inventory_record_inner (record_id : Uuid) : SM (result unit Error) :=
  vault ← gets oauth_refresh_token_vault;
  match vault !! record_id with
  | None => mret (Err "oauth inventory record not found")
  | Some _ =>
      _ ← modify (λ s, s <| oauth_refresh_token_vault ::= delete record_id |>);
      _ ← bump_revision;
      mret (Ok tt)
  end.

Definition delete_oauth_inventory_records_inner (record_ids : list Uuid) : SM unit :=
  vault ← gets oauth_refresh_token_vault;
  let changed := existsb (λ i, bool_decide (is_Some (vault !! i))) record_ids in
  _ ← modify (λ s, s <| oauth_refresh_token_vault ::= λ vault, fold_left (λ vault i, delete i vault) record_ids vault |>);
  if changed then bump_revision else mret tt.

Definition restore_oauth_inventory_record_inner (record_id : Uuid) : SM (result unit Error) :=
  now ← utc_now;
  with_vault_record record_id (restored_item now).

Definition restore_oauth_inventory_records_inner (record_ids : list Uuid) : SM unit :=
  now ← utc_now;
  with_vault_records record_ids (restored_item now).

Definition purge_due_oauth_inventory_records_inner : SM Z :=
  now ← utc_now;
  let delete_delay := from_secs pending_purge_delay_sec_from_env in
  vault ← gets oauth_refresh_token_vault;
  let due_record_ids := vr_id <$> List.filter (inventory_due now delete_delay) (id_values vault) in
  _ ← delete_oauth_inventory_records_inner due_record_ids;
  mret (Z.of_nat (length due_record_ids)).

(** ** Queueing *)

(** The record of a refresh token, in the order the table is visited. *)
Definition vault_record_id_by_hash (refresh_hash : string) (vault : gmap Uuid OAuthRefreshTokenVaultRecord) :
    option Uuid :=
  fst <$> List.find (λ kv, String.eqb (vr_refresh_token_sha256 kv.2) refresh_hash) (id_iter vault).

Definition oauth_vault_record_id_for_request (req : ImportOAuthRefreshTokenRequest) : SM (option Uuid) :=
  vault ← gets oauth_refresh_token_vault;
  mret (vault_record_id_by_hash (refresh_token_sha256 (imp_refresh_token req)) vault).

(** [opt.map(|token| cipher.encrypt(token)).transpose()]. *)
Definition encrypt_option (c : CredentialCipher) (token : option string) : SM (result (option string) Error) :=
  match token with
  | Some token => enc ←? encrypt c token; mret (Ok (Some enc))
  | None => mret (Ok None)
  end.

Definition queued_record (req : ImportOAuthRefreshTokenRequest) (record_id : Uuid) (now created_at : DateTime)
    (refresh_token_enc : string) (fallback_access_token_enc : option string) : OAuthRefreshTokenVaultRecord :=
  let desired_mode := resolve_oauth_import_mode (imp_mode req) (imp_source_type req) in
  mkOAuthRefreshTokenVaultRecord record_id (imp_label req) None
    (normalize_upstream_account_base_url desired_mode (imp_base_url req))
    refresh_token_enc fallback_access_token_enc (imp_fallback_token_expires_at req)
    (refresh_token_sha256 (imp_refresh_token req)) (imp_chatgpt_account_id req) (imp_chatgpt_plan_type req)
    (imp_source_type req) desired_mode (default true (imp_enabled req)) (default 100 (imp_priority req))
    VaultQueued 0 None (Some now) None None None None None None None [] None None 0 0 (Some now) true None
    created_at now.

Definition queue_oauth_refresh_token_inner (req : ImportOAuthRefreshTokenRequest) : SM (result bool Error) :=
  cipher ←? require_credential_cipher;
  now ← utc_now;
  vault ← gets oauth_refresh_token_vault;
  let existing_id := vault_record_id_by_hash (refresh_token_sha256 (imp_refresh_token req)) vault in
  fallback_access_token_enc ←? encrypt_option cipher (trimmed_non_empty (imp_fallback_access_token req));
  record_id ← match existing_id with Some i => mret i | None => new_v4 end;
  let created_at := from_option vr_created_at now (existing_id ≫= λ i, vault !! i) in
  refresh_token_enc ←? encrypt cipher (imp_refresh_token req);
  _ ← modify (λ s, s <| oauth_refresh_token_vault ::= insert record_id
        (queued_record req record_id now created_at refresh_token_enc fallback_access_token_enc) |>);
  mret (Ok (negb (bool_decide (is_Some existing_id)))).

(** ** Admission *)

Definition update_oauth_vault_admission_result (record_id : Uuid) (r : AdmissionResult) : SM unit :=
  _ ← modify (λ s, s <| oauth_refresh_token_vault ::= alter (admitted_item r) record_id |>);
  bump_revision.

(** What the probe of a record finds. *)
Definition probe_admission (record : OAuthRefreshTokenVaultRecord) (checked_at : DateTime) : SM AdmissionResult :=
  c ← gets credential_cipher;
  match c with
  | None =>
      mret (admission_unprobed VaultFailed checked_at None "credential_cipher_missing"
              "oauth credential cipher is not configured" false)
  | Some cipher =>
      match vr_fallback_access_token_enc record with
      | None =>
          mret (admission_unprobed VaultNeedsRefresh checked_at None "missing_access_token_fallback"
                  "fallback access token is not available" true)
      | Some fallback_token_enc =>
          match decrypt cipher fallback_token_enc with
          | Err err =>
              mret (admission_unprobed VaultFailed checked_at FALLBACK "credential_decrypt_failed"
                      (truncate_error_message err) false)
          | Ok fallback_access_token =>
              if is_empty (trim fallback_access_token)
              then mret (admission_unprobed VaultFailed checked_at FALLBACK "credential_decrypt_failed"
                           "fallback access token is empty" false)
              else
                let fallback_expires_at :=
                  or_else (vr_fallback_token_expires_at record)
                    (parse_jwt_exp_from_access_token fallback_access_token) in
                reply ← call (λ n, fetch_rate_limits n fallback_access_token (Some (vr_base_url record))
                                     (vr_chatgpt_account_id record));
                mret match reply with
                     | Ok rate_limits => admission_answered checked_at fallback_expires_at rate_limits
                     | Err err => admission_refused checked_at fallback_expires_at
                                    (vr_transient_retry_count record) err
                     end
          end
      end
  end.

Definition probe_oauth_vault_admission_inner (record_id : Uuid) : SM (result unit Error) :=
  vault ← gets oauth_refresh_token_vault;
  match vault !! record_id with
  | None => mret (Ok tt)
  | Some record =>
      checked_at ← utc_now;
      r ← probe_admission record checked_at;
      _ ← update_oauth_vault_admission_result record_id r;
      mret (Ok tt)
  end.

Definition reprobe_oauth_inventory_record_inner (record_id : Uuid) : SM (result unit Error) :=
  _ ←? restore_oauth_inventory_record_inner record_id;
  probe_oauth_vault_admission_inner record_id.

(** [reprobe_oauth_inventory_records]: the first record that fails ends the loop. *)
Fixpoint reprobe_oauth_inventory_records (record_ids : list Uuid) : SM (result unit Error) :=
  match record_ids with
  | [] => mret (Ok tt)
  | record_id :: record_ids =>
      _ ←? reprobe_oauth_inventory_record_inner record_id;
      reprobe_oauth_inventory_records record_ids
  end.

Definition queue_oauth_refresh_token (req : ImportOAuthRefreshTokenRequest) : SM (result bool Error) :=
  created ←? queue_oauth_refresh_token_inner req;
  record_id ← oauth_vault_record_id_for_request req;
  match record_id with
  | Some record_id =>
      _ ←? probe_oauth_vault_admission_inner record_id;
      mret (Ok created)
  | None => mret (Ok created)
  end.

(** ** Activation *)

Definition mark_oauth_vault_activation_failed_inner (record_id : Uuid)
    (candidate_status : OAuthVaultRecordStatus) (error_code error_message : string) : SM unit :=
  now ← utc_now;
  modify (λ s, s <| oauth_refresh_token_vault ::=
    alter (activation_failed_item now candidate_status error_code error_message) record_id |>).

Definition oauth_vault_activation_candidates_inner (now : DateTime) (limit : nat) :
    SM (list OAuthRefreshTokenVaultRecord) :=
  vault ← gets oauth_refresh_token_vault;
  mret (take limit (sort_by activation_compare (List.filter (activation_candidate now) (id_values vault)))).

Definition oauth_vault_admission_reprobe_candidates_inner (now : DateTime) (limit : nat) : SM (list Uuid) :=
  vault ← gets oauth_refresh_token_vault;
  mret (vr_id <$> take limit (sort_by reprobe_compare (List.filter (reprobe_candidate now) (id_values vault)))).
End vault.
