(* ===== verification/OAuthAccounts.v ===== *)
(** * OAuth accounts: [store/oauth_ops.rs]

    Accounts made from refresh tokens and one-time sessions, the accounts of one
    identity, refreshes of access tokens, and the activation of the vault. *)
From S2P Require Import Prelude RustStr CoreModel Json Request RoutingCache ControlModel StoreDefs Secrets Credentials Store StoreConfig StoreSnapshot OAuthClient Kept OAuthPool OAuthVault.

#[local] Open Scope string_scope.
#[local] Open Scope list_scope.
#[local] Open Scope Z_scope.

(** ** Identities *)

(** [created_at] and then the identifier. *)
Definition account_age_compare (l r : UpstreamAccount) : comparison :=
  then_with (ua_created_at l ?= ua_created_at r) (ua_id l ?= ua_id r)%N.

(** [Some(account_user)], else [Some(user, account)] when both are there. *)
Definition identity_text (account_user_id user_id account_id : option string) : option string :=
  or_else (String.append "account_user:" <$> trimmed_non_empty account_user_id)
    match trimmed_non_empty user_id, trimmed_non_empty account_id with
    | Some user_id, Some account_id => Some ("user_account:" +:+ user_id +:+ ":" +:+ account_id)
    | _, _ => None
    end.

Definition profile_identity (account : UpstreamAccount) (profile : SessionProfileRecord) : option string :=
  identity_text (spr_chatgpt_account_user_id profile) (spr_chatgpt_user_id profile)
    (ua_chatgpt_account_id account).

(** The test of [canonical_oauth_account_id_by_identity] on a profile. *)
Definition matches_identity (target_account_user_id target_user_id target_account_id : option string)
    (account : UpstreamAccount) (profile : SessionProfileRecord) : bool :=
  match target_account_user_id with
  | Some target => bool_decide (trim <$> spr_chatgpt_account_user_id profile = Some target)
  | None =>
      match target_user_id, target_account_id with
      | Some target_user, Some target_account =>
          bool_decide (trim <$> spr_chatgpt_user_id profile = Some target_user)
          && bool_decide (trim <$> ua_chatgpt_account_id account = Some target_account)
      | _, _ => false
      end
  end.

Section accounts.
Context `{Base64, Aes256Gcm, NonceSource, Digests, UuidSource, WallClock, UuidText, Environment, IdOrder}.
Context `{HashOrder, CompletionOrder, OAuthTokenClient, UrlSafeBase64, SerdeJson, Chrono}.
Context `{UrlFragment}.

Abbreviation SM := (ST (Timed InMemoryStore)).

Definition is_oauth_account (s : InMemoryStore) (account_id : Uuid) : bool :=
  bool_decide (account_auth_providers s !! account_id = Some OAuthRefreshToken).

Definition matched_oauth_account_id_for_vault_record (record : OAuthRefreshTokenVaultRecord) :
    SM (option Uuid) :=
  gets (λ s,
    let newest p := ua_id <$> max_by account_age_compare (List.filter p (id_values (accounts s))) in
    or_else
      (newest (λ account, is_oauth_account s (ua_id account)
         && from_option (λ credential,
              String.eqb (ocr_refresh_token_sha256 credential) (vr_refresh_token_sha256 record)) false
              (oauth_credentials s !! ua_id account)))
      (target_account_id ← trimmed_non_empty (vr_chatgpt_account_id record);
       newest (λ account, is_oauth_account s (ua_id account)
         && bool_decide (trim <$> ua_chatgpt_account_id account = Some target_account_id)))).

Definition canonical_oauth_account_id_by_identity
    (target_chatgpt_account_user_id target_chatgpt_user_id target_chatgpt_account_id : option string) :
    SM (option Uuid) :=
  let account_user := trimmed_non_empty target_chatgpt_account_user_id in
  let user := trimmed_non_empty target_chatgpt_user_id in
  let account := trimmed_non_empty target_chatgpt_account_id in
  if negb (bool_decide (is_Some account_user))
     && (negb (bool_decide (is_Some user)) || negb (bool_decide (is_Some account)))
  then mret None
  else gets (λ s,
    ua_id <$> max_by account_age_compare
      (List.filter (λ a, is_oauth_account s (ua_id a)
                         && from_option (matches_identity account_user user account a) false
                              (session_profiles s !! ua_id a)) (id_values (accounts s)))).

(** ** One account per identity *)

(** The identity an account is grouped under, if it takes part. *)
Definition dedupe_key (s : InMemoryStore) (target_key : option string) (account : UpstreamAccount) :
    option string :=
  if negb (is_oauth_account s (ua_id account)) then None else
  key ← session_profiles s !! ua_id account ≫= profile_identity account;
  if from_option (λ target, negb (String.eqb target key)) false target_key then None else Some key.

Definition group_by_identity (s : InMemoryStore) (target_key : option string) :
    gmap string (list UpstreamAccount) :=
  fold_left (λ grouped account,
    match dedupe_key s target_key account with
    | Some key => <[key := default [] (grouped !! key) ++ [account]]> grouped
    | None => grouped
    end) (id_values (accounts s)) ∅.

(** All but the newest account of each group. *)
Definition duplicate_ids (s : InMemoryStore) (target_key : option string) : list Uuid :=
  mjoin ((λ kv, ua_id <$> drop 1 (sort_by (λ l r, account_age_compare r l) kv.2))
           <$> hash_iter (group_by_identity s target_key)).

Definition remove_account (s : InMemoryStore) (account_id : Uuid) : InMemoryStore :=
  s <| accounts ::= delete account_id |>
    <| account_auth_providers ::= delete account_id |>
    <| oauth_credentials ::= delete account_id |>
    <| session_profiles ::= delete account_id |>
    <| account_health_states ::= delete account_id |>
    <| oauth_rate_limit_caches ::= delete account_id |>.

Definition dedupe_oauth_accounts_by_identity_inner
    (target_chatgpt_account_user_id target_chatgpt_user_id target_chatgpt_account_id : option string) : SM Z :=
  let target_key := identity_text target_chatgpt_account_user_id target_chatgpt_user_id
                      target_chatgpt_account_id in
  duplicates ← gets (λ s, duplicate_ids s target_key);
  match duplicates with
  | [] => mret 0
  | _ =>
      _ ← modify (λ s, fold_left remove_account duplicates s);
      _ ← bump_revision;
      mret (Z.of_nat (length duplicates))
  end.

(** ** Importing *)

Definition validate_oauth_refresh_token_inner (req : ValidateOAuthRefreshTokenRequest) :
    SM (result ValidateOAuthRefreshTokenResponse Error) :=
  reply ← call (λ n, refresh_token n (vrq_refresh_token req) (vrq_base_url req));
  mret match reply with
       | Err err => Err (client_error_display err)
       | Ok t => Ok (mkValidateOAuthRefreshTokenResponse (oti_expires_at t) (oti_token_type t) (oti_scope t)
                       (oti_chatgpt_account_id t) (oti_chatgpt_user_id t) (oti_chatgpt_account_user_id t))
       end.

Definition put_account (account : UpstreamAccount) : SM unit :=
  modify (λ s, s <| accounts ::= insert (ua_id account) account |>).
Definition put_provider (account_id : Uuid) (provider : UpstreamAuthProvider) : SM unit :=
  modify (λ s, s <| account_auth_providers ::= insert account_id provider |>).

Definition import_oauth_refresh_token_with_token_info_inner (req : ImportOAuthRefreshTokenRequest)
    (resolved_mode : UpstreamMode) (normalized_base_url : string) (token_info : OAuthTokenInfo) :
    SM (result UpstreamAccount Error) :=
  cipher ←? require_credential_cipher;
  i ← new_v4;
  now ← utc_now;
  let account := mkUpstreamAccount i (imp_label req) resolved_mode normalized_base_url
                   OAUTH_MANAGED_BEARER_SENTINEL
                   (or_else (imp_chatgpt_account_id req) (oti_chatgpt_account_id token_info))
                   (default true (imp_enabled req)) (default 100 (imp_priority req)) now in
  credential ←? from_token_info cipher token_info;
  credential ←? set_fallback_access_token credential cipher (imp_fallback_access_token req)
                  (imp_fallback_token_expires_at req);
  _ ← put_account account;
  _ ← put_provider i OAuthRefreshToken;
  _ ← upsert_oauth_credential i credential;
  _ ← upsert_session_profile i
        (from_oauth_token_info token_info RefreshRotatable (imp_chatgpt_plan_type req) (imp_source_type req));
  _ ← bump_revision;
  mret (Ok account).

(** The refresh call an import begins with. *)
Definition exchange_refresh_token (token base_url : string) : SM (result OAuthTokenInfo Error) :=
  reply ← call (λ n, refresh_token n token (Some base_url));
  mret match reply with Ok t => Ok t | Err err => Err (client_error_display err) end.

Definition import_oauth_refresh_token_inner (req : ImportOAuthRefreshTokenRequest) :
    SM (result UpstreamAccount Error) :=
  let resolved_mode := resolve_oauth_import_mode (imp_mode req) (imp_source_type req) in
  let normalized_base_url := normalize_upstream_account_base_url resolved_mode (imp_base_url req) in
  token_info ←? exchange_refresh_token (imp_refresh_token req) normalized_base_url;
  import_oauth_refresh_token_with_token_info_inner req resolved_mode normalized_base_url token_info.

(** The account a new token belongs to: by the hash of the refresh token, in the order
    the table is visited, else by identity. *)
Definition account_id_by_refresh_hash (refresh_hash : string) : SM (option Uuid) :=
  gets (λ s, fst <$> List.find (λ kv,
    bool_decide (default LegacyBearer (account_auth_providers s !! kv.1) = OAuthRefreshToken)
    && from_option (λ credential, String.eqb (ocr_refresh_token_sha256 credential) refresh_hash) false
         (oauth_credentials s !! kv.1)) (id_iter (accounts s))).

(** The new credential of a known account. *)
Definition merged_credential (cipher : CredentialCipher) (req : ImportOAuthRefreshTokenRequest)
    (token_info : OAuthTokenInfo) (existing : option OAuthCredentialRecord) :
    SM (result OAuthCredentialRecord Error) :=
  credential ←? from_token_info cipher token_info;
  let credential := match existing with
                    | Some existing =>
                        credential <| ocr_token_family_id := ocr_token_family_id existing |>
                                   <| ocr_token_version := u64_saturating_add (ocr_token_version existing) 1 |>
                    | None => credential
                    end in
  match trimmed_non_empty (imp_fallback_access_token req), existing with
  | Some _, _ => set_fallback_access_token credential cipher (imp_fallback_access_token req)
                   (imp_fallback_token_expires_at req)
  | None, Some existing =>
      mret (Ok credential
        <| ocr_fallback_access_token_enc := ocr_fallback_access_token_enc existing |>
        <| ocr_fallback_token_expires_at := ocr_fallback_token_expires_at existing |>)
  | None, None => mret (Ok credential)
  end.

(** Write a token to the account it matched. The account is written before the
    credential is made. *)
Definition update_matched_account (cipher : CredentialCipher) (req : ImportOAuthRefreshTokenRequest)
    (resolved_mode : UpstreamMode) (normalized_base_url : string) (chatgpt_account_id : option string)
    (token_info : OAuthTokenInfo) (account_id : Uuid) : SM (result UpstreamAccount Error) :=
  known ← lookup_account account_id;
  match known with
  | None => mret (Err "matched oauth account is missing")
  | Some account =>
      let account := account <| ua_label := imp_label req |>
                             <| ua_mode := resolved_mode |>
                             <| ua_base_url := normalized_base_url |>
                             <| ua_bearer_token := OAUTH_MANAGED_BEARER_SENTINEL |>
                             <| ua_chatgpt_account_id := chatgpt_account_id |>
                             <| ua_enabled := default true (imp_enabled req) |>
                             <| ua_priority := default 100 (imp_priority req) |> in
      _ ← modify (λ s, s <| accounts ::= insert account_id account |>);
      credentials ← gets oauth_credentials;
      credential ←? merged_credential cipher req token_info (credentials !! account_id);
      _ ← put_provider account_id OAuthRefreshToken;
      _ ← upsert_oauth_credential account_id credential;
      profiles ← gets session_profiles;
      _ ← upsert_session_profile account_id
            (merge_oauth_token_info
               (default (from_oauth_token_info token_info RefreshRotatable None None)
                  (profiles !! account_id))
               token_info RefreshRotatable (imp_chatgpt_plan_type req) (imp_source_type req));
      _ ← bump_revision;
      updated ← lookup_account account_id;
      mret match updated with
           | Some account => Ok account
           | None => Err "updated oauth account not found"
           end
  end.

Definition upsert_oauth_refresh_token_inner (req : ImportOAuthRefreshTokenRequest) :
    SM (result OAuthUpsertResult Error) :=
  cipher ←? require_credential_cipher;
  let resolved_mode := resolve_oauth_import_mode (imp_mode req) (imp_source_type req) in
  let normalized_base_url := normalize_upstream_account_base_url resolved_mode (imp_base_url req) in
  token_info ←? exchange_refresh_token (imp_refresh_token req) normalized_base_url;
  let chatgpt_account_id := or_else (imp_chatgpt_account_id req) (oti_chatgpt_account_id token_info) in
  let dedupe := dedupe_oauth_accounts_by_identity_inner (oti_chatgpt_account_user_id token_info)
                  (oti_chatgpt_user_id token_info) chatgpt_account_id in
  by_hash ← account_id_by_refresh_hash (refresh_token_sha256 (oti_refresh_token token_info));
  matched_account_id ←
    match by_hash with
    | Some i => mret (Some i)
    | None => canonical_oauth_account_id_by_identity (oti_chatgpt_account_user_id token_info)
                (oti_chatgpt_user_id token_info) chatgpt_account_id
    end;
  match matched_account_id with
  | Some account_id =>
      account ←? update_matched_account cipher req resolved_mode normalized_base_url chatgpt_account_id
                   token_info account_id;
      _ ← dedupe;
      mret (Ok (mkOAuthUpsertResult account false))
  | None =>
      account ←? import_oauth_refresh_token_with_token_info_inner req resolved_mode normalized_base_url
                   token_info;
      _ ← dedupe;
      mret (Ok (mkOAuthUpsertResult account true))
  end.

(** ** One-time sessions *)

Definition matches_session (s : InMemoryStore) (mode : UpstreamMode) (label : string)
    (chatgpt_account_id : option string) (kv : Uuid * UpstreamAccount) : bool :=
  let '(account_id, account) := kv in
  bool_decide (default LegacyBearer (account_auth_providers s !! account_id) = LegacyBearer)
  && (match chatgpt_account_id with
      | Some target => bool_decide (ua_chatgpt_account_id account = Some target)
      | None => false
      end
      || bool_decide (ua_mode account = mode)
         && negb (bool_decide (is_Some chatgpt_account_id)) && String.eqb (ua_label account) label).

Definition upsert_one_time_session_account_inner (req : UpsertOneTimeSessionAccountRequest) :
    SM (result OAuthUpsertResult Error) :=
  let chatgpt_account_id := trimmed_non_empty (one_chatgpt_account_id req) in
  let label := trim (one_label req) in
  if is_empty label then mret (Err "label is required") else
  let base_url := normalize_upstream_account_base_url (one_mode req) (one_base_url req) in
  let profile := one_time_access_token (one_token_expires_at req) (one_chatgpt_plan_type req)
                   (one_source_type req) in
  matched_account_id ← gets (λ s,
    fst <$> List.find (matches_session s (one_mode req) label chatgpt_account_id) (id_iter (accounts s)));
  match matched_account_id with
  | Some account_id =>
      known ← lookup_account account_id;
      match known with
      | None => mret (Err "matched one-time account is missing")
      | Some account =>
          let account := account <| ua_label := label |>
                                 <| ua_mode := one_mode req |>
                                 <| ua_base_url := base_url |>
                                 <| ua_bearer_token := one_access_token req |>
                                 <| ua_chatgpt_account_id := chatgpt_account_id |>
                                 <| ua_enabled := default true (one_enabled req) |>
                                 <| ua_priority := default 100 (one_priority req) |> in
          _ ← modify (λ s, s <| accounts ::= insert account_id account |>);
          _ ← put_provider account_id LegacyBearer;
          _ ← upsert_session_profile account_id profile;
          _ ← bump_revision;
          updated ← lookup_account account_id;
          mret match updated with
               | Some account => Ok (mkOAuthUpsertResult account false)
               | None => Err "updated one-time account not found"
               end
      end
  | None =>
      i ← new_v4;
      now ← utc_now;
      let account := mkUpstreamAccount i label (one_mode req) base_url (one_access_token req)
                       chatgpt_account_id (default true (one_enabled req)) (default 100 (one_priority req))
                       now in
      _ ← put_account account;
      _ ← put_provider i LegacyBearer;
      _ ← upsert_session_profile i profile;
      _ ← bump_revision;
      mret (Ok (mkOAuthUpsertResult account true))
  end.

(** ** The status of an account *)

(** The name of the workspace of a team account, asked for once. *)
Definition maybe_backfill_workspace_name_from_probe_inner (account : UpstreamAccount)
    (provider : UpstreamAuthProvider) (credential : option OAuthCredentialRecord)
    (session_profile : option SessionProfileRecord) : SM (option SessionProfileRecord) :=
  match session_profile with
  | None => mret None
  | Some profile =>
      if negb (bool_decide (provider = OAuthRefreshToken)) then mret (Some profile)
      else if negb (is_team_plan (spr_chatgpt_plan_type profile)) then mret (Some profile)
      else if bool_decide (is_Some (trimmed_non_empty (spr_workspace_name profile))) then mret (Some profile)
      else match trimmed_non_empty (ua_chatgpt_account_id account), credential with
      | Some chatgpt_account_id, Some credential =>
          c ← require_credential_cipher;
          match c with
          | Err _ => mret (Some profile)
          | Ok cipher =>
              match decrypt cipher (ocr_access_token_enc credential) with
              | Err _ => mret (Some profile)
              | Ok access_token =>
                  if is_empty (trim access_token) then mret (Some profile) else
                  reply ← call (λ n, fetch_workspace_name n access_token (Some (ua_base_url account))
                                       (Some chatgpt_account_id));
                  match reply with
                  | Ok name =>
                      match trimmed_non_empty name with
                      | Some workspace_name =>
                          let profile := profile <| spr_workspace_name := Some workspace_name |> in
                          _ ← upsert_session_profile (ua_id account) profile;
                          mret (Some profile)
                      | None => mret (Some profile)
                      end
                  | Err _ => mret (Some profile)
                  end
              end
          end
      | _, _ => mret (Some profile)
      end
  end.

Definition oauth_account_status_inner (account_id : Uuid) : SM (result OAuthAccountStatusResponse Error) :=
  known ← lookup_account account_id;
  match known with
  | None => mret (Err "account not found")
  | Some account =>
      provider ← account_auth_provider account_id;
      credentials ← gets oauth_credentials;
      profiles ← gets session_profiles;
      session_profile ← maybe_backfill_workspace_name_from_probe_inner account provider
                          (credentials !! account_id) (profiles !! account_id);
      status ← oauth_status_from account provider (credentials !! account_id) session_profile;
      mret (Ok status)
  end.

(** ** Refreshing an access token *)

(** The credential after a refusal. *)
Definition refused_credential (credential : OAuthCredentialRecord) (now : DateTime)
    (err : OAuthTokenClientError) : OAuthCredentialRecord :=
  let error_code := error_code_str (client_error_code err) in
  let credential :=
    credential <| ocr_last_refresh_status := RefreshFailed |>
               <| ocr_last_refresh_at := Some now |>
               <| ocr_refresh_reused_detected :=
                    is_one_of ["refresh_token_reused"; "refresh_token_revoked"] error_code |>
               <| ocr_last_refresh_error_code := Some error_code |>
               <| ocr_last_refresh_error := Some (truncate_error_message (client_error_display err)) |>
               <| ocr_refresh_failure_count ::= λ n, u32_saturating_add n 1 |> in
  credential <| ocr_refresh_backoff_until := Some (now + backoff_duration credential) |>.

Definition has_fallback_now (credential : OAuthCredentialRecord) (now : DateTime) : bool :=
  has_usable_access_token_fallback (has_access_token_fallback credential)
    (ocr_fallback_token_expires_at credential) now.

(** A refusal: the credential, and what becomes of its account and its family. *)
Definition refresh_refused (account_id : Uuid) (credential : OAuthCredentialRecord) (now : DateTime)
    (err : OAuthTokenClientError) : SM OAuthCredentialRecord :=
  let error_code := error_code_str (client_error_code err) in
  let credential := refused_credential credential now err in
  _ ← upsert_oauth_credential account_id credential;
  _ ← (if ocr_refresh_reused_detected credential
       then mark_oauth_family_pending_purge_inner (ocr_token_family_id credential) (Some error_code)
       else if is_fatal_refresh_error_code (Some error_code) && negb (has_fallback_now credential now)
       then _ ← mark_upstream_account_pending_purge_inner account_id (Some error_code); mret tt
       else mret tt);
  mret credential.

(** The account identifier a token came with, in the store and in the copy. *)
Definition adopt_chatgpt_account_id (account_id : Uuid) (account : UpstreamAccount) (new_id : option string) :
    SM UpstreamAccount :=
  match new_id with
  | None => mret account
  | Some new_id =>
      stored ← lookup_account account_id;
      match stored with
      | None => mret account
      | Some stored =>
          _ ← modify (λ s, s <| accounts ::= insert account_id
                                  (stored <| ua_chatgpt_account_id := Some new_id |>) |>);
          mret (account <| ua_chatgpt_account_id := Some new_id |>)
      end
  end.

(** A new token: the credential keeps its family, with the next version. *)
Definition refresh_granted (account_id : Uuid) (cipher : CredentialCipher) (account : UpstreamAccount)
    (credential : OAuthCredentialRecord) (token_info : OAuthTokenInfo) :
    SM (result (UpstreamAccount * OAuthCredentialRecord) Error) :=
  fresh ←? from_token_info cipher token_info;
  let fresh := fresh <| ocr_token_family_id := ocr_token_family_id credential |>
                     <| ocr_token_version := u64_saturating_add (ocr_token_version credential) 1 |> in
  _ ← upsert_oauth_credential account_id fresh;
  account ← adopt_chatgpt_account_id account_id account (oti_chatgpt_account_id token_info);
  profiles ← gets session_profiles;
  _ ← upsert_session_profile account_id
        match profiles !! account_id with
        | Some profile => merge_oauth_token_info profile token_info RefreshRotatable None None
        | None => from_oauth_token_info token_info RefreshRotatable None None
        end;
  _ ← bump_revision;
  mret (Ok (account, fresh)).

Definition refresh_oauth_account_inner (account_id : Uuid) (force : bool) :
    SM (result OAuthAccountStatusResponse Error) :=
  provider ← account_auth_provider account_id;
  if negb (bool_decide (provider = OAuthRefreshToken)) then oauth_account_status_inner account_id else
  known ← lookup_account account_id;
  match known with
  | None => mret (Err "account not found")
  | Some account =>
      credentials ← gets oauth_credentials;
      match credentials !! account_id with
      | None => mret (Err "oauth credential not found")
      | Some credential =>
          profiles ← gets session_profiles;
          let session_profile := profiles !! account_id in
          now ← utc_now;
          let answer account credential :=
            status ← oauth_status_from account OAuthRefreshToken (Some credential) session_profile;
            mret (Ok status) in
          if refresh_credential_is_terminal_invalid (ocr_last_refresh_status credential)
               (ocr_refresh_reused_detected credential) (ocr_last_refresh_error_code credential)
             && has_fallback_now credential now
          then answer account credential
          else if negb (force || (ocr_token_expires_at credential
                                  <=? now + from_secs OAUTH_REFRESH_WINDOW_SEC))
          then answer account credential
          else if later_than now (ocr_refresh_backoff_until credential)
          then answer account credential
          else
            cipher ←? require_credential_cipher;
            match decrypt cipher (ocr_refresh_token_enc credential) with
            | Err e => mret (Err e)
            | Ok token =>
                reply ← call (λ n, refresh_token n token (Some (ua_base_url account)));
                match reply with
                | Ok token_info =>
                    granted ←? refresh_granted account_id cipher account credential token_info;
                    answer granted.1 granted.2
                | Err err =>
                    credential ← refresh_refused account_id credential now err;
                    answer account credential
                end
            end
      end
  end.

(** ** Refreshing the accounts that are about to expire *)

(** Whether an account is taken; the state of the pool is read only for enabled ones. *)
Definition expiring (now : DateTime) (kv : Uuid * UpstreamAccount) : SM bool :=
  let '(account_id, account) := kv in
  if negb (ua_enabled account) then mret false else
  state ← account_pool_state_record_inner account_id;
  if negb (bool_decide (hs_pool_state state = Active)) then mret false else
  s ← gets id;
  mret (bool_decide (default LegacyBearer (account_auth_providers s !! account_id) = OAuthRefreshToken)
        && from_option (λ credential,
             negb (later_than now (ocr_refresh_backoff_until credential))
             && (ocr_token_expires_at credential <=? now + from_secs OAUTH_REFRESH_WINDOW_SEC)) false
             (oauth_credentials s !! account_id)).

(** [filter_map(..).take(n)]: accounts after the last one taken are not looked at. *)
Fixpoint take_expiring (n : nat) (now : DateTime) (l : list (Uuid * UpstreamAccount)) : SM (list Uuid) :=
  match n, l with
  | O, _ | _, [] => mret []
  | S m, kv :: l =>
      b ← expiring now kv;
      if b : bool then rest ← take_expiring m now l; mret (kv.1 :: rest)
      else take_expiring n now l
  end.

(** A turn of the loop. The concurrent refreshes complete in some order. *)
Definition refresh_expiring_turn (_ : unit) : SM (unit + unit) :=
  let batch_size := oauth_refresh_batch_size_from_env in
  now ← utc_now;
  m ← gets accounts;
  account_ids ← take_expiring (Z.to_nat batch_size) now (id_iter m);
  match account_ids with
  | [] => mret (inr tt)
  | _ =>
      order ← call (λ n, completion n account_ids);
      _ ← for_each (λ account_id, _ ← refresh_oauth_account_inner account_id false; mret tt) order;
      mret (if Z.of_nat (length account_ids) <? batch_size then inr tt else inl tt)
  end.

Definition refresh_expiring_oauth_accounts_inner (fuel : nat) : SM (option unit) :=
  _ ← purge_expired_one_time_accounts_inner;
  loop fuel refresh_expiring_turn tt.

(** ** Activating the vault *)

Definition ready_session_profile_from_vault_record (record : OAuthRefreshTokenVaultRecord)
    (token_expires_at : DateTime) : SessionProfileRecord :=
  mkSessionProfileRecord RefreshRotatable (Some token_expires_at) (vr_email record) None None None
    (vr_chatgpt_plan_type record) None None None None None None None None None (vr_source_type record).

(** When the fallback token of a ready record expires. *)
Definition ready_expiry (record : OAuthRefreshTokenVaultRecord) (access_token_enc : string) :
    SM (result DateTime Error) :=
  match vr_fallback_token_expires_at record with
  | Some expires_at => mret (Ok expires_at)
  | None =>
      cipher ←? require_credential_cipher;
      mret match decrypt cipher access_token_enc with
           | Err err => Err (truncate_error_message err)
           | Ok fallback_access_token =>
               match parse_jwt_exp_from_access_token fallback_access_token with
               | Some at_ => Ok at_
               | None => Err "ready access token expiry is unknown"
               end
           end
  end.

Definition ready_credential (record : OAuthRefreshTokenVaultRecord) (access_token_enc : string)
    (token_expires_at : DateTime) (existing : option OAuthCredentialRecord) : OAuthCredentialRecord :=
  mkOAuthCredentialRecord access_token_enc (vr_refresh_token_enc record) (Some access_token_enc)
    (vr_refresh_token_sha256 record)
    (from_option ocr_token_family_id (stable_vault_token_family_id (vr_refresh_token_sha256 record)) existing)
    (from_option ocr_token_version 0 existing) token_expires_at (Some token_expires_at) None RefreshNever
    false None None 0 None.

Definition ready_profile (record : OAuthRefreshTokenVaultRecord) (token_expires_at : DateTime)
    (profile : SessionProfileRecord) : SessionProfileRecord :=
  profile <| spr_credential_kind := RefreshRotatable |>
          <| spr_token_expires_at := Some token_expires_at |>
          <| spr_email ::= or_else (vr_email record) |>
          <| spr_chatgpt_plan_type ::= or_else (vr_chatgpt_plan_type record) |>
          <| spr_source_type ::= or_else (vr_source_type record) |>.

(** The account of a ready record: the one that matches, updated, or a new one. *)
Definition ready_account (record : OAuthRefreshTokenVaultRecord) (now : DateTime)
    (credential : OAuthCredentialRecord) (token_expires_at : DateTime) (account_id : option Uuid) :
    SM (result UpstreamAccount Error) :=
  match account_id with
  | Some account_id =>
      known ← lookup_account account_id;
      match known with
      | None => mret (Err "matched oauth account is missing")
      | Some account =>
          let account := account <| ua_label := vr_label record |>
                                 <| ua_mode := vr_desired_mode record |>
                                 <| ua_base_url := vr_base_url record |>
                                 <| ua_bearer_token := OAUTH_MANAGED_BEARER_SENTINEL |>
                                 <| ua_chatgpt_account_id := vr_chatgpt_account_id record |>
                                 <| ua_enabled := vr_desired_enabled record |>
                                 <| ua_priority := vr_desired_priority record |> in
          _ ← modify (λ s, s <| accounts ::= insert account_id account |>);
          _ ← put_provider account_id OAuthRefreshToken;
          _ ← upsert_oauth_credential account_id credential;
          profiles ← gets session_profiles;
          _ ← upsert_session_profile account_id
                (from_option (ready_profile record token_expires_at)
                   (ready_session_profile_from_vault_record record token_expires_at)
                   (profiles !! account_id));
          mret (Ok account)
      end
  | None =>
      i ← new_v4;
      let account := mkUpstreamAccount i (vr_label record) (vr_desired_mode record) (vr_base_url record)
                       OAUTH_MANAGED_BEARER_SENTINEL (vr_chatgpt_account_id record)
                       (vr_desired_enabled record) (vr_desired_priority record) now in
      _ ← put_account account;
      _ ← put_provider i OAuthRefreshToken;
      _ ← upsert_oauth_credential i credential;
      _ ← upsert_session_profile i (ready_session_profile_from_vault_record record token_expires_at);
      mret (Ok account)
  end.

Definition materialize_ready_oauth_vault_record_inner (record : OAuthRefreshTokenVaultRecord) :
    SM (result UpstreamAccount Error) :=
  now ← utc_now;
  match vr_fallback_access_token_enc record with
  | None => mret (Err "ready access token is missing")
  | Some access_token_enc =>
      token_expires_at ←? ready_expiry record access_token_enc;
      if token_expires_at <=? now + from_secs OAUTH_MIN_VALID_SEC
      then mret (Err "ready access token is already expired") else
      account_id ← matched_oauth_account_id_for_vault_record record;
      credentials ← gets oauth_credentials;
      let existing := account_id ≫= λ i, credentials !! i in
      account ←? ready_account record now
                   (ready_credential record access_token_enc token_expires_at existing)
                   token_expires_at account_id;
      let checked_at := default now (vr_admission_checked_at record) in
      _ ← match vr_admission_rate_limits record with
          | [] => mret tt
          | limits => persist_rate_limit_cache_success_inner (ua_id account) limits checked_at None
          end;
      _ ← record_account_probe_result_inner (ua_id account) checked_at ProbeOk;
      _ ← set_account_pool_state_active_inner (ua_id account) now;
      _ ← bump_revision;
      mret (Ok account)
  end.

Definition oauth_active_account_count_inner : SM nat :=
  now ← utc_now;
  gets (λ s, length (List.filter (λ kv,
    ua_enabled kv.2 && is_oauth_account s kv.1
    && (bool_decide (hs_pool_state (health_of kv.1 s) = Active)
        || bool_decide (hs_pool_state (health_of kv.1 s) = Quarantine)
           && some_due now (hs_quarantine_until (health_of kv.1 s)))) (id_iter (accounts s)))).

(** The request a record stands for. *)
Definition vault_request (record : OAuthRefreshTokenVaultRecord) (refresh_token : string)
    (fallback_access_token : option string) : ImportOAuthRefreshTokenRequest :=
  mkImportOAuthRefreshTokenRequest (vr_label record) (vr_base_url record) refresh_token
    fallback_access_token (vr_fallback_token_expires_at record) (vr_chatgpt_account_id record)
    (Some (vr_desired_mode record)) (Some (vr_desired_enabled record)) (Some (vr_desired_priority record))
    (vr_chatgpt_plan_type record) (vr_source_type record).

(** The end of a candidate's turn: the record goes when there is an account for it, and
    waits or fails when there is not. *)
Definition settle_activation (candidate : OAuthRefreshTokenVaultRecord)
    (activation_result : result OAuthUpsertResult Error) : SM bool :=
  match activation_result with
  | Ok upserted =>
      now ← utc_now;
      _ ← set_account_pool_state_active_inner (ua_id (our_account upserted)) now;
      _ ← modify (λ s, s <| oauth_refresh_token_vault ::= delete (vr_id candidate) |>);
      mret true
  | Err err =>
      let error_message := truncate_error_message err in
      _ ← mark_oauth_vault_activation_failed_inner (vr_id candidate) (vr_status candidate)
            (classify_vault_activation_error_code error_message) error_message;
      mret false
  end.

(** A candidate that needs its refresh token. *)
Definition activate_by_refresh (candidate : OAuthRefreshTokenVaultRecord) : SM (result bool Error) :=
  cipher ←? require_credential_cipher;
  match decrypt cipher (vr_refresh_token_enc candidate) with
  | Err err =>
      _ ← mark_oauth_vault_activation_failed_inner (vr_id candidate) (vr_status candidate)
            "vault_decrypt_failed" (truncate_error_message err);
      mret (Ok false)
  | Ok token =>
      match match vr_fallback_access_token_enc candidate with
            | None => Ok None
            | Some enc => match decrypt cipher enc with Ok t => Ok (Some t) | Err e => Err e end
            end with
      | Err e => mret (Err e)
      | Ok fallback_access_token =>
          r ← upsert_oauth_refresh_token_inner (vault_request candidate token fallback_access_token);
          b ← settle_activation candidate r;
          mret (Ok b)
      end
  end.

(** One candidate: whether it was activated; an error ends the whole activation. *)
Definition activate_candidate (candidate : OAuthRefreshTokenVaultRecord) : SM (result bool Error) :=
  match vr_status candidate with
  | VaultReady =>
      _ ←? probe_oauth_vault_admission_inner (vr_id candidate);
      vault ← gets oauth_refresh_token_vault;
      match vault !! vr_id candidate with
      | None => mret (Ok false)
      | Some candidate =>
          if negb (bool_decide (vr_status candidate = VaultReady)) then mret (Ok false) else
          r ← materialize_ready_oauth_vault_record_inner candidate;
          b ← settle_activation candidate
                match r with Ok account => Ok (mkOAuthUpsertResult account false) | Err e => Err e end;
          mret (Ok b)
      end
  | VaultNeedsRefresh | VaultQueued => activate_by_refresh candidate
  | VaultNoQuota | VaultFailed => mret (Ok false)
  end.

Fixpoint activate_candidates (activated : Z) (candidates : list OAuthRefreshTokenVaultRecord) :
    SM (result Z Error) :=
  match candidates with
  | [] => mret (Ok activated)
  | candidate :: candidates =>
      b ←? activate_candidate candidate;
      activate_candidates (if b : bool then u64_saturating_add activated 1 else activated) candidates
  end.

(** [for record_id in .. { probe(record_id).await?; }]. *)
Fixpoint reprobe_admissions (record_ids : list Uuid) : SM (result unit Error) :=
  match record_ids with
  | [] => mret (Ok tt)
  | record_id :: record_ids =>
      _ ←? probe_oauth_vault_admission_inner record_id;
      reprobe_admissions record_ids
  end.

(** The pauses between candidates change nothing here. *)
Definition activate_oauth_refresh_token_vault_inner : SM (result Z Error) :=
  _ ← purge_expired_one_time_accounts_inner;
  let reprobe_limit := oauth_vault_activate_batch_size_from_env in
  now ← utc_now;
  reprobes ← oauth_vault_admission_reprobe_candidates_inner now (Z.to_nat reprobe_limit);
  _ ←? reprobe_admissions reprobes;
  active_count ← oauth_active_account_count_inner;
  let active_count := Z.of_nat active_count in
  let target := active_pool_target_from_env in
  let runtime_cap := runtime_pool_cap_from_env in
  runtime_count ← runtime_pool_account_count_inner;
  let runtime_count := Z.of_nat runtime_count in
  if runtime_cap <=? runtime_count then mret (Ok 0)
  else if target <=? active_count then mret (Ok 0)
  else
    let needed := target - active_count in
    let headroom := runtime_cap - runtime_count in
    let limit := (needed `min` oauth_vault_activate_batch_size_from_env) `min` headroom in
    if limit =? 0 then mret (Ok 0) else
    now ← utc_now;
    candidates ← oauth_vault_activation_candidates_inner now (Z.to_nat limit);
    match candidates with
    | [] => mret (Ok 0)
    | _ => activate_candidates 0 candidates
    end.
End accounts.
