(* ===== verification/OAuthInv.v ===== *)
(** * The account tables under the OAuth operations

    Every OAuth operation keeps the invariant of the account tables ([store_inv]). The
    proofs go down to the writes; [known i] carries that the account written to exists. *)
From S2P Require Import Prelude RustStr CoreModel Json Request RoutingCache ControlModel StoreDefs Secrets Credentials Store StoreConfig StoreSnapshot Kept StoreFacts StorePurge StoreInv OAuthClient OAuthPool OAuthVault OAuthAccounts.

#[local] Open Scope string_scope.
#[local] Open Scope list_scope.
#[local] Open Scope Z_scope.

(** ** The OAuth operations as one type

    The calls of the trait [ControlPlaneStore] that [store/oauth_ops.rs] serves, so that
    runs of a store are lists of calls. The loops get the fuel they run with. *)

Inductive OAuthOp :=
  | ValidateToken (req : ValidateOAuthRefreshTokenRequest)
  | ImportToken (req : ImportOAuthRefreshTokenRequest)
  | UpsertToken (req : ImportOAuthRefreshTokenRequest)
  | QueueToken (req : ImportOAuthRefreshTokenRequest)
  | DedupeAccounts
  | UpsertSession (req : UpsertOneTimeSessionAccountRequest)
  | RefreshAccount (account_id : Uuid)
  | ReprobeAccount (account_id : Uuid)
  | AccountStatus (account_id : Uuid)
  | FailRecord (record_id : Uuid) (reason : option string)
  | FailRecords (record_ids : list Uuid) (reason : option string)
  | DeleteRecord (record_id : Uuid)
  | DeleteRecords (record_ids : list Uuid)
  | RestoreRecord (record_id : Uuid)
  | RestoreRecords (record_ids : list Uuid)
  | ReprobeRecord (record_id : Uuid)
  | ReprobeRecords (record_ids : list Uuid)
  | PurgeDueRecords
  | RefreshExpiring (fuel : nat)
  | ActivateVault
  | PatrolAccounts
  | RefreshDueCaches (fuel : nat)
  | CreateRefreshJob
  | RunRefreshJob (fuel : nat) (job_id : Uuid)
  | RefreshCacheOnSeenOk (account_id : Uuid)
  | ObserveRateLimits (account_id : Uuid) (rate_limits : list OAuthRateLimitSnapshot) (observed_at : DateTime).

Section ops.
Context `{Base64, Aes256Gcm, NonceSource, Digests, UuidSource, WallClock, UuidText, Environment, IdOrder}.
Context `{HashOrder, CompletionOrder, OAuthTokenClient, UrlSafeBase64, SerdeJson, Chrono}.
Context `{UrlFragment} (hasher : ApiKeyTokenHasher).

Definition run_oauth_op (op : OAuthOp) : ST (Timed InMemoryStore) unit :=
  match op with
  | ValidateToken req => effect (validate_oauth_refresh_token_inner req)
  | ImportToken req => effect (import_oauth_refresh_token_inner req)
  | UpsertToken req => effect (upsert_oauth_refresh_token_inner req)
  | QueueToken req => effect (queue_oauth_refresh_token req)
  | DedupeAccounts => effect (dedupe_oauth_accounts_by_identity_inner None None None)
  | UpsertSession req => effect (upsert_one_time_session_account_inner req)
  | RefreshAccount i => effect (refresh_oauth_account_inner i true)
  | ReprobeAccount i => effect (reprobe_runtime_oauth_account_inner i)
  | AccountStatus i => effect (oauth_account_status_inner i)
  | FailRecord i r => effect (mark_oauth_inventory_record_failed_inner i r)
  | FailRecords l r => mark_oauth_inventory_records_failed_inner l r
  | DeleteRecord i => effect (delete_oauth_inventory_record_inner i)
  | DeleteRecords l => delete_oauth_inventory_records_inner l
  | RestoreRecord i => effect (restore_oauth_inventory_record_inner i)
  | RestoreRecords l => restore_oauth_inventory_records_inner l
  | ReprobeRecord i => effect (reprobe_oauth_inventory_record_inner i)
  | ReprobeRecords l => effect (reprobe_oauth_inventory_records l)
  | PurgeDueRecords => effect purge_due_oauth_inventory_records_inner
  | RefreshExpiring fuel => effect (refresh_expiring_oauth_accounts_inner fuel)
  | ActivateVault => effect activate_oauth_refresh_token_vault_inner
  | PatrolAccounts => effect patrol_active_oauth_accounts_inner
  | RefreshDueCaches fuel => effect (refresh_due_oauth_rate_limit_caches fuel)
  | CreateRefreshJob => effect create_rate_limit_refresh_job
  | RunRefreshJob fuel i => effect (run_oauth_rate_limit_refresh_job fuel i)
  | RefreshCacheOnSeenOk i => effect (maybe_refresh_oauth_rate_limit_cache_on_seen_ok i)
  | ObserveRateLimits i l t => effect (update_oauth_rate_limit_cache_from_observation i l t)
  end.

(** A call of either kind, and a run of calls. *)
Definition run_call (c : StoreOp + OAuthOp) : ST (Timed InMemoryStore) unit :=
  match c with
  | inl op => run_op hasher op
  | inr op => run_oauth_op op
  end.
Definition run_calls (calls : list (StoreOp + OAuthOp)) : ST (Timed InMemoryStore) unit :=
  for_each run_call calls.
End ops.

Create HintDb keeps.

Section generic.
Context {S : Type} (P : Timed S → Prop).

Lemma kept_call {A} (f : nat → A) : ticking P → kept P (call f).
Proof. intros Ht [s n] Hw. apply wp_call. by apply Ht. Qed.

Lemma kept_loop {A R} fuel (body : A → ST (Timed S) (A + R)) a :
  (∀ a, kept P (body a)) → kept P (loop fuel body a).
Proof.
  intros Hb. revert a. induction fuel as [|fuel IH]; intros a; cbn [loop]; [apply kept_ret|].
  apply kept_bind; [done|intros [a'|x]; [done|apply kept_ret]].
Qed.

Lemma kept_effect {A} (m : ST (Timed S) A) : kept P m → kept P (effect m).
Proof. intros Hm. apply kept_bind; [done|intros ?; apply kept_ret]. Qed.
End generic.

(** [keeps_go] takes a computation apart, with the lemmas of [keeps] for the parts that
    have one; [keeps_tick] says how the predicate in question lets time pass. *)
Ltac keeps_step :=
  cbv beta zeta;
  first
    [ solve [eauto 3 with keeps]
    | lazymatch goal with
      | |- kept _ (call _) => apply kept_call
      | |- kept _ (loop _ _ _) => apply kept_loop; intros ?
      | |- kept _ (effect _) => apply kept_effect
      | |- _ => kept_step
      end ].
Ltac keeps_go := repeat keeps_step.

Section tables.
Context `{Base64, Aes256Gcm, NonceSource, Digests, UuidSource, WallClock, UuidText, Environment, IdOrder}.
Context `{HashOrder, CompletionOrder, OAuthTokenClient, UrlSafeBase64, SerdeJson, Chrono}.
Context `{UrlFragment}.

Abbreviation SM := (ST (Timed InMemoryStore)).
Abbreviation keeps_inv := (kept store_inv).
Implicit Types (w : Timed InMemoryStore) (s : InMemoryStore).

(** ** Writes to an account that exists *)

Definition known (i : Uuid) w : Prop := store_inv w ∧ is_Some (accounts (st w) !! i).

Lemma keeps_known {A} i (m : SM A) w Q :
  kept (known i) m → store_inv w → is_Some (accounts (st w) !! i) →
  (∀ a w', store_inv w' → Q a w') → wp m Q w.
Proof. intros Hm Hw Hi HQ. wp_use (Hm w (conj Hw Hi)) as a w' [Hw' _]. by apply HQ. Qed.

Lemma known_tick i : ticking (known i).
Proof. intros s n [Hw Hi]. split; [by apply tick_keeps|done]. Qed.

(** A write that leaves the tables of the invariant alone. *)
Lemma frame_modify f :
  (∀ s, acct_tables (f s) = acct_tables s) → (∀ s, rev_ok s → rev_ok (f s)) → keeps_inv (modify f).
Proof.
  intros Hf Hr. apply kept_modify. intros s n Hw.
  apply (frame_inv (mkTimed s n)); [done|apply Hf|apply Hr, (si_revision _ Hw)|done].
Qed.
Lemma frame_modify_known i f :
  (∀ s, acct_tables (f s) = acct_tables s) → (∀ s, rev_ok s → rev_ok (f s)) → kept (known i) (modify f).
Proof.
  intros Hf Hr. apply kept_modify. intros s n [Hw Hi]. split.
  - apply (frame_inv (mkTimed s n)); [done|apply Hf|apply Hr, (si_revision _ Hw)|done].
  - cbn [st] in *. specialize (Hf s). unfold acct_tables in Hf. injection Hf as -> _ _ _ _ _ _. done.
Qed.

(** Tables keyed by accounts, with a record written for one that exists. *)
Lemma insert_known_inv i n s s' :
  known i (mkTimed s n) →
  (∀ j, is_Some (accounts s' !! j) ↔ is_Some (accounts s !! j)) →
  (∀ j a, accounts s' !! j = Some a → ua_id a = j) →
  (∀ j, is_Some (account_auth_providers s' !! j) ↔ j = i ∨ is_Some (account_auth_providers s !! j)) →
  (∀ j, is_Some (oauth_credentials s' !! j) → j = i ∨ is_Some (oauth_credentials s !! j)) →
  (∀ j, is_Some (session_profiles s' !! j) → j = i ∨ is_Some (session_profiles s !! j)) →
  account_health_states s' = account_health_states s → api_keys s' = api_keys s →
  api_key_tokens s' = api_key_tokens s → revision s' = revision s →
  known i (mkTimed s' n).
Proof.
  intros [Hw Hi] Ha Hk Hp Hc Hf Eh Ek Et Er. split; [|cbn; by apply Ha].
  cbn [st] in *. destruct Hw. cbn [st] in *.
  split; cbn [st]; rewrite ?Eh, ?Ek, ?Et; unfold rev_ok; rewrite ?Er; try done.
  - intros j. rewrite Ha, Hp, <- si_providers. split; [|by right].
    intros [->|?]; [by apply si_providers|done].
  - intros j [->|?]%Hc; apply Ha; eauto.
  - intros j [->|?]%Hf; apply Ha; eauto.
  - intros j. rewrite Ha. eauto.
Qed.

Lemma insert_is_Some {V} i j (v : V) (m : gmap Uuid V) : is_Some (<[i := v]> m !! j) ↔ j = i ∨ is_Some (m !! j).
Proof. rewrite lookup_insert_is_Some. destruct (decide (i = j)); naive_solver. Qed.

Lemma write_account_known i a : ua_id a = i → kept (known i) (modify (λ s, s <| accounts ::= insert i a |>)).
Proof.
  intros Hid. apply kept_modify. intros s n Hw. assert (Hw' := Hw). destruct Hw as [Hw Hi].
  apply (insert_known_inv i n s); try done; rproj; try naive_solver.
  - intros j. rewrite insert_is_Some. naive_solver.
  - intros j b [[<- <-]|[_ ?]]%lookup_insert_Some; [done|]. by apply (si_keyed _ Hw).
  - intros j. split; [by right|]. intros [->|?]; [by apply (si_providers _ Hw)|done].
Qed.
Lemma put_provider_known i p : kept (known i) (put_provider i p).
Proof.
  apply kept_modify. intros s n Hw. apply (insert_known_inv i n s); try done; rproj; try naive_solver.
  - apply (si_keyed _ (proj1 Hw)).
  - intros j. apply insert_is_Some.
Qed.
Lemma upsert_credential_known i c : kept (known i) (upsert_oauth_credential i c).
Proof.
  apply kept_modify. intros s n Hw. apply (insert_known_inv i n s); try done; rproj; try naive_solver.
  - apply (si_keyed _ (proj1 Hw)).
  - intros j. split; [by right|]. intros [->|?]; [by apply (si_providers _ (proj1 Hw)), Hw|done].
  - intros j. by rewrite insert_is_Some.
Qed.
Lemma upsert_profile_known i p : kept (known i) (upsert_session_profile i p).
Proof.
  apply kept_modify. intros s n Hw. apply (insert_known_inv i n s); try done; rproj; try naive_solver.
  - apply (si_keyed _ (proj1 Hw)).
  - intros j. split; [by right|]. intros [->|?]; [by apply (si_providers _ (proj1 Hw)), Hw|done].
  - intros j. by rewrite insert_is_Some.
Qed.

(** ** States of accounts *)

Lemma known_accounts {A} i (m : SM A) :
  keeps_inv m →
  (∀ w, store_inv w → wp m (λ _ w', ∀ j, is_Some (accounts (st w) !! j) → is_Some (accounts (st w') !! j)) w) →
  kept (known i) m.
Proof.
  intros Hm Ha w [Hw Hi]. wp_use (wp_and _ _ _ _ (Hm w Hw) (Ha w Hw)) as a w' [Hw' Hd]. split; [done|by apply Hd].
Qed.

Lemma set_active_known i j t : kept (known i) (set_account_pool_state_active_inner j t).
Proof.
  apply known_accounts; [apply set_active_keeps|]. intros w Hw.
  wp_use (set_active_spec _ _ _ (si_revision _ Hw)) as [] w' Hs%health_step_accounts. by rewrite Hs.
Qed.

Lemma set_quarantine_keeps i t u r : keeps_inv (set_account_pool_state_quarantine_inner i t u r).
Proof.
  intros w Hw. wp_use (set_quarantine_spec _ _ _ _ _ (si_revision _ Hw)) as x w' Hs.
  destruct (accounts (st w) !! i); [|by destruct Hs as [_ ->]]. destruct Hs as [_ Hs].
  eapply health_step_inv; [exact Hw| | |exact Hs]; [|done]. by eapply pool_ok_quarantine, health_pool_ok.
Qed.
Lemma set_quarantine_known i j t u r : kept (known i) (set_account_pool_state_quarantine_inner j t u r).
Proof.
  apply known_accounts; [apply set_quarantine_keeps|]. intros w Hw.
  wp_use (set_quarantine_spec _ _ _ _ _ (si_revision _ Hw)) as x w' Hs.
  destruct (accounts (st w) !! j); [|by destruct Hs as [_ ->]].
  destruct Hs as [_ Hs%health_step_accounts]. by rewrite Hs.
Qed.

Lemma mark_pending_known i j r : kept (known i) (mark_upstream_account_pending_purge_inner j r).
Proof.
  apply known_accounts; [apply mark_pending_keeps|]. intros w Hw.
  wp_use (mark_pending_spec _ _ _ (si_revision _ Hw)) as x w' Hs.
  destruct (accounts (st w) !! j) as [a|] eqn:Ha; [|by destruct Hs as (_ & -> & _)].
  destruct Hs as [_ (-> & _)]. intros k Hk. rewrite insert_is_Some. by right.
Qed.

Lemma mark_family_known i f r : kept (known i) (mark_oauth_family_pending_purge_inner f r).
Proof.
  apply kept_bind; [apply kept_gets|intros c]. apply kept_for_each. intros j.
  apply kept_bind; [apply mark_pending_known|intros _]. apply kept_ret.
Qed.

Lemma record_probe_keeps i t o : keeps_inv (record_account_probe_result_inner i t o).
Proof.
  intros w Hw. unfold record_account_probe_result_inner, health_entry. do 2 wp_step.
  wp_use (put_health_spec _ _ _ (si_revision _ Hw)) as [] w' [Hs _].
  eapply health_step_inv; [exact Hw| | |exact Hs]; [|done]. exact (health_pool_ok w i Hw).
Qed.
Lemma record_probe_known i j t o : kept (known i) (record_account_probe_result_inner j t o).
Proof.
  apply known_accounts; [apply record_probe_keeps|]. intros w Hw.
  unfold record_account_probe_result_inner, health_entry. do 2 wp_step.
  wp_use (put_health_spec _ _ _ (si_revision _ Hw)) as [] w' [Hs%health_step_accounts _]. by rewrite Hs.
Qed.

Lemma read_pool_known i j : kept (known i) (account_pool_state_record_inner j).
Proof.
  apply known_accounts; [apply read_pool_keeps|]. intros w Hw.
  unfold account_pool_state_record_inner, health_entry, put_health. wp_go; by rproj.
Qed.
End tables.

(** Writes to other tables. *)
Ltac frame_write :=
  first [apply frame_modify | apply frame_modify_known]; intros ?;
  [reflexivity | intros ?; first [assumption | exact (u64_wrap_bounds _)]].

#[export] Hint Resolve kept_ret kept_gets tick_keeps known_tick : keeps.
#[export] Hint Resolve kept_utc_now kept_new_v4 kept_call : keeps.
#[export] Hint Resolve write_account_known put_provider_known upsert_credential_known upsert_profile_known : keeps.
#[export] Hint Resolve set_active_known set_quarantine_known mark_pending_known mark_family_known record_probe_known read_pool_known : keeps.
#[export] Hint Resolve set_active_keeps set_quarantine_keeps mark_pending_keeps purge_family_keeps record_probe_keeps read_pool_keeps purge_expired_keeps : keeps.
#[export] Hint Extern 4 (kept _ (modify _)) => frame_write : keeps.

Section leads.
Context {S : Type}.
Implicit Types P Q : Timed S → Prop.

(** From [P] to [Q]. *)
Definition leads P Q {A} (m : ST (Timed S) A) : Prop := ∀ w, P w → wp m (λ _ w', Q w') w.

Lemma leads_bind P Q {A B} (m : ST (Timed S) A) (k : A → ST (Timed S) B) :
  kept P m → (∀ a, leads P Q (k a)) → leads P Q (m ≫= k).
Proof. intros Hm Hk w Hw. wp_step. wp_use (Hm w Hw) as a w' Hw'. by apply Hk. Qed.
Lemma leads_try P Q {A B E} (m : ST (Timed S) (result A E)) (k : A → ST (Timed S) (result B E)) :
  (∀ w, P w → Q w) → kept P m → (∀ a, leads P Q (k a)) → leads P Q (try_bind m k).
Proof. intros HPQ Hm Hk w Hw. wp_step. wp_use (Hm w Hw) as [a|e] w' Hw'; [by apply Hk|by apply HPQ]. Qed.
Lemma leads_weaken P Q {A} (m : ST (Timed S) A) : (∀ w, P w → Q w) → kept P m → leads P Q m.
Proof. intros HPQ Hm w Hw. wp_use (Hm w Hw) as a w' Hw'. by apply HPQ. Qed.
End leads.

Section operations.
Context `{Base64, Aes256Gcm, NonceSource, Digests, UuidSource, WallClock, UuidText, Environment, IdOrder}.
Context `{HashOrder, CompletionOrder, OAuthTokenClient, UrlSafeBase64, SerdeJson, Chrono}.
Context `{UrlFragment}.

Abbreviation SM := (ST (Timed InMemoryStore)).
Abbreviation keeps_inv := (kept store_inv).
Implicit Types (w : Timed InMemoryStore) (s : InMemoryStore).

(** ** Computations that only let time pass *)

Lemma encrypt_kept (P : Timed InMemoryStore → Prop) c t : ticking P → kept P (encrypt c t).
Proof. intros Ht [s n] Hw. unfold encrypt, wp. by apply Ht. Qed.
Lemma from_token_info_kept (P : Timed InMemoryStore → Prop) c t : ticking P → kept P (from_token_info c t).
Proof.
  intros Ht. unfold from_token_info. repeat (apply kept_try_bind; [by apply encrypt_kept|intros ?]).
  apply kept_bind; [by apply kept_new_v4|intros ?]. apply kept_bind; [by apply kept_utc_now|intros ?].
  apply kept_ret.
Qed.
Lemma set_fallback_kept (P : Timed InMemoryStore → Prop) r c t e :
  ticking P → kept P (set_fallback_access_token r c t e).
Proof.
  intros Ht. unfold set_fallback_access_token. destruct (trimmed_non_empty t); [|apply kept_ret].
  apply kept_try_bind; [by apply encrypt_kept|intros ?; apply kept_ret].
Qed.
Lemma merged_credential_kept (P : Timed InMemoryStore → Prop) c req t e :
  ticking P → kept P (merged_credential c req t e).
Proof.
  intros Ht. unfold merged_credential. apply kept_try_bind; [by apply from_token_info_kept|intros r].
  destruct (trimmed_non_empty _), e; first [by apply set_fallback_kept|apply kept_ret].
Qed.
Lemma exchange_kept (P : Timed InMemoryStore → Prop) t b : ticking P → kept P (exchange_refresh_token t b).
Proof. intros Ht. apply kept_bind; [by apply kept_call|intros ?; apply kept_ret]. Qed.
Lemma encrypt_option_kept (P : Timed InMemoryStore → Prop) c t : ticking P → kept P (encrypt_option c t).
Proof.
  intros Ht. destruct t; [|apply kept_ret]. apply kept_try_bind; [by apply encrypt_kept|intros ?; apply kept_ret].
Qed.
Lemma probe_admission_kept (P : Timed InMemoryStore → Prop) r t : ticking P → kept P (probe_admission r t).
Proof.
  intros Ht. unfold probe_admission. apply kept_bind; [apply kept_gets|intros [c|]]; [|apply kept_ret].
  destruct (vr_fallback_access_token_enc r); [|apply kept_ret].
  destruct (decrypt c s) as [t'|]; [|apply kept_ret]. destruct (is_empty (trim t')); [apply kept_ret|].
  apply kept_bind; [by apply kept_call|intros ?; apply kept_ret].
Qed.

End operations.

#[export] Hint Resolve encrypt_kept from_token_info_kept set_fallback_kept merged_credential_kept exchange_kept encrypt_option_kept probe_admission_kept : keeps.

Section accounts.
Context `{Base64, Aes256Gcm, NonceSource, Digests, UuidSource, WallClock, UuidText, Environment, IdOrder}.
Context `{HashOrder, CompletionOrder, OAuthTokenClient, UrlSafeBase64, SerdeJson, Chrono}.
Context `{UrlFragment}.

Abbreviation SM := (ST (Timed InMemoryStore)).
Abbreviation keeps_inv := (kept store_inv).
Implicit Types (w : Timed InMemoryStore) (s : InMemoryStore).

(** ** Events, caches, jobs *)

(** The methods that write neither accounts nor their states keep both predicates. *)
Lemma emit_probe_kept i src t o c n m j : kept (known i) (emit_probe_result_event_inner src j t o c n m).
Proof. unfold emit_probe_result_event_inner. destruct (probe_event_kind o) as [[? ?] ?]. keeps_go. Qed.
Lemma emit_probe_keeps src j t o c n m : keeps_inv (emit_probe_result_event_inner src j t o c n m).
Proof. unfold emit_probe_result_event_inner. destruct (probe_event_kind o) as [[? ?] ?]. keeps_go. Qed.

Lemma persist_failure_keeps i c m : keeps_inv (persist_rate_limit_cache_failure_inner i c m).
Proof. keeps_go. Qed.
Lemma persist_failure_known j i c m : kept (known j) (persist_rate_limit_cache_failure_inner i c m).
Proof. keeps_go. Qed.

Lemma alter_is_Some {V} f i j (m : gmap Uuid V) : is_Some (alter f i m !! j) ↔ is_Some (m !! j).
Proof. destruct (decide (i = j)) as [->|]; [by rewrite lookup_alter_eq, fmap_is_Some|by rewrite lookup_alter_ne]. Qed.

(** A plan type written to a profile that exists. *)
Lemma alter_profile_inv f i s n :
  store_inv (mkTimed s n) → store_inv (mkTimed (s <| session_profiles ::= alter f i |>) n).
Proof.
  intros []. split; rproj; try done. intros j. rewrite alter_is_Some. eauto.
Qed.
Lemma alter_profile_keeps f i : keeps_inv (modify (λ s, s <| session_profiles ::= alter f i |>)).
Proof. apply kept_modify. intros s n. apply alter_profile_inv. Qed.
Lemma alter_profile_known f i j : kept (known j) (modify (λ s, s <| session_profiles ::= alter f i |>)).
Proof. apply kept_modify. intros s n [Hw Hi]. split; [by apply alter_profile_inv|done]. Qed.

Lemma persist_success_keeps i l t p : keeps_inv (persist_rate_limit_cache_success_inner i l t p).
Proof.
  unfold persist_rate_limit_cache_success_inner. destruct (derive_rate_limit_block l t) as [u r].
  keeps_step. 1: keeps_step. keeps_step; [|keeps_go]. keeps_step; [apply alter_profile_keeps|keeps_go].
Qed.
Lemma persist_success_known j i l t p : kept (known j) (persist_rate_limit_cache_success_inner i l t p).
Proof.
  unfold persist_rate_limit_cache_success_inner. destruct (derive_rate_limit_block l t) as [u r].
  keeps_step. 1: keeps_step. keeps_step; [|keeps_go]. keeps_step; [apply alter_profile_known|keeps_go].
Qed.
End accounts.

#[export] Hint Resolve emit_probe_kept emit_probe_keeps persist_failure_keeps persist_failure_known persist_success_keeps persist_success_known : keeps.

Section probes.
Context `{Base64, Aes256Gcm, NonceSource, Digests, UuidSource, WallClock, UuidText, Environment, IdOrder}.
Context `{HashOrder, CompletionOrder, OAuthTokenClient, UrlSafeBase64, SerdeJson, Chrono}.
Context `{UrlFragment}.
Abbreviation keeps_inv := (kept store_inv).

(** ** Probes, batches and jobs *)

Lemma probe_refused_keeps i src p t e : keeps_inv (probe_refused i src p t e).
Proof. keeps_go. Qed.
Lemma probe_answered_keeps i src a b t u : keeps_inv (probe_answered i src a b t u).
Proof. keeps_go. Qed.
Lemma probe_undecryptable_keeps i src m e t : keeps_inv (probe_undecryptable i src m e t).
Proof. keeps_go. Qed.
Hint Resolve probe_refused_keeps probe_answered_keeps probe_undecryptable_keeps : keeps.

Lemma probe_keeps i src a b c : keeps_inv (probe_runtime_oauth_account_inner i src a b c).
Proof. keeps_go. Qed.
Hint Resolve probe_keeps : keeps.

Lemma patrol_loop_keeps c l : keeps_inv (patrol_loop c l).
Proof.
  revert c. induction l as [|i l IH]; intros c; cbn [patrol_loop]; [keeps_go|].
  apply kept_bind; [apply probe_keeps|intros r; apply IH].
Qed.
Hint Resolve patrol_loop_keeps : keeps.
Lemma patrol_keeps : keeps_inv patrol_active_oauth_accounts_inner.
Proof. keeps_go. Qed.

Lemma refresh_one_keeps t : keeps_inv (refresh_one_target t).
Proof. keeps_go. Qed.
Hint Resolve refresh_one_keeps : keeps.
Lemma batch_keeps l c : keeps_inv (refresh_rate_limit_targets_batch l c).
Proof. keeps_go. Qed.
Hint Resolve batch_keeps : keeps.
Lemma refresh_due_keeps fuel : keeps_inv (refresh_due_oauth_rate_limit_caches fuel).
Proof. keeps_go. Qed.
Lemma create_job_keeps : keeps_inv create_rate_limit_refresh_job.
Proof. keeps_go. Qed.
Lemma run_job_keeps fuel i : keeps_inv (run_oauth_rate_limit_refresh_job fuel i).
Proof. keeps_go. Qed.
Lemma seen_ok_refresh_keeps i : keeps_inv (maybe_refresh_oauth_rate_limit_cache_on_seen_ok i).
Proof. keeps_go. Qed.

(** ** The vault *)

Lemma probe_vault_keeps i : keeps_inv (probe_oauth_vault_admission_inner i).
Proof. keeps_go. Qed.
Hint Resolve probe_vault_keeps : keeps.
Lemma queue_keeps req : keeps_inv (queue_oauth_refresh_token req).
Proof. keeps_go. Qed.
Lemma reprobe_records_keeps l : keeps_inv (reprobe_oauth_inventory_records l).
Proof. induction l as [|i l IH]; cbn [reprobe_oauth_inventory_records]; [keeps_go|]. apply kept_try_bind; [keeps_go|done]. Qed.
Lemma reprobe_admissions_keeps l : keeps_inv (reprobe_admissions l).
Proof. induction l as [|i l IH]; cbn [reprobe_admissions]; [keeps_go|]. apply kept_try_bind; [keeps_go|done]. Qed.
Lemma activation_failed_keeps i s c m : keeps_inv (mark_oauth_vault_activation_failed_inner i s c m).
Proof. keeps_go. Qed.
End probes.

#[export] Hint Resolve probe_keeps patrol_keeps batch_keeps refresh_due_keeps create_job_keeps run_job_keeps seen_ok_refresh_keeps probe_vault_keeps queue_keeps reprobe_records_keeps reprobe_admissions_keeps activation_failed_keeps : keeps.

Section imports.
Context `{Base64, Aes256Gcm, NonceSource, Digests, UuidSource, WallClock, UuidText, Environment, IdOrder}.
Context `{HashOrder, CompletionOrder, OAuthTokenClient, UrlSafeBase64, SerdeJson, Chrono}.
Context `{UrlFragment}.
Abbreviation SM := (ST (Timed InMemoryStore)).
Abbreviation keeps_inv := (kept store_inv).
Implicit Types (w : Timed InMemoryStore) (s : InMemoryStore).

(** ** New accounts *)

(** The identifier of a new account has been drawn. *)
Definition drawn (i : Uuid) w : Prop := store_inv w ∧ issued w i.

Lemma drawn_tick i : ticking (drawn i).
Proof. intros s n [Hw Hi]. split; [by apply tick_keeps|]. eapply issued_mono, Hi. cbn. lia. Qed.
Hint Resolve drawn_tick : keeps.

Lemma draw_leads {B} (Q : Timed InMemoryStore → Prop) (k : Uuid → SM B) :
  (∀ i, leads (drawn i) Q (k i)) → leads store_inv Q (i ← new_v4; k i).
Proof.
  intros Hk w Hw. wp_step. wp_step. apply Hk. split; [by apply tick_inv|].
  exists (ticks w). split; [cbn; lia|done].
Qed.

(** The account and its provider, then the writes to a known account. *)
Lemma new_account_leads {B} a p (k : SM B) :
  kept (known (ua_id a)) k →
  leads (drawn (ua_id a)) store_inv (_ ← put_account a; _ ← put_provider (ua_id a) p; k).
Proof.
  intros Hk w [Hw Hi]. unfold put_account, put_provider. do 4 wp_step.
  set (w' := mkTimed _ _). assert (Hw' : known (ua_id a) w').
  { split; [|subst w'; rproj; rewrite insert_is_Some; by left].
    destruct Hw. subst w'. split; rproj; try done.
    - intros j b [[<- <-]|[_ ?]]%lookup_insert_Some; eauto.
    - intros j. rewrite !insert_is_Some, si_providers. done.
    - intros j Hj. rewrite insert_is_Some. eauto.
    - intros j Hj. rewrite insert_is_Some. eauto.
    - intros j [->|?]%insert_is_Some; eauto. }
  wp_use (Hk w' Hw') as b w'' Hw''. apply Hw''.
Qed.

Lemma drawn_inv i w : drawn i w → store_inv w.
Proof. by intros [? _]. Qed.
Hint Resolve drawn_inv : keeps.

Lemma import_info_keeps req mode url t :
  keeps_inv (import_oauth_refresh_token_with_token_info_inner req mode url t).
Proof.
  unfold import_oauth_refresh_token_with_token_info_inner. apply kept_try_bind; [keeps_go|intros c].
  apply draw_leads. intros i. apply leads_bind; [keeps_go|intros now].
  cbv zeta. apply leads_try; [apply drawn_inv|keeps_go|intros cred].
  apply leads_try; [apply drawn_inv|keeps_go|intros cred'].
  apply (new_account_leads (mkUpstreamAccount i _ _ _ _ _ _ _ _)). cbn [ua_id]. keeps_go.
Qed.
Hint Resolve import_info_keeps : keeps.

Lemma import_keeps req : keeps_inv (import_oauth_refresh_token_inner req).
Proof. keeps_go. Qed.

(** ** Matched accounts *)

Lemma update_matched_keeps c req mode url acct t i :
  keeps_inv (update_matched_account c req mode url acct t i).
Proof.
  intros w Hw. unfold update_matched_account, lookup_account. wp_step. wp_step. wp_step. wp_step.
  destruct (accounts (st w) !! i) as [a|] eqn:Ha; [|by wp_step].
  assert (Hid := si_keyed _ Hw _ _ Ha). apply (keeps_known i); eauto. keeps_go.
Qed.
Hint Resolve update_matched_keeps : keeps.

(** Removing accounts from every table. *)
Lemma remove_inv s k i : store_inv (mkTimed s k) → store_inv (mkTimed (remove_account s i) k).
Proof.
  intros Hw%(forget_inv s k i). destruct Hw. unfold remove_account. unfold forget_account in *.
  rproj_in si_revision. split; rproj.
  all: first [exact si_revision | exact si_keyed | exact si_providers | exact si_credentials
             | exact si_profiles | exact si_issued | exact si_keys | exact si_tokens | done | idtac].
  - intros j h [? ?]%lookup_delete_Some. by eapply si_pool.
  - intros j h [? ?]%lookup_delete_Some. by eapply si_doomed_issued.
Qed.
Lemma remove_all_inv l s k : store_inv (mkTimed s k) → store_inv (mkTimed (fold_left remove_account l s) k).
Proof. revert s. induction l as [|i l IH]; intros s Hs; [done|]. by apply IH, remove_inv. Qed.

Lemma dedupe_keeps a b c : keeps_inv (dedupe_oauth_accounts_by_identity_inner a b c).
Proof.
  unfold dedupe_oauth_accounts_by_identity_inner. cbv zeta. apply kept_bind; [apply kept_gets|intros l].
  destruct l as [|x l]; [apply kept_ret|]. apply kept_bind; [|intros _; keeps_go].
  apply kept_modify. intros s k. apply remove_all_inv.
Qed.
Hint Resolve dedupe_keeps : keeps.

Lemma upsert_keeps req : keeps_inv (upsert_oauth_refresh_token_inner req).
Proof. keeps_go. Qed.

Lemma upsert_session_keeps req : keeps_inv (upsert_one_time_session_account_inner req).
Proof.
  unfold upsert_one_time_session_account_inner. cbv zeta. destruct (is_empty _); [apply kept_ret|].
  apply kept_bind; [apply kept_gets|intros [i|]].
  - intros w Hw. unfold lookup_account. wp_step. wp_step. wp_step. wp_step.
    destruct (accounts (st w) !! i) as [a|] eqn:Ha; [|by wp_step].
    assert (Hid := si_keyed _ Hw _ _ Ha). apply (keeps_known i); eauto. keeps_go.
  - apply draw_leads. intros i. apply leads_bind; [keeps_go|intros now].
    apply (new_account_leads (mkUpstreamAccount i _ _ _ _ _ _ _ _)). cbn [ua_id]. keeps_go.
Qed.

(** ** Refreshes *)

Lemma status_from_keeps a p c f : keeps_inv (oauth_status_from a p c f).
Proof. keeps_go. Qed.
Lemma status_from_known i a p c f : kept (known i) (oauth_status_from a p c f).
Proof. keeps_go. Qed.
Hint Resolve status_from_keeps status_from_known : keeps.

Lemma backfill_known a p c f : kept (known (ua_id a)) (maybe_backfill_workspace_name_from_probe_inner a p c f).
Proof. keeps_go. Qed.

Lemma account_status_keeps i : keeps_inv (oauth_account_status_inner i).
Proof.
  intros w Hw. unfold oauth_account_status_inner, lookup_account. wp_step. wp_step. wp_step. wp_step.
  destruct (accounts (st w) !! i) as [a|] eqn:Ha; [|by wp_step].
  assert (Hid := si_keyed _ Hw _ _ Ha). apply (keeps_known i); eauto.
  apply kept_bind; [keeps_go|intros p]. apply kept_bind; [keeps_go|intros c]. apply kept_bind; [keeps_go|intros f].
  apply kept_bind; [rewrite <- Hid; apply backfill_known|intros f']. keeps_go.
Qed.
Hint Resolve account_status_keeps : keeps.

Lemma refresh_refused_known i c t e : kept (known i) (refresh_refused i c t e).
Proof. keeps_go. Qed.
Lemma adopt_known i a o : kept (known i) (adopt_chatgpt_account_id i a o).
Proof.
  destruct o as [x|]; cbn [adopt_chatgpt_account_id]; [|apply kept_ret].
  intros w [Hw Hi]. unfold lookup_account. do 4 wp_step. destruct (accounts (st w) !! i) as [b|] eqn:Hb; [|by destruct Hi].
  assert (Hid : ua_id (b <| ua_chatgpt_account_id := Some x |>) = i) by exact (si_keyed _ Hw _ _ Hb).
  exact (kept_bind _ _ _ (write_account_known i _ Hid) (λ _, kept_ret _ _) w (conj Hw (mk_is_Some _ _ Hb))).
Qed.
Hint Resolve adopt_known : keeps.
Lemma refresh_granted_known i c a r t : kept (known i) (refresh_granted i c a r t).
Proof. keeps_go. Qed.
Hint Resolve refresh_refused_known refresh_granted_known : keeps.

Lemma refresh_account_keeps i force : keeps_inv (refresh_oauth_account_inner i force).
Proof.
  unfold refresh_oauth_account_inner. apply kept_bind; [keeps_go|intros p].
  destruct (negb _); [keeps_go|]. intros w Hw. unfold lookup_account. wp_step. wp_step. wp_step. wp_step.
  destruct (accounts (st w) !! i) as [a|] eqn:Ha; [|by wp_step].
  apply (keeps_known i); eauto. keeps_go.
Qed.
Hint Resolve refresh_account_keeps : keeps.

Lemma take_expiring_keeps n t l : keeps_inv (take_expiring n t l).
Proof.
  revert n. induction l as [|[i a] l IH]; intros [|n]; cbn [take_expiring]; try apply kept_ret.
  apply kept_bind; [keeps_go|intros []; [|apply IH]]. apply kept_bind; [apply IH|intros ?; apply kept_ret].
Qed.
Hint Resolve take_expiring_keeps : keeps.
Lemma refresh_expiring_keeps fuel : keeps_inv (refresh_expiring_oauth_accounts_inner fuel).
Proof. keeps_go. Qed.

(** ** Activation *)

Lemma ready_account_keeps r t c e o : keeps_inv (ready_account r t c e o).
Proof.
  destruct o as [i|]; cbn [ready_account].
  - intros w Hw. unfold lookup_account. wp_step. wp_step. wp_step. wp_step.
    destruct (accounts (st w) !! i) as [a|] eqn:Ha; [|by wp_step].
    assert (Hid := si_keyed _ Hw _ _ Ha). apply (keeps_known i); eauto. keeps_go.
  - apply draw_leads. intros i. apply (new_account_leads (mkUpstreamAccount i _ _ _ _ _ _ _ _)).
    cbn [ua_id]. keeps_go.
Qed.
Hint Resolve ready_account_keeps upsert_keeps : keeps.
Lemma materialize_keeps r : keeps_inv (materialize_ready_oauth_vault_record_inner r).
Proof. keeps_go. Qed.
Hint Resolve materialize_keeps : keeps.
Lemma activate_candidate_keeps r : keeps_inv (activate_candidate r).
Proof. keeps_go. Qed.
Lemma activate_candidates_keeps n l : keeps_inv (activate_candidates n l).
Proof.
  revert n. induction l as [|r l IH]; intros n; cbn [activate_candidates]; [apply kept_ret|].
  apply kept_try_bind; [apply activate_candidate_keeps|intros b; apply IH].
Qed.
Hint Resolve activate_candidates_keeps : keeps.
Lemma activate_keeps : keeps_inv activate_oauth_refresh_token_vault_inner.
Proof. keeps_go. Qed.

Hint Resolve import_keeps upsert_session_keeps refresh_expiring_keeps activate_keeps : keeps.
Lemma run_oauth_op_keeps op : keeps_inv (run_oauth_op op).
Proof. destruct op; cbn [run_oauth_op]; keeps_go. Qed.

Lemma run_call_keeps `{!Inj (=) (=) uuid_v4} hasher c : keeps_inv (run_call hasher c).
Proof. destruct c as [op|op]; cbn [run_call]; [apply run_op_keeps|apply run_oauth_op_keeps]. Qed.

Lemma run_calls_inv `{!Inj (=) (=) uuid_v4} hasher calls c t1 t2 t3 n :
  wp (run_calls hasher calls) (λ _ w, store_inv w) (mkTimed (new_with_oauth c t1 t2 t3) n).
Proof.
  apply kept_for_each; [intros op; apply run_call_keeps|]. apply strict_inv_inv, (new_store_inv c t1 t2 t3 n).
Qed.
End imports.
