(* ===== verification/OAuthVaultFacts.v ===== *)
(** * The vault under every operation

    What holds of each record of the vault, whatever calls were made: its status, retry
    flags and times fit together, and there is one record per refresh token. *)
From S2P Require Import Prelude RustStr CoreModel Json Request RoutingCache ControlModel StoreDefs Secrets SecretsFacts Credentials Store StoreConfig StoreSnapshot Kept StoreFacts StoreInv OAuthClient OAuthPool OAuthVault OAuthAccounts OAuthInv.

#[local] Open Scope string_scope.
#[local] Open Scope list_scope.
#[local] Open Scope Z_scope.

Implicit Types (r : OAuthRefreshTokenVaultRecord) (v : gmap Uuid OAuthRefreshTokenVaultRecord).

(** ** The invariant *)

(** Whether a retry is possible, against the status and the reason it is not. *)
Definition retry_fits (retryable : bool) (status : OAuthVaultRecordStatus) (reason : option string) : Prop :=
  if retryable then status ≠ VaultReady ∧ reason = None else status = VaultReady ∨ status = VaultFailed.

(** Records that wait for another probe. *)
Definition waits (retryable : bool) (status : OAuthVaultRecordStatus) : Prop :=
  status = VaultNoQuota ∨ status = VaultFailed ∧ retryable = true.

Record vault_record_ok (i : Uuid) r : Prop := {
  vo_id : vr_id r = i;
  vo_retry : retry_fits (vr_retryable r) (vr_status r) (vr_terminal_reason r);
  vo_ready : vr_status r = VaultReady →
    is_Some (vr_fallback_access_token_enc r) ∧ is_Some (vr_fallback_token_expires_at r);
  vo_waits : waits (vr_retryable r) (vr_status r) → is_Some (vr_admission_retry_after r);
  vo_transient : 0 ≤ vr_transient_retry_count r ≤ OAUTH_VAULT_TERMINAL_AUTH_RETRY_LIMIT;
  vo_failures : 0 ≤ vr_failure_count r ≤ u32_max;
  vo_attempts : 0 ≤ vr_attempt_count r ≤ u32_max;
}.

Record vault_ok v : Prop := {
  vk_records : ∀ i r, v !! i = Some r → vault_record_ok i r;
  vk_unique : ∀ i j r r', v !! i = Some r → v !! j = Some r' →
    vr_refresh_token_sha256 r = vr_refresh_token_sha256 r' → i = j;
}.

(** ** Changes of the table *)

Lemma vault_ok_empty : vault_ok ∅.
Proof. by split. Qed.

Lemma vault_ok_delete i v : vault_ok v → vault_ok (delete i v).
Proof. intros [Hr Hu]. split; intros *; rewrite !lookup_delete_Some; naive_solver. Qed.

Lemma vault_ok_insert i r v :
  vault_ok v → vault_record_ok i r →
  (∀ j r', v !! j = Some r' → vr_refresh_token_sha256 r' = vr_refresh_token_sha256 r → j = i) →
  vault_ok (<[i := r]> v).
Proof.
  intros [Hr Hu] Hi Hh. split.
  - intros j r'. rewrite lookup_insert_Some. naive_solver.
  - intros j k r1 r2. rewrite !lookup_insert_Some. naive_solver.
Qed.

(** An update of one record that leaves its token alone. *)
Definition good_update (i : Uuid) (f : OAuthRefreshTokenVaultRecord → OAuthRefreshTokenVaultRecord) v : Prop :=
  ∀ r, v !! i = Some r → vault_record_ok i r →
    vault_record_ok i (f r) ∧ vr_refresh_token_sha256 (f r) = vr_refresh_token_sha256 r.

Lemma vault_ok_update i f v : vault_ok v → good_update i f v → ∀ r, v !! i = Some r → vault_ok (<[i := f r]> v).
Proof.
  intros Hv Hf r Hr. destruct (Hf r Hr (vk_records _ Hv _ _ Hr)) as [Hok Hh].
  apply vault_ok_insert; [done..|]. intros j r' Hj. rewrite Hh. intros E. by eapply (vk_unique _ Hv).
Qed.
Lemma vault_ok_alter i f v : vault_ok v → good_update i f v → vault_ok (alter f i v).
Proof.
  intros Hv Hf. destruct (v !! i) as [r|] eqn:Hr.
  - rewrite <- (insert_id v i r Hr) at 1. rewrite alter_insert_eq. by apply vault_ok_update.
  - rewrite alter_id; [done|]. by rewrite Hr.
Qed.

(** ** Changes of a record *)

Lemma u32_saturating_bounds a b : 0 ≤ u32_saturating_add a b ≤ u32_max.
Proof. by apply clamp_bounds. Qed.
#[local] Hint Resolve u32_saturating_bounds : core.

Lemma failed_item_ok i now due reason r : vault_record_ok i r → vault_record_ok i (failed_item now due reason r).
Proof. intros []. split; unfold failed_item; cbn; unfold waits; try done; [by right|naive_solver]. Qed.

Lemma restored_item_ok i now r : vault_record_ok i r → vault_record_ok i (restored_item now r).
Proof. intros []. split; unfold restored_item; cbn; unfold waits; try done; naive_solver. Qed.

(** What a probe says is right for the record it probed. *)
Record admits r (a : AdmissionResult) : Prop := {
  ad_retry : retry_fits (ar_retryable a) (ar_status a) (ar_terminal_reason a);
  ad_ready : ar_status a = VaultReady →
    is_Some (vr_fallback_access_token_enc r) ∧ is_Some (ar_fallback_token_expires_at a);
  ad_waits : waits (ar_retryable a) (ar_status a) → is_Some (ar_retry_after a);
  ad_budget : ar_increment_transient_retry_count a = true →
    vr_transient_retry_count r < OAUTH_VAULT_TERMINAL_AUTH_RETRY_LIMIT;
}.

Lemma admitted_item_ok i a r : admits r a → vault_record_ok i r → vault_record_ok i (admitted_item a r).
Proof.
  intros [Hret Hrd Hw Hb] []. split; unfold admitted_item; cbn; try done.
  - intros Hs. destruct (Hrd Hs) as [He Hx]. split; [done|]. by destruct Hx as [t ->].
  - destruct (ar_increment_transient_retry_count a); [|done]. specialize (Hb eq_refl).
    unfold u32_saturating_add, u32_max, OAUTH_VAULT_TERMINAL_AUTH_RETRY_LIMIT in *. rewrite clamp_id; lia.
Qed.

Lemma unprobed_admits r status t source code msg (retryable : bool) :
  status = (if retryable then VaultNeedsRefresh else VaultFailed) →
  admits r (admission_unprobed status t source code msg retryable).
Proof. intros ->. by destruct retryable; split; cbn; unfold waits; naive_solver. Qed.

Lemma rate_limit_block_pair l t :
  (∃ u reason, derive_rate_limit_block l t = (Some u, Some reason)) ∨ derive_rate_limit_block l t = (None, None).
Proof. unfold derive_rate_limit_block. repeat case_match; eauto. Qed.

Lemma answered_admits `{Environment} r t e l :
  is_Some (vr_fallback_access_token_enc r) → admits r (admission_answered t e l).
Proof.
  intros Henc. unfold admission_answered.
  destruct (rate_limit_block_pair l t) as [(u & reason & ->)| ->]; destruct e as [e|];
    by split; cbn; unfold waits; eauto; naive_solver.
Qed.

Lemma retry_after_budget `{Environment} t code msg n :
  is_transient_upstream_error_signal code msg = true → is_Some (admission_retry_after t code msg n) →
  n < OAUTH_VAULT_TERMINAL_AUTH_RETRY_LIMIT.
Proof.
  unfold admission_retry_after. intros ->. cbn. unfold can_retry_transient_admission_failure.
  case_match; [lia|by intros []].
Qed.

Lemma refused_admits `{Environment} r t e err :
  admits r (admission_refused t e (vr_transient_retry_count r) err).
Proof.
  unfold admission_refused. cbv zeta. set (code := error_code_str _). set (msg := truncate_error_message _).
  set (retry := admission_retry_after _ _ _ _).
  assert (Hb : bool_decide (is_Some retry) = true → is_Some retry) by apply bool_decide_eq_true_1.
  split; cbn.
  - repeat case_match; cbn in *; unfold retry_fits; naive_solver.
  - repeat case_match; naive_solver.
  - unfold waits. repeat case_match; cbn in *; destruct (bool_decide (is_Some retry)); naive_solver.
  - intros [Ht Hr]%andb_prop. by eapply (retry_after_budget t code msg); [|apply Hb].
Qed.

(** An activation that failed. *)
Definition activating (status : OAuthVaultRecordStatus) : Prop :=
  match status with VaultReady | VaultNeedsRefresh | VaultQueued => True | _ => False end.

Lemma activation_failed_item_ok i now status code msg r :
  activating status → vault_record_ok i r → vault_record_ok i (activation_failed_item now status code msg r).
Proof.
  intros Hs []. split; unfold activation_failed_item; cbn; try done.
  - destruct (if is_one_of _ _ then _ else _); cbn; [|by right]. by destruct status.
  - destruct (if is_one_of _ _ then _ else _); cbn; by destruct status.
  - destruct (if is_one_of _ _ then _ else _); cbn; unfold waits; destruct status; naive_solver.
Qed.

Section vault.
Context `{Base64, Aes256Gcm, NonceSource, Digests, UuidSource, WallClock, UuidText, Environment, IdOrder}.
Context `{HashOrder, CompletionOrder, OAuthTokenClient, UrlSafeBase64, SerdeJson, Chrono}.
Context `{UrlFragment} (hasher : ApiKeyTokenHasher).
Implicit Types w : Timed InMemoryStore.

Lemma queued_record_ok req i now t enc fallback : vault_record_ok i (queued_record req i now t enc fallback).
Proof. split; unfold queued_record; cbn; unfold waits; try done; naive_solver. Qed.

(** ** Operations *)

Definition vault_inv w : Prop := vault_ok (oauth_refresh_token_vault (st w)).
Abbreviation keeps_vault := (kept vault_inv).

Lemma vault_tick : ticking vault_inv.
Proof. by intros s n Hw. Qed.
Hint Resolve vault_tick : keeps.

(** Writes to other tables, and updates of the vault. *)
Lemma other_write f :
  (∀ s, oauth_refresh_token_vault (f s) = oauth_refresh_token_vault s) → keeps_vault (modify f).
Proof. intros Hf. apply kept_modify. intros s n Hw. unfold vault_inv in *. cbn [st] in *. by rewrite Hf. Qed.
Lemma other_writes {A} (f : InMemoryStore → A → InMemoryStore) l s :
  (∀ s x, oauth_refresh_token_vault (f s x) = oauth_refresh_token_vault s) →
  oauth_refresh_token_vault (fold_left f l s) = oauth_refresh_token_vault s.
Proof. intros Hf. revert s. induction l as [|x l IH]; intros s; cbn [fold_left]; [done|]. by rewrite IH. Qed.
Hint Extern 4 (kept vault_inv (modify _)) =>
  apply other_write; intros ?; first [reflexivity|apply other_writes; reflexivity] : keeps.

Lemma vault_write g :
  (∀ v, vault_ok v → vault_ok (g v)) → keeps_vault (modify (λ s, s <| oauth_refresh_token_vault ::= g |>)).
Proof. intros Hg. apply kept_modify. intros s n Hw. by apply Hg. Qed.

Lemma with_vault_record_keeps i f : (∀ v, good_update i f v) → keeps_vault (with_vault_record i f).
Proof.
  intros Hf w Hw. unfold with_vault_record. wp_step. wp_step.
  destruct (oauth_refresh_token_vault (st w) !! i) as [r|] eqn:Hr; [|by wp_step].
  apply wp_bind, wp_modify. unfold bump_revision. wp_go.
  by apply (vault_ok_update _ _ _ Hw (Hf _)).
Qed.

Lemma with_vault_records_keeps l f : (∀ i v, good_update i f v) → keeps_vault (with_vault_records l f).
Proof.
  intros Hf. unfold with_vault_records. apply kept_bind; [apply kept_gets|intros v0]. cbv zeta.
  apply kept_bind; [|intros _; keeps_go]. apply vault_write. induction l as [|i l IH]; intros v Hv; [done|].
  cbn [fold_left]. by apply IH, vault_ok_alter.
Qed.

Lemma failed_update i v now due reason : good_update i (failed_item now due reason) v.
Proof. intros r _ Hr. split; [by apply failed_item_ok|done]. Qed.
Lemma restored_update i v now : good_update i (restored_item now) v.
Proof. intros r _ Hr. split; [by apply restored_item_ok|done]. Qed.

Lemma fail_record_keeps i reason : keeps_vault (mark_oauth_inventory_record_failed_inner i reason).
Proof. apply kept_bind; [keeps_go|intros now]. apply with_vault_record_keeps. intros v. apply failed_update. Qed.
Lemma fail_records_keeps l reason : keeps_vault (mark_oauth_inventory_records_failed_inner l reason).
Proof. apply kept_bind; [keeps_go|intros now]. apply with_vault_records_keeps. intros i v. apply failed_update. Qed.
Lemma restore_record_keeps i : keeps_vault (restore_oauth_inventory_record_inner i).
Proof. apply kept_bind; [keeps_go|intros now]. apply with_vault_record_keeps. intros v. apply restored_update. Qed.
Lemma restore_records_keeps l : keeps_vault (restore_oauth_inventory_records_inner l).
Proof. apply kept_bind; [keeps_go|intros now]. apply with_vault_records_keeps. intros i v. apply restored_update. Qed.

Lemma delete_write_keeps i : keeps_vault (modify (λ s, s <| oauth_refresh_token_vault ::= delete i |>)).
Proof. apply vault_write. intros v. apply vault_ok_delete. Qed.
Hint Resolve delete_write_keeps : keeps.
Lemma delete_record_keeps i : keeps_vault (delete_oauth_inventory_record_inner i).
Proof. keeps_go. Qed.
Lemma delete_records_keeps l : keeps_vault (delete_oauth_inventory_records_inner l).
Proof.
  apply kept_bind; [apply kept_gets|intros v0]. cbv zeta. apply kept_bind; [|intros _; keeps_go].
  apply vault_write. induction l as [|i l IH]; intros v Hv; [done|]. by apply IH, vault_ok_delete.
Qed.
Hint Resolve fail_record_keeps fail_records_keeps restore_record_keeps restore_records_keeps delete_record_keeps delete_records_keeps : keeps.
Lemma purge_records_keeps : keeps_vault purge_due_oauth_inventory_records_inner.
Proof. keeps_go. Qed.

(** ** Probes of a record *)

Lemma probe_admission_admits r t w :
  wp (probe_admission r t) (λ a w', admits r a ∧ st w' = st w) w.
Proof.
  unfold probe_admission. do 2 wp_step. destruct (credential_cipher (st w)) as [c|].
  2: { wp_step. split; [by apply unprobed_admits|done]. }
  destruct (vr_fallback_access_token_enc r) as [enc|] eqn:Henc.
  2: { wp_step. split; [by apply unprobed_admits|done]. }
  destruct (decrypt c enc) as [t'|e].
  2: { wp_step. split; [by apply unprobed_admits|done]. }
  destruct (is_empty (trim t')).
  { wp_step. split; [by apply unprobed_admits|done]. }
  wp_step. destruct w as [s n]. apply wp_call. wp_step. split; [|done].
  case_match; [apply answered_admits; by rewrite Henc|apply refused_admits].
Qed.

Lemma probe_record_keeps i : keeps_vault (probe_oauth_vault_admission_inner i).
Proof.
  intros w Hw. unfold probe_oauth_vault_admission_inner. do 2 wp_step.
  destruct (oauth_refresh_token_vault (st w) !! i) as [r|] eqn:Hr; [|by wp_step].
  do 2 wp_step. wp_step. wp_use (probe_admission_admits r _ _) as a w' [Ha Hst]. cbn [st] in Hst.
  unfold update_oauth_vault_admission_result, bump_revision. wp_go. unfold vault_inv. rproj. rewrite Hst.
  apply vault_ok_alter; [done|]. intros r' Hr' Hok. rewrite Hr in Hr'. injection Hr' as <-.
  split; [by apply admitted_item_ok|done].
Qed.
Hint Resolve probe_record_keeps purge_records_keeps : keeps.

Lemma reprobe_records_kept l : keeps_vault (reprobe_oauth_inventory_records l).
Proof.
  induction l as [|i l IH]; cbn [reprobe_oauth_inventory_records]; [keeps_go|]. apply kept_try_bind; [keeps_go|done].
Qed.
Lemma reprobe_admissions_kept l : keeps_vault (reprobe_admissions l).
Proof. induction l as [|i l IH]; cbn [reprobe_admissions]; [keeps_go|]. apply kept_try_bind; [keeps_go|done]. Qed.
Hint Resolve reprobe_records_kept reprobe_admissions_kept : keeps.

(** ** Queueing *)

Lemma hash_find_some h v i :
  vault_record_id_by_hash h v = Some i → ∃ r, v !! i = Some r ∧ vr_refresh_token_sha256 r = h.
Proof.
  unfold vault_record_id_by_hash. rewrite fmap_Some. intros ([j r] & Hf & ->).
  apply find_some in Hf as [Hin Heq%String.eqb_eq]. exists r. split; [|done].
  apply elem_of_id_iter. by apply list_elem_of_In in Hin.
Qed.
Lemma hash_find_none h v i r :
  vault_record_id_by_hash h v = None → v !! i = Some r → vr_refresh_token_sha256 r ≠ h.
Proof.
  unfold vault_record_id_by_hash. rewrite fmap_None. intros Hf Hr.
  apply elem_of_id_iter, list_elem_of_In in Hr. apply String.eqb_neq. exact (find_none _ _ Hf _ Hr).
Qed.

Lemma encrypt_sealed c p w : wp (encrypt c p) (λ o w', st w' = st w ∧ ∀ t, o = Ok t → sealed c t p) w.
Proof. apply wp_intro. intros o w' [= <- <-]. split; [done|]. intros t Ht. by exists (ticks w). Qed.

Lemma encrypt_option_sealed c o w :
  wp (encrypt_option c o) (λ x w', st w' = st w ∧ ∀ t, x = Ok t →
    match o, t with Some p, Some text => sealed c text p | None, None => True | _, _ => False end) w.
Proof.
  destruct o as [p|]; cbn [encrypt_option]; [|wp_step; split; [done|by intros ? [= <-]]].
  wp_step. wp_use (encrypt_sealed c p w) as [t|e] w' [Hst Hs]; [|by split].
  wp_step. split; [done|]. intros ? [= <-]. by apply Hs.
Qed.

(** A token is queued in the record that has it, or in a new one. *)
Lemma queue_inner_spec req w :
  wp (queue_oauth_refresh_token_inner req) (λ res w',
    match res with
    | Err _ => st w' = st w
    | Ok created => ∃ c i now t enc fallback,
        credential_cipher (st w) = Some c ∧ sealed c enc (imp_refresh_token req)
        ∧ match trimmed_non_empty (imp_fallback_access_token req), fallback with
          | Some token, Some text => sealed c text token
          | None, None => True
          | _, _ => False
          end
        ∧ st w' = (st w) <| oauth_refresh_token_vault ::= insert i (queued_record req i now t enc fallback) |>
        ∧ vault_record_id_by_hash (refresh_token_sha256 (imp_refresh_token req))
            (oauth_refresh_token_vault (st w)) = (if created then None else Some i)
    end) w.
Proof.
  unfold queue_oauth_refresh_token_inner, require_credential_cipher. do 4 wp_step.
  destruct (credential_cipher (st w)) as [c|] eqn:Hc; [|done].
  do 2 wp_step. do 2 wp_step. cbv zeta. cbn [st]. set (found := vault_record_id_by_hash _ _).
  wp_step. wp_use (encrypt_option_sealed c _ _) as [fb|e] w1 [Hst1 Hfb]; [|done]. cbn [st] in Hst1. wp_step.
  apply (wp_mono _ (λ i w2, st w2 = st w ∧ ∀ j, found = Some j → i = j)).
  { destruct found; wp_step; rewrite Hst1; naive_solver. }
  intros i w2 [Hst2 Hi]. wp_step. wp_use (encrypt_sealed c _ _) as [enc|e] w3 [Hst3 Henc]; [|by rewrite Hst3].
  do 3 wp_step. exists c, i. do 4 eexists. split_and!; [done|by apply Henc|by apply Hfb|by rewrite Hst3, Hst2|].
  destruct found as [j|] eqn:Hf; cbn; [by rewrite (Hi j)|done].
Qed.

Lemma queue_inner_keeps req : keeps_vault (queue_oauth_refresh_token_inner req).
Proof.
  intros w Hw. wp_use (queue_inner_spec req w) as [created|e] w' Hq; [|unfold vault_inv; by rewrite Hq].
  destruct Hq as (c & i & now & t & enc & fallback & _ & _ & _ & Hst & Hfind).
  unfold vault_inv. rewrite Hst. rproj.
  apply vault_ok_insert; [done|apply queued_record_ok|]. intros j r' Hj Hh. destruct created.
  - by destruct (hash_find_none _ _ _ _ Hfind Hj).
  - apply hash_find_some in Hfind as (r & Hr & Hrh). eapply (vk_unique _ Hw); [done..|]. by rewrite Hh, Hrh.
Qed.
Hint Resolve queue_inner_keeps : keeps.

(** ** Activation *)

Lemma mark_failed_keeps i status code msg :
  activating status → keeps_vault (mark_oauth_vault_activation_failed_inner i status code msg).
Proof.
  intros Hs. apply kept_bind; [keeps_go|intros now]. apply vault_write. intros v Hv.
  apply vault_ok_alter; [done|]. intros r _ Hr. split; [by apply activation_failed_item_ok|done].
Qed.
Hint Resolve mark_failed_keeps : keeps.

Lemma settle_keeps r o : activating (vr_status r) → keeps_vault (settle_activation r o).
Proof. intros Hs. unfold settle_activation. keeps_go. Qed.
Hint Resolve settle_keeps : keeps.

Lemma upsert_keeps_vault req : keeps_vault (upsert_oauth_refresh_token_inner req).
Proof. keeps_go. Qed.
Hint Resolve upsert_keeps_vault : keeps.

Lemma activate_by_refresh_keeps r : activating (vr_status r) → keeps_vault (activate_by_refresh r).
Proof. intros Hs. keeps_go. Qed.
Lemma materialize_keeps_vault r : keeps_vault (materialize_ready_oauth_vault_record_inner r).
Proof. keeps_go. Qed.
Hint Resolve materialize_keeps_vault : keeps.
Lemma activate_candidate_kept r : keeps_vault (activate_candidate r).
Proof.
  unfold activate_candidate. destruct (vr_status r) eqn:Hs.
  2: { apply kept_try_bind; [keeps_go|intros _]. apply kept_bind; [keeps_go|intros v].
       destruct (v !! vr_id r) as [r'|]; [|keeps_go]. case_bool_decide as Hr; cbn [negb]; [|keeps_go].
       apply kept_bind; [keeps_go|intros o]. apply kept_bind; [|intros b; keeps_go].
       apply settle_keeps. by rewrite Hr. }
  all: first [apply activate_by_refresh_keeps; by rewrite Hs|keeps_go].
Qed.
Lemma activate_candidates_kept n l : keeps_vault (activate_candidates n l).
Proof.
  revert n. induction l as [|r l IH]; intros n; cbn [activate_candidates]; [apply kept_ret|].
  apply kept_try_bind; [apply activate_candidate_kept|intros b; apply IH].
Qed.
Hint Resolve activate_candidates_kept : keeps.

(** ** Every call *)

Lemma patrol_loop_kept c l : keeps_vault (patrol_loop c l).
Proof.
  revert c. induction l as [|i l IH]; intros c; cbn [patrol_loop]; [keeps_go|].
  apply kept_bind; [keeps_go|intros o; apply IH].
Qed.
Lemma take_expiring_kept n t l : keeps_vault (take_expiring n t l).
Proof.
  revert n. induction l as [|[i a] l IH]; intros [|n]; cbn [take_expiring]; try apply kept_ret.
  apply kept_bind; [keeps_go|intros []; [|apply IH]]. apply kept_bind; [apply IH|intros ?; apply kept_ret].
Qed.
Hint Resolve patrol_loop_kept take_expiring_kept : keeps.

Lemma run_oauth_op_vault op : keeps_vault (run_oauth_op op).
Proof. destruct op; cbn [run_oauth_op]; keeps_go. Qed.

Lemma purge_candidates_kept n l : keeps_vault (purge_candidates n l).
Proof.
  revert n. induction l as [|i l IH]; intros n; cbn [purge_candidates]; [keeps_go|].
  apply kept_bind; [keeps_go|intros o; apply IH].
Qed.
Hint Resolve purge_candidates_kept : keeps.
Lemma run_op_vault op : keeps_vault (run_op hasher op).
Proof. destruct op; cbn [run_op]; keeps_go. Qed.

Lemma run_calls_vault calls c t1 t2 t3 n :
  wp (run_calls hasher calls) (λ _ w, vault_inv w) (mkTimed (new_with_oauth c t1 t2 t3) n).
Proof.
  apply kept_for_each; [|apply vault_ok_empty].
  intros [op|op]; cbn [run_call]; [apply run_op_vault|apply run_oauth_op_vault].
Qed.
End vault.

(** ** No record is stuck *)

(** A record is due for one of the jobs that empty the vault. *)
Definition due_for_job (now : DateTime) (delay : Duration) r : bool :=
  activation_candidate now r || reprobe_candidate now r || inventory_due now delay r.

Lemma none_or_due_from (o : option DateTime) : ∃ t, ∀ now, t ≤ now → none_or_due now o = true.
Proof. destruct o as [t|]; [exists t|by exists 0]. intros now Hn. by apply Z.leb_le. Qed.

Lemma record_comes_due i r delay :
  vault_record_ok i r → ∃ t, ∀ now, t ≤ now → due_for_job now delay r = true.
Proof.
  intros [_ Hret _ Hw _ _ _]. unfold due_for_job, activation_candidate, reprobe_candidate, inventory_due.
  destruct (none_or_due_from (vr_backoff_until r)) as [t1 H1].
  destruct (none_or_due_from (vr_next_attempt_at r)) as [t2 H2].
  destruct (vr_status r) eqn:Hs, (vr_retryable r) eqn:Hr.
  1-6: exists (t1 `max` t2); intros now Hn; by rewrite H1, H2 by lia.
  1: destruct Hw as [t ->]; [by left|]; exists t; intros now Hn; cbn; by rewrite (proj2 (Z.leb_le _ _) Hn).
  1: by destruct Hret.
  1: destruct Hw as [t ->]; [by right|]; exists t; intros now Hn; cbn; by rewrite (proj2 (Z.leb_le _ _) Hn).
  exists (default (vr_updated_at r + delay) (vr_next_retry_at r)). intros now Hn.
  by rewrite (proj2 (Z.leb_le _ _) Hn), orb_true_r.
Qed.
