(* ===== verification/OAuthProbeFacts.v ===== *)
(** * Probes of accounts

    A probe changes its account as a pure function of the reply says, and writes
    nothing else but the account's cache of rate limits and its plan. *)
From S2P Require Import Prelude RustStr CoreModel Json Request RoutingCache ControlModel StoreDefs Secrets Credentials Store StoreConfig Kept StoreFacts OAuthClient OAuthPool OAuthVaultFacts.

#[local] Open Scope string_scope.
#[local] Open Scope list_scope.
#[local] Open Scope Z_scope.

Section probes.
Context `{Base64, Aes256Gcm, NonceSource, Digests, UuidSource, WallClock, UuidText, Environment, IdOrder}.
Context `{HashOrder, CompletionOrder, OAuthTokenClient}.
Implicit Types (w : Timed InMemoryStore) (s : InMemoryStore).

(** ** What stays as it was *)

Definition without_plan (p : SessionProfileRecord) := p <| spr_chatgpt_plan_type := None |>.

(** Tables other than accounts and their states: only the cache and the plan of
    account [i] may differ. *)
Definition elsewhere (i : Uuid) s s' : Prop :=
  rest (s' <| oauth_rate_limit_caches := ∅ |> <| session_profiles := ∅ |>)
  = rest (s <| oauth_rate_limit_caches := ∅ |> <| session_profiles := ∅ |>)
  ∧ delete i (oauth_rate_limit_caches s') = delete i (oauth_rate_limit_caches s)
  ∧ delete i (session_profiles s') = delete i (session_profiles s)
  ∧ without_plan <$> session_profiles s' !! i = without_plan <$> session_profiles s !! i.

Lemma elsewhere_trans i s1 s2 s3 : elsewhere i s1 s2 → elsewhere i s2 s3 → elsewhere i s1 s3.
Proof. intros (? & ? & ? & ?) (? & ? & ? & ?). split_and!; etrans; eauto. Qed.
Lemma elsewhere_rest i s s' : rest s' = rest s → elsewhere i s s'.
Proof.
  unfold rest. intros Hr. injection Hr as ?. unfold elsewhere, rest. rproj. split_and!; congruence.
Qed.

(** The account becomes [a] and its state [h]. *)
Definition probe_step (i : Uuid) (a : UpstreamAccount) (h : UpstreamAccountHealthStateRecord) w w' : Prop :=
  accounts (st w') = <[i := a]> (accounts (st w))
  ∧ account_health_states (st w') = <[i := h]> (account_health_states (st w))
  ∧ elsewhere i (st w) (st w') ∧ rev_ok (st w').

(** ** The cache *)

(** Accounts and states stay. *)
Definition cache_step (i : Uuid) w w' : Prop :=
  accounts (st w') = accounts (st w) ∧ account_health_states (st w') = account_health_states (st w)
  ∧ elsewhere i (st w) (st w') ∧ rev_ok (st w').

Lemma elsewhere_cache i s c r :
  elsewhere i s (s <| oauth_rate_limit_caches ::= insert i c |> <| revision := r |>).
Proof. unfold elsewhere, rest. rproj. split_and!; [done| |done|done]. apply delete_insert_eq. Qed.
Lemma elsewhere_plan i s c r plan :
  elsewhere i s (s <| oauth_rate_limit_caches ::= insert i c |>
                   <| session_profiles ::= alter (λ p, p <| spr_chatgpt_plan_type := Some plan |>) i |>
                   <| revision := r |>).
Proof.
  unfold elsewhere, rest. rproj. split_and!; [done|apply delete_insert_eq|apply delete_alter_eq|].
  rewrite lookup_alter_eq. by destruct (session_profiles s !! i).
Qed.

Lemma persist_success_spec i l t plan w :
  wp (persist_rate_limit_cache_success_inner i l t plan) (λ _ w', cache_step i w w' ∧ ticks w' = ticks w) w.
Proof.
  unfold persist_rate_limit_cache_success_inner, bump_revision.
  destruct (derive_rate_limit_block l t) as [u reason]. destruct (trimmed_non_empty plan) as [p|]; wp_go.
  - split; [|done]. split_and!; [done|done|apply elsewhere_plan|apply u64_wrap_bounds].
  - split; [|done]. split_and!; [done|done|apply elsewhere_cache|apply u64_wrap_bounds].
Qed.

Lemma persist_failure_spec i code msg w :
  wp (persist_rate_limit_cache_failure_inner i code msg) (λ _ w', cache_step i w w') w.
Proof.
  unfold persist_rate_limit_cache_failure_inner, bump_revision, account_auth_provider.
  destruct (is_auth_error_signal code msg); wp_go;
    (split_and!; [done|done|apply elsewhere_cache|apply u64_wrap_bounds]).
Qed.

(** ** The verdict on a reply *)

Definition probed (t : DateTime) (o : AccountProbeOutcome) (h : UpstreamAccountHealthStateRecord) :=
  h <| hs_last_probe_at := Some t |> <| hs_last_probe_outcome := Some o |>.

Definition probe_verdict (provider : UpstreamAuthProvider) (t : DateTime)
    (reply : result OAuthUsageSnapshot OAuthTokenClientError) : AccountProbeOutcome * LiveEffect :=
  match reply with
  | Ok usage =>
      match derive_rate_limit_block (ous_rate_limits usage) t with
      | (Some until, Some reason) => (ProbeQuota, Cooling until reason)
      | _ => (ProbeOk, Routable)
      end
  | Err err =>
      let '(outcome, reason, retry_after) :=
        classify_runtime_probe_failure provider t (error_code_str (client_error_code err))
          (truncate_error_message (client_error_display err)) in
      (outcome, match outcome, retry_after with
                | ProbeFatal, _ => Doomed reason
                | _, Some until => Cooling until reason
                | _, None => Routable
                end)
  end.

(** A failure is fatal, or the account is asked again later. *)
Lemma probe_failure_class provider t code msg :
  (∃ reason, classify_runtime_probe_failure provider t code msg = (ProbeFatal, reason, None))
  ∨ ∃ o reason until, classify_runtime_probe_failure provider t code msg = (o, reason, Some until)
      ∧ (o = ProbeQuota ∨ o = ProbeTransient).
Proof. unfold classify_runtime_probe_failure. repeat case_match; naive_solver. Qed.

Lemma record_probe_spec i t o w :
  rev_ok (st w) →
  wp (record_account_probe_result_inner i t o) (λ _ w', health_step i (probed t o (health_of i (st w))) 0 w w') w.
Proof.
  intros Hr. unfold record_account_probe_result_inner, health_entry. do 2 wp_step.
  by wp_use (put_health_spec _ _ _ Hr) as [] w' [Hs _].
Qed.

Lemma emit_probe_spec src i t o c n m w :
  wp (emit_probe_result_event_inner src i t o c n m) (λ _ w', same_tables (st w) (st w')
    ∧ account_health_states (st w') = account_health_states (st w)
    ∧ revision (st w') = revision (st w) ∧ (ticks w ≤ ticks w')%nat) w.
Proof.
  unfold emit_probe_result_event_inner, lookup_account, account_auth_provider. do 4 wp_step.
  destruct (probe_event_kind o) as [[? ?] ?].
  destruct (accounts (st w) !! i); wp_go; by rproj.
Qed.

(** Recording the result of a probe, with the event. *)
Lemma record_and_emit_spec {A} i t o src c n m (k : ST (Timed InMemoryStore) A) Q w :
  rev_ok (st w) →
  (∀ w', health_step i (probed t o (health_of i (st w))) 0 w w' → wp k Q w') →
  wp (_ ← record_account_probe_result_inner i t o; _ ← emit_probe_result_event_inner src i t o c n m; k) Q w.
Proof.
  intros Hr Hk. wp_step. wp_use (record_probe_spec i t o w Hr) as [] w1 Hs1. wp_step.
  wp_use (emit_probe_spec src i t o c n m w1) as [] w2 Hs2. by apply Hk, (health_step_emit _ _ _ _ w1).
Qed.

Lemma probe_step_health i a h h' w0 w w' :
  probe_step i a h w0 w → health_step i h' 0 w w' ∨ health_step i h' 1 w w' → probe_step i a h' w0 w'.
Proof.
  intros (Ha & Hh & He & Hr) Hs.
  assert (∃ n, health_step i h' n w w') as (n & [Ha' Hrest] & Hh' & Hr' & _) by (destruct Hs; eauto).
  split_and!.
  - by rewrite Ha'.
  - unfold health_set in Hh'. by rewrite Hh', Hh, insert_insert_eq.
  - eapply elsewhere_trans; [done|]. by apply elsewhere_rest.
  - unfold rev_ok. rewrite Hr'. apply u64_wrap_bounds.
Qed.
Lemma probe_step_account i a h a' h' n w0 w w' :
  probe_step i a h w0 w → account_step i a' h' n w w' → probe_step i a' h' w0 w'.
Proof.
  intros (Ha & Hh & He & Hr) (Ha' & Hh' & Hrest & Hr' & _). split_and!.
  - by rewrite Ha', Ha, insert_insert_eq.
  - by rewrite Hh', Hh, insert_insert_eq.
  - eapply elsewhere_trans; [done|]. by apply elsewhere_rest.
  - unfold rev_ok. rewrite Hr'. apply u64_wrap_bounds.
Qed.
Lemma probe_step_cache i a h w0 w w' : probe_step i a h w0 w → cache_step i w w' → probe_step i a h w0 w'.
Proof.
  intros (Ha & Hh & He & Hr) (Ha' & Hh' & He' & Hr'). split_and!; [by rewrite Ha'|by rewrite Hh'| |done].
  by eapply elsewhere_trans.
Qed.
Lemma probe_step_begin i a h w w1 w2 :
  cache_step i w w1 → accounts (st w) !! i = Some a → health_step i h 0 w1 w2 → probe_step i a h w w2.
Proof.
  intros (Ha & Hh & He & Hr) Hi ([Ha' Hrest] & Hh' & Hr' & _). split_and!.
  - by rewrite Ha', Ha, insert_id.
  - unfold health_set in Hh'. by rewrite Hh', Hh.
  - eapply elsewhere_trans; [done|]. by apply elsewhere_rest.
  - unfold rev_ok. rewrite Hr'. apply u64_wrap_bounds.
Qed.
Lemma cache_step_refl i w : rev_ok (st w) → cache_step i w w.
Proof. intros Hr. by split_and!. Qed.

(** ** The writes of a probe *)

(** The state a verdict leads to; [now] is when a purge was scheduled. *)
Definition verdict_step (i : Uuid) (t : DateTime) (a : UpstreamAccount) (v : AccountProbeOutcome * LiveEffect)
    w w' : Prop :=
  ∃ now, let ah := enact v.2 t now a (probed t v.1 (health_of i (st w))) in probe_step i ah.1 ah.2 w w'.

(** The result is recorded, the state not yet changed. *)
Definition probe_recorded (i : Uuid) (t : DateTime) (a : UpstreamAccount) (o : AccountProbeOutcome) w0 w : Prop :=
  probe_step i a (probed t o (health_of i (st w0))) w0 w
  ∧ health_of i (st w) = probed t o (health_of i (st w0)).

Lemma after_cache_spec {A} i t a o src c n m (k : ST (Timed InMemoryStore) A) Q w0 w :
  cache_step i w0 w → accounts (st w0) !! i = Some a →
  (∀ w', probe_recorded i t a o w0 w' → wp k Q w') →
  wp (_ ← record_account_probe_result_inner i t o; _ ← emit_probe_result_event_inner src i t o c n m; k) Q w.
Proof.
  intros Hc Ha Hk. assert (Hh : health_of i (st w) = health_of i (st w0)).
  { destruct Hc as (_ & E & _). unfold health_of. by rewrite E. }
  apply record_and_emit_spec; [apply Hc|]. rewrite Hh. intros w' Hs. apply Hk.
  split; [by eapply probe_step_begin|by eapply health_step_health].
Qed.

Lemma recorded_account i t a o w0 w : probe_recorded i t a o w0 w → rev_ok (st w) ∧ accounts (st w) !! i = Some a.
Proof. intros [(Ha & _ & _ & Hr) _]. split; [done|]. rewrite Ha. apply lookup_insert_eq. Qed.

Lemma cool_spec i t until reason a o w0 w :
  probe_recorded i t a o w0 w →
  wp (_ ←? set_account_pool_state_quarantine_inner i t (Some until) (Some reason); mret (Ok o))
    (λ r w', r = Ok o ∧ verdict_step i t a (o, Cooling until reason) w0 w') w.
Proof.
  intros Hp. destruct (recorded_account _ _ _ _ _ _ Hp) as [Hr Ha]. destruct Hp as [Hp Hh].
  wp_step. wp_use (set_quarantine_spec _ _ _ _ _ Hr) as r w' Hq. rewrite Ha, Hh in Hq.
  destruct Hq as [-> Hq]. wp_step. split; [done|]. exists 0. cbn. eapply probe_step_health; [done|by right].
Qed.

Lemma activate_spec i t a o w0 w :
  probe_recorded i t a o w0 w →
  wp (_ ← set_account_pool_state_active_inner i t; mret (Ok o))
    (λ (r : result AccountProbeOutcome Error) w', r = Ok o ∧ verdict_step i t a (o, Routable) w0 w') w.
Proof.
  intros Hp. destruct (recorded_account _ _ _ _ _ _ Hp) as [Hr Ha]. destruct Hp as [Hp Hh].
  wp_step. wp_use (set_active_spec _ _ _ Hr) as [] w' Hq. rewrite Hh in Hq. wp_step. split; [done|].
  exists 0. cbn. eapply probe_step_health; [done|by left].
Qed.

Lemma doom_spec i t reason a o (k : ST (Timed InMemoryStore) (result AccountProbeOutcome Error)) Q w0 w :
  probe_recorded i t a o w0 w →
  (∀ w', verdict_step i t a (o, Doomed reason) w0 w' → wp k Q w') →
  wp (_ ←? mark_upstream_account_pending_purge_inner i (Some reason); k) Q w.
Proof.
  intros Hp Hk. destruct (recorded_account _ _ _ _ _ _ Hp) as [Hr Ha]. destruct Hp as [Hp Hh].
  wp_step. wp_use (mark_pending_spec _ _ _ Hr) as r w' Hq. rewrite Ha, Hh in Hq. destruct Hq as [-> Hq].
  apply Hk. eexists. cbn. by eapply probe_step_account.
Qed.

(** ** Probes *)

Lemma probe_answered_spec i src ok_msg quota_msg t usage a provider w :
  accounts (st w) !! i = Some a →
  wp (probe_answered i src ok_msg quota_msg t usage) (λ r w',
    let v := probe_verdict provider t (Ok usage) in r = Ok v.1 ∧ verdict_step i t a v w w') w.
Proof.
  intros Ha. unfold probe_answered, probe_verdict.
  destruct (rate_limit_block_pair (ous_rate_limits usage) t) as [(u & reason & ->)| ->]; wp_step;
    wp_use (persist_success_spec i _ _ _ w) as [] w1 [Hc _]; apply (after_cache_spec i t a _ _ _ _ _ _ _ w); try done.
  - intros w2 Hp. by apply cool_spec.
  - intros w2 Hp. by apply activate_spec.
Qed.

Lemma probe_refused_spec i src provider t err a w :
  accounts (st w) !! i = Some a →
  wp (probe_refused i src provider t err) (λ r w',
    let v := probe_verdict provider t (Err err) in r = Ok v.1 ∧ verdict_step i t a v w w') w.
Proof.
  intros Ha. unfold probe_refused, probe_verdict. wp_step.
  wp_use (persist_failure_spec i _ _ w) as x w1 Hc.
  destruct (probe_failure_class provider t (error_code_str (client_error_code err))
              (truncate_error_message (client_error_display err))) as [[reason ->]|(o & reason & u & -> & Ho)];
    apply (after_cache_spec i t a _ _ _ _ _ _ _ w); try done; intros w2 Hp.
  - apply (doom_spec i t reason a ProbeFatal _ _ w); [done|]. intros w' Hv. by wp_step.
  - destruct Ho as [-> | ->]; by apply cool_spec.
Qed.

Lemma probe_undecryptable_spec i src msg err t a w :
  rev_ok (st w) → accounts (st w) !! i = Some a →
  wp (probe_undecryptable i src msg err t) (λ r w',
    r = Ok ProbeFatal ∧ verdict_step i t a (ProbeFatal, Doomed "credential_decrypt_failed") w w') w.
Proof.
  intros Hr Ha. apply (after_cache_spec i t a _ _ _ _ _ _ _ w); [by apply cache_step_refl|done|].
  intros w2 Hp. apply (doom_spec i t "credential_decrypt_failed" a ProbeFatal _ _ w); [done|]. intros w3 [now Hv].
  wp_step. wp_use (persist_failure_spec i _ _ w3) as x w4 Hc. wp_step. split; [done|].
  exists now. by eapply probe_step_cache.
Qed.

(** The token the account is asked with: none without a cipher, an error when it does
    not decrypt. *)
Definition probe_token s (source : InMemoryRateLimitRefreshTokenSource) : option (result string Error) :=
  match source with
  | BearerToken token => Some (Ok token)
  | EncryptedAccessToken enc => (λ c, decrypt c enc) <$> credential_cipher s
  end.

(** The verdict on the account at a time, with the request that is number [n]. *)
Definition probe_of (n : nat) (t : DateTime) (provider : UpstreamAuthProvider) (a : UpstreamAccount)
    (token : result string Error) : AccountProbeOutcome * LiveEffect :=
  match token with
  | Ok token => probe_verdict provider t (fetch_usage n token (Some (ua_base_url a)) (ua_chatgpt_account_id a))
  | Err _ => (ProbeFatal, Doomed "credential_decrypt_failed")
  end.

Lemma probe_spec i src m1 m2 m3 w :
  rev_ok (st w) →
  wp (probe_runtime_oauth_account_inner i src m1 m2 m3) (λ r w',
    match accounts (st w) !! i with
    | None => r = Err "account not found" ∧ w' = w
    | Some a =>
        let provider := default LegacyBearer (account_auth_providers (st w) !! i) in
        match build_live_rate_limit_token_source_inner a provider (oauth_credentials (st w) !! i)
                (session_profiles (st w) !! i) (utc (ticks w)) ≫= probe_token (st w) with
        | None => (∃ e, r = Err e) ∧ st w' = st w
        | Some token =>
            let t := utc (Datatypes.S (ticks w)) in
            let v := probe_of (Datatypes.S (Datatypes.S (ticks w))) t provider a token in
            r = Ok v.1 ∧ verdict_step i t a v w w'
        end
    end) w.
Proof.
  intros Hr. unfold probe_runtime_oauth_account_inner, lookup_account, account_auth_provider.
  do 4 wp_step. destruct (accounts (st w) !! i) as [a|] eqn:Ha; [|by wp_step].
  do 10 wp_step. cbn [st ticks]. set (provider := default LegacyBearer _).
  destruct (build_live_rate_limit_token_source_inner _ _ _ _ _) as [source|]; cbn [mbind option_bind]; [|wp_step; eauto].
  do 2 wp_step. cbv zeta. cbn [st ticks].
  assert (Hask : ∀ token, wp
    (reply ← call (λ n, fetch_usage n token (Some (ua_base_url a)) (ua_chatgpt_account_id a));
     match reply with
     | Ok usage => probe_answered i src m1 m2 (utc (Datatypes.S (ticks w))) usage
     | Err err => probe_refused i src provider (utc (Datatypes.S (ticks w))) err
     end) (λ r w', let v := probe_of (Datatypes.S (Datatypes.S (ticks w))) (utc (Datatypes.S (ticks w))) provider a (Ok token) in
       r = Ok v.1 ∧ verdict_step i (utc (Datatypes.S (ticks w))) a v w w')
     (mkTimed (st w) (Datatypes.S (Datatypes.S (ticks w))))).
  { intros token. wp_step. apply wp_call. cbn [probe_of].
    destruct (fetch_usage _ _ _ _) as [usage|err].
    - exact (probe_answered_spec i src m1 m2 _ usage a provider (mkTimed (st w) _) Ha).
    - exact (probe_refused_spec i src provider _ err a (mkTimed (st w) _) Ha). }
  destruct source as [enc|token]; cbn [probe_token]; [|apply Hask].
  unfold require_credential_cipher. do 4 wp_step. cbn [st].
  destruct (credential_cipher (st w)) as [c|]; cbn [fmap option_fmap option_map]; [|eauto].
  destruct (decrypt c enc) as [token|e]; [apply Hask|].
  exact (probe_undecryptable_spec i src m3 e _ a (mkTimed (st w) _) Hr Ha).
Qed.
End probes.
