(* ===== verification/OAuthDedupeFacts.v ===== *)
(** * One account per identity

    What [dedupe_oauth_accounts_by_identity_inner] removes: the accounts of an identity
    that has a newer one. *)
From S2P Require Import Prelude RustStr CoreModel Json Request RoutingCache ControlModel StoreDefs Secrets Credentials Store StoreConfig Kept StoreFacts StoreInv OAuthClient OAuthPool OAuthVault OAuthAccounts OAuthInv.

#[local] Open Scope list_scope.
#[local] Open Scope Z_scope.

(** ** Ages *)

(** Created earlier, or with the smaller identifier at the same time. *)
Definition older (a b : UpstreamAccount) : Prop :=
  ua_created_at a < ua_created_at b ∨ ua_created_at a = ua_created_at b ∧ (ua_id a < ua_id b)%N.

Lemma age_not_gt a b : account_age_compare b a ≠ Gt ↔ ¬ older a b.
Proof.
  unfold account_age_compare, older, then_with.
  destruct (Z.compare_spec (ua_created_at b) (ua_created_at a)), (N.compare_spec (ua_id b) (ua_id a));
    split; intros ?; try done; lia.
Qed.

Lemma older_irrefl a : ¬ older a a.
Proof. unfold older. lia. Qed.
Lemma older_trans a b c : older a b → older b c → older a c.
Proof. unfold older. lia. Qed.
Lemma older_total a b : ua_id a ≠ ua_id b → older a b ∨ older b a.
Proof. unfold older. lia. Qed.

(** All but the newest of a list. *)
Lemma elem_of_all_but_newest l x :
  NoDup (ua_id <$> l) →
  x ∈ drop 1 (sort_by (λ a b, account_age_compare b a) l) ↔ x ∈ l ∧ ∃ y, y ∈ l ∧ older x y.
Proof.
  intros Hd. set (cmp := λ a b, account_age_compare b a).
  assert (Hs : StronglySorted (cmp_le cmp) (sort_by cmp l)).
  { apply sort_by_sorted; subst cmp; intros *; cbn beta; rewrite !age_not_gt; unfold older; lia. }
  assert (Hp := sort_by_perm cmp l). rewrite <- (elem_of_sort_by cmp l x).
  setoid_rewrite <- (elem_of_sort_by cmp l). rewrite <- Hp in Hd.
  destruct (sort_by cmp l) as [|y l']; cbn [drop]; [set_solver|].
  apply StronglySorted_inv in Hs as [_ Hs]. rewrite list.Forall_forall in Hs.
  rewrite fmap_cons in Hd. apply list.NoDup_cons in Hd as [Hy Hd].
  assert (Hnew : ∀ z, z ∈ l' → older z y).
  { intros z Hz. destruct (older_total z y) as [?|Hl]; [|done|].
    - intros E. apply Hy. rewrite <- E. by apply (list_elem_of_fmap_2 ua_id).
    - specialize (Hs z Hz). unfold cmp_le in Hs. subst cmp. cbn beta in Hs. by apply age_not_gt in Hs. }
  setoid_rewrite elem_of_cons. split.
  - intros Hx. split; [by right|]. exists y. auto.
  - intros [[->|Hx] (z & [->|Hz] & Ho)]; [by apply older_irrefl in Ho| |done|done].
    destruct (older_irrefl y). eapply older_trans; [done|by apply Hnew].
Qed.

(** ** Groups *)

Lemma join_fmap {A B} (f : A → list B) (l : list A) : mjoin (f <$> l) = l ≫= f.
Proof. induction l as [|x l IH]; [done|]. csimpl. by rewrite IH. Qed.

Lemma filter_sublist {A} (f : A → bool) l : List.filter f l `sublist_of` l.
Proof. induction l as [|x l IH]; cbn [List.filter]; [constructor|]. destruct (f x); by constructor. Qed.

Section groups.
Context {K V : Type} `{Countable K}.
Implicit Types (key : V → option K) (g : gmap K (list V)).

Definition put_group key g (x : V) : gmap K (list V) :=
  match key x with
  | Some k => <[k := default [] (g !! k) ++ [x]]> g
  | None => g
  end.

(** A group holds what was there and the elements with its key, in order. *)
Lemma put_groups key l g k :
  fold_left (put_group key) l g !! k
  = match List.filter (λ x, bool_decide (key x = Some k)) l with
    | [] => g !! k
    | l' => Some (default [] (g !! k) ++ l')
    end.
Proof.
  revert g. induction l as [|x l IH]; intros g; [done|]. cbn [fold_left List.filter]. rewrite IH. clear IH.
  unfold put_group. destruct (key x) as [k'|]; [|by rewrite bool_decide_eq_false_2].
  destruct (decide (k' = k)) as [->|Hne].
  - rewrite lookup_insert_eq, bool_decide_eq_true_2 by done. cbn [default from_option].
    destruct (List.filter _ l) as [|y l']; [done|]. simpl. by rewrite <- (assoc_L (++)).
  - rewrite lookup_insert_ne by done. by rewrite bool_decide_eq_false_2 by congruence.
Qed.
End groups.

Section dedupe.
Context `{Base64, Aes256Gcm, NonceSource, Digests, UuidSource, WallClock, UuidText, Environment, IdOrder}.
Context `{HashOrder, CompletionOrder, OAuthTokenClient, UrlSafeBase64, SerdeJson, Chrono}.
Context `{UrlFragment}.
Implicit Types (w : Timed InMemoryStore) (s : InMemoryStore).

Definition keyed s : Prop := ∀ i a, accounts s !! i = Some a → ua_id a = i.

(** There is a newer account of the same identity. *)
Definition superseded s (target : option string) (a : UpstreamAccount) : Prop :=
  ∃ j b key, accounts s !! j = Some b ∧ dedupe_key s target a = Some key ∧ dedupe_key s target b = Some key
             ∧ older a b.

(** The accounts of an identity. *)
Definition of_identity s (target : option string) (key : string) (a : UpstreamAccount) : Prop :=
  dedupe_key s target a = Some key ∧ accounts s !! ua_id a = Some a.
Definition identity_group s (target : option string) (key : string) : list UpstreamAccount :=
  List.filter (λ a, bool_decide (dedupe_key s target a = Some key)) (id_values (accounts s)).

Lemma elem_of_identity s target key a : keyed s → a ∈ identity_group s target key ↔ of_identity s target key a.
Proof.
  intros Hk. unfold identity_group, of_identity.
  rewrite list_elem_of_In, filter_In, <- list_elem_of_In, elem_of_id_values, bool_decide_eq_true. split.
  - intros [[j Hj] Hd]. by rewrite (Hk _ _ Hj).
  - intros [Hd Ha]. eauto.
Qed.
Lemma NoDup_identity s target key : keyed s → NoDup (ua_id <$> identity_group s target key).
Proof.
  intros Hk. eapply sublist_NoDup; [exact (NoDup_id_values (accounts s) ua_id Hk)|].
  apply fmap_sublist, filter_sublist.
Qed.

Lemma group_spec s target key l :
  group_by_identity s target !! key = Some l ↔ l ≠ [] ∧ l = identity_group s target key.
Proof.
  unfold group_by_identity. change (fold_left _ ?l ∅) with (fold_left (put_group (dedupe_key s target)) l ∅).
  rewrite put_groups, lookup_empty. cbn. unfold identity_group. destruct (List.filter _ _) as [|x l']; naive_solver.
Qed.

Lemma duplicate_ids_elem s target i :
  keyed s → i ∈ duplicate_ids s target ↔ ∃ a, accounts s !! i = Some a ∧ superseded s target a.
Proof.
  intros Hk. unfold duplicate_ids. rewrite list_elem_of_join. setoid_rewrite list_elem_of_fmap. split.
  - intros (l & Hi & ([key g] & -> & Hg%elem_of_hash_iter)).
    apply group_spec in Hg as [_ ->]. cbn [snd] in Hi. apply list_elem_of_fmap in Hi as (a & -> & Ha).
    apply elem_of_all_but_newest in Ha as [Ha (b & Hb & Ho)]; [|by apply NoDup_identity].
    apply elem_of_identity in Ha as [Hka Ha], Hb as [Hkb Hb]; try done.
    exists a. split; [done|]. by exists (ua_id b), b, key.
  - intros (a & Ha & j & b & key & Hb & Hka & Hkb & Ho). assert (Hia := Hk _ _ Ha). assert (Hib := Hk _ _ Hb).
    assert (Ga : a ∈ identity_group s target key) by (by apply elem_of_identity; [|split; rewrite ?Hia]).
    assert (Gb : b ∈ identity_group s target key) by (by apply elem_of_identity; [|split; rewrite ?Hib]).
    exists (ua_id <$> drop 1 (sort_by (λ l r, account_age_compare r l) (identity_group s target key))). split.
    + rewrite <- Hia. apply list_elem_of_fmap_2, elem_of_all_but_newest; [by apply NoDup_identity|eauto].
    + exists (key, identity_group s target key). split; [done|]. apply elem_of_hash_iter, group_spec.
      split; [|done]. intros E. rewrite E in Ga. by apply not_elem_of_nil in Ga.
Qed.

(** ** What remains *)

Lemma remove_accounts {V} (table : InMemoryStore → gmap Uuid V) l s j :
  (∀ s i, table (remove_account s i) = delete i (table s)) →
  table (fold_left remove_account l s) !! j = if decide (j ∈ l) then None else table s !! j.
Proof.
  intros Hr. revert s. induction l as [|i l IH]; intros s; cbn [fold_left]; [by rewrite decide_False by set_solver|].
  rewrite IH, Hr. destruct (decide (j ∈ l)); [by rewrite decide_True by set_solver|].
  destruct (decide (j = i)) as [->|].
  - by rewrite lookup_delete_eq, decide_True by set_solver.
  - by rewrite lookup_delete_ne, decide_False by set_solver.
Qed.

(** The accounts [gone] are in no table of accounts any more, and all else is as it was. *)
Record removed (gone : list Uuid) s s' : Prop := {
  rm_accounts : ∀ j, accounts s' !! j = if decide (j ∈ gone) then None else accounts s !! j;
  rm_providers : ∀ j, account_auth_providers s' !! j = if decide (j ∈ gone) then None else account_auth_providers s !! j;
  rm_credentials : ∀ j, oauth_credentials s' !! j = if decide (j ∈ gone) then None else oauth_credentials s !! j;
  rm_profiles : ∀ j, session_profiles s' !! j = if decide (j ∈ gone) then None else session_profiles s !! j;
  rm_states : ∀ j, account_health_states s' !! j = if decide (j ∈ gone) then None else account_health_states s !! j;
  rm_caches : ∀ j, oauth_rate_limit_caches s' !! j = if decide (j ∈ gone) then None else oauth_rate_limit_caches s !! j;
  rm_vault : oauth_refresh_token_vault s' = oauth_refresh_token_vault s;
  rm_keys : api_keys s' = api_keys s ∧ api_key_tokens s' = api_key_tokens s;
  rm_revision : revision s' = match gone with [] => revision s | _ => u64_wrap (revision s + 1) end;
}.

Lemma remove_keeps {V} (field : InMemoryStore → V) l s :
  (∀ s i, field (remove_account s i) = field s) → field (fold_left remove_account l s) = field s.
Proof. intros Hr. revert s. induction l as [|i l IH]; intros s; cbn [fold_left]; [done|]. by rewrite IH. Qed.

Lemma removed_nil s : removed [] s s.
Proof. by split; intros *; rewrite ?decide_False by set_solver. Qed.
Lemma removed_all l s :
  l ≠ [] → removed l s ((fold_left remove_account l s) <| revision ::= λ r, u64_wrap (r + 1) |>).
Proof.
  intros Hl. split; rproj.
  1-6: intros j; by apply remove_accounts.
  - by apply remove_keeps.
  - split; by apply remove_keeps.
  - rewrite (remove_keeps revision) by done. by destruct l.
Qed.

Lemma dedupe_spec u user acct w :
  let target := identity_text u user acct in
  let gone := duplicate_ids (st w) target in
  wp (dedupe_oauth_accounts_by_identity_inner u user acct) (λ n w',
    n = Z.of_nat (length gone) ∧ removed gone (st w) (st w') ∧ ticks w' = ticks w) w.
Proof.
  unfold dedupe_oauth_accounts_by_identity_inner. cbv zeta. do 2 wp_step.
  destruct (duplicate_ids _ _) as [|x l] eqn:Hd.
  - wp_step. split_and!; [done|apply removed_nil|done].
  - unfold bump_revision. do 5 wp_step. split_and!; [done|by apply removed_all|done].
Qed.

(** ** One account for each identity *)

Lemma newest_of_identity s target key a :
  keyed s → of_identity s target key a → ∃ b, of_identity s target key b ∧ ¬ superseded s target b.
Proof.
  intros Hk Ha%elem_of_identity; [|done]. destruct (max_by account_age_compare (identity_group s target key)) as [b|] eqn:Hb.
  2: { apply max_by_None in Hb. rewrite Hb in Ha. by apply not_elem_of_nil in Ha. }
  assert (Hin := max_by_elem _ _ _ Hb). apply elem_of_identity in Hin as [Hkb Hbs]; [|done].
  exists b. split; [done|]. intros (j & c & key' & Hc & Hkb' & Hkc & Ho).
  assert (key' = key) as -> by congruence.
  apply max_by_fold_max in Hb as [_ Hmax]; [|intros *; rewrite !age_not_gt; unfold older; lia..].
  refine (proj1 (age_not_gt b c) (Hmax c _) Ho). apply elem_of_identity; [done|]. by split; rewrite ?(Hk _ _ Hc).
Qed.

Lemma duplicate_ids_NoDup s target : keyed s → NoDup (duplicate_ids s target).
Proof.
  intros Hk. unfold duplicate_ids. rewrite join_fmap. apply NoDup_bind.
  - intros [k1 g1] [k2 g2] i Hg1%elem_of_hash_iter%group_spec Hg2%elem_of_hash_iter%group_spec.
    destruct Hg1 as [_ ->], Hg2 as [_ ->]. cbn [snd]. rewrite !list_elem_of_fmap.
    intros (a & -> & Ha) (b & Hab & Hb).
    apply elem_of_all_but_newest in Ha as [Ha _], Hb as [Hb _]; [|by apply NoDup_identity..].
    apply elem_of_identity in Ha as [Hka Ha], Hb as [Hkb Hb]; [|done..]. rewrite Hab in Ha. congruence.
  - intros [k g] [_ ->]%elem_of_hash_iter%group_spec. cbn [snd].
    eapply sublist_NoDup; [|apply fmap_sublist, sublist_drop]. rewrite sort_by_perm. by apply NoDup_identity.
  - rewrite hash_iter_perm. apply NoDup_map_to_list.
Qed.

Lemma removed_key gone s s' target a :
  removed gone s s' → ua_id a ∉ gone → dedupe_key s' target a = dedupe_key s target a.
Proof.
  intros [] Hn. unfold dedupe_key, is_oauth_account.
  by rewrite rm_providers0, rm_profiles0, !decide_False.
Qed.

Lemma one_account_remains s s' target key a :
  keyed s → removed (duplicate_ids s target) s s' → of_identity s target key a →
  ∃ b, of_identity s' target key b ∧ ∀ c, of_identity s' target key c → c = b.
Proof.
  intros Hk Hr Ha.
  assert (Hof : ∀ c, of_identity s' target key c ↔ of_identity s target key c ∧ ¬ superseded s target c).
  { intros c. unfold of_identity. rewrite (rm_accounts _ _ _ Hr).
    destruct (decide (ua_id c ∈ duplicate_ids s target)) as [Hd|Hd].
    - split; [by intros [_ ?]|]. intros [[Hkc Hc] Hn]. apply duplicate_ids_elem in Hd as (c' & Hc' & Hs); [|done].
      assert (c' = c) as -> by congruence. done.
    - rewrite (removed_key _ _ _ _ _ Hr Hd). split; [|naive_solver]. intros [Hkc Hc]. split; [done|].
      intros Hs. apply Hd, duplicate_ids_elem; eauto. }
  destruct (newest_of_identity s target key a Hk Ha) as (b & Hb & Hnb).
  exists b. split; [by apply Hof|]. intros c [[Hkc Hc] Hnc]%Hof. destruct Hb as [Hkb Hb].
  destruct (decide (ua_id c = ua_id b)) as [E|Hne]; [rewrite E in Hc; congruence|].
  destruct (older_total c b Hne) as [Ho|Ho].
  - destruct Hnc. by exists (ua_id b), b, key.
  - destruct Hnb. by exists (ua_id c), c, key.
Qed.
End dedupe.
