(* ===== verification/OAuthJobFacts.v ===== *)
(** * The job that refreshes the rate limits of all accounts

    The loop of [run_oauth_rate_limit_refresh_job] ends, and visits each account once. *)
From S2P Require Import Prelude RustStr CoreModel Json Request RoutingCache ControlModel StoreDefs Secrets Credentials Store StoreConfig Kept StoreFacts StoreInv OAuthClient OAuthPool OAuthInv OAuthProbeFacts.

#[local] Open Scope list_scope.
#[local] Open Scope Z_scope.

(** ** A page of a sorted list *)

Section pages.
Context {A : Type} (key : A → N).
Implicit Types l : list A.

#[local] Abbreviation cmp := (λ a b, key a ?= key b)%N.

Lemma key_sorted l : StronglySorted (cmp_le cmp) (sort_by cmp l).
Proof.
  apply sort_by_sorted; cbv beta.
  - intros a b. destruct (N.compare_spec (key a) (key b)), (N.compare_spec (key b) (key a)); naive_solver lia.
  - intros a b c. destruct (N.compare_spec (key a) (key b)), (N.compare_spec (key b) (key c)),
      (N.compare_spec (key a) (key c)); naive_solver lia.
Qed.
Lemma cmp_le_key a b : cmp_le cmp a b → (key a ≤ key b)%N.
Proof. unfold cmp_le. destruct (N.compare_spec (key a) (key b)); [lia|lia|done]. Qed.

(** The elements up to the last one of the page are on the page. *)
Lemma page_complete n l x y :
  NoDup (key <$> l) → list.last (take n (sort_by cmp l)) = Some y →
  x ∈ l → (key x ≤ key y)%N → x ∈ take n (sort_by cmp l).
Proof.
  intros Hd Hl Hx Hle. rewrite <- (elem_of_sort_by cmp) in Hx.
  assert (Hs := key_sorted l). rewrite <- (sort_by_perm cmp) in Hd.
  set (l' := sort_by _ l) in *. clearbody l'. rewrite <- (take_drop n l') in Hx, Hs, Hd.
  apply elem_of_app in Hx as [?|Hx]; [done|]. apply last_Some in Hl as [l1 Hl]. rewrite Hl in Hs, Hd.
  rewrite fmap_app, fmap_app in Hd. apply list.NoDup_app in Hd as (_ & Hd & _).
  assert (Hy : (key y ≤ key x)%N).
  { apply StronglySorted_app in Hs as (Hs & _ & _). apply cmp_le_key, Hs; [set_solver|done]. }
  assert (E : key x = key y) by lia. destruct (Hd (key y)); [set_solver|].
  rewrite <- E. by apply list_elem_of_fmap_2.
Qed.

Lemma page_last n l x y :
  list.last (take n (sort_by cmp l)) = Some y → x ∈ take n (sort_by cmp l) → (key x ≤ key y)%N.
Proof.
  intros Hl Hx. assert (Hs := key_sorted l). rewrite <- (take_drop n (sort_by cmp l)) in Hs.
  apply StronglySorted_app_1_l in Hs. apply last_Some in Hl as [l1 Hl]. rewrite Hl in Hs, Hx.
  apply elem_of_app in Hx as [Hx|Hx%list_elem_of_singleton]; [|by subst].
  apply cmp_le_key, (StronglySorted_app_1_elem_of _ _ _ _ _ Hs); [done|set_solver].
Qed.

(** A page that is not full holds everything. *)
Lemma page_short n l x :
  (length (take n (sort_by cmp l)) < n)%nat → x ∈ l →
  x ∈ take n (sort_by cmp l).
Proof.
  intros Hn Hx. rewrite <- (elem_of_sort_by cmp) in Hx.
  rewrite length_take in Hn. by rewrite take_ge by lia.
Qed.
End pages.

Section job.
Context `{Base64, Aes256Gcm, NonceSource, Digests, UuidSource, WallClock, UuidText, Environment, IdOrder}.
Context `{HashOrder, CompletionOrder, OAuthTokenClient}.
Implicit Types (w : Timed InMemoryStore) (s : InMemoryStore).

(** ** What decides which accounts are visited *)

Definition pool_view s :=
  (accounts s, account_auth_providers s, oauth_credentials s, without_plan <$> session_profiles s).

Lemma refresh_target_view s s' t a :
  pool_view s' = pool_view s → refresh_target s' t false a = refresh_target s t false a.
Proof.
  unfold pool_view. intros Hv. injection Hv as _ Hp Hc Hf.
  unfold refresh_target, build_rate_limit_refresh_target_inner, build_live_rate_limit_token_source_inner.
  rewrite Hp, Hc. assert (Hf' : without_plan <$> session_profiles s' !! ua_id a = without_plan <$> session_profiles s !! ua_id a).
  { by rewrite <- !lookup_fmap, Hf. }
  destruct (account_auth_providers s !! ua_id a) as [[]|]; cbn; try done.
  destruct (session_profiles s' !! ua_id a) as [p'|], (session_profiles s !! ua_id a) as [p|]; try done.
  injection Hf' as Hk He.
  cbn in *. by rewrite Hk, He.
Qed.

Definition sees V w : Prop := pool_view (st w) = V.
Definition has_jobs jobs w : Prop := oauth_rate_limit_refresh_jobs (st w) = jobs.
Definition sight V jobs w : Prop := sees V w ∧ has_jobs jobs w.

Lemma sight_tick V jobs : ticking (sight V jobs).
Proof. by intros s n Hw. Qed.
Hint Resolve sight_tick : keeps.

Lemma sight_write V jobs f :
  (∀ s, pool_view (f s) = pool_view s ∧ oauth_rate_limit_refresh_jobs (f s) = oauth_rate_limit_refresh_jobs s) →
  kept (sight V jobs) (modify f).
Proof. intros Hf. apply kept_modify. intros s n [<- <-]. by destruct (Hf s). Qed.
Lemma plan_write V jobs i plan :
  kept (sight V jobs) (modify (λ s, s <| session_profiles ::= alter (λ p, p <| spr_chatgpt_plan_type := Some plan |>) i |>)).
Proof.
  apply sight_write. intros s. unfold pool_view. rproj. split; [|done]. f_equal.
  apply map_eq. intros j. rewrite !lookup_fmap. destruct (decide (j = i)) as [->|].
  - rewrite lookup_alter_eq. by destruct (session_profiles s !! i).
  - by rewrite lookup_alter_ne.
Qed.
Hint Resolve plan_write : keeps.
Hint Extern 4 (kept (sight _ _) (modify _)) => apply sight_write; intros ?; split; reflexivity : keeps.

Lemma refresh_one_sight V jobs t : kept (sight V jobs) (refresh_one_target t).
Proof.
  unfold refresh_one_target, persist_rate_limit_cache_success_inner.
  apply kept_bind; [keeps_go|intros now]. apply kept_bind; [keeps_go|intros [u|[c m]]]; [|keeps_go].
  destruct (derive_rate_limit_block _ _) as [b r]. keeps_go.
Qed.
Lemma batch_sight V jobs l n : kept (sight V jobs) (refresh_rate_limit_targets_batch l n).
Proof. apply kept_bind; [keeps_go|intros o]. apply kept_bind; [apply kept_mapM, refresh_one_sight|keeps_go]. Qed.
Lemma summary_sight V jobs a b c d e f :
  kept (sight V jobs) (emit_rate_limit_refresh_batch_summary_inner a b c d e f).
Proof. keeps_go. Qed.

(** ** The counts of a batch *)

Definition counts_fit (n : Z) (stats : InMemoryRateLimitRefreshBatchStats) : Prop :=
  bs_success stats + bs_failed stats = n ∧ 0 ≤ bs_success stats ∧ 0 ≤ bs_failed stats.

Lemma sat_succ n : 0 ≤ n < u64_max → u64_saturating_add n 1 = n + 1.
Proof. intros Hn. unfold u64_saturating_add. apply clamp_id. lia. Qed.

Lemma count_results_fit results stats n :
  counts_fit n stats → n + Z.of_nat (length results) ≤ u64_max →
  counts_fit (n + Z.of_nat (length results)) (fold_left count_result results stats)
  ∧ bs_processed (fold_left count_result results stats) = bs_processed stats.
Proof.
  revert stats n. induction results as [|[ok code] results IH]; intros stats n Hf Hn.
  { rewrite Z.add_0_r. done. }
  cbn [fold_left length] in *. destruct (IH (count_result stats (ok, code)) (n + 1)) as [Hc Hp]; [|lia|].
  - destruct Hf as (Hs & Hs0 & Hf0). unfold count_result, counts_fit.
    destruct ok; cbn; [|destruct code; cbn]; rewrite sat_succ; lia.
  - replace (n + Z.of_nat (S (length results))) with (n + 1 + Z.of_nat (length results)) by lia.
    split; [done|]. rewrite Hp. unfold count_result. by destruct ok, code.
Qed.

Lemma mapM_length {S A B} (f : A → ST S B) l (st0 : S) : wp (mapM_st f l) (λ r _, length r = length l) st0.
Proof.
  revert st0. induction l as [|x l IH]; intros st0; cbn [mapM_st]; [by wp_step|]. wp_step.
  apply wp_intro. intros b s1 _. wp_step. wp_use (IH s1) as bs s2 Hb. wp_step. cbn. by rewrite Hb.
Qed.

(** The tables the job reads, and the jobs, are as they were. *)
Definition same_sight w w' : Prop :=
  pool_view (st w') = pool_view (st w)
  ∧ oauth_rate_limit_refresh_jobs (st w') = oauth_rate_limit_refresh_jobs (st w).
Lemma kept_sight {A} (m : ST (Timed InMemoryStore) A) w :
  (∀ V jobs, kept (sight V jobs) m) → wp m (λ _ w', same_sight w w') w.
Proof. intros Hm. by wp_use (Hm (pool_view (st w)) (oauth_rate_limit_refresh_jobs (st w)) w (conj eq_refl eq_refl)) as a w' Hs. Qed.

Lemma batch_spec l n w :
  Z.of_nat (length l) ≤ u64_max →
  wp (refresh_rate_limit_targets_batch l n) (λ stats w',
    (bs_processed stats = Z.of_nat (length l) ∧ counts_fit (Z.of_nat (length l)) stats) ∧ same_sight w w') w.
Proof.
  intros Hl. apply wp_and; [|apply kept_sight; intros V jobs; apply batch_sight].
  unfold refresh_rate_limit_targets_batch. wp_step. destruct w as [s k]. apply wp_call. wp_step.
  wp_use (mapM_length refresh_one_target (completion k l) _) as results w' Hr. wp_step.
  rewrite (completion_perm _ k l) in Hr. unfold batch_stats. rewrite <- Hr in *.
  destruct (count_results_fit results (mkInMemoryRateLimitRefreshBatchStats (Z.of_nat (length results)) 0 0 ∅) 0)
    as [Hc Hp]; [done|done|]. by rewrite Hp.
Qed.

(** ** Progress of the job *)

Lemma append_spec i stats job w :
  oauth_rate_limit_refresh_jobs (st w) !! i = Some job →
  wp (append_rate_limit_refresh_job_progress i stats) (λ r w',
    r = Ok tt ∧ pool_view (st w') = pool_view (st w)
    ∧ ∃ job', oauth_rate_limit_refresh_jobs (st w') = <[i := job']> (oauth_rate_limit_refresh_jobs (st w))
        ∧ job_processed job' = u64_saturating_add (job_processed job) (bs_processed stats)
        ∧ job_success_count job' = u64_saturating_add (job_success_count job) (bs_success stats)
        ∧ job_failed_count job' = u64_saturating_add (job_failed_count job) (bs_failed stats)
        ∧ job_total job' = job_total job) w.
Proof.
  intros Hj. unfold append_rate_limit_refresh_job_progress, with_job. do 2 wp_step. rewrite Hj.
  do 4 wp_step. wp_step. split; [done|]. split; [done|]. eexists. by split_and!.
Qed.

(** ** Pages of accounts *)

Definition past (cursor : option Uuid) (i : Uuid) : Prop := from_option (λ c, (i ≤ c)%N) False cursor.
#[local] Instance past_dec cursor i : Decision (past cursor i).
Proof. destruct cursor; unfold past; cbn; apply _. Defined.

Definition page_targets s (t : DateTime) (cursor : option Uuid) : list InMemoryRateLimitRefreshTarget :=
  omap (λ a, if from_option (λ c, (ua_id a <=? c)%N) false cursor then None else refresh_target s t false a)
    (id_values (accounts s)).

(** Accounts that can be asked whatever the clock shows. *)
Definition steady s (i : Uuid) : Prop :=
  ∃ a, accounts s !! i = Some a ∧ ∀ n, is_Some (refresh_target s (utc n) false a).

Lemma refresh_target_id s t d a x : refresh_target s t d a = Some x → rt_account_id x = ua_id a.
Proof.
  unfold refresh_target, build_rate_limit_refresh_target_inner.
  destruct (account_auth_providers s !! ua_id a); cbn; [|done].
  destruct (build_live_rate_limit_token_source_inner _ _ _ _ _); cbn; [|done].
  destruct (d && _); [done|]. by intros [= <-].
Qed.

Lemma past_leb cursor i : from_option (λ c, (i <=? c)%N) false cursor = bool_decide (past cursor i).
Proof. destruct cursor as [c|]; cbn; [|done]. by destruct (N.leb_spec i c); case_bool_decide; lia. Qed.

Lemma page_NoDup s t cursor :
  (∀ i a, accounts s !! i = Some a → ua_id a = i) → NoDup (rt_account_id <$> page_targets s t cursor).
Proof.
  intros Hk. eapply sublist_NoDup; [exact (NoDup_id_values (accounts s) ua_id Hk)|].
  unfold page_targets. induction (id_values (accounts s)) as [|a l IH]; [done|]. csimpl.
  destruct (from_option (λ c, (ua_id a <=? c)%N) false cursor); [by constructor|].
  destruct (refresh_target s t false a) as [x|] eqn:Hx; [|by constructor]. csimpl.
  rewrite (refresh_target_id _ _ _ _ _ Hx). by constructor.
Qed.

Lemma page_elem s t cursor x :
  (∀ i a, accounts s !! i = Some a → ua_id a = i) → x ∈ page_targets s t cursor →
  rt_account_id x ∈ dom (accounts s) ∧ ¬ past cursor (rt_account_id x).
Proof.
  intros Hk. unfold page_targets. rewrite list_elem_of_omap. intros (a & [i Hi]%elem_of_id_values & Hx).
  rewrite past_leb in Hx. case_bool_decide as Hp; [done|].
  rewrite (refresh_target_id _ _ _ _ _ Hx). split; [|done]. rewrite (Hk _ _ Hi). by apply elem_of_dom_2 in Hi.
Qed.

Lemma page_steady s n cursor i :
  (∀ i a, accounts s !! i = Some a → ua_id a = i) → steady s i → ¬ past cursor i →
  ∃ x, x ∈ page_targets s (utc n) cursor ∧ rt_account_id x = i.
Proof.
  intros Hk (a & Ha & Hs) Hp. destruct (Hs n) as [x Hx]. exists x. assert (Hi := Hk _ _ Ha).
  rewrite (refresh_target_id _ _ _ _ _ Hx). split; [|done]. apply list_elem_of_omap. exists a.
  rewrite past_leb, Hi, bool_decide_eq_false_2 by done. split; [|done]. apply elem_of_id_values. eauto.
Qed.

(** ** The state of the loop *)

(** The accounts visited so far are those up to the cursor, each counted once. *)
Record visited_by s0 (until : Uuid → Prop) (job : OAuthRateLimitRefreshJobSummary) (visited : gset Uuid) : Prop := {
  vi_counts : job_success_count job + job_failed_count job = job_processed job;
  vi_success : 0 ≤ job_success_count job;
  vi_failed : 0 ≤ job_failed_count job;
  vi_processed : job_processed job = Z.of_nat (size visited);
  vi_known : visited ⊆ dom (accounts s0);
  vi_steady : ∀ i, steady s0 i → until i → i ∈ visited;
}.

Definition job_at s0 (i : Uuid) (total : Z) (cursor : option Uuid) w : Prop :=
  pool_view (st w) = pool_view s0
  ∧ ∃ job visited, oauth_rate_limit_refresh_jobs (st w) !! i = Some job ∧ job_total job = total
    ∧ visited_by s0 (past cursor) job visited ∧ ∀ j, j ∈ visited → past cursor j.

Definition remaining s0 (cursor : option Uuid) : nat := size (filter (λ i, ¬ past cursor i) (dom (accounts s0))).

(** A page that was visited. *)
Section page.
Context s0 (Hk : ∀ i a, accounts s0 !! i = Some a → ua_id a = i) (n k : nat) (cursor : option Uuid).
#[local] Abbreviation page := (take k (sort_by target_compare (page_targets s0 (utc n) cursor))).
#[local] Abbreviation page_ids := (list_to_set (rt_account_id <$> page) : gset Uuid).

Lemma page_member x : x ∈ page → rt_account_id x ∈ dom (accounts s0) ∧ ¬ past cursor (rt_account_id x).
Proof.
  intros Hx. apply (page_elem _ (utc n)); [done|]. apply (elem_of_sort_by target_compare).
  by apply elem_of_take in Hx as (i & Hi%list_elem_of_lookup_2 & _).
Qed.

Lemma page_size : size page_ids = length page.
Proof.
  rewrite size_list_to_set, length_fmap; [done|].
  eapply sublist_NoDup; [|apply fmap_sublist, sublist_take]. rewrite sort_by_perm. by apply page_NoDup.
Qed.

Lemma elem_of_page_ids i : i ∈ page_ids ↔ ∃ x, x ∈ page ∧ rt_account_id x = i.
Proof. rewrite elem_of_list_to_set, list_elem_of_fmap. naive_solver. Qed.

Lemma page_known : page_ids ⊆ dom (accounts s0).
Proof. intros i (x & Hx & <-)%elem_of_page_ids. by apply page_member. Qed.

Lemma page_new (visited : gset Uuid) : (∀ i, i ∈ visited → past cursor i) → visited ## page_ids.
Proof. intros Hv i Hi%Hv (x & Hx & <-)%elem_of_page_ids. by apply page_member in Hx as [_ ?]. Qed.

Lemma page_cursor y i : list.last page = Some y → past cursor i → past (Some (rt_account_id y)) i.
Proof.
  intros Hl Hi. assert (Hy : y ∈ page) by (apply last_Some in Hl as [l ->]; set_solver).
  apply page_member in Hy as [_ Hy]. destruct cursor as [c|]; cbn in *; [lia|done].
Qed.

Lemma page_past y i : list.last page = Some y → i ∈ page_ids → past (Some (rt_account_id y)) i.
Proof. intros Hl (x & Hx & <-)%elem_of_page_ids. by apply (page_last rt_account_id k _ _ _ Hl). Qed.

Lemma page_visits y i :
  list.last page = Some y → steady s0 i → past (Some (rt_account_id y)) i → past cursor i ∨ i ∈ page_ids.
Proof.
  intros Hl Hs Hi. destruct (decide (past cursor i)) as [?|Hp]; [by left|right].
  destruct (page_steady s0 n cursor i Hk Hs Hp) as (x & Hx & <-). apply elem_of_page_ids. exists x. split; [|done].
  apply (page_complete rt_account_id k _ _ y); [by apply page_NoDup|done..].
Qed.

Lemma page_visits_all i : (length page < k)%nat → steady s0 i → past cursor i ∨ i ∈ page_ids.
Proof.
  intros Hl Hs. destruct (decide (past cursor i)) as [?|Hp]; [by left|right].
  destruct (page_steady s0 n cursor i Hk Hs Hp) as (x & Hx & <-). apply elem_of_page_ids. exists x. split; [|done].
  by apply (page_short rt_account_id k).
Qed.

Lemma page_remaining y : list.last page = Some y → (remaining s0 (Some (rt_account_id y)) < remaining s0 cursor)%nat.
Proof.
  intros Hl. assert (Hy : y ∈ page) by (apply last_Some in Hl as [l ->]; set_solver).
  apply page_member in Hy as [Hd Hn]. apply subset_size. split.
  - intros i. rewrite !elem_of_filter. intros [Hi ?]. split; [|done]. intros Hp. by apply Hi, page_cursor.
  - intros Hs. specialize (Hs (rt_account_id y)). rewrite !elem_of_filter in Hs. cbn in Hs. destruct Hs; [done|lia].
Qed.
End page.

(** ** A turn *)

Lemma page_targets_view s s' t cursor : pool_view s' = pool_view s → page_targets s' t cursor = page_targets s t cursor.
Proof.
  intros Hv. unfold page_targets. assert (Ha : accounts s' = accounts s) by (unfold pool_view in Hv; congruence).
  rewrite Ha. apply list_omap_ext. apply list.Forall_Forall2_diag, list.Forall_forall. intros a _.
  destruct (from_option _ _ _); [done|]. by apply refresh_target_view.
Qed.

Lemma load_spec cursor k w :
  wp (load_rate_limit_refresh_targets cursor k false) (λ l w',
    l = take k (sort_by target_compare (page_targets (st w) (utc (ticks w)) cursor)) ∧ st w' = st w) w.
Proof. unfold load_rate_limit_refresh_targets. by wp_go. Qed.

Lemma counted s0 until until' job job' visited (page : gset Uuid) stats :
  visited_by s0 until job visited → Z.of_nat (size (accounts s0)) ≤ u64_max →
  visited ## page → page ⊆ dom (accounts s0) →
  bs_processed stats = Z.of_nat (size page) → counts_fit (Z.of_nat (size page)) stats →
  job_processed job' = u64_saturating_add (job_processed job) (bs_processed stats) →
  job_success_count job' = u64_saturating_add (job_success_count job) (bs_success stats) →
  job_failed_count job' = u64_saturating_add (job_failed_count job) (bs_failed stats) →
  (∀ i, steady s0 i → until' i → i ∈ visited ∪ page) →
  visited_by s0 until' job' (visited ∪ page).
Proof.
  intros [Hc Hs Hf Hp Hk _] Hmax Hd Hsub Hbp (Hb & Hbs & Hbf) Ep Es Ef Hst.
  assert (Hle : (size (visited ∪ page) ≤ size (accounts s0))%nat).
  { rewrite <- size_dom. apply subseteq_size. set_solver. }
  rewrite size_union in Hle by done.
  unfold u64_saturating_add in *. rewrite clamp_id in Ep, Es, Ef by lia.
  split; [lia|lia|lia| |set_solver|done]. rewrite size_union by done. lia.
Qed.

Lemma refresh_batch_bounds : 1 ≤ rate_limit_refresh_batch_size_from_env ≤ 2000.
Proof. by apply clamp_bounds. Qed.

Lemma job_turn_spec s0 i total cursor w :
  (∀ i a, accounts s0 !! i = Some a → ua_id a = i) → Z.of_nat (size (accounts s0)) ≤ u64_max →
  job_at s0 i total cursor w →
  wp (refresh_job_turn i cursor) (λ r w',
    match r with
    | inl cursor' => job_at s0 i total cursor' w' ∧ (remaining s0 cursor' < remaining s0 cursor)%nat
    | inr x => x = Ok tt ∧ pool_view (st w') = pool_view s0
        ∧ ∃ job visited, oauth_rate_limit_refresh_jobs (st w') !! i = Some job ∧ job_total job = total
          ∧ visited_by s0 (λ _, True) job visited
    end) w.
Proof.
  intros Hk Hmax (Hv & job & visited & Hj & Ht & Hvis & Hpast).
  unfold refresh_job_turn. cbv zeta. set (batch := Z.to_nat rate_limit_refresh_batch_size_from_env).
  assert (Hb : Z.of_nat batch = rate_limit_refresh_batch_size_from_env) by (pose proof refresh_batch_bounds; lia).
  do 3 wp_step. wp_use load_spec as l w1 [Hl Hst1]. cbn [st ticks] in *. rewrite (page_targets_view s0) in Hl by done.
  set (n := S (ticks w)) in *.
  assert (Hsize : size (list_to_set (rt_account_id <$> l) : gset Uuid) = length l) by (rewrite Hl; by apply page_size).
  assert (Hknown : (list_to_set (rt_account_id <$> l) : gset Uuid) ⊆ dom (accounts s0)) by (rewrite Hl; by apply page_known).
  assert (Hnew : visited ## (list_to_set (rt_account_id <$> l) : gset Uuid)) by (rewrite Hl; by eapply page_new).
  assert (Hall : (length l < batch)%nat → ∀ j, steady s0 j → True → j ∈ visited ∪ list_to_set (rt_account_id <$> l)).
  { rewrite Hl. intros Hn j Hs _. destruct (page_visits_all s0 Hk n batch cursor j Hn Hs) as [Hp|?]; [|set_solver].
    apply elem_of_union_l. by apply (vi_steady _ _ _ _ Hvis). }
  destruct (list.last l) as [y|] eqn:Hlast.
  2: { apply last_None in Hlast as ->. wp_step. split; [done|]. rewrite Hst1. split; [done|]. exists job, visited.
       split_and!; [done..|]. destruct Hvis as [? ? ? ? ? Hs]. split; try done. intros j Hsj _.
       assert (Hj' : j ∈ visited ∪ ∅) by (apply Hall; [cbn; pose proof refresh_batch_bounds; lia|done|done]). set_solver. }
  assert (Hne : l ≠ []) by (by intros ->). destruct l as [|x0 l0]; [done|]. set (l := x0 :: l0) in *. clearbody l.
  wp_step. wp_use (batch_spec l rate_limit_refresh_concurrency_from_env w1) as stats w2 [[Hbp Hbc] [Hv2 Hj2]].
  { apply subseteq_size in Hknown. rewrite Hsize, size_dom in Hknown. lia. }
  wp_step. wp_use (kept_sight _ w2 (λ V jobs, summary_sight V jobs _ _ _ _ _ _)) as [] w3 [Hv3 Hj3]. wp_step.
  assert (Hj' : oauth_rate_limit_refresh_jobs (st w3) !! i = Some job) by (rewrite Hj3, Hj2, Hst1; done).
  wp_use (append_spec i stats job w3 Hj') as r w4 (-> & Hv4 & job' & Hjobs & Ep & Es & Ef & Et). wp_step.
  assert (Hview : pool_view (st w4) = pool_view s0) by (rewrite Hv4, Hv3, Hv2, Hst1; done).
  rewrite <- Hsize in Hbp, Hbc.
  destruct (Z.ltb_spec (Z.of_nat (length l)) rate_limit_refresh_batch_size_from_env) as [Hlt|Hge].
  - split_and!; [done|done|]. exists job', (visited ∪ list_to_set (rt_account_id <$> l)).
    split_and!; [by rewrite Hjobs, lookup_insert_eq|congruence|]. eapply counted; try done. apply Hall. lia.
  - split.
    2: { rewrite Hl in Hlast. by apply (page_remaining s0 Hk n batch). }
    split; [done|]. exists job', (visited ∪ list_to_set (rt_account_id <$> l)).
    split_and!; [by rewrite Hjobs, lookup_insert_eq|congruence| |].
    + eapply counted; try done. intros j Hs Hp. cbn [fmap option_fmap option_map] in Hp.
      rewrite Hl in Hlast. destruct (page_visits s0 Hk n batch cursor y j Hlast Hs Hp) as [?|?].
      * apply elem_of_union_l. by apply (vi_steady _ _ _ _ Hvis).
      * rewrite Hl. set_solver.
    + intros j [Hj1|Hj1]%elem_of_union; rewrite Hl in Hlast.
      * eapply (page_cursor s0 Hk n batch cursor); [done|by apply Hpast].
      * eapply (page_past s0 n batch cursor); [done|]. by rewrite <- Hl.
Qed.

(** ** The whole job *)

Lemma start_spec i total job w :
  oauth_rate_limit_refresh_jobs (st w) !! i = Some job → job_status job = JobQueued →
  wp (start_rate_limit_refresh_job i total) (λ r w', r = Ok true ∧ job_at (st w) i total None w') w.
Proof.
  intros Hj Hs. unfold start_rate_limit_refresh_job. do 2 wp_step. rewrite Hj, Hs.
  rewrite bool_decide_eq_true_2 by done. cbn [negb]. wp_go. split; [done|]. split; [done|].
  do 2 eexists. rproj. split_and!; [apply lookup_insert_eq|done| |by instantiate (1 := ∅)].
  split; cbn; try done; set_solver.
Qed.

Lemma finish_spec i status job w :
  oauth_rate_limit_refresh_jobs (st w) !! i = Some job →
  wp (finish_rate_limit_refresh_job i status) (λ r w', r = Ok tt ∧ ∃ job' t,
    oauth_rate_limit_refresh_jobs (st w') !! i = Some job' ∧ job_status job' = status
    ∧ job_finished_at job' = Some t ∧ job_total job' = job_total job ∧ job_processed job' = job_processed job
    ∧ job_success_count job' = job_success_count job ∧ job_failed_count job' = job_failed_count job) w.
Proof.
  intros Hj. unfold finish_rate_limit_refresh_job, with_job. do 2 wp_step. rewrite Hj.
  wp_go. split; [done|]. do 2 eexists. rproj. split; [apply lookup_insert_eq|]. by split_and!.
Qed.

Lemma run_job_spec fuel i job w :
  store_inv w → Z.of_nat (size (accounts (st w))) ≤ u64_max →
  oauth_rate_limit_refresh_jobs (st w) !! i = Some job → job_status job = JobQueued →
  (size (accounts (st w)) < fuel)%nat →
  wp (run_oauth_rate_limit_refresh_job fuel i) (λ r w', r = Some (Ok tt) ∧ ∃ job' visited t,
    oauth_rate_limit_refresh_jobs (st w') !! i = Some job' ∧ job_status job' = JobCompleted
    ∧ job_finished_at job' = Some t ∧ visited_by (st w) (λ _, True) job' visited) w.
Proof.
  intros Hw Hmax Hj Hq Hf. assert (Hk := si_keyed _ Hw). unfold run_oauth_rate_limit_refresh_job, count_rate_limit_refresh_targets.
  do 5 wp_step. set (total := Z.of_nat (length _)). wp_use start_spec as r w1 [-> Hat]; [done..|]. cbn [st] in Hat.
  wp_step. eapply wp_mono.
  - apply (wp_loop _ (job_at (st w) i total) (λ c _, remaining (st w) c) (λ r w',
      r = Some (Ok tt) ∧ ∃ job visited, oauth_rate_limit_refresh_jobs (st w') !! i = Some job
        ∧ visited_by (st w) (λ _, True) job visited)); [|done|].
    + intros cursor w2 Hat2. wp_use job_turn_spec as [c'|x] w3 Hx; [done..|done|].
      destruct Hx as (-> & _ & job' & visited & Hj' & _ & Hv). eauto.
    + eapply Nat.le_lt_trans, Hf. unfold remaining. rewrite <- size_dom. apply subseteq_size. intros j [_ Hin]%elem_of_filter. exact Hin.
  - cbn beta. intros r w2 (-> & job' & visited & Hj' & [Hc Hs Hfa Hp Hkn Hst]). wp_step.
    wp_use (finish_spec i JobCompleted job' w2 Hj') as r w3 (-> & job2 & t & Hj2 & E1 & E2 & E3 & E4 & E5 & E6).
    wp_step. split; [done|]. exists job2, visited, t. split_and!; [done..|]. by split; rewrite ?E4, ?E5, ?E6.
Qed.
End job.
