(* ===== verification/PublishFacts.v ===== *)
(** * Facts about published snapshots

    Which accounts a snapshot holds and with which token, that its plan only
    names accounts of the snapshot, and what it takes from the store. *)
From S2P Require Import Prelude RustStr CoreModel BuiltinTemplates Json Request RoutingCache ControlModel StoreDefs Secrets Credentials Store StoreConfig StoreSnapshot StoreFacts StorePurge StoreInv.

#[local] Open Scope string_scope.
#[local] Open Scope list_scope.
#[local] Open Scope Z_scope.

(** ** Facts about compiled routing plans

    The compilation of policies agrees with a reference that looks up, for a model,
    the first policy that covers it and has accounts; the plan is well formed. *)

(** ** Strings in order *)

Lemma string_le_trans (a b c : string) :
  String.compare a b ≠ Gt → String.compare b c ≠ Gt → String.compare a c ≠ Gt.
Proof.
  intros Hab Hbc. destruct (String.compare a b) eqn:Eab; [|destruct (String.compare b c) eqn:Ebc|]; try done.
  - by apply String.compare_eq_iff in Eab as ->.
  - apply String.compare_eq_iff in Ebc as ->. by rewrite Eab.
  - by rewrite (key_lt_trans a b c Eab Ebc).
Qed.

Lemma string_le_total (a b : string) : String.compare a b ≠ Gt ∨ String.compare b a ≠ Gt.
Proof. rewrite (String.compare_antisym a b). destruct (String.compare b a); cbn; [by left|by right|by left]. Qed.

Lemma string_le_antisym (a b : string) : String.compare a b ≠ Gt → String.compare b a ≠ Gt → a = b.
Proof.
  rewrite (String.compare_antisym b a). intros Hab Hba. apply String.compare_eq_iff.
  by destruct (String.compare a b).
Qed.

Lemma NoDup_sort_dedup l : NoDup (sort_dedup l).
Proof.
  unfold sort_dedup. apply (NoDup_dedup (cmp_le String.compare)).
  - intros a b. apply string_le_antisym.
  - apply sort_by_sorted; [apply string_le_total|apply string_le_trans].
Qed.

Lemma elem_of_sort_dedup l x : x ∈ sort_dedup l ↔ x ∈ l.
Proof. unfold sort_dedup. by rewrite elem_of_dedup, elem_of_sort_by. Qed.

(** ** The reference *)

Section plan.
Context (compiled_profiles : gmap Uuid CompiledRoutingProfile) (known : list string).
Implicit Types (p : ModelRoutingPolicy) (m : string).

(** The policy covers the model and has a profile with accounts. *)
Definition serves p m : bool :=
  bool_decide (m ∈ policy_models known p) && negb (bool_decide (fallback_segments compiled_profiles p = [])).

(** The route of a model: the first policy that serves it. *)
Definition route_for (policies : list ModelRoutingPolicy) m : option ModelRoutingPolicy :=
  List.find (λ p, serves p m) policies.

Definition route_of p m : CompiledModelRoutingPolicy :=
  compiled_policy p m (fallback_segments compiled_profiles p).

(** One policy: the models it covers that have no route yet. *)
Lemma route_models_spec p segments models routed :
  let r := route_models p segments models routed in
  (segments = [] → r = ([], routed)) ∧
  (segments ≠ [] → NoDup models →
     r.1 = (λ m, compiled_policy p m segments) <$> List.filter (λ m, negb (bool_decide (m ∈ routed))) models
     ∧ r.2 = list_to_set models ∪ routed).
Proof.
  revert routed. induction models as [|m models IH]; intros routed; cbn [route_models].
  { split; [done|]. intros _ _. split; [done|]. cbn. set_solver. }
  destruct (bool_decide_reflect (m ∈ routed)) as [Hin|Hin].
  - destruct (IH routed) as [I1 I2]. split; [done|]. intros Hs Hnd.
    apply list.NoDup_cons in Hnd as [Hm Hnd]. destruct (I2 Hs Hnd) as [E1 E2]. split.
    + rewrite E1. cbn [List.filter]. by rewrite bool_decide_eq_true_2.
    + rewrite E2. cbn. set_solver.
  - destruct (bool_decide_reflect (segments = [])) as [Hs|Hs].
    { destruct (IH routed) as [I1 _]. split; [done|]. by intros ?. }
    split; [done|]. intros _ Hnd. apply list.NoDup_cons in Hnd as [Hm Hnd].
    destruct (IH ({[m]} ∪ routed)) as [_ I2]. destruct (I2 Hs Hnd) as [E1 E2].
    destruct (route_models p segments models ({[m]} ∪ routed)) as [l routed']. cbn [fst snd] in *. split.
    + cbn [List.filter]. rewrite (bool_decide_eq_false_2 (m ∈ routed)) by done. cbn [negb fmap list_fmap].
      f_equal. rewrite E1. f_equal. apply filter_ext_in. intros x Hx%list_elem_of_In. f_equal.
      apply bool_decide_ext. assert (x ≠ m) by (intros ->; done). set_solver.
    + rewrite E2. cbn. set_solver.
Qed.

(** All the policies: a compiled policy for each model, from the policy the
    reference gives it, unless the model had a route before. *)
Lemma route_policies_spec policies routed :
  let r := route_policies compiled_profiles known policies routed in
  (∀ cp, cp ∈ r.1 ↔ ∃ m p, (m ∉ routed) ∧ route_for policies m = Some p ∧ cp = route_of p m)
  ∧ (∀ m, m ∈ r.2 ↔ m ∈ routed ∨ is_Some (route_for policies m))
  ∧ NoDup (r.1 ≫= cmrp_exact_models).
Proof.
  revert routed. induction policies as [|p policies IH]; intros routed; cbn [route_policies].
  { cbn. split_and!; [set_solver|intros m; split; [by left|]; intros [?|[? ?]]; done|constructor]. }
  pose proof (route_models_spec p (fallback_segments compiled_profiles p) (policy_models known p) routed) as [R1 R2].
  destruct (decide (fallback_segments compiled_profiles p = [])) as [Hs|Hs].
  - rewrite (R1 Hs). destruct (IH routed) as (I1 & I2 & I3).
    destruct (route_policies compiled_profiles known policies routed) as [l' routed']. cbn [fst snd app] in *.
    assert (Hf : ∀ m, route_for (p :: policies) m = route_for policies m).
    { intros m. unfold route_for. cbn [List.find]. unfold serves at 1.
      by rewrite (bool_decide_eq_true_2 _ Hs), andb_false_r. }
    split_and!; [|intros m; by rewrite I2, Hf|done]. intros cp. rewrite I1. by setoid_rewrite Hf.
  - destruct (R2 Hs) as [E1 E2]; [apply NoDup_sort_dedup|].
    destruct (route_models p _ _ routed) as [l1 routed1]. cbn [fst snd] in *.
    destruct (IH routed1) as (I1 & I2 & I3).
    destruct (route_policies compiled_profiles known policies routed1) as [l' routed']. cbn [fst snd] in *.
    assert (Hf : ∀ m, route_for (p :: policies) m =
              if bool_decide (m ∈ policy_models known p) then Some p else route_for policies m).
    { intros m. unfold route_for. cbn [List.find]. unfold serves at 1.
      rewrite (bool_decide_eq_false_2 _ Hs), andb_true_r. done. }
    assert (Hl1 : ∀ cp, cp ∈ l1 ↔ ∃ m, (m ∉ routed) ∧ m ∈ policy_models known p ∧ cp = route_of p m).
    { intros cp. rewrite E1, list_elem_of_fmap. setoid_rewrite list_elem_of_In. setoid_rewrite filter_In.
      setoid_rewrite negb_true_iff. setoid_rewrite bool_decide_eq_false. setoid_rewrite <- list_elem_of_In.
      unfold route_of. naive_solver. }
    split_and!.
    + intros cp. rewrite elem_of_app, Hl1, I1. split.
      * intros [(m & Hr & Hm & ->)|(m & q & Hr & Hq & ->)].
        { exists m, p. rewrite Hf, bool_decide_eq_true_2 by done. done. }
        exists m, q. rewrite E2 in Hr. rewrite Hf, bool_decide_eq_false_2 by set_solver. set_solver.
      * intros (m & q & Hr & Hq & ->). rewrite Hf in Hq.
        destruct (bool_decide_reflect (m ∈ policy_models known p)); [injection Hq as <-; left; by eauto|].
        right. exists m, q. rewrite E2. set_solver.
    + intros m. rewrite I2, E2, Hf. destruct (bool_decide_reflect (m ∈ policy_models known p)).
      * split; [intros _; right; by eexists|]. intros _. left. set_solver.
      * set_solver.
    + rewrite bind_app. apply list.NoDup_app. split_and!; [|intros x Hx1 Hx2|done].
      * rewrite E1. clear. assert (Hnd := NoDup_sort_dedup (mrp_exact_models p ++ List.filter
          (λ m, existsb (starts_with m) (mrp_model_prefixes p)) known)).
        fold (policy_models known p) in Hnd. revert Hnd. generalize (policy_models known p).
        intros ms Hnd. assert (Hb : ∀ k : list string,
          ((λ m, compiled_policy p m (fallback_segments compiled_profiles p)) <$> k) ≫= cmrp_exact_models = k).
        { induction k as [|x k IHk]; [done|]. cbn. by f_equal. }
        rewrite Hb. by apply NoDup_ListNoDup, NoDup_filter, NoDup_ListNoDup.
      * apply list_elem_of_bind in Hx1 as (c1 & Hx1 & Hc1). apply list_elem_of_bind in Hx2 as (c2 & Hx2 & Hc2).
        apply Hl1 in Hc1 as (m & Hr & Hm & ->). apply I1 in Hc2 as (m' & q & Hr' & Hq & ->).
        cbn in Hx1, Hx2. assert (m' = m) as -> by set_solver. rewrite E2 in Hr'. set_solver.
Qed.
End plan.

(** ** The whole plan *)

(** The policy a model is routed by: the first one that serves it, else, for a
    known model, the default policy when it has accounts. *)
Definition model_route (compiled_profiles : gmap Uuid CompiledRoutingProfile)
    (account_traits : gmap Uuid AccountRoutingTraits) (sources : list ModelRoutingPolicy) (m : string) :
    option ModelRoutingPolicy :=
  let known := known_models_of account_traits sources in
  match route_for compiled_profiles known (List.filter (λ p, negb (is_default_policy p)) sources) m with
  | Some p => Some p
  | None =>
      match List.find is_default_policy sources with
      | Some p => if bool_decide (m ∈ known) && negb (bool_decide (fallback_segments compiled_profiles p = []))
                  then Some p else None
      | None => None
      end
  end.

Lemma exact_of_routes cps (f : string → ModelRoutingPolicy) l :
  ((λ m, route_of cps (f m) m) <$> l) ≫= cmrp_exact_models = l.
Proof. induction l as [|x l IH]; [done|]. cbn. by f_equal. Qed.

Lemma elem_of_route_rest cps p known routed cp :
  cp ∈ route_rest p (fallback_segments cps p) known routed ↔
  fallback_segments cps p ≠ [] ∧ ∃ m, (m ∈ known) ∧ (m ∉ routed) ∧ cp = route_of cps p m.
Proof.
  unfold route_rest. destruct (bool_decide_reflect (fallback_segments cps p = [])) as [Hs|Hs]; [set_solver|].
  rewrite list_elem_of_fmap. setoid_rewrite list_elem_of_In. setoid_rewrite filter_In.
  setoid_rewrite negb_true_iff. setoid_rewrite bool_decide_eq_false. unfold route_of. naive_solver.
Qed.

Lemma compile_policies_spec cps account_traits sources :
  let r := compile_policies cps account_traits sources in
  (∀ cp, cp ∈ r.2 ↔ ∃ m p, model_route cps account_traits sources m = Some p ∧ cp = route_of cps p m)
  ∧ NoDup (r.2 ≫= cmrp_exact_models)
  ∧ r.1 = from_option (fallback_segments cps) [] (List.find is_default_policy sources).
Proof.
  intros r. subst r. unfold compile_policies. set (known := known_models_of account_traits sources).
  set (explicit := List.filter _ sources).
  pose proof (route_policies_spec cps known explicit ∅) as (R1 & R2 & R3).
  destruct (route_policies cps known explicit ∅) as [policies routed]. cbn [fst snd] in *.
  assert (Hm : ∀ m p, model_route cps account_traits sources m = Some p ↔
    route_for cps known explicit m = Some p ∨
    (route_for cps known explicit m = None ∧ List.find is_default_policy sources = Some p ∧ m ∈ known
     ∧ fallback_segments cps p ≠ [])).
  { intros m p. unfold model_route. fold known. fold explicit.
    destruct (route_for cps known explicit m); [naive_solver|].
    destruct (List.find is_default_policy sources) as [q|]; [|naive_solver].
    destruct (bool_decide_reflect (m ∈ known)), (bool_decide_reflect (fallback_segments cps q = [])); naive_solver. }
  assert (Hnone : ∀ m, m ∉ routed ↔ route_for cps known explicit m = None).
  { intros m. rewrite R2, eq_None_not_Some. set_solver. }
  destruct (List.find is_default_policy sources) as [q|] eqn:Hq; cbn [fst snd from_option].
  - split_and!; [| |done].
    + intros cp. rewrite elem_of_app, R1, elem_of_route_rest. setoid_rewrite Hm. setoid_rewrite Hnone. set_solver.
    + rewrite bind_app. apply list.NoDup_app. split_and!; [done|intros x Hx1 Hx2|].
      * apply list_elem_of_bind in Hx1 as (c1 & Hx1 & Hc1). apply list_elem_of_bind in Hx2 as (c2 & Hx2 & Hc2).
        apply R1 in Hc1 as (m & p & _ & Hp & ->). apply elem_of_route_rest in Hc2 as (_ & m' & _ & Hr & ->).
        cbn in Hx1, Hx2. assert (m' = m) as -> by set_solver. apply Hnone in Hr. congruence.
      * unfold route_rest. destruct (bool_decide _); [constructor|].
        rewrite (exact_of_routes cps (λ _, q)).
        apply NoDup_ListNoDup, NoDup_filter, NoDup_ListNoDup, NoDup_sort_dedup.
  - split_and!; [|done|done]. intros cp. rewrite R1. setoid_rewrite Hm. set_solver.
Qed.

(** ** Segments *)

(** A profile compiled at [now] lists accounts of the pool that it selects and
    that no rate limit blocks. *)
Lemma compile_profile_accounts now accounts traits profile i :
  i ∈ crp_account_ids (compile_profile now accounts traits profile) ↔
  ∃ a, a ∈ accounts ∧ ua_id a = i ∧ profile_matches_account profile a traits = true
       ∧ ∀ t until, traits !! i = Some t → art_blocked_until t = Some until → until <= now.
Proof.
  unfold compile_profile, profile_accounts. cbn [crp_account_ids]. rewrite list_elem_of_fmap.
  setoid_rewrite elem_of_sort_by. setoid_rewrite list_elem_of_In. setoid_rewrite filter_In.
  setoid_rewrite andb_true_iff.
  assert (Hb : ∀ a : UpstreamAccount,
    from_option (λ until, until <=? now) true (traits !! ua_id a ≫= art_blocked_until) = true ↔
    ∀ t until, traits !! ua_id a = Some t → art_blocked_until t = Some until → until <= now).
  { intros a. destruct (traits !! ua_id a) as [t|]; cbn; [|naive_solver].
    destruct (art_blocked_until t) as [u|] eqn:Hu; cbn; [|naive_solver]. rewrite Z.leb_le. naive_solver. }
  setoid_rewrite Hb. naive_solver.
Qed.

Lemma elem_of_fallback_segments cps p seg :
  seg ∈ fallback_segments cps p ↔
  crp_account_ids seg ≠ [] ∧ ∃ i, i ∈ mrp_fallback_profile_ids p ∧ cps !! i = Some seg.
Proof.
  unfold fallback_segments. rewrite list_elem_of_In, filter_In, <- list_elem_of_In, list_elem_of_omap.
  rewrite negb_true_iff, bool_decide_eq_false. naive_solver.
Qed.

Section publish.
Context `{Base64, Aes256Gcm, NonceSource, Digests, UuidSource, WallClock, UuidText, Environment, IdOrder}.
Implicit Types (w : Timed InMemoryStore) (s : InMemoryStore).

(** ** Forgetting accounts *)

(** The tables a snapshot copies, besides those of the accounts. *)
Definition config s :=
  (account_model_support s, outbound_proxy_pool_settings s, outbound_proxy_nodes s, routing_profiles s,
   model_routing_policies s, claude_code_routing_settings s, upstream_error_learning_settings s,
   upstream_error_templates s, builtin_error_template_overrides s, credential_cipher s).

(** [s'] is [s] without the accounts of [l], whose states are kept. *)
Record forgot (l : list Uuid) s s' : Prop := mkForgot {
  fg_accounts : ∀ j, accounts s' !! j = if bool_decide (j ∈ l) then None else accounts s !! j;
  fg_providers : ∀ j, j ∉ l → account_auth_providers s' !! j = account_auth_providers s !! j;
  fg_credentials : ∀ j, j ∉ l → oauth_credentials s' !! j = oauth_credentials s !! j;
  fg_profiles : ∀ j, j ∉ l → session_profiles s' !! j = session_profiles s !! j;
  fg_caches : ∀ j, j ∉ l → oauth_rate_limit_caches s' !! j = oauth_rate_limit_caches s !! j;
  fg_health : account_health_states s' = account_health_states s;
  fg_config : config s' = config s;
}.

Lemma forgot_nil s : forgot [] s s.
Proof. by split. Qed.

Lemma forget_all_forgot l s : forgot l s (fold_left forget_account l s).
Proof.
  revert s. induction l as [|i l IH]; intros s; cbn [fold_left]; [apply forgot_nil|].
  destruct (IH (forget_account s i)) as [A P C S K Hh Cf].
  split; [intros j|intros j Hj..|by rewrite Hh|by rewrite Cf].
  - rewrite A. unfold forget_account. rproj. destruct (decide (j = i)) as [->|].
    + rewrite lookup_delete_eq, (bool_decide_eq_true_2 (i ∈ i :: l)) by set_solver. by destruct (bool_decide _).
    + rewrite lookup_delete_ne by done. apply bool_decide_ext_if. set_solver.
  - rewrite P by set_solver. unfold forget_account. rproj. by rewrite lookup_delete_ne by set_solver.
  - rewrite C by set_solver. unfold forget_account. rproj. by rewrite lookup_delete_ne by set_solver.
  - rewrite S by set_solver. unfold forget_account. rproj. by rewrite lookup_delete_ne by set_solver.
  - rewrite K by set_solver. unfold forget_account. rproj. by rewrite lookup_delete_ne by set_solver.
Qed.

(** The revision went up by at most [n]. *)
Definition bumped (n : Z) s s' : Prop := ∃ k, 0 <= k <= n ∧ revision s' = u64_wrap (revision s + k).

Lemma bumped_trans a b s1 s2 s3 : bumped a s1 s2 → bumped b s2 s3 → bumped (a + b) s1 s3.
Proof.
  intros (k & Hk & R1) (k' & Hk' & R2). exists (k + k'). split; [lia|].
  rewrite R2, R1, u64_wrap_add_l. f_equal. lia.
Qed.
Lemma bumped_same s s' : rev_ok s → revision s' = revision s → bumped 0 s s'.
Proof. intros Hr Hs. exists 0. split; [lia|]. rewrite Hs, Z.add_0_r. symmetry. by apply u64_wrap_small. Qed.

Lemma forget_all_revision l s : revision (fold_left forget_account l s) = revision s.
Proof. revert s. induction l as [|i l IH]; intros s; [done|]. cbn [fold_left]. rewrite IH. unfold forget_account. by rproj. Qed.

Lemma purge_expired_spec w :
  rev_ok (st w) →
  wp purge_expired_one_time_accounts_inner (λ _ w', ∃ l, forgot l (st w) (st w') ∧ bumped 1 (st w) (st w')) w.
Proof.
  intros Hr. unfold purge_expired_one_time_accounts_inner. do 4 wp_step.
  destruct (expired_one_time_ids _ _) as [|i l] eqn:Hl.
  { wp_step. exists []. split; [apply forgot_nil|]. exists 0. split; [lia|]. rewrite Z.add_0_r.
    symmetry. by apply u64_wrap_small. }
  unfold bump_revision. wp_go. exists (i :: l). split.
  - destruct (forget_all_forgot (i :: l) (st w)) as [A P C S K Hh Cf]. by split.
  - exists 1. split; [lia|]. rproj. by rewrite forget_all_revision.
Qed.

(** ** Reading the states *)

Lemma read_pool_spec i w :
  rev_ok (st w) →
  wp (account_pool_state_record_inner i) (λ h w',
    same_tables (st w) (st w') ∧ health_of i (st w') = h ∧ revision (st w') = revision (st w)
    ∧ ∀ j, j ≠ i → account_health_states (st w') !! j = account_health_states (st w) !! j) w.
Proof.
  intros Hr. unfold account_pool_state_record_inner, health_entry. do 5 wp_step.
  assert (Hr1 : rev_ok (st (mkTimed (st w) (S (ticks w))))) by done.
  wp_use (put_health_spec _ _ _ Hr1) as [] w' [(T & Hs & R & _) _]. wp_step. cbn [st] in *. split_and!; [done| | |].
  - by apply (health_set_of _ _ _ _ Hs).
  - rewrite R, Z.add_0_r. by apply u64_wrap_small.
  - intros j Hj. unfold health_set in Hs. rewrite Hs. by rewrite lookup_insert_ne.
Qed.

Definition is_active s (a : UpstreamAccount) : bool :=
  bool_decide (hs_pool_state (health_of (ua_id a) s) = Active).

Definition retain_active (l : list UpstreamAccount) : ST (Timed InMemoryStore) (list UpstreamAccount) :=
  mfilter (λ account,
    state ← account_pool_state_record_inner (ua_id account);
    mret (bool_decide (hs_pool_state state = Active))) l.

Lemma retain_spec l w :
  rev_ok (st w) → NoDup (ua_id <$> l) →
  wp (retain_active l) (λ l' w',
    l' = List.filter (is_active (st w')) l ∧ same_tables (st w) (st w') ∧ revision (st w') = revision (st w)
    ∧ ∀ j, j ∉ ua_id <$> l → account_health_states (st w') !! j = account_health_states (st w) !! j) w.
Proof.
  unfold retain_active. revert w. induction l as [|a l IH]; intros w Hr Hnd; cbn [mfilter].
  { wp_step. split_and!; try done. }
  cbn [fmap list_fmap] in Hnd. apply list.NoDup_cons in Hnd as [Ha Hnd].
  wp_step. wp_step. wp_use (read_pool_spec (ua_id a) w Hr) as h w1 (T1 & Hh & R1 & N1). wp_step. wp_step.
  assert (Hr1 : rev_ok (st w1)) by (unfold rev_ok; by rewrite R1).
  wp_use (IH w1 Hr1 Hnd) as l' w2 (-> & T2 & R2 & N2). wp_step. split_and!.
  - assert (Hact : is_active (st w2) a = bool_decide (hs_pool_state h = Active)).
    { unfold is_active. rewrite <- Hh. unfold health_of. by rewrite N2. }
    cbn [List.filter]. rewrite Hact. by destruct (bool_decide (hs_pool_state h = Active)).
  - by eapply same_tables_trans.
  - by rewrite R2.
  - intros j Hj. rewrite N2 by set_solver. apply N1. set_solver.
Qed.

(** ** Accounts *)

(** What is published of an account depends on its own rows. *)
Lemma publish_ext s s' now a :
  account_auth_providers s' !! ua_id a = account_auth_providers s !! ua_id a →
  oauth_credentials s' !! ua_id a = oauth_credentials s !! ua_id a →
  session_profiles s' !! ua_id a = session_profiles s !! ua_id a →
  oauth_rate_limit_caches s' !! ua_id a = oauth_rate_limit_caches s !! ua_id a →
  credential_cipher s' = credential_cipher s →
  publish_account s' now a = publish_account s now a.
Proof. intros Hp Hc Hs Hl Hk. unfold publish_account. by rewrite Hp, Hc, Hl, Hk, Hs. Qed.

Lemma publish_id s now a : ua_id (publish_account s now a) = ua_id a.
Proof.
  unfold publish_account, with_token, disable. destruct (negb _); [done|].
  destruct (oauth_credentials s !! ua_id a); [|done]. destruct (credential_cipher s) as [c|]; [|done].
  by destruct (runtime_token _ _ _).
Qed.

(** When an account with a managed token is published enabled. *)
Lemma publish_enabled s now a :
  account_auth_providers s !! ua_id a = Some OAuthRefreshToken →
  ua_enabled (publish_account s now a) = true →
  ∃ credential c token,
    oauth_credentials s !! ua_id a = Some credential ∧ credential_cipher s = Some c
    ∧ runtime_token c credential now = Some token
    ∧ ua_bearer_token (publish_account s now a) = token
    ∧ credential_enabled (ua_enabled a) (session_profiles s !! ua_id a) credential
        (default OAuthRateLimitCacheRecord_default (oauth_rate_limit_caches s !! ua_id a)) now = true.
Proof.
  intros Hp. unfold publish_account. rewrite Hp. cbn [default].
  rewrite bool_decide_eq_true_2 by done. cbn [negb].
  destruct (oauth_credentials s !! ua_id a) as [credential|]; [|done].
  destruct (credential_cipher s) as [c|]; [|done]. unfold with_token.
  destruct (runtime_token c credential now) as [token|] eqn:Ht; [|done].
  intros He. exists credential, c, token. split_and!; try done.
Qed.

(** What it takes for a credential to be enabled. *)
Lemma credential_enabled_true enabled profile credential cache now :
  let fallback := has_usable_access_token_fallback (has_access_token_fallback credential)
                    (ocr_fallback_token_expires_at credential) now in
  credential_enabled enabled profile credential cache now = true ↔
  enabled = true ∧ (min_valid now < ocr_token_expires_at credential ∨ fallback = true)
  ∧ (refresh_credential_is_terminal_invalid (ocr_last_refresh_status credential)
       (ocr_refresh_reused_detected credential) (ocr_last_refresh_error_code credential) = true → fallback = true)
  ∧ has_active_rate_limit_block now (rlc_expires_at cache) (rlc_last_error_code cache) (rlc_last_error cache) = false.
Proof.
  unfold credential_enabled, oauth_effective_enabled. cbv zeta.
  destruct (has_usable_access_token_fallback _ _ _), (refresh_credential_is_terminal_invalid _ _ _),
    (has_active_rate_limit_block _ _ _ _), enabled; cbn; rewrite ?orb_true_r, ?orb_false_r; cbn; try naive_solver.
  all: destruct (Z.ltb_spec (min_valid now) (ocr_token_expires_at credential)); cbn; naive_solver lia.
Qed.

(** The token of an account with a managed token is empty or one that was decrypted. *)
Lemma publish_token s now a :
  account_auth_providers s !! ua_id a = Some OAuthRefreshToken →
  ua_bearer_token (publish_account s now a) = "" ∨
  ∃ credential c text, oauth_credentials s !! ua_id a = Some credential ∧ credential_cipher s = Some c
    ∧ (text = ocr_access_token_enc credential ∨ Some text = ocr_fallback_access_token_enc credential)
    ∧ decrypt c text = Ok (ua_bearer_token (publish_account s now a)).
Proof.
  intros Hp. unfold publish_account. rewrite Hp. cbn [default].
  rewrite bool_decide_eq_true_2 by done. cbn [negb].
  destruct (oauth_credentials s !! ua_id a) as [credential|]; [|by left].
  destruct (credential_cipher s) as [c|]; [|by left]. unfold with_token.
  destruct (runtime_token c credential now) as [token|] eqn:Ht; [|by left]. right.
  exists credential, c. unfold runtime_token, decrypt_fallback in Ht.
  assert (Hfb : ∀ t, match ocr_fallback_access_token_enc credential with
                     | Some x => ok_of (decrypt c x) | None => None end = Some t →
                ∃ text, Some text = ocr_fallback_access_token_enc credential ∧ decrypt c text = Ok t).
  { intros t. destruct (ocr_fallback_access_token_enc credential) as [x|]; [|done].
    destruct (decrypt c x) eqn:Hd; cbn; [|done]. intros [= <-]. by exists x. }
  destruct (should_use_access_token_fallback_for_runtime _ _ _ _ _ _ _).
  { apply Hfb in Ht as (text & ? & ?). exists text. split_and!; auto. }
  destruct (decrypt c (ocr_access_token_enc credential)) eqn:Hd.
  { injection Ht as <-. exists (ocr_access_token_enc credential). split_and!; auto. }
  destruct (has_usable_access_token_fallback _ _ _); [|done].
  apply Hfb in Ht as (text & ? & ?). exists text. split_and!; auto.
Qed.

(** ** Plans *)

Lemma mapM_st_spec {A B} (f : A → ST (Timed InMemoryStore) B) (R : A → B → Prop) l w :
  (∀ x w, wp (f x) (λ b w', st w' = st w ∧ R x b) w) →
  wp (mapM_st f l) (λ bs w', st w' = st w ∧ Forall2 R l bs) w.
Proof.
  intros Hf. revert w. induction l as [|x l IH]; intros w; cbn [mapM_st]; [by wp_step|].
  wp_step. wp_use (Hf x w) as b w1 [E1 Hb]. wp_step. wp_use (IH w1) as bs w2 [E2 Hbs]. wp_step.
  split; [by rewrite E2|by constructor].
Qed.

(** A plan that was compiled from profiles over the given accounts. *)
Definition plan_over (l : list UpstreamAccount) (traits : gmap Uuid AccountRoutingTraits) s
    (plan : CompiledRoutingPlan) : Prop :=
  ∃ cps, (∀ i seg, cps !! i = Some seg → crp_account_ids seg ⊆ (ua_id <$> l))
    ∧ compile_policies cps traits (sort_policies (List.filter mrp_enabled (id_values (model_routing_policies s))))
      = (plan_default_route plan, plan_policies plan).

Lemma plan_spec l traits w :
  wp (compile_routing_plan_from_state l traits) (λ r w', st w' = st w ∧
    ∀ plan, r = Some plan → plan_over l traits (st w) plan) w.
Proof.
  unfold compile_routing_plan_from_state. wp_step. wp_step. wp_step.
  wp_use (mapM_st_spec _ (λ profile kv, ∃ now, kv = (rprof_id profile, compile_profile now l traits profile)))
    as bs w1 [E1 Hbs]. { intros x w'. wp_go. cbn [st]. split; [done|]. by eexists. }
  wp_step. wp_step. cbn beta zeta. rewrite E1.
  set (cps := list_to_map (reverse bs)). set (sources := sort_policies _).
  assert (Hcps : ∀ i seg, cps !! i = Some seg → crp_account_ids seg ⊆ (ua_id <$> l)).
  { intros i seg Hi. apply elem_of_list_to_map_2 in Hi. rewrite elem_of_reverse in Hi. apply list_elem_of_lookup_1 in Hi as [k Hk].
    destruct (Forall2_lookup_r _ _ _ _ _ Hbs Hk) as (profile & _ & now & [= -> ->]).
    intros j Hj. apply compile_profile_accounts in Hj as (a & Ha & <- & _). by apply list_elem_of_fmap_2. }
  destruct (compile_policies cps traits sources) as [default_route policies] eqn:Hc.
  destruct (_ && _); wp_go; split; try done. intros plan [= <-]. by exists cps.
Qed.

(** Every segment of such a plan has accounts, all of them of the list. *)
Definition plan_segments (plan : CompiledRoutingPlan) : list CompiledRoutingProfile :=
  plan_default_route plan ++ (plan_policies plan ≫= cmrp_fallback_segments).

Lemma plan_over_segments l traits s plan seg :
  plan_over l traits s plan → seg ∈ plan_segments plan →
  crp_account_ids seg ≠ [] ∧ crp_account_ids seg ⊆ (ua_id <$> l).
Proof.
  intros (cps & Hcps & Hc) Hseg. set (sources := sort_policies _) in Hc.
  pose proof (compile_policies_spec cps traits sources) as (C1 & _ & C3). rewrite Hc in C1, C3. cbn [fst snd] in *.
  assert (Hp : ∃ p, seg ∈ fallback_segments cps p).
  { unfold plan_segments in Hseg. apply elem_of_app in Hseg as [Hd|Hd].
    - rewrite C3 in Hd. destruct (List.find _ _) as [p|]; [by exists p|set_solver].
    - apply list_elem_of_bind in Hd as (cp & Hd & Hcp). apply C1 in Hcp as (m & p & _ & ->). by exists p. }
  destruct Hp as [p Hp]. apply elem_of_fallback_segments in Hp as (Hne & i & _ & Hi). split; [done|by eapply Hcps].
Qed.

(** ** The snapshot *)

(** What a snapshot taken of [s] at [now] is. *)
Record snapshot_of (now : DateTime) s (snap : DataPlaneSnapshot) : Prop := mkSnapshotOf {
  so_revision : dps_revision snap = revision s `max` 1 ∧ dps_cursor snap = dps_revision snap;
  so_accounts : ∀ a, a ∈ dps_accounts snap ↔
    ∃ i a0, accounts s !! i = Some a0 ∧ is_active s a0 = true ∧ a = publish_account s now a0;
  so_distinct : NoDup (ua_id <$> dps_accounts snap);
  so_traits : ∀ i, i ∈ art_account_id <$> dps_account_traits snap ↔ i ∈ ua_id <$> dps_accounts snap;
  so_plan : ∀ plan seg, dps_compiled_routing_plan snap = Some plan → seg ∈ plan_segments plan →
    crp_account_ids seg ≠ [] ∧ crp_account_ids seg ⊆ (ua_id <$> dps_accounts snap);
  so_templates : ∀ t, t ∈ dps_approved_upstream_error_templates snap ↔
    uetr_status t = Approved ∧ ∃ i, upstream_error_templates s !! i = Some t;
  so_nodes : ∀ n, n ∈ dps_outbound_proxy_nodes snap ↔ ∃ i, outbound_proxy_nodes s !! i = Some n;
  so_settings : dps_outbound_proxy_pool_settings snap = outbound_proxy_pool_settings s
    ∧ dps_claude_code_routing_settings snap = claude_code_routing_settings s
    ∧ dps_ai_error_learning_settings snap = upstream_error_learning_settings s;
}.

Lemma traits_spec l w :
  wp (build_account_routing_traits l) (λ t w', st w' = st w ∧
    ∀ i, i ∈ art_account_id <$> id_values t ↔ i ∈ ua_id <$> l) w.
Proof.
  unfold build_account_routing_traits. wp_go. split; [done|]. intros i. cbn [st].
  set (f := λ account, (ua_id account, account_traits_of (st w) _ account)).
  assert (Hin : ∀ k t, list_to_map (M := gmap Uuid AccountRoutingTraits) (reverse (f <$> l)) !! k = Some t →
    art_account_id t = k ∧ k ∈ ua_id <$> l).
  { intros k t Hk. apply elem_of_list_to_map_2 in Hk. rewrite elem_of_reverse, list_elem_of_fmap in Hk.
    destruct Hk as (a & [= -> ->] & Ha). split; [|by apply list_elem_of_fmap_2].
    unfold account_traits_of. by destruct (derive_rate_limit_block _ _). }
  rewrite list_elem_of_fmap. setoid_rewrite elem_of_id_values. split.
  - intros (t & -> & k & Hk). by destruct (Hin k t Hk) as [-> ?].
  - intros Hi. destruct (list_to_map (M := gmap Uuid AccountRoutingTraits) (reverse (f <$> l)) !! i) as [t|] eqn:Ht.
    + exists t. split; [by destruct (Hin i t Ht)|by exists i].
    + apply not_elem_of_list_to_map_2 in Ht. rewrite fmap_reverse, elem_of_reverse, <- list_fmap_compose in Ht.
      by destruct Ht.
Qed.

(** What is published from the state before a purge is what is published after it. *)
Lemma publish_forgot l s s1 s2 now a :
  forgot l s s1 → same_tables s1 s2 → accounts s1 !! ua_id a = Some a →
  publish_account s now a = publish_account s2 now a.
Proof.
  intros F [_ T%rest_same] Ha. pose proof (fg_accounts _ _ _ F (ua_id a)) as Hl. rewrite Ha in Hl.
  case_bool_decide as Hin; [done|]. destruct F as [_ P C S K _ Cf]. unfold config in Cf. injection Cf as ? ? ? ? ? ? ? ? ? Hk.
  symmetry. apply publish_ext.
  - by rewrite (sr_providers _ _ T), P.
  - by rewrite (sr_credentials _ _ T), C.
  - by rewrite (sr_profiles _ _ T), S.
  - by rewrite (sr_caches _ _ T), K.
  - by rewrite (sr_cipher _ _ T), Hk.
Qed.

Lemma NoDup_fmap_filter {A B} (f : A → B) (p : A → bool) l : NoDup (f <$> l) → NoDup (f <$> List.filter p l).
Proof.
  induction l as [|x l IH]; cbn; [done|]. rewrite list.NoDup_cons. intros [Hx Hl].
  destruct (p x); [|by apply IH]. cbn. apply list.NoDup_cons. split; [|by apply IH].
  contradict Hx. rewrite list_elem_of_fmap in Hx |- *. setoid_rewrite list_elem_of_In in Hx.
  setoid_rewrite filter_In in Hx. setoid_rewrite list_elem_of_In. naive_solver.
Qed.

(** The accounts a snapshot publishes. *)
Lemma published_accounts l w s1 s2 now listed :
  store_inv w → st w = s1 → listed = id_values (accounts s1) → (∀ s, forgot l s s1 → same_tables s1 s2 →
  let published := publish_account s now <$> List.filter (is_active s2) listed in
  NoDup (ua_id <$> published) ∧
  ∀ a, a ∈ published ↔
    ∃ i a0, accounts s2 !! i = Some a0 ∧ is_active s2 a0 = true ∧ a = publish_account s2 now a0).
Proof.
  intros Hw <- -> s F T. cbn zeta. pose proof (si_keyed _ Hw) as Hkey. split.
  - rewrite <- list_fmap_compose. rewrite (list_fmap_ext _ ua_id) by (intros; apply publish_id).
    apply NoDup_fmap_filter. by apply NoDup_id_values.
  - intros a. rewrite list_elem_of_fmap. setoid_rewrite list_elem_of_In. setoid_rewrite filter_In.
    setoid_rewrite <- list_elem_of_In. setoid_rewrite elem_of_id_values. destruct T as [Ha T]. rewrite Ha. split.
    + intros (a0 & -> & [i Hi] & Hact). exists i, a0. split_and!; [done|done|].
      eapply publish_forgot; [done|by split|by rewrite (Hkey i a0 Hi)].
    + intros (i & a0 & Hi & Hact & ->). exists a0. split_and!; [|by exists i|done].
      symmetry. eapply publish_forgot; [done|by split|by rewrite (Hkey i a0 Hi)].
Qed.

Lemma snapshot_spec w :
  store_inv w →
  wp snapshot_inner (λ r w', ∃ snap now, r = Ok snap ∧ snapshot_of now (st w') snap ∧ bumped 2 (st w) (st w')) w.
Proof.
  intros Hw. unfold snapshot_inner. wp_step.
  wp_use (wp_and _ _ _ _ (purge_expired_keeps w Hw) (purge_expired_spec w (si_revision _ Hw)))
    as [] w1 [Hw1 (_ & _ & B1)]. wp_step. wp_step. wp_step.
  unfold list_upstream_accounts_inner. wp_step.
  wp_use (wp_and _ _ _ _ (purge_expired_keeps w1 Hw1) (purge_expired_spec w1 (si_revision _ Hw1)))
    as [] w2 [Hw2 (l2 & F2 & B2)].
  wp_step. wp_step. wp_step. wp_step. wp_step. set (now := utc (ticks w2)).
  wp_step. fold (retain_active (id_values (accounts (st w2)))).
  wp_use (retain_spec (id_values (accounts (st w2))) _) as retained w4 (-> & T4 & R4 & _).
  { apply (si_revision _ Hw2). } { apply NoDup_id_values, (si_keyed _ Hw2). } cbn [st] in T4, R4.
  pose proof (published_accounts l2 w2 _ (st w4) now _ Hw2 eq_refl eq_refl (st w1) F2 T4) as [Hnd Hacc].
  cbn zeta. set (published := publish_account _ _ <$> _) in *.
  wp_step. wp_use (traits_spec published) as traits w5 [E5 Htr].
  wp_step. wp_use (plan_spec published traits) as plan w6 [E6 Hplan].
  unfold list_outbound_proxy_nodes_inner, list_builtin_error_templates_inner. wp_go. cbn [st].
  rewrite E6, E5. eexists _, now. split; [reflexivity|]. split.
  2: { assert (B3 := bumped_same _ _ (si_revision _ Hw2) R4).
       exact (bumped_trans 1 1 _ _ _ B1 (bumped_trans 1 0 _ _ _ B2 B3)). }
  split; cbn; try done.
  - intros p seg -> Hseg. by eapply plan_over_segments; [apply Hplan|].
  - intros t. rewrite elem_of_sort_by, list_elem_of_In, filter_In, <- list_elem_of_In, elem_of_id_values.
    rewrite bool_decide_eq_true. naive_solver.
  - intros n. by rewrite elem_of_sort_by, elem_of_id_values.
Qed.
End publish.
