(* ===== verification/OAuthRefreshFacts.v ===== *)
(** * Refreshes of access tokens

    What a refresh does to the credential of its account, by the reply, and whom a
    refusal takes out of the pool. *)
From S2P Require Import Prelude RustStr CoreModel Json Request RoutingCache ControlModel StoreDefs Secrets SecretsFacts Credentials Store StoreConfig StoreSnapshot Kept StoreFacts StoreInv OAuthClient OAuthPool OAuthVault OAuthAccounts OAuthInv OAuthVaultFacts PublishFacts.

#[local] Open Scope string_scope.
#[local] Open Scope list_scope.
#[local] Open Scope Z_scope.

Section refresh.
Context `{Base64, Aes256Gcm, NonceSource, Digests, UuidSource, WallClock, UuidText, Environment, IdOrder}.
Context `{HashOrder, CompletionOrder, OAuthTokenClient, UrlSafeBase64, SerdeJson, Chrono}.
Context `{UrlFragment}.
Implicit Types (w : Timed InMemoryStore) (s : InMemoryStore).

(** ** Doomed accounts *)

Definition pending s (i : Uuid) : Prop := hs_pool_state (health_of i s) = PendingPurge.
Definition disabled s (i : Uuid) : Prop := ∃ a, accounts s !! i = Some a ∧ ua_enabled a = false.

(** The accounts of [doomed] are disabled and wait for their purge; the others and the
    other tables are as they were. *)
Definition dooms (doomed : Uuid → Prop) w w' : Prop :=
  rest (st w') = rest (st w) ∧ rev_ok (st w')
  ∧ (∀ j, doomed j → is_Some (accounts (st w) !! j) → pending (st w') j ∧ disabled (st w') j)
  ∧ (∀ j, ¬ doomed j → accounts (st w') !! j = accounts (st w) !! j
                       ∧ account_health_states (st w') !! j = account_health_states (st w) !! j)
  ∧ (∀ j, is_Some (accounts (st w') !! j) ↔ is_Some (accounts (st w) !! j)).

Lemma dooms_none w : rev_ok (st w) → dooms (λ _, False) w w.
Proof. intros Hr. by split_and!. Qed.

Lemma doom_one i reason w :
  rev_ok (st w) → wp (mark_upstream_account_pending_purge_inner i reason) (λ _ w', dooms (eq i) w w') w.
Proof.
  intros Hr. wp_use (mark_pending_spec i reason w Hr) as r w' Hm.
  destruct (accounts (st w) !! i) as [a|] eqn:Ha; cbv zeta in Hm.
  - destruct Hm as (_ & Ac & Hh & Hrest & Hrev & _). split_and!; [done| | | |].
    + unfold rev_ok. rewrite Hrev. apply u64_wrap_bounds.
    + intros j <- _. unfold pending, disabled, health_of. rewrite Ac, Hh, !lookup_insert_eq. eauto.
    + intros j Hj. by rewrite Ac, Hh, !lookup_insert_ne.
    + intros j. rewrite Ac. destruct (decide (j = i)) as [->|].
      * rewrite lookup_insert_eq, Ha. by split.
      * by rewrite lookup_insert_ne.
  - destruct Hm as (_ & Hst & _). unfold dooms. rewrite Hst. split_and!; try done.
    intros j <- [? ?]. congruence.
Qed.

Lemma dooms_compose P Q w1 w2 w3 `{∀ j, Decision (Q j)} :
  dooms P w1 w2 → dooms Q w2 w3 → dooms (λ j, P j ∨ Q j) w1 w3.
Proof.
  intros (R1 & _ & D1 & N1 & A1) (R2 & V2 & D2 & N2 & A2). split_and!; [congruence|done| | |].
  - intros j Hj Ha. destruct (decide (Q j)) as [HQ|HQ]; [apply D2; [done|by apply A1]|].
    destruct Hj as [HP|?]; [|done]. destruct (D1 j HP Ha) as [Hp Hd]. destruct (N2 j HQ) as [Ha2 Hh2].
    unfold pending, disabled, health_of. by rewrite Ha2, Hh2.
  - intros j Hj. destruct (N1 j) as [<- <-]; [tauto|]. apply N2. tauto.
  - intros j. by rewrite A2, A1.
Qed.

Lemma dooms_ext P Q w w' : (∀ j, P j ↔ Q j) → dooms P w w' → dooms Q w w'.
Proof. intros He (R & V & D & N & A). split_and!; try done; intros j Hj; [by apply D, He|apply N]. by rewrite He. Qed.

Lemma doom_list reason l w :
  rev_ok (st w) →
  wp (for_each (λ i, _ ← mark_upstream_account_pending_purge_inner i reason; mret tt) l)
    (λ _ w', dooms (λ j, j ∈ l) w w') w.
Proof.
  revert w. induction l as [|i l IH]; intros w Hr; cbn [for_each].
  { wp_step. eapply dooms_ext; [|by apply dooms_none]. set_solver. }
  do 2 wp_step. wp_use (doom_one i reason w Hr) as r w1 Hd1. wp_step.
  wp_use (IH w1 (proj1 (proj2 Hd1))) as [] w2 Hd2. eapply dooms_ext; [|exact (dooms_compose _ (λ j, j ∈ l) _ _ _ Hd1 Hd2)]. set_solver.
Qed.

Lemma doom_family f reason w :
  rev_ok (st w) →
  wp (mark_oauth_family_pending_purge_inner f reason)
    (λ _ w', dooms (λ j, ∃ c, oauth_credentials (st w) !! j = Some c ∧ ocr_token_family_id c = f) w w') w.
Proof.
  intros Hr. unfold mark_oauth_family_pending_purge_inner. do 2 wp_step.
  wp_use (doom_list reason _ w Hr) as [] w' Hd. eapply dooms_ext; [|done].
  intros j. unfold family_accounts. rewrite list_elem_of_fmap. split.
  - intros ([i c] & -> & Hin). apply list_elem_of_In, filter_In in Hin as [Hin%list_elem_of_In He].
    exists c. split; [by apply elem_of_id_iter|by apply String.eqb_eq].
  - intros (c & Hc & He). exists (j, c). split; [done|]. apply list_elem_of_In, filter_In. split.
    + by apply list_elem_of_In, elem_of_id_iter.
    + by apply String.eqb_eq.
Qed.

(** ** Answering with the status *)

(** Only the state of the account may change: its quarantine may end. *)
Definition answered (i : Uuid) w w' : Prop :=
  same_tables (st w) (st w') ∧ (rev_ok (st w') ∧ (ticks w ≤ ticks w')%nat)
  ∧ (∀ j, j ≠ i → account_health_states (st w') !! j = account_health_states (st w) !! j)
  ∧ (hs_pool_state (health_of i (st w')) = hs_pool_state (health_of i (st w))
     ∨ hs_pool_state (health_of i (st w)) = Quarantine ∧ hs_pool_state (health_of i (st w')) = Active).

Lemma read_answered i w : rev_ok (st w) → wp (account_pool_state_record_inner i) (λ h w', h = health_of i (st w') ∧ answered i w w') w.
Proof.
  intros Hr. unfold account_pool_state_record_inner, health_entry.
  do 4 wp_step. cbn [st]. match goal with |- context [put_health _ ?x] => set (h := x) end.
  assert (Hh : hs_pool_state h = hs_pool_state (health_of i (st w))
               ∨ hs_pool_state (health_of i (st w)) = Quarantine ∧ hs_pool_state h = Active).
  { subst h. destruct (bool_decide _) eqn:Hq; cbn [andb]; [|by left].
    apply bool_decide_eq_true in Hq. destruct (from_option _ _ _); [by right|by left]. }
  wp_step. wp_use put_health_spec as [] w' [(T & Hs & R & Hk) _]; [done|]. wp_step. cbn [st ticks] in *.
  assert (Hi := health_set_of _ _ _ _ Hs). split; [done|]. split_and!; [done| |lia| |by rewrite Hi].
  - unfold rev_ok. rewrite R. apply u64_wrap_bounds.
  - intros j Hj. unfold health_set in Hs. by rewrite Hs, lookup_insert_ne.
Qed.

Lemma status_spec a p c f w :
  rev_ok (st w) → wp (oauth_status_from a p c f) (λ _ w', answered (ua_id a) w w') w.
Proof.
  intros Hr. unfold oauth_status_from. do 7 wp_step.
  wp_use read_answered as h w' [_ (T & [R K] & Hh & Hp)]; [done|]. wp_step. cbn [st ticks] in *.
  split_and!; [done|done|lia|done|done].
Qed.

(** ** New credentials *)

Lemma from_token_info_spec k t w :
  wp (from_token_info k t) (λ r w', st w' = st w ∧ ∀ c, r = Ok c →
    ∃ access refresh family now, sealed k access (oti_access_token t) ∧ sealed k refresh (oti_refresh_token t)
      ∧ c = mkOAuthCredentialRecord access refresh None (refresh_token_sha256 (oti_refresh_token t)) family 1
              (oti_expires_at t) None (Some now) RefreshOk false None None 0 None) w.
Proof.
  unfold from_token_info. wp_step. wp_use (encrypt_sealed k _ w) as [access|e] w1 [S1 E1]; [|by split].
  wp_step. wp_use (encrypt_sealed k _ w1) as [refresh|e] w2 [S2 E2]; [|by rewrite S2, S1].
  do 5 wp_step. cbn [st]. split; [congruence|]. intros c [= <-]. do 4 eexists. eauto.
Qed.

Record rotated (k : CredentialCipher) (c : OAuthCredentialRecord) (t : OAuthTokenInfo)
    (c' : OAuthCredentialRecord) : Prop := {
  ro_access : sealed k (ocr_access_token_enc c') (oti_access_token t);
  ro_refresh : sealed k (ocr_refresh_token_enc c') (oti_refresh_token t);
  ro_hash : ocr_refresh_token_sha256 c' = refresh_token_sha256 (oti_refresh_token t);
  ro_family : ocr_token_family_id c' = ocr_token_family_id c;
  ro_version : ocr_token_version c' = u64_saturating_add (ocr_token_version c) 1;
  ro_expires : ocr_token_expires_at c' = oti_expires_at t;
  ro_status : ocr_last_refresh_status c' = RefreshOk;
  ro_clean : ocr_refresh_reused_detected c' = false ∧ ocr_refresh_failure_count c' = 0
             ∧ ocr_refresh_backoff_until c' = None ∧ ocr_last_refresh_error_code c' = None;
}.

(** Every account is as available as it was. *)
Definition undisturbed s s' : Prop :=
  (∀ j, pending s' j ↔ pending s j)
  ∧ (∀ j, ua_enabled <$> accounts s' !! j = ua_enabled <$> accounts s !! j).

Lemma undisturbed_trans s1 s2 s3 : undisturbed s1 s2 → undisturbed s2 s3 → undisturbed s1 s3.
Proof. intros [P1 A1] [P2 A2]. split; intros j; [by rewrite P2, P1|by rewrite A2, A1]. Qed.
Lemma answered_undisturbed i w w' : answered i w w' → undisturbed (st w) (st w').
Proof.
  intros ([Ha _] & _ & Hh & Hp). split; intros j; [|by rewrite Ha].
  destruct (decide (j = i)) as [->|Hj]; unfold pending; [destruct Hp as [->|[-> ->]]; done|].
  unfold health_of. by rewrite Hh.
Qed.

Lemma refresh_granted_spec i k a c t w :
  rev_ok (st w) →
  wp (refresh_granted i k a c t) (λ r w', undisturbed (st w) (st w') ∧ rev_ok (st w') ∧
    match r with
    | Err _ => oauth_credentials (st w') = oauth_credentials (st w)
    | Ok ac => ua_id ac.1 = ua_id a ∧ rotated k c t ac.2
               ∧ oauth_credentials (st w') = <[i := ac.2]> (oauth_credentials (st w))
    end) w.
Proof.
  intros Hr. unfold refresh_granted. wp_step.
  wp_use (from_token_info_spec k t w) as [fresh|e] w1 [Hst Hf]; [|rewrite Hst; by split_and!].
  destruct (Hf fresh eq_refl) as (access & refresh & family & now & Ha & Hre & ->). cbv zeta. cbn.
  unfold upsert_oauth_credential. do 2 wp_step.
  match goal with |- context [insert i ?x] => set (c' := x) end.
  assert (Hro : rotated k c t c') by (subst c'; split; cbn; try done).
  unfold adopt_chatgpt_account_id, lookup_account, upsert_session_profile, bump_revision.
  destruct (oti_chatgpt_account_id t) as [x|]; [|].
  - do 5 wp_step. rproj. rewrite Hst. destruct (accounts (st w) !! i) as [b|] eqn:Hb.
    + wp_go. unfold undisturbed, pending, health_of, rev_ok. rproj. rewrite ?Hst.
      split_and!; try done; [|apply u64_wrap_bounds]. intros j. destruct (decide (j = i)) as [->|].
      * by rewrite lookup_insert_eq, Hb.
      * by rewrite lookup_insert_ne.
    + wp_go. unfold undisturbed, pending, health_of, rev_ok. rproj. rewrite ?Hst.
      split_and!; try done. apply u64_wrap_bounds.
  - wp_go. unfold undisturbed, pending, health_of, rev_ok. rproj. rewrite ?Hst.
    split_and!; try done. apply u64_wrap_bounds.
Qed.

(** ** Refusals *)

(** Whom a refusal takes out: the whole family of a token that was used before or
    revoked, else the account alone when the refusal is final and it has no other
    token. *)
Definition doomed_by s (i : Uuid) (c : OAuthCredentialRecord) (now : DateTime) (err : OAuthTokenClientError)
    (j : Uuid) : Prop :=
  let code := error_code_str (client_error_code err) in
  if is_one_of ["refresh_token_reused"; "refresh_token_revoked"] code
  then ∃ c', oauth_credentials s !! j = Some c' ∧ ocr_token_family_id c' = ocr_token_family_id c
  else j = i ∧ is_fatal_refresh_error_code (Some code) = true ∧ has_fallback_now c now = false.

Lemma refresh_refused_spec i c now err w :
  rev_ok (st w) → oauth_credentials (st w) !! i = Some c →
  wp (refresh_refused i c now err) (λ _ w',
    oauth_credentials (st w') = <[i := refused_credential c now err]> (oauth_credentials (st w))
    ∧ dooms (doomed_by (st w) i c now err)
        (mkTimed ((st w) <| oauth_credentials ::= insert i (refused_credential c now err) |>) (ticks w)) w') w.
Proof.
  intros Hr Hc. unfold refresh_refused, upsert_oauth_credential. cbv zeta. do 3 wp_step.
  set (c' := refused_credential c now err). set (w1 := mkTimed _ _).
  assert (Hr1 : rev_ok (st w1)) by done.
  apply (wp_mono _ (λ _ w', dooms (doomed_by (st w) i c now err) w1 w')).
  2: { intros [] w' Hd. wp_step. split; [|done]. destruct Hd as [Hrest _]. unfold rest in Hrest.
       by injection Hrest as _ _ _ _ ->. }
  unfold doomed_by. cbv zeta. change (ocr_refresh_reused_detected c') with
    (is_one_of ["refresh_token_reused"; "refresh_token_revoked"] (error_code_str (client_error_code err))).
  destruct (is_one_of _ _).
  - wp_use (doom_family _ _ w1 Hr1) as [] w' Hd. eapply dooms_ext; [|done]. intros j. subst w1. rproj.
    destruct (decide (j = i)) as [->|]; [|by rewrite lookup_insert_ne].
    rewrite lookup_insert_eq, Hc. naive_solver.
  - change (has_fallback_now c' now) with (has_fallback_now c now).
    destruct (is_fatal_refresh_error_code _ && _) eqn:Hf.
    + apply andb_prop in Hf as [Hf Hn%negb_true_iff]. wp_step. wp_use (doom_one i _ w1 Hr1) as r w' Hd. wp_step.
      eapply dooms_ext; [|done]. naive_solver.
    + wp_step. eapply dooms_ext; [|by apply dooms_none].
      intros j. split; [done|]. intros (_ & E1 & E2). by rewrite E1, E2 in Hf.
Qed.

(** ** The operation *)

Definition needs_refresh (c : OAuthCredentialRecord) (now : DateTime) (force : bool) : bool :=
  negb (refresh_credential_is_terminal_invalid (ocr_last_refresh_status c) (ocr_refresh_reused_detected c)
          (ocr_last_refresh_error_code c) && has_fallback_now c now)
  && (force || (ocr_token_expires_at c <=? now + from_secs OAUTH_REFRESH_WINDOW_SEC))
  && negb (later_than now (ocr_refresh_backoff_until c)).

(** Credentials stay, and every account is as available as it was. *)
Definition untouched w w' : Prop :=
  oauth_credentials (st w') = oauth_credentials (st w) ∧ undisturbed (st w) (st w').

Lemma answered_untouched i w w' : answered i w w' → untouched w w'.
Proof.
  intros Hd. split; [|by eapply answered_undisturbed]. destruct Hd as ([_ Hrest] & _).
  unfold rest in Hrest. by injection Hrest as _ _ _ _ ->.
Qed.

(** The refresh token, when it can be read. *)
Definition refresh_secret s (c : OAuthCredentialRecord) : option (CredentialCipher * string) :=
  k ← credential_cipher s;
  match decrypt k (ocr_refresh_token_enc c) with Ok token => Some (k, token) | Err _ => None end.

(** What a refresh leads to. *)
Definition refresh_outcome (i : Uuid) (force : bool) (a : UpstreamAccount) (c : OAuthCredentialRecord)
    (r : result OAuthAccountStatusResponse Error) w w' : Prop :=
  let now := utc (ticks w) in
  if negb (needs_refresh c now force) then is_ok r = true ∧ untouched w w' else
  match refresh_secret (st w) c with
  | None => is_ok r = false ∧ untouched w w'
  | Some (k, token) =>
      match refresh_token (Datatypes.S (ticks w)) token (Some (ua_base_url a)) with
      | Ok t =>
          undisturbed (st w) (st w')
          ∧ if is_ok r then ∃ c', rotated k c t c' ∧ oauth_credentials (st w') = <[i := c']> (oauth_credentials (st w))
            else oauth_credentials (st w') = oauth_credentials (st w)
      | Err err =>
          is_ok r = true
          ∧ oauth_credentials (st w') = <[i := refused_credential c now err]> (oauth_credentials (st w))
          ∧ ∀ j,
              (doomed_by (st w) i c now err j → is_Some (accounts (st w) !! j) →
               pending (st w') j ∧ disabled (st w') j)
              ∧ (¬ doomed_by (st w) i c now err j →
                 accounts (st w') !! j = accounts (st w) !! j ∧ (pending (st w') j ↔ pending (st w) j))
      end
  end.

Lemma answer_spec {E} a p c f w (Q : result OAuthAccountStatusResponse E → Timed InMemoryStore → Prop) :
  rev_ok (st w) → (∀ r w', is_ok r = true → answered (ua_id a) w w' → Q r w') →
  wp (status ← oauth_status_from a p c f; mret (Ok status)) Q w.
Proof. intros Hr HQ. wp_step. wp_use (status_spec a p c f w Hr) as x w' Hd. wp_step. by apply HQ. Qed.

Lemma refresh_spec i force a c w :
  store_inv w → account_auth_providers (st w) !! i = Some OAuthRefreshToken →
  accounts (st w) !! i = Some a → oauth_credentials (st w) !! i = Some c →
  wp (refresh_oauth_account_inner i force) (λ r w', refresh_outcome i force a c r w w') w.
Proof.
  intros Hw Hp Ha Hc. assert (Hr := si_revision _ Hw).
  unfold refresh_oauth_account_inner, account_auth_provider, lookup_account. do 4 wp_step. rewrite Hp. cbn [default from_option].
  rewrite bool_decide_eq_true_2 by done. cbn [negb]. do 4 wp_step. rewrite Ha. do 2 wp_step. rewrite Hc. do 4 wp_step. cbn [st ticks].
  set (now := utc (ticks w)). unfold refresh_outcome, needs_refresh. cbv zeta. fold now.
  destruct (_ && has_fallback_now c now); cbn [negb andb].
  { apply answer_spec; [done|]. intros r w' Hk Hd. split; [done|]. exact (answered_untouched _ _ _ Hd). }
  destruct (force || _); cbn [negb andb].
  2: { apply answer_spec; [done|]. intros r w' Hk Hd. split; [done|]. exact (answered_untouched _ _ _ Hd). }
  destruct (later_than _ _); cbn [negb].
  { apply answer_spec; [done|]. intros r w' Hk Hd. split; [done|]. exact (answered_untouched _ _ _ Hd). }
  unfold require_credential_cipher, refresh_secret. do 4 wp_step. cbn [st].
  destruct (credential_cipher (st w)) as [k|]; cbn [mbind option_bind]; [|done].
  destruct (decrypt k _) as [token|e]; [|by wp_step].
  wp_step. apply wp_call. cbn [st ticks].
  destruct (refresh_token _ _ _) as [t|err].
  - wp_step. eapply wp_mono; [apply (refresh_granted_spec i k a c t); exact Hr|]. cbn beta.
    intros [[a' c']|e] w1 (Hu & Hr1 & Hg); [|by split]. cbn [fst snd] in *. destruct Hg as (Hid & Hro & Hcr).
    apply answer_spec; [done|]. intros r w' Hk Hd. rewrite Hk. split.
    + eapply undisturbed_trans; [exact Hu|]. by eapply answered_undisturbed.
    + exists c'. split; [done|]. apply answered_untouched in Hd as [-> _]. exact Hcr.
  - wp_step. eapply wp_mono; [apply (refresh_refused_spec i c now err); [exact Hr|exact Hc]|]. cbn beta.
    intros c' w1 [Hcr Hd]. apply answer_spec; [apply Hd|]. intros r w' Hk Han.
    split; [done|]. split; [apply answered_untouched in Han as [-> _]; exact Hcr|].
    apply answered_undisturbed in Han as Hun. destruct Hd as (_ & _ & Hd & Hn & _). intros j.
    destruct Han as ([Hac _] & _). split.
    + intros Hj Hb. destruct (Hd j Hj Hb) as [Hpe Hdi]. split; [by apply (proj1 Hun)|].
      unfold disabled. by rewrite Hac.
    + intros Hj. destruct (Hn j Hj) as [Ea Eh]. split; [by rewrite Hac, Ea|].
      rewrite (proj1 Hun). unfold pending, health_of. by rewrite Eh.
Qed.

(** ** A loop that does not end

    An account whose refresh token was refused for good but which has another token is
    taken by every turn of [refresh_expiring_oauth_accounts_inner] and left as it is.
    When there are as many of them as a batch holds, no turn is the last. *)

Definition stuck (n0 : nat) s (i : Uuid) (a : UpstreamAccount) : Prop :=
  ua_id a = i ∧ ua_enabled a = true ∧ hs_pool_state (health_of i s) = Active
  ∧ account_auth_providers s !! i = Some OAuthRefreshToken
  ∧ ∃ c, oauth_credentials s !! i = Some c
    ∧ refresh_credential_is_terminal_invalid (ocr_last_refresh_status c) (ocr_refresh_reused_detected c)
        (ocr_last_refresh_error_code c) = true
    ∧ ∀ n, (n0 ≤ n)%nat → later_than (utc n) (ocr_refresh_backoff_until c) = false
        ∧ ocr_token_expires_at c ≤ utc n + from_secs OAUTH_REFRESH_WINDOW_SEC ∧ has_fallback_now c (utc n) = true.

(** Every account is, for the readings of the clock from [n0] on. *)
Definition all_stuck (n0 : nat) (m : gmap Uuid UpstreamAccount) w : Prop :=
  (rev_ok (st w) ∧ (n0 ≤ ticks w)%nat) ∧ accounts (st w) = m ∧ ∀ i a, m !! i = Some a → stuck n0 (st w) i a.

Lemma answered_stuck n0 m i w w' : answered i w w' → all_stuck n0 m w → all_stuck n0 m w'.
Proof.
  intros ([Ha Hrest] & [Hr' Hk'] & Hh & Hp) ([Hr Hk] & Hm & Hs). split_and!; [done|lia|congruence|]. intros j a Hj.
  destruct (Hs j a Hj) as (Hid & He & Hact & Hpr & Hc). unfold rest in Hrest. injection Hrest as _ _ _ Epr Ecr.
  unfold stuck. rewrite Epr, Ecr. split_and!; try done. destruct (decide (j = i)) as [->|Hne].
  - destruct Hp as [->|[Hq _]]; [done|congruence].
  - unfold health_of in *. by rewrite Hh.
Qed.

Lemma all_stuck_tick n0 m : ticking (all_stuck n0 m).
Proof. intros s n ([Hr Hk] & Hw). split; [split; [done|cbn in *; lia]|done]. Qed.

Lemma refresh_stuck n0 m i a : m !! i = Some a → kept (all_stuck n0 m) (refresh_oauth_account_inner i false).
Proof.
  intros Hi w Hw. assert (Hw0 := Hw). destruct Hw as ([Hr Hk] & Hm & Hs).
  destruct (Hs i a Hi) as (Hid & He & Hact & Hpr & c & Hc & Ht & Hn).
  unfold refresh_oauth_account_inner, account_auth_provider, lookup_account. do 4 wp_step. rewrite Hpr.
  cbn [default from_option]. rewrite bool_decide_eq_true_2 by done. cbn [negb]. do 4 wp_step. rewrite Hm, Hi.
  do 2 wp_step. rewrite Hc. do 4 wp_step. cbn [ticks]. destruct (Hn (ticks w) Hk) as (_ & _ & Hf). rewrite Ht, Hf. cbn [andb].
  apply answer_spec; [done|]. intros r w' _ Hd. apply (answered_stuck _ _ _ _ _ Hd). by apply all_stuck_tick.
Qed.

Lemma take_stuck n0 m n k l w :
  (n0 ≤ k)%nat → (∀ i a, (i, a) ∈ l → m !! i = Some a) → all_stuck n0 m w →
  wp (take_expiring n (utc k) l) (λ r w', r = take n l.*1 ∧ all_stuck n0 m w') w.
Proof.
  intros Hk0. revert n w. induction l as [|[i a] l IH]; intros [|n] w Hl Hw; cbn [take_expiring]; try by wp_step.
  assert (Hi : m !! i = Some a) by (apply Hl; set_solver).
  wp_step. destruct Hw as ([Hr Hk] & Hm & Hs). destruct (Hs i a Hi) as (_ & He & _).
  unfold expiring. rewrite He. cbn [negb]. wp_step. wp_use (read_answered i w Hr) as h w1 [-> Hd].
  assert (Hw1 : all_stuck n0 m w1) by (by eapply answered_stuck; [|split_and!]).
  destruct (proj2 (proj2 Hw1) i a Hi) as (_ & _ & Hact1 & Hpr1 & c1 & Hc1 & _ & Hn1). rewrite Hact1.
  rewrite bool_decide_eq_true_2 by done. cbn [negb]. do 3 wp_step. unfold id. rewrite Hpr1, Hc1.
  cbn [default from_option]. rewrite bool_decide_eq_true_2 by done. destruct (Hn1 k Hk0) as (-> & Hex & _). cbn [negb andb].
  rewrite (proj2 (Z.leb_le _ _) Hex). wp_step.
  wp_use (IH n w1) as r w2 [-> Hw2]; [set_solver|done|]. by wp_step.
Qed.

Lemma refresh_all_stuck n0 m l w :
  (∀ i, i ∈ l → is_Some (m !! i)) → all_stuck n0 m w →
  wp (for_each (λ i, _ ← refresh_oauth_account_inner i false; mret tt) l) (λ _ w', all_stuck n0 m w') w.
Proof.
  revert w. induction l as [|i l IH]; intros w Hl Hw; cbn [for_each]; [by wp_step|].
  destruct (Hl i) as [a Ha]; [set_solver|]. do 2 wp_step. wp_use (refresh_stuck n0 m i a Ha w Hw) as r w' Hw'.
  wp_step. apply IH; [set_solver|done].
Qed.

Theorem refresh_expiring_may_not_end n0 m fuel w :
  all_stuck n0 m w → (Z.to_nat oauth_refresh_batch_size_from_env ≤ size m)%nat →
  wp (loop fuel refresh_expiring_turn tt) (λ r _, r = None) w.
Proof.
  intros Hw Hsz. apply (loop_diverges _ (λ _ w, all_stuck n0 m w)); [|done]. clear w Hw. intros [] w Hw.
  unfold refresh_expiring_turn. do 4 wp_step. cbn [st]. rewrite (proj1 (proj2 Hw)).
  wp_step. wp_use (take_stuck n0 m _ (ticks w) (id_iter m)) as ids w1 [Hids Hw1];
    [apply Hw|by intros i a ?%elem_of_id_iter|by apply all_stuck_tick|].
  assert (Hb : 1 ≤ oauth_refresh_batch_size_from_env) by (by apply clamp_bounds).
  assert (Hlen : length ids = Z.to_nat oauth_refresh_batch_size_from_env).
  { rewrite Hids, length_take, length_fmap, (Permutation_length (id_iter_perm _ m)), length_map_to_list. lia. }
  assert (Hmem : ∀ i, i ∈ ids → is_Some (m !! i)).
  { intros i. rewrite Hids. intros (j & Hj%list_elem_of_lookup_2 & _)%elem_of_take. by apply elem_of_id_keys. }
  destruct ids as [|i0 l0]; [cbn in Hlen; lia|]. set (ids := i0 :: l0) in *. clearbody ids. clear Hids.
  wp_step. destruct w1 as [s1 k1]. apply wp_call. wp_step. cbn [st ticks].
  wp_use (refresh_all_stuck n0 m (completion k1 ids)) as [] w2 Hw2.
  - intros i. rewrite (completion_perm _ k1 ids). apply Hmem.
  - by apply (all_stuck_tick n0 m).
  - wp_step. exists tt. split; [|done]. rewrite (proj2 (Z.ltb_ge _ _)); [done|]. lia.
Qed.
End refresh.
