(* ===== verification/OAuthClientFacts.v ===== *)
(** * The OAuth client

    Where the client sends which secret, and what an outage of the provider looks like
    to the store. *)
From S2P Require Import Prelude RustStr CoreModel Json Request RoutingCache ControlModel StoreDefs Secrets Credentials Store StoreConfig StoreSnapshot Kept StoreFacts StoreInv OAuthClient OAuthPool OAuthVault OAuthAccounts OAuthRefreshFacts.

#[local] Open Scope string_scope.
#[local] Open Scope list_scope.
#[local] Open Scope Z_scope.

Section client.
Context {W : Type} `{OutboundHttp W} `{OAuthDecoders, UrlSafeBase64, SerdeJson, Chrono} `{UrlParts}.
Context (self : OpenAiOAuthClient).
Implicit Types (w : W) (I : W → Prop).

(** ** Requests of the client *)

Definition through I {A} (m : ST W A) : Prop := ∀ w, I w → wp m (λ _ w', I w') w.

Lemma through_ret I {A} (a : A) : through I (mret a).
Proof. intros w Hw. by wp_step. Qed.
Lemma through_bind I {A B} (m : ST W A) (k : A → ST W B) : through I m → (∀ a, through I (k a)) → through I (m ≫= k).
Proof. intros Hm Hk w Hw. wp_step. wp_use (Hm w Hw) as a w' Hw'. by apply Hk. Qed.
Lemma through_try I {A B E} (m : ST W (result A E)) (k : A → ST W (result B E)) :
  through I m → (∀ a, through I (k a)) → through I (try_bind m k).
Proof. intros Hm Hk w Hw. wp_step. wp_use (Hm w Hw) as [a|e] w' Hw'; [by apply Hk|done]. Qed.

(** A predicate of the network that everything but sending keeps, and sending of the
    allowed requests. *)
Record tolerates I (allowed : HttpRequest → Prop) : Prop := {
  to_select : through I select_http_client;
  to_status : ∀ sel n, through I (mark_proxy_http_status sel n);
  to_failure : ∀ sel, through I (mark_proxy_transport_failure sel);
  to_now : through I http_utc_now;
  to_send : ∀ sel req, allowed req → through I (http_send sel req);
}.

Lemma exchange_through I allowed req : tolerates I allowed → allowed req → through I (exchange req).
Proof.
  intros [] Hr. unfold exchange. apply through_bind; [done|intros [sel|m]]; [|apply through_ret].
  apply through_bind; [by apply to_send0|intros [resp|m]];
    (apply through_bind; [done|intros _; apply through_ret]).
Qed.

(** The request that carries the refresh token, and the one that asks for the workspace
    with an access token that was issued. *)
Definition token_request (token : string) : HttpRequest :=
  mkHttpRequest (Some (refresh_form self token)) (token_url self) None [].
Definition workspace_request (base_url : option string) (req : HttpRequest) : Prop :=
  ∃ endpoint account_id body payload,
    resolve_workspace_check_endpoint base_url = Some endpoint
    ∧ decode_token_response body = Some payload
    ∧ req = mkHttpRequest None endpoint (Some (trim (ter_access_token payload)))
              [("user-agent", CODEX_DEFAULT_USER_AGENT); (CHATGPT_ACCOUNT_ID_HEADER, account_id)].

Lemma refresh_through I token base_url :
  tolerates I (λ req, req = token_request token ∨ workspace_request base_url req) →
  through I (client_refresh_token self token base_url).
Proof.
  intros Ht. unfold client_refresh_token. destruct (is_empty _); [apply through_ret|].
  apply through_try; [by apply (exchange_through _ _ _ Ht); left|intros resp].
  destruct (negb _); [apply through_ret|]. destruct (decode_token_response (hres_body resp)) as [payload|] eqn:Hp;
    [|apply through_ret].
  cbv zeta. apply through_bind; [|intros name; apply through_bind; [apply Ht|intros now; apply through_ret]].
  destruct (is_team_plan _); [|apply through_ret]. apply through_bind; [|intros x; apply through_ret].
  unfold fetch_workspace_name_from_backend_api. cbv zeta. destruct (is_empty _); [apply through_ret|].
  destruct (normalize_optional_string _) as [account_id|]; [|apply through_ret].
  destruct (resolve_workspace_check_endpoint base_url) as [endpoint|] eqn:He; [|apply through_ret].
  apply through_try; [|intros r; destruct (negb _); apply through_ret].
  apply (exchange_through _ _ _ Ht). right. by exists endpoint, account_id, (hres_body resp), payload.
Qed.

(** ** Outages *)

Definition outage (status : Z) : bool := (status =? 429) || is_server_error status.

(** The errors of an outage. *)
Definition passing (err : OAuthTokenClientError) : Prop :=
  match err with
  | NotConfigured => True
  | UpstreamError code _ => code = RateLimitedCode ∨ code = UpstreamUnavailable
  | _ => False
  end.

(** Whatever is sent, there is no answer or one of an outage. *)
Definition down : Prop :=
  ∀ sel req w, wp (http_send sel req) (λ r _, ∀ resp, r = Ok resp → outage (hres_status resp) = true) w.

Lemma outage_error resp : outage (hres_status resp) = true → passing (refresh_error resp).
Proof.
  unfold outage, refresh_error, upstream_error, classify_oauth_error_code, is_server_error. cbv zeta.
  intros Ho. destruct (Z.eqb_spec (hres_status resp) 429) as [E|_].
  - rewrite E. cbn. by left.
  - cbn [orb] in Ho. rewrite Ho. apply andb_prop in Ho as [Hl%Z.leb_le Hu%Z.ltb_lt].
    rewrite (proj2 (Z.eqb_neq _ 400)), (proj2 (Z.eqb_neq _ 401)) by lia. cbn. by right.
Qed.

Lemma outage_no_success status : outage status = true → is_success status = false.
Proof.
  unfold outage, is_server_error, is_success. rewrite orb_true_iff, andb_true_iff, andb_false_iff.
  rewrite Z.eqb_eq, Z.leb_le, Z.ltb_lt, Z.leb_gt, Z.ltb_ge. lia.
Qed.

Lemma refresh_when_down token base_url w :
  down → wp (client_refresh_token self token base_url) (λ r _, ∃ err, r = Err err ∧ passing err) w.
Proof.
  intros Hd. unfold client_refresh_token. destruct (is_empty _); [wp_step; by exists NotConfigured|].
  wp_step. unfold exchange. wp_step. apply wp_intro. intros [sel|m] w1 _.
  2: { wp_step. eexists. split; [done|by right]. }
  wp_step. wp_use (Hd sel _ w1) as [resp|m] w2 Hr.
  - wp_step. apply wp_intro. intros [] w3 _. wp_step. specialize (Hr resp eq_refl).
    rewrite (outage_no_success _ Hr). cbn [negb]. wp_step. eexists. split; [done|]. by apply outage_error.
  - wp_step. apply wp_intro. intros [] w3 _. wp_step. eexists. split; [done|by right].
Qed.
End client.

Section outage.
Context `{Base64, Aes256Gcm, NonceSource, Digests, UuidSource, WallClock, UuidText, Environment, IdOrder}.
Context `{HashOrder, CompletionOrder, OutboundHttp nat, OAuthDecoders, UrlSafeBase64, SerdeJson, Chrono}.
Context `{UrlParts, UrlFragment}.

(** An outage takes no account out of the pool. *)
Lemma passing_dooms_nobody s i c now err j : passing err → ¬ doomed_by s i c now err j.
Proof.
  unfold passing, doomed_by. destruct err as [| |code m|]; try done; cbn [client_error_code].
  - intros _. by intros (_ & Hf & _).
  - intros [-> | ->]; by intros (_ & Hf & _).
Qed.

(** A refresh with the real client while the provider is down. *)
Context (self : OpenAiOAuthClient).
#[local] Instance real_client : OAuthTokenClient := openai_oauth_client self.

Lemma refresh_in_outage i force a c (w : Timed InMemoryStore) :
  down → store_inv w → account_auth_providers (st w) !! i = Some OAuthRefreshToken →
  accounts (st w) !! i = Some a → oauth_credentials (st w) !! i = Some c →
  wp (refresh_oauth_account_inner i force) (λ _ w',
    undisturbed (st w) (st w')
    ∧ ∀ j, j ≠ i → oauth_credentials (st w') !! j = oauth_credentials (st w) !! j) w.
Proof.
  intros Hd Hw Hp Ha Hc. wp_use (refresh_spec i force a c w Hw Hp Ha Hc) as r w' Ho.
  unfold refresh_outcome in Ho. destruct (negb _); [destruct Ho as [_ [Hcr Hu]]; by rewrite Hcr|].
  destruct (refresh_secret _ _) as [[k token]|]; [|destruct Ho as [_ [Hcr Hu]]; by rewrite Hcr].
  destruct (refresh_when_down self token (Some (ua_base_url a)) (S (ticks w)) Hd) as (err & Herr & Hpass).
  change (refresh_token (S (ticks w)) token (Some (ua_base_url a)))
    with (client_refresh_token self token (Some (ua_base_url a)) (S (ticks w))).1 in Ho.
  rewrite Herr in Ho. destruct Ho as (_ & Hcr & Hj). split; [|intros j Hne; by rewrite Hcr, lookup_insert_ne].
  split; intros j; destruct (Hj j) as [_ Hn]; destruct (Hn (passing_dooms_nobody _ _ _ _ _ _ Hpass)) as [Eacc Epen];
    [done|by rewrite Eacc].
Qed.
End outage.
