(* ===== verification/OAuthTheorems.v ===== *)
(** * Theorems about the OAuth operations of the store and the OAuth client *)
From S2P Require Import Prelude RustStr CoreModel Json Request RoutingCache ControlModel StoreDefs Secrets SecretsFacts Instances Credentials Store StoreConfig StoreSnapshot Kept StoreFacts StoreInv OAuthClient OAuthPool OAuthVault OAuthAccounts OAuthInv OAuthVaultFacts OAuthProbeFacts OAuthDedupeFacts OAuthJobFacts OAuthRefreshFacts OAuthClientFacts.

#[local] Open Scope string_scope.
#[local] Open Scope list_scope.
#[local] Open Scope Z_scope.

Section claims.
Context `{Base64, Aes256Gcm, NonceSource, Digests, UuidSource, WallClock, UuidText, Environment, IdOrder}.
Context `{HashOrder, CompletionOrder, OAuthTokenClient, UrlSafeBase64, SerdeJson, Chrono}.
Context `{UrlFragment} (hasher : ApiKeyTokenHasher).
Implicit Types w : Timed InMemoryStore.

(** C10: the tables stay consistent. Whatever calls a new store serves, of the methods
    for accounts, keys, configuration and snapshots and of those for OAuth tokens, every
    account is stored under its identifier and has a provider; credentials, profiles
    and model lists belong to accounts; states of the pool are well formed; every token
    entry leads to the key with its hash. While no OAuth method is called, an account
    that is to be purged is also disabled. Fresh identifiers are assumed to be distinct. *)
Theorem store_reachable_inv calls ops c t1 t2 t3 n :
  Inj (=) (=) uuid_v4 →
  wp (run_calls hasher calls) (λ _ w, store_inv w) (mkTimed (new_with_oauth c t1 t2 t3) n)
  ∧ wp (run_ops hasher ops) (λ _ w, strict_store_inv w) (mkTimed (new_with_oauth c t1 t2 t3) n).
Proof.
  intros. split; [by apply run_calls_inv|by apply run_ops_inv].
Qed.


(** C14: a probe follows the reply. A probe of an account that can be asked returns the
    verdict that [probe_verdict] gives on the reply of the provider and changes the
    account as the automaton of the pool says: active, in quarantine, or disabled and
    scheduled for purge (as when its token does not decrypt). It writes the account's
    own row, state, cache and plan and nothing else; an account that is unknown or
    cannot be asked leaves the whole store as it was. *)
Theorem probe_follows_reply i source m1 m2 m3 w :
  rev_ok (st w) →
  wp (probe_runtime_oauth_account_inner i source m1 m2 m3) (λ r w',
    match accounts (st w) !! i with
    | None => r = Err "account not found" ∧ w' = w
    | Some a =>
        let provider := default LegacyBearer (account_auth_providers (st w) !! i) in
        match build_live_rate_limit_token_source_inner a provider (oauth_credentials (st w) !! i)
                (session_profiles (st w) !! i) (utc (ticks w)) ≫= probe_token (st w) with
        | None => (∃ e, r = Err e) ∧ st w' = st w
        | Some token =>
            let t := utc (Datatypes.S (ticks w)) in
            let v := probe_of (Datatypes.S (Datatypes.S (ticks w))) t provider a token in
            r = Ok v.1 ∧ verdict_step i t a v w w'
        end
    end) w.
Proof. apply probe_spec. Qed.

(** C15: one account for each identity. Removing duplicates removes exactly the OAuth
    accounts that have a newer account of the same identity, from every table, and
    reports how many; of every identity with an account, one remains, and only one. *)
Theorem dedupe_keeps_newest account_user user account w :
  store_inv w →
  let target := identity_text account_user user account in
  wp (dedupe_oauth_accounts_by_identity_inner account_user user account) (λ n w',
    ∃ gone, NoDup gone ∧ n = Z.of_nat (length gone)
    ∧ (∀ i, i ∈ gone ↔ ∃ a, accounts (st w) !! i = Some a ∧ superseded (st w) target a)
    ∧ removed gone (st w) (st w')
    ∧ ∀ key a, of_identity (st w) target key a →
        ∃ b, of_identity (st w') target key b ∧ ∀ b', of_identity (st w') target key b' → b' = b) w.
Proof.
  intros Hw target. assert (Hk : keyed (st w)) by exact (si_keyed _ Hw).
  wp_use (dedupe_spec account_user user account w) as n w' (-> & Hr & _).
  exists (duplicate_ids (st w) target). split_and!; [by apply duplicate_ids_NoDup|done| |done|].
  - intros i. by apply duplicate_ids_elem.
  - intros key a. by apply one_account_remains.
Qed.

(** C12: a refresh follows the reply. When a refresh is due, a new token replaces the
    credential by one of the same family with the next version that decrypts to the
    new tokens, and disturbs no account; a refusal is recorded with its backoff, takes
    every account of the family out of the pool when the token had been used before or
    was revoked, and else the account alone when the refusal is final and it has no
    other token; every other account stays as it was. When no refresh is due, or the
    stored token cannot be read, credentials and accounts stay. *)
Theorem refresh_follows_reply i force a c w :
  store_inv w → account_auth_providers (st w) !! i = Some OAuthRefreshToken →
  accounts (st w) !! i = Some a → oauth_credentials (st w) !! i = Some c →
  wp (refresh_oauth_account_inner i force) (λ r w', refresh_outcome i force a c r w w') w.
Proof. apply refresh_spec. Qed.

(** C17: the job that refreshes all rate limits ends, after at most one turn per account,
    and counts as many accounts as it visited, each once: all of those that can be
    asked at any time, and only accounts of the store. *)
Theorem refresh_job_visits_each_account fuel i job w :
  store_inv w → Z.of_nat (size (accounts (st w))) ≤ u64_max →
  oauth_rate_limit_refresh_jobs (st w) !! i = Some job → job_status job = JobQueued →
  (size (accounts (st w)) < fuel)%nat →
  wp (run_oauth_rate_limit_refresh_job fuel i) (λ r w', r = Some (Ok tt) ∧ ∃ job' visited t,
    oauth_rate_limit_refresh_jobs (st w') !! i = Some job' ∧ job_status job' = JobCompleted
    ∧ job_finished_at job' = Some t ∧ visited_by (st w) (λ _, True) job' visited) w.
Proof. apply run_job_spec. Qed.

(** Round trip through the vault. A token that was queued is in one record, the one
    that had it before or a new one, and no other record changes; the request that the
    activation makes of the record has the token, the fallback token, the label, mode,
    base URL and switches of the request that was queued, with their defaults. A token
    that could not be sealed leaves the store as it was. *)
Theorem queued_token_comes_back `{!SealLaws} req k w :
  vault_ok (oauth_refresh_token_vault (st w)) → credential_cipher (st w) = Some k →
  valid_utf8 (imp_refresh_token req) = true →
  (∀ token, trimmed_non_empty (imp_fallback_access_token req) = Some token → valid_utf8 token = true) →
  let hash := refresh_token_sha256 (imp_refresh_token req) in
  let mode := resolve_oauth_import_mode (imp_mode req) (imp_source_type req) in
  wp (queue_oauth_refresh_token_inner req) (λ res w',
    match res with
    | Err _ => st w' = st w
    | Ok created => ∃ i r fallback,
        oauth_refresh_token_vault (st w') = <[i := r]> (oauth_refresh_token_vault (st w))
        ∧ (if created : bool then ∀ j r', oauth_refresh_token_vault (st w) !! j = Some r' → vr_refresh_token_sha256 r' ≠ hash
           else ∃ r', oauth_refresh_token_vault (st w) !! i = Some r' ∧ vr_refresh_token_sha256 r' = hash)
        ∧ decrypt k (vr_refresh_token_enc r) = Ok (imp_refresh_token req)
        ∧ match vr_fallback_access_token_enc r with
          | Some enc => ∃ token, decrypt k enc = Ok token ∧ fallback = Some token
          | None => fallback = None
          end
        ∧ vault_request r (imp_refresh_token req) fallback
          = mkImportOAuthRefreshTokenRequest (imp_label req)
              (normalize_upstream_account_base_url mode (imp_base_url req)) (imp_refresh_token req)
              (trimmed_non_empty (imp_fallback_access_token req)) (imp_fallback_token_expires_at req)
              (imp_chatgpt_account_id req) (Some mode) (Some (default true (imp_enabled req)))
              (Some (default 100 (imp_priority req))) (imp_chatgpt_plan_type req) (imp_source_type req)
    end) w.
Proof.
  intros Hv Hk Hu Hf hash mode. wp_use (queue_inner_spec req w) as [created|e] w' Hq; [|done].
  destruct Hq as (k' & i & now & t & enc & fallback & Hk' & Hs & Hfb & Hst & Hfind). simplify_option_eq.
  exists i, (queued_record req i now t enc fallback), (trimmed_non_empty (imp_fallback_access_token req)).
  split_and!; [by rewrite Hst| |by apply sealed_opens| |done].
  - destruct created; [|by apply hash_find_some]. intros j r'. by apply hash_find_none.
  - cbn [vr_fallback_access_token_enc queued_record]. destruct fallback as [text|].
    + destruct (trimmed_non_empty _) as [token|]; [|done]. exists token. split; [|done]. apply sealed_opens; auto.
    + by destruct (trimmed_non_empty _).
Qed.
End claims.

(** ** The client *)

Section client.
Context {W : Type} `{OutboundHttp W} `{OAuthDecoders, UrlSafeBase64, SerdeJson, Chrono} `{UrlParts}.

(** C36: a refresh token goes to the token endpoint only. Whatever holds of a network as
    long as it is given the form with the refresh token for the token endpoint, and
    requests for the name of a workspace with an access token that a reply issued, holds
    after a refresh: no other request is sent. *)
Theorem refresh_token_goes_to_issuer_only (self : OpenAiOAuthClient) (I : W → Prop) token base_url :
  tolerates I (λ req, req = token_request self token ∨ workspace_request base_url req) →
  through I (client_refresh_token self token base_url).
Proof. apply refresh_through. Qed.
End client.

Section composition.
Context `{Base64, Aes256Gcm, NonceSource, Digests, UuidSource, WallClock, UuidText, Environment, IdOrder}.
Context `{HashOrder, CompletionOrder, OutboundHttp nat, OAuthDecoders, UrlSafeBase64, SerdeJson, Chrono}.
Context `{UrlParts, UrlFragment} (self : OpenAiOAuthClient).
#[local] Existing Instance real_client.

(** C16: an outage takes no account out of the pool. With the real client, while the
    provider cannot be reached or answers every request with 429 or a server error, a
    refresh leaves every account enabled or disabled as it was and schedules none for
    purge, and changes no credential but the one it was to refresh. *)
Theorem outage_takes_no_account_out i force a c (w : Timed InMemoryStore) :
  down → store_inv w → account_auth_providers (st w) !! i = Some OAuthRefreshToken →
  accounts (st w) !! i = Some a → oauth_credentials (st w) !! i = Some c →
  wp (refresh_oauth_account_inner (H10 := real_client self) i force) (λ _ w',
    undisturbed (st w) (st w')
    ∧ ∀ j, j ≠ i → oauth_credentials (st w') !! j = oauth_credentials (st w) !! j) w.
Proof. apply refresh_in_outage. Qed.
End composition.

(** ** Witnesses *)

Module Witness.
#[local] Existing Instances list_order.

(** Tasks complete in the order of the list, no JSON parses, and the provider grants a
    new token for every token but one, which it says was used before. *)
#[local] Instance list_completion : CompletionOrder.
Proof. by refine {| completion A n l := l |}. Defined.
#[local] Instance no_base64 : UrlSafeBase64 := {| url_safe_no_pad_decode _ := None; url_safe_decode _ := None |}.
#[local] Instance no_json : SerdeJson := {| from_slice _ := None; Json.to_string _ := None |}.
#[local] Instance no_chrono : Chrono := {| from_timestamp _ := None; parse_from_rfc3339 _ := None |}.

Definition info (token : string) : OAuthTokenInfo :=
  mkOAuthTokenInfo "access" (token +:+ "+") 400000000000 None None None None None None (Some "acct") (Some "user")
    None None None None None None None None None.
#[local] Instance toy_client : OAuthTokenClient := {|
  refresh_token n token base_url :=
    if String.eqb token "used+" then Err (InvalidRefreshToken RefreshTokenReused "reused") else Ok (info token);
  fetch_workspace_name _ _ _ _ := Ok None;
  fetch_rate_limits _ _ _ _ := Ok [];
  fetch_usage _ _ _ _ := Ok OAuthUsageSnapshot_default;
|}.

Definition request (token : string) : ImportOAuthRefreshTokenRequest :=
  mkImportOAuthRefreshTokenRequest "label" "https://example" token (Some "fallback") None None None None None None None.

(** A store with an account for each token of a list. *)
Definition imported (tokens : list string) : Timed InMemoryStore :=
  (run_calls toy_hasher ((λ t, inr (ImportToken (request t))) <$> tokens)
     (mkTimed (new_with_oauth (Some toy_cipher) 0 0 0) 0)).2.

Lemma imported_inv tokens : store_inv (imported tokens).
Proof.
  pose proof counting_uuid_inj.
  exact (proj1 (wp_and _ _ (λ _ _, True) _ (run_calls_inv toy_hasher ((λ t, inr (ImportToken (request t))) <$> tokens)
    (Some toy_cipher) 0 0 0 0) I)).
Qed.

Lemma store_reachable_inv_witness :
  wp (run_calls toy_hasher [inr (ImportToken (request "a")); inl TakeSnapshot; inr DedupeAccounts])
    (λ _ w, store_inv w) (mkTimed (new_with_oauth (Some toy_cipher) 0 0 0) 0).
Proof.
  apply (store_reachable_inv toy_hasher [inr (ImportToken (request "a")); inl TakeSnapshot; inr DedupeAccounts] []
           (Some toy_cipher) 0 0 0 0). exact counting_uuid_inj.
Defined.

Definition one : Timed InMemoryStore := imported ["a"].
Definition one_id : Uuid := default 0%N (head (id_keys (accounts (st one)))).

Lemma probe_follows_reply_witness :
  wp (probe_runtime_oauth_account_inner one_id "s" "ok" "quota" "undecryptable") (λ r w', r = Ok ProbeOk) one.
Proof.
  eapply wp_mono.
  - eapply (wp_and _ _ (λ r _, r = Ok ProbeOk)).
    + apply (probe_follows_reply one_id "s" "ok" "quota" "undecryptable" one). apply (si_revision _ (imported_inv _)).
    + vm_compute. reflexivity.
  - cbn beta. by intros r w' [_ ?].
Defined.

(** Two accounts of the same user in the same workspace: the older goes. *)
Definition two : Timed InMemoryStore := imported ["a"; "b"].
Lemma dedupe_keeps_newest_witness :
  store_inv two ∧ wp (dedupe_oauth_accounts_by_identity_inner None None None) (λ n w',
    n = 1 ∧ size (accounts (st w')) = 1%nat) two.
Proof.
  split; [apply imported_inv|]. eapply wp_mono.
  - eapply (wp_and _ _ (λ n w', n = 1 ∧ size (accounts (st w')) = 1%nat)).
    + apply (dedupe_keeps_newest None None None two). apply imported_inv.
    + vm_compute. done.
  - cbn beta. by intros n w' [_ ?].
Defined.

(** A token that had been used before: the account is taken out of the pool. *)
Definition used : Timed InMemoryStore := imported ["used"].
Definition used_account : UpstreamAccount :=
  default (mkUpstreamAccount 0 "" OpenAiApiKey "" "" None false 0 0) (accounts (st used) !! one_id).
Definition used_credential : OAuthCredentialRecord :=
  default (mkOAuthCredentialRecord "" "" None "" "" 0 0 None None RefreshNever false None None 0 None)
    (oauth_credentials (st used) !! one_id).
Lemma refresh_follows_reply_witness :
  wp (refresh_oauth_account_inner one_id true) (λ r w', pending (st w') one_id ∧ disabled (st w') one_id) used.
Proof.
  eapply wp_mono.
  - apply (refresh_follows_reply one_id true used_account used_credential used); [apply imported_inv|..];
      vm_compute; reflexivity.
  - intros r w' Hr. unfold refresh_outcome in Hr. vm_compute (negb _) in Hr. vm_compute (refresh_secret _ _) in Hr.
    vm_compute (refresh_token _ _ _) in Hr. destruct Hr as (_ & _ & Hj). apply (Hj one_id).
    + exists used_credential. split; vm_compute; reflexivity.
    + exists used_account. vm_compute. reflexivity.
Defined.

Definition job_store : Timed InMemoryStore := (create_rate_limit_refresh_job two).2.
Definition job_id : Uuid := default 0%N (head (id_keys (oauth_rate_limit_refresh_jobs (st job_store)))).
Lemma job_store_inv : store_inv job_store.
Proof. exact (create_job_keeps two (imported_inv _)). Qed.
Lemma refresh_job_visits_each_account_witness :
  wp (run_oauth_rate_limit_refresh_job 3 job_id) (λ r w', r = Some (Ok tt)) job_store.
Proof.
  eapply wp_mono.
  - apply (refresh_job_visits_each_account 3 job_id
             (default (mkOAuthRateLimitRefreshJobSummary 0 JobFailed 0 0 0 0 None None 0 None [])
                (oauth_rate_limit_refresh_jobs (st job_store) !! job_id)) job_store).
    + exact job_store_inv.
    + vm_compute. discriminate.
    + vm_compute. reflexivity.
    + vm_compute. reflexivity.
    + vm_compute. lia.
  - cbn beta. by intros r w' [? _].
Defined.

Lemma queued_token_comes_back_witness :
  wp (queue_oauth_refresh_token_inner (request "q")) (λ res w', res = Ok true) one.
Proof.
  eapply wp_mono.
  - eapply (wp_and _ _ (λ res _, res = Ok true)).
    + apply (queued_token_comes_back (request "q") toy_cipher one).
      * vm_compute. apply vault_ok_empty.
      * vm_compute. reflexivity.
      * reflexivity.
      * intros token Ht. by injection Ht as <-.
    + vm_compute. reflexivity.
  - cbn beta. by intros res w' [_ ?].
Defined.

(** *** The client *)

#[local] Instance no_decoders : OAuthDecoders :=
  {| decode_token_response _ := None; decode_token_error _ := None; decode_rate_limit_status _ := None |}.
#[local] Instance path_parts : UrlParts := {| url_host _ := None; append_pairs _ u := u |}.

Definition client : OpenAiOAuthClient := from_parts "https://issuer/token" "https://issuer/authorize" (Some "id").

(** A network that keeps what it is given. *)
#[local] Instance recording : OutboundHttp (list HttpRequest) := {|
  Selection := unit;
  select_http_client := λ log, (Ok tt, log);
  http_send _ req := λ log, (Ok (mkHttpResponse 200 "{}"), log ++ [req]);
  mark_proxy_http_status _ _ := λ log, (tt, log);
  mark_proxy_transport_failure _ := λ log, (tt, log);
  http_utc_now := λ log, (0, log);
  status_display _ := "";
|}.

Lemma refresh_token_goes_to_issuer_only_witness :
  let allowed req := req = token_request client "secret" ∨ workspace_request None req in
  Forall allowed (client_refresh_token client "secret" None []).2.
Proof.
  intros allowed. apply (refresh_token_goes_to_issuer_only client (λ log, Forall allowed log) "secret" None); [|by constructor].
  split; try (intros; by intros log Hlog). intros sel req Hr log Hlog. cbn.
  apply list.Forall_app. split; [exact Hlog|]. apply list.Forall_singleton. exact Hr.
Defined.

(** One that is down. *)
#[local] Instance unavailable : OutboundHttp nat := {|
  Selection := unit;
  select_http_client := λ n, (Ok tt, n);
  http_send _ req := λ n, (Ok (mkHttpResponse 503 ""), n);
  mark_proxy_http_status _ _ := λ n, (tt, n);
  mark_proxy_transport_failure _ := λ n, (tt, n);
  http_utc_now := λ n, (0, n);
  status_display _ := "503 Service Unavailable";
|}.

Lemma outage_takes_no_account_out_witness :
  wp (refresh_oauth_account_inner (H10 := real_client client) one_id true) (λ _ w',
    undisturbed (st used) (st w')) used.
Proof.
  eapply wp_mono.
  - apply (outage_takes_no_account_out client one_id true used_account used_credential used).
    + intros sel req n resp [= <-]. reflexivity.
    + apply imported_inv.
    + vm_compute. reflexivity.
    + vm_compute. reflexivity.
    + vm_compute. reflexivity.
  - cbn beta. by intros r w' [? _].
Defined.

(** *** Behaviours that were found *)

(** A token for an account that waits for its purge is accepted and enables the account,
    which is purged all the same. *)
Definition doomed_then_upserted : Timed InMemoryStore :=
  (run_calls toy_hasher [inl (MarkPendingPurge one_id None); inr (UpsertToken (request "a"))] one).2.
Example upsert_does_not_save_account :
  ua_enabled <$> accounts (st doomed_then_upserted) !! one_id = Some true
  ∧ hs_pool_state (health_of one_id (st doomed_then_upserted)) = PendingPurge
  ∧ accounts (st (purge_pending_upstream_accounts_inner (mkTimed (st doomed_then_upserted) 1000)).2) !! one_id = None.
Proof. vm_compute. done. Qed.

(** The activation of a record that the provider refuses for a wrong client is retried
    without end: the text of the error has underscores where the test has spaces. *)
Example refused_client_is_retried now item :
  let message := client_error_display (UpstreamError UnauthorizedClient "status=400 message=no") in
  let code := classify_vault_activation_error_code message in
  code = "vault_activation_failed"
  ∧ vr_retryable (activation_failed_item now VaultQueued code message item) = true.
Proof. vm_compute. done. Qed.

(** So is a record whose refresh token does not decrypt. *)
Example undecryptable_record_is_retried now item :
  vr_retryable (activation_failed_item now VaultQueued "vault_decrypt_failed" "m" item) = true.
Proof. reflexivity. Qed.

(** A refresh that succeeds drops the fallback token of the account. *)
Example refresh_drops_fallback :
  let before := oauth_credentials (st one) !! one_id in
  let after := oauth_credentials (st (refresh_oauth_account_inner one_id true one).2) !! one_id in
  has_access_token_fallback <$> before = Some true ∧ has_access_token_fallback <$> after = Some false.
Proof. vm_compute. done. Qed.
End Witness.
