(* ===== verification/SqliteStore.v ===== *)
(** * The SQLite-backed store: [services/control-plane/src/store/sqlite_backed.rs]

    [SqliteBackedStore] is the in-memory store with its whole state kept as one
    JSON row of a SQLite table. A method runs the in-memory method and then writes
    the row again. The JSON codec and the outcome of the statement are parameters;
    the row is the text of its [state_json] column. Here a method runs without
    others in between; the interleavings of [persist_state] are in [SqlitePersist]. *)
From S2P Require Import Prelude RustStr CoreModel BuiltinTemplates Json Request RoutingCache ControlModel StoreDefs Secrets Credentials Store StoreConfig StoreSnapshot.

#[local] Open Scope string_scope.
#[local] Open Scope list_scope.
#[local] Open Scope Z_scope.

Definition normalize_sqlite_database_url (raw : string) : string :=
  let trimmed := trim raw in
  if is_empty trimmed then "sqlite://./codex-pool-personal.sqlite?mode=rwc"
  else if starts_with trimmed "sqlite:" then
    if contains trimmed "?" || String.eqb trimmed "sqlite::memory:" then trimmed
    else trimmed +:+ "?mode=rwc"
  else "sqlite://" +:+ trimmed +:+ "?mode=rwc".

Record SqlitePersistedStoreState := mkSqlitePersistedStoreState {
  ps_tenants : gmap Uuid Tenant;
  ps_api_keys : gmap Uuid ApiKey;
  ps_api_key_tokens : gmap string Uuid;
  ps_accounts : gmap Uuid UpstreamAccount;
  ps_account_auth_providers : gmap Uuid UpstreamAuthProvider;
  ps_oauth_credentials : gmap Uuid OAuthCredentialRecord;
  ps_oauth_refresh_token_vault : gmap Uuid OAuthRefreshTokenVaultRecord;
  ps_session_profiles : gmap Uuid SessionProfileRecord;
  ps_account_health_states : gmap Uuid UpstreamAccountHealthStateRecord;
  ps_account_model_support : gmap Uuid AccountModelSupportRecord;
  ps_oauth_rate_limit_caches : gmap Uuid OAuthRateLimitCacheRecord;
  ps_oauth_rate_limit_refresh_jobs : gmap Uuid OAuthRateLimitRefreshJobSummary;
  ps_outbound_proxy_pool_settings : OutboundProxyPoolSettings;
  ps_outbound_proxy_nodes : gmap Uuid OutboundProxyNode;
  ps_policies : gmap Uuid RoutingPolicy;
  ps_routing_profiles : gmap Uuid RoutingProfile;
  ps_model_routing_policies : gmap Uuid ModelRoutingPolicy;
  ps_model_routing_settings : ModelRoutingSettings;
  ps_claude_code_routing_settings : ClaudeCodeRoutingSettings;
  ps_upstream_error_learning_settings : AiErrorLearningSettings;
  ps_upstream_error_templates : list UpstreamErrorTemplateRecord;
  ps_builtin_error_template_overrides : list BuiltinErrorTemplateOverrideRecord;
  ps_routing_plan_versions : list RoutingPlanVersion;
  ps_revision : Z;
}.

(** [collect] into a [HashMap]: the last record of a key wins. *)
Definition collect_map {K V} `{Countable K} (l : list (K * V)) : gmap K V := list_to_map (reverse l).

Definition template_index (l : list UpstreamErrorTemplateRecord) : gmap string Uuid :=
  collect_map ((λ record, (uetr_fingerprint record, uetr_id record)) <$> l).
Definition template_table (l : list UpstreamErrorTemplateRecord) : gmap Uuid UpstreamErrorTemplateRecord :=
  collect_map ((λ record, (uetr_id record, record)) <$> l).
Definition override_table (l : list BuiltinErrorTemplateOverrideRecord) :
    gmap (BuiltinErrorTemplateKind * string) BuiltinErrorTemplateOverrideRecord :=
  collect_map ((λ record, (override_key record, record)) <$> l).

(** [serde_json] for the state. *)
Class StateCodec := {
  state_to_string : SqlitePersistedStoreState → option string;
  state_from_str : string → option SqlitePersistedStoreState;
}.

(** Whether the upsert of the row succeeds, by the number of the call. *)
Class SqliteDatabase := sqlite_executes : nat → bool.

Section sqlite.
Context `{Base64, Aes256Gcm, NonceSource, Digests, UuidSource, WallClock, UuidText, Environment, IdOrder}.
Context `{StateCodec, SqliteDatabase}.

(** The order of the overrides in the text is that of a [HashMap]; a reload maps
    them by their keys again, which are distinct. *)
Definition export_sqlite_state (s : InMemoryStore) : SqlitePersistedStoreState :=
  mkSqlitePersistedStoreState
    (tenants s) (api_keys s) (api_key_tokens s) (accounts s) (account_auth_providers s) (oauth_credentials s)
    (oauth_refresh_token_vault s) (session_profiles s) (account_health_states s) (account_model_support s)
    (oauth_rate_limit_caches s) (oauth_rate_limit_refresh_jobs s) (outbound_proxy_pool_settings s)
    (outbound_proxy_nodes s) (policies s) (routing_profiles s) (model_routing_policies s)
    (model_routing_settings s) (claude_code_routing_settings s) (upstream_error_learning_settings s)
    (id_values (upstream_error_templates s)) (map_to_list (builtin_error_template_overrides s)).*2
    (routing_plan_versions s) (revision s `max` 1).

Definition from_sqlite_state (p : SqlitePersistedStoreState) (credential_cipher : option CredentialCipher) :
    InMemoryStore :=
  mkInMemoryStore
    (ps_tenants p) (ps_api_keys p) (ps_api_key_tokens p) (ps_accounts p) (ps_account_auth_providers p)
    (ps_oauth_credentials p) (ps_oauth_refresh_token_vault p) (ps_session_profiles p)
    (ps_account_health_states p) (ps_account_model_support p) (ps_oauth_rate_limit_caches p)
    (ps_oauth_rate_limit_refresh_jobs p) (ps_outbound_proxy_pool_settings p) (ps_outbound_proxy_nodes p)
    (ps_policies p) (ps_routing_profiles p) (ps_model_routing_policies p) (ps_model_routing_settings p)
    (ps_claude_code_routing_settings p) (ps_upstream_error_learning_settings p)
    (template_table (ps_upstream_error_templates p)) (template_index (ps_upstream_error_templates p))
    (override_table (ps_builtin_error_template_overrides p)) (ps_routing_plan_versions p) None
    (ps_revision p `max` 1) credential_cipher.

Record SqliteBackedStore := mkSqliteBackedStore {
  inner : InMemoryStore;
  state_json : option string;
  revision_tx : Z;
  persist_generation : Z;
  persisted_generation : Z;
}.
#[global] Instance eta_SqliteBackedStore : Eta SqliteBackedStore := λ r,
  mkSqliteBackedStore (inner r) (state_json r) (revision_tx r) (persist_generation r) (persisted_generation r).

Abbreviation QM := (ST (Timed SqliteBackedStore)).

(** ** Opening *)

(** [load_state], given the row of the table. *)
Definition load_state (row : option string) : result (option SqlitePersistedStoreState) Error :=
  match row with
  | None => Ok None
  | Some text =>
      match state_from_str text with
      | Some state => Ok (Some state)
      | None => Err "failed to decode sqlite control-plane state payload"
      end
  end.

(** [connect_with_oauth], on a database that opens and has its table; [t1], [t2]
    and [t3] are the times of a new store's settings. *)
Definition connect_with_oauth (credential_cipher : option CredentialCipher) (t1 t2 t3 : DateTime)
    (row : option string) : result SqliteBackedStore Error :=
  match load_state row with
  | Err e => Err e
  | Ok state =>
      let inner := match state with
                   | Some state => from_sqlite_state state credential_cipher
                   | None => new_with_oauth credential_cipher t1 t2 t3
                   end in
      let initial_revision := revision inner `max` 1 in
      Ok (mkSqliteBackedStore inner row initial_revision initial_revision initial_revision)
  end.

(** ** Persistence *)

Definition current_revision : QM Z := gets (λ q, revision (inner q) `max` 1).

Definition mark_persist_pending : QM Z :=
  g ← gets persist_generation;
  _ ← modify (λ q, q <| persist_generation := u64_wrap (g + 1) |>);
  mret (g + 1).

(** [pending_generation <= persisted_generation], with the pending one. *)
Definition persist_pending : QM (option Z) :=
  pending_generation ← gets persist_generation;
  persisted ← gets persisted_generation;
  mret (if pending_generation <=? persisted then None else Some pending_generation).

(** The upsert. *)
Definition execute_upsert (text : string) : QM (result unit Error) := λ w,
  if sqlite_executes (ticks w)
  then (Ok tt, mkTimed ((st w) <| state_json := Some text |>) (S (ticks w)))
  else (Err "failed to persist sqlite control-plane state", mkTimed (st w) (S (ticks w))).

Definition persist_state : QM (result unit Error) :=
  first ← persist_pending;
  match first with
  | None => mret (Ok tt)
  | Some _ =>
      (* the lock is taken here *)
      second ← persist_pending;
      match second with
      | None => mret (Ok tt)
      | Some pending_generation =>
          persisted_state ← gets (λ q, export_sqlite_state (inner q));
          let persisted_revision := ps_revision persisted_state `max` 1 in
          match state_to_string persisted_state with
          | None => mret (Err "failed to encode sqlite control-plane state")
          | Some text =>
              _ ← utc_now;
              _ ←? execute_upsert text;
              _ ← modify (λ q, q <| persisted_generation := pending_generation |>);
              _ ← modify (λ q, q <| revision_tx := persisted_revision |>);
              mret (Ok tt)
          end
      end
  end.

Definition persist_state_after_write : QM (result unit Error) :=
  _ ← mark_persist_pending; persist_state.

Definition persist_if_revision_changed (before : Z) : QM (result unit Error) :=
  current ← current_revision;
  if negb (current =? before) then _ ← mark_persist_pending; persist_state
  else mret (Ok tt).

(** ** Methods *)

Definition on_inner {A} (m : ST (Timed InMemoryStore) A) : QM A :=
  zoom inner (λ s q, q <| inner := s |>) m.

(** Run a method of the in-memory store that can fail, then persist; an error of
    the method is returned at once. *)
Definition try_write {A} (m : ST (Timed InMemoryStore) (result A Error)) : QM (result A Error) :=
  a ←? on_inner m;
  _ ←? persist_state_after_write;
  mret (Ok a).
(** The same for a method that wraps its result in [Ok]. *)
Definition write {A} (m : ST (Timed InMemoryStore) A) : QM (result A Error) :=
  try_write (a ← m; mret (Ok a)).
End sqlite.

(** The methods of [impl ControlPlaneStore for SqliteBackedStore] over the modelled
    part of the in-memory store. *)
Section methods.
Context `{Base64, Aes256Gcm, NonceSource, Digests, UuidSource, WallClock, UuidText, Environment, IdOrder}.
Context `{StateCodec, SqliteDatabase, UrlFragment} (hasher : ApiKeyTokenHasher).

Abbreviation QM := (ST (Timed SqliteBackedStore)).

Definition sq_create_tenant (req : CreateTenantRequest) : QM (result Tenant Error) :=
  write (create_tenant_inner req).
Definition sq_create_api_key (req : CreateApiKeyRequest) : QM (result CreateApiKeyResponse Error) :=
  write (create_api_key_inner hasher req).
Definition sq_set_api_key_enabled (api_key_id : Uuid) (enabled : bool) : QM (result ApiKey Error) :=
  try_write (set_api_key_enabled_inner api_key_id enabled).
Definition sq_update_outbound_proxy_pool_settings (req : UpdateOutboundProxyPoolSettingsRequest) :
    QM (result OutboundProxyPoolSettings Error) :=
  write (update_outbound_proxy_pool_settings req).
Definition sq_create_outbound_proxy_node (req : CreateOutboundProxyNodeRequest) :
    QM (result OutboundProxyNode Error) :=
  write (create_outbound_proxy_node_inner req).
Definition sq_update_outbound_proxy_node (node_id : Uuid) (req : UpdateOutboundProxyNodeRequest) :
    QM (result OutboundProxyNode Error) :=
  try_write (update_outbound_proxy_node_inner node_id req).
Definition sq_delete_outbound_proxy_node (node_id : Uuid) : QM (result unit Error) :=
  try_write (delete_outbound_proxy_node_inner node_id).
Definition sq_record_outbound_proxy_test_result (node_id : Uuid) (last_test_status : option string)
    (last_latency_ms : option Z) (last_error : option string) (last_tested_at : option DateTime) :
    QM (result OutboundProxyNode Error) :=
  try_write (record_outbound_proxy_test_result_inner node_id last_test_status
    last_latency_ms last_error last_tested_at).
Definition sq_create_upstream_account (req : CreateUpstreamAccountRequest) :
    QM (result UpstreamAccount Error) :=
  write (create_upstream_account_inner req).
Definition sq_set_upstream_account_enabled (account_id : Uuid) (enabled : bool) :
    QM (result UpstreamAccount Error) :=
  try_write (set_upstream_account_enabled_inner account_id enabled).
Definition sq_delete_upstream_account (account_id : Uuid) : QM (result unit Error) :=
  try_write (delete_upstream_account_inner account_id).
Definition sq_upsert_routing_policy (req : UpsertRoutingPolicyRequest) : QM (result RoutingPolicy Error) :=
  write (upsert_routing_policy_inner req).
Definition sq_upsert_retry_policy (req : UpsertRetryPolicyRequest) : QM (result RoutingPolicy Error) :=
  write (upsert_retry_policy_inner req).
Definition sq_upsert_stream_retry_policy (req : UpsertStreamRetryPolicyRequest) :
    QM (result RoutingPolicy Error) :=
  write (upsert_stream_retry_policy_inner req).
Definition sq_upsert_routing_profile (req : UpsertRoutingProfileRequest) : QM (result RoutingProfile Error) :=
  try_write (upsert_routing_profile req).
Definition sq_delete_routing_profile (profile_id : Uuid) : QM (result unit Error) :=
  try_write (delete_routing_profile profile_id).
Definition sq_upsert_model_routing_policy (req : UpsertModelRoutingPolicyRequest) :
    QM (result ModelRoutingPolicy Error) :=
  try_write (upsert_model_routing_policy req).
Definition sq_delete_model_routing_policy (policy_id : Uuid) : QM (result unit Error) :=
  try_write (delete_model_routing_policy policy_id).
Definition sq_update_model_routing_settings (req : UpdateModelRoutingSettingsRequest) :
    QM (result ModelRoutingSettings Error) :=
  write (update_model_routing_settings req).
Definition sq_update_claude_code_routing_settings (req : UpdateClaudeCodeRoutingSettingsRequest) :
    QM (result ClaudeCodeRoutingSettings Error) :=
  write (update_claude_code_routing_settings req).
Definition sq_update_upstream_error_learning_settings (req : UpdateAiErrorLearningSettingsRequest) :
    QM (result AiErrorLearningSettings Error) :=
  write (update_upstream_error_learning_settings req).
Definition sq_save_upstream_error_template (template : UpstreamErrorTemplateRecord) :
    QM (result UpstreamErrorTemplateRecord Error) :=
  write (save_upstream_error_template template).
Definition sq_save_builtin_error_template_override (record : BuiltinErrorTemplateOverrideRecord) :
    QM (result BuiltinErrorTemplateOverrideRecord Error) :=
  write (save_builtin_error_template_override record).
Definition sq_delete_builtin_error_template_override (kind : BuiltinErrorTemplateKind) (code : string) :
    QM (result unit Error) :=
  write (delete_builtin_error_template_override kind code).
Definition sq_record_account_model_support (account_id : Uuid) (supported_models : list string) :
    QM (result unit Error) :=
  write (record_account_model_support account_id supported_models).
Definition sq_mark_upstream_account_pending_purge (account_id : Uuid) (reason : option string) :
    QM (result UpstreamAccount Error) :=
  try_write (mark_upstream_account_pending_purge_inner account_id reason).
Definition sq_set_oauth_family_enabled (account_id : Uuid) (enabled : bool) :
    QM (result OAuthFamilyActionResponse Error) :=
  try_write (set_oauth_family_enabled_inner account_id enabled).
Definition sq_record_upstream_account_live_result (account_id : Uuid) (reported_at : DateTime)
    (status : OAuthLiveResultStatus) (source : OAuthLiveResultSource) (status_code : option Z)
    (error_code error_message_preview : option string) :
    QM (result bool Error) :=
  try_write (record_upstream_account_live_result_inner account_id reported_at
    status source status_code error_code error_message_preview).

(** Methods that persist only when something changed. *)
Definition sq_list_upstream_accounts : QM (result (list UpstreamAccount) Error) :=
  before ← current_revision;
  items ← on_inner list_upstream_accounts_inner;
  _ ←? persist_if_revision_changed before;
  mret (Ok items).
Definition sq_purge_pending_upstream_accounts : QM (result Z Error) :=
  purged ←? on_inner purge_pending_upstream_accounts_inner;
  _ ←? (if 0 <? purged then persist_state_after_write else mret (Ok tt));
  mret (Ok purged).
Definition sq_recover_oauth_rate_limit_refresh_jobs : QM (result Z Error) :=
  recovered ← on_inner recover_oauth_rate_limit_refresh_jobs;
  _ ←? (if 0 <? recovered then persist_state_after_write else mret (Ok tt));
  mret (Ok recovered).
Definition sq_mark_account_seen_ok (account_id : Uuid) (seen_ok_at : DateTime) (min_write_interval_sec : Z) :
    QM (result bool Error) :=
  changed ← on_inner (mark_account_seen_ok_inner account_id seen_ok_at min_write_interval_sec);
  _ ←? (if changed : bool then persist_state_after_write else mret (Ok tt));
  mret (Ok changed).

(** Methods that do not persist. *)
Definition sq_validate_api_key (token : string) : QM (option ValidatedPrincipal) :=
  on_inner (validate_api_key_inner hasher token).
Definition sq_snapshot : QM (result DataPlaneSnapshot Error) := on_inner snapshot_inner.
Definition sq_data_plane_snapshot_events (after : Z) : QM (result DataPlaneSnapshotEventsResponse Error) :=
  current ← current_revision;
  if after <? current then mret (Err "cursor_gone")
  else events ← on_inner (data_plane_snapshot_events after); mret (Ok events).
End methods.
