(* ===== verification/SqliteFacts.v ===== *)
(** * Facts about the SQLite-backed store

    A predicate of the store that every operation keeps, what a reload of the
    exported state gives back, and what a successful write leaves in the database. *)
From S2P Require Import Prelude RustStr CoreModel BuiltinTemplates Json Request RoutingCache ControlModel StoreDefs Secrets Credentials Store StoreConfig StoreSnapshot Kept StoreFacts StorePurge StoreInv PublishFacts SqliteStore.

#[local] Open Scope string_scope.
#[local] Open Scope list_scope.
#[local] Open Scope Z_scope.

(** ** Keys of the template tables *)
Section catalog.
Context `{Base64, Aes256Gcm, NonceSource, Digests, UuidSource, WallClock, UuidText, Environment, IdOrder}.
Context `{UrlFragment} (hasher : ApiKeyTokenHasher).
Implicit Types (w : Timed InMemoryStore) (s : InMemoryStore).

(** Templates and overrides are filed under their own keys. *)
Definition catalog_keyed s : Prop :=
  (∀ i t, upstream_error_templates s !! i = Some t → uetr_id t = i)
  ∧ (∀ k r, builtin_error_template_overrides s !! k = Some r → override_key r = k).

(** A predicate of the store as one of the timed store. *)
Definition on_st (P : InMemoryStore → Prop) w : Prop := P (st w).

(** It depends on two tables. *)
Lemma catalog_frame s s' :
  upstream_error_templates s' = upstream_error_templates s →
  builtin_error_template_overrides s' = builtin_error_template_overrides s →
  catalog_keyed s → catalog_keyed s'.
Proof. unfold catalog_keyed. by intros -> ->. Qed.

Lemma forget_catalog l s : catalog_keyed s → catalog_keyed (fold_left forget_account l s).
Proof.
  revert s. induction l as [|i l IH]; intros s Hs; [done|]. apply IH. revert Hs.
  unfold forget_account. by apply catalog_frame; rproj.
Qed.
End catalog.

Ltac kept_catalog :=
  kept_with ltac:(let s := fresh in let n := fresh in intros s n;
                  first [done | by apply catalog_frame; rproj | apply forget_catalog]).

Section catalog_ops.
Context `{Base64, Aes256Gcm, NonceSource, Digests, UuidSource, WallClock, UuidText, Environment, IdOrder}.
Context `{UrlFragment} (hasher : ApiKeyTokenHasher).

Lemma save_template_catalog t : kept (on_st catalog_keyed) (save_upstream_error_template t).
Proof.
  kept_catalog. intros s n [Ht Hr]. split; rproj; [|done].
  intros i t' [[<- <-]|[_ ?]]%lookup_insert_Some; [done|by apply Ht].
Qed.
Lemma save_override_catalog r : kept (on_st catalog_keyed) (save_builtin_error_template_override r).
Proof.
  kept_catalog. intros s n [Ht Hr]. split; rproj; [done|].
  intros i t' [[<- <-]|[_ ?]]%lookup_insert_Some; [done|by apply Hr].
Qed.
Lemma delete_override_catalog k c : kept (on_st catalog_keyed) (delete_builtin_error_template_override k c).
Proof.
  kept_catalog. intros s n [Ht Hr]. split; rproj; [done|]. intros i t' [_ ?]%lookup_delete_Some. by apply Hr.
Qed.

Lemma purge_candidates_catalog n l : kept (on_st catalog_keyed) (purge_candidates n l).
Proof.
  revert n. induction l as [|i l IH]; intros n; cbn [purge_candidates]; [apply kept_ret|].
  apply kept_bind; [by kept_catalog|intros r]. apply IH.
Qed.
Lemma purge_catalog : kept (on_st catalog_keyed) purge_pending_upstream_accounts_inner.
Proof.
  unfold purge_pending_upstream_accounts_inner. apply kept_bind; [by kept_catalog|intros now].
  apply kept_bind; [by kept_catalog|intros l].
  apply kept_bind; [apply purge_candidates_catalog|intros m]. by kept_catalog.
Qed.

Lemma run_op_catalog op : kept (on_st catalog_keyed) (run_op hasher op).
Proof.
  destruct op; cbn [run_op]; try by kept_catalog.
  - unfold effect. apply kept_bind; [apply purge_catalog|intros ?; apply kept_ret].
  - unfold effect. apply kept_bind; [apply save_template_catalog|intros ?; apply kept_ret].
  - unfold effect. apply kept_bind; [apply save_override_catalog|intros ?; apply kept_ret].
  - unfold effect. apply kept_bind; [apply delete_override_catalog|intros ?; apply kept_ret].
Qed.
End catalog_ops.

(** ** Reloading an exported state *)

Lemma collect_map_values {K V} `{Countable K} (key : V → K) (m : gmap K V) l :
  (∀ k v, m !! k = Some v → key v = k) → (∀ v, v ∈ l ↔ ∃ k, m !! k = Some v) →
  collect_map ((λ v, (key v, v)) <$> l) = m.
Proof.
  intros Hkey Hl. apply map_eq. intros k. apply option_eq. intros v. unfold collect_map. split.
  - intros Hk. apply elem_of_list_to_map_2 in Hk. rewrite elem_of_reverse, list_elem_of_fmap in Hk.
    destruct Hk as (v' & [= -> ->] & Hv). apply Hl in Hv as [k' Hk']. by rewrite (Hkey k' v' Hk').
  - intros Hk. apply elem_of_list_to_map_1'.
    + intros v' Hv'. rewrite elem_of_reverse, list_elem_of_fmap in Hv'. destruct Hv' as (u & [= Hku ->] & Hu).
      apply Hl in Hu as [k' Hk']. rewrite (Hkey k' u Hk') in Hku. subst. congruence.
    + rewrite elem_of_reverse, list_elem_of_fmap. exists v. rewrite (Hkey k v Hk). split; [done|].
      apply Hl. by exists k.
Qed.

Section reload.
Context `{Base64, Aes256Gcm, NonceSource, Digests, UuidSource, WallClock, UuidText, Environment, IdOrder}.
Implicit Types (s : InMemoryStore).

(** The tables a reload restores. *)
Definition persistent s :=
  (accounts s, account_health_states s, tenants s, api_keys s, api_key_tokens s, account_auth_providers s,
   oauth_credentials s, oauth_refresh_token_vault s, session_profiles s, account_model_support s,
   oauth_rate_limit_caches s, oauth_rate_limit_refresh_jobs s, outbound_proxy_pool_settings s,
   outbound_proxy_nodes s, policies s, routing_profiles s, model_routing_policies s, model_routing_settings s,
   claude_code_routing_settings s, upstream_error_learning_settings s, upstream_error_templates s,
   builtin_error_template_overrides s, routing_plan_versions s).

(** The index of the templates by fingerprint, as far as a reload can know it. *)
Definition index_of (templates : gmap Uuid UpstreamErrorTemplateRecord) (index : gmap string Uuid) : Prop :=
  (∀ f i, index !! f = Some i → ∃ t, templates !! i = Some t ∧ uetr_fingerprint t = f)
  ∧ (∀ i t, templates !! i = Some t → is_Some (index !! uetr_fingerprint t)).

Lemma template_index_of s :
  catalog_keyed s → index_of (upstream_error_templates s) (template_index (id_values (upstream_error_templates s))).
Proof.
  intros [Hkey _]. unfold template_index, collect_map. split.
  - intros f i Hf. apply elem_of_list_to_map_2 in Hf. rewrite elem_of_reverse, list_elem_of_fmap in Hf.
    destruct Hf as (t & [= -> ->] & Ht). apply elem_of_id_values in Ht as [k Hk]. exists t.
    by rewrite (Hkey k t Hk).
  - intros i t Ht. apply not_eq_None_Some. intros Hn. apply not_elem_of_list_to_map_2 in Hn. apply Hn.
    rewrite fmap_reverse, elem_of_reverse, <- list_fmap_compose.
    apply (list_elem_of_fmap_2 uetr_fingerprint), elem_of_id_values. by exists i.
Qed.

Lemma reload_export s c :
  catalog_keyed s → let s' := from_sqlite_state (export_sqlite_state s) c in
  persistent s' = persistent s ∧ revision s' = revision s `max` 1 ∧ credential_cipher s' = c
  ∧ index_of (upstream_error_templates s') (upstream_error_template_index s').
Proof.
  intros Hc. cbn zeta.
  assert (Ht : template_table (id_values (upstream_error_templates s)) = upstream_error_templates s).
  { apply collect_map_values; [apply Hc|]. intros v. apply elem_of_id_values. }
  assert (Ho : override_table (map_to_list (builtin_error_template_overrides s)).*2
               = builtin_error_template_overrides s).
  { apply collect_map_values; [apply Hc|]. intros v. rewrite list_elem_of_fmap. split.
    - intros ([k r] & -> & Hk). exists k. by apply elem_of_map_to_list.
    - intros [k Hk]. exists (k, v). split; [done|]. by apply elem_of_map_to_list. }
  split_and!.
  - unfold persistent. cbn -[template_table override_table template_index]. by rewrite Ht, Ho.
  - cbn. lia.
  - done.
  - cbn -[template_table override_table template_index]. rewrite Ht. by apply template_index_of.
Qed.
End reload.

(** ** Persisting *)
Section persist.
Context `{Base64, Aes256Gcm, NonceSource, Digests, UuidSource, WallClock, UuidText, Environment, IdOrder}.
Context `{StateCodec, SqliteDatabase}.
Implicit Types (q : SqliteBackedStore).

(** The generations are ordered and do not wrap. *)
Definition gen_ok q : Prop := 0 <= persisted_generation q <= persist_generation q ∧ persist_generation q < u64_max.

(** The database holds the state in memory. *)
Definition saved q : Prop := ∃ text, state_json q = Some text ∧ state_to_string (export_sqlite_state (inner q)) = Some text.

Lemma persist_pending_spec (w : Timed SqliteBackedStore) :
  wp persist_pending (λ r w', w' = w ∧
    r = if persist_generation (st w) <=? persisted_generation (st w) then None
        else Some (persist_generation (st w))) w.
Proof. unfold persist_pending. by wp_go. Qed.

(** What a call of [persist_state] that finds a pending write leaves behind. *)
Definition persisted (w : Timed SqliteBackedStore) (r : result unit Error) (w' : Timed SqliteBackedStore) : Prop :=
  inner (st w') = inner (st w) ∧ persist_generation (st w') = persist_generation (st w)
  ∧ match r with
    | Ok _ => saved (st w') ∧ revision_tx (st w') = revision (inner (st w)) `max` 1
              ∧ persisted_generation (st w') = persist_generation (st w)
    | Err _ => state_json (st w') = state_json (st w) ∧ revision_tx (st w') = revision_tx (st w)
               ∧ persisted_generation (st w') = persisted_generation (st w)
    end.

Lemma persist_state_spec (w : Timed SqliteBackedStore) :
  persisted_generation (st w) < persist_generation (st w) → wp persist_state (persisted w) w.
Proof.
  intros Hlt. unfold persist_state, persisted.
  assert (Hc : (persist_generation (st w) <=? persisted_generation (st w)) = false) by (apply Z.leb_gt; lia).
  wp_step. wp_use persist_pending_spec as r w1 [-> ->]. rewrite Hc.
  wp_step. wp_use persist_pending_spec as r w1 [-> ->]. rewrite Hc.
  wp_step. wp_step. destruct (state_to_string _) as [text|] eqn:He; [|by wp_step].
  wp_step. wp_step. wp_step. apply wp_intro. intros r w1. unfold execute_upsert. cbn [st ticks].
  destruct (sqlite_executes _); intros [= <- <-]; [|by wp_go].
  wp_go. cbn. split_and!; try done; [|lia]. exists text. by split.
Qed.

Lemma persist_after_write_spec (w : Timed SqliteBackedStore) :
  gen_ok (st w) →
  wp persist_state_after_write (λ r w',
    persisted (mkTimed ((st w) <| persist_generation := persist_generation (st w) + 1 |>) (ticks w)) r w') w.
Proof.
  intros [Hg Hm]. unfold persist_state_after_write, mark_persist_pending.
  assert (Hw : u64_wrap (persist_generation (st w) + 1) = persist_generation (st w) + 1).
  { apply u64_wrap_small. unfold is_u64, u64_max, u64_modulus in *. lia. }
  do 6 wp_step. rewrite Hw. wp_use persist_state_spec; [cbn; lia|done].
Qed.

(** A write: the in-memory method runs, and on success the database holds the
    state it left. *)
Lemma try_write_spec {A} (m : ST (Timed InMemoryStore) (result A Error)) (w : Timed SqliteBackedStore)
    (Q : result A Error → Timed InMemoryStore → Prop) :
  gen_ok (st w) → wp m Q (mkTimed (inner (st w)) (ticks w)) →
  wp (try_write m) (λ r w',
    (∃ a w1, r = Ok a ∧ Q (Ok a) w1 ∧ inner (st w') = st w1 ∧ saved (st w')
       ∧ revision_tx (st w') = revision (st w1) `max` 1)
    ∨ (∃ e, r = Err e ∧ state_json (st w') = state_json (st w) ∧ revision_tx (st w') = revision_tx (st w))) w.
Proof.
  intros Hg Hm. unfold try_write, on_inner. wp_step. wp_step.
  wp_use Hm as r w1 Hq. destruct r as [a|e]; [|right; by exists e].
  wp_step. wp_use persist_after_write_spec as r w2 (Hi & Hgen & Hr); [done|].
  destruct r as [[]|e]; [wp_step; left; exists a, w1|right; exists e]; naive_solver.
Qed.
End persist.
