(* ===== verification/SqlitePersist.v ===== *)
(** * Concurrent writes of the SQLite-backed store

    Calls of [SqliteBackedStore] run on several threads. Each runs its in-memory
    method, which writes tables one lock at a time, counts itself in
    [persist_generation], and calls [persist_state]: two loads that may find the
    work done, a lock, the same loads again, the export of the tables, the upsert
    of the row and the store of [persisted_generation]. The model is a step
    relation in which these atomic actions of all calls interleave. A table is the
    list of the updates made to it; the row is one such list per table. An upsert
    may fail, and a call may be dropped at an await point. *)
From S2P Require Import Prelude.
From stdpp Require Import functions.

Section persist.
Context {Table Update : Type} `{EqDecision Table}.
(** The tables that [export_sqlite_state] reads, in its order. *)
Context (tables : list Table).

Abbreviation image := (Table → list Update).

(** Where a call is. *)
Inductive Pc :=
  | Running (todo : list (Table * Update))  (** the in-memory method, with the writes to come *)
  | FirstLoad                               (** counted; before the first load of the generation *)
  | FirstCheck (pending : nat)
  | Waiting                                 (** [persist_lock.lock().await] *)
  | SecondLoad
  | SecondCheck (pending : nat)
  | Exporting (pending : nat) (todo : list Table) (taken : image)
  | Upserting (pending : nat) (taken : image)
  | Storing (pending : nat)                 (** the row is written *)
  | Returned (ok : bool).

(** A call: the generation it was given and the writes it made, each with its
    position in its table. *)
Record Call := mkCall {
  pc : Pc;
  stamp : option nat;
  performed : list (Table * Update * nat);
}.

Record Sys := mkSys {
  memory : image;
  generation : nat;
  persisted : nat;
  holder : option nat;
  database : image;
  calls : gmap nat Call;
}.

Definition at_pc (s : Sys) (t : nat) (p : Pc) (c : Call) : Prop := calls s !! t = Some c ∧ pc c = p.
Definition goto (s : Sys) (t : nat) (c : Call) (p : Pc) : Sys :=
  mkSys (memory s) (generation s) (persisted s) (holder s) (database s)
    (<[t := mkCall p (stamp c) (performed c)]> (calls s)).
(** The same, giving the lock back. *)
Definition release (s : Sys) (t : nat) (c : Call) (p : Pc) : Sys :=
  mkSys (memory s) (generation s) (persisted s) None (database s)
    (<[t := mkCall p (stamp c) (performed c)]> (calls s)).

Inductive step (s : Sys) : Sys → Prop :=
  | step_start t todo :
      calls s !! t = None → Forall (λ w, w.1 ∈ tables) todo →
      step s (mkSys (memory s) (generation s) (persisted s) (holder s) (database s)
                (<[t := mkCall (Running todo) None []]> (calls s)))
  | step_write t c j u todo :
      at_pc s t (Running ((j, u) :: todo)) c →
      step s (mkSys (<[j := memory s j ++ [u]]> (memory s)) (generation s) (persisted s) (holder s) (database s)
                (<[t := mkCall (Running todo) (stamp c) ((j, u, length (memory s j)) :: performed c)]> (calls s)))
  (* the in-memory method returns an error *)
  | step_error t c todo : at_pc s t (Running todo) c → step s (goto s t c (Returned false))
  (* [mark_persist_pending] *)
  | step_mark t c :
      at_pc s t (Running []) c →
      step s (mkSys (memory s) (S (generation s)) (persisted s) (holder s) (database s)
                (<[t := mkCall FirstLoad (Some (S (generation s))) (performed c)]> (calls s)))
  | step_first_load t c : at_pc s t FirstLoad c → step s (goto s t c (FirstCheck (generation s)))
  | step_first_done t c g :
      at_pc s t (FirstCheck g) c → (g ≤ persisted s)%nat → step s (goto s t c (Returned true))
  | step_first_pending t c g :
      at_pc s t (FirstCheck g) c → (persisted s < g)%nat → step s (goto s t c Waiting)
  | step_dropped t c : at_pc s t Waiting c → step s (goto s t c (Returned false))
  | step_lock t c :
      at_pc s t Waiting c → holder s = None →
      step s (mkSys (memory s) (generation s) (persisted s) (Some t) (database s)
                (<[t := mkCall SecondLoad (stamp c) (performed c)]> (calls s)))
  | step_second_load t c : at_pc s t SecondLoad c → step s (goto s t c (SecondCheck (generation s)))
  | step_second_done t c g :
      at_pc s t (SecondCheck g) c → (g ≤ persisted s)%nat → step s (release s t c (Returned true))
  | step_second_pending t c g :
      at_pc s t (SecondCheck g) c → (persisted s < g)%nat →
      step s (goto s t c (Exporting g tables (λ _, [])))
  | step_export t c g j todo taken :
      at_pc s t (Exporting g (j :: todo) taken) c →
      step s (goto s t c (Exporting g todo (<[j := memory s j]> taken)))
  | step_encoded t c g taken :
      at_pc s t (Exporting g [] taken) c → step s (goto s t c (Upserting g taken))
  (* the upsert fails, or the call is dropped before it takes effect *)
  | step_upsert_fails t c g taken :
      at_pc s t (Upserting g taken) c → step s (release s t c (Returned false))
  | step_upsert t c g taken :
      at_pc s t (Upserting g taken) c →
      step s (mkSys (memory s) (generation s) (persisted s) (holder s) taken
                (<[t := mkCall (Storing g) (stamp c) (performed c)]> (calls s)))
  (* dropped after the row is written *)
  | step_late_drop t c g : at_pc s t (Storing g) c → step s (release s t c (Returned false))
  | step_store t c g :
      at_pc s t (Storing g) c →
      step s (mkSys (memory s) (generation s) g None (database s)
                (<[t := mkCall (Returned true) (stamp c) (performed c)]> (calls s))).

(** A store that was just opened: the row, if any, is what was loaded. *)
Definition opened (initial_revision : nat) : Sys :=
  mkSys (λ _, []) initial_revision initial_revision None (λ _, []) ∅.

Inductive reachable (n : nat) : Sys → Prop :=
  | reachable_opened : reachable n (opened n)
  | reachable_step s s' : reachable n s → step s s' → reachable n s'.

(** ** Invariant *)

(** The writes of the calls counted up to [g], to table [j], are in [l]. *)
Definition has_counted (s : Sys) (g : nat) (j : Table) (l : list Update) : Prop :=
  ∀ t c γ u p, calls s !! t = Some c → stamp c = Some γ → (γ ≤ g)%nat → (j, u, p) ∈ performed c →
    l !! p = Some u.

(** What was read of the tables that are not in [todo]. *)
Definition captured (s : Sys) (g : nat) (todo : list Table) (taken : image) : Prop :=
  ∀ j, j ∈ tables → j ∉ todo →
    taken j `prefix_of` memory s j ∧ database s j `prefix_of` taken j ∧ has_counted s g j (taken j).

Definition stamped_by (s : Sys) (c : Call) (g : nat) : Prop :=
  (∃ γ, stamp c = Some γ ∧ γ ≤ g)%nat ∧ (g ≤ generation s)%nat.

Definition pc_ok (s : Sys) (t : nat) (c : Call) : Prop :=
  match pc c with
  | Running todo => stamp c = None ∧ Forall (λ w, w.1 ∈ tables) todo
  | FirstLoad | Waiting => stamped_by s c (generation s)
  | FirstCheck g => stamped_by s c g
  | SecondLoad => holder s = Some t ∧ stamped_by s c (generation s)
  | SecondCheck g => holder s = Some t ∧ stamped_by s c g
  | Exporting g todo taken => holder s = Some t ∧ stamped_by s c g ∧ captured s g todo taken
  | Upserting g taken => holder s = Some t ∧ stamped_by s c g ∧ captured s g [] taken
  | Storing g => holder s = Some t ∧ stamped_by s c g ∧ ∀ j, j ∈ tables → has_counted s g j (database s j)
  | Returned true => ∀ j u p, (j, u, p) ∈ performed c → database s j !! p = Some u
  | Returned false => True
  end.

Record inv (s : Sys) : Prop := mkInv {
  i_gen : ∀ t c γ, calls s !! t = Some c → stamp c = Some γ → (γ ≤ generation s)%nat;
  i_mem : ∀ t c j u p, calls s !! t = Some c → (j, u, p) ∈ performed c → memory s j !! p = Some u ∧ j ∈ tables;
  i_persisted : ∀ j, j ∈ tables → has_counted s (persisted s) j (database s j);
  i_database : ∀ j, j ∈ tables → database s j `prefix_of` memory s j;
  i_pc : ∀ t c, calls s !! t = Some c → pc_ok s t c;
  i_le : (persisted s ≤ generation s)%nat;
}.

(** Call [t] moves to [c']; the others stay where they are. *)
Record moved (s s' : Sys) (t : nat) (c' : Call) : Prop := mkMoved {
  m_calls : calls s' = <[t := c']> (calls s);
  m_memory : ∀ j, memory s j `prefix_of` memory s' j;
  m_gen : (generation s ≤ generation s')%nat;
  m_database : ∀ j, j ∈ tables → database s j `prefix_of` database s' j;
  m_lock : ∀ t', t' ≠ t → holder s = Some t' → holder s' = Some t' ∧ database s' = database s;
  m_stamp : ∀ γ, stamp c' = Some γ → (γ ≤ generation s)%nat →
    ∃ c, calls s !! t = Some c ∧ stamp c = Some γ ∧ performed c = performed c';
}.

Lemma prefix_lookup (l k : list Update) p u : l `prefix_of` k → l !! p = Some u → k !! p = Some u.
Proof. intros [r ->]. apply lookup_app_l_Some. Qed.

Section moves.
Context {s s' : Sys} {t : nat} {c' : Call} (M : moved s s' t c').

Lemma moved_counted g j l : (g ≤ generation s)%nat → has_counted s g j l → has_counted s' g j l.
Proof using M.
  intros Hg Hl t' c γ u p Ht Hs Hle Hin. rewrite (m_calls _ _ _ _ M) in Ht.
  apply lookup_insert_Some in Ht as [[<- <-]|[_ Ht]]; [|by eapply Hl].
  destruct (m_stamp _ _ _ _ M γ Hs) as (c & Hc & Hsc & Hp); [lia|]. rewrite <- Hp in Hin. by eapply Hl.
Qed.

Lemma moved_captured g todo taken :
  (g ≤ generation s)%nat → database s' = database s → captured s g todo taken → captured s' g todo taken.
Proof using M.
  intros Hg Hdb Hc j Hj Hn. destruct (Hc j Hj Hn) as (H1 & H2 & H3). rewrite Hdb. split_and!; [|done|].
  - etrans; [done|apply (m_memory _ _ _ _ M)].
  - by apply moved_counted.
Qed.

Lemma moved_stamped c g : stamped_by s c g → stamped_by s' c g.
Proof using M. intros [? ?]. split; [done|]. pose proof (m_gen _ _ _ _ M). lia. Qed.
Lemma moved_latest c : stamped_by s c (generation s) → stamped_by s' c (generation s').
Proof using M. intros [(γ & ? & ?) ?]. pose proof (m_gen _ _ _ _ M). split; [exists γ; split; [done|lia]|lia]. Qed.

Lemma moved_others t' c : inv s → t' ≠ t → calls s !! t' = Some c → pc_ok s' t' c.
Proof using M.
  intros I Hne Ht. pose proof (i_pc _ I _ _ Ht) as Hpc. pose proof (m_lock _ _ _ _ M t' Hne) as Hl.
  unfold pc_ok in *. destruct (pc c) as [| | | | | | | | |[]] eqn:Hp; try done; eauto using moved_stamped, moved_latest.
  - destruct Hpc as [Hh ?]. destruct (Hl Hh). eauto using moved_latest.
  - destruct Hpc as [Hh ?]. destruct (Hl Hh). eauto using moved_stamped.
  - destruct Hpc as (Hh & Hs & Hc). destruct (Hl Hh). split_and!; eauto using moved_stamped.
    apply moved_captured; [by destruct Hs|done|done].
  - destruct Hpc as (Hh & Hs & Hc). destruct (Hl Hh). split_and!; eauto using moved_stamped.
    apply moved_captured; [by destruct Hs|done|done].
  - destruct Hpc as (Hh & Hs & Hc). destruct (Hl Hh) as [? ->]. split_and!; eauto using moved_stamped.
    intros j Hj. apply moved_counted; [by destruct Hs|by apply Hc].
  - intros j u p Hin. eapply prefix_lookup; [|by apply Hpc]. apply (m_database _ _ _ _ M).
    by destruct (i_mem _ I t' c j u p).
Qed.

(** The invariant after a move, from what is new about [t]. *)
Lemma moved_inv :
  inv s → (∀ γ, stamp c' = Some γ → (γ ≤ generation s')%nat) →
  (∀ j u p, (j, u, p) ∈ performed c' → memory s' j !! p = Some u ∧ j ∈ tables) →
  (∀ j, j ∈ tables → has_counted s' (persisted s') j (database s' j)) →
  (∀ j, j ∈ tables → database s' j `prefix_of` memory s' j) → (persisted s' ≤ generation s')%nat →
  pc_ok s' t c' → inv s'.
Proof using M.
  intros I Hg Hm Hp Hd Hle Hpc. split; try done.
  - intros t' c γ Ht. rewrite (m_calls _ _ _ _ M) in Ht.
    apply lookup_insert_Some in Ht as [[<- <-]|[_ Ht]]; [by apply Hg|].
    intros Hs. pose proof (i_gen _ I _ _ _ Ht Hs). pose proof (m_gen _ _ _ _ M). lia.
  - intros t' c j u p Ht. rewrite (m_calls _ _ _ _ M) in Ht.
    apply lookup_insert_Some in Ht as [[<- <-]|[_ Ht]]; [by apply Hm|].
    intros Hin. destruct (i_mem _ I _ _ _ _ _ Ht Hin) as [Hu Hj]. split; [|done].
    eapply prefix_lookup; [apply (m_memory _ _ _ _ M)|done].
  - intros t' c Ht. rewrite (m_calls _ _ _ _ M) in Ht.
    apply lookup_insert_Some in Ht as [[<- <-]|[Hne Ht]]; [done|]. by apply moved_others.
Qed.
End moves.

(** A move of the program counter alone, perhaps with the lock. *)
Definition same_data (s s' : Sys) : Prop :=
  memory s' = memory s ∧ generation s' = generation s ∧ persisted s' = persisted s ∧ database s' = database s.

Lemma pc_moved s s' t c p :
  same_data s s' → calls s !! t = Some c → calls s' = <[t := mkCall p (stamp c) (performed c)]> (calls s) →
  (∀ t', t' ≠ t → holder s = Some t' → holder s' = Some t') →
  moved s s' t (mkCall p (stamp c) (performed c)).
Proof. intros (Em & Eg & Ep & Ed) Ht Hc Hh. split; rewrite ?Em, ?Eg, ?Ed; naive_solver. Qed.

Lemma pc_move_inv s s' t c p :
  inv s → same_data s s' → calls s !! t = Some c →
  calls s' = <[t := mkCall p (stamp c) (performed c)]> (calls s) →
  (∀ t', t' ≠ t → holder s = Some t' → holder s' = Some t') →
  pc_ok s' t (mkCall p (stamp c) (performed c)) → inv s'.
Proof.
  intros I D Ht Hc Hh Hpc. pose proof (pc_moved s s' t c p D Ht Hc Hh) as M.
  destruct D as (Em & Eg & Ep & Ed). apply (moved_inv M I); try done; cbn [stamp performed].
  - intros γ Hs. rewrite Eg. by eapply i_gen.
  - intros j u q Hin. rewrite Em. by eapply i_mem.
  - intros j Hj. rewrite Ep, Ed. intros t' c1 γ u q Ht' Hs Hle' Hin. rewrite Hc in Ht'.
    apply lookup_insert_Some in Ht' as [[<- <-]|[_ Ht']]; by eapply (i_persisted _ I j Hj).
  - intros j Hj. rewrite Em, Ed. by apply i_database.
  - rewrite Ep, Eg. apply I.
Qed.

(** The lock stays with whoever else has it. *)
Lemma kept_lock (s : Sys) (t : nat) : ∀ t', t' ≠ t → holder s = Some t' → holder s = Some t'.
Proof. done. Qed.
Lemma own_lock (s s' : Sys) (t : nat) :
  holder s = Some t → ∀ t', t' ≠ t → holder s = Some t' → holder s' = Some t'.
Proof. congruence. Qed.

(** Starting, writing and counting. *)
Lemma start_inv s t todo :
  inv s → calls s !! t = None → Forall (λ w, w.1 ∈ tables) todo →
  inv (mkSys (memory s) (generation s) (persisted s) (holder s) (database s)
         (<[t := mkCall (Running todo) None []]> (calls s))).
Proof.
  intros I Ht Hall. assert (M : moved s (mkSys (memory s) (generation s) (persisted s) (holder s) (database s)
         (<[t := mkCall (Running todo) None []]> (calls s))) t (mkCall (Running todo) None [])) by (by split).
  apply (moved_inv M I); cbn; try done; [set_solver| |apply I|apply I].
  intros j Hj t' c γ u p Ht'. cbn in Ht'.
  apply lookup_insert_Some in Ht' as [[<- <-]|[_ Ht']]; [done|]. by eapply (i_persisted _ I j Hj).
Qed.

Lemma write_inv s t c j u todo :
  inv s → at_pc s t (Running ((j, u) :: todo)) c →
  inv (mkSys (<[j := memory s j ++ [u]]> (memory s)) (generation s) (persisted s) (holder s) (database s)
         (<[t := mkCall (Running todo) (stamp c) ((j, u, length (memory s j)) :: performed c)]> (calls s))).
Proof.
  intros I [Ht Hp]. pose proof (i_pc _ I _ _ Ht) as Hpc. unfold pc_ok in Hpc. rewrite Hp in Hpc.
  destruct Hpc as [Hs Hall]. apply list.Forall_cons in Hall as [Hj Hall]. cbn in Hj.
  assert (Hgrow : ∀ k, memory s k `prefix_of` <[j := memory s j ++ [u]]> (memory s) k).
  { intros k. destruct (decide (k = j)) as [->|]; [rewrite fn_lookup_insert; by apply prefix_app_r|].
    by rewrite fn_lookup_insert_ne. }
  match goal with |- inv ?s' => assert (M : moved s s' t (mkCall (Running todo) (stamp c)
    ((j, u, length (memory s j)) :: performed c))) by (split; cbn; try done; congruence) end.
  apply (moved_inv M I); cbn; try done.
  - congruence.
  - intros k v p [[= -> -> ->]|Hin]%elem_of_cons.
    + split; [|done]. rewrite fn_lookup_insert. by rewrite list_lookup_middle.
    + destruct (i_mem _ I _ _ _ _ _ Ht Hin). split; [|done]. eapply prefix_lookup; [apply Hgrow|done].
  - intros k Hk t' c1 γ v p Ht'. cbn in Ht'. apply lookup_insert_Some in Ht' as [[<- <-]|[_ Ht']]; [cbn; congruence|].
    by eapply (i_persisted _ I k Hk).
  - intros k Hk. etrans; [by apply i_database|done].
  - apply I.
Qed.

Lemma mark_inv s t c :
  inv s → at_pc s t (Running []) c →
  inv (mkSys (memory s) (S (generation s)) (persisted s) (holder s) (database s)
         (<[t := mkCall FirstLoad (Some (S (generation s))) (performed c)]> (calls s))).
Proof.
  intros I [Ht Hp]. match goal with |- inv ?s' => assert (M : moved s s' t
    (mkCall FirstLoad (Some (S (generation s))) (performed c))) end.
  { split; cbn; try done; [lia|]. intros γ [= <-] ?. lia. }
  apply (moved_inv M I); cbn; try done.
  - by intros γ [= <-].
  - intros j u p Hin. by eapply i_mem.
  - intros j Hj. apply (moved_counted M); [apply I|]. by apply (i_persisted _ I).
  - apply I.
  - pose proof (i_le _ I). lia.
  - split; cbn; [eexists; split; [done|lia]|lia].
Qed.

(** The export reads one more table. *)
Lemma export_captured s g j todo taken :
  inv s → captured s g (j :: todo) taken → captured s g todo (<[j := memory s j]> taken).
Proof.
  intros I Hc k Hk Hn. destruct (decide (k = j)) as [->|Hne].
  - rewrite fn_lookup_insert. split_and!; [done|by apply i_database|].
    intros t c γ u p Ht Hs _ Hin. by eapply i_mem.
  - rewrite fn_lookup_insert_ne by done. apply Hc; [done|set_solver].
Qed.

Lemma goto_captured s t c p g todo taken :
  calls s !! t = Some c → (g ≤ generation s)%nat → captured s g todo taken → captured (goto s t c p) g todo taken.
Proof. intros Ht Hg. eapply moved_captured; [by eapply pc_moved|done|done]. Qed.

(** The row is replaced by what was read. *)
Lemma upsert_inv s t c g taken :
  inv s → at_pc s t (Upserting g taken) c →
  inv (mkSys (memory s) (generation s) (persisted s) (holder s) taken
         (<[t := mkCall (Storing g) (stamp c) (performed c)]> (calls s))).
Proof.
  intros I [Ht Hp]. pose proof (i_pc _ I _ _ Ht) as Hpc. unfold pc_ok in Hpc. rewrite Hp in Hpc.
  destruct Hpc as (Hh & Hs & Hc).
  match goal with |- inv ?s' => assert (M : moved s s' t (mkCall (Storing g) (stamp c) (performed c))) end.
  { split; cbn; try done; [|congruence|eauto]. intros j Hj. apply Hc; [done|set_solver]. }
  assert (Hin : ∀ j, j ∈ tables → taken j `prefix_of` memory s j ∧ database s j `prefix_of` taken j
                  ∧ has_counted s g j (taken j)) by (intros j Hj; apply Hc; [done|set_solver]).
  apply (moved_inv M I); cbn; try done.
  - intros γ ?. by eapply i_gen.
  - intros j u p ?. by eapply i_mem.
  - intros j Hj. apply (moved_counted M); [apply I|]. intros t' c1 γ u p Ht' Hs' Hle Hu.
    eapply prefix_lookup; [by apply Hin|]. by eapply (i_persisted _ I j Hj).
  - intros j Hj. by apply Hin.
  - apply I.
  - split_and!; [done|by eapply (moved_stamped M)|]. intros j Hj.
    apply (moved_counted M); [apply Hs|]. by apply Hin.
Qed.

(** The generation of the row is published and the lock given back. *)
Lemma publish_inv s t c g :
  inv s → at_pc s t (Storing g) c →
  inv (mkSys (memory s) (generation s) g None (database s)
         (<[t := mkCall (Returned true) (stamp c) (performed c)]> (calls s))).
Proof.
  intros I [Ht Hp]. pose proof (i_pc _ I _ _ Ht) as Hpc. unfold pc_ok in Hpc. rewrite Hp in Hpc.
  destruct Hpc as (Hh & [(γ & Hγ & Hle) Hg] & Hc).
  match goal with |- inv ?s' => assert (M : moved s s' t (mkCall (Returned true) (stamp c) (performed c))) end.
  { split; cbn; try done; [congruence|eauto]. }
  apply (moved_inv M I); cbn; try done.
  - intros γ' ?. by eapply i_gen.
  - intros j u p ?. by eapply i_mem.
  - intros j Hj. by apply (moved_counted M), Hc.
  - apply I.
  - intros j u p Hin. destruct (i_mem _ I _ _ _ _ _ Ht Hin) as [_ Hj]. by eapply Hc.
Qed.

(** Every call counted up to [persisted] is in the row. *)
Lemma counted_returns s t c g :
  inv s → calls s !! t = Some c → stamped_by s c g → (g ≤ persisted s)%nat →
  ∀ j u p, (j, u, p) ∈ performed c → database s j !! p = Some u.
Proof.
  intros I Ht [(γ & Hγ & Hle) _] Hg j u p Hin. destruct (i_mem _ I _ _ _ _ _ Ht Hin) as [_ Hj].
  eapply (i_persisted _ I j Hj); eauto with lia.
Qed.

Lemma step_keeps_inv s s' : inv s → step s s' → inv s'.
Proof.
  intros I Hstep. destruct Hstep as [t todo Hn Hall|t c j u todo Ha|t c todo Ha|t c Ha|t c Ha|t c g Ha Hg|t c g Ha Hg
    |t c Ha|t c Ha Hh|t c Ha|t c g Ha Hg|t c g Ha Hg|t c g j todo taken Ha|t c g taken Ha|t c g taken Ha
    |t c g taken Ha|t c g Ha|t c g Ha].
  all: try first [by apply start_inv | by apply write_inv | by apply mark_inv | by eapply upsert_inv | by eapply publish_inv].
  all: destruct Ha as [Ht Hp]; pose proof (i_pc _ I _ _ Ht) as Hpc; unfold pc_ok in Hpc; rewrite Hp in Hpc.
  all: eapply pc_move_inv; [exact I|done|exact Ht|reflexivity| |]; try done.
  - intros j u p Hin. by eapply (counted_returns s t c g).
  - destruct Hpc as [(γ & ? & ?) ?]. split; cbn; [exists γ; split; [done|lia]|lia].
  - congruence.
  - destruct Hpc as [Hh _]. congruence.
  - destruct Hpc as [Hh Hs]. intros j u p Hin. by eapply (counted_returns s t c g).
  - destruct Hpc as [Hh Hs]. split_and!; [done|done|]. intros k Hk Hn. by destruct Hn.
  - destruct Hpc as (Hh & Hs & Hc). split_and!; [done|done|]. apply goto_captured; [done|apply Hs|].
    by apply export_captured.
  - destruct Hpc as (Hh & Hs & Hc). split_and!; [done|done|]. by apply goto_captured; [|apply Hs|].
  - destruct Hpc as (Hh & _). congruence.
  - destruct Hpc as (Hh & _). congruence.
Qed.

Lemma opened_inv n : inv (opened n).
Proof. split; cbn; intros *; rewrite ?lookup_empty; try done. Qed.

Lemma persist_reachable_inv n s : reachable n s → inv s.
Proof. induction 1; [apply opened_inv|by eapply step_keeps_inv]. Qed.

(** ** At rest *)

(** Every update of a table was made by a call. *)
Definition attributed (s : Sys) : Prop :=
  ∀ j p u, memory s j !! p = Some u → ∃ t c, calls s !! t = Some c ∧ (j, u, p) ∈ performed c.

Lemma move_attributed s s' t c c' :
  memory s' = memory s → calls s' = <[t := c']> (calls s) → calls s !! t = Some c → performed c' = performed c →
  attributed s → attributed s'.
Proof.
  intros Em Ec Ht Hp Hs j p u. rewrite Em, Ec. intros Hu. destruct (Hs j p u Hu) as (t' & c1 & Ht' & Hin).
  destruct (decide (t' = t)) as [->|Hne].
  - exists t, c'. rewrite lookup_insert_eq, Hp. split; [done|]. congruence.
  - exists t', c1. by rewrite lookup_insert_ne.
Qed.

Lemma write_attributed s t c j u todo :
  at_pc s t (Running ((j, u) :: todo)) c → attributed s →
  attributed (mkSys (<[j := memory s j ++ [u]]> (memory s)) (generation s) (persisted s) (holder s) (database s)
         (<[t := mkCall (Running todo) (stamp c) ((j, u, length (memory s j)) :: performed c)]> (calls s))).
Proof.
  intros [Ht Hp] Hs k p v. cbn. intros Hv.
  assert (Hold : memory s k !! p = Some v ∨ (k, v, p) = (j, u, length (memory s j))).
  { destruct (decide (k = j)) as [->|]; [|rewrite fn_lookup_insert_ne in Hv by done; by left].
    rewrite fn_lookup_insert in Hv. apply lookup_app_Some in Hv as [?|[Hle Hv]]; [by left|right].
    destruct (p - length (memory s j))%nat eqn:Hd; [|done]. cbn in Hv. injection Hv as <-.
    f_equal. lia. }
  destruct Hold as [Hm|[= -> -> ->]].
  - destruct (Hs k p v Hm) as (t' & c1 & Ht' & Hin). destruct (decide (t' = t)) as [->|].
    + eexists t, _. rewrite lookup_insert_eq. split; [done|]. cbn. set_solver.
    + exists t', c1. by rewrite lookup_insert_ne.
  - eexists t, _. rewrite lookup_insert_eq. split; [done|]. cbn. set_solver.
Qed.

Lemma step_attributed s s' : attributed s → step s s' → attributed s'.
Proof.
  intros Hs Hstep. destruct Hstep; try by apply write_attributed.
  { intros j p u Hu. destruct (Hs j p u Hu) as (t' & c & Ht' & Hin). exists t', c. split; [|done].
    cbn. rewrite lookup_insert_ne; [done|]. intros ->. congruence. }
  all: match goal with Ha : at_pc _ _ _ _ |- _ => destruct Ha as [Ht _] end.
  all: by eapply move_attributed; [..|exact Hs].
Qed.

Lemma reachable_attributed n s : reachable n s → attributed s.
Proof. induction 1; [by intros j p u|by eapply step_attributed]. Qed.

Lemma at_rest_saved n s j :
  reachable n s → (∀ t c, calls s !! t = Some c → pc c = Returned true) → j ∈ tables →
  database s j = memory s j.
Proof.
  intros Hr Hall Hj. pose proof (persist_reachable_inv n s Hr) as I. pose proof (i_database _ I j Hj) as [k Hk].
  destruct k as [|u k]; [by rewrite Hk, app_nil_r|exfalso].
  destruct (reachable_attributed n s Hr j (length (database s j)) u) as (t & c & Ht & Hin).
  { rewrite Hk. by apply list_lookup_middle. }
  pose proof (i_pc _ I t c Ht) as Hpc. unfold pc_ok in Hpc. rewrite (Hall t c Ht) in Hpc.
  apply Hpc, lookup_lt_Some in Hin. lia.
Qed.

Lemma returned_saved n s t c j u p :
  reachable n s → calls s !! t = Some c → pc c = Returned true → (j, u, p) ∈ performed c →
  database s j !! p = Some u.
Proof.
  intros Hr Ht Hp Hin. pose proof (i_pc _ (persist_reachable_inv n s Hr) t c Ht) as Hpc. unfold pc_ok in Hpc.
  rewrite Hp in Hpc. by apply Hpc.
Qed.
End persist.
