(* ===== verification/PersonalSync.v ===== *)
(** * The single binary: [services/control-plane/src/single_binary.rs]

    [merge_personal_single_binary_app] runs the data plane in the process of the
    SQLite-backed store: it applies the store's snapshot once and then, in a task,
    after every revision the store announces. A turn of the task is one pass of its
    loop, after [changed()] returned. *)
From S2P Require Import Prelude RustStr CoreModel Router RouterFacts RouterInv RouterStep OutboundProxy OutboundProxyFacts RoutingCache Snapshot SnapshotFacts.
From S2P Require Import ControlModel StoreDefs Secrets Credentials Store StoreConfig StoreSnapshot Kept StoreFacts StorePurge StoreInv PublishFacts SqliteStore.

#[local] Open Scope string_scope.
#[local] Open Scope list_scope.
#[local] Open Scope Z_scope.

Section personal.
Context `{Base64, Aes256Gcm, NonceSource, Digests, UuidSource, WallClock, UuidText, Environment, IdOrder}.
Context `{Clock}.

Record Personal := mkPersonal {
  sqlite_store : SqliteBackedStore;
  data_plane_state : AppState;
  last_revision : Z;
}.
#[global] Instance eta_Personal : Eta Personal := λ r,
  mkPersonal (sqlite_store r) (data_plane_state r) (last_revision r).

Abbreviation PM := (ST (Timed Personal)).

Definition on_store {A} (m : ST (Timed SqliteBackedStore) A) : PM A :=
  zoom sqlite_store (λ q p, p <| sqlite_store := q |>) m.
Definition on_state {A} (m : ST (Timed AppState) A) : PM A :=
  zoom data_plane_state (λ a p, p <| data_plane_state := a |>) m.

(** The setup: the first snapshot, and the revision the task starts from. *)
Definition sync_start : PM (result unit Error) :=
  initial_snapshot ←? on_store sq_snapshot;
  _ ← on_state (apply_snapshot initial_snapshot);
  revision ← gets (λ p, revision_tx (sqlite_store p));
  _ ← modify (λ p, p <| last_revision := revision |>);
  mret (Ok tt).

(** One pass of the loop; an error of [snapshot] is logged. *)
Definition sync_turn : PM unit :=
  revision ← gets (λ p, revision_tx (sqlite_store p));
  last ← gets last_revision;
  if revision <=? last then mret tt
  else
    _ ← modify (λ p, p <| last_revision := revision |>);
    r ← on_store sq_snapshot;
    match r with
    | Ok snapshot => on_state (apply_snapshot snapshot)
    | Err _ => mret tt
    end.

(** ** Facts *)

Implicit Types (w : Timed Personal).
Definition store_view w : Timed InMemoryStore := mkTimed (inner (sqlite_store (st w))) (ticks w).
Definition state_view w : Timed AppState := mkTimed (data_plane_state (st w)) (ticks w).

(** The data plane runs with what the store publishes. *)
Definition in_sync w : Prop :=
  ∃ snap now, snapshot_of now (inner (sqlite_store (st w))) snap
  ∧ config_of (data_plane_state (st w)) = config_snapshot snap
  ∧ snapshot_revision (data_plane_state (st w)) = revision (inner (sqlite_store (st w))) `max` 1.

Lemma snapshot_later n : kept (λ w : Timed InMemoryStore, n ≤ ticks w)%nat snapshot_inner.
Proof. kept_with ltac:(intros s k ?; cbn in *; lia). Qed.

(** A snapshot of a store that moved on is installed. *)
Lemma apply_published now s snap w :
  snapshot_of now s snap → router_inv 0 (router_view (state_view w)) →
  snapshot_revision (data_plane_state (st w)) < revision s →
  wp (on_state (apply_snapshot snap)) (λ _ w',
    sqlite_store (st w') = sqlite_store (st w) ∧ last_revision (st w') = last_revision (st w)
    ∧ config_of (data_plane_state (st w')) = config_snapshot snap
    ∧ snapshot_revision (data_plane_state (st w')) = revision s `max` 1) w.
Proof.
  intros Hsnap Hr Hold. destruct (so_revision _ _ _ Hsnap) as [Hrev _]. unfold on_state. wp_step.
  wp_use apply_snapshot_spec as ? w' (Hcfg & _ & Hsr & _).
  - unfold is_stale. cbn [st]. rewrite Hrev. apply orb_false_iff. split; [apply Z.ltb_ge; lia|].
    apply andb_false_iff. left. apply Z.eqb_neq. lia.
  - apply (so_distinct _ _ _ Hsnap).
  - exact Hr.
  - cbn. split_and!; try done. by rewrite Hsr.
Qed.

Lemma sync_turn_spec w :
  store_inv (store_view w) → router_inv 0 (router_view (state_view w)) →
  last_revision (st w) < revision_tx (sqlite_store (st w)) →
  snapshot_revision (data_plane_state (st w)) < revision (inner (sqlite_store (st w))) →
  revision (inner (sqlite_store (st w))) + 2 <= u64_max →
  wp sync_turn (λ _ w', in_sync w' ∧ last_revision (st w') = revision_tx (sqlite_store (st w'))) w.
Proof.
  intros Hs Hr Hlast Hold Hmax. unfold sync_turn. do 4 wp_step.
  destruct (Z.leb_spec (revision_tx (sqlite_store (st w))) (last_revision (st w))) as [?|_]; [lia|].
  do 3 wp_step. unfold on_store, sq_snapshot, on_inner. wp_step. wp_step.
  assert (Hk : (ticks (store_view w) ≤ ticks (store_view w))%nat) by done.
  wp_use (wp_and _ _ _ _ (snapshot_spec _ Hs) (snapshot_later _ _ Hk)) as r w1 [(snap & now & -> & Hsnap & k & Hb & Hrev) Ht].
  assert (Hrev' : revision (st w1) = revision (inner (sqlite_store (st w))) + k).
  { rewrite Hrev. apply u64_wrap_small. pose proof (si_revision _ Hs) as Hok. unfold rev_ok, is_u64 in *.
    cbn [store_view st] in *. unfold u64_max, u64_modulus in *. lia. }
  wp_use (apply_published now (st w1) snap) as ? w2 (Es & El & Hcfg & Hsr).
  - done.
  - eapply inv_later; [exact Hr|exact Ht].
  - cbn. lia.
  - split; [|by rewrite El, Es]. exists snap, now. by rewrite Es.
Qed.
End personal.
