(* ===== verification/StoreTheorems.v ===== *)
(** * Properties of the control plane's store

    What the store promises to its callers and to the data planes that read its
    snapshots, with an example run for each property that has hypotheses. *)
From S2P Require Import Prelude RustStr CoreModel BuiltinTemplates Json Request RoutingCache ControlModel StoreDefs Secrets Credentials Store StoreConfig StoreSnapshot Kept StoreFacts StorePurge StoreInv PublishFacts Instances.

#[local] Open Scope string_scope.
#[local] Open Scope list_scope.
#[local] Open Scope Z_scope.

Section claims.
Context `{Base64, Aes256Gcm, NonceSource, Digests, UuidSource, WallClock, UuidText, Environment, IdOrder}.
Context `{UrlFragment} (hasher : ApiKeyTokenHasher).
Implicit Types (w : Timed InMemoryStore) (s : InMemoryStore).

(** C11: refinement. A live result drives the account's state as the automaton
    [live_outcome] says, a pure function of the provider, the report, the account and
    its state: it is recorded, the account is activated, put in quarantine, scheduled
    for purge and disabled, or left, no other account and no other table changes, and
    the revision moves by the number the automaton gives; a report for an unknown
    account is refused and changes nothing. *)
Theorem live_result_follows_automaton i t status source status_code error_code message w :
  rev_ok (st w) →
  wp (record_upstream_account_live_result_inner i t status source status_code error_code message) (λ r w',
    match accounts (st w) !! i with
    | None => r = Err "upstream account not found" ∧ w' = w
    | Some a =>
        let o := live_outcome (default LegacyBearer (account_auth_providers (st w) !! i)) t (utc (ticks w))
                   status source status_code error_code message a (health_of i (st w)) in
        r = Ok (effect_accepted o.1.1)
        ∧ accounts (st w') = <[i := o.1.2]> (accounts (st w))
        ∧ account_health_states (st w') = <[i := o.2]> (account_health_states (st w))
        ∧ rest (st w') = rest (st w)
        ∧ revision (st w') = u64_wrap (revision (st w) + effect_bumps o.1.1)
    end) w.
Proof.
  intros Hr. wp_use (live_result_spec _ _ _ _ _ _ _ _ Hr) as r w' Hl.
  destruct (accounts (st w) !! i); [|done]. destruct Hl as (? & A & S & T & R & _). by split_and!.
Qed.

(** Reports of an invalidated token escalate. Within the window that the first
    one opens, each report below the provider's threshold puts the account in
    quarantine for thirty minutes and leaves its switch as it was; the report that
    reaches the threshold, and every later one, schedules it for purge and disables it. *)
Theorem invalidated_tokens_escalate i a t0 ts w :
  rev_ok (st w) → accounts (st w) !! i = Some a →
  hs_token_invalidated_first_at (health_of i (st w)) = None →
  1 + Z.of_nat (length ts) <= u32_max →
  Forall (λ t, t <= t0 + from_secs token_invalidated_purge_window_sec_from_env) ts →
  wp (invalidated_reports i (t0 :: ts))
    (λ _ w', struck_state i (default LegacyBearer (account_auth_providers (st w) !! i))
               (1 + Z.of_nat (length ts)) t0 (List.last ts t0) (ua_enabled a) (st w')) w.
Proof. apply invalidated_tokens_escalate_aux. Qed.


(** C19: a snapshot is the store. Taking one always succeeds. It carries the store's
    revision as its cursor, exactly the accounts whose state is active, each once and
    as [publish_account] shows it, traits for exactly these accounts, exactly the
    approved templates, the proxy nodes and the settings of the store; and every
    segment of its routing plan names at least one account, all of them of the snapshot. *)
Theorem snapshot_publishes_store w :
  store_inv w →
  wp snapshot_inner (λ r w', ∃ snap now, r = Ok snap ∧ snapshot_of now (st w') snap ∧ store_inv w') w.
Proof.
  intros Hw. wp_use (wp_and _ _ _ _ (snapshot_spec w Hw) (snapshot_keeps w Hw))
    as r w' [(snap & now & -> & Hs & _) Hi]. by exists snap, now.
Qed.

(** C21: an account with a managed token is published with no token or with one that
    was decrypted from its own credential, and enabled only when it has one, its
    switch is on, the access token is good for the required time or the fallback is
    usable, a refresh that failed for good is covered by the fallback, and no rate
    limit blocks it. *)
Theorem managed_token_published_safely s now a :
  account_auth_providers s !! ua_id a = Some OAuthRefreshToken →
  let published := publish_account s now a in
  (ua_bearer_token published = "" ∨
   ∃ credential c text, oauth_credentials s !! ua_id a = Some credential ∧ credential_cipher s = Some c
     ∧ (text = ocr_access_token_enc credential ∨ Some text = ocr_fallback_access_token_enc credential)
     ∧ decrypt c text = Ok (ua_bearer_token published))
  ∧ (ua_enabled published = true →
     ∃ credential c, oauth_credentials s !! ua_id a = Some credential ∧ credential_cipher s = Some c
       ∧ runtime_token c credential now = Some (ua_bearer_token published) ∧ ua_enabled a = true
       ∧ let fallback := has_usable_access_token_fallback (has_access_token_fallback credential)
                           (ocr_fallback_token_expires_at credential) now in
         let cache := default OAuthRateLimitCacheRecord_default (oauth_rate_limit_caches s !! ua_id a) in
         (min_valid now < ocr_token_expires_at credential ∨ fallback = true)
         ∧ (refresh_credential_is_terminal_invalid (ocr_last_refresh_status credential)
              (ocr_refresh_reused_detected credential) (ocr_last_refresh_error_code credential) = true →
            fallback = true)
         ∧ has_active_rate_limit_block now (rlc_expires_at cache) (rlc_last_error_code cache)
             (rlc_last_error cache) = false).
Proof.
  intros Hp published. split; [by apply publish_token|]. intros He.
  destruct (publish_enabled s now a Hp He) as (credential & c & token & Hc & Hk & Ht & Htok & Hen).
  apply credential_enabled_true in Hen as (Ha & Hv & Hterm & Hblock).
  exists credential, c. subst published. rewrite Htok. by split_and!.
Qed.

(** C29: equivalence of the compiled plan with [model_route]. A model has an entry in
    the plan exactly when the reference finds a policy for it, the first enabled one
    that serves it and has accounts, else the default policy for a known model; the
    entry is that policy's, no model has two, and the default route is the default
    policy's segments. *)
Theorem compiled_plan_routes_each_model cps account_traits sources :
  let '(default_route, policies) := compile_policies cps account_traits sources in
  (∀ m cp, cp ∈ policies ∧ m ∈ cmrp_exact_models cp ↔
     ∃ p, model_route cps account_traits sources m = Some p ∧ cp = route_of cps p m)
  ∧ NoDup (policies ≫= cmrp_exact_models)
  ∧ default_route = from_option (fallback_segments cps) [] (List.find is_default_policy sources).
Proof.
  pose proof (compile_policies_spec cps account_traits sources) as (C1 & C2 & C3).
  destruct (compile_policies cps account_traits sources) as [d policies]. cbn [fst snd] in *.
  split_and!; [|done|done]. intros m cp. rewrite C1. split.
  - intros [(m' & p & Hr & ->) Hm]. cbn in Hm. assert (m = m') as -> by set_solver. by exists p.
  - intros (p & Hr & ->). split; [by exists m, p|]. cbn. set_solver.
Qed.

(** Round trip. A key that was created validates: its plaintext token is accepted
    for its tenant and key and reported enabled; switching the key changes only the
    reported switch; and every token with another hash is answered as before. *)
Theorem created_key_validates req w :
  Inj (=) (=) uuid_v4 → store_inv w →
  wp (create_api_key_inner hasher req) (λ r w1,
    let key := ckresp_record r in
    let check token w := (validate_api_key_inner hasher token w).1 in
    let principal b := mkValidatedPrincipal (ckr_tenant_id req) (ak_id key) 0%N "default" false b [] []
                         (Some "active") None None in
    check (ckresp_plaintext_key r) w1 = Some (principal true)
    ∧ (∀ b, wp (set_api_key_enabled_inner (ak_id key) b)
              (λ r' w2, is_ok r' = true ∧ check (ckresp_plaintext_key r) w2 = Some (principal b)) w1)
    ∧ ∀ token, hash_api_key_token hasher token ≠ hash_api_key_token hasher (ckresp_plaintext_key r) →
        check token w1 = check token w) w.
Proof.
  intros Huuid Hw. unfold create_api_key_inner. wp_go. cbn [ckresp_record ckresp_plaintext_key ak_id st ticks].
  set (i := uuid_v4 (S (ticks w))). set (token := "cp_" +:+ uuid_simple (uuid_v4 (ticks w))).
  unfold validate_api_key_inner. split_and!.
  - unfold mbind, st_bind, gets. rproj. rewrite lookup_insert_eq. rproj. by rewrite lookup_insert_eq.
  - intros b. unfold set_api_key_enabled_inner. do 2 wp_step. rproj. rewrite lookup_insert_eq. wp_go. split; [done|].
    unfold mbind, st_bind, gets. rproj. rewrite lookup_insert_eq. rproj. by rewrite lookup_insert_eq.
  - intros other Hne. unfold mbind, st_bind, gets. rproj. rewrite lookup_insert_ne by congruence.
    destruct (api_key_tokens (st w) !! hash_api_key_token hasher other) as [k|] eqn:Hk; [|done]. rproj.
    rewrite lookup_insert_ne; [done|]. intros <-.
    destruct (si_tokens _ Hw _ _ Hk) as (key & Hkey & _).
    destruct (si_keys _ Hw _ _ Hkey) as [_ (n & Hn & He)]. apply (inj uuid_v4) in He. lia.
Qed.

(** A call succeeds exactly when [present], and one that fails leaves the store as it was. *)
Definition answers {A} (present : Prop) (m : ST (Timed InMemoryStore) (result A Error)) w : Prop :=
  wp m (λ r w', (is_ok r = true ↔ present) ∧ (is_ok r = false → st w' = st w)) w.

Definition always_ok {A} (m : ST (Timed InMemoryStore) (result A Error)) : Prop :=
  ∀ w, wp m (λ r _, is_ok r = true) w.

Lemma always_bind {A B} (m : ST (Timed InMemoryStore) B) (k : B → ST (Timed InMemoryStore) (result A Error)) :
  (∀ b, always_ok (k b)) → always_ok (m ≫= k).
Proof. intros Hk w. wp_step. apply wp_intro. intros b w' _. apply Hk. Qed.
Lemma always_ret {A} (a : A) : always_ok (mret (Ok a)).
Proof. intros w. by wp_step. Qed.

Lemma answers_bool {A} (present : Prop) (m : ST (Timed InMemoryStore) (result A Error)) w :
  (present → wp m (λ r _, is_ok r = true) w) → (¬ present → ∃ e w', m w = (Err e, w') ∧ st w' = st w) →
  Decision present → answers present m w.
Proof.
  intros Hy Hn [Hp|Hp]; unfold answers.
  - wp_use (Hy Hp) as r w' Hr. rewrite Hr. by split.
  - destruct (Hn Hp) as (e & w' & Hm & Hs). apply wp_intro. rewrite Hm. intros r v [= <- <-]. by split.
Qed.

(** The shape of a method that looks an entry up. *)
Lemma answers_lookup {A V} (f : InMemoryStore → gmap Uuid V) i e
    (k : V → ST (Timed InMemoryStore) (result A Error)) w :
  (∀ v, always_ok (k v)) →
  answers (is_Some (f (st w) !! i))
    (x ← gets f; match x !! i with None => mret (Err e) | Some v => k v end) w.
Proof.
  intros Hk. apply answers_bool; [| |apply _].
  - intros [v Hv]. do 2 wp_step. rewrite Hv. apply Hk.
  - intros Hv%eq_None_not_Some. exists e, w. unfold mbind, st_bind, gets. by rewrite Hv.
Qed.

Ltac always := repeat first [apply always_ret | apply always_bind; intros ?].

Lemma set_family_answers i b w :
  answers (account_auth_providers (st w) !! i = Some OAuthRefreshToken
           ∧ is_Some (oauth_credentials (st w) !! i)) (set_oauth_family_enabled_inner i b) w.
Proof.
  unfold set_oauth_family_enabled_inner, account_auth_provider. apply answers_bool; [| |apply _].
  - intros [Hp [c Hc]]. do 4 wp_step. rewrite Hp. cbn [default].
    rewrite bool_decide_eq_true_2 by done. cbn [negb]. do 2 wp_step. rewrite Hc. by always.
  - intros Hn. unfold mbind, st_bind, gets, mret, st_ret. cbn [fst snd st].
    case_bool_decide as Hp; cbn [negb]; [|by eexists _, w].
    destruct (oauth_credentials (st w) !! i) as [c|] eqn:Hc; [|by eexists _, w]. exfalso. apply Hn.
    destruct (account_auth_providers (st w) !! i); cbn in Hp; [|done]. subst. eauto.
Qed.


(** The operations that change what the data planes are told. *)
Definition config_op (op : StoreOp) : bool :=
  match op with
  | CreateProxyNode _ | UpdateProxyNode _ _ | DeleteProxyNode _ | RecordProxyTest _ _ _ _ _
  | CreateAccount _ | SetAccountEnabled _ _ | DeleteAccount _ | MarkPendingPurge _ _ | LiveResult _ _ _ _ _ _ _
  | UpsertPolicy _ | UpsertRetry _ | UpsertStreamRetry _ | UpdateProxySettings _ | UpdateModelSettings _
  | UpdateClaudeSettings _ | UpdateLearningSettings _ | UpsertProfile _ | DeleteProfile _
  | UpsertModelPolicy _ | DeleteModelPolicy _ | SaveTemplate _ | SaveOverride _ | DeleteOverride _ _
  | RecordModelSupport _ _ => true
  | _ => false
  end.

(** The store is as it was, or its revision moved. *)
Definition revised s s' : Prop :=
  s' = s ∨ ∃ k, 1 <= k <= 2 ∧ revision s' = u64_wrap (revision s + k).

Lemma revised_one s s' : revision s' = u64_wrap (revision s + 1) → revised s s'.
Proof. right. exists 1. split; [lia|done]. Qed.

Lemma effect_revised {A} (m : ST (Timed InMemoryStore) A) w :
  wp m (λ _ w', revised (st w) (st w')) w → wp (effect m) (λ _ w', revised (st w) (st w')) w.
Proof. intros Hm. unfold effect. wp_step. wp_use Hm as a w' Hw. by wp_step. Qed.

Ltac revised_op := unfold bump_revision; wp_go; first [by left | by apply revised_one].

Lemma enabled_revised i b w :
  store_inv w → wp (set_upstream_account_enabled_inner i b) (λ _ w', revised (st w) (st w')) w.
Proof.
  intros Hw. unfold set_upstream_account_enabled_inner. do 2 wp_step.
  destruct (accounts (st w) !! i) as [a|]; [|wp_step; by left]. do 2 wp_step. wp_step. destruct b.
  - do 2 wp_step. wp_use set_active_spec as [] w1 (_ & _ & R & _); [apply (si_revision _ Hw)|].
    unfold bump_revision. wp_go. apply revised_one. rproj. rewrite R. rproj. rewrite u64_wrap_add_l. f_equal. lia.
  - revised_op.
Qed.

(** An operation that changes what the data planes are told, and is not refused,
    moves the revision, so a data plane that has the old one learns of it. *)
Theorem config_change_moves_revision op w :
  store_inv w → config_op op = true → wp (run_op hasher op) (λ _ w', revised (st w) (st w')) w.
Proof.
  intros Hw Hop. pose proof (si_revision _ Hw) as Hr. destruct op; try done; cbn [run_op]; apply effect_revised.
  - unfold create_outbound_proxy_node_inner. revised_op.
  - unfold update_outbound_proxy_node_inner. revised_op.
  - unfold delete_outbound_proxy_node_inner. revised_op.
  - unfold record_outbound_proxy_test_result_inner. revised_op.
  - unfold create_upstream_account_inner. revised_op.
  - by apply enabled_revised.
  - wp_use delete_account_spec as r w' Hd. destruct (accounts (st w) !! account_id); [|left; by destruct Hd as [_ ->]].
    apply revised_one. apply Hd.
  - wp_use (mark_pending_spec _ _ _ Hr) as r w' Hm. destruct (accounts (st w) !! account_id); [|left; by destruct Hm as (_ & -> & _)].
    apply revised_one. apply Hm.
  - wp_use (live_result_spec _ _ _ _ _ _ _ _ Hr) as r w' Hl. destruct (accounts (st w) !! account_id) as [a|].
    + destruct Hl as (_ & _ & _ & _ & R & _). right. eexists. split; [|exact R].
      by destruct (live_outcome _ _ _ _ _ _ _ _ _ _) as [[[] ?] ?].
    + left. by destruct Hl as [_ ->].
  - unfold upsert_routing_policy_inner. revised_op.
  - unfold upsert_retry_policy_inner. revised_op.
  - unfold upsert_stream_retry_policy_inner. revised_op.
  - unfold update_outbound_proxy_pool_settings. revised_op.
  - unfold update_model_routing_settings. revised_op.
  - unfold update_claude_code_routing_settings. revised_op.
  - unfold update_upstream_error_learning_settings. revised_op.
  - unfold upsert_routing_profile, given_or_new. revised_op.
  - unfold delete_routing_profile. revised_op.
  - unfold upsert_model_routing_policy, given_or_new. revised_op.
  - unfold delete_model_routing_policy. revised_op.
  - unfold save_upstream_error_template. revised_op.
  - unfold save_builtin_error_template_override. revised_op.
  - unfold delete_builtin_error_template_override. revised_op.
  - unfold record_account_model_support. revised_op.
Qed.
End claims.

(** ** Witnesses *)

Module Witness.
Definition account_request : CreateUpstreamAccountRequest :=
  mkCreateUpstreamAccountRequest "a" OpenAiApiKey "https://example" "token" None None None None.
Definition store0 : InMemoryStore := new_with_oauth (Some toy_cipher) 0 0 0.
Definition ops : list StoreOp :=
  [CreateAccount account_request; CreateTenant (mkCreateTenantRequest "t");
   LiveResult 1 5 LiveFailed SourcePassive (Some 401) (Some "token_invalidated") None; TakeSnapshot;
   SetAccountEnabled 1 false; PurgePending].

(** The store after these operations, and one account in it. *)
Definition w1 : Timed InMemoryStore := (run_ops toy_hasher ops (mkTimed store0 0)).2.
Definition w2 : Timed InMemoryStore := (create_upstream_account_inner account_request (mkTimed store0 0)).2.

Lemma w1_inv : store_inv w1.
Proof.
  pose proof counting_uuid_inj.
  exact (run_ops_inv toy_hasher ops (Some toy_cipher) 0 0 0 0).
Qed.
Lemma w2_inv : store_inv w2.
Proof. pose proof counting_uuid_inj. exact (run_ops_inv toy_hasher [CreateAccount account_request] (Some toy_cipher) 0 0 0 0). Qed.

Lemma live_result_follows_automaton_witness :
  wp (record_upstream_account_live_result_inner 1 7 LiveFailed SourceActive None (Some "account_deactivated") None)
    (λ r w', r = Ok true) w2.
Proof.
  eapply wp_mono.
  - apply (live_result_follows_automaton 1 7 LiveFailed SourceActive None (Some "account_deactivated") None w2).
    apply (si_revision _ w2_inv).
  - vm_compute. by intros r w' [-> _].
Defined.

Lemma invalidated_tokens_escalate_witness :
  wp (invalidated_reports 1 [5; 6; 7])
    (λ _ w', hs_pool_state (health_of 1 (st w')) = PendingPurge) w2.
Proof.
  eapply wp_mono.
  - apply (invalidated_tokens_escalate 1 (mkUpstreamAccount 1 "a" OpenAiApiKey "https://example" "token" None true
             100 1000000000) 5 [6; 7] w2).
    + apply (si_revision _ w2_inv).
    + vm_compute. reflexivity.
    + vm_compute. reflexivity.
    + vm_compute. discriminate.
    + repeat constructor; vm_compute; discriminate.
  - cbn beta. intros _ w' (a & _ & _ & _ & _ & Hs). vm_compute in Hs. by destruct Hs.
Defined.

Lemma snapshot_publishes_store_witness :
  wp snapshot_inner (λ r w', ∃ snap now, r = Ok snap ∧ snapshot_of now (st w') snap ∧ store_inv w') w1.
Proof. apply (snapshot_publishes_store w1). exact w1_inv. Defined.


Lemma created_key_validates_witness :
  wp (create_api_key_inner toy_hasher (mkCreateApiKeyRequest 3 "k")) (λ r w',
    (validate_api_key_inner toy_hasher (ckresp_plaintext_key r) w').1
    = Some (mkValidatedPrincipal 3 (ak_id (ckresp_record r)) 0 "default" false true [] [] (Some "active") None None)) w2.
Proof.
  eapply wp_mono.
  - apply (created_key_validates toy_hasher (mkCreateApiKeyRequest 3 "k") w2); [exact counting_uuid_inj|exact w2_inv].
  - cbn beta. by intros r w' [? _].
Defined.

Lemma config_change_moves_revision_witness :
  wp (run_op toy_hasher (DeleteAccount 1)) (λ _ w', revised (st w2) (st w')) w2.
Proof. apply (config_change_moves_revision toy_hasher (DeleteAccount 1) w2); [exact w2_inv|reflexivity]. Defined.

(** An account with a managed token, and its credential. *)
Definition managed : UpstreamAccount := mkUpstreamAccount 1 "m" CodexOauth "" "" None true 100 0.
Definition credential : OAuthCredentialRecord :=
  mkOAuthCredentialRecord ("v1:" +:+ letters "000000000000" +:+ ":" +:+ letters "000000000000access") "" None "" "f" 1
    (from_secs 10000) None None RefreshOk false None None 0 None.
Definition store1 : InMemoryStore :=
  store0 <| account_auth_providers := {[1%N := OAuthRefreshToken]} |> <| oauth_credentials := {[1%N := credential]} |>.

Lemma managed_token_published_safely_witness :
  let published := publish_account store1 0 managed in
  ua_enabled published = true ∧ ua_bearer_token published = "access"
  ∧ ∃ c cipher text, oauth_credentials store1 !! 1%N = Some c ∧ credential_cipher store1 = Some cipher
      ∧ (text = ocr_access_token_enc c ∨ Some text = ocr_fallback_access_token_enc c)
      ∧ decrypt cipher text = Ok "access".
Proof.
  split; [by vm_compute|]. split; [by vm_compute|].
  destruct (managed_token_published_safely store1 0 managed eq_refl) as [[He|Ht] _].
  - vm_compute in He. discriminate.
  - exact Ht.
Defined.
End Witness.
