(* ===== verification/SqliteTheorems.v ===== *)
(** * Properties of the SQLite-backed store and of the single binary

    What a successful call leaves in the database when calls run concurrently, that
    opening the database again gives the store back, and that the data plane of the
    single binary follows the store. *)
From S2P Require Import Prelude RustStr CoreModel Router RouterFacts RouterInv RouterStep OutboundProxy OutboundProxyFacts RoutingCache Snapshot SnapshotFacts.
From S2P Require Import ControlModel StoreDefs Secrets Credentials Store StoreConfig StoreSnapshot Kept StoreFacts StorePurge StoreInv PublishFacts SqliteStore SqliteFacts SqlitePersist PersonalSync Instances StoreTheorems.

#[local] Open Scope string_scope.
#[local] Open Scope list_scope.
#[local] Open Scope Z_scope.


Section claims.
Context `{Base64, Aes256Gcm, NonceSource, Digests, UuidSource, WallClock, UuidText, Environment, IdOrder}.
Context `{StateCodec, SqliteDatabase}.

End claims.

Section personal_claims.
Context `{Base64, Aes256Gcm, NonceSource, Digests, UuidSource, WallClock, UuidText, Environment, IdOrder}.
Context `{Clock}.

End personal_claims.

(** ** Revisions across a restart *)

Section restart.
Context `{Base64, Aes256Gcm, NonceSource, Digests, UuidSource, WallClock, UuidText, Environment, IdOrder}.
Context `{StateCodec, SqliteDatabase, UrlFragment}.

(** A snapshot of the SQLite-backed store is published, the process is started again
    from the row, an account is created, and the data plane asks for what came after
    the snapshot's cursor. *)
Definition restart_scenario (req : CreateUpstreamAccountRequest) : ST (Timed SqliteBackedStore)
    (option (Z * Z * result DataPlaneSnapshotEventsResponse Error)) :=
  r ← sq_snapshot;
  row ← gets state_json;
  match r, connect_with_oauth None 0 0 0 row with
  | Ok snap, Ok q =>
      _ ← modify (λ _, q);
      _ ← sq_create_upstream_account req;
      changed ← current_revision;
      events ← sq_data_plane_snapshot_events (dps_cursor snap);
      mret (Some (dps_cursor snap, changed, events))
  | _, _ => mret None
  end.
End restart.

(** ** Witnesses *)

Module Witness.
#[local] Existing Instance unit_clock.

(** One table, one call that writes it once and persists: its run, step by step. *)
Definition w_end : @Sys nat nat :=
  mkSys (<[0%nat := [7%nat]]> (λ _, [])) 2 2 None (<[0%nat := [7%nat]]> (λ _, []))
    {[0%nat := mkCall (Returned true) (Some 2%nat) [(0, 7, 0)%nat]]}.

Ltac advance R tac := eapply reachable_step in R; [|tac]; vm_compute in R.

Lemma one_call_runs : reachable [0%nat] 1 w_end.
Proof.
  assert (R : reachable [0%nat] 1 (opened 1 : @Sys nat nat)) by apply reachable_opened.
  advance R ltac:(eapply (step_start _ _ 0 [(0, 7)%nat]); [reflexivity|by repeat constructor]).
  advance R ltac:(eapply (step_write _ _ 0); split; reflexivity).
  advance R ltac:(eapply (step_mark _ _ 0); split; reflexivity).
  advance R ltac:(eapply (step_first_load _ _ 0); split; reflexivity).
  advance R ltac:(eapply (step_first_pending _ _ 0); [split; reflexivity|cbn; lia]).
  advance R ltac:(eapply (step_lock _ _ 0); [split; reflexivity|reflexivity]).
  advance R ltac:(eapply (step_second_load _ _ 0); split; reflexivity).
  advance R ltac:(eapply (step_second_pending _ _ 0); [split; reflexivity|cbn; lia]).
  advance R ltac:(eapply (step_export _ _ 0); split; reflexivity).
  advance R ltac:(eapply (step_encoded _ _ 0); split; reflexivity).
  advance R ltac:(eapply (step_upsert _ _ 0); split; reflexivity).
  advance R ltac:(eapply (step_store _ _ 0); split; reflexivity).
  exact R.
Qed.


(** A codec that knows one state. *)
Definition state1 : SqlitePersistedStoreState := export_sqlite_state (st StoreTheorems.Witness.w2).
#[local] Instance one_state : StateCodec :=
  {| state_to_string _ := Some "state"; state_from_str _ := Some state1 |}.
#[local] Instance always_executes : SqliteDatabase := λ _, true.

Definition opened_store : SqliteBackedStore :=
  mkSqliteBackedStore StoreTheorems.Witness.store0 None 1 1 1.


(** A store that was told of an account, and a data plane that was not. *)
Definition before_turn : Timed Personal :=
  mkTimed (mkPersonal (mkSqliteBackedStore (st StoreTheorems.Witness.w2) None 2 2 2) SnapshotFacts.Witness.empty_app 1)
    (ticks StoreTheorems.Witness.w2).


(** A one-time account that is about to expire, and the row that holds it. *)
Definition one_time : SessionProfileRecord :=
  mkSessionProfileRecord OneTimeAccessToken (Some 0) None None None None None None None None None None None None None None None.
Definition expiring_store : InMemoryStore :=
  (st StoreTheorems.Witness.w2) <| session_profiles := {[1%N := one_time]} |>.
#[local] Instance saved_state : StateCodec :=
  {| state_to_string _ := Some "state"; state_from_str _ := Some (export_sqlite_state expiring_store) |}.

(** The snapshot drops the account, which moves the revision from 2 to 3, but does not
    write the row. After a restart the revision is 2 again, the next change takes 3,
    and the data plane, whose cursor is 3, is told that nothing happened. *)
Lemma restart_reuses_revision :
  (restart_scenario StoreTheorems.Witness.account_request
     (mkTimed (mkSqliteBackedStore expiring_store (Some "state") 2 2 2) 10)).1
  = Some (3, 3, Ok (mkDataPlaneSnapshotEventsResponse 3 3 [])).
Proof. vm_compute. reflexivity. Qed.
End Witness.
