(* ===== verification/StreamUsage.v ===== *)
(** * Usage of response streams and their first events:
    [services/data-plane/src/proxy/billing_stream.rs], [ws_utils.rs]

    The tracker that reads token usage from the bytes of a server-sent event
    stream while they pass, and the test on the first bytes that decides whether
    the stream may be handed to the client: events that only announce the response
    are held back, an error event is turned into an error. *)
From S2P Require Import Prelude RustStr CoreModel Auth Json Request Failover RequestPolicy.
From Stdlib Require Import Ascii.

#[local] Open Scope string_scope.
#[local] Open Scope list_scope.
#[local] Open Scope Z_scope.

(** ** Bytes *)

Definition LF : ascii := "010"%char.
Definition CR : ascii := "013"%char.

(** [u8::is_ascii_whitespace], which unlike [char::is_whitespace] leaves out the
    vertical tab. *)
Definition is_ascii_whitespace (a : ascii) : bool :=
  let n := byte_of a in ((n =? 9) || (n =? 10) || (n =? 12) || (n =? 13) || (n =? 32))%N.

Fixpoint drop_ascii_ws (s : string) : string :=
  match s with
  | String a r => if is_ascii_whitespace a then drop_ascii_ws r else s
  | EmptyString => EmptyString
  end.

Definition trim_ascii (raw : string) : string :=
  string_reverse (drop_ascii_ws (string_reverse (drop_ascii_ws raw))).

(** [str::lines]: the pieces between line feeds, the last one only when it is not
    empty, each without one carriage return at its end. *)
Definition str_lines (s : string) : list string :=
  let pieces := split LF s in
  strip_cr <$> (if is_empty (List.last pieces "") then removelast pieces else pieces).

(** ** [SseUsageTracker] *)

Record SseUsageTracker := mkSseUsageTracker {
  line_buffer : string;
  sut_usage : option UsageTokens;
  sut_service_tier : option string;
  output_text_chars : Z;
  saw_output_text_delta : bool;
  sut_used_json_line_fallback : bool;
}.

#[global] Instance eta_SseUsageTracker : Eta SseUsageTracker := λ t,
  mkSseUsageTracker (line_buffer t) (sut_usage t) (sut_service_tier t) (output_text_chars t)
    (saw_output_text_delta t) (sut_used_json_line_fallback t).

Definition tracker_default : SseUsageTracker := mkSseUsageTracker "" None None 0 false false.

Record StreamUsageObservation := mkStreamUsageObservation {
  suo_usage : option UsageTokens;
  suo_service_tier : option string;
  suo_estimated_output_tokens : option Z;
  suo_used_json_line_fallback : bool;
}.

Section tracker.
Context `{SerdeJson}.

(** The part of [observe_line] on the type of the event. *)
Definition observe_text (value : Value) (t : SseUsageTracker) : SseUsageTracker :=
  match get "type" value ≫= as_str with
  | None => t
  | Some event_type =>
      if String.eqb event_type "response.output_text.delta" then
        match get "delta" value ≫= as_str with
        | Some delta =>
            t <| output_text_chars ::= λ n, u64_saturating_add n (Z.of_nat (char_count delta)) |>
              <| saw_output_text_delta := true |>
        | None => t
        end
      else if String.eqb event_type "response.output_text.done" && negb (saw_output_text_delta t) then
        match get "text" value ≫= as_str with
        | Some text =>
            t <| output_text_chars ::= λ n, u64_saturating_add n (Z.of_nat (char_count text)) |>
        | None => t
        end
      else t
  end.

Definition observe_line (line : string) (t : SseUsageTracker) : SseUsageTracker :=
  if is_empty line then t else
  let '(payload, from_data_line) :=
    match strip_prefix "data:" line with
    | Some raw_payload => (trim_ascii raw_payload, true)
    | None => (trim_ascii line, false)
    end in
  if is_empty payload || String.eqb payload "[DONE]" then t else
  match from_slice payload with
  | None => t
  | Some value =>
      let t := match sut_service_tier t with
               | None => t <| sut_service_tier := extract_service_tier_from_value value |>
               | Some _ => t
               end in
      let t := match extract_usage_tokens_from_value value with
               | Some tokens =>
                   let t := t <| sut_usage := Some tokens |> in
                   if from_data_line then t else t <| sut_used_json_line_fallback := true |>
               | None => t
               end in
      observe_text value t
  end.

(** The [while let] of [observe_chunk]: one turn per line feed in the buffer. *)
Fixpoint drain_lines (fuel : nat) (t : SseUsageTracker) : SseUsageTracker :=
  match fuel with
  | O => t
  | Datatypes.S fuel =>
      match split_once LF (line_buffer t) with
      | Some (line, rest) => drain_lines fuel (observe_line (strip_cr line) (t <| line_buffer := rest |>))
      | None => t
      end
  end.

Definition observe_chunk (t : SseUsageTracker) (chunk : string) : SseUsageTracker :=
  let t := t <| line_buffer ::= λ b, b +:+ chunk |> in
  drain_lines (String.length (line_buffer t)) t.

Definition finish_usage (t : SseUsageTracker) : StreamUsageObservation :=
  let t := if is_empty (line_buffer t) then t
           else observe_line (trim_ascii (line_buffer t)) (t <| line_buffer := "" |>) in
  mkStreamUsageObservation (sut_usage t) (sut_service_tier t)
    (if output_text_chars t =? 0 then None
     else Some (rough_token_estimate_from_char_count (output_text_chars t)))
    (sut_used_json_line_fallback t).

(** What the task that forwards the stream observes. *)
Definition observe_stream (chunks : list string) : StreamUsageObservation :=
  finish_usage (fold_left observe_chunk chunks tracker_default).

(** ** The prelude of a stream *)

Definition is_stream_prelude_metadata_payload (value : Value) : bool :=
  match get "type" value ≫= as_str with
  | Some kind => bool_decide (kind ∈ ["response.created"; "response.in_progress"])
  | None => false
  end.

(** Whether a complete line leaves the response undecided. *)
Definition prelude_line_undecided (raw_line : string) : bool :=
  let line := trim_ascii (strip_cr raw_line) in
  if is_empty line || starts_with line ":" || starts_with line "event:" || starts_with line "id:"
     || starts_with line "retry:" then true else
  match strip_prefix "data:" line with
  | None => false
  | Some payload =>
      let payload := trim_ascii payload in
      if is_empty payload || String.eqb payload "[DONE]" then true else
      match from_slice payload with
      | None => false
      | Some value => is_stream_prelude_metadata_payload value
      end
  end.

Definition should_continue_stream_prelude (buffered : string) : bool :=
  forallb prelude_line_undecided (removelast (split LF buffered)) && negb (is_empty buffered).

Definition is_stream_error_payload (value : Value) : bool :=
  if bool_decide (is_Some (get "error" value)) then true
  else if bool_decide (is_Some (get "code" value)) && bool_decide (is_Some (get "message" value)) then true
  else match get "type" value ≫= as_str with
       | Some kind =>
           bool_decide (kind ∈ ["error"; "response.error"; "response.failed"; "response.incomplete"])
       | None => false
       end.

(** [value[key] = v], where [value] is known to be an object because a field was
    found in it. *)
Definition set_index (key : string) (v value : Value) : Value :=
  match value with VObject m => VObject (map_insert key v m) | _ => value end.

Definition normalize_stream_error_payload (value : Value) : string :=
  let incomplete_reason := str_at ["response"; "incomplete_details"; "reason"] value in
  let normalized :=
    match get "error" value with
    | Some _ => value
    | None =>
        match get "response" value ≫= get "error" with
        | Some error => set_index "error" error value
        | None =>
            match incomplete_reason with
            | Some reason =>
                set_index "message" (VString ("Incomplete response returned, reason: " +:+ reason))
                  (set_index "code" (VString reason) value)
            | None => value
            end
        end
    end in
  default "" (to_string normalized).
End tracker.

Section prelude.
Context `{SerdeJson} `{Utf8} `{Rfc2822}.

(** The wall clock is read where a [Retry-After] date is compared with it. *)
Definition parse_json_error_payload (utc_now : Z) (status : Z) (headers : HeaderMap) (payload : string) :
    option UpstreamErrorContext :=
  value ← from_slice payload;
  if negb (is_stream_error_payload value) then None
  else upstream_error_context_of_response utc_now status headers (normalize_stream_error_payload value).

(** The [for] loop over the lines of the text. *)
Fixpoint prelude_lines_error (utc_now : Z) (status : Z) (headers : HeaderMap) (lines : list string) :
    option UpstreamErrorContext :=
  match lines with
  | [] => None
  | line :: rest =>
      let continue := prelude_lines_error utc_now status headers rest in
      match strip_prefix "data:" (trim line) with
      | None => continue
      | Some value =>
          let payload := trim_start value in
          if String.eqb payload "[DONE]" || is_empty payload then continue else
          match parse_json_error_payload utc_now status headers payload with
          | Some context => Some context
          | None =>
              match upstream_error_context_of_response utc_now status headers payload with
              | Some context => Some context
              | None => continue
              end
          end
      end
  end.

Definition parse_stream_prelude_error_context (utc_now : Z) (status : Z) (headers : HeaderMap)
    (chunk : string) : option UpstreamErrorContext :=
  match parse_json_error_payload utc_now status headers chunk with
  | Some context => Some context
  | None =>
      if negb (valid_utf8 chunk) then None else
      match prelude_lines_error utc_now status headers (str_lines chunk) with
      | Some context => Some context
      | None => upstream_error_context_of_response utc_now status headers chunk
      end
  end.
End prelude.

(** ** What the usage tracker observes

    The tracker sees the lines of the stream however the network cut it into
    chunks; the usage it reports is that of the last event that carries one. *)

(** ** Pieces between separators *)

Section split.
Context (c : ascii).

Lemma split_go_cur cur s :
  split_go c cur s = match split_go c "" s with
                     | p :: ps => (string_reverse cur +:+ p) :: ps
                     | [] => []
                     end.
Proof.
  revert cur. induction s as [|a s IH]; intros cur; cbn [split_go].
  - f_equal. by rewrite string_app_nil.
  - destruct (Ascii.eqb a c); [by rewrite string_app_nil|].
    rewrite (IH (String a cur)), (IH (String a "")). destruct (split_go c "" s) as [|p ps]; [done|].
    f_equal. change (String a cur) with (String a "" +:+ cur).
    by rewrite string_reverse_app, string_app_assoc.
Qed.

Lemma split_cons a s :
  split c (String a s) =
    if Ascii.eqb a c then "" :: split c s
    else match split c s with p :: ps => String a p :: ps | [] => [] end.
Proof. unfold split. cbn [split_go]. destruct (Ascii.eqb a c); [done|]. by rewrite split_go_cur. Qed.

Lemma split_not_nil s : split c s ≠ [].
Proof.
  induction s as [|a s IH]; [done|]. rewrite split_cons. destruct (Ascii.eqb a c); [done|].
  by destruct (split c s).
Qed.

Lemma split_once_split s :
  split c s = match split_once c s with Some (p, q) => p :: split c q | None => [s] end.
Proof.
  induction s as [|a s IH]; [done|]. rewrite split_cons. cbn [split_once].
  destruct (Ascii.eqb a c); [done|]. rewrite IH. by destruct (split_once c s) as [[p q]|].
Qed.

Lemma split_once_length s p q :
  split_once c s = Some (p, q) → (String.length q < String.length s)%nat.
Proof.
  revert p. induction s as [|a s IH]; intros p; cbn [split_once]; [done|].
  destruct (Ascii.eqb a c); [intros [= _ <-]; cbn; lia|].
  destruct (split_once c s) as [[p' q']|]; [|done]. intros [= _ <-]. cbn. specialize (IH p' eq_refl). lia.
Qed.

(** The pieces that are complete, and the one that may go on. *)
Definition full_pieces (s : string) : list string := removelast (split c s).
Definition open_piece (s : string) : string := List.last (split c s) "".

Lemma split_pieces s : split c s = full_pieces s ++ [open_piece s].
Proof. apply app_removelast_last, split_not_nil. Qed.

Lemma pieces_once s p q :
  split_once c s = Some (p, q) → full_pieces s = p :: full_pieces q ∧ open_piece s = open_piece q.
Proof.
  intros Hs. unfold full_pieces, open_piece. rewrite (split_once_split s), Hs.
  pose proof (split_not_nil q). by destruct (split c q).
Qed.

Lemma pieces_end s : split_once c s = None → full_pieces s = [] ∧ open_piece s = s.
Proof. intros Hs. unfold full_pieces, open_piece. by rewrite split_once_split, Hs. Qed.

Lemma split_open s : split c (open_piece s) = [open_piece s].
Proof.
  unfold open_piece. induction s as [|a s IH]; [done|]. rewrite split_cons.
  pose proof (split_not_nil s) as Hn.
  destruct (Ascii.eqb a c) eqn:Ha; [by destruct (split c s)|].
  destruct (split c s) as [|p [|q ps]] eqn:Hs; [done| |exact IH].
  cbn [List.last] in *. by rewrite split_cons, Ha, IH.
Qed.

Lemma split_app a b : split c (a +:+ b) = full_pieces a ++ split c (open_piece a +:+ b).
Proof.
  unfold full_pieces, open_piece. induction a as [|x a IH]; [done|].
  change (String x a +:+ b) with (String x (a +:+ b)). rewrite !split_cons, IH.
  pose proof (split_not_nil a) as Hn.
  destruct (Ascii.eqb x c) eqn:Hx; [by destruct (split c a)|].
  destruct (split c a) as [|p [|q ps]]; [done| |done].
  cbn [List.last removelast app]. change (String x p +:+ b) with (String x (p +:+ b)). by rewrite split_cons, Hx.
Qed.

Lemma full_pieces_app a b :
  full_pieces (a +:+ b) = full_pieces a ++ full_pieces (open_piece a +:+ b).
Proof. unfold full_pieces at 1. rewrite split_app. apply removelast_app, split_not_nil. Qed.

Lemma open_piece_app a b : open_piece (a +:+ b) = open_piece (open_piece a +:+ b).
Proof.
  unfold open_piece at 1. rewrite split_app, split_pieces. by rewrite app_assoc, List.last_last.
Qed.
End split.

Fixpoint concat_chunks (chunks : list string) : string :=
  match chunks with [] => "" | chunk :: rest => chunk +:+ concat_chunks rest end.

Section tracker.
Context `{SerdeJson}.

(** ** The tracker sees lines *)

Definition observe_lines (lines : list string) (t : SseUsageTracker) : SseUsageTracker :=
  fold_left (λ t line, observe_line line t) lines t.

Lemma observe_text_buffer v b t :
  observe_text v (t <| line_buffer := b |>) = (observe_text v t) <| line_buffer := b |>.
Proof.
  unfold observe_text. destruct (get "type" v ≫= as_str) as [kind|]; [|done].
  destruct (String.eqb kind _); [by destruct (get "delta" v ≫= as_str)|].
  change (saw_output_text_delta (t <| line_buffer := b |>)) with (saw_output_text_delta t).
  destruct (String.eqb kind _ && _); [|done]. by destruct (get "text" v ≫= as_str).
Qed.

Lemma observe_line_buffer line b t :
  observe_line line (t <| line_buffer := b |>) = (observe_line line t) <| line_buffer := b |>.
Proof.
  unfold observe_line. destruct (is_empty line); [done|].
  destruct (match strip_prefix _ _ with Some _ => _ | None => _ end) as [payload from].
  destruct (is_empty payload || String.eqb payload "[DONE]"); [done|].
  destruct (from_slice payload) as [v|]; [|done].
  rewrite <- observe_text_buffer. f_equal.
  destruct t as [b0 u [tier|] n saw f], (extract_usage_tokens_from_value v), from; done.
Qed.

Lemma observe_lines_buffer lines b t :
  observe_lines lines (t <| line_buffer := b |>) = (observe_lines lines t) <| line_buffer := b |>.
Proof.
  revert t. induction lines as [|l lines IH]; intros t; [done|]. cbn. by rewrite observe_line_buffer, IH.
Qed.

Lemma observe_lines_app l k t : observe_lines (l ++ k) t = observe_lines k (observe_lines l t).
Proof. apply fold_left_app. Qed.

Lemma drain_lines_spec fuel t :
  (String.length (line_buffer t) ≤ fuel)%nat →
  drain_lines fuel t = (observe_lines (strip_cr <$> full_pieces LF (line_buffer t)) t)
                         <| line_buffer := open_piece LF (line_buffer t) |>.
Proof.
  revert t. induction fuel as [|fuel IH]; intros t Hf; cbn [drain_lines].
  { destruct t as [[|] ? ? ? ? ?]; [done|cbn in Hf; lia]. }
  destruct (split_once LF (line_buffer t)) as [[line rest]|] eqn:Hs.
  - destruct (pieces_once _ _ _ _ Hs) as [-> ->]. apply split_once_length in Hs.
    rewrite observe_line_buffer, IH by (cbn; lia).
    set (t' := observe_line (strip_cr line) t). cbn [line_buffer set_field]. 
    change (line_buffer (t' <| line_buffer := rest |>)) with rest. by rewrite observe_lines_buffer.
  - destruct (pieces_end _ _ Hs) as [-> ->]. by destruct t.
Qed.

(** A tracker that has seen [seen]. *)
Definition tracked (seen : string) : SseUsageTracker :=
  (observe_lines (strip_cr <$> full_pieces LF seen) tracker_default)
    <| line_buffer := open_piece LF seen |>.

Lemma observe_chunk_tracked seen chunk :
  observe_chunk (tracked seen) chunk = tracked (seen +:+ chunk).
Proof.
  set (t := observe_lines (strip_cr <$> full_pieces LF seen) tracker_default).
  set (b := open_piece LF seen +:+ chunk).
  change (observe_chunk (tracked seen) chunk)
    with (drain_lines (String.length b) (t <| line_buffer := b |>)).
  rewrite drain_lines_spec by done. change (line_buffer (t <| line_buffer := b |>)) with b.
  rewrite observe_lines_buffer. unfold tracked, b, t.
  by rewrite (full_pieces_app LF seen chunk), fmap_app, observe_lines_app, (open_piece_app LF seen chunk).
Qed.

Lemma observe_chunks_tracked chunks seen :
  fold_left observe_chunk chunks (tracked seen) = tracked (seen +:+ concat_chunks chunks).
Proof.
  revert seen. induction chunks as [|chunk chunks IH]; intros seen; cbn [fold_left concat_chunks].
  - by rewrite string_app_nil.
  - by rewrite observe_chunk_tracked, IH, string_app_assoc.
Qed.

Lemma observe_stream_tracked chunks : observe_stream chunks = finish_usage (tracked (concat_chunks chunks)).
Proof. unfold observe_stream. change tracker_default with (tracked ""). by rewrite observe_chunks_tracked. Qed.

(** ** What the lines say *)

(** The lines of a body as the tracker reads them: what follows the last line
    feed counts when it is not empty. *)
Definition event_lines (body : string) : list string :=
  (strip_cr <$> full_pieces LF body) ++
  (if is_empty (open_piece LF body) then [] else [trim_ascii (open_piece LF body)]).

Definition line_value (line : string) : option Value :=
  let payload := trim_ascii (default line (strip_prefix "data:" line)) in
  if is_empty line || is_empty payload || String.eqb payload "[DONE]" then None else from_slice payload.

Definition line_usage (line : string) : option UsageTokens :=
  line_value line ≫= extract_usage_tokens_from_value.
Definition line_tier (line : string) : option string :=
  line_value line ≫= extract_service_tier_from_value.

Lemma observe_text_usage v t :
  sut_usage (observe_text v t) = sut_usage t ∧ sut_service_tier (observe_text v t) = sut_service_tier t.
Proof. unfold observe_text. repeat case_match; done. Qed.

Lemma observe_line_usage line t :
  sut_usage (observe_line line t) = or_else (line_usage line) (sut_usage t)
  ∧ sut_service_tier (observe_line line t) = or_else (sut_service_tier t) (line_tier line).
Proof.
  unfold observe_line, line_usage, line_tier, line_value.
  assert (Hn : ∀ o : option string, o = or_else o None) by by intros [].
  destruct (is_empty line); [split; [done|apply Hn]|].
  destruct (strip_prefix "data:" line) as [raw|]; cbn [default orb].
  all: destruct (is_empty _ || String.eqb _ _); [split; [done|apply Hn]|].
  all: destruct (from_slice _) as [v|]; [|split; [done|apply Hn]].
  all: cbn [mbind option_bind].
  all: edestruct observe_text_usage as [-> ->].
  all: destruct (sut_service_tier t) eqn:Ht, (extract_usage_tokens_from_value v); done.
Qed.

Lemma observe_lines_usage lines t :
  sut_usage (observe_lines lines t) = or_else (list.last (omap line_usage lines)) (sut_usage t)
  ∧ sut_service_tier (observe_lines lines t) = or_else (sut_service_tier t) (head (omap line_tier lines)).
Proof.
  revert t. induction lines as [|l lines IH]; intros t; [cbn; split; [done|by destruct (sut_service_tier t)]|].
  change (observe_lines (l :: lines) t) with (observe_lines lines (observe_line l t)).
  destruct (IH (observe_line l t)) as [-> ->].
  destruct (observe_line_usage l t) as [-> ->]. cbn. split.
  - destruct (line_usage l); [|done]. rewrite last_cons. by destruct (list.last _).
  - by destruct (sut_service_tier t), (line_tier l).
Qed.

Lemma finish_tracked body :
  ∃ t, t = observe_lines (event_lines body) tracker_default
    ∧ suo_usage (finish_usage (tracked body)) = sut_usage t
    ∧ suo_service_tier (finish_usage (tracked body)) = sut_service_tier t.
Proof.
  eexists. split; [done|]. unfold finish_usage, tracked, event_lines. rewrite observe_lines_app.
  set (t := observe_lines (strip_cr <$> full_pieces LF body) tracker_default).
  change (line_buffer (t <| line_buffer := open_piece LF body |>)) with (open_piece LF body).
  destruct (is_empty (open_piece LF body)); [done|].
  cbn [suo_usage suo_service_tier]. unfold observe_lines at 1 2. cbn [fold_left].
  destruct (observe_line_usage (trim_ascii (open_piece LF body))
              (t <| line_buffer := open_piece LF body |> <| line_buffer := "" |>)) as [-> ->].
  by destruct (observe_line_usage (trim_ascii (open_piece LF body)) t) as [-> ->].
Qed.

(** C24: how the network cuts a response stream into chunks does not matter to
    billing: the tracker observes of the chunks what it observes of their
    concatenation. The usage it reports is that of the last event of the stream
    that carries one, the service tier that of the first event that names one. *)
Theorem stream_usage_ignores_chunking chunks :
  observe_stream chunks = observe_stream [concat_chunks chunks]
  ∧ suo_usage (observe_stream chunks)
    = list.last (omap line_usage (event_lines (concat_chunks chunks)))
  ∧ suo_service_tier (observe_stream chunks)
    = head (omap line_tier (event_lines (concat_chunks chunks))).
Proof.
  rewrite !observe_stream_tracked. cbn [concat_chunks]. rewrite string_app_nil. split; [done|].
  destruct (finish_tracked (concat_chunks chunks)) as (t & -> & -> & ->).
  destruct (observe_lines_usage (event_lines (concat_chunks chunks)) tracker_default) as [-> ->].
  split; [by destruct (list.last _)|done].
Qed.
End tracker.
