(* ===== verification/Billing.v ===== *)
(** * Metered billing of proxied requests:
    [services/data-plane/src/proxy/billing_stream.rs]

    Before a metered request goes upstream the data plane asks the control plane to
    hold an amount ([authorize]); when the usage is known it captures it, and in
    every case it releases what is held. [BillingState] has the fields of
    [AppState] these functions read and write, with the exchanges with the billing
    endpoints and the request logs handed to the event sink, newest first. *)
From Corelib Require Import SpecFloat.
From S2P Require Import Prelude RustStr CoreModel Auth RoutingCache Json Request Failover RequestPolicy StreamUsage.

#[local] Open Scope string_scope.
#[local] Open Scope list_scope.
#[local] Open Scope Z_scope.

(** ** [f64]

    The arithmetic of binary64 numbers as IEEE 754 defines it, rounding to nearest
    even, on the standard library's [spec_float]; the conversions from integers and
    the saturating casts back ([as i64], [as u64]) are those of Rust. *)

Abbreviation f64 := spec_float (only parsing).

Definition f64_of_Z (z : Z) : f64 := binary_normalize 53 1024 z 0 false.
Definition f64_add : f64 → f64 → f64 := SFadd 53 1024.
Definition f64_sub : f64 → f64 → f64 := SFsub 53 1024.
Definition f64_mul : f64 → f64 → f64 := SFmul 53 1024.
Definition f64_div : f64 → f64 → f64 := SFdiv 53 1024.
Definition f64_abs : f64 → f64 := SFabs.

Definition f64_is_finite (x : f64) : bool :=
  match x with S754_zero _ | S754_finite _ _ _ => true | _ => false end.

(** [f64::max] and [f64::min]: the other operand when one is not a number. *)
Definition f64_max (x y : f64) : f64 :=
  match SFcompare x y with
  | Some Lt => y
  | Some _ => x
  | None => match x with S754_nan => y | _ => x end
  end.
Definition f64_min (x y : f64) : f64 :=
  match SFcompare x y with
  | Some Gt => y
  | Some _ => x
  | None => match x with S754_nan => y | _ => x end
  end.

(** The integer at or above [s * m * 2 ^ e], and the one nearest to it, halves
    away from zero. *)
Definition ceil_Z (s : bool) (m : positive) (e : Z) : Z :=
  let v := if s then Z.neg m else Z.pos m in
  if 0 <=? e then v * 2 ^ e else - ((- v) `div` 2 ^ (- e)).
Definition round_Z (s : bool) (m : positive) (e : Z) : Z :=
  let r := if 0 <=? e then Z.pos m * 2 ^ e else (2 * Z.pos m + 2 ^ (- e)) `div` 2 ^ (1 - e) in
  if s then - r else r.

(** A cast to an integer type: zero for what is not a number, saturated at the
    bounds of the type. *)
Definition saturating_cast (lo hi : Z) (to_Z : bool → positive → Z → Z) (x : f64) : Z :=
  match x with
  | S754_nan | S754_zero _ => 0
  | S754_infinity s => if s then lo else hi
  | S754_finite s m e => clamp lo hi (to_Z s m e)
  end.
Definition f64_ceil_as_i64 : f64 → Z := saturating_cast i64_min i64_max ceil_Z.
Definition f64_round_as_u64 : f64 → Z := saturating_cast 0 u64_max round_Z.

(** A third, rounded, three times is one; an overflow is an infinity; rounding up. *)
Example third : f64_mul (f64_div (f64_of_Z 1) (f64_of_Z 3)) (f64_of_Z 3) = f64_of_Z 1.
Proof. reflexivity. Qed.
Example ceil_examples :
  f64_ceil_as_i64 (f64_div (f64_of_Z 7) (f64_of_Z 2)) = 4
  ∧ f64_ceil_as_i64 (f64_div (f64_of_Z (-7)) (f64_of_Z 2)) = -3
  ∧ f64_ceil_as_i64 (f64_mul (f64_of_Z i64_max) (f64_of_Z 2)) = i64_max
  ∧ f64_round_as_u64 (f64_div (f64_of_Z 5) (f64_of_Z 2)) = 3.
Proof. by vm_compute. Qed.

Definition BILLING_PREAUTH_ERROR_RATIO_RECENT_WINDOW : nat := 512.
Definition BILLING_PREAUTH_ERROR_RATIO_MODEL_WINDOW : nat := 128.
Definition BILLING_PREAUTH_ERROR_RATIO_MODEL_MAX : nat := 64.
Definition PRICING_PER_MILLION_TOKENS_SCALE : f64 := f64_of_Z 1000000.
Definition BILLING_AUTHORIZATION_TTL_SEC : Z := 15 * 60.
Definition BILLING_PRICING_CACHE_TTL_SEC : Z := 30.
Definition STREAM_USAGE_ESTIMATE_FALLBACK_ENABLED : bool := true.

Definition is_success (status : Z) : bool := (200 <=? status) && (status <? 300).

(** A response with an error envelope. *)
Abbreviation ErrorResponse := (Z * ErrorEnvelope)%type (only parsing).

(** ** Sessions *)

Record PendingBillingSession := mkPendingBillingSession {
  pbs_tenant_id : Uuid;
  pbs_api_key_id : Uuid;
  pbs_request_id : string;
  pbs_trace_request_id : option string;
  pbs_model : string;
  pbs_requested_service_tier : option string;
  pbs_session_key : string;
  pbs_request_kind : string;
  pbs_is_stream : bool;
  pbs_estimated_input_tokens : Z;
  pbs_reserved_microcredits : Z;
}.
#[global] Instance eta_PendingBillingSession : Eta PendingBillingSession := λ p,
  mkPendingBillingSession (pbs_tenant_id p) (pbs_api_key_id p) (pbs_request_id p) (pbs_trace_request_id p)
    (pbs_model p) (pbs_requested_service_tier p) (pbs_session_key p) (pbs_request_kind p) (pbs_is_stream p)
    (pbs_estimated_input_tokens p) (pbs_reserved_microcredits p).

Record BillingSession := mkBillingSession {
  bse_account_id : Uuid;
  bse_tenant_id : Uuid;
  bse_api_key_id : Uuid;
  bse_request_path : string;
  bse_request_method : string;
  bse_request_started : Instant;
  bse_request_id : string;
  bse_trace_request_id : option string;
  bse_model : string;
  bse_requested_service_tier : option string;
  bse_effective_service_tier : option string;
  bse_session_key : string;
  bse_request_kind : string;
  bse_is_stream : bool;
  bse_first_token_latency_ms : option Z;
  bse_estimated_input_tokens : Z;
  bse_authorization_id : Uuid;
  bse_reserved_microcredits : Z;
}.
#[global] Instance eta_BillingSession : Eta BillingSession := λ b,
  mkBillingSession (bse_account_id b) (bse_tenant_id b) (bse_api_key_id b) (bse_request_path b)
    (bse_request_method b) (bse_request_started b) (bse_request_id b) (bse_trace_request_id b) (bse_model b)
    (bse_requested_service_tier b) (bse_effective_service_tier b) (bse_session_key b) (bse_request_kind b)
    (bse_is_stream b) (bse_first_token_latency_ms b) (bse_estimated_input_tokens b)
    (bse_authorization_id b) (bse_reserved_microcredits b).

Record BillingSettleResult := mkBillingSettleResult {
  bsr_authorization_id : Uuid;
  bsr_capture_status : string;
  bsr_usage : UsageTokens;
}.

Inductive BillingSettleOutcome :=
  | NotNeeded
  | Settled (result : BillingSettleResult)
  | DeferredEstimated (authorization_id : Uuid) (usage : UsageTokens).

Record BillingReleaseFailureContext := mkBillingReleaseFailureContext {
  brf_release_reason : option string;
  brf_upstream_status_code : option Z;
  brf_upstream_error_code : option string;
  brf_failover_action : option string;
  brf_failover_reason_class : option string;
  brf_recovery_action : option string;
  brf_recovery_outcome : option string;
  brf_cross_account_failover_attempted : option bool;
}.
Definition no_failure_context : BillingReleaseFailureContext :=
  mkBillingReleaseFailureContext None None None None None None None None.

(** ** The internal endpoints *)

Record InternalBillingAuthorizePayload := mkAuthorizePayload {
  iba_tenant_id : Uuid;
  iba_api_key_id : option Uuid;
  iba_request_id : string;
  iba_trace_request_id : option string;
  iba_model : string;
  iba_service_tier : option string;
  iba_session_key : option string;
  iba_request_kind : option string;
  iba_reserved_microcredits : Z;
  iba_ttl_sec : option Z;
  iba_is_stream : bool;
}.

Record InternalBillingCapturePayload := mkCapturePayload {
  ibc_tenant_id : Uuid;
  ibc_api_key_id : option Uuid;
  ibc_request_id : string;
  ibc_model : string;
  ibc_service_tier : option string;
  ibc_session_key : option string;
  ibc_request_kind : option string;
  ibc_usage : UsageTokens;
  ibc_is_stream : bool;
}.

Record InternalBillingReleasePayload := mkReleasePayload {
  ibr_tenant_id : Uuid;
  ibr_request_id : string;
  ibr_is_stream : bool;
  ibr_context : BillingReleaseFailureContext;
}.

Record InternalBillingPricingPayload := mkPricingPayload {
  ibp_model : string;
  ibp_api_key_id : option Uuid;
  ibp_service_tier : option string;
}.

Inductive BillingCall :=
  | Authorize (payload : InternalBillingAuthorizePayload)
  | Capture (payload : InternalBillingCapturePayload)
  | Release (payload : InternalBillingReleasePayload)
  | Pricing (payload : InternalBillingPricingPayload).

Record InternalBillingAuthorizeResponse := mkAuthorizeResponse {
  iar_authorization_id : Uuid;
  iar_status : string;
  iar_reserved_microcredits : Z;
}.
Record InternalBillingCaptureResponse := mkCaptureResponse {
  icr_status : string;
  icr_charged_microcredits : option Z;
}.
Record InternalBillingPricingResponse := mkPricingResponse {
  ipr_input_price_microcredits : Z;
  ipr_cached_input_price_microcredits : Z;
  ipr_output_price_microcredits : Z;
  ipr_source : string;
}.

(** How a call ended: no answer, or a status and a body. *)
Inductive HttpAnswer := NoAnswer | Answer (status : Z) (body : string).

Record Exchange := mkExchange { ex_call : BillingCall; ex_answer : HttpAnswer }.

(** The billing service: its answer to a call at an endpoint with a bearer token
    may depend on the time and on the exchanges before. *)
Class BillingApi := {
  billing_answer : nat → list Exchange → string → string → BillingCall → HttpAnswer;
}.

(** The decoders [serde] derives for the responses; a release's is its status, an
    error's its code and message. *)
Class BillingDecoders := {
  decode_authorize : string → option InternalBillingAuthorizeResponse;
  decode_capture : string → option InternalBillingCaptureResponse;
  decode_release : string → option string;
  decode_pricing : string → option InternalBillingPricingResponse;
  decode_billing_error : string → option (string * string);
}.

(** ** Request logs *)

Record RequestLogEvent := mkRequestLogEvent {
  rle_id : Uuid;
  rle_account_id : Uuid;
  rle_tenant_id : option Uuid;
  rle_api_key_id : option Uuid;
  rle_event_version : Z;
  rle_path : string;
  rle_method : string;
  rle_status_code : Z;
  rle_latency_ms : Z;
  rle_is_stream : bool;
  rle_error_code : option string;
  rle_request_id : option string;
  rle_model : option string;
  rle_service_tier : option string;
  rle_input_tokens : option Z;
  rle_cached_input_tokens : option Z;
  rle_output_tokens : option Z;
  rle_reasoning_tokens : option Z;
  rle_first_token_latency_ms : option Z;
  rle_billing_phase : option string;
  rle_authorization_id : option Uuid;
  rle_capture_status : option string;
  rle_created_at : DateTime;
}.

(** ** Tasks and state *)

Record StreamRequestLogContext := mkStreamRequestLogContext {
  srl_account_id : Uuid;
  srl_tenant_id : option Uuid;
  srl_api_key_id : option Uuid;
  srl_request_path : string;
  srl_request_method : string;
  srl_request_started : Instant;
  srl_request_id : option string;
  srl_model : option string;
  srl_requested_service_tier : option string;
  srl_estimated_input_tokens : option Z;
}.

(** What [tokio::spawn] was given and has not run yet: the settlement of a
    response without usage, and the forwarding of a stream, with the chunks read
    ahead and the rest of the upstream's bytes. *)
Inductive BillingTask :=
  | SettleDeferred (session : BillingSession) (estimated_usage : UsageTokens)
  | ForwardStream (prelude_chunks : list string) (upstream_stream : list (result string string))
      (session : option BillingSession) (log_context : option StreamRequestLogContext)
      (first_token_latency_ms : option Z).

Record CachedBillingPricing := mkCachedBillingPricing {
  cbp_pricing : InternalBillingPricingResponse;
  cbp_expires_at : Instant;
}.

Record BillingState := mkBillingState {
  control_plane_base_url : option string;
  control_plane_internal_auth_token : string;
  enable_metered_stream_billing : bool;
  billing_authorize_required_for_stream : bool;
  stream_billing_reserve_microcredits : Z;
  billing_dynamic_preauth_enabled : bool;
  billing_preauth_expected_output_tokens : Z;
  billing_preauth_safety_factor : f64;
  billing_preauth_min_microcredits : Z;
  billing_preauth_max_microcredits : Z;
  billing_preauth_unit_price_microcredits : Z;
  stream_billing_drain_timeout : Duration;
  billing_capture_retry_max : Z;
  billing_pricing_cache : gmap string CachedBillingPricing;
  billing_authorize_total : Z;
  billing_authorize_failed_total : Z;
  billing_capture_total : Z;
  billing_capture_failed_total : Z;
  billing_release_total : Z;
  billing_idempotent_hit_total : Z;
  billing_preauth_dynamic_total : Z;
  billing_preauth_fallback_total : Z;
  billing_preauth_amount_microcredits_sum : Z;
  billing_preauth_error_ratio_ppm_sum_total : Z;
  billing_preauth_error_ratio_count_total : Z;
  billing_preauth_capture_missing_total : Z;
  billing_settle_complete_total : Z;
  billing_release_without_capture_total : Z;
  billing_preauth_error_ratio_recent_ppm : list Z;
  billing_preauth_error_ratio_by_model_ppm : gmap string (list Z);
  stream_usage_missing_total : Z;
  stream_usage_estimated_total : Z;
  stream_drain_timeout_total : Z;
  stream_usage_json_line_fallback_total : Z;
  billing_exchanges : list Exchange;
  request_logs : list RequestLogEvent;
  billing_tasks : list BillingTask;
}.
#[global] Instance eta_BillingState : Eta BillingState := λ b,
  mkBillingState (control_plane_base_url b) (control_plane_internal_auth_token b)
    (enable_metered_stream_billing b) (billing_authorize_required_for_stream b)
    (stream_billing_reserve_microcredits b) (billing_dynamic_preauth_enabled b)
    (billing_preauth_expected_output_tokens b) (billing_preauth_safety_factor b)
    (billing_preauth_min_microcredits b) (billing_preauth_max_microcredits b)
    (billing_preauth_unit_price_microcredits b) (stream_billing_drain_timeout b)
    (billing_capture_retry_max b) (billing_pricing_cache b) (billing_authorize_total b)
    (billing_authorize_failed_total b) (billing_capture_total b) (billing_capture_failed_total b)
    (billing_release_total b) (billing_idempotent_hit_total b) (billing_preauth_dynamic_total b)
    (billing_preauth_fallback_total b) (billing_preauth_amount_microcredits_sum b)
    (billing_preauth_error_ratio_ppm_sum_total b) (billing_preauth_error_ratio_count_total b)
    (billing_preauth_capture_missing_total b) (billing_settle_complete_total b)
    (billing_release_without_capture_total b) (billing_preauth_error_ratio_recent_ppm b)
    (billing_preauth_error_ratio_by_model_ppm b) (stream_usage_missing_total b)
    (stream_usage_estimated_total b) (stream_drain_timeout_total b)
    (stream_usage_json_line_fallback_total b) (billing_exchanges b) (request_logs b) (billing_tasks b).

Abbreviation BM := (ST (Timed BillingState)).

(** [counter.fetch_add(n)]. *)
#[local] Abbreviation fetch_add f n := (modify (λ s : BillingState, s <| f ::= λ v, u64_wrap (v + n) |>)).

(** [started.elapsed().as_millis() as u64]. *)
Definition elapsed_ms {S} `{Clock} (started : Instant) : ST (Timed S) Z :=
  t ← now; mret (u64_wrap (((t - started) `max` 0) `div` 1000000)).

(** ** Calls *)

Section billing.
Context `{Clock} `{WallClock} `{UuidSource} `{UuidText} `{HashOrder} `{SerdeJson} `{BillingApi}
  `{BillingDecoders}.

(** One [POST] with its answer. *)
Definition post_billing (endpoint : string) (call : BillingCall) : BM HttpAnswer := λ w,
  let s := st w in
  let answer := billing_answer (ticks w) (billing_exchanges s) endpoint
                  (control_plane_internal_auth_token s) call in
  (answer, mkTimed (s <| billing_exchanges ::= cons (mkExchange call answer) |>)
             (Datatypes.S (ticks w))).

(** The response to the client for an answer that is not a success. *)
Definition billing_error_response (status : Z) (envelope : option (string * string)) : ErrorResponse :=
  if status =? 400 then
    match envelope with
    | Some (code, message) => json_error 400 code message
    | None => json_error 400 "billing_rejected" "billing request rejected"
    end
  else if status =? 402 then json_error 402 "insufficient_credits" "insufficient credits"
  else if status =? 404 then
    json_error 502 "billing_authorization_not_found" "billing authorization not found"
  else json_error 502 "billing_service_error" "billing service error".

Definition post_internal_billing_json {R} (operation : string) (call : BillingCall)
    (decode : string → option R) : BM (result R ErrorResponse) :=
  base ← gets control_plane_base_url;
  match base with
  | None =>
      mret (Err (json_error 503 "billing_service_unavailable"
                   "control plane base url is not configured for billing"))
  | Some base_url =>
      answer ← post_billing (trim_end_slashes base_url +:+ "/internal/v1/billing/" +:+ operation) call;
      mret match answer with
           | NoAnswer => Err (json_error 502 "billing_service_error" "failed to call billing service")
           | Answer status body =>
               if is_success status then
                 match decode body with
                 | Some value => Ok value
                 | None => Err (json_error 502 "billing_service_error"
                                  "invalid billing service response payload")
                 end
               else Err (billing_error_response status (decode_billing_error body))
           end
  end.

Definition trigger_internal_billing_authorize (payload : InternalBillingAuthorizePayload) :=
  post_internal_billing_json "authorize" (Authorize payload) decode_authorize.
Definition trigger_internal_billing_capture (payload : InternalBillingCapturePayload) :=
  post_internal_billing_json "capture" (Capture payload) decode_capture.
Definition trigger_internal_billing_release (payload : InternalBillingReleasePayload) :=
  post_internal_billing_json "release" (Release payload) decode_release.

Definition is_retryable_billing_error (response : ErrorResponse) : bool :=
  (response.1 =? 502) || (response.1 =? 503).

(** Each turn of the loop is one attempt; the pause between two only takes time.
    [fuel] is the number of attempts that may still follow this one. *)
Fixpoint capture_attempts (fuel : nat) (payload : InternalBillingCapturePayload) (attempt : Z) :
    BM (result InternalBillingCaptureResponse ErrorResponse) :=
  r ← trigger_internal_billing_capture payload;
  match r with
  | Ok response => mret (Ok response)
  | Err error_response =>
      let attempt := clamp 0 (2 ^ 32 - 1) (attempt + 1) in
      retry_max ← gets billing_capture_retry_max;
      if negb (is_retryable_billing_error error_response) || (retry_max <=? attempt)
      then mret (Err error_response)
      else match fuel with
           | O => mret (Err error_response)
           | Datatypes.S fuel => capture_attempts fuel payload attempt
           end
  end.

Definition trigger_internal_billing_capture_with_retry (payload : InternalBillingCapturePayload) :
    BM (result InternalBillingCaptureResponse ErrorResponse) :=
  retry_max ← gets billing_capture_retry_max;
  capture_attempts (Z.to_nat retry_max) payload 0.

(** ** The amount to hold *)

Definition metric_amount_from_microcredits (value : Z) : Z := value `max` 0.

Definition mark_fallback_preauth_reserve (reserve : Z) : BM Z :=
  _ ← fetch_add billing_preauth_fallback_total 1;
  _ ← fetch_add billing_preauth_amount_microcredits_sum (metric_amount_from_microcredits reserve);
  mret reserve.

Definition clamp_estimated_reserve (s : BillingState) (raw_reserve : f64) : option Z :=
  if negb (f64_is_finite raw_reserve) then None else
  let min_reserve := billing_preauth_min_microcredits s `min` billing_preauth_max_microcredits s in
  let max_reserve := billing_preauth_min_microcredits s `max` billing_preauth_max_microcredits s in
  Some (clamp min_reserve max_reserve (f64_ceil_as_i64 raw_reserve)).

Definition estimate_reserve_with_model_pricing (s : BillingState) (estimated_input_tokens
    input_price_microcredits output_price_microcredits : Z) : option Z :=
  let estimated_input_tokens := f64_of_Z (estimated_input_tokens `max` 0) in
  let expected_output_tokens := f64_of_Z (billing_preauth_expected_output_tokens s `max` 0) in
  let input_price_microcredits := f64_of_Z (input_price_microcredits `max` 0) in
  let output_price_microcredits := f64_of_Z (output_price_microcredits `max` 0) in
  let priced_tokens :=
    f64_div (f64_add (f64_mul estimated_input_tokens input_price_microcredits)
               (f64_mul expected_output_tokens output_price_microcredits))
      PRICING_PER_MILLION_TOKENS_SCALE in
  clamp_estimated_reserve s (f64_mul priced_tokens (billing_preauth_safety_factor s)).

Definition estimate_reserve_with_unit_price (s : BillingState) (estimated_input_tokens : Z) : option Z :=
  let estimated_input_tokens := f64_of_Z (estimated_input_tokens `max` 0) in
  let expected_output_tokens := f64_of_Z (billing_preauth_expected_output_tokens s `max` 0) in
  let unit_price_microcredits := f64_of_Z (billing_preauth_unit_price_microcredits s `max` 0) in
  let priced_tokens :=
    f64_div (f64_mul (f64_add estimated_input_tokens expected_output_tokens) unit_price_microcredits)
      PRICING_PER_MILLION_TOKENS_SCALE in
  clamp_estimated_reserve s (f64_mul priced_tokens (billing_preauth_safety_factor s)).

Definition fetch_model_pricing_from_control_plane (api_key_id : Uuid) (model : string)
    (service_tier : option string) : BM (option InternalBillingPricingResponse) :=
  base ← gets control_plane_base_url;
  match base with
  | None => mret None
  | Some base_url =>
      answer ← post_billing (trim_end_slashes base_url +:+ "/internal/v1/billing/pricing")
                 (Pricing (mkPricingPayload model (Some api_key_id) service_tier));
      mret match answer with
           | NoAnswer => None
           | Answer status body => if is_success status then decode_pricing body else None
           end
  end.

Definition pricing_model_key (api_key_id : Uuid) (model : string) (service_tier : option string) : string :=
  uuid_to_string api_key_id +:+ ":" +:+ to_ascii_lowercase (trim model) +:+ ":"
  +:+ default "default" (to_ascii_lowercase <$> non_blank service_tier).

Definition resolve_model_pricing_for_preauth (api_key_id : Uuid) (model : string)
    (service_tier : option string) : BM (option InternalBillingPricingResponse) :=
  let model_key := pricing_model_key api_key_id model service_tier in
  if is_empty model_key then mret None else
  t ← now;
  cache ← gets billing_pricing_cache;
  let fetch :=
    fetched ← fetch_model_pricing_from_control_plane api_key_id model service_tier;
    match fetched with
    | None => mret None
    | Some pricing =>
        _ ← modify (λ s : BillingState, s <| billing_pricing_cache ::=
                <[model_key := mkCachedBillingPricing pricing (t + from_secs BILLING_PRICING_CACHE_TTL_SEC)]> |>);
        mret (Some pricing)
    end in
  match cache !! model_key with
  | Some cached => if t <? cbp_expires_at cached then mret (Some (cbp_pricing cached)) else fetch
  | None => fetch
  end.

Definition estimate_authorize_reserve_microcredits (api_key_id : Uuid) (model : string)
    (service_tier : option string) (estimated_input_tokens : Z) : BM Z :=
  s ← gets (λ s, s);
  if negb (billing_dynamic_preauth_enabled s)
  then mark_fallback_preauth_reserve (stream_billing_reserve_microcredits s) else
  pricing ← resolve_model_pricing_for_preauth api_key_id model service_tier;
  match p ← pricing; estimate_reserve_with_model_pricing s estimated_input_tokens
                       (ipr_input_price_microcredits p) (ipr_output_price_microcredits p) with
  | Some reserve =>
      _ ← fetch_add billing_preauth_dynamic_total 1;
      _ ← fetch_add billing_preauth_amount_microcredits_sum (metric_amount_from_microcredits reserve);
      mret reserve
  | None =>
      mark_fallback_preauth_reserve
        (default (stream_billing_reserve_microcredits s)
           (estimate_reserve_with_unit_price s estimated_input_tokens))
  end.

(** ** Sessions: authorise, settle, release *)

Definition is_billable_path (path method : string) : bool :=
  eq_ignore_ascii_case method "POST" &&
  bool_decide (path ∈ ["/v1/responses"; "/v1/responses/compact"; "/backend-api/codex/responses";
                       "/backend-api/codex/responses/compact"; "/v1/chat/completions"]).

Definition billing_request_kind (path : string) : string :=
  if bool_decide (path ∈ ["/v1/responses"; "/backend-api/codex/responses"]) then "response"
  else if bool_decide (path ∈ ["/v1/responses/compact"; "/backend-api/codex/responses/compact"])
  then "compact"
  else if String.eqb path "/v1/chat/completions" then "chat"
  else "unknown".

Definition resolve_trace_request_id (headers : HeaderMap) (context : ParsedRequestPolicyContext) :
    option string :=
  or_else (prpc_request_id context) (header_string headers "x-request-id").

Definition generate_billing_request_id {S} : ST (Timed S) string :=
  id ← new_v4; mret (uuid_to_string id).

Definition build_pending_billing_session (principal : option ApiPrincipal) (headers : HeaderMap)
    (context : ParsedRequestPolicyContext) (path method : string) :
    BM (result (option PendingBillingSession) ErrorResponse) :=
  s ← gets (λ s, s);
  if negb (is_billable_path path method) then mret (Ok None) else
  match principal with
  | None => mret (Ok None)
  | Some principal =>
      if bool_decide (balance_microcredits principal = None) then mret (Ok None) else
      if prpc_stream context && negb (enable_metered_stream_billing s) then
        mret (Err (json_error 400 "billing_streaming_not_supported"
                     "streaming request is not enabled for metered billing mode")) else
      if prpc_stream context && negb (billing_authorize_required_for_stream s) then mret (Ok None) else
      match tenant_id principal, api_key_id principal with
      | Some tenant_id, Some api_key_id =>
          match prpc_model context with
          | None =>
              mret (Err (json_error 400 "billing_model_missing"
                           "request model is required for metered billing"))
          | Some model =>
              let estimated_input_tokens := default 0 (prpc_estimated_input_tokens context) in
              let trace_request_id := resolve_trace_request_id headers context in
              request_id ← generate_billing_request_id;
              let session_key :=
                default request_id (or_else (prpc_session_key_hint context) trace_request_id) in
              reserved ← estimate_authorize_reserve_microcredits api_key_id model
                           (prpc_requested_service_tier context) estimated_input_tokens;
              mret (Ok (Some (mkPendingBillingSession tenant_id api_key_id request_id trace_request_id
                model (prpc_requested_service_tier context) session_key (billing_request_kind path)
                (prpc_stream context) estimated_input_tokens reserved)))
          end
      | _, _ => mret (Ok None)
      end
  end.

(** [rotate_request_id_for_cross_account_failover] ([entry.rs]). *)
Definition rotate_request_id {S} (pending : PendingBillingSession) :
    ST (Timed S) PendingBillingSession :=
  request_id ← generate_billing_request_id;
  let rotated := pending <| pbs_request_id := request_id |> in
  mret (if bool_decide (pbs_trace_request_id pending = None)
           && String.eqb (pbs_session_key pending) (pbs_request_id pending)
        then rotated <| pbs_session_key := request_id |> else rotated).

Definition authorize_billing_session (pending : PendingBillingSession) (account_id : Uuid)
    (path method : string) (started : Instant) (is_stream : bool) :
    BM (result BillingSession ErrorResponse) :=
  _ ← fetch_add billing_authorize_total 1;
  r ← trigger_internal_billing_authorize
        (mkAuthorizePayload (pbs_tenant_id pending) (Some (pbs_api_key_id pending)) (pbs_request_id pending)
           (pbs_trace_request_id pending) (pbs_model pending) (pbs_requested_service_tier pending)
           (Some (pbs_session_key pending)) (Some (pbs_request_kind pending))
           (pbs_reserved_microcredits pending) (Some BILLING_AUTHORIZATION_TTL_SEC) is_stream);
  match r with
  | Ok authorize =>
      _ ← (if String.eqb (iar_status authorize) "authorized" then mret tt
           else fetch_add billing_idempotent_hit_total 1);
      mret (Ok (mkBillingSession account_id (pbs_tenant_id pending) (pbs_api_key_id pending) path method
        started (pbs_request_id pending) (pbs_trace_request_id pending) (pbs_model pending)
        (pbs_requested_service_tier pending) None (pbs_session_key pending) (pbs_request_kind pending)
        is_stream None (pbs_estimated_input_tokens pending) (iar_authorization_id authorize)
        (iar_reserved_microcredits authorize)))
  | Err err =>
      _ ← fetch_add billing_authorize_failed_total 1;
      mret (Err err)
  end.

Definition preauth_error_ratio_ppm (reserved_microcredits charged_microcredits : Z) : Z :=
  let reserved := f64_of_Z (reserved_microcredits `max` 0) in
  let charged := f64_of_Z (charged_microcredits `max` 0) in
  let denominator := f64_max charged (f64_of_Z 1) in
  let ratio := f64_div (f64_abs (f64_sub reserved charged)) denominator in
  if negb (f64_is_finite ratio) then 0
  else f64_round_as_u64 (f64_mul ratio (f64_of_Z 1000000)).

(** [push_back], and [pop_front] when the window is exceeded. *)
Definition push_window (window : nat) (x : Z) (l : list Z) : list Z :=
  let l := l ++ [x] in if (window <? length l)%nat then drop 1 l else l.

Definition record_preauth_error_ratio_sample (model : string) (reserved_microcredits : Z)
    (charged_microcredits : option Z) : BM unit :=
  match charged_microcredits with
  | None => fetch_add billing_preauth_capture_missing_total 1
  | Some charged =>
      let ratio_ppm := preauth_error_ratio_ppm reserved_microcredits charged in
      _ ← fetch_add billing_preauth_error_ratio_ppm_sum_total ratio_ppm;
      _ ← fetch_add billing_preauth_error_ratio_count_total 1;
      _ ← modify (λ s : BillingState, s <| billing_preauth_error_ratio_recent_ppm ::=
                    push_window BILLING_PREAUTH_ERROR_RATIO_RECENT_WINDOW ratio_ppm |>);
      let model_key := to_ascii_lowercase (trim model) in
      if is_empty model_key then mret tt else
      modify (λ s : BillingState, s <| billing_preauth_error_ratio_by_model_ppm ::= λ by_model,
        let by_model :=
          if bool_decide (by_model !! model_key = None)
             && (BILLING_PREAUTH_ERROR_RATIO_MODEL_MAX <=? size by_model)%nat
          then match hash_iter by_model with
               | (first_key, _) :: _ => delete first_key by_model
               | [] => by_model
               end
          else by_model in
        <[model_key := push_window BILLING_PREAUTH_ERROR_RATIO_MODEL_WINDOW ratio_ppm
                         (default [] (by_model !! model_key))]> by_model |>)
  end.

Definition settle_authorized_billing (session : BillingSession) (usage_tokens : UsageTokens)
    (effective_service_tier : option string) : BM (result BillingSettleResult ErrorResponse) :=
  let release := trigger_internal_billing_release
    (mkReleasePayload (bse_tenant_id session) (bse_request_id session) (bse_is_stream session)
       no_failure_context) in
  _ ← fetch_add billing_capture_total 1;
  r ← trigger_internal_billing_capture_with_retry
        (mkCapturePayload (bse_tenant_id session) (Some (bse_api_key_id session)) (bse_request_id session)
           (bse_model session) (or_else effective_service_tier (bse_requested_service_tier session))
           (Some (bse_session_key session)) (Some (bse_request_kind session)) usage_tokens
           (bse_is_stream session));
  match r with
  | Err err =>
      _ ← fetch_add billing_capture_failed_total 1;
      _ ← fetch_add billing_release_total 1;
      _ ← fetch_add billing_release_without_capture_total 1;
      _ ← release;
      mret (Err err)
  | Ok capture =>
      _ ← (if String.eqb (icr_status capture) "captured" then mret tt
           else fetch_add billing_idempotent_hit_total 1);
      _ ← fetch_add billing_release_total 1;
      status ←? release;
      _ ← (if String.eqb status "released" then mret tt
           else fetch_add billing_idempotent_hit_total 1);
      _ ← record_preauth_error_ratio_sample (bse_model session) (bse_reserved_microcredits session)
            (icr_charged_microcredits capture);
      _ ← fetch_add billing_settle_complete_total 1;
      mret (Ok (mkBillingSettleResult (bse_authorization_id session) (icr_status capture) usage_tokens))
  end.

Definition release_billing_hold_best_effort (session : option BillingSession)
    (failure_context : option BillingReleaseFailureContext) : BM unit :=
  match session with
  | None => mret tt
  | Some session =>
      _ ← fetch_add billing_release_total 1;
      _ ← fetch_add billing_release_without_capture_total 1;
      _ ← trigger_internal_billing_release
            (mkReleasePayload (bse_tenant_id session) (bse_request_id session) (bse_is_stream session)
               (default no_failure_context failure_context));
      mret tt
  end.

Definition spawn_billing_task (task : BillingTask) : BM unit :=
  modify (λ s : BillingState, s <| billing_tasks ::= cons task |>).

Definition settle_billing_if_needed (session : option BillingSession) (status : Z) (body : string) :
    BM (result BillingSettleOutcome ErrorResponse) :=
  match session with
  | None => mret (Ok NotNeeded)
  | Some session =>
      if negb (is_success status) then mret (Ok NotNeeded) else
      match extract_usage_tokens body with
      | None =>
          let estimated_usage :=
            mkUsageTokens (bse_estimated_input_tokens session `max` 0) 0
              (default 0 (estimate_response_output_tokens body) `max` 0) 0 in
          _ ← spawn_billing_task (SettleDeferred session estimated_usage);
          mret (Ok (DeferredEstimated (bse_authorization_id session) estimated_usage))
      | Some usage_tokens =>
          result ←? settle_authorized_billing session usage_tokens (bse_effective_service_tier session);
          mret (Ok (Settled result))
      end
  end.

(** The task it spawns. *)
Definition run_settle_deferred (session : BillingSession) (estimated_usage : UsageTokens) : BM unit :=
  if (input_tokens estimated_usage =? 0) && (output_tokens estimated_usage =? 0) then
    release_billing_hold_best_effort (Some session)
      (Some (mkBillingReleaseFailureContext (Some "usage_missing_zero_estimate") None None
               (Some "return_success") (Some "usage_missing_zero_estimate") None None None))
  else
    _ ← settle_authorized_billing session estimated_usage (bse_effective_service_tier session);
    mret tt.
End billing.
