(* ===== verification/StreamForward.v ===== *)
(** * Forwarding of response streams and their settlement:
    [services/data-plane/src/proxy/billing_stream.rs]

    [stream_response_with_first_chunk] holds a stream back until its first events
    decide that it is not an error, then spawns the task that forwards it, follows
    its usage and, when it ends, settles or releases the hold. *)
From S2P Require Import Prelude RustStr CoreModel Auth RoutingCache Json Request Failover RequestPolicy StreamUsage Billing.

#[local] Open Scope string_scope.
#[local] Open Scope list_scope.
#[local] Open Scope Z_scope.

Definition STREAM_PRELUDE_BUFFER_MAX_BYTES : nat := 32 * 1024.
Definition STREAM_PRELUDE_BUFFER_MAX_CHUNKS : nat := 16.

#[local] Abbreviation fetch_add f n := (modify (λ s : BillingState, s <| f ::= λ v, u64_wrap (v + n) |>)).

Inductive StreamPreludeError :=
  | EndOfStreamBeforeCommit
  | UpstreamReadFailed (message : string)
  | UpstreamErrorResponse (context : UpstreamErrorContext).

(** The other ends: whether the client still takes a chunk, and whether the
    upstream lets the time to wait for one run out. *)
Class StreamEnds := {
  send_accepted : nat → bool;
  next_times_out : nat → bool;
}.

Section forward.
Context `{Clock} `{WallClock} `{UuidSource} `{UuidText} `{HashOrder} `{SerdeJson} `{BillingApi}
  `{BillingDecoders} `{Utf8} `{Rfc2822} `{StreamEnds}.

(** ** The prelude *)

Definition prelude_full (prelude_bytes : string) (prelude_chunks : list string) : bool :=
  (STREAM_PRELUDE_BUFFER_MAX_BYTES <=? String.length prelude_bytes)%nat
  || (STREAM_PRELUDE_BUFFER_MAX_CHUNKS <=? length prelude_chunks)%nat
  || negb (should_continue_stream_prelude prelude_bytes).

(** The loop over the upstream stream: the chunks held back and the rest of the
    stream, or why it cannot be handed on. *)
Fixpoint stream_prelude (status : Z) (headers : HeaderMap) (prelude_bytes : string)
    (prelude_chunks : list string) (upstream_stream : list (result string string)) :
    BM (result (list string * list (result string string)) StreamPreludeError) :=
  match upstream_stream with
  | [] => mret (Err EndOfStreamBeforeCommit)
  | Err err :: _ => mret (Err (UpstreamReadFailed err))
  | Ok chunk :: rest =>
      if is_empty chunk then stream_prelude status headers prelude_bytes prelude_chunks rest else
      let prelude_bytes := prelude_bytes +:+ chunk in
      let prelude_chunks := prelude_chunks ++ [chunk] in
      utc_now ← utc_now;
      match parse_stream_prelude_error_context utc_now status headers prelude_bytes with
      | Some context => mret (Err (UpstreamErrorResponse context))
      | None =>
          if prelude_full prelude_bytes prelude_chunks then mret (Ok (prelude_chunks, rest))
          else stream_prelude status headers prelude_bytes prelude_chunks rest
      end
  end.

Definition started_first_token_latency_ms (session : option BillingSession)
    (log_context : option StreamRequestLogContext) : BM (option Z) :=
  match session, log_context with
  | Some session, _ => ms ← elapsed_ms (bse_request_started session); mret (Some ms)
  | None, Some context => ms ← elapsed_ms (srl_request_started context); mret (Some ms)
  | None, None => mret None
  end.

(** The response is its status and headers; its body is what the task sends. *)
Definition stream_response_with_first_chunk (status : Z) (headers : HeaderMap)
    (upstream_stream : list (result string string)) (session : option BillingSession)
    (log_context : option StreamRequestLogContext) : BM (result unit StreamPreludeError) :=
  prelude ←? stream_prelude status headers "" [] upstream_stream;
  first_token_latency_ms ← started_first_token_latency_ms session log_context;
  let session := (λ s, s <| bse_first_token_latency_ms := first_token_latency_ms |>) <$> session in
  _ ← spawn_billing_task (ForwardStream prelude.1 prelude.2 session log_context first_token_latency_ms);
  mret (Ok tt).

(** ** The task *)

Definition tx_send : BM bool := λ w, (send_accepted (ticks w), mkTimed (st w) (Datatypes.S (ticks w))).
Definition wait_next : BM bool := λ w, (next_times_out (ticks w), mkTimed (st w) (Datatypes.S (ticks w))).

(** Whether the client went away. *)
Fixpoint forward_prelude (tracker : SseUsageTracker) (chunks : list string) : BM (SseUsageTracker * bool) :=
  match chunks with
  | [] => mret (tracker, false)
  | chunk :: chunks =>
      let tracker := observe_chunk tracker chunk in
      accepted ← tx_send;
      if accepted : bool then forward_prelude tracker chunks else mret (tracker, true)
  end.

Fixpoint forward_rest (tracker : SseUsageTracker) (upstream_stream : list (result string string)) :
    BM (SseUsageTracker * bool * list (result string string)) :=
  match upstream_stream with
  | [] => mret (tracker, false, [])
  | Err _ :: rest => _ ← tx_send; mret (tracker, false, rest)
  | Ok chunk :: rest =>
      let tracker := observe_chunk tracker chunk in
      accepted ← tx_send;
      if accepted : bool then forward_rest tracker rest else mret (tracker, true, rest)
  end.

Fixpoint drain_until (deadline : Instant) (tracker : SseUsageTracker)
    (upstream_stream : list (result string string)) : BM SseUsageTracker :=
  t ← now;
  if deadline <=? t then _ ← fetch_add stream_drain_timeout_total 1; mret tracker else
  late ← wait_next;
  if late : bool then _ ← fetch_add stream_drain_timeout_total 1; mret tracker else
  match upstream_stream with
  | Ok chunk :: rest => drain_until deadline (observe_chunk tracker chunk) rest
  | Err _ :: _ | [] => mret tracker
  end.

Definition drain_upstream_stream_until_timeout (tracker : SseUsageTracker)
    (upstream_stream : list (result string string)) : BM SseUsageTracker :=
  t ← now;
  timeout ← gets stream_billing_drain_timeout;
  drain_until (t + timeout) tracker upstream_stream.

(** ** Logs and settlement *)

Definition emit_request_log (event : RequestLogEvent) : BM unit :=
  modify (λ s : BillingState, s <| request_logs ::= cons event |>).

Definition emit_stream_usage_request_log_event (context : StreamRequestLogContext)
    (first_token_latency_ms : option Z) (observation : StreamUsageObservation) : BM unit :=
  let usage :=
    or_else (suo_usage observation)
      (let estimated_output_tokens := default 0 (suo_estimated_output_tokens observation) `max` 0 in
       let estimated_input_tokens := default 0 (srl_estimated_input_tokens context) `max` 0 in
       if (estimated_input_tokens =? 0) && (estimated_output_tokens =? 0) then None
       else Some (mkUsageTokens estimated_input_tokens 0 estimated_output_tokens 0)) in
  id ← new_v4;
  latency ← elapsed_ms (srl_request_started context);
  created ← utc_now;
  emit_request_log (mkRequestLogEvent id (srl_account_id context) (srl_tenant_id context)
    (srl_api_key_id context) 2 (srl_request_path context) (srl_request_method context) 200 latency true
    None (srl_request_id context) (srl_model context)
    (or_else (suo_service_tier observation) (srl_requested_service_tier context))
    (input_tokens <$> usage) (cached_input_tokens <$> usage) (output_tokens <$> usage)
    (reasoning_tokens <$> usage) first_token_latency_ms (Some "stream_observed") None None created).

Definition emit_stream_request_log_event (session : BillingSession) (billing_phase : string)
    (capture_status : option string) (usage : option UsageTokens) : BM unit :=
  id ← new_v4;
  latency ← elapsed_ms (bse_request_started session);
  created ← utc_now;
  emit_request_log (mkRequestLogEvent id (bse_account_id session) (Some (bse_tenant_id session))
    (Some (bse_api_key_id session)) 2 (bse_request_path session) (bse_request_method session) 200 latency
    true None (or_else (bse_trace_request_id session) (Some (bse_request_id session)))
    (Some (bse_model session))
    (or_else (bse_effective_service_tier session) (bse_requested_service_tier session))
    (input_tokens <$> usage) (cached_input_tokens <$> usage) (output_tokens <$> usage)
    (reasoning_tokens <$> usage) (bse_first_token_latency_ms session) (Some billing_phase)
    (Some (bse_authorization_id session)) capture_status created).

(** The usage a stream is charged for. *)
Definition stream_usage (session : BillingSession) (observation : StreamUsageObservation) :
    option UsageTokens :=
  or_else (suo_usage observation)
    (if STREAM_USAGE_ESTIMATE_FALLBACK_ENABLED then
       estimated_output_tokens ← suo_estimated_output_tokens observation;
       Some (mkUsageTokens (bse_estimated_input_tokens session `max` 0) 0
               (estimated_output_tokens `max` 0) 0)
     else None).

Definition finalize_stream_billing (session : BillingSession) (observation : StreamUsageObservation) :
    BM unit :=
  _ ← (if suo_used_json_line_fallback observation
       then fetch_add stream_usage_json_line_fallback_total 1 else mret tt);
  let session :=
    if bool_decide (bse_effective_service_tier session = None)
    then session <| bse_effective_service_tier :=
           or_else (suo_service_tier observation) (bse_requested_service_tier session) |>
    else session in
  let usage := stream_usage session observation in
  _ ← (if bool_decide (suo_usage observation = None) && bool_decide (is_Some usage)
       then fetch_add stream_usage_estimated_total 1 else mret tt);
  match usage with
  | None =>
      _ ← emit_stream_request_log_event session "released_missing_usage" None None;
      _ ← fetch_add stream_usage_missing_total 1;
      release_billing_hold_best_effort (Some session)
        (Some (mkBillingReleaseFailureContext (Some "stream_usage_missing") None None
                 (Some "return_failure") (Some "stream_usage_missing") None None None))
  | Some usage_tokens =>
      r ← settle_authorized_billing session usage_tokens (bse_effective_service_tier session);
      match r with
      | Ok settle_result =>
          emit_stream_request_log_event session "released" (Some (bsr_capture_status settle_result))
            (Some (bsr_usage settle_result))
      | Err _ => emit_stream_request_log_event session "released_failed" None (Some usage_tokens)
      end
  end.

Definition run_forward_stream (prelude_chunks : list string)
    (upstream_stream : list (result string string)) (session : option BillingSession)
    (log_context : option StreamRequestLogContext) (first_token_latency_ms : option Z) : BM unit :=
  '(tracker, closed) ← forward_prelude tracker_default prelude_chunks;
  '(tracker, closed, rest) ←
    (if closed : bool then mret (tracker, true, upstream_stream)
     else forward_rest tracker upstream_stream);
  tracker ← (if closed : bool then drain_upstream_stream_until_timeout tracker rest else mret tracker);
  let observation := finish_usage tracker in
  match session, log_context with
  | Some session, _ => finalize_stream_billing session observation
  | None, Some context => emit_stream_usage_request_log_event context first_token_latency_ms observation
  | None, None => mret tt
  end.

Definition run_billing_task (task : BillingTask) : BM unit :=
  match task with
  | SettleDeferred session usage => run_settle_deferred session usage
  | ForwardStream chunks stream session log_context latency =>
      run_forward_stream chunks stream session log_context latency
  end.
End forward.
