(* ===== verification/BillingFacts.v ===== *)
(** * Holds

    A hold is open from the answer that authorises it to the call that releases it.
    What each operation of billing does to the open holds: an authorisation opens
    one, and a settlement, whatever the billing service answers, closes it. *)
From S2P Require Import Prelude RustStr CoreModel Auth RoutingCache Json Request Failover RequestPolicy StreamUsage Billing StreamForward Kept.

#[local] Open Scope string_scope.
#[local] Open Scope list_scope.
#[local] Open Scope Z_scope.

Section holds.
Context `{BillingDecoders}.

(** ** The open holds after a list of exchanges, newest first *)

Definition authorizes (answer : HttpAnswer) : bool :=
  match answer with
  | Answer status body => is_success status && bool_decide (is_Some (decode_authorize body))
  | NoAnswer => false
  end.

Fixpoint open_holds (exchanges : list Exchange) : gset string :=
  match exchanges with
  | [] => ∅
  | mkExchange call answer :: rest =>
      match call with
      | Authorize p => if authorizes answer then {[iba_request_id p]} ∪ open_holds rest else open_holds rest
      | Release p => open_holds rest ∖ {[ibr_request_id p]}
      | Capture _ | Pricing _ => open_holds rest
      end
  end.

Definition session_holds (session : option BillingSession) : gset string :=
  match session with Some s => {[bse_request_id s]} | None => ∅ end.

Definition task_holds (task : BillingTask) : gset string :=
  match task with
  | SettleDeferred s _ => {[bse_request_id s]}
  | ForwardStream _ _ s _ _ => session_holds s
  end.

Definition tasks_holds (tasks : list BillingTask) : gset string := ⋃ (task_holds <$> tasks).

(** Every open hold is in [X] or the responsibility of a spawned task; without a
    control plane no hold was ever opened. *)
Definition owed (X : gset string) (b : BillingState) : Prop :=
  open_holds (billing_exchanges b) ⊆ X ∪ tasks_holds (billing_tasks b)
  ∧ (control_plane_base_url b = None → open_holds (billing_exchanges b) = ∅).

Lemma owed_mono X Y b : X ⊆ Y → owed X b → owed Y b.
Proof. unfold owed. intros HXY [Ho Hn]. split; [set_solver|done]. Qed.

Abbreviation P X := (λ w : Timed BillingState, owed X (st w)).

Lemma owed_ticking X : ticking (P X).
Proof. by intros s n. Qed.
End holds.

(** Operations that neither call the service nor spawn keep what is owed: taken
    apart, their writes go to counters, caches and logs. *)
Ltac owed_kept := kept_with ltac:(first [exact (owed_ticking _) | intros ?? Hs; exact Hs]).

(** ** Predicates of what the service and the tasks see

    Time, counters, caches and logs do not matter to such a predicate; the operations
    that only post one kind of call keep it when that call does. *)
Definition billing_core (b : BillingState) : option string * list Exchange * list BillingTask :=
  (control_plane_base_url b, billing_exchanges b, billing_tasks b).
Definition on_core (P : Timed BillingState → Prop) : Prop :=
  ∀ s s' k k', billing_core s' = billing_core s → (k ≤ k')%nat → P (mkTimed s k) → P (mkTimed s' k').

Ltac core_kept Hcore :=
  kept_with ltac:(let Hs := fresh in intros ? ? Hs; refine (Hcore _ _ _ _ _ _ Hs); [reflexivity|lia]).

Section core.
Context `{Clock} `{WallClock} `{UuidSource} `{UuidText} `{HashOrder} `{SerdeJson} `{BillingApi}
  `{BillingDecoders} `{Utf8} `{Rfc2822}.
Context (P : Timed BillingState → Prop) (Hcore : on_core P).

Lemma kept_post_json {A} op call (decode : string → option A) :
  (∀ endpoint, kept P (post_billing endpoint call)) → kept P (post_internal_billing_json op call decode).
Proof.
  intros Hp. apply kept_bind; [apply kept_gets|intros [base|]]; [|apply kept_ret].
  apply kept_bind; [apply Hp|intros answer; apply kept_ret].
Qed.

Lemma kept_capture payload :
  (∀ endpoint, kept P (post_billing endpoint (Capture payload))) →
  kept P (trigger_internal_billing_capture_with_retry payload).
Proof.
  intros Hp. apply kept_bind; [apply kept_gets|intros max]. generalize 0 as attempt.
  induction (Z.to_nat max) as [|fuel IH]; intros attempt; cbn [capture_attempts].
  all: apply kept_bind; [by apply kept_post_json|intros [r|e]]; [apply kept_ret|].
  all: apply kept_bind; [apply kept_gets|intros m]; destruct (_ || _); first [apply kept_ret|apply IH].
Qed.

Lemma kept_stream_prelude status headers bytes chunks stream :
  kept P (stream_prelude status headers bytes chunks stream).
Proof.
  revert bytes chunks. induction stream as [|[chunk|err] stream IH]; intros bytes chunks; cbn [stream_prelude];
    [apply kept_ret| |apply kept_ret].
  destruct (is_empty chunk); [apply IH|]. apply kept_bind; [core_kept Hcore|intros t].
  destruct (parse_stream_prelude_error_context _ _ _ _); [apply kept_ret|].
  destruct (prelude_full _ _); [apply kept_ret|apply IH].
Qed.

Lemma kept_pricing key model tier :
  (∀ endpoint p, kept P (post_billing endpoint (Pricing p))) →
  kept P (resolve_model_pricing_for_preauth key model tier).
Proof.
  intros Hp. unfold resolve_model_pricing_for_preauth. destruct (is_empty _); [apply kept_ret|].
  apply kept_bind; [core_kept Hcore|intros t]. apply kept_bind; [apply kept_gets|intros cache]. cbv zeta.
  assert (Hfetch : kept P (fetch_model_pricing_from_control_plane key model tier)).
  { apply kept_bind; [apply kept_gets|intros [base|]]; [|apply kept_ret].
    apply kept_bind; [apply Hp|intros answer; apply kept_ret]. }
  destruct (cache !! _) as [cached|]; [destruct (t <? _); [apply kept_ret|]|];
    (apply kept_bind; [done|intros [pricing|]; core_kept Hcore]).
Qed.

Lemma kept_build_pending principal headers context path method :
  (∀ endpoint p, kept P (post_billing endpoint (Pricing p))) →
  kept P (build_pending_billing_session principal headers context path method).
Proof.
  intros Hp. unfold build_pending_billing_session. apply kept_bind; [apply kept_gets|intros b].
  destruct (negb _); [apply kept_ret|]. destruct principal as [principal|]; [|apply kept_ret].
  destruct (bool_decide _); [apply kept_ret|]. do 2 (destruct (_ && _); [apply kept_ret|]).
  destruct (tenant_id principal) as [tenant|], (api_key_id principal) as [key|]; try apply kept_ret.
  destruct (prpc_model context) as [model|]; [|apply kept_ret].
  apply kept_bind; [core_kept Hcore|intros id]. apply kept_bind; [|intros reserved; apply kept_ret].
  apply kept_bind; [apply kept_gets|intros b']. destruct (negb _); [core_kept Hcore|].
  apply kept_bind; [by apply kept_pricing|intros pricing]. destruct (_ ≫= _); core_kept Hcore.
Qed.
End core.

Section operations.
Context `{Clock} `{WallClock} `{UuidSource} `{UuidText} `{HashOrder} `{SerdeJson} `{BillingApi}
  `{BillingDecoders} `{Utf8} `{Rfc2822} `{StreamEnds}.
Abbreviation P X := (λ w : Timed BillingState, owed X (st w)).
Implicit Types (X : gset string).

Lemma owed_now X : kept (P X) now.
Proof. intros w Hw. by wp_step. Qed.

(** ** Calls *)

Definition call_opens (call : BillingCall) : Prop :=
  match call with Authorize _ | Release _ => True | _ => False end.

Lemma owed_post X endpoint call : ¬ call_opens call → kept (P X) (post_billing endpoint call).
Proof. intros Hc w Hw. unfold post_billing, wp. cbn [snd st]. by destruct call. Qed.

Lemma owed_core X : on_core (P X).
Proof.
  intros s s' k k' Hc _ Hs. unfold billing_core in Hc. injection Hc as Hb Hx Ht. unfold owed in *. cbn [st] in *.
  by rewrite Hb, Hx, Ht.
Qed.

Lemma owed_capture X p : kept (P X) (trigger_internal_billing_capture_with_retry p).
Proof. apply kept_capture. intros endpoint. apply owed_post. by intros []. Qed.

(** A release closes the hold: what was owed by [X] and it is owed by [X]. *)
Lemma owed_release X p w :
  owed ({[ibr_request_id p]} ∪ X) (st w) →
  wp (trigger_internal_billing_release p) (λ _ w', owed X (st w')) w.
Proof.
  intros [Ho Hn]. unfold trigger_internal_billing_release, post_internal_billing_json.
  wp_step. wp_step. destruct (control_plane_base_url (st w)) as [base|] eqn:Hb.
  - wp_step. unfold wp, post_billing. cbn [snd fst]. apply wp_ret. split; cbn.
    + set_solver.
    + change (control_plane_base_url (st w) = None → open_holds (billing_exchanges (st w)) ∖ {[ibr_request_id p]} = ∅).
      by rewrite Hb.
  - wp_step. specialize (Hn eq_refl). split; [|done]. rewrite Hn. set_solver.
Qed.

(** An authorisation that is answered with a success opens a hold. *)
Lemma owed_post_authorize X p w :
  owed X (st w) →
  wp (trigger_internal_billing_authorize p) (λ r w',
    owed (match r with Ok _ => {[iba_request_id p]} ∪ X | Err _ => X end) (st w')) w.
Proof.
  intros [Ho Hn]. unfold trigger_internal_billing_authorize, post_internal_billing_json.
  wp_step. wp_step. destruct (control_plane_base_url (st w)) as [base|] eqn:Hb; [|wp_step; split; [done|by rewrite Hb]].
  wp_step. unfold wp at 1, post_billing. cbn [snd fst]. wp_step.
  set (answer := billing_answer _ _ _ _ _). clearbody answer.
  assert (Hopen : owed (if authorizes answer then {[iba_request_id p]} ∪ X else X)
                    ((st w) <| billing_exchanges ::= cons (mkExchange (Authorize p) answer) |>)).
  { split; [|change (control_plane_base_url (st w) = None →
                     open_holds (mkExchange (Authorize p) answer :: billing_exchanges (st w)) = ∅); by rewrite Hb].
    change (open_holds (mkExchange (Authorize p) answer :: billing_exchanges (st w))
            ⊆ (if authorizes answer then {[iba_request_id p]} ∪ X else X) ∪ tasks_holds (billing_tasks (st w))).
    cbn [open_holds]. destruct (authorizes answer); set_solver. }
  destruct answer as [|status body]; [done|]. unfold authorizes in Hopen.
  destruct (is_success status); cbn [andb] in Hopen; [|done].
  destruct (decode_authorize body); [rewrite bool_decide_true in Hopen by eauto|
    rewrite bool_decide_false in Hopen by (by intros [])]; done.
Qed.

Lemma owed_authorize X pending account path method started stream w :
  owed X (st w) →
  wp (authorize_billing_session pending account path method started stream) (λ r w',
    match r with
    | Ok s => owed ({[bse_request_id s]} ∪ X) (st w')
    | Err _ => owed X (st w')
    end) w.
Proof.
  intros Hw. unfold authorize_billing_session. do 3 wp_step.
  wp_use (owed_post_authorize X) as r w' Hr; [exact Hw|]. destruct r as [a|e]; repeat wp_step; exact Hr.
Qed.

(** ** Settlement *)

(** A hold that [X] and it owe is closed whatever is answered. *)
Definition closes (hold : gset string) {A} (m : BM A) : Prop :=
  ∀ X w, owed (hold ∪ X) (st w) → wp m (λ _ w', owed X (st w')) w.

Lemma owed_sample X model reserved charged : kept (P X) (record_preauth_error_ratio_sample model reserved charged).
Proof. owed_kept. Qed.

Lemma closes_settle session usage tier :
  closes {[bse_request_id session]} (settle_authorized_billing session usage tier).
Proof.
  intros X w Hw. unfold settle_authorized_billing. do 3 wp_step.
  wp_use (owed_capture _) as r w1 Hw1; [exact Hw|]. destruct r as [capture|err].
  - wp_step. apply (wp_mono _ (λ _ w', owed ({[bse_request_id session]} ∪ X) (st w')));
      [destruct (String.eqb _ _); wp_step; exact Hw1|intros _ w2 Hw2].
    do 3 wp_step. wp_use (owed_release X) as r w3 Hw3; [exact Hw2|]. destruct r as [status|e]; [|done].
    wp_step. apply (wp_mono _ (λ _ w', owed X (st w'))); [destruct (String.eqb _ _); wp_step; exact Hw3|intros _ w4 Hw4].
    wp_step. wp_use (owed_sample X _ _ _ w4 Hw4) as [] w5 Hw5. by repeat wp_step.
  - do 7 wp_step. wp_use (owed_release X) as r w3 Hw3; [exact Hw1|]. by wp_step.
Qed.

Lemma closes_release session context :
  closes (session_holds session) (release_billing_hold_best_effort session context).
Proof.
  intros X w Hw. destruct session as [s|]; cbn [session_holds release_billing_hold_best_effort] in *.
  - do 5 wp_step. wp_use (owed_release X) as r w1 Hw1; [exact Hw|]. by wp_step.
  - wp_step. revert Hw. apply owed_mono. set_solver.
Qed.

Lemma closes_settle_deferred session usage :
  closes {[bse_request_id session]} (run_settle_deferred session usage).
Proof.
  intros X w Hw. unfold run_settle_deferred. destruct (_ && _); [by apply (closes_release (Some session))|].
  wp_step. wp_use (closes_settle session) as r w1 Hw1; [exact Hw|]. by wp_step.
Qed.

Lemma owed_spawn X task w :
  owed (task_holds task ∪ X) (st w) → wp (spawn_billing_task task) (λ _ w', owed X (st w')) w.
Proof.
  intros [Ho Hn]. unfold spawn_billing_task. wp_step. split; [|exact Hn].
  change (open_holds (billing_exchanges (st w)) ⊆ X ∪ tasks_holds (task :: billing_tasks (st w))).
  unfold tasks_holds in *. cbn [fmap list_fmap union_list foldr]. set_solver.
Qed.

(** The hold of a successful response is closed or handed to a task; that of another
    stays with the session. *)
Lemma owed_settle_if_needed X session status body w :
  owed (session_holds session ∪ X) (st w) →
  wp (settle_billing_if_needed session status body) (λ r w',
    match r with
    | Ok NotNeeded => owed (session_holds session ∪ X) (st w') ∧ (is_success status = true → session = None)
    | _ => owed X (st w')
    end) w.
Proof.
  intros Hw. destruct session as [s|]; cbn [settle_billing_if_needed session_holds] in *; [|by wp_step].
  destruct (is_success status) eqn:Hs; cbn [negb]; [|by wp_step].
  destruct (extract_usage_tokens body) as [usage|]; wp_step.
  - wp_use (closes_settle s) as r w1 Hw1; [exact Hw|]. destruct r; [by wp_step|done].
  - wp_use (owed_spawn X) as [] w1 Hw1; [exact Hw|]. by wp_step.
Qed.

(** ** Streams *)

Lemma owed_elapsed X started : kept (P X) (elapsed_ms started).
Proof. apply kept_bind; [apply owed_now|intros t; apply kept_ret]. Qed.

Lemma owed_first_token X session log_context : kept (P X) (started_first_token_latency_ms session log_context).
Proof.
  unfold started_first_token_latency_ms.
  destruct session as [s|]; [|destruct log_context as [c|]; [|apply kept_ret]];
    (apply kept_bind; [apply owed_elapsed|intros ms; apply kept_ret]).
Qed.

(** A stream that is handed on takes its hold with it. *)
Lemma owed_stream_response X status headers stream session log_context w :
  owed (session_holds session ∪ X) (st w) →
  wp (stream_response_with_first_chunk status headers stream session log_context) (λ r w',
    match r with Ok _ => owed X (st w') | Err _ => owed (session_holds session ∪ X) (st w') end) w.
Proof.
  intros Hw. unfold stream_response_with_first_chunk. wp_step.
  wp_use (kept_stream_prelude _ (owed_core _) status headers) as [prelude|err] w1 Hw1; [exact Hw| |done].
  wp_step. wp_use (owed_first_token _ session log_context w1 Hw1) as latency w2 Hw2. wp_step.
  wp_use (owed_spawn X) as [] w3 Hw3; [by destruct session|]. by wp_step.
Qed.

Lemma owed_tx_send X : kept (P X) tx_send.
Proof. by intros w Hw. Qed.
Lemma owed_wait_next X : kept (P X) wait_next.
Proof. by intros w Hw. Qed.

Lemma owed_forward_prelude X tracker chunks : kept (P X) (forward_prelude tracker chunks).
Proof.
  revert tracker. induction chunks as [|chunk chunks IH]; intros tracker; cbn [forward_prelude]; [apply kept_ret|].
  apply kept_bind; [apply owed_tx_send|intros []]; [apply IH|apply kept_ret].
Qed.
Lemma owed_forward_rest X tracker stream : kept (P X) (forward_rest tracker stream).
Proof.
  revert tracker. induction stream as [|[chunk|err] stream IH]; intros tracker; cbn [forward_rest]; [apply kept_ret| |].
  all: apply kept_bind; [apply owed_tx_send|intros []]; first [apply kept_ret|apply IH].
Qed.
Lemma owed_drain_until X deadline tracker stream : kept (P X) (drain_until deadline tracker stream).
Proof.
  revert tracker. induction stream as [|[chunk|err] stream IH]; intros tracker; cbn [drain_until].
  all: apply kept_bind; [apply owed_now|intros t]; destruct (deadline <=? t); [owed_kept|].
  all: apply kept_bind; [apply owed_wait_next|intros []]; [owed_kept|first [apply kept_ret|apply IH]].
Qed.
Lemma owed_drain X tracker stream : kept (P X) (drain_upstream_stream_until_timeout tracker stream).
Proof.
  apply kept_bind; [apply owed_now|intros t]. apply kept_bind; [apply kept_gets|intros timeout]. apply owed_drain_until.
Qed.

Lemma owed_stream_log X session phase status usage :
  kept (P X) (emit_stream_request_log_event session phase status usage).
Proof.
  apply kept_bind; [apply kept_new_v4, owed_ticking|intros id]. apply kept_bind; [apply owed_elapsed|intros ms].
  apply kept_bind; [apply kept_utc_now, owed_ticking|intros t]. owed_kept.
Qed.
Lemma owed_usage_log X log_context latency observation :
  kept (P X) (emit_stream_usage_request_log_event log_context latency observation).
Proof.
  apply kept_bind; [apply kept_new_v4, owed_ticking|intros id]. apply kept_bind; [apply owed_elapsed|intros ms].
  apply kept_bind; [apply kept_utc_now, owed_ticking|intros t]. owed_kept.
Qed.

(** What follows operations that keep what is owed closes it. *)
Lemma closes_bind {A B} hold (m : BM A) (k : A → BM B) :
  (∀ X, kept (P X) m) → (∀ a, closes hold (k a)) → closes hold (m ≫= k).
Proof. intros Hm Hk X w Hw. wp_step. wp_use (Hm _ w Hw) as a w1 Hw1. by apply Hk. Qed.

Lemma closes_finalize session observation :
  closes {[bse_request_id session]} (finalize_stream_billing session observation).
Proof.
  unfold finalize_stream_billing. apply closes_bind; [intros X; owed_kept|intros _].
  set (s := if bool_decide (bse_effective_service_tier session = None) then _ else session).
  assert (Hs : bse_request_id s = bse_request_id session) by (unfold s; by case_bool_decide).
  rewrite <-Hs. clearbody s. apply closes_bind; [intros X; owed_kept|intros _].
  destruct (stream_usage s observation) as [usage|].
  - intros X w Hw. wp_step. wp_use (closes_settle s) as r w1 Hw1; [exact Hw|].
    destruct r; by apply owed_stream_log.
  - apply closes_bind; [intros X; apply owed_stream_log|intros _].
    apply closes_bind; [intros X; owed_kept|intros _]. apply (closes_release (Some s)).
Qed.

(** Running a task closes the hold it was given. *)
Lemma closes_task task : closes (task_holds task) (run_billing_task task).
Proof.
  destruct task as [s usage|chunks stream session log_context latency]; cbn [run_billing_task task_holds];
    [apply closes_settle_deferred|].
  apply closes_bind; [intros X; apply owed_forward_prelude|intros [tracker closed]].
  apply closes_bind; [intros X; destruct closed; [apply kept_ret|apply owed_forward_rest]|intros [[tracker' closed'] rest]].
  apply closes_bind; [intros X; destruct closed'; [apply owed_drain|apply kept_ret]|intros tracker''].
  destruct session as [s|]; [apply closes_finalize|]. intros X w Hw.
  apply (owed_mono _ X) in Hw; [|set_solver].
  destruct log_context as [c|]; [by apply owed_usage_log|by apply wp_ret].
Qed.

(** ** The amount to hold *)

Lemma owed_build_pending X principal headers context path method :
  kept (P X) (build_pending_billing_session principal headers context path method).
Proof. apply kept_build_pending; [apply owed_core|]. intros endpoint p. apply owed_post. by intros []. Qed.
End operations.
