(* ===== verification/Responses.v ===== *)
(** * Responses to the client and observed rate limits:
    [services/data-plane/src/proxy/ws_utils.rs], [request_utils.rs]

    The response carries the upstream's status and headers, less those of the
    connection and those that tell about the account behind it; clients that ask
    for the Codex protocol get the account's limits with the usage set to zero. *)
From S2P Require Import Prelude RustStr CoreModel Auth Json Request Failover RequestPolicy.

#[local] Open Scope string_scope.
#[local] Open Scope list_scope.
#[local] Open Scope Z_scope.

(** Numbers in headers: a percentage as the text and the value the library reads
    and writes, a time stamp in seconds. *)
Class NumberText := {
  Percent : Type;
  parse_percent : string → option Percent;
  percent_to_string : Percent → string;
  percent_zero : Percent;
  from_timestamp : Z → option DateTime;
  timestamp : DateTime → Z;
}.

Section rate_limits.
Context `{NumberText}.

Record ObservedRateLimitWindow := mkObservedRateLimitWindow {
  orw_used_percent : Percent;
  orw_window_minutes : option Z;
  orw_resets_at : option DateTime;
}.
Record ObservedCreditsSnapshot := mkObservedCreditsSnapshot {
  ocs_has_credits : bool;
  ocs_unlimited : bool;
  ocs_balance : option string;
}.
Record ObservedRateLimitSnapshot := mkObservedRateLimitSnapshot {
  ors_limit_id : option string;
  ors_limit_name : option string;
  ors_primary : option ObservedRateLimitWindow;
  ors_secondary : option ObservedRateLimitWindow;
  ors_credits : option ObservedCreditsSnapshot;
  ors_plan_type : option string;
}.

Definition observed_rate_limit_window_from_headers (headers : HeaderMap) (used_percent_header
    window_minutes_header resets_at_header : string) : option ObservedRateLimitWindow :=
  used_percent ← header_string headers used_percent_header ≫= parse_percent;
  Some (mkObservedRateLimitWindow used_percent
          (header_string headers window_minutes_header ≫= parse_signed i64_min i64_max)
          (seconds ← header_string headers resets_at_header ≫= parse_signed i64_min i64_max;
           from_timestamp seconds)).

Definition observed_credits_from_headers (headers : HeaderMap) : option ObservedCreditsSnapshot :=
  has_credits ← header_bool headers "x-codex-credits-has-credits";
  unlimited ← header_bool headers "x-codex-credits-unlimited";
  Some (mkObservedCreditsSnapshot has_credits unlimited (header_string headers "x-codex-credits-balance")).

Definition observed_rate_limits_from_headers (headers : HeaderMap) : list ObservedRateLimitSnapshot :=
  let primary := observed_rate_limit_window_from_headers headers "x-codex-primary-used-percent"
                   "x-codex-primary-window-minutes" "x-codex-primary-reset-at" in
  let secondary := observed_rate_limit_window_from_headers headers "x-codex-secondary-used-percent"
                     "x-codex-secondary-window-minutes" "x-codex-secondary-reset-at" in
  match primary, secondary with
  | None, None => []
  | _, _ => [mkObservedRateLimitSnapshot (Some "codex") (header_string headers "x-codex-limit-name")
               primary secondary (observed_credits_from_headers headers) None]
  end.

Definition zero_used_percent (w : ObservedRateLimitWindow) : ObservedRateLimitWindow :=
  mkObservedRateLimitWindow percent_zero (orw_window_minutes w) (orw_resets_at w).

Definition rewrite_downstream_rate_limit_snapshot (s : ObservedRateLimitSnapshot) :
    ObservedRateLimitSnapshot :=
  mkObservedRateLimitSnapshot (ors_limit_id s) (ors_limit_name s) (zero_used_percent <$> ors_primary s)
    (zero_used_percent <$> ors_secondary s) (ors_credits s) (ors_plan_type s).

(** ** Headers of the response *)

Definition is_upstream_private_rate_limit_header (name : string) : bool :=
  let header := to_ascii_lowercase name in
  starts_with header "x-codex-" &&
  (contains header "-primary-" || contains header "-secondary-" || starts_with header "x-codex-credits-"
   || ends_with header "-limit-name" || String.eqb header "x-codex-promo-message").

(** The headers of one window, under the names of the primary or the secondary. *)
Definition window_headers (prefix : string) (w : ObservedRateLimitWindow) : HeaderMap :=
  [(prefix +:+ "-used-percent", percent_to_string (orw_used_percent w))] ++
  match orw_window_minutes w with
  | Some minutes => [(prefix +:+ "-window-minutes", (if minutes <? 0 then "-" else "") +:+ decimal (Z.abs minutes))]
  | None => []
  end ++
  match orw_resets_at w with
  | Some at_ =>
      let t := timestamp at_ in
      [(prefix +:+ "-reset-at", (if t <? 0 then "-" else "") +:+ decimal (Z.abs t))]
  | None => []
  end.

Definition credits_headers (c : ObservedCreditsSnapshot) : HeaderMap :=
  let text (b : bool) := if b then "true" else "false" in
  [("x-codex-credits-has-credits", text (ocs_has_credits c));
   ("x-codex-credits-unlimited", text (ocs_unlimited c))] ++
  match ocs_balance c with Some balance => [("x-codex-credits-balance", balance)] | None => [] end.

(** What [apply_normalized_private_rate_limit_headers] inserts, in order; the
    values are numbers and texts of headers, which the library accepts. *)
Definition normalized_rate_limit_headers (source_headers : HeaderMap) : HeaderMap :=
  match head (observed_rate_limits_from_headers source_headers) with
  | None => []
  | Some observed =>
      let snapshot := rewrite_downstream_rate_limit_snapshot observed in
      match or_else (ors_limit_name snapshot) (header_string source_headers "x-codex-limit-name") with
      | Some limit_name => [("x-codex-limit-name", limit_name)]
      | None => []
      end ++
      from_option (window_headers "x-codex-primary") [] (ors_primary snapshot) ++
      from_option (window_headers "x-codex-secondary") [] (ors_secondary snapshot) ++
      from_option credits_headers [] (ors_credits snapshot)
  end.

Definition insert_headers (added headers : HeaderMap) : HeaderMap :=
  fold_left (λ h kv, header_insert kv.1 kv.2 h) added headers.

Definition is_withheld_header (name : string) : bool :=
  is_hop_by_hop_header name || String.eqb name "content-length"
  || is_upstream_private_rate_limit_header name.

Definition response_headers (headers : HeaderMap) (preserve_private_rate_limit_headers : bool) : HeaderMap :=
  let target := insert_headers (List.filter (λ h, negb (is_withheld_header h.1)) headers) [] in
  if preserve_private_rate_limit_headers
  then insert_headers (normalized_rate_limit_headers headers) target else target.
End rate_limits.

(** ** Responses *)

Inductive ResponseBody :=
  | JsonBody (envelope : ErrorEnvelope)
  | ValueBody (value : Value)
  | BytesBody (bytes : string)
  | StreamBody.

Record Response := mkResponse {
  rsp_status : Z;
  rsp_headers : HeaderMap;
  rsp_body : ResponseBody;
}.

Definition error_response (e : Z * ErrorEnvelope) : Response := mkResponse e.1 [] (JsonBody e.2).

Definition response_with_body_with_rate_limit_policy `{NumberText} (status : Z) (headers : HeaderMap)
    (body : ResponseBody) (preserve_private_rate_limit_headers : bool) : Response :=
  mkResponse status (response_headers headers preserve_private_rate_limit_headers) body.

Definition response_with_bytes `{NumberText} (status : Z) (headers : HeaderMap) (body : string) : Response :=
  response_with_body_with_rate_limit_policy status headers (BytesBody body) false.
