(* ===== verification/BackgroundResponses.v ===== *)
(** * Stored and background responses: [services/data-plane/src/proxy/responses_api.rs]

    The responses a client may retrieve later, the cursors that let it continue a
    conversation, and the queue of responses produced in the background. Every
    record and cursor carries the key of its owner; every lookup is made with one.
    The maps are behind locks; a method runs to completion before the next. The
    worker that sends a queued request back to the gateway is modelled without the
    semaphore and the pacing that delay it; the HTTP handlers around the store are
    not modelled. *)
From S2P Require Import Prelude RustStr CoreModel Auth RoutingCache Json Request Failover RequestPolicy StreamUsage Secrets.

#[local] Open Scope string_scope.
#[local] Open Scope list_scope.
#[local] Open Scope Z_scope.

Definition BACKGROUND_SELF_REQUEST_HEADER : string := "x-codex-background-task".

(** ** JSON helpers *)

(** [object.entry(k).or_insert(v)]. *)
Definition or_insert (k : string) (v : Value) (m : Map) : Map :=
  if map_contains k m then m else map_insert k v m.

(** [if let Some(object) = value.as_object_mut()]. *)
Definition on_object (f : Map → Map) (value : Value) : Value :=
  match value with VObject m => VObject (f m) | _ => value end.

Definition set_response_status (status : string) : Value → Value :=
  on_object (λ object,
    let object := map_insert "status" (VString status) object in
    map_insert "background" (VBool (default true (map_get "background" object ≫= as_bool))) object).

Definition set_response_timestamp (key : string) (value : Z) : Value → Value :=
  on_object (map_insert key (VInt value)).

Definition is_terminal_response_status (status : option string) : bool :=
  match status with
  | Some s => bool_decide (s ∈ ["completed"; "failed"; "cancelled"; "incomplete"])
  | None => false
  end.

Definition rewrite_response_ids (response_id : string) : Value → Value :=
  on_object (λ object,
    let object := if map_contains "response_id" object
                  then map_insert "response_id" (VString response_id) object else object in
    let object := map_update "response" (on_object (map_insert "id" (VString response_id))) object in
    if bool_decide (map_get "object" object ≫= as_str = Some "response")
    then map_insert "id" (VString response_id) object else object).

Definition request_explicitly_disables_store (value : Value) : bool :=
  bool_decide (get "store" value ≫= as_bool = Some false).

Definition ensure_input_item_shape (response_id : string) (index : nat) : Value → Value :=
  on_object (λ object,
    let object :=
      if negb (map_contains "type" object) && map_contains "role" object && map_contains "content" object
      then map_insert "type" (VString "message") object else object in
    or_insert "id" (VString ("item_" +:+ response_id +:+ "_" +:+ decimal (Z.of_nat index))) object).

Definition derive_input_items (request_body : Value) (response_id : string) : list Value :=
  let base_items :=
    match get "input" request_body with
    | Some (VString text) =>
        [json_object [("type", VString "message"); ("role", VString "user");
           ("content", VArray [json_object [("type", VString "input_text"); ("text", VString text)]])]]
    | Some (VArray items) => items
    | Some (VObject object) => [VObject object]
    | _ => []
    end in
  imap (ensure_input_item_shape response_id) base_items.

(** [status] is never ["completed"] where the stub is built, so its time stamp is
    not read. *)
Definition build_response_stub (request_body : Value) (response_id status : string) (background : bool)
    (created_at : Z) (conversation_id : option string) : Value :=
  let field k d := (k, default d (get k request_body)) in
  json_object
    [("id", VString response_id); ("object", VString "response"); ("created_at", VInt created_at);
     ("status", VString status); ("background", VBool background); ("error", VNull);
     ("incomplete_details", VNull); field "instructions" VNull; field "max_output_tokens" VNull;
     field "model" VNull; ("output", VArray []); field "parallel_tool_calls" (VBool true);
     field "previous_response_id" VNull; field "store" (VBool true); field "temperature" (VInt 1);
     field "text" (json_object [("format", json_object [("type", VString "text")])]);
     field "tool_choice" (VString "auto"); field "tools" (VArray []); field "top_p" (VInt 1);
     field "truncation" (VString "disabled"); ("usage", VNull); field "metadata" (VObject []);
     ("conversation", from_option VString VNull conversation_id)].

Definition build_failed_background_response (request_body : Value) (response_id : string)
    (status_code : Z) (error : Value) (created_at : Z) (conversation_id : option string) : Value :=
  on_object (λ object, map_insert "status_code" (VInt status_code) (map_insert "error" error object))
    (build_response_stub request_body response_id "failed" true created_at conversation_id).

(** ** State *)

Record StoredStreamEvent := mkStoredStreamEvent { sse_sequence_number : Z; sse_bytes : string }.

Record StoredResponseStream := mkStoredResponseStream {
  srs_events : list StoredStreamEvent;
  srs_next_sequence_number : Z;
  srs_terminal : bool;
}.
Definition StoredResponseStream_new : StoredResponseStream := mkStoredResponseStream [] 1 false.

Record StoredResponseRecord := mkStoredResponseRecord {
  srr_owner_key : string;
  srr_response : Value;
  srr_allow_retrieve : bool;
  srr_input_items : list Value;
  srr_request_body : option Value;
  srr_cancelled : bool;
  srr_background : bool;
  srr_stream_state : option StoredResponseStream;
  srr_expires_at : Instant;
}.
#[global] Instance eta_StoredResponseRecord : Eta StoredResponseRecord := λ r,
  mkStoredResponseRecord (srr_owner_key r) (srr_response r) (srr_allow_retrieve r) (srr_input_items r)
    (srr_request_body r) (srr_cancelled r) (srr_background r) (srr_stream_state r) (srr_expires_at r).

Record ConversationCursor := mkConversationCursor {
  cc_owner_key : string;
  cc_response_id : string;
  cc_expires_at : Instant;
}.

Record BackgroundResponsesRuntime := mkBackgroundResponsesRuntime {
  brr_entries : gmap string StoredResponseRecord;
  brr_conversations : gmap string ConversationCursor;
  brr_continuation_cursors : gmap string ConversationCursor;
  brr_retention : Duration;
  brr_self_base_url : string;
  brr_in_flight_total : Z;
}.
#[global] Instance eta_BackgroundResponsesRuntime : Eta BackgroundResponsesRuntime := λ r,
  mkBackgroundResponsesRuntime (brr_entries r) (brr_conversations r) (brr_continuation_cursors r)
    (brr_retention r) (brr_self_base_url r) (brr_in_flight_total r).

Abbreviation RM := (ST (Timed BackgroundResponsesRuntime)).

Inductive CancelResponseOutcome := CancelNotFound | NotCancellable | Cancelled (response : Value).
Inductive StreamLookupOutcome := StreamNotFound | NotStreamable | StreamFound.

Record ResponseInputItemsQuery := mkResponseInputItemsQuery {
  riq_limit : option nat;
  riq_order : option string;
  riq_after : option string;
}.

Definition response_owner_key `{UuidText} `{Digests} (principal : option ApiPrincipal) : string :=
  match principal with
  | None => "anonymous"
  | Some p => match api_key_id p with
              | Some id => "api_key:" +:+ uuid_to_string id
              | None => "token:" +:+ hex_encode (sha256 (token p))
              end
  end.

(** ** Server-sent event frames *)

Section frames.
Context `{SerdeJson} `{Utf8}.

(** [event_value.to_string()] of a JSON value does not fail. *)
Definition build_sse_frame (event_name : option string) (event_value : Value) : string :=
  from_option (λ name, "event: " +:+ name +:+ String LF "") "" event_name
  +:+ "data: " +:+ default "" (to_string event_value) +:+ String LF (String LF "").

Definition is_terminal_event (event_value : Value) : bool :=
  match get "type" event_value ≫= as_str with
  | Some kind => bool_decide (kind ∈ ["response.completed"; "response.done"; "response.failed";
                                      "response.incomplete"; "response.cancelled"])
  | None => false
  end.

(** [append_frame]: whether the event ends the stream, the response in it, and the
    stream after. *)
Definition append_frame (event_name : option string) (event_value : Value) (s : StoredResponseStream) :
    bool * option Value * StoredResponseStream :=
  let sequence_number := srs_next_sequence_number s in
  let event_value := on_object (map_insert "sequence_number" (VInt sequence_number)) event_value in
  let terminal := is_terminal_event event_value in
  (terminal, get "response" event_value,
   mkStoredResponseStream
     (srs_events s ++ [mkStoredStreamEvent sequence_number (build_sse_frame event_name event_value)])
     (sequence_number + 1) (srs_terminal s || terminal)).

Fixpoint join_lines (lines : list string) : string :=
  match lines with
  | [] => ""
  | [line] => line
  | line :: lines => line +:+ String LF (join_lines lines)
  end.

(** The event name and the payload lines of a frame. *)
Definition parse_sse_line (acc : option string * list string) (raw_line : string) :
    option string * list string :=
  let '(event_name, payload_lines) := acc in
  let line := trim_ascii raw_line in
  if is_empty line then acc else
  match strip_prefix "event:" line with
  | Some raw_event_name =>
      let event := trim_ascii raw_event_name in
      if is_empty event then acc else (Some (from_utf8_lossy event), payload_lines)
  | None =>
      match strip_prefix "data:" line with
      | Some raw_payload =>
          let payload := trim_ascii raw_payload in
          if is_empty payload then acc else (event_name, payload_lines ++ [payload])
      | None => (event_name, payload_lines ++ [line])
      end
  end.

Definition parse_sse_frame (frame : string) : option (option string * string) :=
  let '(event_name, payload_lines) := fold_left parse_sse_line (split LF frame) (None, []) in
  match payload_lines with [] => None | _ => Some (event_name, join_lines payload_lines) end.
End frames.

(** ** Operations *)

Section operations.
Context `{Clock} `{WallClock} `{UuidSource} `{SerdeJson} `{Utf8}.

(** [Utc::now().timestamp()]. *)
Definition utc_timestamp {S} : ST (Timed S) Z := t ← utc_now; mret (t `div` 1000000000).

Definition put_record (response_id : string) (record : StoredResponseRecord) : RM unit :=
  modify (λ s : BackgroundResponsesRuntime, s <| brr_entries ::= <[response_id := record]> |>).

Definition put_conversation (conversation_id : string) (cursor : ConversationCursor) : RM unit :=
  modify (λ s : BackgroundResponsesRuntime, s <| brr_conversations ::= <[conversation_id := cursor]> |>).

Definition cleanup_expired : RM unit :=
  t ← now;
  modify (λ s : BackgroundResponsesRuntime,
    s <| brr_entries ::= filter (λ kv, t < srr_expires_at kv.2) |>
      <| brr_conversations ::= filter (λ kv, t < cc_expires_at kv.2) |>
      <| brr_continuation_cursors ::= filter (λ kv, t < cc_expires_at kv.2) |>).

(** The record of an owner that has not expired. The clock is read only when the
    owner matches. *)
Definition owned_record (owner_key response_id : string) : RM (option StoredResponseRecord) :=
  entries ← gets brr_entries;
  match entries !! response_id with
  | None => mret None
  | Some record =>
      if negb (String.eqb (srr_owner_key record) owner_key) then mret None else
      t ← now;
      mret (if srr_expires_at record <=? t then None else Some record)
  end.

Definition lookup_response (owner_key response_id : string) : RM (option Value) :=
  found ← owned_record owner_key response_id;
  mret (record ← found; if srr_allow_retrieve record then Some (srr_response record) else None).

Fixpoint position_of (after : string) (items : list Value) : option nat :=
  match items with
  | [] => None
  | item :: items =>
      if bool_decide (get "id" item ≫= as_str = Some after) then Some 0%nat
      else Datatypes.S <$> position_of after items
  end.

(** The page of the items a query asks for. *)
Definition input_items_page (query : ResponseInputItemsQuery) (items : list Value) : Value :=
  let items := if String.eqb (default "desc" (riq_order query)) "asc" then items else reverse items in
  let items :=
    match riq_after query ≫= λ after, position_of after items with
    | Some position => drop (position + 1) items
    | None => items
    end in
  let limit := Nat.min (Nat.max (default 20%nat (riq_limit query)) 1) 100 in
  let page := take limit items in
  json_object [("object", VString "list"); ("data", VArray page);
    ("first_id", default VNull (head page ≫= get "id"));
    ("last_id", default VNull (list.last page ≫= get "id"));
    ("has_more", VBool (limit <? length items)%nat)].

Definition lookup_input_items (owner_key response_id : string) (query : ResponseInputItemsQuery) :
    RM (option Value) :=
  found ← owned_record owner_key response_id;
  mret (record ← found;
        if srr_allow_retrieve record then Some (input_items_page query (srr_input_items record)) else None).

Definition cancel_response (owner_key response_id : string) : RM CancelResponseOutcome :=
  found ← owned_record owner_key response_id;
  match found with
  | None => mret CancelNotFound
  | Some record =>
      if negb (srr_background record) then mret NotCancellable else
      let record := record <| srr_cancelled := true |> in
      if is_terminal_response_status (get "status" (srr_response record) ≫= as_str) then
        _ ← put_record response_id record;
        mret (Cancelled (srr_response record))
      else
        t ← utc_timestamp;
        let response :=
          set_response_timestamp "cancelled_at" t (set_response_status "cancelled" (srr_response record)) in
        let event := json_object [("type", VString "response.cancelled"); ("response", response)] in
        let record :=
          record <| srr_response := response |>
                 <| srr_stream_state ::=
                      fmap (λ s, (append_frame (Some "response.cancelled") event s).2) |> in
        _ ← put_record response_id record;
        mret (Cancelled response)
  end.

Definition owned_cursor (owner_key : string) (cursor : option ConversationCursor) : RM (option string) :=
  match cursor with
  | None => mret None
  | Some cursor =>
      if negb (String.eqb (cc_owner_key cursor) owner_key) then mret None else
      t ← now;
      mret (if cc_expires_at cursor <=? t then None else Some (cc_response_id cursor))
  end.

Definition current_conversation_response_id (owner_key conversation_id : string) : RM (option string) :=
  conversations ← gets brr_conversations;
  owned_cursor owner_key (conversations !! conversation_id).

Definition current_continuation_cursor_response_id (owner_key continuation_cursor_key : string) :
    RM (option string) :=
  cursors ← gets brr_continuation_cursors;
  owned_cursor owner_key (cursors !! continuation_cursor_key).

Definition store_continuation_cursor (owner_key continuation_cursor_key response_id : string) : RM unit :=
  t ← now;
  modify (λ s : BackgroundResponsesRuntime, s <| brr_continuation_cursors ::=
    <[continuation_cursor_key := mkConversationCursor owner_key response_id (t + brr_retention s)]> |>).

Definition queue_background_response (owner_key : string) (request_body : Value)
    (conversation_id : option string) : RM string :=
  id ← new_v4;
  let response_id := "resp_" +:+ uuid_simple id in
  created ← utc_timestamp;
  t ← now;
  retention ← gets brr_retention;
  _ ← put_record response_id
        (mkStoredResponseRecord owner_key
           (build_response_stub request_body response_id "queued" true created conversation_id) true
           (derive_input_items request_body response_id) (Some request_body) false true
           (if default false (get "stream" request_body ≫= as_bool)
            then Some StoredResponseStream_new else None)
           (t + retention));
  mret response_id.

Definition mark_background_in_progress (response_id : string) : RM bool :=
  entries ← gets brr_entries;
  match entries !! response_id with
  | None => mret false
  | Some record =>
      if srr_cancelled record then mret false else
      t ← utc_timestamp;
      _ ← put_record response_id
            (record <| srr_response ::= λ r,
               set_response_timestamp "started_at" t (set_response_status "in_progress" r) |>);
      mret true
  end.

(** The response of a background record with its flag and its conversation. *)
Definition background_response (background : bool) (conversation_id : option string) : Value → Value :=
  on_object (λ object,
    let object := map_insert "background" (VBool background) object in
    from_option (λ id, or_insert "conversation" (VString id) object) object conversation_id).

(** The cursor a finished response leaves. *)
Definition advance_conversation (record : StoredResponseRecord) (conversation_id : option string)
    (response_value : Value) : RM unit :=
  match conversation_id, get "id" response_value ≫= as_str with
  | Some conversation_id, Some final_response_id =>
      put_conversation conversation_id
        (mkConversationCursor (srr_owner_key record) final_response_id (srr_expires_at record))
  | _, _ => mret tt
  end.

Definition apply_background_result (response_id : string) (response_value : Value)
    (conversation_id : option string) : RM unit :=
  let response_value := rewrite_response_ids response_id response_value in
  entries ← gets brr_entries;
  match entries !! response_id with
  | None => mret tt
  | Some record =>
      if srr_cancelled record then mret tt else
      let response_value := background_response true conversation_id response_value in
      _ ← put_record response_id
            (record <| srr_response := response_value |> <| srr_request_body := None |>);
      advance_conversation record conversation_id response_value
  end.

Definition apply_background_response_snapshot (response_id : string) (response_value : Value)
    (conversation_id : option string) (terminal : bool) : RM unit :=
  entries ← gets brr_entries;
  match entries !! response_id with
  | None => mret tt
  | Some record =>
      if srr_cancelled record then mret tt else
      let response_value := background_response (srr_background record) conversation_id response_value in
      let updated := record <| srr_response := response_value |> in
      _ ← put_record response_id (if terminal then updated <| srr_request_body := None |> else updated);
      if terminal then advance_conversation record conversation_id response_value else mret tt
  end.

Definition apply_background_failure (response_id : string) (request_body : Value) (status_code : Z)
    (response_body : option string) (conversation_id : option string) : RM unit :=
  entries ← gets brr_entries;
  match entries !! response_id with
  | None => mret tt
  | Some record =>
      if srr_cancelled record then mret tt else
      let error :=
        default (json_object [("code", VString "background_request_failed");
                              ("message", VString "background request failed")])
          (body ← response_body; value ← from_slice body; get "error" value) in
      created ← utc_timestamp;
      put_record response_id
        (record <| srr_response :=
                     build_failed_background_response request_body response_id status_code error created
                       conversation_id |>
                <| srr_request_body := None |>)
  end.

Definition store_completed_response (owner_key : string) (request_body : Value) (response_body : string)
    (conversation_id : option string) (force_store : bool) : RM unit :=
  match response_value ← from_slice response_body;
        response_id ← get "id" response_value ≫= as_str; Some (response_value, response_id) with
  | None => mret tt
  | Some (response_value, response_id) =>
      if negb force_store && request_explicitly_disables_store request_body then mret tt else
      let response_value :=
        from_option (λ id, on_object (or_insert "conversation" (VString id)) response_value)
          response_value conversation_id in
      t ← now;
      retention ← gets brr_retention;
      let expires_at := t + retention in
      _ ← put_record response_id
            (mkStoredResponseRecord owner_key response_value
               (negb (request_explicitly_disables_store request_body) || force_store)
               (derive_input_items request_body response_id) None false false None expires_at);
      match conversation_id with
      | Some id => put_conversation id (mkConversationCursor owner_key response_id expires_at)
      | None => mret tt
      end
  end.

(** The frame is parsed and rewritten before the record is looked up. *)
Definition append_background_stream_frame (owner_key response_id frame : string)
    (conversation_id : option string) : RM unit :=
  match parsed ← parse_sse_frame frame; value ← from_slice (parsed.2); Some (parsed.1, value) with
  | None => mret tt
  | Some (event_name, event_value) =>
      let event_value := rewrite_response_ids response_id event_value in
      found ← owned_record owner_key response_id;
      match record ← found; stream ← srr_stream_state record; Some (record, stream) with
      | None => mret tt
      | Some (record, stream) =>
          let '(terminal, response_snapshot, stream) := append_frame event_name event_value stream in
          _ ← put_record response_id (record <| srr_stream_state := Some stream |>);
          match response_snapshot with
          | Some snapshot =>
              apply_background_response_snapshot response_id snapshot conversation_id terminal
          | None => mret tt
          end
      end
  end.

Definition stream_response (owner_key response_id : string) : RM StreamLookupOutcome :=
  found ← owned_record owner_key response_id;
  mret match found with
       | None => StreamNotFound
       | Some record =>
           match srr_stream_state record with Some _ => StreamFound | None => NotStreamable end
       end.

(** One turn of the task that sends a stored stream: the events from
    [next_sequence] on, and whether the stream has ended; [None] ends the task. *)
Definition stream_turn (owner_key response_id : string) (next_sequence : Z) :
    RM (option (list StoredStreamEvent * bool)) :=
  found ← owned_record owner_key response_id;
  mret (record ← found; stream ← srr_stream_state record;
        Some (List.filter (λ e, next_sequence <=? sse_sequence_number e) (srs_events stream),
              srs_terminal stream)).
End operations.

(** ** The worker of a queued response *)

Record BackgroundRequestSnapshot := mkBackgroundRequestSnapshot {
  bgs_response_id : string;
  bgs_owner_key : string;
  bgs_principal_token : string;
  bgs_headers : HeaderMap;
  bgs_body : Value;
  bgs_conversation_id : option string;
  bgs_stream : bool;
}.

(** The names the self-request sets itself are not copied. *)
Definition collect_background_headers (headers : HeaderMap) : HeaderMap :=
  omap (λ h, if bool_decide (h.1 ∈ ["authorization"; "host"; "content-length"; "content-type";
                                    BACKGROUND_SELF_REQUEST_HEADER])
             then None else (λ value, (h.1, value)) <$> header_to_str h.2) headers.

Record SelfRequest := mkSelfRequest { sr_url : string; sr_headers : HeaderMap; sr_body : string }.

(** The answer to the self-request: none, or its status and the chunks of its
    body, each of which may fail to be read. *)
Inductive SelfAnswer := NoSelfAnswer | SelfAnswered (status : Z) (chunks : list (result string string)).
Class SelfApi := { self_answer : nat → SelfRequest → SelfAnswer }.

(** [response.bytes()]: the whole body, or an error. *)
Fixpoint body_bytes (chunks : list (result string string)) : option string :=
  match chunks with
  | [] => Some ""
  | Ok chunk :: chunks => (λ rest, chunk +:+ rest) <$> body_bytes chunks
  | Err _ :: _ => None
  end.

Fixpoint index_of (pattern s : string) : option nat :=
  if starts_with s pattern then Some 0%nat
  else match s with
       | EmptyString => None
       | String _ r => Datatypes.S <$> index_of pattern r
       end.

Definition find_sse_frame_end (buffer : string) : option nat :=
  match index_of (String CR (String LF (String CR (String LF "")))) buffer with
  | Some index => Some (index + 4)%nat
  | None => (λ index, (index + 2)%nat) <$> index_of (String LF (String LF "")) buffer
  end.

Definition string_take (n : nat) (s : string) : string := String.substring 0 n s.
Definition string_drop (n : nat) (s : string) : string := String.substring n (String.length s - n) s.

Section worker.
Context `{Clock} `{WallClock} `{UuidSource} `{SerdeJson} `{Utf8} `{SelfApi}.
Context (snapshot : BackgroundRequestSnapshot).

Definition append_worker_frame (frame : string) : RM unit :=
  append_background_stream_frame (bgs_owner_key snapshot) (bgs_response_id snapshot) frame
    (bgs_conversation_id snapshot).

Definition worker_failure (status : Z) (body : option string) : RM unit :=
  apply_background_failure (bgs_response_id snapshot) (bgs_body snapshot) status body
    (bgs_conversation_id snapshot).

(** The [while] over the complete frames in the buffer: the rest of the buffer and
    whether the stored response has ended. *)
Fixpoint drain_frames (fuel : nat) (buffer : string) (saw_terminal : bool) : RM (string * bool) :=
  match fuel with
  | O => mret (buffer, saw_terminal)
  | Datatypes.S fuel =>
      match find_sse_frame_end buffer with
      | None => mret (buffer, saw_terminal)
      | Some frame_end =>
          _ ← append_worker_frame (string_take frame_end buffer);
          stored ← lookup_response (bgs_owner_key snapshot) (bgs_response_id snapshot);
          let ended := is_terminal_response_status (stored ≫= λ value, get "status" value ≫= as_str) in
          drain_frames fuel (string_drop frame_end buffer) (saw_terminal || ended)
      end
  end.

(** The [while] over the chunks: [None] when a chunk could not be read. *)
Fixpoint read_background_stream (chunks : list (result string string)) (buffer : string)
    (saw_terminal : bool) : RM (option (string * bool)) :=
  match chunks with
  | [] => mret (Some (buffer, saw_terminal))
  | Err _ :: _ => _ ← worker_failure 502 None; mret None
  | Ok chunk :: chunks =>
      let buffer := buffer +:+ chunk in
      '(buffer, saw_terminal) ← drain_frames (String.length buffer) buffer saw_terminal;
      read_background_stream chunks buffer saw_terminal
  end.

Definition run_background_stream (chunks : list (result string string)) : RM unit :=
  ended ← read_background_stream chunks "" false;
  match ended with
  | None => mret tt
  | Some (buffer, saw_terminal) =>
      _ ← match find_sse_frame_end buffer with
          | Some frame_end => append_worker_frame (string_take frame_end buffer)
          | None => if is_empty (trim_ascii buffer) then mret tt else append_worker_frame buffer
          end;
      if saw_terminal : bool then mret tt else worker_failure 502 None
  end.

Definition self_request_body : Value :=
  on_object (λ object, map_insert "stream" (VBool (bgs_stream snapshot)) (map_remove "background" object))
    (bgs_body snapshot).

Definition send_self_request (request : SelfRequest) : RM SelfAnswer := λ w,
  (self_answer (ticks w) request, mkTimed (st w) (Datatypes.S (ticks w))).

Definition handle_self_answer (answer : SelfAnswer) : RM unit :=
  match answer with
  | NoSelfAnswer => worker_failure 502 None
  | SelfAnswered status chunks =>
      let success := (200 <=? status) && (status <? 300) in
      if success && bgs_stream snapshot then run_background_stream chunks else
      let response_body := body_bytes chunks in
      if success then
        match response_body with
        | None => mret tt
        | Some body =>
            match from_slice body with
            | Some value =>
                apply_background_result (bgs_response_id snapshot) value (bgs_conversation_id snapshot)
            | None => worker_failure 502 (Some body)
            end
        end
      else worker_failure status response_body
  end.

Definition run_background_worker : RM unit :=
  started ← mark_background_in_progress (bgs_response_id snapshot);
  if negb started then mret tt else
  _ ← modify (λ s : BackgroundResponsesRuntime, s <| brr_in_flight_total ::= λ n, u64_wrap (n + 1) |>);
  _ ← match to_string self_request_body with
      | None => worker_failure 400 None
      | Some body =>
          base ← gets brr_self_base_url;
          answer ← send_self_request
                     (mkSelfRequest (trim_end_slashes base +:+ "/v1/responses")
                        ([("authorization", "Bearer " +:+ bgs_principal_token snapshot);
                          ("content-type", "application/json"); (BACKGROUND_SELF_REQUEST_HEADER, "1")]
                         ++ bgs_headers snapshot) body);
          handle_self_answer answer
      end;
  modify (λ s : BackgroundResponsesRuntime, s <| brr_in_flight_total ::= λ n, u64_wrap (n - 1) |>).
End worker.
