(* ===== verification/BackgroundFacts.v ===== *)
(** * Stored responses belong to their owner

    What an owner can read is never changed, and never extended, by the operations
    of other owners and of the workers of their responses. *)
From S2P Require Import Prelude RustStr CoreModel Auth RoutingCache Json Request Failover RequestPolicy StreamUsage Secrets BackgroundResponses Kept.

#[local] Open Scope string_scope.
#[local] Open Scope list_scope.
#[local] Open Scope Z_scope.

Implicit Types (s : BackgroundResponsesRuntime) (o : string).

(** ** What an owner has *)

(** Everything of [o] in [s'] is in [s]. *)
Definition within o s s' : Prop :=
  (∀ id r, brr_entries s' !! id = Some r → srr_owner_key r = o → brr_entries s !! id = Some r)
  ∧ (∀ id c, brr_conversations s' !! id = Some c → cc_owner_key c = o → brr_conversations s !! id = Some c)
  ∧ (∀ id c, brr_continuation_cursors s' !! id = Some c → cc_owner_key c = o →
       brr_continuation_cursors s !! id = Some c).

#[export] Instance within_preorder o : PreOrder (within o).
Proof.
  split; [by intros s|]. intros s1 s2 s3 (E1 & C1 & K1) (E2 & C2 & K2). split_and!; eauto.
Qed.

(** No record under [id], or one of an owner other than [o]. *)
Definition others_record o (id : string) s : Prop :=
  ∀ r, brr_entries s !! id = Some r → srr_owner_key r ≠ o.

Lemma within_entry o s id r : srr_owner_key r ≠ o → within o s (s <| brr_entries ::= <[id := r]> |>).
Proof.
  intros Hr. split_and!; [|done|done]. intros j r' Hj Ho. change (<[id := r]> (brr_entries s) !! j = Some r') in Hj.
  apply lookup_insert_Some in Hj as [[_ <-]|[_ Hj]]; done.
Qed.

Lemma within_conversation o s id c :
  cc_owner_key c ≠ o → within o s (s <| brr_conversations ::= <[id := c]> |>).
Proof.
  intros Hr. split_and!; [done| |done]. intros j c' Hj Ho. change (<[id := c]> (brr_conversations s) !! j = Some c') in Hj.
  apply lookup_insert_Some in Hj as [[_ <-]|[_ Hj]]; done.
Qed.

Lemma within_cursor o s id c :
  cc_owner_key c ≠ o → within o s (s <| brr_continuation_cursors ::= <[id := c]> |>).
Proof.
  intros Hr. split_and!; [done|done|]. intros j c' Hj Ho.
  change (<[id := c]> (brr_continuation_cursors s) !! j = Some c') in Hj.
  apply lookup_insert_Some in Hj as [[_ <-]|[_ Hj]]; done.
Qed.

(** A state in which nothing was added to what [o] had in [s0], and [id] is not [o]'s. *)
Definition spared o (id : string) (s0 : BackgroundResponsesRuntime) (w : Timed BackgroundResponsesRuntime) :
    Prop := within o s0 (st w) ∧ others_record o id (st w).

Section spared.
Context `{Clock} `{WallClock} `{UuidSource} `{SerdeJson} `{Utf8}.
Context (o id : string) (s0 : BackgroundResponsesRuntime).
Abbreviation P := (spared o id s0).

Lemma spared_tick : ticking P.
Proof. by intros s n. Qed.

Lemma spared_now : kept P now.
Proof. intros w Hw. by wp_step. Qed.

Lemma spared_put_record j r : srr_owner_key r ≠ o → kept P (put_record j r).
Proof.
  intros Hr w [Hw Hid]. unfold put_record. wp_step. split; [etrans; [done|by apply within_entry]|].
  intros r' Hr'. change (<[j := r]> (brr_entries (st w)) !! id = Some r') in Hr'.
  apply lookup_insert_Some in Hr' as [[_ <-]|[_ Hr']]; [done|by apply Hid].
Qed.

Lemma spared_put_conversation j c : cc_owner_key c ≠ o → kept P (put_conversation j c).
Proof.
  intros Hc w [Hw Hid]. unfold put_conversation. wp_step.
  split; [etrans; [done|by apply within_conversation]|done].
Qed.

Lemma spared_advance record conversation v :
  srr_owner_key record ≠ o → kept P (advance_conversation record conversation v).
Proof.
  intros Hr. unfold advance_conversation. destruct conversation; [|apply kept_ret].
  destruct (get "id" v ≫= as_str); [by apply spared_put_conversation|apply kept_ret].
Qed.

Lemma spared_timestamp : kept P utc_timestamp.
Proof. kept_with ltac:(apply spared_tick). Qed.

Lemma owned_record_spec owner j w :
  wp (owned_record owner j)
    (λ found w', st w' = st w
       ∧ ∀ r, found = Some r → brr_entries (st w) !! j = Some r ∧ srr_owner_key r = owner
                               ∧ ∃ n, clock n < srr_expires_at r) w.
Proof.
  unfold owned_record. wp_step. wp_step. wp_step; [|by wp_step].
  destruct (String.eqb_spec (srr_owner_key s) owner) as [Ho|]; cbn [negb]; [|by wp_step].
  wp_step. wp_step. wp_step. split; [done|].
  destruct (Z.leb_spec (srr_expires_at s) (clock (ticks w))); [done|]. intros r [= <-]. eauto.
Qed.

Lemma spared_owned {A} owner j (k : option StoredResponseRecord → RM A) :
  owner ≠ o → (∀ found, (∀ r, found = Some r → srr_owner_key r ≠ o) → kept P (k found)) →
  kept P (owned_record owner j ≫= k).
Proof.
  intros Ho Hk w Hw. wp_step. wp_use (owned_record_spec owner j w) as found w' (Hs & Hf).
  apply Hk; [|by unfold spared; rewrite Hs]. intros r Hr. destruct (Hf r Hr) as (_ & -> & _). done.
Qed.

(** One step of an operation: its writes are to records and cursors of others. *)
Ltac spared_step :=
  first [ apply spared_put_record; assumption | apply spared_put_conversation; assumption
        | apply spared_advance; assumption | apply spared_timestamp | apply spared_now
        | apply spared_tick | kept_step ].

(** An operation that starts by reading the record under [id]. *)
Ltac spared_entry :=
  let w := fresh "w" in let Hw := fresh "Hw" in let Hid := fresh "Hid" in
  let r := fresh "record" in let E := fresh "E" in let Ho := fresh "Ho" in let Hk := fresh "Hk" in
  intros w [Hw Hid]; wp_step; wp_step;
  destruct (brr_entries (st w) !! id) as [r|] eqn:E; [|by wp_step];
  assert (Ho : srr_owner_key r ≠ o) by (by apply Hid);
  match goal with |- wp ?m _ _ => enough (kept P m) as Hk by (by apply Hk) end;
  repeat spared_step.

Lemma spared_mark : kept P (mark_background_in_progress id).
Proof. unfold mark_background_in_progress. spared_entry. Qed.

Lemma spared_result v c : kept P (apply_background_result id v c).
Proof. unfold apply_background_result. spared_entry. Qed.

Lemma spared_snapshot v c t : kept P (apply_background_response_snapshot id v c t).
Proof. unfold apply_background_response_snapshot. destruct t; spared_entry. Qed.

Lemma spared_failure v code body c : kept P (apply_background_failure id v code body c).
Proof. unfold apply_background_failure. spared_entry. Qed.

(** Operations made for an owner other than [o]. *)
Context (other : string) (Hother : other ≠ o).

Lemma spared_cursor key r : kept P (store_continuation_cursor other key r).
Proof.
  unfold store_continuation_cursor. apply kept_bind; [apply spared_now|intros t].
  intros w [Hw Hid]. wp_step. split; [etrans; [done|by apply within_cursor]|done].
Qed.

Lemma spared_queue body c : kept P (queue_background_response other body c).
Proof. unfold queue_background_response. repeat spared_step; cbn; done. Qed.

Lemma spared_store req resp c force : kept P (store_completed_response other req resp c force).
Proof. unfold store_completed_response. repeat spared_step; cbn; done. Qed.

Lemma spared_cancel j : kept P (cancel_response other j).
Proof.
  unfold cancel_response. apply spared_owned; [done|]. intros [r|] Hr; [|apply kept_ret].
  specialize (Hr r eq_refl). repeat spared_step.
Qed.

Lemma spared_append frame c : kept P (append_background_stream_frame other id frame c).
Proof.
  unfold append_background_stream_frame. destruct (_ ≫= _) as [[name v]|]; [|apply kept_ret].
  apply spared_owned; [done|]. intros [r|] Hr; [|apply kept_ret]. specialize (Hr r eq_refl).
  cbn [mbind option_bind]. destruct (srr_stream_state r); [|apply kept_ret]. cbn [mbind option_bind].
  destruct (append_frame _ _ _) as [[t [snapshot|]] stream].
  all: apply kept_bind; [by apply spared_put_record|intros _].
  - apply spared_snapshot.
  - apply kept_ret.
Qed.

Lemma spared_lookup owner j : kept P (lookup_response owner j).
Proof.
  intros w Hw. unfold lookup_response. wp_step. wp_use (owned_record_spec owner j w) as found w' (Hs & _).
  wp_step. by unfold spared; rewrite Hs.
Qed.

(** The worker of a response of [other]. *)
Context `{SelfApi} (snapshot : BackgroundRequestSnapshot).
Context (Howner : bgs_owner_key snapshot = other) (Hid : bgs_response_id snapshot = id).

Lemma spared_frame frame : kept P (append_worker_frame snapshot frame).
Proof. unfold append_worker_frame. rewrite Howner, Hid. apply spared_append. Qed.

Lemma spared_worker_failure code body : kept P (worker_failure snapshot code body).
Proof. unfold worker_failure. rewrite Hid. apply spared_failure. Qed.

Lemma spared_drain fuel buffer saw : kept P (drain_frames snapshot fuel buffer saw).
Proof.
  revert buffer saw. induction fuel as [|fuel IH]; intros buffer saw; cbn [drain_frames]; [apply kept_ret|].
  destruct (find_sse_frame_end buffer); [|apply kept_ret].
  apply kept_bind; [apply spared_frame|intros _]. apply kept_bind; [apply spared_lookup|intros stored]. apply IH.
Qed.

Lemma spared_read chunks buffer saw : kept P (read_background_stream snapshot chunks buffer saw).
Proof.
  revert buffer saw. induction chunks as [|[chunk|e] chunks IH]; intros buffer saw;
    cbn [read_background_stream]; [apply kept_ret| |].
  - apply kept_bind; [apply spared_drain|intros [b t]]. apply IH.
  - apply kept_bind; [apply spared_worker_failure|intros _]. apply kept_ret.
Qed.

Lemma spared_stream chunks : kept P (run_background_stream snapshot chunks).
Proof.
  unfold run_background_stream. apply kept_bind; [apply spared_read|intros [[b t]|]]; [|apply kept_ret].
  apply kept_bind; [|intros _; destruct t; [apply kept_ret|apply spared_worker_failure]].
  destruct (find_sse_frame_end b); [apply spared_frame|].
  destruct (is_empty _); [apply kept_ret|apply spared_frame].
Qed.

Lemma spared_answer answer : kept P (handle_self_answer snapshot answer).
Proof.
  unfold handle_self_answer. destruct answer as [|status chunks]; [apply spared_worker_failure|].
  destruct (_ && bgs_stream snapshot); [apply spared_stream|].
  destruct (_ && _); [|apply spared_worker_failure]. destruct (body_bytes chunks); [|apply kept_ret].
  destruct (from_slice _); [rewrite Hid; apply spared_result|apply spared_worker_failure].
Qed.

Lemma spared_worker : kept P (run_background_worker snapshot).
Proof.
  unfold run_background_worker. rewrite Hid. apply kept_bind; [apply spared_mark|intros started].
  destruct (negb started); [apply kept_ret|]. apply kept_bind; [by apply kept_modify|intros _].
  apply kept_bind; [|intros _; by apply kept_modify].
  destruct (to_string _); [|apply spared_worker_failure]. apply kept_bind; [apply kept_gets|intros base].
  apply kept_bind; [by intros w Hw|intros answer]. apply spared_answer.
Qed.
End spared.

(** ** Isolation *)

Section isolation.
Context `{Clock} `{WallClock} `{UuidSource} `{SerdeJson} `{Utf8} `{SelfApi}.
Context (o : string).

(** What happens without [o]: operations of the gateway for other owners, workers
    of responses of other owners, and the removal of what has expired. *)
Inductive step_of_others : relation (Timed BackgroundResponsesRuntime) :=
  | other_queues other body c w : other ≠ o →
      step_of_others w (queue_background_response other body c w).2
  | other_stores other req resp c force w : other ≠ o →
      step_of_others w (store_completed_response other req resp c force w).2
  | other_continues other key r w : other ≠ o →
      step_of_others w (store_continuation_cursor other key r w).2
  | other_cancels other id w : other ≠ o → step_of_others w (cancel_response other id w).2
  | other_worker snapshot w : bgs_owner_key snapshot ≠ o →
      others_record o (bgs_response_id snapshot) (st w) →
      step_of_others w (run_background_worker snapshot w).2
  | expired_removed w : step_of_others w (cleanup_expired w).2.

(** An operation that keeps [spared] for an id nobody has. *)
Lemma kept_within {A} (m : RM A) id w :
  (∀ s0, kept (spared o id s0) m) → others_record o id (st w) → within o (st w) (st (m w).2).
Proof. intros Hm Hid. by apply (Hm (st w) w). Qed.

Lemma fresh_id s : ∃ id, others_record o id s.
Proof.
  exists (fresh (dom (brr_entries s))). intros r Hr. exfalso.
  apply (is_fresh (dom (brr_entries s))), elem_of_dom. eauto.
Qed.

Lemma step_of_others_within w w' : step_of_others w w' → within o (st w) (st w').
Proof.
  intros Hs. destruct Hs as [other b c w Ho|other q r c f w Ho|other k r w Ho|other j w Ho|sn w Ho Hid|w].
  1-4: destruct (fresh_id (st w)) as [id Hf].
  - apply (kept_within _ id); [intros s0; by apply spared_queue|done].
  - apply (kept_within _ id); [intros s0; by apply spared_store|done].
  - apply (kept_within _ id); [intros s0; by apply spared_cursor|done].
  - apply (kept_within _ id); [intros s0; by apply spared_cancel|done].
  - apply (kept_within _ (bgs_response_id sn)); [intros s0; by eapply spared_worker|done].
  - split_and!.
    + intros id r [? _]%map_lookup_filter_Some _. done.
    + intros id r [? _]%map_lookup_filter_Some _. done.
    + intros id r [? _]%map_lookup_filter_Some _. done.
Qed.

Lemma steps_of_others_within w w' : rtc step_of_others w w' → within o (st w) (st w').
Proof. induction 1 as [|x y z Hs _ IH]; [done|]. etrans; [by apply step_of_others_within|done]. Qed.

Lemma owned_cursor_spec c w :
  wp (owned_cursor o c) (λ found _, ∀ id, found = Some id →
    ∃ cursor, c = Some cursor ∧ cc_owner_key cursor = o ∧ cc_response_id cursor = id) w.
Proof.
  unfold owned_cursor. destruct c as [cursor|]; [|by wp_step].
  destruct (String.eqb_spec (cc_owner_key cursor) o); cbn [negb]; [|by wp_step].
  wp_step. wp_step. wp_step. destruct (_ <=? _); [done|]. intros id [= <-]. eauto.
Qed.

(** C25: the stored responses of a client are its own. After any run of operations
    of other clients, of the workers of their background responses and of the
    clean-up, whatever the client can retrieve under an id is a response that was
    stored for it before, unchanged, and the cursor its conversation continues
    from is one it had set. *)
Theorem stored_responses_are_private w w' id key :
  rtc step_of_others w w' →
  wp (lookup_response o id) (λ found _, ∀ v, found = Some v →
    ∃ r, brr_entries (st w) !! id = Some r ∧ srr_owner_key r = o ∧ srr_allow_retrieve r = true
         ∧ srr_response r = v) w'
  ∧ wp (current_conversation_response_id o key) (λ found _, ∀ id, found = Some id →
    ∃ c, brr_conversations (st w) !! key = Some c ∧ cc_owner_key c = o ∧ cc_response_id c = id) w'
  ∧ wp (current_continuation_cursor_response_id o key) (λ found _, ∀ id, found = Some id →
    ∃ c, brr_continuation_cursors (st w) !! key = Some c ∧ cc_owner_key c = o ∧ cc_response_id c = id) w'.
Proof.
  intros (He & Hc & Hk)%steps_of_others_within. split_and!.
  - unfold lookup_response. wp_step. wp_use (owned_record_spec o id w') as found w1 (_ & Hf). wp_step.
    intros v. destruct found as [r|]; [|done]. destruct (Hf r eq_refl) as (Hr & Ho & _). cbn.
    destruct (srr_allow_retrieve r) eqn:Ha; [|done]. intros [= <-]. exists r. split_and!; eauto.
  - unfold current_conversation_response_id. wp_step. wp_step. wp_use owned_cursor_spec as found w1 Hf.
    intros i Hi. destruct (Hf i Hi) as (c & Hcc & Ho & Hr). eauto.
  - unfold current_continuation_cursor_response_id. wp_step. wp_step. wp_use owned_cursor_spec as found w1 Hf.
    intros i Hi. destruct (Hf i Hi) as (c & Hcc & Ho & Hr). eauto.
Qed.
End isolation.

(** ** Runs *)

Module Runs.
(** A decoder that knows one text, a clock of one nanosecond per reading. *)
Definition completed : Value :=
  json_object [("type", VString "response.completed");
               ("response", json_object [("id", VString "up"); ("status", VString "completed")])].
#[local] Instance one_text : SerdeJson :=
  {| from_slice text := if String.eqb text "done" then Some completed else None; to_string _ := Some "{}" |}.
#[local] Instance ascii_text : Utf8 := {| from_utf8_lossy text := text |}.
#[local] Existing Instance unit_clock.
#[local] Instance still_clock : WallClock := {| utc _ := 0 |}.

Definition record_of (owner : string) : StoredResponseRecord :=
  mkStoredResponseRecord owner (json_object [("status", VString "in_progress")]) true [] None false true
    (Some StoredResponseStream_new) 1000.
Definition runtime : BackgroundResponsesRuntime :=
  mkBackgroundResponsesRuntime {["r" := record_of "alice"]} ∅ ∅ 1000 "http://self" 0.
Definition snapshot : BackgroundRequestSnapshot :=
  mkBackgroundRequestSnapshot "r" "alice" "token" [] (VObject []) None true.
Definition status_of (id : string) (s : BackgroundResponsesRuntime) : option string :=
  r ← brr_entries s !! id; get "status" (srr_response r) ≫= as_str.

(** A stream that ends with its last event complete but without the blank line after
    it: the event is stored, but the worker does not look at it again, and writes a
    failure over the completed response. *)
Example completed_without_blank_line_is_failed :
  status_of "r" (st (run_background_stream snapshot [Ok "data: done"] (mkTimed runtime 0)).2) = Some "failed"
  ∧ status_of "r" (st (run_background_stream snapshot
      [Ok ("data: done" +:+ String LF (String LF ""))] (mkTimed runtime 0)).2) = Some "completed".
Proof. by vm_compute. Qed.

(** A successful answer whose body cannot be read changes nothing: the response
    stays in progress until it expires. *)
Lemma unreadable_body_leaves_response_in_progress sn status e w :
  200 <= status < 300 → bgs_stream sn = false →
  handle_self_answer sn (SelfAnswered status [Err e]) w = (tt, w).
Proof.
  intros Hs Hst. unfold handle_self_answer. rewrite Hst, andb_false_r.
  destruct (Z.leb_spec 200 status), (Z.ltb_spec status 300); try lia. done.
Qed.

(** After a cancellation the worker's frames still reach the stored stream: an event
    that says the response is complete follows the one that says it was cancelled. *)
Example frames_follow_cancellation :
  let w := (cancel_response "alice" "r" (mkTimed runtime 0)).2 in
  let w' := (append_worker_frame snapshot "data: done" w).2 in
  (length ∘ srs_events) <$> (r ← brr_entries (st w') !! "r"; srr_stream_state r) = Some 2%nat
  ∧ status_of "r" (st w') = Some "cancelled".
Proof. by vm_compute. Qed.

(** Cursors are kept under the key the client chose, whoever the client is: another
    client with the same key makes the first lose its cursor. *)
Example same_key_evicts_cursor :
  let w := (store_continuation_cursor "alice" "session" "a" (mkTimed runtime 0)).2 in
  let w' := (store_continuation_cursor "bob" "session" "b" w).2 in
  (current_continuation_cursor_response_id "alice" "session" w).1 = Some "a"
  ∧ (current_continuation_cursor_response_id "alice" "session" w').1 = None.
Proof. by vm_compute. Qed.

#[local] Instance counted_ids : UuidSource := {| uuid_v4 n := N.of_nat n |}.
#[local] Instance no_self : SelfApi := {| self_answer _ _ := NoSelfAnswer |}.

Lemma stored_responses_are_private_witness :
  let w := mkTimed runtime 0 in
  let w' := (store_completed_response "bob" (VObject []) "done" None false w).2 in
  wp (lookup_response "alice" "r") (λ found _, ∀ v, found = Some v →
    ∃ r, brr_entries (st w) !! "r" = Some r ∧ srr_owner_key r = "alice" ∧ srr_allow_retrieve r = true
         ∧ srr_response r = v) w'
  ∧ (lookup_response "alice" "r" w').1 = Some (srr_response (record_of "alice")).
Proof.
  cbv zeta. split; [|by vm_compute].
  refine (proj1 (stored_responses_are_private "alice" (mkTimed runtime 0)
    (store_completed_response "bob" (VObject []) "done" None false (mkTimed runtime 0)).2 "r" "session" _)).
  apply rtc_once, other_stores. by vm_compute.
Defined.
End Runs.
