(* ===== verification/Gateway.v ===== *)
(** * The state of the gateway and what it talks to:
    [services/data-plane/src/app/bootstrap.rs], [proxy/entry.rs], [proxy/request_utils.rs]

    [Gateway] is the [AppState] of the request pipeline, composed of the states of
    the components: the router and the outbound proxies ([AppState] of the
    configuration sync), failover counters and the invalid-request guard, the
    routing cache, the alive ring, the health reporter, billing and the stored
    responses. What the pipeline sends upstream, what it asks the control plane and
    what it spawns are lists of the state, newest first. *)
From S2P Require Import Prelude RustStr CoreModel Router RoutingCache Auth OutboundProxy Snapshot UpstreamHealth Failover Json Request RequestPolicy ErrorLearning StreamUsage Secrets Billing StreamForward Responses BackgroundResponses.

#[local] Open Scope string_scope.
#[local] Open Scope list_scope.
#[local] Open Scope Z_scope.

(** ** Upstream *)

Record UpstreamRequest := mkUpstreamRequest {
  ur_client : ClientConfig;
  ur_method : string;
  ur_url : string;
  ur_headers : HeaderMap;
  ur_body : string;
}.

(** The status and headers of an answer, and the chunks of its body. *)
Record UpstreamReply := mkUpstreamReply {
  up_status : Z;
  up_headers : HeaderMap;
  up_chunks : list (result string string);
}.

(** A request that was sent, with the account whose credentials it carries and the
    answer. *)
Record UpstreamExchange := mkUpstreamExchange {
  ux_account : UpstreamAccount;
  ux_request : UpstreamRequest;
  ux_answer : result UpstreamReply string;
}.

Class UpstreamApi := {
  upstream_answer : nat → list UpstreamExchange → UpstreamRequest → result UpstreamReply string;
}.

(** ** Recovery endpoints of the control plane *)

Record InternalOAuthRefreshPayload := mkInternalOAuthRefreshPayload {
  iorp_last_refresh_status : string;
  iorp_effective_enabled : bool;
  iorp_has_access_token_fallback : bool;
  iorp_refresh_credential_state : option string;
}.

Class RecoveryApi `{UrlLibrary} := {
  recovery_answer : nat → list string → string → string → HttpAnswer;
  decode_oauth_refresh : string → option InternalOAuthRefreshPayload;
  append_query_pair : string → string → Url → Url;
}.

(** ** Tasks *)

Inductive GatewayTask :=
  | ReportSeenOk (account_id : Uuid) (model_id : option string)
  | ReportLiveResult (account_id : Uuid) (report : LiveResultReportRequest)
  | ReportRateLimits (account_id : Uuid) (entries : nat)
  | PostFailoverRecovery (account_id : Uuid) (error_context : UpstreamErrorContext)
  | BackgroundWorker (snapshot : BackgroundRequestSnapshot).

(** ** State *)

Record CachedModelsResponse := mkCachedModelsResponse {
  cmr_body : string;
  cmr_etag : string;
  cmr_content_type : option string;
  cmr_expires_at : Instant;
}.

Record Gateway (C W R : Type) := mkGateway {
  gw_app : AppState;
  gw_failover : ProxyState;
  gw_cache : C;
  gw_ring : option (AliveRingRouter R);
  gw_reporter : option SeenOkReporter;
  gw_world : W;
  gw_resolves : list ResolveUpstreamErrorTemplateRequest;
  gw_billing : BillingState;
  gw_responses : BackgroundResponsesRuntime;
  gw_account_ejection_ttl : Duration;
  gw_request_failover_wait : Duration;
  gw_retry_poll_interval : Duration;
  gw_shared_routing_cache_enabled : bool;
  gw_max_request_body_bytes : Z;
  gw_models_cache : gmap string CachedModelsResponse;
  gw_stream_response_total : Z;
  gw_stream_protocol_sse_header_total : Z;
  gw_stream_protocol_header_missing_total : Z;
  gw_sent : list UpstreamExchange;
  gw_recovery_calls : list string;
  gw_tasks : list GatewayTask;
}.
Arguments mkGateway {C W R}.
Arguments gw_app {C W R}.
Arguments gw_failover {C W R}.
Arguments gw_cache {C W R}.
Arguments gw_ring {C W R}.
Arguments gw_reporter {C W R}.
Arguments gw_world {C W R}.
Arguments gw_resolves {C W R}.
Arguments gw_billing {C W R}.
Arguments gw_responses {C W R}.
Arguments gw_account_ejection_ttl {C W R}.
Arguments gw_request_failover_wait {C W R}.
Arguments gw_retry_poll_interval {C W R}.
Arguments gw_shared_routing_cache_enabled {C W R}.
Arguments gw_max_request_body_bytes {C W R}.
Arguments gw_models_cache {C W R}.
Arguments gw_stream_response_total {C W R}.
Arguments gw_stream_protocol_sse_header_total {C W R}.
Arguments gw_stream_protocol_header_missing_total {C W R}.
Arguments gw_sent {C W R}.
Arguments gw_recovery_calls {C W R}.
Arguments gw_tasks {C W R}.
#[global] Instance eta_Gateway C W R : Eta (Gateway C W R) := λ g,
  mkGateway (gw_app g) (gw_failover g) (gw_cache g) (gw_ring g) (gw_reporter g) (gw_world g)
    (gw_resolves g) (gw_billing g) (gw_responses g) (gw_account_ejection_ttl g)
    (gw_request_failover_wait g) (gw_retry_poll_interval g) (gw_shared_routing_cache_enabled g)
    (gw_max_request_body_bytes g) (gw_models_cache g) (gw_stream_response_total g)
    (gw_stream_protocol_sse_header_total g) (gw_stream_protocol_header_missing_total g) (gw_sent g)
    (gw_recovery_calls g) (gw_tasks g).

(** ** Components inside the gateway *)

Section components.
Context {C W R : Type}.
Abbreviation G := (Gateway C W R).
Abbreviation GM := (ST (Timed G)).
Implicit Types (g : G).

Definition on_router {A} : ST (Timed Router.Router) A → GM A :=
  zoom (λ g, router (gw_app g)) (λ r g, g <| gw_app ::= set_router r |>).
Definition on_outbound {A} : ST (Timed OutboundProxyRuntime) A → GM A :=
  zoom (λ g, outbound_proxy_runtime (gw_app g)) (λ r g, g <| gw_app ::= set_proxy r |>).
Definition on_cache {A} : ST (Timed C) A → GM A := zoom gw_cache (λ c g, g <| gw_cache := c |>).
Definition on_billing {A} : ST (Timed BillingState) A → GM A :=
  zoom gw_billing (λ b g, g <| gw_billing := b |>).
Definition on_responses {A} : ST (Timed BackgroundResponsesRuntime) A → GM A :=
  zoom gw_responses (λ r g, g <| gw_responses := r |>).

(** The failover functions see the router of the application state. *)
Definition failover_of g : ProxyState := set_ps_router (router (gw_app g)) (gw_failover g).
Definition on_failover {A} : ST (Timed ProxyState) A → GM A :=
  zoom failover_of (λ p g, g <| gw_app ::= set_router (ps_router p) |> <| gw_failover := p |>).

(** Template resolution reads the application state and talks to its endpoint. *)
Definition on_learning {A} (m : ST (LearningState W) A) : GM A := λ w,
  let g := st w in
  let '(a, l) := m (mkLearningState (gw_app g) (control_plane_base_url (gw_billing g))
                      (control_plane_internal_auth_token (gw_billing g)) (gw_world g) (gw_resolves g)) in
  (a, mkTimed (g <| gw_world := ls_world l |> <| gw_resolves := ls_sent l |>) (ticks w)).

Definition spawn (task : GatewayTask) : GM unit := modify (λ g, g <| gw_tasks ::= cons task |>).

(** [localized_json_error_with_state]. *)
Definition localized_error (locale : string) (status : Z) (code fallback : string) : GM Response :=
  app ← gets gw_app;
  mret (error_response (localized_json_error_with_state app locale status code fallback)).
End components.

(** ** Recovery of accounts *)

Definition oauth_refresh_recovery_succeeded (payload : InternalOAuthRefreshPayload) : bool :=
  String.eqb (iorp_last_refresh_status payload) "ok"
  || (iorp_effective_enabled payload && iorp_has_access_token_fallback payload
      && bool_decide (iorp_refresh_credential_state payload = Some "terminal_invalid")).

Definition live_result_error_code_for_class (class : option UpstreamErrorClass) : option string :=
  match class with
  | Some TokenInvalidated => Some "token_invalidated"
  | Some AuthExpired => Some "auth_expired"
  | Some AccountDeactivated => Some "account_deactivated"
  | Some QuotaExhausted => Some "quota_exhausted"
  | Some RateLimited => Some "rate_limited"
  | Some Overloaded => Some "overloaded"
  | Some UpstreamUnavailable => Some "upstream_unavailable"
  | Some TransientServer => Some "transient_server"
  | Some NonRetryableClient => Some "non_retryable_client"
  | Some UnknownClass | None => None
  end.

Definition recovery_action_label (error_context : option UpstreamErrorContext) : string :=
  match recovery_action_for_error_context error_context with
  | Some RotateRefreshToken => "rotate_refresh_token"
  | Some DisableAccount => "disable_account"
  | None => "none"
  end.

Definition recovery_outcome_label (outcome : ProxyRecoveryOutcome) : string :=
  match outcome with
  | NotApplied => "not_applied"
  | RotateSucceeded => "rotate_succeeded"
  | RotateFailed => "rotate_failed"
  | DisableAttempted => "disable_attempted"
  end.

Section operations.
Context {C W R : Type} `{Clock} `{WallClock} `{UuidSource} `{UuidText} `{HashOrder} `{RoutingCache C}
  `{RingServer R} `{UrlLibrary} `{!RecoveryApi}.
Abbreviation GM := (ST (Timed (Gateway C W R))).

(** One [POST] to the control plane, without a body. *)
Definition post_recovery (endpoint : string) : GM HttpAnswer := λ w,
  let g := st w in
  (recovery_answer (ticks w) (gw_recovery_calls g) endpoint
     (control_plane_internal_auth_token (gw_billing g)),
   mkTimed (g <| gw_recovery_calls ::= cons endpoint |>) (Datatypes.S (ticks w))).

Definition account_endpoint (base_url : string) (account_id : Uuid) (suffix : string) : string :=
  trim_end_slashes base_url +:+ "/internal/v1/upstream-accounts/" +:+ uuid_to_string account_id +:+ suffix.

Definition trigger_internal_oauth_refresh (account_id : Uuid) : GM bool :=
  base ← gets (λ g, control_plane_base_url (gw_billing g));
  match base with
  | None => mret false
  | Some base_url =>
      answer ← post_recovery (account_endpoint base_url account_id "/oauth/refresh");
      mret match answer with
           | NoAnswer => false
           | Answer status body =>
               is_success status
               && from_option oauth_refresh_recovery_succeeded false (decode_oauth_refresh body)
           end
  end.

Definition trigger_internal_disable_account (account_id : Uuid) (reason : option string) : GM bool :=
  base ← gets (λ g, control_plane_base_url (gw_billing g));
  match base with
  | None => mret false
  | Some base_url =>
      let endpoint := account_endpoint base_url account_id "/disable" in
      match match non_blank reason with
            | None => Some endpoint
            | Some reason => (λ url, url_to_string (append_query_pair "reason" reason url)) <$> url_parse endpoint
            end with
      | None => mret false
      | Some endpoint =>
          answer ← post_recovery endpoint;
          mret match answer with NoAnswer => false | Answer status _ => is_success status end
      end
  end.

Definition apply_recovery_action (account_id : Uuid) (error_context : option UpstreamErrorContext) :
    GM ProxyRecoveryOutcome :=
  match recovery_action_for_error_context error_context with
  | Some RotateRefreshToken =>
      rotated ← trigger_internal_oauth_refresh account_id;
      mret (if rotated : bool then RotateSucceeded else RotateFailed)
  | Some DisableAccount =>
      _ ← trigger_internal_disable_account account_id (error_context ≫= uec_error_code);
      mret DisableAttempted
  | None => mret NotApplied
  end.

Definition spawn_post_failover_recovery (account_id : Uuid) (error_context : option UpstreamErrorContext) :
    GM unit :=
  match error_context with
  | None => mret tt
  | Some context => spawn (PostFailoverRecovery account_id context)
  end.

Definition run_post_failover_recovery (account_id : Uuid) (error_context : UpstreamErrorContext) : GM unit :=
  outcome ← apply_recovery_action account_id (Some error_context);
  match outcome with
  | RotateSucceeded =>
      _ ← on_router (Router.clear_unhealthy account_id);
      _ ← on_cache (RoutingCache.clear_unhealthy account_id);
      mret tt
  | _ => mret tt
  end.

(** ** Reports *)

Definition spawn_seen_ok_reports (account_id : Uuid) (model_id : option string) : GM unit :=
  _ ← on_router (record_success account_id);
  reporter ← gets gw_reporter;
  match reporter with Some _ => spawn (ReportSeenOk account_id model_id) | None => mret tt end.

Definition spawn_failed_live_report (account_id : Uuid) (model_id : option string) (status : Z)
    (error_context : option UpstreamErrorContext) : GM unit :=
  reporter ← gets gw_reporter;
  match reporter with
  | None => mret tt
  | Some _ =>
      spawn (ReportLiveResult account_id
        (mkLiveResultReportRequest ReportFailed ReportPassive (Some status)
           (or_else (error_context ≫= uec_error_code)
              (live_result_error_code_for_class (uec_class <$> error_context)))
           (or_else (error_context ≫= uec_error_message) (error_context ≫= uec_raw_error))
           (error_context ≫= uec_upstream_request_id) model_id))
  end.

(** Reports of observed rate limits, from the headers of a stream. *)
Definition spawn_observed_rate_limit_report `{NumberText} (account_id : Uuid) (headers : HeaderMap) :
    GM unit :=
  let rate_limits := observed_rate_limits_from_headers headers in
  if (length rate_limits =? 0)%nat then mret tt else
  reporter ← gets gw_reporter;
  match reporter with
  | Some _ => spawn (ReportRateLimits account_id (length rate_limits))
  | None => mret tt
  end.

Definition on_reporter (m : ST (Timed SeenOkReporter) unit) : GM unit := λ w,
  match gw_reporter (st w) with
  | None => (tt, w)
  | Some reporter =>
      let '(_, w') := m (mkTimed reporter (ticks w)) in
      (tt, mkTimed ((st w) <| gw_reporter := Some (st w') |>) (ticks w'))
  end.

Definition run_seen_ok_reports (account_id : Uuid) (model_id : option string) : GM unit :=
  _ ← on_reporter (report_live_result account_id
        (mkLiveResultReportRequest ReportOk ReportPassive (Some 200) None None None model_id));
  _ ← on_reporter (report_seen_ok account_id);
  match model_id with
  | Some model => on_reporter (report_model_seen_ok account_id model)
  | None => mret tt
  end.

(** ** The alive ring *)

Definition on_ring {A} (d : A) (m : ST (Timed (AliveRingRouter R)) A) : GM A := λ w,
  match gw_ring (st w) with
  | None => (d, w)
  | Some ring =>
      let '(a, w') := m (mkTimed ring (ticks w)) in
      (a, mkTimed ((st w) <| gw_ring := Some (st w') |>) (ticks w'))
  end.

Fixpoint pick_alive_ring_candidate_from_ids (candidate_ids : list Uuid) (excluded : gset Uuid)
    (model : option string) : GM (option UpstreamAccount) :=
  match candidate_ids with
  | [] => mret None
  | account_id :: rest =>
      if bool_decide (account_id ∈ excluded) then pick_alive_ring_candidate_from_ids rest excluded model else
      matches ← on_router (account_matches_model_route account_id model);
      if negb matches then pick_alive_ring_candidate_from_ids rest excluded model else
      picked ← on_router (pick_account account_id);
      match picked with
      | Some account => mret (Some account)
      | None => pick_alive_ring_candidate_from_ids rest excluded model
      end
  end.

Definition pick_account_from_alive_ring (excluded : gset Uuid) (model : option string) :
    GM (option UpstreamAccount) :=
  candidates ← on_ring (Err "no ring") next_candidate_ids;
  match candidates with
  | Err _ => mret None
  | Ok candidate_ids => pick_alive_ring_candidate_from_ids candidate_ids excluded model
  end.

(** ** Marking accounts, waiting *)

Definition mark_account_unhealthy_and_clear_sticky (account_id : Uuid) (sticky_key : option string)
    (ejection_ttl : Duration) : GM unit :=
  _ ← on_router (mark_unhealthy account_id ejection_ttl);
  _ ← on_cache (set_unhealthy account_id ejection_ttl);
  match sticky_key with
  | None => mret tt
  | Some sticky_key =>
      _ ← on_router (unbind_sticky sticky_key);
      _ ← on_cache (delete_sticky_account_id sticky_key);
      mret tt
  end.
End operations.
