(* ===== verification/Pipeline.v ===== *)
(** * The request pipeline: [proxy_handler] of [services/data-plane/src/proxy/entry.rs]

    A request is read, checked against the policy of its API key and the
    invalid-request guard, and sent to an account the router selects; a failure is
    retried on the account, or the next account is tried, until an answer is
    returned to the client. The two nested loops of the source are [loop]s with
    fuel: [None] is a run the fuel did not suffice for. Log lines and system events
    are left out, and a sleep only takes time; what other tasks do to the router
    while the handler waits for a route update is a parameter. *)
From S2P Require Import Prelude RustStr CoreModel Router RoutingCache Auth OutboundProxy Snapshot UpstreamHealth Failover Json Request RequestPolicy ErrorLearning StreamUsage Secrets Billing StreamForward Responses BackgroundResponses Kept Gateway.
From Stdlib Require Import Ascii.

#[local] Open Scope string_scope.
#[local] Open Scope list_scope.
#[local] Open Scope Z_scope.

Definition MIN_DISTINCT_FAILOVER_ATTEMPTS : nat := 2.
Definition ROUTING_CACHE_STICKY_TTL_SEC : Z := 30 * 60.
Definition MODELS_CACHE_TTL_SEC : Z := 60.

(** ** The request *)

(** [cr_body] is [None] when the body cannot be read. *)
Record ClientRequest := mkClientRequest {
  cr_principal : option ApiPrincipal;
  cr_forced_account : option Uuid;
  cr_method : string;
  cr_path : string;
  cr_query : option string;
  cr_headers : HeaderMap;
  cr_body : option string;
}.

(** The request once it has been read and admitted. *)
Record RequestContext := mkRequestContext {
  rc_request : ClientRequest;
  rc_context : ParsedRequestPolicyContext;
  rc_body : string;
  rc_sticky_key : option string;
  rc_started : Instant;
  rc_failover_deadline : Instant;
}.

Definition client_version_header (request : ClientRequest) : option string :=
  header_string (cr_headers request) "version".

Definition is_models_request (request : ClientRequest) : bool :=
  String.eqb (cr_method request) "GET" && String.eqb (cr_path request) "/v1/models".

Definition max_request_body_bytes_for_path (default_limit : Z) (path : string) : Z :=
  if bool_decide (path ∈ ["/v1/responses/compact"; "/backend-api/codex/responses/compact";
                          "/v1/memories/trace_summarize"])
  then default_limit `max` (64 * 1024 * 1024) else default_limit.

Definition stable_continuation_cursor_key (context : ParsedRequestPolicyContext) : option string :=
  let stable (hint : option string) :=
    key ← hint;
    if negb (bool_decide (prpc_conversation_id context = Some key))
       && negb (bool_decide (prpc_continuation_key_hint context = Some key))
    then Some key else None in
  or_else (stable (prpc_session_key_hint context)) (stable (prpc_sticky_key_hint context)).

#[global] Instance eta_ParsedRequestPolicyContext : Eta ParsedRequestPolicyContext := λ c,
  mkParsedRequestPolicyContext (prpc_model c) (prpc_requested_service_tier c) (prpc_stream c)
    (prpc_request_id c) (prpc_detected_locale c) (prpc_estimated_input_tokens c)
    (prpc_continuation_key_hint c) (prpc_sticky_key_hint c) (prpc_session_key_hint c)
    (prpc_conversation_id c).

(** [apply_conversation_semantics_to_request] ([responses_api.rs]). *)
Definition apply_conversation_semantics_to_request (request_value : Value)
    (context : ParsedRequestPolicyContext) (previous_response_id : option string) :
    result (Value * ParsedRequestPolicyContext) string :=
  match request_value with
  | VObject object =>
      let has_previous_response_id :=
        bool_decide (is_Some (map_get "previous_response_id" object ≫= as_str)) in
      let conversation_id := non_blank (map_get "conversation" object ≫= as_str) in
      if has_previous_response_id && bool_decide (is_Some conversation_id)
      then Err "previous_response_id cannot be used together with conversation" else
      let context :=
        match conversation_id with
        | Some id => context <| prpc_conversation_id := Some id |> <| prpc_sticky_key_hint := Some id |>
                             <| prpc_session_key_hint := Some id |>
        | None => context
        end in
      match previous_response_id with
      | Some id =>
          if has_previous_response_id then Ok (VObject object, context)
          else Ok (VObject (map_insert "previous_response_id" (VString id) object),
                   context <| prpc_continuation_key_hint := Some id |>)
      | None => Ok (VObject object, context)
      end
  | _ => Ok (request_value, context)
  end.

(** [extract_codex_completed_response] ([request_utils.rs]): the body when it is
    JSON, or the response of its last completion event. *)
Definition completion_of_line `{SerdeJson} (raw_line : string) : option Value :=
  let line := trim_ascii raw_line in
  let payload := from_option trim_ascii line (strip_prefix "data:" line) in
  if is_empty line || is_empty payload || String.eqb payload "[DONE]" then None else
  value ← from_slice payload;
  if bool_decide (get "type" value ≫= as_str = Some "response.completed")
     || bool_decide (get "type" value ≫= as_str = Some "response.done")
  then get "response" value else None.

Definition extract_codex_completed_response `{SerdeJson} (body : string) : option Value :=
  match from_slice body with
  | Some value => Some value
  | None => list.last (omap completion_of_line (split LF body))
  end.

(** The usage to log when the response has none: what can be estimated. *)
Definition estimated_usage `{SerdeJson} (context : ParsedRequestPolicyContext) (body : string) :
    option UsageTokens :=
  let estimated_input_tokens := default 0 (prpc_estimated_input_tokens context) `max` 0 in
  let estimated_output_tokens := default 0 (estimate_response_output_tokens body) `max` 0 in
  if (0 <? estimated_input_tokens) || (0 <? estimated_output_tokens)
  then Some (mkUsageTokens estimated_input_tokens 0 estimated_output_tokens 0) else None.

Definition is_overloaded (error_context : option UpstreamErrorContext) : bool :=
  match uec_class <$> error_context with Some Overloaded => true | _ => false end.

(** ** The models cache *)

Definition request_if_none_match_matches (request_headers : HeaderMap) (etag : string) : bool :=
  match header_string request_headers "if-none-match" with
  | None => false
  | Some raw => existsb (λ item, String.eqb (trim item) "*" || String.eqb (trim item) etag) (split ","%char raw)
  end.

(** [apply_models_cache_headers_to_map]: [header_ok] is [HeaderValue::from_str]. *)
Definition header_ok (value : string) : bool :=
  forallb (λ a, let n := byte_of a in ((32 <=? n) && negb (n =? 127) || (n =? 9))%N)
    (String.list_ascii_of_string value).

Definition models_cache_headers (cached : CachedModelsResponse) (t : Instant) (headers : HeaderMap) : HeaderMap :=
  let max_age := as_secs ((cmr_expires_at cached - t) `max` 0) in
  let headers := if header_ok (cmr_etag cached) then header_insert "etag" (cmr_etag cached) headers else headers in
  header_insert "cache-control" ("private, max-age=" +:+ decimal max_age) headers.

Definition build_models_not_modified_response (cached : CachedModelsResponse) (t : Instant) : Response :=
  mkResponse 304 (models_cache_headers cached t []) (BytesBody "").

Definition cached_models_response (cached : CachedModelsResponse) (t : Instant) : Response :=
  let headers :=
    match cmr_content_type cached with
    | Some content_type => if header_ok content_type then [("content-type", content_type)] else []
    | None => []
    end in
  mkResponse 200 (models_cache_headers cached t headers) (BytesBody (cmr_body cached)).

Definition compute_strong_etag `{Digests} (body : string) : string :=
  String (Ascii.ascii_of_nat 34) (hex_encode (sha256 body) +:+ String (Ascii.ascii_of_nat 34) "").

(** ** The loops *)

(** The variables of the outer loop. *)
Record Failover := mkFailover {
  fo_pending : option PendingBillingSession;
  fo_session : option BillingSession;
  fo_tried : gset Uuid;
  fo_last_failure : option (Response * Z * Uuid);
  fo_did_cross : bool;
  fo_forced_round : bool;
}.
#[global] Instance eta_Failover : Eta Failover := λ f,
  mkFailover (fo_pending f) (fo_session f) (fo_tried f) (fo_last_failure f) (fo_did_cross f)
    (fo_forced_round f).

(** The variables of the inner loop, on one account. *)
Record Attempt := mkAttempt {
  at_failover : Failover;
  at_body : string;
  at_retries : Z;
}.

(** What an account is tried with. *)
Record Target := mkTarget {
  tg_account : UpstreamAccount;
  tg_url : string;
  tg_models_cache_key : option string;
  tg_adaptation : option UpstreamRequestCompatibilityAdaptation;
}.

(** How a turn of the outer loop starts. *)
Inductive Selection :=
  | Chosen (account : UpstreamAccount)
  | Again (f : Failover)
  | Finished (response : Response).

(** What the log says of billing. *)
Record LogBilling := mkLogBilling {
  lb_phase : option string;
  lb_authorization_id : option Uuid;
  lb_capture_status : option string;
  lb_usage : option UsageTokens;
}.
Definition no_log_billing : LogBilling := mkLogBilling None None None None.

(** [wait_for_route_update]: what is done to the router meanwhile. *)
Class RouteUpdates := { route_update : nat → Router.Router → Router.Router }.

Section pipeline.
Context {C W R : Type} `{Clock} `{WallClock} `{UuidSource} `{UuidText} `{HashOrder} `{RoutingCache C}
  `{RingServer R} `{UrlLibrary} `{!RecoveryApi} `{FormUrlencoded} `{HttpClientBuilder} `{SerdeJson}
  `{ZstdDecoder} `{Utf8} `{Rfc2822} `{RegexLibrary} `{ResolveApi W} `{Digests} `{NumberText} `{BillingApi}
  `{BillingDecoders} `{UpstreamApi} `{RouteUpdates}.
Abbreviation GM := (ST (Timed (Gateway C W R))).
Context (rc : RequestContext).

Abbreviation request := (rc_request rc).
Abbreviation context := (rc_context rc).
Abbreviation locale := (prpc_detected_locale (rc_context rc)).

(** ** Logs *)

Definition emit_request_log_event_with_billing (account_id : Uuid) (status : Z) (is_stream : bool)
    (service_tier error_code_override : option string) (billing : LogBilling)
    (first_token_latency_ms : option Z) : GM unit :=
  id ← new_v4;
  latency ← elapsed_ms (rc_started rc);
  created ← utc_now;
  let usage := lb_usage billing in
  on_billing (emit_request_log
    (mkRequestLogEvent id account_id (cr_principal request ≫= tenant_id) (cr_principal request ≫= api_key_id)
       2 (cr_path request) (cr_method request) status latency is_stream
       (or_else error_code_override (if 400 <=? status then Some (decimal status) else None))
       (prpc_request_id context) (prpc_model context) service_tier (input_tokens <$> usage)
       (cached_input_tokens <$> usage) (output_tokens <$> usage) (reasoning_tokens <$> usage)
       first_token_latency_ms (lb_phase billing) (lb_authorization_id billing) (lb_capture_status billing)
       created)).

Definition emit_request_log_event_with_error_code (account_id : Uuid) (status : Z) (is_stream : bool)
    (error_code_override : option string) : GM unit :=
  emit_request_log_event_with_billing account_id status is_stream (prpc_requested_service_tier context)
    error_code_override no_log_billing None.

Definition emit_request_log_event (account_id : Uuid) (status : Z) (is_stream : bool) : GM unit :=
  emit_request_log_event_with_error_code account_id status is_stream None.

(** ** Leaving the loops *)

(** [record_failover_exhausted_if_needed] and the release of the hold, on the ways
    out that return a failure. *)
Definition return_failure (f : Failover) (reason : string) (status : Z) (error_code : option string)
    (reason_class : string) (recovery : option (string * string)) : GM unit :=
  _ ← on_failover (record_failover_exhausted_if_needed (fo_did_cross f));
  on_billing (release_billing_hold_best_effort (fo_session f)
    (Some (mkBillingReleaseFailureContext (Some reason) (Some status) error_code (Some "return_failure")
             (Some reason_class) (fst <$> recovery) (snd <$> recovery) (Some (fo_did_cross f))))).

Definition release_billing_hold_for_cross_account_failover (f : Failover) (status : Z)
    (error_context : option UpstreamErrorContext) (reason_class : string) : GM Failover :=
  pending ← match fo_session f, fo_pending f with
            | Some _, Some pending => p ← rotate_request_id pending; mret (Some p)
            | _, pending => mret pending
            end;
  _ ← on_billing (release_billing_hold_best_effort (fo_session f)
        (Some (mkBillingReleaseFailureContext (Some "cross_account_failover") (Some status)
                 (error_context ≫= uec_error_code) (Some "cross_account_failover") (Some reason_class)
                 None None (Some true))));
  mret (f <| fo_pending := pending |> <| fo_session := None |>).

(** The next account is tried: [break] of the inner loop. *)
Definition fail_over (f : Failover) (account_id : Uuid) (response : Response) (status : Z)
    (error_context : option UpstreamErrorContext) (reason_class : string) : GM Failover :=
  f ← release_billing_hold_for_cross_account_failover f status error_context reason_class;
  '(tried, did) ← on_failover (record_cross_account_failover_attempt (fo_tried f) account_id (fo_did_cross f));
  mret (f <| fo_tried := tried |> <| fo_did_cross := did |>
          <| fo_last_failure := Some (response, status, account_id) |>).

Definition should_fail_over (f : Failover) (account_id : Uuid) (retryable : bool) : GM bool :=
  if bool_decide (cr_forced_account request = None)
  then on_failover (should_cross_account_failover (prpc_model context) (rc_sticky_key rc)
         (rc_failover_deadline rc) (fo_tried f) account_id retryable)
  else mret false.

(** [state.enable_request_failover && b && Instant::now() < failover_deadline]. *)
Definition may_retry (b : ProxyState → bool) : GM bool :=
  p ← gets gw_failover;
  if enable_request_failover p && b p
  then t ← now; mret (t <? rc_failover_deadline rc) else mret false.

Definition wait_for_route_update_or_deadline : GM unit :=
  t ← now;
  if rc_failover_deadline rc <=? t then mret tt else
  λ w, (tt, mkTimed ((st w) <| gw_app ::= λ a, set_router (route_update (ticks w) (router a)) a |>)
              (Datatypes.S (ticks w))).

(** ** Selecting an account *)

Definition no_account_left (f : Failover) : GM Selection :=
  enabled ← gets (λ g, enable_request_failover (gw_failover g));
  total ← on_router enabled_total;
  if enabled && negb (fo_forced_round f) && negb (bool_decide (fo_tried f = ∅))
     && (MIN_DISTINCT_FAILOVER_ATTEMPTS <=? total)%nat
  then
    _ ← wait_for_route_update_or_deadline;
    mret (Again (f <| fo_forced_round := true |> <| fo_tried := ∅ |>))
  else
    early ← may_retry (λ _, true);
    if early : bool then
      _ ← wait_for_route_update_or_deadline;
      mret (Again (f <| fo_tried := ∅ |>))
    else
      match fo_last_failure f with
      | Some (response, status, account_id) =>
          _ ← on_failover (record_failover_exhausted_if_needed (fo_did_cross f));
          _ ← emit_request_log_event account_id status false;
          _ ← on_billing (release_billing_hold_best_effort (fo_session f)
                (Some (mkBillingReleaseFailureContext (Some "failover_exhausted") (Some status) None
                         (Some "return_failure") (Some "failover_exhausted") None None
                         (Some (fo_did_cross f)))));
          mret (Finished response)
      | None =>
          _ ← return_failure f "no_upstream_account" 503 None "no_upstream_account" None;
          response ← localized_error locale 503 "no_upstream_account"
                       "no enabled upstream account is available";
          mret (Finished response)
      end.

Definition select_account (f : Failover) : GM Selection :=
  match cr_forced_account request with
  | Some forced =>
      account ← on_router (get_account_any_state forced);
      match account with
      | Some account => mret (Chosen account)
      | None =>
          _ ← return_failure f "no_upstream_account" 404 None "no_upstream_account" None;
          response ← localized_error locale 404 "not_found" "resource not found";
          mret (Finished response)
      end
  | None =>
      ring ← match rc_sticky_key rc with
             | None => pick_account_from_alive_ring (fo_tried f) None
             | Some _ => mret None
             end;
      picked ← match ring with
               | Some account => mret (Some account)
               | None =>
                   prefer ← gets (λ g, sticky_prefer_non_conflicting (gw_failover g));
                   on_router (pick_for_model (prpc_model context) (rc_sticky_key rc) (fo_tried f) prefer)
               end;
      match picked with
      | Some account => mret (Chosen account)
      | None => no_account_left f
      end
  end.

(** ** One attempt: the hold, the route and the request *)

(** How a turn of the inner loop ends: it goes on, the next account is tried, or a
    response is returned. *)
Abbreviation Turn := (Attempt + (Failover + Response))%type.

Definition retry (a : Attempt) (body : string) : GM Turn :=
  _ ← on_failover record_same_account_retry;
  mret (inl (mkAttempt (at_failover a) body (at_retries a + 1))).

Definition hand_over (f : Failover) : GM Turn := mret (inr (inl f)).
Definition return_response (response : Response) : GM Turn := mret (inr (inr response)).

(** A hold is authorised when the request is metered and none is open. *)
Definition ensure_hold (account_id : Uuid) (f : Failover) : GM (result Failover Response) :=
  match fo_session f, fo_pending f with
  | None, Some pending =>
      r ← on_billing (authorize_billing_session pending account_id (cr_path request) (cr_method request)
                        (rc_started rc) (pbs_is_stream pending));
      mret match r with
           | Ok session => Ok (f <| fo_session := Some session |>)
           | Err e => Err (error_response e)
           end
  | _, _ => mret (Ok f)
  end.

Definition send_upstream (target : Target) (client : ClientConfig) (body : string) :
    GM (result UpstreamReply string) := λ w,
  let g := st w in
  let account := tg_account target in
  let upstream_request :=
    mkUpstreamRequest client (cr_method request) (tg_url target)
      (upstream_request_headers account (cr_headers request)
         (from_option strip_content_encoding false (tg_adaptation target))) body in
  let answer := upstream_answer (ticks w) (gw_sent g) upstream_request in
  (answer, mkTimed (g <| gw_sent ::= cons (mkUpstreamExchange account upstream_request answer) |>)
             (Datatypes.S (ticks w))).

Definition on_proxy_unavailable (target : Target) (a : Attempt) : GM Turn :=
  again ← may_retry (should_retry_same_account_on_transport (at_retries a));
  if again : bool then retry a (at_body a) else
  response ← localized_error locale 503 "proxy_unavailable" "outbound proxy is unavailable";
  _ ← emit_request_log_event_with_error_code (ua_id (tg_account target)) 503 false (Some "proxy_unavailable");
  _ ← return_failure (at_failover a) "proxy_unavailable" 503 None "proxy_unavailable" None;
  return_response response.

Definition on_transport_error (target : Target) (a : Attempt) : GM Turn :=
  let account_id := ua_id (tg_account target) in
  let f := at_failover a in
  again ← may_retry (should_retry_same_account_on_transport (at_retries a));
  if again : bool then retry a (at_body a) else
  ttl ← gets gw_account_ejection_ttl;
  _ ← mark_account_unhealthy_and_clear_sticky account_id (rc_sticky_key rc) ttl;
  response ← localized_error locale 502 "upstream_transport_error" "upstream request failed";
  cross ← should_fail_over f account_id true;
  if cross : bool then
    f ← fail_over f account_id response 502 None "transport_error";
    hand_over f
  else
    _ ← emit_request_log_event account_id 502 false;
    _ ← return_failure f "transport_error" 502 None "transport_error" None;
    return_response response.

(** ** Answers *)

Definition learn (source : UpstreamErrorSource) (account : UpstreamAccount)
    (error_context : UpstreamErrorContext) : GM (Response * UpstreamErrorContext) :=
  '(e, error_context) ← on_learning (apply_upstream_error_learning source
     (upstream_provider_label (ua_mode account)) locale (prpc_model context) error_context);
  mret (error_response e, error_context).

Definition map_service_unavailable (account : UpstreamAccount) (headers : HeaderMap) (body : string) :
    GM (Response * UpstreamErrorContext) :=
  t ← utc_now;
  learn Http account
    (default (mkUpstreamErrorContext 503 503 None None (extract_upstream_raw_error body)
                (extract_retry_after t headers) (extract_upstream_request_id headers) UpstreamUnavailable None)
       (upstream_error_context_of_response t 503 headers body)).

Definition buffered_response (account : UpstreamAccount) (status : Z) (headers : HeaderMap) (body : string) :
    GM (Response * option UpstreamErrorContext) :=
  t ← utc_now;
  match if 400 <=? status then upstream_error_context_of_response t status headers body else None with
  | Some error_context =>
      '(response, error_context) ← learn Http account error_context;
      mret (response, Some error_context)
  | None => mret (response_with_bytes status headers body, None)
  end.

(** The response, the error if any, and the body that is billed. *)
Definition buffered_codex_compat_response (account : UpstreamAccount) (status : Z) (headers : HeaderMap)
    (body : string) : GM (Response * option UpstreamErrorContext * string) :=
  if 400 <=? status then
    '(response, error_context) ← buffered_response account status headers body;
    mret (response, error_context, body)
  else
    match extract_codex_completed_response body ≫= to_string with
    | Some response_body =>
        let headers :=
          header_insert "content-type" "application/json"
            (List.filter (λ h, negb (String.eqb h.1 "content-length")
                               && negb (String.eqb h.1 "content-encoding")) headers) in
        mret (response_with_bytes status headers response_body, None, response_body)
    | None =>
        '(response, error_context) ← learn Http account
           (mkUpstreamErrorContext 502 502 None (Some "codex upstream stream missing completion event")
              None None (extract_upstream_request_id headers) TransientServer None);
        mret (response, Some error_context, body)
    end.

(** ** Settlement of a buffered response *)

Definition settle_response (session : option BillingSession) (status : Z) (body : string) :
    GM (option BillingSession * LogBilling) :=
  let observed := extract_usage_tokens body in
  let estimated := match observed with None => estimated_usage context body | Some _ => None end in
  let usage := or_else observed estimated in
  let unbilled := mkLogBilling None None None usage in
  r ← on_billing (settle_billing_if_needed session status body);
  mret match r with
       | Ok NotNeeded => (session, unbilled)
       | Ok (Settled s) =>
           (None, mkLogBilling (Some "released") (Some (bsr_authorization_id s))
                    (Some (bsr_capture_status s)) (Some (bsr_usage s)))
       | Ok (DeferredEstimated authorization_id usage) =>
           (None, mkLogBilling (Some "deferred_estimated") (Some authorization_id) None (Some usage))
       | Err _ =>
           (None, match session, usage with
                  | Some s, Some usage =>
                      mkLogBilling (Some "released_failed") (Some (bse_authorization_id s)) None (Some usage)
                  | _, _ => unbilled
                  end)
       end.

Definition effective_service_tier (body : string) : option string :=
  or_else (extract_response_service_tier body) (prpc_requested_service_tier context).

Definition store_completed_response_from_proxy (response_body : string) : GM unit :=
  match from_slice (rc_body rc) with
  | None => mret tt
  | Some request_value =>
      let response_id := value ← from_slice response_body; get "id" value ≫= as_str in
      let owner_key := response_owner_key (cr_principal request) in
      _ ← on_responses (store_completed_response owner_key request_value response_body
                          (prpc_conversation_id context) false);
      match stable_continuation_cursor_key context, response_id with
      | Some key, Some response_id => on_responses (store_continuation_cursor owner_key key response_id)
      | _, _ => mret tt
      end
  end.

(** What follows a successful answer. *)
Definition on_success (f : Failover) (account_id : Uuid) (status : Z) (is_stream : bool)
    (service_tier : option string) (billing : LogBilling) (stored_body : option string)
    (response : Response) : GM Turn :=
  latency ← (if is_stream then mret None else ms ← elapsed_ms (rc_started rc); mret (Some ms));
  _ ← emit_request_log_event_with_billing account_id status is_stream service_tier None billing latency;
  _ ← match stored_body with
      | Some body => if String.eqb (cr_path request) "/v1/responses" && negb is_stream
                     then store_completed_response_from_proxy body else mret tt
      | None => mret tt
      end;
  _ ← spawn_seen_ok_reports account_id (prpc_model context);
  _ ← on_failover (record_failover_success_if_needed (fo_did_cross f));
  return_response response.

(** What follows an answer that is not a success. *)
Definition on_failure (a : Attempt) (account_id : Uuid) (status : Z) (is_stream is_503_overloaded : bool)
    (error_context : option UpstreamErrorContext) (response : Response) : GM Turn :=
  let f := at_failover a in
  _ ← spawn_failed_live_report account_id (prpc_model context) status error_context;
  let retryable := is_failover_retryable_error Http status error_context in
  again ← may_retry (λ p, retryable && should_retry_same_account_on_status Http status (at_retries a) p error_context);
  if again : bool then
    retry a (default (at_body a) (rewrite_http_retry_request_body (at_body a) error_context))
  else
    cross ← should_fail_over f account_id retryable;
    outcome ← (if cross : bool then mret NotApplied else apply_recovery_action account_id error_context);
    ttl ← gets gw_account_ejection_ttl;
    _ ← match ejection_ttl_for_response status ttl is_503_overloaded error_context outcome with
        | Some ejection_ttl =>
            mark_account_unhealthy_and_clear_sticky account_id (rc_sticky_key rc) ejection_ttl
        | None => mret tt
        end;
    _ ← (if cross : bool then spawn_post_failover_recovery account_id error_context else mret tt);
    _ ← on_failover (record_invalid_request_guard_failure (cr_principal request) Http status error_context);
    if cross : bool then
      f ← fail_over f account_id response status error_context "retryable_status";
      hand_over f
    else
      _ ← emit_request_log_event account_id status is_stream;
      _ ← return_failure f "upstream_request_failed" status (error_context ≫= uec_error_code)
            "non_retryable_or_budget_exhausted"
            (Some (recovery_action_label error_context, recovery_outcome_label outcome));
      return_response response.

(** ** Streams *)

Definition stream_log_context (account_id : Uuid) : StreamRequestLogContext :=
  mkStreamRequestLogContext account_id (cr_principal request ≫= tenant_id) (cr_principal request ≫= api_key_id)
    (cr_path request) (cr_method request) (rc_started rc) (prpc_request_id context) (prpc_model context)
    (prpc_requested_service_tier context) (prpc_estimated_input_tokens context).

Definition count_stream (content_type_indicates_stream : bool) : GM unit :=
  modify (λ g : Gateway C W R,
    let g := g <| gw_stream_response_total ::= λ n, u64_wrap (n + 1) |> in
    if content_type_indicates_stream then g <| gw_stream_protocol_sse_header_total ::= λ n, u64_wrap (n + 1) |>
    else if prpc_stream context then g <| gw_stream_protocol_header_missing_total ::= λ n, u64_wrap (n + 1) |>
    else g).

(** The error of a stream that ended before its first event could be forwarded: the
    status, the response, the context, the class of the reason and whether the
    account is tried again. *)
Definition stream_prelude_failure (account : UpstreamAccount) (retries : Z) (err : StreamPreludeError) :
    GM (Z * Response * option UpstreamErrorContext * string * (ProxyState → bool)) :=
  transport ← localized_error locale 502 "upstream_transport_error" "upstream request failed";
  match err with
  | UpstreamErrorResponse error_context =>
      '(response, error_context) ← learn SsePrelude account error_context;
      let status := uec_status error_context in
      mret (status, response, Some error_context, "stream_upstream_error",
            λ p, should_retry_same_account_on_status SsePrelude status retries p (Some error_context))
  | EndOfStreamBeforeCommit | UpstreamReadFailed _ =>
      mret (502, transport, None, "stream_prelude_error", should_retry_same_account_on_transport retries)
  end.

Definition on_stream_failure (target : Target) (a : Attempt) (err : StreamPreludeError) : GM Turn :=
  let account_id := ua_id (tg_account target) in
  let f := at_failover a in
  '(status, response, error_context, reason_class, should_retry) ←
    stream_prelude_failure (tg_account target) (at_retries a) err;
  _ ← spawn_failed_live_report account_id (prpc_model context) status error_context;
  again ← may_retry should_retry;
  if again : bool then
    retry a (default (at_body a) (rewrite_http_retry_request_body (at_body a) error_context))
  else
    outcome ← apply_recovery_action account_id error_context;
    ttl ← gets gw_account_ejection_ttl;
    _ ← mark_account_unhealthy_and_clear_sticky account_id (rc_sticky_key rc)
          (default ttl (ejection_ttl_for_response status ttl false error_context outcome));
    cross ← should_fail_over f account_id (is_failover_retryable_error SsePrelude status error_context);
    if cross : bool then
      f ← fail_over f account_id response status error_context reason_class;
      hand_over f
    else
      _ ← emit_request_log_event account_id status true;
      _ ← return_failure f reason_class status (error_context ≫= uec_error_code) reason_class
            (Some (recovery_action_label error_context, recovery_outcome_label outcome));
      return_response response.

Definition on_stream (target : Target) (a : Attempt) (content_type_indicates_stream : bool)
    (reply : UpstreamReply) : GM Turn :=
  let account_id := ua_id (tg_account target) in
  r ← on_billing (stream_response_with_first_chunk (up_status reply) (up_headers reply) (up_chunks reply)
                    (fo_session (at_failover a)) (Some (stream_log_context account_id)));
  match r with
  | Ok tt =>
      _ ← spawn_observed_rate_limit_report account_id (up_headers reply);
      _ ← count_stream content_type_indicates_stream;
      _ ← spawn_seen_ok_reports account_id (prpc_model context);
      _ ← on_failover (record_failover_success_if_needed (fo_did_cross (at_failover a)));
      return_response (response_with_body_with_rate_limit_policy (up_status reply) (up_headers reply)
                         StreamBody (is_codex_compat_request (cr_headers request)))
  | Err err => on_stream_failure target a err
  end.

(** ** Buffered answers *)

(** A stream the upstream insists on, for a client that did not ask for one. *)
Definition on_bridged (target : Target) (a : Attempt) (reply : UpstreamReply) : GM Turn :=
  let account_id := ua_id (tg_account target) in
  let status := up_status reply in
  let f := at_failover a in
  '(response, error_context, body) ←
    buffered_codex_compat_response (tg_account target) status (up_headers reply)
      (default "" (body_bytes (up_chunks reply)));
  let is_503_overloaded :=
    (status =? 503) && is_overloaded error_context in
  '(session, billing) ← settle_response (fo_session f) status body;
  let f := f <| fo_session := session |> in
  if is_success status then
    on_success f account_id status false (effective_service_tier body) billing (Some body) response
  else on_failure (mkAttempt f (at_body a) (at_retries a)) account_id status false is_503_overloaded
         error_context response.

Definition cache_models_response (headers : HeaderMap) (body cache_key : string) : GM CachedModelsResponse :=
  t ← now;
  let cached :=
    mkCachedModelsResponse body (default (compute_strong_etag body) (header_string headers "etag"))
      (header_string headers "content-type") (t + from_secs MODELS_CACHE_TTL_SEC) in
  _ ← modify (λ g : Gateway C W R, g <| gw_models_cache ::= <[cache_key := cached]> |>);
  mret cached.

Definition serve_models_from_cache (cache_key : string) : GM (option Response) :=
  t ← now;
  cache ← gets gw_models_cache;
  mret (cached ← cache !! cache_key;
        if cmr_expires_at cached <=? t then None
        else if request_if_none_match_matches (cr_headers request) (cmr_etag cached)
             then Some (build_models_not_modified_response cached t)
             else Some (cached_models_response cached t)).

(** The response of the models list, and its copy in the cache. *)
Definition with_models_cache (target : Target) (status : Z) (headers : HeaderMap) (body : string)
    (response : Response) : GM (Response * option CachedModelsResponse) :=
  if is_models_request request && is_success status then
    cached ← cache_models_response headers body (default "" (tg_models_cache_key target));
    t ← now;
    mret (mkResponse (rsp_status response) (models_cache_headers cached t (rsp_headers response))
            (rsp_body response), Some cached)
  else mret (response, None).

Definition not_modified_if_matched (cached : option CachedModelsResponse) (response : Response) : GM Response :=
  match cached with
  | Some cached =>
      if request_if_none_match_matches (cr_headers request) (cmr_etag cached)
      then t ← now; mret (build_models_not_modified_response cached t) else mret response
  | None => mret response
  end.

Definition on_buffered (target : Target) (a : Attempt) (is_stream : bool) (reply : UpstreamReply) : GM Turn :=
  let account := tg_account target in
  let status := up_status reply in
  let f := at_failover a in
  let body := default "" (body_bytes (up_chunks reply)) in
  if status =? 503 then
    '(response, error_context) ← map_service_unavailable account (up_headers reply) body;
    on_failure a (ua_id account) status is_stream
      (is_overloaded (Some error_context)) (Some error_context) response
  else
    '(response, error_context) ← buffered_response account status (up_headers reply) body;
    '(response, cached) ← with_models_cache target status (up_headers reply) body response;
    '(session, billing) ← settle_response (fo_session f) status body;
    let f := f <| fo_session := session |> in
    response ← not_modified_if_matched cached response;
    if is_success status then
      let billing :=
        if is_stream
        then mkLogBilling ((λ _, "streaming_open") <$> session) (bse_authorization_id <$> session) None None
        else billing in
      on_success f (ua_id account) status is_stream (effective_service_tier body) billing (Some body) response
    else on_failure (mkAttempt f (at_body a) (at_retries a)) (ua_id account) status is_stream false
           error_context response.

Definition with_session_stream (is_stream : bool) (f : Failover) : Failover :=
  f <| fo_session ::= fmap (λ s : BillingSession, s <| bse_is_stream := is_stream |>) |>.

Definition on_reply (target : Target) (a : Attempt) (reply : UpstreamReply) : GM Turn :=
  let status := up_status reply in
  let content_type_indicates_stream :=
    match header_get "content-type" (up_headers reply) ≫= header_to_str with
    | Some v => contains v "text/event-stream"
    | None => false
    end in
  let is_stream := content_type_indicates_stream || (prpc_stream context && is_success status) in
  let bridge := from_option bridge_stream_response false (tg_adaptation target) in
  let a := mkAttempt (with_session_stream (if bridge then false else is_stream) (at_failover a))
             (at_body a) (at_retries a) in
  if bridge && is_success status then on_bridged target a reply
  else if is_stream && is_success status then on_stream target a content_type_indicates_stream reply
  else on_buffered target a is_stream reply.

(** ** The inner loop *)

Definition attempt_turn (target : Target) (a : Attempt) : GM Turn :=
  hold ← ensure_hold (ua_id (tg_account target)) (at_failover a);
  match hold with
  | Err response => return_response response
  | Ok f =>
      let a := mkAttempt f (at_body a) (at_retries a) in
      selection ← on_outbound (select_http_client None);
      match selection with
      | Err _ => on_proxy_unavailable target a
      | Ok route =>
          let proxy := proxy_id (selected route) in
          answer ← send_upstream target (client route) (at_body a);
          match answer with
          | Ok reply =>
              _ ← on_outbound (mark_proxy_http_status proxy (up_status reply));
              on_reply target a reply
          | Err _ =>
              _ ← on_outbound (mark_proxy_transport_failure proxy);
              on_transport_error target a
          end
      end
  end.

(** ** The outer loop *)

Definition failover_turn (f : Failover) : GM (Failover + option Response) :=
  selection ← select_account f;
  match selection with
  | Again f => mret (inl f)
  | Finished response => mret (inr (Some response))
  | Chosen account =>
      shared ← gets gw_shared_routing_cache_enabled;
      sidelined ←
        (if bool_decide (cr_forced_account request = None) && shared
         then r ← on_cache (is_unhealthy (ua_id account)); mret (match r with Ok b => b | Err _ => false end)
         else mret false);
      if sidelined : bool then
        interval ← gets gw_retry_poll_interval;
        _ ← on_router (mark_unhealthy (ua_id account) (interval `max` from_millis 1));
        mret (inl (f <| fo_tried ::= λ tried, {[ua_id account]} ∪ tried |>))
      else
        _ ← match cr_forced_account request, rc_sticky_key rc with
            | None, Some sticky_key =>
                _ ← on_cache (set_sticky_account_id sticky_key (ua_id account)
                                (from_secs ROUTING_CACHE_STICKY_TTL_SEC));
                mret tt
            | _, _ => mret tt
            end;
        match build_upstream_url (ua_base_url account) (ua_mode account) (cr_path request) (cr_query request)
                (client_version_header request) with
        | None =>
            response ← localized_error locale 502 "invalid_upstream_url" "failed to build upstream URL";
            _ ← emit_request_log_event (ua_id account) 502 false;
            _ ← return_failure f "invalid_upstream_url" 502 None "invalid_upstream_url" None;
            mret (inr (Some response))
        | Some url =>
            let cache_key := if is_models_request request
                             then Some (uuid_to_string (ua_id account) +:+ ":" +:+ url) else None in
            cached ← match cache_key with Some key => serve_models_from_cache key | None => mret None end;
            match cached with
            | Some response => mret (inr (Some response))
            | None =>
                let adaptation :=
                  maybe_adapt_openai_responses_request_for_codex_profile (ua_mode account)
                    (ua_base_url account) (cr_path request) (cr_headers request) (rc_body rc) in
                let body := from_option adapted_body (rc_body rc) adaptation in
                retry_max ← gets (λ g, same_account_quick_retry_max (gw_failover g));
                ended ← loop (Datatypes.S (Z.to_nat retry_max))
                          (attempt_turn (mkTarget account url cache_key adaptation)) (mkAttempt f body 0);
                mret match ended with
                     | None => inr None
                     | Some (inl f) => inl f
                     | Some (inr response) => inr (Some response)
                     end
            end
        end
  end.

(** The loops on an admitted request. *)
Definition run_failover (fuel : nat) (pending : option PendingBillingSession) : GM (option Response) :=
  _ ← match rc_sticky_key rc with
      | None => mret tt
      | Some sticky_key =>
          cached ← on_cache (get_sticky_account_id sticky_key);
          match cached with
          | Ok (Some account_id) => _ ← on_router (bind_sticky sticky_key account_id); mret tt
          | _ => mret tt
          end
      end;
  r ← loop fuel failover_turn (mkFailover pending None ∅ None false false);
  mret (mjoin r).
End pipeline.

(** ** The handler *)

Section handler.
Context {C W R : Type} `{Clock} `{WallClock} `{UuidSource} `{UuidText} `{HashOrder} `{RoutingCache C}
  `{RingServer R} `{UrlLibrary} `{!RecoveryApi} `{FormUrlencoded} `{HttpClientBuilder} `{SerdeJson}
  `{ZstdDecoder} `{Utf8} `{Rfc2822} `{RegexLibrary} `{ResolveApi W} `{Digests} `{NumberText} `{BillingApi}
  `{BillingDecoders} `{UpstreamApi} `{RouteUpdates}.
Abbreviation GM := (ST (Timed (Gateway C W R))).

Definition read_request_body (request : ClientRequest) : GM (result string Response) :=
  limit ← gets (λ g, max_request_body_bytes_for_path (gw_max_request_body_bytes g) (cr_path request));
  let header_locale := detect_request_locale (cr_headers request) "" in
  match cr_body request with
  | None =>
      response ← localized_error header_locale 400 "invalid_request_body" "failed to read request body";
      mret (Err response)
  | Some body =>
      if limit <? Z.of_nat (String.length body) then
        response ← localized_error header_locale 413 "payload_too_large"
                     "request body exceeds the configured limit";
        mret (Err response)
      else mret (Ok body)
  end.

(** The request of a conversation or a session that continues: the id of the response
    it follows is put into its body. *)
Definition continue_response (request : ClientRequest) (context : ParsedRequestPolicyContext)
    (value : Value) : GM (result (Value * ParsedRequestPolicyContext) string) :=
  let owner_key := response_owner_key (cr_principal request) in
  let has_previous_response_id := bool_decide (is_Some (non_blank (get "previous_response_id" value ≫= as_str))) in
  prior ← match prpc_conversation_id context with
          | Some conversation_id => on_responses (current_conversation_response_id owner_key conversation_id)
          | None => mret None
          end;
  value ← match prior, has_previous_response_id, stable_continuation_cursor_key context with
          | None, false, Some key =>
              restored ← on_responses (current_continuation_cursor_response_id owner_key key);
              mret match restored with
                   | Some response_id =>
                       on_object (map_insert "previous_response_id" (VString response_id)) value
                   | None => value
                   end
          | _, _, _ => mret value
          end;
  mret (apply_conversation_semantics_to_request value context prior).

Definition prepare_responses_request (request : ClientRequest) (context : ParsedRequestPolicyContext)
    (body : string) : GM (result (ParsedRequestPolicyContext * string) Response) :=
  if negb (String.eqb (cr_path request) "/v1/responses") then mret (Ok (context, body)) else
  match parse_request_json_body (cr_headers request) body with
  | None => mret (Ok (context, body))
  | Some value =>
      r ← continue_response request context value;
      match r with
      | Err message =>
          response ← localized_error (prpc_detected_locale context) 400 "invalid_request" message;
          mret (Err response)
      | Ok (value, context) => mret (Ok (context, default body (to_string value)))
      end
  end.

Definition maybe_handle_background_response_request (request : ClientRequest)
    (context : ParsedRequestPolicyContext) (body : string) : GM (option Response) :=
  if negb (String.eqb (cr_method request) "POST") || negb (String.eqb (cr_path request) "/v1/responses")
  then mret None else
  if bool_decide (header_get BACKGROUND_SELF_REQUEST_HEADER (cr_headers request) ≫= header_to_str = Some "1")
  then mret None else
  match parse_request_json_body (cr_headers request) body with
  | None => mret None
  | Some value =>
      if negb (default false (get "background" value ≫= as_bool)) then mret None else
      if request_explicitly_disables_store value then
        response ← localized_error (prpc_detected_locale context) 400 "background_requires_store"
                     "background responses require store=true";
        mret (Some response)
      else
        let owner_key := response_owner_key (cr_principal request) in
        let requested_stream := default false (get "stream" value ≫= as_bool) in
        let value := if requested_stream then value else on_object (map_insert "stream" (VBool false)) value in
        let conversation_id := prpc_conversation_id context in
        response_id ← on_responses (queue_background_response owner_key value conversation_id);
        queued ← on_responses (lookup_response owner_key response_id);
        queued_response ←
          match queued with
          | Some v => mret v
          | None =>
              t ← utc_timestamp;
              mret (build_response_stub value response_id "queued" true t conversation_id)
          end;
        _ ← spawn (BackgroundWorker (mkBackgroundRequestSnapshot response_id owner_key
              (from_option token "" (cr_principal request)) (collect_background_headers (cr_headers request))
              value conversation_id requested_stream));
        if requested_stream then
          found ← on_responses (stream_response owner_key response_id);
          match found with
          | StreamFound =>
              mret (Some (mkResponse 200 [("content-type", "text/event-stream"); ("cache-control", "no-cache")]
                            StreamBody))
          | StreamNotFound | NotStreamable =>
              response ← localized_error (prpc_detected_locale context) 502 "background_stream_unavailable"
                           "background stream is unavailable";
              mret (Some response)
          end
        else mret (Some (mkResponse 202 [] (ValueBody queued_response)))
  end.

Definition sticky_key_of (request : ClientRequest) (context : ParsedRequestPolicyContext) : option string :=
  or_else (or_else (prpc_continuation_key_hint context) (sticky_session_key_from_headers (cr_headers request)))
    (prpc_sticky_key_hint context).

(** The checks before a request reaches an account: the policy of its key and the
    guard, which are not made again. *)
Definition check_admission (request : ClientRequest) (context : ParsedRequestPolicyContext) : GM (option Response) :=
  t ← utc_now;
  match enforce_principal_request_policy t (cr_principal request) (cr_headers request) context with
  | Err e => mret (Some (error_response e))
  | Ok _ =>
      blocked ← on_failover (enforce_invalid_request_guard (cr_principal request));
      mret (if blocked : bool
            then Some (error_response (json_error 429 "invalid_request_rate_limited"
                                         "too many invalid requests; retry later"))
            else None)
  end.

Definition proxy_handler (fuel : nat) (request : ClientRequest) : GM (option Response) :=
  read ← read_request_body request;
  match read with
  | Err response => mret (Some response)
  | Ok body =>
      prepared ← prepare_responses_request request (parse_request_policy_context (cr_headers request) body) body;
      match prepared with
      | Err response => mret (Some response)
      | Ok (context, body) =>
          refused ← check_admission request context;
          match refused with
          | Some response => mret (Some response)
          | None =>
              background ← maybe_handle_background_response_request request context body;
              match background with
              | Some response => mret (Some response)
              | None =>
                  pending ← on_billing (build_pending_billing_session (cr_principal request)
                              (cr_headers request) context (cr_path request) (cr_method request));
                  match pending with
                  | Err e => mret (Some (error_response e))
                  | Ok pending =>
                      started ← now;
                      wait ← gets gw_request_failover_wait;
                      t ← now;
                      run_failover (mkRequestContext request context body (sticky_key_of request context)
                                      started (t + wait)) fuel pending
                  end
              end
          end
      end
  end.

(** ** Tasks *)

Context `{SelfApi} `{StreamEnds}.

Definition run_gateway_task (task : GatewayTask) : GM unit :=
  match task with
  | ReportSeenOk account_id model_id => run_seen_ok_reports account_id model_id
  | ReportLiveResult account_id report => on_reporter (report_live_result account_id report)
  | ReportRateLimits account_id entries => on_reporter (report_observed_rate_limits account_id entries)
  | PostFailoverRecovery account_id error_context => run_post_failover_recovery account_id error_context
  | BackgroundWorker snapshot => on_responses (run_background_worker snapshot)
  end.
End handler.
