(* ===== verification/PipelineFacts.v ===== *)
(** * The pipeline and its holds

    What the operations of the pipeline leave alone, and what each turn of its loops
    does to the holds: whenever a response is returned, every open hold is the
    responsibility of a spawned task. *)
From S2P Require Import Prelude RustStr CoreModel Router RoutingCache Auth OutboundProxy Snapshot UpstreamHealth Failover Json Request RequestPolicy ErrorLearning StreamUsage Secrets Billing StreamForward BillingFacts Responses BackgroundResponses Kept Gateway Pipeline.

#[local] Open Scope string_scope.
#[local] Open Scope list_scope.
#[local] Open Scope Z_scope.

(** ** Quiet operations *)

Section quiet.
Context {C W R : Type}.
Abbreviation G := (Gateway C W R).
Abbreviation GM := (ST (Timed G)).
Implicit Types (g : G).

Definition retry_settings (p : ProxyState) : bool * Z :=
  (enable_request_failover p, same_account_quick_retry_max p).

(** What billing and the upstreams know of a gateway, its settings for retries and
    whether streams need a hold. *)
Definition view g :=
  (control_plane_base_url (gw_billing g), billing_exchanges (gw_billing g), billing_tasks (gw_billing g),
   gw_sent g, retry_settings (gw_failover g), billing_authorize_required_for_stream (gw_billing g)).

Definition quiet {A} (m : GM A) : Prop := ∀ v, kept (λ w, view (st w) = v) m.

Lemma quiet_ret {A} (a : A) : quiet (mret a).
Proof. intros v. apply kept_ret. Qed.
Lemma quiet_bind {A B} (m : GM A) (k : A → GM B) : quiet m → (∀ a, quiet (k a)) → quiet (m ≫= k).
Proof. intros Hm Hk v. apply kept_bind; [apply Hm|intros a; apply Hk]. Qed.
Lemma quiet_gets {A} (f : G → A) : quiet (gets f).
Proof. intros v. apply kept_gets. Qed.
Lemma quiet_modify (f : G → G) : (∀ g, view (f g) = view g) → quiet (modify f).
Proof. intros Hf v. apply kept_modify. intros g n Hg. cbn in *. by rewrite Hf. Qed.
Lemma quiet_now `{Clock} : quiet now.
Proof. intros v w Hw. by wp_step. Qed.
Lemma quiet_utc_now `{WallClock} : quiet utc_now.
Proof. intros v. apply kept_utc_now. by intros s n. Qed.
Lemma quiet_new_v4 `{UuidSource} : quiet new_v4.
Proof. intros v. apply kept_new_v4. by intros s n. Qed.
Lemma quiet_zoom {T A} get put (m : ST (Timed T) A) :
  (∀ t g, view (put t g) = view g) → quiet (zoom get put m : GM A).
Proof. intros Hp v w Hw. wp_step. apply wp_intro. intros a s _. cbn [st]. by rewrite Hp. Qed.

Lemma quiet_router {A} (m : ST (Timed Router.Router) A) : quiet (on_router m).
Proof. by apply quiet_zoom. Qed.
Lemma quiet_outbound {A} (m : ST (Timed OutboundProxyRuntime) A) : quiet (on_outbound m).
Proof. by apply quiet_zoom. Qed.
Lemma quiet_cache {A} (m : ST (Timed C) A) : quiet (on_cache m).
Proof. by apply quiet_zoom. Qed.
Lemma quiet_responses {A} (m : ST (Timed BackgroundResponsesRuntime) A) : quiet (on_responses m).
Proof. by apply quiet_zoom. Qed.
Lemma quiet_learning {A} (m : ST (LearningState W) A) : quiet (on_learning m).
Proof.
  intros v w Hw. apply wp_intro. intros a w'. unfold on_learning.
  destruct (m _) as [b l]. intros [= <- <-]. exact Hw.
Qed.
Lemma quiet_spawn task : quiet (spawn task).
Proof. by apply quiet_modify. Qed.
Lemma quiet_localized locale status code fallback : quiet (localized_error locale status code fallback).
Proof. apply quiet_bind; [apply quiet_gets|intros app; apply quiet_ret]. Qed.

(** The failover functions do not touch the settings. *)
Definition unset {A} (m : ST (Timed ProxyState) A) : Prop := ∀ c, kept (λ w, retry_settings (st w) = c) m.
Lemma quiet_failover {A} (m : ST (Timed ProxyState) A) : unset m → quiet (on_failover m).
Proof.
  intros Hm v w Hw. unfold on_failover. wp_step.
  wp_use (Hm (retry_settings (gw_failover (st w)))) as a w1 Hw1; [done|].
  cbn [st]. rewrite <-Hw. unfold view at 2. rewrite <-Hw1. done.
Qed.
Lemma quiet_ring {A} (d : A) (m : ST (Timed (AliveRingRouter R)) A) : quiet (on_ring d m).
Proof.
  intros v w Hw. apply wp_intro. intros a w'. unfold on_ring.
  destruct (gw_ring (st w)); [destruct (m _)|]; intros [= <- <-]; exact Hw.
Qed.
End quiet.

(** [quiet_go] takes an operation apart down to the components it runs. *)
Ltac quiet_step :=
  cbv beta zeta;
  lazymatch goal with
  | |- quiet (mret _) => apply quiet_ret
  | |- quiet (_ ≫= _) => apply quiet_bind; [|intros ?]
  | |- quiet (gets _) => apply quiet_gets
  | |- quiet now => apply quiet_now
  | |- quiet utc_now => apply quiet_utc_now
  | |- quiet new_v4 => apply quiet_new_v4
  | |- quiet (on_router _) => apply quiet_router
  | |- quiet (on_outbound _) => apply quiet_outbound
  | |- quiet (on_cache _) => apply quiet_cache
  | |- quiet (on_responses _) => apply quiet_responses
  | |- quiet (on_learning _) => apply quiet_learning
  | |- quiet (on_failover _) => apply quiet_failover
  | |- quiet (on_ring _ _) => apply quiet_ring
  | |- quiet (spawn _) => apply quiet_spawn
  | |- quiet (localized_error _ _ _ _) => apply quiet_localized
  | |- quiet (match ?x with _ => _ end) => destruct x
  | |- quiet ?m => first [solve [eauto with quiet] | let f := head_of m in unfold f]
  end.
Ltac quiet_go := repeat quiet_step; try solve [eauto with quiet].
Create HintDb quiet.

Section failover.
Context `{Clock} `{HashOrder} `{UuidText}.

Lemma unset_zoom {A} (m : ST (Timed Router.Router) A) : unset (zoom ps_router set_ps_router m).
Proof. intros v w Hw. wp_step. apply wp_intro. intros a s _. exact Hw. Qed.
Lemma unset_now : unset now.
Proof. intros v w Hw. by wp_step. Qed.

Lemma unset_cross model sticky deadline tried current retryable :
  unset (should_cross_account_failover model sticky deadline tried current retryable).
Proof.
  intros c. apply kept_bind; [apply kept_gets|intros enabled]. destruct (_ || _); [apply kept_ret|].
  apply kept_bind.
  - apply kept_bind; [apply kept_gets|intros prefer]. apply kept_bind; [apply unset_zoom|intros p; apply kept_ret].
  - intros found. destruct (negb found); [apply kept_ret|]. apply kept_bind; [apply unset_now|intros t].
    destruct (t <? deadline); apply kept_ret.
Qed.
Lemma unset_record_cross tried account did : unset (record_cross_account_failover_attempt tried account did).
Proof. intros c. kept_with ltac:(by intros ?? Hs). Qed.
Lemma unset_record_retry : unset record_same_account_retry.
Proof. intros c. kept_with ltac:(by intros ?? Hs). Qed.
Lemma unset_record_success did : unset (record_failover_success_if_needed did).
Proof. intros c. kept_with ltac:(by intros ?? Hs). Qed.
Lemma unset_record_exhausted did : unset (record_failover_exhausted_if_needed did).
Proof. intros c. kept_with ltac:(by intros ?? Hs). Qed.
Lemma unset_enforce_guard principal : unset (enforce_invalid_request_guard principal).
Proof.
  intros c. apply kept_bind; [apply kept_gets|intros s]. destruct (negb _); [apply kept_ret|].
  destruct (invalid_request_guard_key principal); [|apply kept_ret]. apply kept_bind; [apply unset_now|intros t].
  destruct (invalid_request_guard s !! _) as [[hits until]|]; kept_with ltac:(by intros ?? Hs).
Qed.
Lemma unset_record_guard principal source status context :
  unset (record_invalid_request_guard_failure principal source status context).
Proof.
  intros c. apply kept_bind; [apply kept_gets|intros s]. destruct (negb _); [apply kept_ret|].
  destruct (negb _); [apply kept_ret|]. destruct (invalid_request_guard_key principal); [|apply kept_ret].
  apply kept_bind; [apply unset_now|intros t]. destruct (default _ _) as [hits until]. cbv zeta.
  destruct (match live_block until t with Some u => t <? u | None => false end); [|destruct (_ <? _)%nat];
    apply kept_modify; by intros ?? Hs.
Qed.
End failover.
#[export] Hint Resolve unset_cross unset_record_cross unset_record_retry unset_record_success
  unset_record_exhausted unset_enforce_guard unset_record_guard : quiet.

(** ** Holds in the gateway *)

Section holds.
Context {C W R : Type} `{BillingDecoders}.
Abbreviation G := (Gateway C W R).
Abbreviation GM := (ST (Timed G)).

(** [X] and the spawned tasks owe the open holds; [c] are the settings for retries. *)
Definition holding (X : gset string) (c : bool * Z) (w : Timed G) : Prop :=
  owed X (gw_billing (st w)) ∧ retry_settings (gw_failover (st w)) = c.

Lemma holding_mono X Y c w : X ⊆ Y → holding X c w → holding Y c w.
Proof. intros HXY [Ho Hc]. split; [by eapply owed_mono|done]. Qed.

Lemma holding_quiet {A} (m : GM A) X c : quiet m → kept (holding X c) m.
Proof.
  intros Hm w [[Ho Hn] Hc]. wp_use (Hm (view (st w)) w eq_refl) as a w' Hv.
  unfold view in Hv. injection Hv as Hu Hx Ht Hsent He Hr _. unfold holding, owed, retry_settings in *.
  rewrite Hu, Hx, Ht, He, Hr. done.
Qed.

(** A rule for a component's operation in the gateway from its rule in billing. *)
Lemma holding_billing {A} (m : ST (Timed BillingState) A) X (Y : A → gset string) c w :
  (∀ b, owed X (st b) → wp m (λ a b', owed (Y a) (st b')) b) →
  holding X c w → wp (on_billing m) (λ a w', holding (Y a) c w') w.
Proof. intros Hm [Ho Hc]. unfold on_billing. wp_step. wp_use Hm as a b Hb; [exact Ho|]. done. Qed.

Lemma holding_kept {A} (m : ST (Timed BillingState) A) X c :
  kept (λ b, owed X (st b)) m → kept (holding X c) (on_billing m).
Proof. intros Hm w Hw. by apply (holding_billing m X (λ _, X)). Qed.

Lemma wp_quiet {A B} (m : GM A) (k : A → GM B) X c (Q : B → Timed G → Prop) w :
  holding X c w → quiet m → (∀ x w', holding X c w' → wp (k x) Q w') → wp (m ≫= k) Q w.
Proof. intros Hw Hm Hk. wp_step. wp_use (holding_quiet m X c Hm w Hw) as x w' Hw'. by apply Hk. Qed.

(** What a turn of the inner loop leaves, after so many retries. *)
Definition turned (X : gset string) (c : bool * Z) (retries : Z) (r : Attempt + (Failover + Response))
    (w : Timed G) : Prop :=
  match r with
  | inl a => holding (session_holds (fo_session (at_failover a)) ∪ X) c w ∧ at_retries a = retries + 1
             ∧ retries < c.2
  | inr (inl f) => fo_session f = None ∧ holding X c w
  | inr (inr _) => holding X c w
  end.
End holds.

Section operations.
Context {C W R : Type} `{Clock} `{WallClock} `{UuidSource} `{UuidText} `{HashOrder} `{RoutingCache C}
  `{RingServer R} `{UrlLibrary} `{!RecoveryApi} `{FormUrlencoded} `{HttpClientBuilder} `{SerdeJson}
  `{ZstdDecoder} `{Utf8} `{Rfc2822} `{RegexLibrary} `{ResolveApi W} `{Digests} `{NumberText} `{BillingApi}
  `{BillingDecoders} `{UpstreamApi} `{RouteUpdates}.
Abbreviation G := (Gateway C W R).
Abbreviation GM := (ST (Timed G)).
Context (rc : RequestContext).
Implicit Types (X : gset string) (c : bool * Z) (f : Failover) (a : Attempt) (w : Timed G).

(** *** Quiet operations of the pipeline *)

Abbreviation still := (quiet (C := C) (W := W) (R := R)).


Lemma quiet_log event : still (on_billing (emit_request_log event)).
Proof. by intros v w Hw. Qed.
Lemma quiet_no_release context : still (on_billing (release_billing_hold_best_effort None context)).
Proof. by intros v w Hw. Qed.
Lemma quiet_elapsed started : still (elapsed_ms started).
Proof. quiet_go. Qed.
Lemma quiet_log_event account status stream tier code billing latency :
  still
    (emit_request_log_event_with_billing rc account status stream tier code billing latency).
Proof.
  unfold emit_request_log_event_with_billing. repeat (apply quiet_bind; [quiet_go|intros ?]). apply quiet_log.
Qed.
Lemma quiet_post_recovery endpoint : still (post_recovery endpoint).
Proof. by intros v w Hw. Qed.
Lemma quiet_recovery account context : still (apply_recovery_action account context).
Proof. pose proof quiet_post_recovery. quiet_go. Qed.
Lemma quiet_mark account sticky ttl :
  still (mark_account_unhealthy_and_clear_sticky account sticky ttl).
Proof. quiet_go. Qed.
Lemma quiet_seen_ok account model : still (spawn_seen_ok_reports account model).
Proof. quiet_go. Qed.
Lemma quiet_failed_report account model status context :
  still (spawn_failed_live_report account model status context).
Proof. quiet_go. Qed.
Lemma quiet_rate_report account headers :
  still (spawn_observed_rate_limit_report account headers).
Proof. quiet_go. Qed.
Lemma quiet_may_retry b : still (may_retry rc b).
Proof. quiet_go. Qed.
Lemma quiet_should_fail_over f account retryable :
  still (should_fail_over rc f account retryable).
Proof. quiet_go. Qed.
Lemma quiet_learn source account context : still (learn rc source account context).
Proof. apply quiet_bind; [apply quiet_learning|intros []; apply quiet_ret]. Qed.
Lemma quiet_unavailable account headers body :
  still (map_service_unavailable rc account headers body).
Proof. apply quiet_bind; [apply quiet_utc_now|intros t; apply quiet_learn]. Qed.
Lemma quiet_buffered account status headers body :
  still (buffered_response rc account status headers body).
Proof.
  apply quiet_bind; [apply quiet_utc_now|intros t]. cbv beta.
  match goal with |- quiet (match ?x with _ => _ end) => destruct x end; [|apply quiet_ret].
  apply quiet_bind; [apply quiet_learn|intros []; apply quiet_ret].
Qed.
Lemma quiet_codex_compat account status headers body :
  still (buffered_codex_compat_response rc account status headers body).
Proof.
  unfold buffered_codex_compat_response. destruct (400 <=? status).
  - apply quiet_bind; [apply quiet_buffered|intros []; apply quiet_ret].
  - destruct (_ ≫= _); [apply quiet_ret|]. apply quiet_bind; [apply quiet_learn|intros []; apply quiet_ret].
Qed.
Lemma quiet_store body : still (store_completed_response_from_proxy rc body).
Proof. quiet_go. Qed.
Lemma quiet_prelude_failure account retries err :
  still (stream_prelude_failure rc account retries err).
Proof.
  apply quiet_bind; [apply quiet_localized|intros r].
  destruct err; [apply quiet_ret..|]. apply quiet_bind; [apply quiet_learn|intros []; apply quiet_ret].
Qed.
Lemma quiet_count b : still (count_stream rc b).
Proof. apply quiet_modify. intros g. destruct b; [done|]. by destruct (prpc_stream _). Qed.
Lemma quiet_with_models target status headers body response :
  still (with_models_cache rc target status headers body response).
Proof.
  unfold with_models_cache. destruct (_ && _); [|apply quiet_ret].
  apply quiet_bind; [|intros cached; quiet_go]. apply quiet_bind; [apply quiet_now|intros t].
  apply quiet_bind; [by apply quiet_modify|intros _; apply quiet_ret].
Qed.
Lemma quiet_not_modified cached response :
  still (not_modified_if_matched rc cached response).
Proof. quiet_go. Qed.
Lemma quiet_serve key : still (serve_models_from_cache rc key).
Proof. quiet_go. Qed.
Lemma quiet_wait : still (wait_for_route_update_or_deadline rc).
Proof. apply quiet_bind; [apply quiet_now|intros t]. destruct (_ <=? t); [apply quiet_ret|by intros v w Hw]. Qed.
Lemma quiet_pick_ids ids excluded model :
  still (pick_alive_ring_candidate_from_ids ids excluded model).
Proof. induction ids as [|id ids IH]; cbn [pick_alive_ring_candidate_from_ids]; [apply quiet_ret|]. by quiet_go. Qed.
Lemma quiet_pick_ring excluded model :
  still (pick_account_from_alive_ring excluded model).
Proof. apply quiet_bind; [apply quiet_ring|intros [ids|e]]; [apply quiet_pick_ids|apply quiet_ret]. Qed.
End operations.
#[export] Hint Resolve quiet_log quiet_no_release quiet_elapsed quiet_log_event quiet_post_recovery quiet_recovery quiet_mark
  quiet_seen_ok quiet_failed_report quiet_rate_report quiet_may_retry quiet_should_fail_over quiet_learn
  quiet_unavailable quiet_buffered quiet_codex_compat quiet_store quiet_prelude_failure quiet_count
  quiet_with_models quiet_not_modified quiet_serve quiet_wait quiet_pick_ring : quiet.

Tactic Notation "quietly" hyp(Hw) "as" simple_intropattern(r) :=
  let w' := fresh "u" in let Hw' := fresh "Hw" in
  eapply (wp_quiet _ _ _ _ _ _ Hw); [quiet_go|intros r w' Hw']; clear Hw; rename Hw' into Hw.

(** ** Turns *)

Section turns.
Context {C W R : Type} `{Clock} `{WallClock} `{UuidSource} `{UuidText} `{HashOrder} `{RoutingCache C}
  `{RingServer R} `{UrlLibrary} `{!RecoveryApi} `{FormUrlencoded} `{HttpClientBuilder} `{SerdeJson}
  `{ZstdDecoder} `{Utf8} `{Rfc2822} `{RegexLibrary} `{ResolveApi W} `{Digests} `{NumberText} `{BillingApi}
  `{BillingDecoders} `{UpstreamApi} `{RouteUpdates}.
Abbreviation G := (Gateway C W R).
Abbreviation GM := (ST (Timed G)).
Context (rc : RequestContext) (X : gset string) (c : bool * Z).
Implicit Types (f : Failover) (a : Attempt) (w : Timed G).
Abbreviation held f := (session_holds (fo_session f) ∪ X).
Abbreviation turned := (turned X c).

Lemma may_retry_spec Y b w :
  holding Y c w →
  wp (may_retry rc b) (λ r w', holding Y c w' ∧ (r = true → ∃ p, retry_settings p = c ∧ b p = true)) w.
Proof.
  intros Hw. unfold may_retry. do 2 wp_step. destruct (_ && _) eqn:Hb; [|by wp_step].
  apply andb_prop in Hb as [_ Hb]. do 3 wp_step. split; [exact Hw|]. intros _. exists (gw_failover (st w)).
  split; [apply Hw|done].
Qed.

Lemma retry_on_transport_below retries p :
  retry_settings p = c → should_retry_same_account_on_transport retries p = true → retries < c.2.
Proof. intros <-. apply Z.ltb_lt. Qed.
Lemma retry_on_status_below source status retries p context :
  retry_settings p = c → should_retry_same_account_on_status source status retries p context = true → retries < c.2.
Proof.
  intros <-. unfold should_retry_same_account_on_status. cbn [retry_settings snd].
  destruct (_ <=? retries) eqn:Hle; [done|]. apply Z.leb_gt in Hle. done.
Qed.

Lemma retry_spec a body w :
  holding (held (at_failover a)) c w → at_retries a < c.2 →
  wp (retry a body) (turned (at_retries a)) w.
Proof. intros Hw Hlt. unfold retry. quietly Hw as []. by wp_step. Qed.

(** A failure that is returned closes the hold. *)
Lemma return_failure_spec f reason status code class recovery w :
  holding (held f) c w →
  wp (return_failure f reason status code class recovery) (λ _ w', holding X c w') w.
Proof.
  intros Hw. unfold return_failure. quietly Hw as [].
  apply (holding_billing _ (held f) (λ _, X)); [|done]. intros b Hb. by apply closes_release.
Qed.

(** A failover closes it too, so that the next account starts without one. *)
Lemma fail_over_spec f account response status context class w :
  holding (held f) c w →
  wp (fail_over f account response status context class) (λ f' w', fo_session f' = None ∧ holding X c w') w.
Proof.
  intros Hw. unfold fail_over, release_billing_hold_for_cross_account_failover. wp_step.
  quietly Hw as pending. wp_step.
  wp_use (holding_billing _ (held f) (λ _, X)) as [] w1 Hw1; [intros b Hb; by apply closes_release|exact Hw|].
  wp_step. quietly Hw1 as [tried did]. by wp_step.
Qed.

Lemma ensure_hold_spec account f w :
  holding (held f) c w →
  wp (ensure_hold rc account f) (λ r w',
    match r with Ok f' => holding (held f') c w' | Err _ => holding X c w' end) w.
Proof.
  intros Hw. unfold ensure_hold. destruct f as [pending session tried last did forced]; cbn [fo_session fo_pending] in *.
  destruct session as [s|]; [by wp_step|]. destruct pending as [p|]; [|by wp_step]. wp_step.
  eapply wp_mono.
  - eapply (holding_billing _ (session_holds None ∪ X)
      (λ r, match r with Ok s => {[bse_request_id s]} ∪ X | Err _ => X end)); [|exact Hw].
    intros b Hb. wp_use (owed_authorize X) as [s|e] b' Hb'; [|done|done].
    revert Hb. apply owed_mono. set_solver.
  - cbn beta. intros [s|e] w' Hw'; by wp_step.
Qed.

Lemma settle_response_spec session status body w :
  holding (session_holds session ∪ X) c w →
  wp (settle_response rc session status body) (λ r w',
    holding (session_holds r.1 ∪ X) c w' ∧ (is_success status = true → r.1 = None)) w.
Proof.
  intros [Ho Hc]. unfold settle_response. wp_step. unfold on_billing. wp_step.
  wp_use (owed_settle_if_needed X session status body) as r b Hb; [exact Ho|]. wp_step.
  destruct r as [[|s|id usage]|e].
  - destruct Hb as [Hb Hs]. by split; [split|].
  - split; [split; [|exact Hc]|done]. revert Hb. apply owed_mono. set_solver.
  - split; [split; [|exact Hc]|done]. revert Hb. apply owed_mono. set_solver.
  - split; [split; [|exact Hc]|done]. revert Hb. apply owed_mono. set_solver.
Qed.

(** What follows a failure, once the hold may be released or kept for a retry. *)
Lemma hand_over_spec retries f account response status context class w :
  holding (held f) c w →
  wp (f ← fail_over f account response status context class; hand_over f) (turned retries) w.
Proof.
  intros Hw. wp_step. wp_use (fail_over_spec f account response status context class w Hw) as f' w' Hf.
  by apply wp_ret.
Qed.
Lemma give_back_spec retries f account status stream code reason error_code class recovery response w :
  holding (held f) c w →
  wp (_ ← emit_request_log_event_with_error_code rc account status stream code;
      _ ← return_failure f reason status error_code class recovery;
      return_response response) (turned retries) w.
Proof.
  intros Hw. quietly Hw as []. wp_step.
  wp_use (return_failure_spec f reason status error_code class recovery) as [] w1 Hw1; [exact Hw|]. by apply wp_ret.
Qed.

Lemma on_proxy_unavailable_spec target a w :
  holding (held (at_failover a)) c w → wp (on_proxy_unavailable rc target a) (turned (at_retries a)) w.
Proof.
  intros Hw. unfold on_proxy_unavailable. wp_step.
  wp_use (may_retry_spec _ (should_retry_same_account_on_transport (at_retries a)) w Hw) as again w1 [Hw1 Ht].
  destruct again.
  - destruct (Ht eq_refl) as (p & Hp & Hb). apply retry_spec; [done|]. by eapply retry_on_transport_below.
  - quietly Hw1 as response. by apply give_back_spec.
Qed.

Lemma on_transport_error_spec target a w :
  holding (held (at_failover a)) c w → wp (on_transport_error rc target a) (turned (at_retries a)) w.
Proof.
  intros Hw. unfold on_transport_error. wp_step.
  wp_use (may_retry_spec _ (should_retry_same_account_on_transport (at_retries a)) w Hw) as again w1 [Hw1 Ht].
  destruct again.
  - destruct (Ht eq_refl) as (p & Hp & Hb). apply retry_spec; [done|]. by eapply retry_on_transport_below.
  - quietly Hw1 as ttl. quietly Hw1 as []. quietly Hw1 as response. quietly Hw1 as cross.
    destruct cross; [by apply hand_over_spec|by apply give_back_spec].
Qed.

Lemma on_failure_spec a account status stream overloaded context response w :
  holding (held (at_failover a)) c w →
  wp (on_failure rc a account status stream overloaded context response) (turned (at_retries a)) w.
Proof.
  intros Hw. unfold on_failure. quietly Hw as []. wp_step.
  wp_use (may_retry_spec _ _ _ Hw) as again w1 [Hw1 Ht]. destruct again.
  - destruct (Ht eq_refl) as (p & Hp & Hb). apply andb_prop in Hb as [_ Hb].
    apply retry_spec; [done|]. by eapply retry_on_status_below.
  - quietly Hw1 as cross. quietly Hw1 as outcome. quietly Hw1 as ttl. quietly Hw1 as []. quietly Hw1 as [].
    quietly Hw1 as []. destruct cross; [by apply hand_over_spec|by apply give_back_spec].
Qed.

Lemma on_success_spec f account status stream tier billing stored response retries w :
  holding X c w →
  wp (on_success rc f account status stream tier billing stored response) (turned retries) w.
Proof.
  intros Hw. unfold on_success. quietly Hw as latency. quietly Hw as []. quietly Hw as []. quietly Hw as [].
  quietly Hw as []. by apply wp_ret.
Qed.

Lemma prelude_failure_spec Y account retries err w :
  holding Y c w →
  wp (stream_prelude_failure rc account retries err) (λ r w',
    holding Y c w' ∧ ∀ p, retry_settings p = c → r.2 p = true → retries < c.2) w.
Proof.
  intros Hw. unfold stream_prelude_failure. quietly Hw as transport. destruct err as [|e|context].
  1, 2: apply wp_ret; split; [done|intros p; apply retry_on_transport_below].
  quietly Hw as [response context']. apply wp_ret. split; [done|intros p; apply retry_on_status_below].
Qed.

Lemma on_stream_failure_spec target a err w :
  holding (held (at_failover a)) c w → wp (on_stream_failure rc target a err) (turned (at_retries a)) w.
Proof.
  intros Hw. unfold on_stream_failure. wp_step.
  wp_use (prelude_failure_spec _ (tg_account target) (at_retries a) err w Hw)
    as [[[[status response] context] class] should_retry] w1 [Hw1 Hr].
  quietly Hw1 as []. wp_step. wp_use (may_retry_spec _ should_retry _ Hw1) as again w2 [Hw2 Ht]. destruct again.
  - destruct (Ht eq_refl) as (p & Hp & Hb). apply retry_spec; [done|]. by eapply Hr.
  - quietly Hw2 as outcome. quietly Hw2 as ttl. quietly Hw2 as []. quietly Hw2 as cross.
    destruct cross; [by apply hand_over_spec|by apply give_back_spec].
Qed.

Lemma on_stream_spec target a indicated reply w :
  holding (held (at_failover a)) c w → wp (on_stream rc target a indicated reply) (turned (at_retries a)) w.
Proof.
  intros Hw. unfold on_stream. wp_step. eapply wp_mono.
  - eapply (holding_billing _ (held (at_failover a))
      (λ r : result unit StreamPreludeError, match r with Ok _ => X | Err _ => held (at_failover a) end)); [|exact Hw].
    intros b Hb. wp_use (owed_stream_response X) as [[]|err] b' Hb'; [exact Hb|done|done].
  - cbn beta. intros [[]|err] w1 Hw1; [|by apply on_stream_failure_spec].
    quietly Hw1 as []. quietly Hw1 as []. quietly Hw1 as []. quietly Hw1 as []. by apply wp_ret.
Qed.

(** A buffered answer is settled, and a success leaves no hold. *)
Lemma settled_spec (f : Failover) retries status body (k : Failover → LogBilling → GM (Attempt + (Failover + Response))) w :
  holding (held f) c w →
  (∀ f' billing w', holding (held f') c w' → (is_success status = true → holding X c w') →
     wp (k f' billing) (turned retries) w') →
  wp ('(session, billing) ← settle_response rc (fo_session f) status body; k (f <| fo_session := session |>) billing)
    (turned retries) w.
Proof.
  intros Hw Hk. wp_step. wp_use (settle_response_spec _ status body w Hw) as [session billing] w1 [Hw1 Hs].
  apply Hk; [done|]. intros Hok. rewrite (Hs Hok) in Hw1. revert Hw1. apply holding_mono. set_solver.
Qed.

Lemma on_bridged_spec target a reply w :
  holding (held (at_failover a)) c w → wp (on_bridged rc target a reply) (turned (at_retries a)) w.
Proof.
  intros Hw. unfold on_bridged. quietly Hw as [[response context] body].
  apply (settled_spec (at_failover a) _ _ body (λ f billing,
    if is_success (up_status reply) then
      on_success rc f (ua_id (tg_account target)) (up_status reply) false (effective_service_tier rc body)
        billing (Some body) response
    else on_failure rc (mkAttempt f (at_body a) (at_retries a)) (ua_id (tg_account target)) (up_status reply)
           false ((up_status reply =? 503) && is_overloaded context) context response)); [exact Hw|].
  intros f billing w' Hf Hs. destruct (is_success (up_status reply)).
  - by apply on_success_spec, Hs.
  - by apply (on_failure_spec (mkAttempt f (at_body a) (at_retries a))).
Qed.

Lemma on_buffered_spec target a stream reply w :
  holding (held (at_failover a)) c w → wp (on_buffered rc target a stream reply) (turned (at_retries a)) w.
Proof.
  intros Hw. unfold on_buffered. destruct (up_status reply =? 503).
  { quietly Hw as [response context]. by apply on_failure_spec. }
  quietly Hw as [response context]. quietly Hw as [response' cached].
  apply (settled_spec (at_failover a) _ _ (default "" (body_bytes (up_chunks reply))) (λ f billing,
    response ← not_modified_if_matched rc cached response';
    if is_success (up_status reply) then
      on_success rc f (ua_id (tg_account target)) (up_status reply) stream
        (effective_service_tier rc (default "" (body_bytes (up_chunks reply))))
        (if stream
         then mkLogBilling ((λ _, "streaming_open") <$> fo_session f) (bse_authorization_id <$> fo_session f) None None
         else billing) (Some (default "" (body_bytes (up_chunks reply)))) response
    else on_failure rc (mkAttempt f (at_body a) (at_retries a)) (ua_id (tg_account target)) (up_status reply)
           stream false context response)); [exact Hw|].
  intros f billing w' Hf Hs. destruct (is_success (up_status reply)).
  - specialize (Hs eq_refl). quietly Hs as r. by apply on_success_spec.
  - quietly Hf as r. by apply (on_failure_spec (mkAttempt f (at_body a) (at_retries a))).
Qed.

Lemma held_with_stream stream f : session_holds (fo_session (with_session_stream stream f)) = session_holds (fo_session f).
Proof. by destruct f as [pending [s|] tried last did forced]. Qed.

Lemma on_reply_spec target a reply w :
  holding (held (at_failover a)) c w → wp (on_reply rc target a reply) (turned (at_retries a)) w.
Proof.
  intros Hw. unfold on_reply. cbv zeta. set (stream := _ || _). set (bridge := from_option _ _ _).
  set (a' := mkAttempt _ _ _).
  assert (Ha : holding (held (at_failover a')) c w) by (unfold a'; cbn [at_failover]; by rewrite held_with_stream).
  change (at_retries a) with (at_retries a'). clearbody a'.
  clearbody stream bridge.
  destruct (bridge && _); [by apply on_bridged_spec|].
  destruct (stream && _); [by apply on_stream_spec|by apply on_buffered_spec].
Qed.

Lemma holding_send Y target client body : kept (holding Y c) (send_upstream (C := C) (W := W) (R := R) rc target client body).
Proof. by intros w Hw. Qed.

Lemma attempt_turn_spec target a w :
  holding (held (at_failover a)) c w → wp (attempt_turn rc target a) (turned (at_retries a)) w.
Proof.
  intros Hw. unfold attempt_turn. wp_step.
  wp_use (ensure_hold_spec (ua_id (tg_account target)) (at_failover a) w Hw) as [f|response] w1 Hw1; [|by apply wp_ret].
  set (a' := mkAttempt f (at_body a) (at_retries a)).
  assert (Ha : holding (held (at_failover a')) c w1) by done. change (at_retries a) with (at_retries a').
  clearbody a'. clear Hw1. quietly Ha as [route|e]; [|by apply on_proxy_unavailable_spec].
  wp_step. wp_use (holding_send _ target (client route) _ _ Ha) as [reply|e] w2 Hw2; quietly Hw2 as marked.
  - by apply on_reply_spec.
  - by apply on_transport_error_spec.
Qed.

(** ** The loops *)

(** The inner loop ends within the retries that are allowed. *)
Lemma attempts_spec target f body w :
  fo_session f = None → holding X c w →
  wp (loop (Datatypes.S (Z.to_nat c.2)) (attempt_turn rc target) (mkAttempt f body 0)) (λ r w',
    match r with
    | Some (inl f') => fo_session f' = None ∧ holding X c w'
    | Some (inr _) => holding X c w'
    | None => False
    end) w.
Proof.
  intros Hf Hw.
  apply (wp_loop (attempt_turn rc target)
    (λ a w, holding (held (at_failover a)) c w ∧ 0 <= at_retries a <= 0 `max` c.2)
    (λ a _, Z.to_nat (c.2 - at_retries a))); cbn [at_retries at_failover].
  - intros a w1 [Ha Hr]. wp_use (attempt_turn_spec target a w1 Ha) as [a'|[f'|response]] w2 Ht; [|done|done].
    destruct Ht as (Ha' & Hn & Hlt). split; [split; [done|lia]|lia].
  - rewrite Hf. split; [revert Hw; apply holding_mono; set_solver|lia].
  - lia.
Qed.

Lemma no_account_left_spec f w :
  fo_session f = None → holding X c w →
  wp (no_account_left rc f) (λ r w',
    holding X c w' ∧ match r with Again f' => fo_session f' = None | _ => True end) w.
Proof.
  intros Hf Hw. unfold no_account_left. quietly Hw as enabled. quietly Hw as total.
  destruct (_ && _); [quietly Hw as []; by apply wp_ret|].
  quietly Hw as early. destruct early; [quietly Hw as []; by apply wp_ret|].
  destruct (fo_last_failure f) as [[[response status] account]|].
  - quietly Hw as []. quietly Hw as []. rewrite Hf. quietly Hw as []. by apply wp_ret.
  - unfold return_failure. rewrite Hf. quietly Hw as []. quietly Hw as response. by apply wp_ret.
Qed.

Lemma select_account_spec f w :
  fo_session f = None → holding X c w →
  wp (select_account rc f) (λ r w',
    holding X c w' ∧ match r with Again f' => fo_session f' = None | _ => True end) w.
Proof.
  intros Hf Hw. unfold select_account. destruct (cr_forced_account _) as [forced|].
  - quietly Hw as account. destruct account as [account|]; [by apply wp_ret|].
    unfold return_failure. rewrite Hf. quietly Hw as []. quietly Hw as response. by apply wp_ret.
  - quietly Hw as ring. quietly Hw as picked. destruct picked as [account|]; [by apply wp_ret|].
    by apply no_account_left_spec.
Qed.

Lemma failover_turn_spec f w :
  fo_session f = None → holding X c w →
  wp (failover_turn rc f) (λ r w',
    holding X c w' ∧ match r with inl f' => fo_session f' = None | inr response => is_Some response end) w.
Proof.
  intros Hf Hw. unfold failover_turn. wp_step.
  wp_use (select_account_spec f w Hf Hw) as [account|f'|response] w1 [Hw1 Hs]; [|by apply wp_ret|by apply wp_ret; eauto].
  quietly Hw1 as shared. quietly Hw1 as sidelined. destruct sidelined.
  { quietly Hw1 as interval. quietly Hw1 as []. by apply wp_ret. }
  quietly Hw1 as []. destruct (build_upstream_url _ _ _ _ _) as [url|].
  2:{ quietly Hw1 as response. quietly Hw1 as []. unfold return_failure. rewrite Hf.
      quietly Hw1 as []. apply wp_ret. eauto. }
  cbv zeta. quietly Hw1 as cached. destruct cached as [response|]; [apply wp_ret; eauto|].
  wp_step. wp_step. cbv beta.
  match goal with |- context [same_account_quick_retry_max ?p] =>
    replace (same_account_quick_retry_max p) with c.2 by (by destruct Hw1 as [_ <-]) end.
  wp_step. wp_use (attempts_spec _ f _ _ Hf Hw1) as [[f'|response]|] w6 Hr; [..|done]; apply wp_ret; naive_solver.
Qed.

Lemma run_failover_spec fuel pending w :
  holding X c w →
  wp (run_failover rc fuel pending) (λ r w', is_Some r → holding X c w') w.
Proof.
  intros Hw. unfold run_failover. quietly Hw as []. wp_step.
  apply (wp_mono _ (λ r w', is_Some (mjoin r) → holding X c w')); [|by intros; apply wp_ret].
  apply (wp_loop_partial _ (λ f w, fo_session f = None ∧ holding X c w)); [|by intros ? []|done].
  intros f w1 [Hf Hw1]. wp_use (failover_turn_spec f w1 Hf Hw1) as [f'|r] w2 [Hw2 Hr]; done.
Qed.
End turns.

(** ** The handler *)

Section handler.
Context {C W R : Type} `{Clock} `{WallClock} `{UuidSource} `{UuidText} `{HashOrder} `{RoutingCache C}
  `{RingServer R} `{UrlLibrary} `{!RecoveryApi} `{FormUrlencoded} `{HttpClientBuilder} `{SerdeJson}
  `{ZstdDecoder} `{Utf8} `{Rfc2822} `{RegexLibrary} `{ResolveApi W} `{Digests} `{NumberText} `{BillingApi}
  `{BillingDecoders} `{UpstreamApi} `{RouteUpdates}.
Abbreviation G := (Gateway C W R).
Abbreviation still := (quiet (C := C) (W := W) (R := R)).
Implicit Types (request : ClientRequest) (w : Timed G).

Lemma quiet_read request : still (read_request_body request).
Proof. quiet_go. Qed.
Lemma quiet_prepare request context body : still (prepare_responses_request request context body).
Proof.
  unfold prepare_responses_request. destruct (negb _); [apply quiet_ret|].
  destruct (parse_request_json_body _ _) as [value|]; [|apply quiet_ret].
  apply quiet_bind; [|intros [[value' context']|message]; quiet_go].
  unfold continue_response. apply quiet_bind; [quiet_go|intros prior].
  apply quiet_bind; [|intros value'; apply quiet_ret].
  destruct prior; [apply quiet_ret|]. destruct (bool_decide _); [apply quiet_ret|].
  destruct (stable_continuation_cursor_key context); quiet_go.
Qed.
Lemma quiet_admission request context : still (check_admission request context).
Proof.
  apply quiet_bind; [apply quiet_utc_now|intros t]. destruct (enforce_principal_request_policy _ _ _ _); quiet_go.
Qed.
Lemma quiet_background request context body :
  still (maybe_handle_background_response_request request context body).
Proof.
  unfold maybe_handle_background_response_request. destruct (_ || _); [apply quiet_ret|].
  destruct (bool_decide _); [apply quiet_ret|]. destruct (parse_request_json_body _ _); [|apply quiet_ret].
  destruct (negb _); [apply quiet_ret|]. destruct (request_explicitly_disables_store _); [quiet_go|]. cbv zeta.
  apply quiet_bind; [apply quiet_responses|intros id]. apply quiet_bind; [apply quiet_responses|intros queued].
  apply quiet_bind; [destruct queued; quiet_go|intros response]. apply quiet_bind; [apply quiet_spawn|intros _].
  destruct (default false _); [|apply quiet_ret]. apply quiet_bind; [apply quiet_responses|intros []]; quiet_go.
Qed.
End handler.
#[export] Hint Resolve quiet_read quiet_prepare quiet_admission quiet_background : quiet.

(** ** Runs of the gateway *)

Section runs.
Context {C W R : Type} `{Clock} `{WallClock} `{UuidSource} `{UuidText} `{HashOrder} `{RoutingCache C}
  `{RingServer R} `{UrlLibrary} `{!RecoveryApi} `{FormUrlencoded} `{HttpClientBuilder} `{SerdeJson}
  `{ZstdDecoder} `{Utf8} `{Rfc2822} `{RegexLibrary} `{ResolveApi W} `{Digests} `{NumberText} `{BillingApi}
  `{BillingDecoders} `{UpstreamApi} `{RouteUpdates} `{SelfApi} `{StreamEnds}.
Abbreviation G := (Gateway C W R).
Abbreviation GM := (ST (Timed G)).
Implicit Types (w : Timed G).

Lemma proxy_handler_spec X c fuel request w :
  holding X c w →
  wp (proxy_handler fuel request) (λ r w', is_Some r → holding X c w') w.
Proof.
  intros Hw. unfold proxy_handler. quietly Hw as [body|response]; [|by apply wp_ret].
  quietly Hw as [[context body']|response]; [|by apply wp_ret].
  quietly Hw as refused. destruct refused; [by apply wp_ret|].
  quietly Hw as background. destruct background; [by apply wp_ret|]. wp_step.
  wp_use (holding_kept _ X c (owed_build_pending X _ _ _ _ _) _ Hw) as [pending|e] w1 Hu; [|by apply wp_ret].
  quietly Hu as started. quietly Hu as wait. quietly Hu as t. by apply run_failover_spec.
Qed.

(** The runtime takes a spawned task and runs it. *)
Definition run_spawned_billing (i : nat) : GM unit :=
  task ← gets (λ g, billing_tasks (gw_billing g) !! i);
  match task with
  | None => mret tt
  | Some task =>
      _ ← on_billing (modify (λ b : BillingState, b <| billing_tasks ::= delete i |>));
      on_billing (run_billing_task task)
  end.
Definition run_spawned (i : nat) : GM unit :=
  task ← gets (λ g, gw_tasks g !! i);
  match task with
  | None => mret tt
  | Some task =>
      _ ← modify (λ g : G, g <| gw_tasks ::= delete i |>);
      run_gateway_task task
  end.

(** A run serves requests and runs what was spawned, in any order. *)
Inductive gateway_step : Timed G → Timed G → Prop :=
  | request_step fuel request response w w' :
      proxy_handler fuel request w = (Some response, w') → gateway_step w w'
  | billing_task_step i w : gateway_step w (run_spawned_billing i w).2
  | task_step i w : gateway_step w (run_spawned i w).2.

Lemma answered_step fuel request w :
  is_Some (proxy_handler fuel request w).1 → gateway_step w (proxy_handler fuel request w).2.
Proof.
  intros [response Hr]. apply (request_step fuel request response). by apply injective_projections.
Qed.

Lemma tasks_holds_delete i (tasks : list BillingTask) task :
  tasks !! i = Some task → tasks_holds tasks ⊆ task_holds task ∪ tasks_holds (delete i tasks).
Proof.
  intros Hi. unfold tasks_holds. revert i Hi. induction tasks as [|t tasks IH]; intros [|i] Hi; [done..| |];
    cbn [delete list_delete fmap list_fmap union_list foldr]; simplify_eq/=; [set_solver|].
  specialize (IH i Hi). set_solver.
Qed.

Lemma run_spawned_billing_spec X c i w :
  holding X c w → wp (run_spawned_billing i) (λ _ w', holding X c w') w.
Proof.
  intros [[Ho Hn] Hc]. unfold run_spawned_billing. do 2 wp_step.
  destruct (billing_tasks (gw_billing (st w)) !! i) as [task|] eqn:Hi; [|by wp_step].
  wp_step. unfold on_billing at 1. wp_step. wp_step. cbn [st ticks].
  apply (holding_billing _ (task_holds task ∪ X) (λ _, X)); [intros b Hb; by apply closes_task|].
  split; [split; [|exact Hn]|exact Hc].
  pose proof (tasks_holds_delete i _ _ Hi).
  change (open_holds (billing_exchanges (gw_billing (st w)))
          ⊆ task_holds task ∪ X ∪ tasks_holds (delete i (billing_tasks (gw_billing (st w))))). set_solver.
Qed.

Lemma quiet_reporter (m : ST (Timed SeenOkReporter) unit) : quiet (on_reporter (C := C) (W := W) (R := R) m).
Proof.
  intros v w Hw. apply wp_intro. intros a w'. unfold on_reporter.
  destruct (gw_reporter (st w)); [destruct (m _)|]; intros [= <- <-]; exact Hw.
Qed.
Lemma run_spawned_spec X c i : kept (holding X c) (run_spawned i).
Proof.
  apply holding_quiet. apply quiet_bind; [apply quiet_gets|intros [task|]]; [|apply quiet_ret].
  apply quiet_bind; [by apply quiet_modify|intros _]. pose proof quiet_reporter.
  destruct task; cbn [run_gateway_task]; [..|apply quiet_responses]; try apply quiet_reporter.
  - quiet_go.
  - apply quiet_bind; [apply quiet_recovery|intros []]; quiet_go.
Qed.

Lemma step_keeps X c w w' : gateway_step w w' → holding X c w → holding X c w'.
Proof.
  intros [fuel request response w1 w2 Hr|i w1|i w1] Hw.
  - eapply (wp_run _ _ _ _ _ (proxy_handler_spec X c fuel request w1 Hw) Hr). eauto.
  - by apply run_spawned_billing_spec.
  - by apply run_spawned_spec.
Qed.
End runs.
