(* ===== verification/PipelineEnds.v ===== *)
(** * The failover loop ends

    Time passes at each turn of the loop; once the deadline of the request is over
    no route update is waited for, and each further turn tries an account that was
    not tried in the round. *)
From S2P Require Import Prelude RustStr CoreModel Router RouterFacts RoutingCache Auth OutboundProxy Snapshot UpstreamHealth Failover Json Request RequestPolicy ErrorLearning StreamUsage Secrets Billing StreamForward BillingFacts Responses BackgroundResponses Kept Gateway Pipeline PipelineFacts.
From Stdlib Require Import Relation_Operators Lexicographic_Product Inverse_Image.

#[local] Open Scope string_scope.
#[local] Open Scope list_scope.
#[local] Open Scope Z_scope.

(** ** Time passes *)

Definition ahead {S A} (m : ST (Timed S) A) : Prop := ∀ n, kept (λ w, (n ≤ ticks w)%nat) m.
Ltac ahead_kept := kept_with ltac:(intros ? ? ?; cbn [ticks] in *; lia).
Ltac ahead_go := intros ?; ahead_kept.

(** The stores behind the routing cache and the alive ring take time too. *)
Class CacheTakesTime C `{RoutingCache C} : Prop := {
  ahead_get_sticky key : ahead (get_sticky_account_id key);
  ahead_set_sticky key id ttl : ahead (set_sticky_account_id key id ttl);
  ahead_delete_sticky key : ahead (delete_sticky_account_id key);
  ahead_set_unhealthy id ttl : ahead (set_unhealthy id ttl);
  ahead_is_unhealthy id : ahead (is_unhealthy id);
}.
Class RingTakesTime R `{RingServer R} : Prop := {
  ahead_connection : ahead ring_connection;
  ahead_lrange key lo hi : ahead (ring_lrange key lo hi);
}.

Section components.
Context `{Clock} `{WallClock} `{UuidSource} `{UuidText} `{HashOrder} `{SerdeJson} `{BillingApi}
  `{BillingDecoders} `{Utf8} `{Rfc2822} `{HttpClientBuilder}.

#[global] Instance in_memory_takes_time : CacheTakesTime InMemory.InMemoryRoutingCache.
Proof.
  split; intros; [change (ahead (InMemory.mem_get_sticky_account_id key))
    |change (ahead (InMemory.mem_set_sticky_account_id key id ttl))
    |change (ahead (InMemory.mem_delete_sticky_account_id key))
    |change (ahead (InMemory.mem_set_unhealthy id ttl))
    |change (ahead (InMemory.mem_is_unhealthy id))]; ahead_go.
Qed.

Lemma ahead_post endpoint call : ahead (post_billing endpoint call).
Proof. intros n w Hw. unfold wp, post_billing. cbn [snd ticks]. lia. Qed.
Lemma ahead_core n : on_core (λ w, (n ≤ ticks w)%nat).
Proof. intros s s' k k' _ Hk Hs. cbn [ticks] in *. lia. Qed.
Lemma ahead_authorize pending account path method started stream :
  ahead (authorize_billing_session pending account path method started stream).
Proof.
  intros n. apply kept_bind; [by apply kept_modify|intros _].
  apply kept_bind; [apply kept_post_json; intros endpoint; apply ahead_post|intros [r|e]]; kept_with ltac:(by intros ?).
Qed.
Lemma ahead_release session context : ahead (release_billing_hold_best_effort session context).
Proof.
  intros n. destruct session as [s|]; [|apply kept_ret].
  do 2 (apply kept_bind; [by apply kept_modify|intros _]).
  apply kept_bind; [apply kept_post_json; intros endpoint; apply ahead_post|intros r; apply kept_ret].
Qed.

Lemma ahead_stream_response status headers stream session log_context :
  ahead (stream_response_with_first_chunk status headers stream session log_context).
Proof.
  intros n. apply kept_try_bind; [apply kept_stream_prelude, ahead_core|intros prelude].
  apply kept_bind; [|intros latency; kept_with ltac:(by intros ?)].
  destruct session; [|destruct log_context]; ahead_kept.
Qed.

Lemma ahead_build_pending principal headers context path method :
  ahead (build_pending_billing_session principal headers context path method).
Proof. intros n. apply kept_build_pending; [apply ahead_core|]. intros endpoint p. apply ahead_post. Qed.

Lemma ahead_select_client timeout : ahead (select_http_client timeout).
Proof. ahead_go. Qed.
Lemma ahead_mark_failure proxy : ahead (mark_proxy_transport_failure proxy).
Proof. ahead_go. Qed.
Lemma ahead_mark_status proxy status : ahead (mark_proxy_http_status proxy status).
Proof. ahead_go. Qed.

Lemma ahead_ring_server `{RingServer R} {A} (m : ST (Timed R) A) : ahead m → ahead (on_ring_server m).
Proof. intros Hm n w Hw. unfold on_ring_server. wp_step. by wp_use (Hm n) as a w1 Hw1. Qed.
Lemma ahead_next_candidates `{RingTakesTime R} : ahead (next_candidate_ids (W := R)).
Proof.
  intros n. apply kept_try_bind; [|intros _; kept_with ltac:(by intros ?)].
  apply kept_bind; [ahead_kept|intros refresh]. destruct (negb refresh); [apply kept_ret|].
  apply kept_try_bind; [apply kept_bind; [apply ahead_ring_server, ahead_connection|intros r; apply kept_ret]|intros _].
  do 2 (apply kept_bind; [apply kept_gets|intros ?]).
  apply kept_try_bind; [apply kept_bind; [apply ahead_ring_server, ahead_lrange|intros r; apply kept_ret]|intros ids].
  ahead_kept.
Qed.
End components.

(** ** The pool stays, time passes *)

(** [n] ticks are over and the accounts of the pool are [I]. *)
Definition since {S} (pool : S → Router.Router) (n : nat) (I : list Uuid) (w : Timed S) : Prop :=
  (n ≤ ticks w)%nat ∧ ids_of (pool (st w)) = I.

Definition steady {S A} (pool : S → Router.Router) (m : ST (Timed S) A) : Prop :=
  ∀ n I, NoDup I → kept (since pool n I) m.

Ltac steady_kept :=
  kept_with ltac:(intros ? ? [? ?]; split; [cbn [ticks] in *; lia|assumption]).

Section pool.
Context `{Clock} `{HashOrder} `{UuidText}.
Abbreviation pool := (λ r : Router.Router, r).

Lemma steady_frame {A} (m : ST (Timed Router.Router) A) :
  (∀ w, NoDup (ids_of (st w)) → wp m (λ _ w', pick_frame w w') w) → steady pool m.
Proof.
  intros Hm n I HI w [Hn Hw]. wp_use (Hm w) as a w1 Hf; [by rewrite Hw|].
  split; [pose proof (pf_ticks _ _ Hf); lia|by rewrite (ids_of_frame _ _ Hf)].
Qed.
Lemma steady_pick_for_model model key excluded prefer : steady pool (pick_for_model model key excluded prefer).
Proof. apply steady_frame. intros w Hw. wp_use pick_for_model_selects as a w1 [Hf _]; done. Qed.
Lemma steady_pick_specific id : steady pool (pick_specific id).
Proof. apply steady_frame. intros w Hw. wp_use pick_specific_sound as a w1 [Hf _]; done. Qed.
Lemma steady_bind_sticky key id : steady pool (bind_sticky key id).
Proof.
  intros n I HI. unfold bind_sticky. destruct (normalize_sticky_key _); [|apply kept_ret].
  apply kept_bind; [by apply steady_pick_specific|intros [a|]]; steady_kept.
Qed.
Lemma steady_mark id ttl : steady pool (mark_unhealthy id ttl).
Proof. intros n I HI. steady_kept. Qed.
Lemma steady_unbind key : steady pool (unbind_sticky key).
Proof. intros n I HI. steady_kept. Qed.
Lemma steady_enabled_total : steady pool enabled_total.
Proof. intros n I HI. steady_kept. Qed.
Lemma steady_get_account id : steady pool (get_account_any_state id).
Proof. intros n I HI. steady_kept. Qed.

(** *** Failover *)

Lemma steady_zoom {A} (m : ST (Timed Router.Router) A) : steady pool m → steady ps_router (zoom ps_router set_ps_router m).
Proof. intros Hm n I HI w Hw. wp_step. wp_use (Hm n I HI) as a w1 Hw1; [exact Hw|]. exact Hw1. Qed.
Lemma steady_cross model sticky deadline tried current retryable :
  steady ps_router (should_cross_account_failover model sticky deadline tried current retryable).
Proof.
  intros n I HI. apply kept_bind; [apply kept_gets|intros enabled]. destruct (_ || _); [apply kept_ret|].
  apply kept_bind; [|intros found; steady_kept]. apply kept_bind; [apply kept_gets|intros prefer].
  apply kept_bind; [by apply steady_zoom; [apply steady_pick_for_model|]|intros p; apply kept_ret].
Qed.
Lemma steady_record_cross tried account did : steady ps_router (record_cross_account_failover_attempt tried account did).
Proof. intros n I HI. steady_kept. Qed.
Lemma steady_record_retry : steady ps_router record_same_account_retry.
Proof. intros n I HI. steady_kept. Qed.
Lemma steady_enforce_guard principal : steady ps_router (enforce_invalid_request_guard principal).
Proof. intros n I HI. steady_kept. Qed.
Lemma steady_record_guard principal source status context :
  steady ps_router (record_invalid_request_guard_failure principal source status context).
Proof.
  intros n I HI. apply kept_bind; [apply kept_gets|intros s]. do 2 (destruct (negb _); [apply kept_ret|]).
  destruct (invalid_request_guard_key principal); [|apply kept_ret]. apply kept_bind; [steady_kept|intros t].
  destruct (default _ _) as [hits until]. cbv zeta.
  destruct (match live_block until t with Some u => t <? u | None => false end); [|destruct (_ <? _)%nat]; steady_kept.
Qed.
End pool.

Create HintDb steady.
#[export] Hint Resolve steady_pick_for_model steady_pick_specific steady_bind_sticky steady_mark steady_unbind
  steady_enabled_total steady_get_account
  steady_cross steady_record_cross steady_record_retry steady_enforce_guard steady_record_guard
  ahead_get_sticky ahead_set_sticky ahead_delete_sticky ahead_set_unhealthy ahead_is_unhealthy
  ahead_authorize ahead_release ahead_stream_response ahead_select_client ahead_mark_failure ahead_mark_status
  ahead_next_candidates : steady.

(** ** Operations of the gateway *)

Section gateway.
Context {C W R : Type}.
Abbreviation G := (Gateway C W R).
Abbreviation GM := (ST (Timed G)).
Definition gw_pool (g : G) : Router.Router := router (gw_app g).
Abbreviation forward := (steady gw_pool).
Implicit Types (g : G).

Lemma forward_bind {A B} (m : GM A) (k : A → GM B) : forward m → (∀ a, forward (k a)) → forward (m ≫= k).
Proof. intros Hm Hk n I HI. apply kept_bind; [by apply Hm|intros a; by apply Hk]. Qed.
Lemma forward_ret {A} (a : A) : forward (mret a).
Proof. intros n I HI. apply kept_ret. Qed.
Lemma forward_gets {A} (f : G → A) : forward (gets f).
Proof. intros n I HI. apply kept_gets. Qed.
Lemma forward_modify (f : G → G) : (∀ g, gw_pool (f g) = gw_pool g) → forward (modify f).
Proof. intros Hf n I HI. apply kept_modify. intros g k [Hn Hg]. split; [done|]. cbn [st] in *. by rewrite Hf. Qed.
Lemma forward_now `{Clock} : forward now.
Proof. intros n I HI. steady_kept. Qed.
Lemma forward_utc_now `{WallClock} : forward utc_now.
Proof. intros n I HI. steady_kept. Qed.
Lemma forward_new_v4 `{UuidSource} : forward new_v4.
Proof. intros n I HI. steady_kept. Qed.
Lemma forward_zoom {T A} get put (m : ST (Timed T) A) :
  ahead m → (∀ t g, gw_pool (put t g) = gw_pool g) → forward (zoom get put m : GM A).
Proof.
  intros Hm Hp n I HI w [Hn Hw]. wp_step. wp_use (Hm n) as a w1 Hw1; [exact Hn|].
  split; [exact Hw1|]. cbn [st]. by rewrite Hp.
Qed.
Lemma forward_router {A} (m : ST (Timed Router.Router) A) : steady (λ r, r) m → forward (on_router m).
Proof. intros Hm n I HI w Hw. unfold on_router. wp_step. wp_use (Hm n I HI) as a w1 Hw1; [exact Hw|]. exact Hw1. Qed.
Lemma forward_failover {A} (m : ST (Timed ProxyState) A) : steady ps_router m → forward (on_failover m).
Proof. intros Hm n I HI w Hw. unfold on_failover. wp_step. wp_use (Hm n I HI) as a w1 Hw1; [exact Hw|]. exact Hw1. Qed.
Lemma forward_outbound {A} (m : ST (Timed OutboundProxyRuntime) A) : ahead m → forward (on_outbound m).
Proof. intros Hm. by apply forward_zoom. Qed.
Lemma forward_cache {A} (m : ST (Timed C) A) : ahead m → forward (on_cache m).
Proof. intros Hm. by apply forward_zoom. Qed.
Lemma forward_billing {A} (m : ST (Timed BillingState) A) : ahead m → forward (on_billing m).
Proof. intros Hm. by apply forward_zoom. Qed.
Lemma forward_learning {A} (m : ST (LearningState W) A) : forward (on_learning m).
Proof.
  intros n I HI w Hw. apply wp_intro. intros a w'. unfold on_learning.
  destruct (m _) as [b l]. intros [= <- <-]. exact Hw.
Qed.
Lemma forward_ring {A} (d : A) (m : ST (Timed (AliveRingRouter R)) A) : ahead m → forward (on_ring d m).
Proof.
  intros Hm n I HI w [Hn Hw]. unfold on_ring, wp. destruct (gw_ring (st w)) as [ring|]; [|done].
  pose proof (Hm n (mkTimed ring (ticks w)) Hn) as Hr. unfold wp in Hr. by destruct (m _).
Qed.
Lemma forward_spawn task : forward (spawn task).
Proof. by apply forward_modify. Qed.
Lemma forward_localized locale status code fallback : forward (localized_error locale status code fallback).
Proof. apply forward_bind; [apply forward_gets|intros app; apply forward_ret]. Qed.
End gateway.
Abbreviation forward := (steady gw_pool).

Ltac forward_step :=
  cbv beta zeta;
  lazymatch goal with
  | |- steady _ (mret _) => apply forward_ret
  | |- steady _ (_ ≫= _) => apply forward_bind; [|intros ?]
  | |- steady _ (gets _) => apply forward_gets
  | |- steady _ now => apply forward_now
  | |- steady _ utc_now => apply forward_utc_now
  | |- steady _ new_v4 => apply forward_new_v4
  | |- steady _ (on_router _) => apply forward_router
  | |- steady _ (on_failover _) => apply forward_failover
  | |- steady _ (on_outbound _) => apply forward_outbound
  | |- steady _ (on_cache _) => apply forward_cache
  | |- steady _ (on_billing _) => apply forward_billing
  | |- steady _ (on_learning _) => apply forward_learning
  | |- steady _ (on_ring _ _) => apply forward_ring
  | |- steady _ (spawn _) => apply forward_spawn
  | |- steady _ (localized_error _ _ _ _) => apply forward_localized
  | |- steady _ (match ?x with _ => _ end) => destruct x
  | |- steady gw_pool ?m => first [solve [eauto with steady] | let f := head_of m in unfold f]
  end.
Ltac forward_go := repeat forward_step; try solve [eauto with steady].

Section operations.
Context {C W R : Type} `{Clock} `{WallClock} `{UuidSource} `{UuidText} `{HashOrder} `{CacheTakesTime C}
  `{RingTakesTime R} `{UrlLibrary} `{!RecoveryApi} `{FormUrlencoded} `{HttpClientBuilder} `{SerdeJson}
  `{ZstdDecoder} `{Utf8} `{Rfc2822} `{RegexLibrary} `{ResolveApi W} `{Digests} `{NumberText} `{BillingApi}
  `{BillingDecoders} `{UpstreamApi} `{RouteUpdates}.
Context (rc : RequestContext).
Abbreviation onward m := (steady (gw_pool (C := C) (W := W) (R := R)) m).

Lemma forward_post_recovery endpoint : onward (post_recovery endpoint).
Proof. intros n I HI w [Hn Hw]. split; [|exact Hw]. cbn [post_recovery snd ticks]. lia. Qed.
Lemma forward_recovery account context : onward (apply_recovery_action account context).
Proof. pose proof forward_post_recovery. forward_go. Qed.
Lemma forward_mark account sticky ttl : onward (mark_account_unhealthy_and_clear_sticky account sticky ttl).
Proof. forward_go. Qed.
Lemma forward_failed_report account model status context : onward (spawn_failed_live_report account model status context).
Proof. forward_go. Qed.
Lemma forward_may_retry b : onward (may_retry rc b).
Proof. forward_go. Qed.
Lemma forward_should_fail_over f account retryable : onward (should_fail_over rc f account retryable).
Proof. forward_go. Qed.
Lemma forward_learn source account context : onward (learn rc source account context).
Proof. apply forward_bind; [apply forward_learning|intros []; apply forward_ret]. Qed.
Lemma forward_unavailable account headers body : onward (map_service_unavailable rc account headers body).
Proof. apply forward_bind; [apply forward_utc_now|intros t; apply forward_learn]. Qed.
Lemma forward_buffered account status headers body : onward (buffered_response rc account status headers body).
Proof.
  apply forward_bind; [apply forward_utc_now|intros t]. cbv beta.
  match goal with |- steady _ (match ?x with _ => _ end) => destruct x end; [|apply forward_ret].
  apply forward_bind; [apply forward_learn|intros []; apply forward_ret].
Qed.
Lemma forward_codex_compat account status headers body :
  onward (buffered_codex_compat_response rc account status headers body).
Proof.
  unfold buffered_codex_compat_response. destruct (400 <=? status).
  - apply forward_bind; [apply forward_buffered|intros []; apply forward_ret].
  - destruct (_ ≫= _); [apply forward_ret|]. apply forward_bind; [apply forward_learn|intros []; apply forward_ret].
Qed.
Lemma forward_prelude_failure account retries err : onward (stream_prelude_failure rc account retries err).
Proof.
  apply forward_bind; [apply forward_localized|intros r].
  destruct err; [apply forward_ret..|]. apply forward_bind; [apply forward_learn|intros []; apply forward_ret].
Qed.
Lemma forward_with_models target status headers body response :
  onward (with_models_cache rc target status headers body response).
Proof.
  unfold with_models_cache. destruct (_ && _); [|apply forward_ret].
  apply forward_bind; [|intros cached; forward_go]. apply forward_bind; [apply forward_now|intros t].
  apply forward_bind; [by apply forward_modify|intros _; apply forward_ret].
Qed.
Lemma forward_not_modified cached response : onward (not_modified_if_matched rc cached response).
Proof. forward_go. Qed.
Lemma forward_serve key : onward (serve_models_from_cache rc key).
Proof. forward_go. Qed.
End operations.
#[export] Hint Resolve forward_post_recovery forward_recovery forward_mark forward_failed_report forward_may_retry
  forward_should_fail_over forward_learn forward_unavailable forward_buffered forward_codex_compat
  forward_prelude_failure forward_with_models forward_not_modified forward_serve : steady.

(** ** Turns *)

Lemma wp_any {S A B} (m : ST S A) (k : A → ST S B) (Q : B → S → Prop) s :
  (∀ a s', wp (k a) Q s') → wp (m ≫= k) Q s.
Proof. intros Hk. wp_step. apply wp_intro. intros a s' _. apply Hk. Qed.

Lemma wp_steady {C W R A B} (m : ST (Timed (Gateway C W R)) A) (k : A → ST (Timed (Gateway C W R)) B) n I
    (Q : B → Timed (Gateway C W R) → Prop) w :
  since gw_pool n I w → NoDup I → forward m → (∀ x w', since gw_pool n I w' → wp (k x) Q w') → wp (m ≫= k) Q w.
Proof. intros Hw HI Hm Hk. wp_step. wp_use (Hm n I HI w Hw) as x w' Hw'. by apply Hk. Qed.

Tactic Notation "advance" hyp(Hw) "as" simple_intropattern(r) :=
  let w' := fresh "u" in let Hw' := fresh "Hw" in
  eapply (wp_steady _ _ _ _ _ _ Hw); [assumption|forward_go|intros r w' Hw']; clear Hw; rename Hw' into Hw.

(** The tried accounts and the round are those of the turn's start. *)
Definition same_round (f f' : Failover) : Prop :=
  fo_tried f' = fo_tried f ∧ fo_forced_round f' = fo_forced_round f.

Section turns.
Context {C W R : Type} `{Clock} `{WallClock} `{UuidSource} `{UuidText} `{HashOrder} `{CacheTakesTime C}
  `{RingTakesTime R} `{UrlLibrary} `{!RecoveryApi} `{FormUrlencoded} `{HttpClientBuilder} `{SerdeJson}
  `{ZstdDecoder} `{Utf8} `{Rfc2822} `{RegexLibrary} `{ResolveApi W} `{Digests} `{NumberText} `{BillingApi}
  `{BillingDecoders} `{UpstreamApi} `{RouteUpdates}.
Abbreviation G := (Gateway C W R).
Abbreviation GM := (ST (Timed G)).
Context (rc : RequestContext) (I : list Uuid) (HI : NoDup I).
Implicit Types (f : Failover) (a : Attempt) (w : Timed G).

(** A turn on an account: it goes on, it hands over to the next account, which it
    does only for a request that is not bound to one, or it returns. *)
Definition went (n : nat) (f0 : Failover) (account : Uuid) (r : Attempt + (Failover + Response)) w : Prop :=
  match r with
  | inl a => since gw_pool n I w ∧ same_round f0 (at_failover a)
  | inr (inl f) => since gw_pool n I w ∧ fo_tried f = {[account]} ∪ fo_tried f0
                   ∧ fo_forced_round f = fo_forced_round f0 ∧ cr_forced_account (rc_request rc) = None
  | inr (inr _) => True
  end.

Lemma went_later n m f0 account r w : (n ≤ m)%nat → went m f0 account r w → went n f0 account r w.
Proof. intros Hle. destruct r as [a|[f|]]; unfold went, since; naive_solver lia. Qed.

Lemma went_return n f0 account response w : wp (return_response response : GM _) (went n f0 account) w.
Proof. by apply wp_ret. Qed.

Lemma should_fail_over_none n f account retryable w :
  since gw_pool n I w →
  wp (should_fail_over rc f account retryable) (λ r w',
    since gw_pool n I w' ∧ (r = true → cr_forced_account (rc_request rc) = None)) w.
Proof.
  intros Hw. pose proof (forward_should_fail_over rc f account retryable n I HI w Hw) as Hs. revert Hs.
  unfold should_fail_over. case_bool_decide as Hf; [|by intros _; apply wp_ret].
  intros Hs. wp_use Hs as r w' Hw'. done.
Qed.

Lemma retry_went n f0 account a body w :
  since gw_pool n I w → same_round f0 (at_failover a) → wp (retry a body) (went n f0 account) w.
Proof. intros Hw Hs. unfold retry. advance Hw as []. by apply wp_ret. Qed.

Lemma fail_over_went n f0 f account response status context class w :
  since gw_pool n I w → same_round f0 f → cr_forced_account (rc_request rc) = None →
  wp (f ← fail_over f account response status context class; hand_over f) (went n f0 account) w.
Proof.
  intros Hw [Ht Hr] Hn. unfold fail_over, release_billing_hold_for_cross_account_failover.
  do 2 wp_step. advance Hw as pending. advance Hw as []. wp_step. wp_step.
  eapply wp_mono; [apply (wp_and _ (λ _ w', since gw_pool n I w') (λ r _, r.1 = {[account]} ∪ fo_tried f))|].
  - apply (forward_failover _ (steady_record_cross _ _ _) n I HI). exact Hw.
  - unfold on_failover. wp_step. unfold record_cross_account_failover_attempt. cbn [fo_tried].
    change (fo_tried (f <| fo_pending := pending |> <| fo_session := None |>)) with (fo_tried f).
    case_bool_decide; repeat wp_step; cbn [fst]; [set_solver|done].
  - cbn beta. intros [tried did] w1 [Hw1 Htr]. apply wp_ret. cbn [fst] in Htr. apply wp_ret.
    split_and!; [exact Hw1|change (tried = {[account]} ∪ fo_tried f0); by rewrite Htr, Ht|exact Hr|exact Hn].
Qed.

(** What is left of a failure once it is known that the account is not retried. *)
Lemma cross_went n f0 f account retryable response status context class
    (k : GM (Attempt + (Failover + Response))) w :
  since gw_pool n I w → same_round f0 f → (∀ w', wp k (went n f0 account) w') →
  wp (cross ← should_fail_over rc f account retryable;
      if cross : bool then f ← fail_over f account response status context class; hand_over f else k)
    (went n f0 account) w.
Proof.
  intros Hw Hs Hk. wp_step. wp_use (should_fail_over_none n f account retryable w Hw) as cross w1 [Hw1 Hn].
  destruct cross; [|apply Hk]. by apply fail_over_went; [| |apply Hn].
Qed.

(** Without a route no account is given up. *)
Lemma on_proxy_unavailable_went n m f0 target a w :
  since gw_pool n I w → same_round f0 (at_failover a) →
  wp (on_proxy_unavailable rc target a) (λ r w',
    match r with
    | inl a' => since gw_pool n I w' ∧ same_round f0 (at_failover a')
    | _ => went m f0 (ua_id (tg_account target)) r w'
    end) w.
Proof.
  intros Hw Hs. unfold on_proxy_unavailable. advance Hw as again. destruct again.
  - unfold retry. advance Hw as []. by apply wp_ret.
  - do 3 (apply wp_any; intros ? ?). by apply wp_ret.
Qed.

Lemma on_transport_error_went n f0 target a w :
  since gw_pool n I w → same_round f0 (at_failover a) →
  wp (on_transport_error rc target a) (went n f0 (ua_id (tg_account target))) w.
Proof.
  intros Hw Hs. unfold on_transport_error. advance Hw as again. destruct again; [by apply retry_went|].
  advance Hw as ttl. advance Hw as []. advance Hw as response. apply cross_went; [done|done|].
  intros w'. do 2 (apply wp_any; intros ? ?). apply went_return.
Qed.

Lemma on_failure_went n f0 a account status stream overloaded context response w :
  since gw_pool n I w → same_round f0 (at_failover a) →
  wp (on_failure rc a account status stream overloaded context response) (went n f0 account) w.
Proof.
  intros Hw Hs. unfold on_failure. advance Hw as []. advance Hw as again. destruct again; [by apply retry_went|].
  wp_step. wp_use (should_fail_over_none n _ account _ _ Hw) as cross w1 [Hw1 Hn].
  advance Hw1 as outcome. advance Hw1 as ttl. advance Hw1 as []. advance Hw1 as []. advance Hw1 as [].
  destruct cross; [by apply fail_over_went; [| |apply Hn]|]. do 2 (apply wp_any; intros ? ?). apply went_return.
Qed.

Lemma on_success_went n f0 account id f status stream tier billing stored response w :
  wp (on_success rc f id status stream tier billing stored response) (went n f0 account) w.
Proof. unfold on_success. do 5 (apply wp_any; intros ? ?). apply went_return. Qed.

Lemma on_stream_went n f0 target a indicated reply w :
  since gw_pool n I w → same_round f0 (at_failover a) →
  wp (on_stream rc target a indicated reply) (went n f0 (ua_id (tg_account target))) w.
Proof.
  intros Hw Hs. unfold on_stream. advance Hw as [[]|err].
  { do 4 (apply wp_any; intros ? ?). apply went_return. }
  unfold on_stream_failure. advance Hw as [[[[status response] context] class] should_retry].
  advance Hw as []. advance Hw as again. destruct again; [by apply retry_went|].
  advance Hw as outcome. advance Hw as ttl. advance Hw as []. apply cross_went; [done|done|].
  intros w'. do 2 (apply wp_any; intros ? ?). apply went_return.
Qed.

(** An answer that is not a success is not settled. *)
Lemma settle_response_unsuccessful session status body w :
  is_success status = false →
  wp (settle_response (C := C) (W := W) (R := R) rc session status body) (λ r w', r.1 = session ∧ w' = w) w.
Proof.
  intros Hs. unfold settle_response. wp_step. unfold on_billing. wp_step. unfold settle_billing_if_needed.
  rewrite Hs. destruct session, w as [[] k]; by repeat wp_step.
Qed.

Lemma buffered_went n f0 account f body status (ok ko : Failover → LogBilling → GM (Attempt + (Failover + Response))) w :
  since gw_pool n I w → same_round f0 f →
  (∀ f billing w', wp (ok f billing) (went n f0 account) w') →
  (∀ f billing w', since gw_pool n I w' → same_round f0 f → wp (ko f billing) (went n f0 account) w') →
  wp ('(session, billing) ← settle_response rc (fo_session f) status body;
      if is_success status then ok (f <| fo_session := session |>) billing
      else ko (f <| fo_session := session |>) billing) (went n f0 account) w.
Proof.
  intros Hw Hs Hok Hko. destruct (is_success status) eqn:Hst; [apply wp_any; intros [] w'; apply Hok|].
  wp_step. wp_use (settle_response_unsuccessful (fo_session f) status body w Hst) as [session billing] w1 [_ ->].
  by apply Hko.
Qed.

Lemma on_bridged_went n f0 target a reply w :
  since gw_pool n I w → same_round f0 (at_failover a) →
  wp (on_bridged rc target a reply) (went n f0 (ua_id (tg_account target))) w.
Proof.
  intros Hw Hs. unfold on_bridged. advance Hw as [[response context] body].
  apply (buffered_went n f0 (ua_id (tg_account target)) (at_failover a) body (up_status reply)
    (λ f billing, on_success rc f (ua_id (tg_account target)) (up_status reply) false (effective_service_tier rc body)
       billing (Some body) response)
    (λ f _, on_failure rc (mkAttempt f (at_body a) (at_retries a)) (ua_id (tg_account target)) (up_status reply)
       false ((up_status reply =? 503) && is_overloaded context) context response)); [done|done|..].
  - intros. apply on_success_went.
  - intros f billing w' Hw' Hf. by apply on_failure_went.
Qed.

Lemma on_buffered_went n f0 target a stream reply w :
  since gw_pool n I w → same_round f0 (at_failover a) →
  wp (on_buffered rc target a stream reply) (went n f0 (ua_id (tg_account target))) w.
Proof.
  intros Hw Hs. unfold on_buffered. destruct (up_status reply =? 503).
  { advance Hw as [response context]. by apply on_failure_went. }
  advance Hw as [response context]. advance Hw as [response' cached]. wp_step.
  destruct (is_success (up_status reply)) eqn:Hst.
  { apply wp_intro. intros [session billing] w1 _. apply wp_any. intros r w2. apply on_success_went. }
  wp_use (settle_response_unsuccessful (fo_session (at_failover a)) _ _ _ Hst) as [session billing] w1 [_ ->].
  advance Hw as r. by apply on_failure_went.
Qed.

Lemma on_reply_went n f0 target a reply w :
  since gw_pool n I w → same_round f0 (at_failover a) →
  wp (on_reply rc target a reply) (went n f0 (ua_id (tg_account target))) w.
Proof.
  intros Hw Hs. unfold on_reply. cbv zeta. set (stream := _ || _). set (bridge := from_option _ _ _).
  set (a' := mkAttempt _ _ _). assert (Ha : same_round f0 (at_failover a')) by exact Hs. clearbody a' stream bridge.
  destruct (bridge && _); [by apply on_bridged_went|].
  destruct (stream && _); [by apply on_stream_went|by apply on_buffered_went].
Qed.

Lemma ensure_hold_went n f0 account f w :
  since gw_pool n I w → same_round f0 f →
  wp (ensure_hold rc account f) (λ r w', since gw_pool n I w' ∧ match r with Ok f' => same_round f0 f' | Err _ => True end) w.
Proof.
  intros Hw Hs. unfold ensure_hold. destruct (fo_session f); [by apply wp_ret|].
  destruct (fo_pending f); [|by apply wp_ret]. advance Hw as [session|e]; by apply wp_ret.
Qed.

(** A request was sent before an account is given up: time has passed. *)
Lemma attempt_turn_went n f0 target a w :
  since gw_pool n I w → same_round f0 (at_failover a) →
  wp (attempt_turn rc target a) (λ r w',
    match r with
    | inl a' => since gw_pool n I w' ∧ same_round f0 (at_failover a')
    | _ => went (Datatypes.S n) f0 (ua_id (tg_account target)) r w'
    end) w.
Proof.
  intros Hw Hs. unfold attempt_turn. wp_step.
  wp_use (ensure_hold_went n f0 (ua_id (tg_account target)) (at_failover a) w Hw Hs) as [f|response] w1 [Hw1 Hf];
    [|by apply wp_ret].
  advance Hw1 as [route|e].
  - wp_step. unfold wp at 1, send_upstream. cbn [fst snd].
    set (w2 := mkTimed _ _). assert (Hw2 : since gw_pool (Datatypes.S n) I w2)
      by (destruct Hw1 as [Hn Hi]; split; [unfold w2; cbn [ticks]; lia|exact Hi]). clearbody w2.
    eapply (wp_mono _ (went (Datatypes.S n) f0 (ua_id (tg_account target)))).
    + destruct (upstream_answer _ _ _) as [reply|e]; advance Hw2 as marked;
        [by apply on_reply_went|by apply on_transport_error_went].
    + intros [a'|[f'|response]] w3; [|done|done]. intros [Hn Hr]. split; [|done]. destruct Hn. split; [lia|done].
  - by apply on_proxy_unavailable_went.
Qed.

Lemma attempts_went n f target body fuel w :
  since gw_pool n I w →
  wp (loop fuel (attempt_turn rc target) (mkAttempt f body 0)) (λ r w',
    ∀ f', r = Some (inl f') → went (Datatypes.S n) f (ua_id (tg_account target)) (inr (inl f')) w') w.
Proof.
  intros Hw.
  apply (wp_loop_partial _ (λ a w, since gw_pool n I w ∧ same_round f (at_failover a))); [|done|done].
  intros a w1 [Hw1 Hs]. wp_use (attempt_turn_went n f target a w1 Hw1 Hs) as [a'|[f'|response]] w2 Hr; [done| |done].
  by intros ? [= <-].
Qed.
End turns.

(** ** The outer loop *)

(** What other tasks do to the router meanwhile leaves it with distinct accounts. *)
Class DistinctUpdates `{RouteUpdates} : Prop := {
  route_update_distinct n r : NoDup (ids_of r) → NoDup (ids_of (route_update n r));
}.

Section outer.
Context {C W R : Type} `{Clock} `{WallClock} `{UuidSource} `{UuidText} `{HashOrder} `{CacheTakesTime C}
  `{RingTakesTime R} `{UrlLibrary} `{!RecoveryApi} `{FormUrlencoded} `{HttpClientBuilder} `{SerdeJson}
  `{ZstdDecoder} `{Utf8} `{Rfc2822} `{RegexLibrary} `{ResolveApi W} `{Digests} `{NumberText} `{BillingApi}
  `{BillingDecoders} `{UpstreamApi} `{DistinctUpdates}.
Abbreviation G := (Gateway C W R).
Abbreviation GM := (ST (Timed G)).
Implicit Types (f : Failover) (w : Timed G) (I : list Uuid).

(** *** The account that is picked *)

Definition fresh_account (I : list Uuid) (tried : gset Uuid) (account : UpstreamAccount) : Prop :=
  ua_id account ∈ I ∧ ua_id account ∉ tried.

Lemma on_pick {A} (m : ST (Timed Router.Router) A) n I (P : A → Timed Router.Router → Prop) w :
  steady (λ r, r) m → NoDup I → since gw_pool n I w →
  (∀ r, ids_of (st r) = I → wp m P r) →
  wp (on_router m) (λ a w', since gw_pool n I w' ∧ ∃ r, P a r ∧ ids_of (st r) = I) w.
Proof.
  intros Hm HI Hw HP. unfold on_router. wp_step.
  set (r0 := mkTimed (gw_pool (st w)) (ticks w)).
  wp_use (wp_and _ _ _ r0 (Hm n I HI r0 Hw) (HP r0 (proj2 Hw))) as a r [Hr Ha].
  split; [exact Hr|]. exists r. split; [done|apply Hr].
Qed.

Lemma usable_in I a (r : Timed Router.Router) : ids_of (st r) = I → usable a r → ua_id a ∈ I.
Proof. intros <- [Ha _]. by apply list_elem_of_fmap_2. Qed.

Lemma pick_for_model_fresh n I model key tried prefer w :
  NoDup I → since gw_pool n I w →
  wp (on_router (pick_for_model model key tried prefer)) (λ r w',
    since gw_pool n I w' ∧ ∀ a, r = Some a → fresh_account I tried a) w.
Proof.
  intros HI Hw.
  eapply wp_mono; [eapply (on_pick _ n I (λ a r, ∀ b, a = Some b → usable b r ∧ ua_id b ∉ tried) w
                             (steady_pick_for_model model key tried prefer) HI Hw)|].
  - intros r Hr. wp_use (pick_for_model_selects model key tried prefer r) as a r' [_ Hs]; [by rewrite Hr|].
    intros b Hb. by destruct (Hs b Hb) as [Hu [Hn _]].
  - cbn beta. intros a w' (Hw' & r & Hs & Hr). split; [done|]. intros b Hb.
    destruct (Hs b Hb) as [Hu Hn]. split; [by eapply usable_in|done].
Qed.

Lemma pick_account_fresh n I id w :
  NoDup I → since gw_pool n I w →
  wp (on_router (pick_account id)) (λ r w', since gw_pool n I w' ∧ ∀ a, r = Some a → ua_id a ∈ I ∧ ua_id a = id) w.
Proof.
  intros HI Hw.
  eapply wp_mono; [eapply (on_pick _ n I (λ a r, ∀ b, a = Some b → usable b r ∧ ua_id b = id) w
                             (steady_pick_specific id) HI Hw)|].
  - intros r Hr. wp_use (pick_specific_sound id r) as a r' [_ Hs]. exact Hs.
  - cbn beta. intros a w' (Hw' & r & Hs & Hr). split; [done|]. intros b Hb.
    destruct (Hs b Hb) as [Hu Hid]. split; [by eapply usable_in|done].
Qed.

Lemma steady_matches id model : steady (λ r : Router.Router, r) (account_matches_model_route id model).
Proof. intros n I HI. steady_kept. Qed.

Lemma pick_ids_fresh n I ids tried model w :
  NoDup I → since gw_pool n I w →
  wp (pick_alive_ring_candidate_from_ids ids tried model) (λ r w',
    since gw_pool n I w' ∧ ∀ a, r = Some a → fresh_account I tried a) w.
Proof.
  intros HI. revert w. induction ids as [|id ids IH]; intros w Hw; cbn [pick_alive_ring_candidate_from_ids];
    [by apply wp_ret|].
  case_bool_decide as Hin; [by apply IH|].
  eapply (wp_steady _ _ _ _ _ _ Hw HI); [apply forward_router, steady_matches|intros matches w1 Hw1].
  destruct (negb matches); [by apply IH|]. wp_step.
  wp_use (pick_account_fresh n I id w1 HI Hw1) as [a|] w2 [Hw2 Ha]; [|by apply IH].
  apply wp_ret. split; [done|]. intros b [= <-]. destruct (Ha a eq_refl) as [Hi <-]. done.
Qed.

Lemma pick_ring_fresh n I tried model w :
  NoDup I → since gw_pool n I w →
  wp (pick_account_from_alive_ring tried model) (λ r w',
    since gw_pool n I w' ∧ ∀ a, r = Some a → fresh_account I tried a) w.
Proof.
  intros HI Hw. unfold pick_account_from_alive_ring. advance Hw as [ids|e]; [by apply pick_ids_fresh|by apply wp_ret].
Qed.

(** *** A turn *)

Context (rc : RequestContext) (K : nat) (HK : rc_failover_deadline rc <= clock K).

(** The accounts a round has left to try, after those of the round to come. *)
Definition left_to_try I f : nat :=
  (if fo_forced_round f then 0 else Datatypes.S (length I)) + size (list_to_set I ∖ fo_tried f).

Lemma left_bound I (tried : gset Uuid) : (size (list_to_set I ∖ tried) ≤ length I)%nat.
Proof.
  etrans; [apply subseteq_size, subseteq_difference_l; done|]. induction I as [|x I IH]; cbn; [done|].
  rewrite size_union_alt, size_singleton. apply le_n_S. etrans; [|exact IH]. apply subseteq_size. set_solver.
Qed.

(** What a turn from [f] leaves that goes on with [f']: time has passed, and after
    the deadline the pool is the same and there is less to try. *)
Definition moved n I f f' w : Prop :=
  ∃ I', NoDup I' ∧ since gw_pool (Datatypes.S n) I' w
        ∧ ((K ≤ n)%nat → I' = I ∧ (left_to_try I f' < left_to_try I f)%nat).

Lemma moved_tried n I f f' account w :
  NoDup I → since gw_pool (Datatypes.S n) I w → fresh_account I (fo_tried f) account →
  fo_tried f' = {[ua_id account]} ∪ fo_tried f → fo_forced_round f' = fo_forced_round f →
  moved n I f f' w.
Proof.
  intros HI Hw [Hin Hnot] Ht Hr. exists I. split_and!; [done|done|]. intros _. split; [done|].
  unfold left_to_try. rewrite Ht, Hr. apply Nat.add_lt_mono_l, subset_size.
  split; [set_solver|]. intros Hsub. assert (Hx : ua_id account ∈ (list_to_set I ∖ fo_tried f : gset Uuid)) by set_solver.
  apply Hsub in Hx. set_solver.
Qed.

Lemma wait_moved n I f f' w :
  NoDup I → since gw_pool n I w →
  ((K ≤ n)%nat → (left_to_try I f' < left_to_try I f)%nat) →
  wp (wait_for_route_update_or_deadline rc) (λ _ w', moved n I f f' w') w.
Proof.
  intros HI [Hn Hw] Hlt. unfold wait_for_route_update_or_deadline. do 2 wp_step.
  destruct (_ <=? _) eqn:Hd.
  - apply wp_ret. exists I. split_and!; [done|split; [cbn [ticks]; lia|exact Hw]|]. intros HKn. auto.
  - exists (ids_of (route_update (Datatypes.S (ticks w)) (gw_pool (st w)))).
    split_and!; [apply route_update_distinct; by rewrite Hw|split; [cbn [snd ticks]; lia|done]|].
    intros HKn. apply Z.leb_gt in Hd. pose proof (clock_mono K (ticks w)). lia.
Qed.

Lemma may_retry_early n I b w :
  NoDup I → since gw_pool n I w →
  wp (may_retry rc b) (λ r w',
    since gw_pool n I w' ∧ (r = true → ∃ k, (n ≤ k)%nat ∧ clock k < rc_failover_deadline rc)) w.
Proof.
  intros HI [Hn Hi]. unfold may_retry. do 2 wp_step. destruct (_ && _); [|by apply wp_ret].
  do 3 wp_step. split; [split; [cbn [ticks]; lia|done]|]. intros Hd%Z.ltb_lt. eauto.
Qed.

Lemma no_account_left_moved n I f w :
  NoDup I → since gw_pool n I w →
  wp (no_account_left rc f) (λ r w', match r with Again f' => moved n I f f' w' | Chosen _ => False | Finished _ => True end) w.
Proof.
  intros HI Hw. unfold no_account_left. do 2 wp_step. advance Hw as total.
  destruct (_ && _) eqn:Hround.
  { wp_step. wp_use (wait_moved n I f (f <| fo_forced_round := true |> <| fo_tried := ∅ |>) u HI Hw) as [] w1 Hw1.
    - intros _. unfold left_to_try. cbn. destruct (fo_forced_round f); [by destruct (enable_request_failover _)|].
      pose proof (left_bound I ∅). change (fo_tried (f <| fo_forced_round := true |> <| fo_tried := ∅ |>)) with (∅ : gset Uuid). lia.
    - by apply wp_ret. }
  wp_step. wp_use (may_retry_early n I _ _ HI Hw) as early w1 [Hw1 He]. destruct early.
  - wp_step. wp_use (wait_moved n I f (f <| fo_tried := ∅ |>) w1 HI Hw1) as [] w2 Hw2; [|by apply wp_ret].
    intros HKn. destruct (He eq_refl) as (k & Hk & Hd). pose proof (clock_mono K k). lia.
  - destruct (fo_last_failure f) as [[[response status] account]|]; repeat (apply wp_any; intros ? ?); by apply wp_ret.
Qed.

Lemma select_account_moved n I f w :
  NoDup I → since gw_pool n I w →
  wp (select_account rc f) (λ r w',
    match r with
    | Chosen account => since gw_pool n I w'
                        ∧ (cr_forced_account (rc_request rc) = None → fresh_account I (fo_tried f) account)
    | Again f' => moved n I f f' w'
    | Finished _ => True
    end) w.
Proof.
  intros HI Hw. unfold select_account. destruct (cr_forced_account _) as [forced|].
  { advance Hw as account. destruct account as [account|]; [by apply wp_ret|].
    repeat (apply wp_any; intros ? ?). by apply wp_ret. }
  wp_step. apply (wp_mono _ (λ r w', since gw_pool n I w' ∧ ∀ a, r = Some a → fresh_account I (fo_tried f) a)).
  { destruct (rc_sticky_key rc); [by apply wp_ret|by apply pick_ring_fresh]. }
  intros ring w1 [Hw1 Hring]. wp_step.
  apply (wp_mono _ (λ r w', since gw_pool n I w' ∧ ∀ a, r = Some a → fresh_account I (fo_tried f) a)).
  { destruct ring as [account|]; [by apply wp_ret|]. advance Hw1 as prefer. by apply pick_for_model_fresh. }
  intros [account|] w2 [Hw2 Hp]; [by apply wp_ret; auto|].
  eapply wp_mono; [by apply no_account_left_moved|]. by intros [] w3 Hw3.
Qed.

Lemma mark_moved n I f account ttl w :
  NoDup I → since gw_pool n I w → 0 < ttl → fresh_account I (fo_tried f) account →
  wp (on_router (mark_unhealthy (ua_id account) ttl)) (λ _ w',
    moved n I f (f <| fo_tried ::= λ tried, {[ua_id account]} ∪ tried |>) w') w.
Proof.
  intros HI [Hn Hi] Httl Ha. unfold on_router. wp_step. unfold mark_unhealthy.
  rewrite (proj2 (Z.eqb_neq ttl 0)) by lia. do 3 wp_step.
  apply (moved_tried n I _ _ account); [done|split; [cbn [ticks]; lia|exact Hi]|done|done|done].
Qed.

Lemma failover_turn_moved n I f w :
  NoDup I → since gw_pool n I w →
  wp (failover_turn rc f) (λ r w', match r with inl f' => moved n I f f' w' | inr _ => True end) w.
Proof.
  intros HI Hw. unfold failover_turn. wp_step.
  wp_use (select_account_moved n I f w HI Hw) as [account|f'|response] w1 Hs; [|by apply wp_ret|by apply wp_ret].
  destruct Hs as [Hw1 Hfresh]. advance Hw1 as shared.
  wp_step. apply (wp_mono _ (λ r w', since gw_pool n I w' ∧ (r = true → cr_forced_account (rc_request rc) = None))).
  { case_bool_decide; cbn [andb]; [|by apply wp_ret]. destruct shared; [|by apply wp_ret].
    advance Hw1 as [b|e]; by apply wp_ret. }
  intros sidelined w2 [Hw2 Hn]. destruct sidelined.
  { advance Hw2 as interval. wp_step. wp_use (mark_moved n I f account _ u0 HI Hw2) as [] w3 Hw3; [|auto|by apply wp_ret].
    change (from_millis 1) with 1000000. lia. }
  advance Hw2 as []. destruct (build_upstream_url _ _ _ _ _) as [url|];
    [|repeat (apply wp_any; intros ? ?); by apply wp_ret].
  cbv zeta. advance Hw2 as cached. destruct cached as [response|]; [by apply wp_ret|].
  advance Hw2 as retry_max. wp_step.
  wp_use (attempts_went rc I HI n f _ _ _ _ Hw2) as [[f'|response]|] w3 Hr; apply wp_ret; [|done|done].
  destruct (Hr f' eq_refl) as (Hw3 & Ht & Hro & Hnone). apply (moved_tried n I _ _ account); auto.
Qed.

(** ** The loop ends *)

Definition measure (f : Failover) w : nat * nat :=
  ((K - ticks w)%nat, left_to_try (ids_of (gw_pool (st w))) f).
Definition earlier (p q : Failover * Timed G) : Prop :=
  slexprod _ _ lt lt (measure p.1 p.2) (measure q.1 q.2).

Lemma earlier_wf : well_founded earlier.
Proof. apply (wf_inverse_image _ _ _ (λ p, measure p.1 p.2)), wf_slexprod; apply lt_wf. Qed.

Lemma moved_earlier f f' w w' :
  moved (ticks w) (ids_of (gw_pool (st w))) f f' w' → earlier (f', w') (f, w).
Proof.
  intros (I' & HI' & [Ht Hi] & Hm). unfold earlier, measure. cbn [fst snd].
  destruct (le_lt_dec K (ticks w)) as [Hle|Hgt].
  - destruct (Hm Hle) as [-> Hlt]. rewrite Hi.
    replace (K - ticks w')%nat with (K - ticks w)%nat by lia. by right.
  - left. lia.
Qed.

Lemma failover_ends f w :
  fo_session f = None → NoDup (ids_of (gw_pool (st w))) → owed ∅ (gw_billing (st w)) →
  ∃ fuel response w', loop fuel (failover_turn rc) f w = (Some (Some response), w').
Proof.
  intros Hf HI Ho.
  destruct (loop_ends (failover_turn rc)
    (λ f w, NoDup (ids_of (gw_pool (st w))) ∧ fo_session f = None ∧ holding ∅ (retry_settings (gw_failover (st w))) w)
    earlier (λ r _, is_Some r) f w earlier_wf) as (fuel & r & w' & Hl & [response ->]); [|by split_and!|by eauto].
  intros g w1 (HI1 & Hs & Hh).
  wp_use (wp_and _ _ _ _ (failover_turn_spec rc ∅ _ g w1 Hs Hh)
            (failover_turn_moved (ticks w1) _ g w1 HI1 (conj (le_n _) eq_refl))) as [g'|r] w2 [Hspec Hmoved];
    [|by apply Hspec].
  destruct Hspec as [Hh2 Hs2]. split; [|by apply moved_earlier].
  pose proof Hmoved as (I' & HI' & [_ Hi] & _). split_and!; [by rewrite Hi|done|].
  destruct Hh2 as [Ho2 Hc2]. by split.
Qed.
End outer.
