(* ===== verification/PipelineGrants.v ===== *)
(** * Metered requests need a hold

    The number of holds the control plane granted never falls, and no request of a
    metered client is sent to an upstream before it has risen. *)
From S2P Require Import Prelude RustStr CoreModel Router RoutingCache Auth OutboundProxy Snapshot UpstreamHealth Failover Json Request RequestPolicy ErrorLearning StreamUsage Secrets Billing StreamForward BillingFacts Responses BackgroundResponses Kept Gateway Pipeline PipelineFacts.

#[local] Open Scope string_scope.
#[local] Open Scope list_scope.
#[local] Open Scope Z_scope.

(** ** Granted holds *)

Section granted.
Context `{BillingDecoders}.

Definition is_grant (e : Exchange) : bool :=
  match ex_call e with Authorize _ => authorizes (ex_answer e) | _ => false end.
Definition granted (exchanges : list Exchange) : nat := length (List.filter is_grant exchanges).

Lemma granted_cons e l : (granted l ≤ granted (e :: l))%nat.
Proof. unfold granted. cbn [List.filter]. destruct (is_grant e); cbn [length]; lia. Qed.

Lemma granted_grant e l : is_grant e = true → granted (e :: l) = Datatypes.S (granted l).
Proof. intros He. unfold granted. cbn [List.filter]. by rewrite He. Qed.

(** More than [n] holds were granted. *)
Definition over (n : nat) (b : Timed BillingState) : Prop := (n < granted (billing_exchanges (st b)))%nat.
End granted.

Section billing.
Context `{Clock} `{WallClock} `{UuidSource} `{UuidText} `{HashOrder} `{SerdeJson} `{BillingApi}
  `{BillingDecoders} `{Utf8} `{Rfc2822}.

Lemma over_post n endpoint call : kept (over n) (post_billing endpoint call).
Proof.
  intros b Hb. unfold wp, post_billing, over in *. cbn [snd].
  eapply Nat.lt_le_trans; [exact Hb|]. apply granted_cons.
Qed.
Lemma over_core n : on_core (over n).
Proof.
  intros s s' k k' Hc _ Hs. unfold billing_core in Hc. injection Hc as _ Hx _.
  unfold over in *. cbn [st] in *. by rewrite Hx.
Qed.
Ltac over_kept := match goal with |- kept (over ?n) _ => core_kept (over_core n) end.

Lemma over_release n session context : kept (over n) (release_billing_hold_best_effort session context).
Proof.
  destruct session as [s|]; [|apply kept_ret]. do 2 (apply kept_bind; [by apply kept_modify|intros _]).
  apply kept_bind; [apply kept_post_json; intros endpoint; apply over_post|intros r; apply kept_ret].
Qed.
Lemma over_settle n session usage tier : kept (over n) (settle_authorized_billing session usage tier).
Proof.
  unfold settle_authorized_billing. cbv zeta. apply kept_bind; [by apply kept_modify|intros _].
  apply kept_bind; [apply kept_capture; intros endpoint; apply over_post|intros [r|e]].
  - apply kept_bind; [over_kept|intros _]. apply kept_bind; [by apply kept_modify|intros _].
    apply kept_try_bind; [apply kept_post_json; intros endpoint; apply over_post|intros status]. over_kept.
  - do 3 (apply kept_bind; [by apply kept_modify|intros _]). apply kept_bind; [apply kept_post_json; intros endpoint; apply over_post|intros r; apply kept_ret].
Qed.
Lemma over_settle_if_needed n session status body : kept (over n) (settle_billing_if_needed session status body).
Proof.
  destruct session as [s|]; [|apply kept_ret]. cbn [settle_billing_if_needed].
  destruct (negb _); [apply kept_ret|]. destruct (extract_usage_tokens body).
  - apply kept_try_bind; [apply over_settle|intros r; apply kept_ret].
  - apply kept_bind; [by apply kept_modify|intros _; apply kept_ret].
Qed.
Lemma over_stream_response n status headers stream session log_context :
  kept (over n) (stream_response_with_first_chunk status headers stream session log_context).
Proof.
  apply kept_try_bind; [apply kept_stream_prelude, over_core|intros prelude].
  apply kept_bind; [over_kept|intros latency]. apply kept_bind; [by apply kept_modify|intros _; apply kept_ret].
Qed.

(** An authorisation that succeeds is a grant. *)
Lemma over_post_authorize n p b :
  (n ≤ granted (billing_exchanges (st b)))%nat →
  wp (trigger_internal_billing_authorize p) (λ r b', match r with Ok _ => over n b' | Err _ => True end) b.
Proof.
  intros Hb. unfold trigger_internal_billing_authorize, post_internal_billing_json. do 2 wp_step.
  destruct (control_plane_base_url _) as [base|]; [|by repeat wp_step].
  wp_step. unfold wp at 1, post_billing. cbn [fst snd]. wp_step.
  set (answer := billing_answer _ _ _ _ _). clearbody answer.
  destruct answer as [|status body]; [done|]. destruct (is_success status) eqn:Hs; [|done].
  destruct (decode_authorize body) as [r|] eqn:Hd; [|done].
  change (n < granted (mkExchange (Authorize p) (Answer status body) :: billing_exchanges (st b)))%nat.
  rewrite granted_grant; [lia|]. cbn [is_grant ex_call ex_answer authorizes]. rewrite Hs, Hd.
  by apply bool_decide_eq_true_2.
Qed.
Lemma over_authorize n pending account path method started stream b :
  (n ≤ granted (billing_exchanges (st b)))%nat →
  wp (authorize_billing_session pending account path method started stream) (λ r b',
    match r with Ok _ => over n b' | Err _ => True end) b.
Proof.
  intros Hb. unfold authorize_billing_session. do 3 wp_step.
  wp_use (over_post_authorize n) as [r|e] b' Hb'; [exact Hb| |by repeat wp_step]. repeat wp_step; exact Hb'.
Qed.
Lemma over_authorize_kept n pending account path method started stream :
  kept (over n) (authorize_billing_session pending account path method started stream).
Proof.
  apply kept_bind; [by apply kept_modify|intros _]. apply kept_bind; [apply kept_post_json; intros endpoint; apply over_post|intros [r|e]]; over_kept.
Qed.
Lemma over_build_pending n principal headers context path method :
  kept (over n) (build_pending_billing_session principal headers context path method).
Proof. apply kept_build_pending; [apply over_core|]. intros endpoint p. apply over_post. Qed.
End billing.

(** ** In the pipeline *)

Definition grants {C W R} `{BillingDecoders} (w : Timed (Gateway C W R)) : nat :=
  granted (billing_exchanges (gw_billing (st w))).
Definition paid {C W R} `{BillingDecoders} (n : nat) (w : Timed (Gateway C W R)) : Prop := (n < grants w)%nat.

Section rules.
Context {C W R : Type} `{BillingDecoders}.
Abbreviation GM := (ST (Timed (Gateway C W R))).

Lemma paid_quiet {A} n (m : GM A) : quiet m → kept (paid n) m.
Proof.
  intros Hm w Hw. wp_use (Hm (view (st w)) w eq_refl) as a w' Hv. unfold view in Hv. injection Hv as _ Hx _ _ _ _ _.
  unfold paid, grants in *. by rewrite Hx.
Qed.
Lemma paid_billing {A} n (m : ST (Timed BillingState) A) : kept (over n) m → kept (paid n) (on_billing (m) : GM A).
Proof. intros Hm w Hw. unfold on_billing. wp_step. wp_use (Hm (mkTimed (gw_billing (st w)) (ticks w))) as a b Hb; done. Qed.
End rules.

Create HintDb over.
#[export] Hint Resolve over_release over_authorize_kept over_settle_if_needed over_stream_response : over.

Ltac paid_step :=
  cbv beta zeta;
  lazymatch goal with
  | |- kept _ (mret _) => apply kept_ret
  | |- kept _ (on_billing _) =>
      first [apply paid_billing; solve [eauto with over] | apply paid_quiet; solve [quiet_go]]
  | |- kept _ (_ ≫= _) => apply kept_bind; [|intros ?]
  | |- kept _ (match ?x with _ => _ end) => destruct x
  | |- kept _ ?m => first [apply paid_quiet; solve [quiet_go] | let f := head_of m in unfold f]
  end.
Ltac paid_go := repeat first [assumption | paid_step].

Section pipeline.
Context {C W R : Type} `{Clock} `{WallClock} `{UuidSource} `{UuidText} `{HashOrder} `{RoutingCache C}
  `{RingServer R} `{UrlLibrary} `{!RecoveryApi} `{FormUrlencoded} `{HttpClientBuilder} `{SerdeJson}
  `{ZstdDecoder} `{Utf8} `{Rfc2822} `{RegexLibrary} `{ResolveApi W} `{Digests} `{NumberText} `{BillingApi}
  `{BillingDecoders} `{UpstreamApi} `{RouteUpdates}.
Abbreviation G := (Gateway C W R).
Abbreviation GM := (ST (Timed G)).
Context (rc : RequestContext) (n : nat).
Implicit Types (f : Failover) (a : Attempt) (w : Timed G).
Abbreviation pays m := (kept (paid (C := C) (W := W) (R := R) n) m).

Lemma paid_fail_over f account response status context class :
  pays (f ← fail_over f account response status context class; hand_over f).
Proof.
  apply kept_bind; [|intros g; apply kept_ret]. apply kept_bind; [|intros g; paid_go].
  apply kept_bind; [paid_go|intros pending]. apply kept_bind; [paid_go|intros _; apply kept_ret].
Qed.
Lemma paid_return_failure f reason status code class recovery :
  pays (return_failure f reason status code class recovery).
Proof. paid_go. Qed.
Lemma paid_retry a body : pays (retry a body).
Proof. paid_go. Qed.
Lemma paid_settle session status body : pays (settle_response rc session status body).
Proof. paid_go. Qed.
Lemma paid_unavailable target a : pays (on_proxy_unavailable rc target a).
Proof. paid_go. Qed.
Lemma paid_transport target a : pays (on_transport_error rc target a).
Proof. pose proof paid_fail_over. paid_go. Qed.

Lemma paid_failure a account status stream overloaded context response :
  pays (on_failure rc a account status stream overloaded context response).
Proof.
  unfold on_failure. apply kept_bind; [paid_go|intros _]. apply kept_bind; [paid_go|intros again].
  destruct again; [apply paid_retry|]. do 6 (apply kept_bind; [paid_go|intros ?]).
  match goal with |- kept _ (if ?b then _ else _) => destruct b end; [apply paid_fail_over|].
  apply kept_bind; [paid_go|intros _]. apply kept_bind; [apply paid_return_failure|intros _; apply kept_ret].
Qed.
Lemma paid_success f account status stream tier billing stored response :
  pays (on_success rc f account status stream tier billing stored response).
Proof. apply paid_quiet. unfold on_success. repeat (apply quiet_bind; [quiet_go|intros ?]). apply quiet_ret. Qed.
Lemma paid_stream_failure target a err : pays (on_stream_failure rc target a err).
Proof.
  unfold on_stream_failure. apply kept_bind; [paid_go|intros [[[[status response] context] class] should_retry]].
  apply kept_bind; [paid_go|intros _]. apply kept_bind; [paid_go|intros again]. destruct again; [apply paid_retry|].
  do 4 (apply kept_bind; [paid_go|intros ?]).
  match goal with |- kept _ (if ?b then _ else _) => destruct b end; [apply paid_fail_over|].
  apply kept_bind; [paid_go|intros _]. apply kept_bind; [apply paid_return_failure|intros _; apply kept_ret].
Qed.
Lemma paid_stream target a indicated reply : pays (on_stream rc target a indicated reply).
Proof.
  apply kept_bind; [paid_go|intros [[]|err]]; [|apply paid_stream_failure].
  do 4 (apply kept_bind; [paid_go|intros ?]). apply kept_ret.
Qed.
Lemma paid_bridged target a reply : pays (on_bridged rc target a reply).
Proof.
  apply kept_bind; [paid_go|intros [[response context] body]]. apply kept_bind; [apply paid_settle|intros [session billing]].
  cbv zeta. destruct (is_success _); [apply paid_success|apply paid_failure].
Qed.
Lemma paid_buffered target a stream reply : pays (on_buffered rc target a stream reply).
Proof.
  unfold on_buffered. cbv zeta. destruct (up_status reply =? 503).
  - apply kept_bind; [paid_go|intros [response context]]. apply paid_failure.
  - apply kept_bind; [paid_go|intros [response context]]. apply kept_bind; [paid_go|intros [response' cached]].
    apply kept_bind; [apply paid_settle|intros [session billing]]. apply kept_bind; [paid_go|intros r].
    destruct (is_success _); [apply paid_success|apply paid_failure].
Qed.
Lemma paid_reply target a reply : pays (on_reply rc target a reply).
Proof.
  unfold on_reply. cbv zeta. set (stream := _ || _). set (bridge := from_option _ _ _). clearbody stream bridge.
  destruct (bridge && _); [apply paid_bridged|]. destruct (stream && _); [apply paid_stream|apply paid_buffered].
Qed.

(** What an attempt does once its hold is ensured. *)
Lemma paid_send target client body : pays (send_upstream rc target client body).
Proof. by intros w Hw. Qed.

(** *** The loops *)

Context (sent : list UpstreamExchange).

(** The request was not sent, and no hold is open for it yet. *)
Definition unsent f w : Prop :=
  is_Some (fo_pending f) ∧ fo_session f = None ∧ gw_sent (st w) = sent ∧ (n ≤ grants w)%nat.
Definition settled w : Prop := gw_sent (st w) = sent ∨ paid n w.

Lemma unsent_settled f w : unsent f w → settled w.
Proof. intros (_ & _ & Hs & _). by left. Qed.

Lemma unsent_quiet {A} f (m : GM A) : quiet m → kept (unsent f) m.
Proof.
  intros Hm w (Hp & Hn & Hs & Hg). wp_use (Hm (view (st w)) w eq_refl) as a w' Hv.
  unfold view in Hv. injection Hv as _ Hx _ Hsent _ _ _. unfold unsent, grants in *. by rewrite Hsent, Hx.
Qed.

(** The hold is granted before the request is sent. *)
Lemma ensure_hold_paid account f w :
  unsent f w ∨ paid n w →
  wp (ensure_hold rc account f) (λ r w', match r with Ok _ => paid n w' | Err _ => settled w' end) w.
Proof.
  intros [(Hp & Hn & Hs & Hg)|Hw].
  - unfold ensure_hold. rewrite Hn. destruct Hp as [pending ->]. wp_step. unfold on_billing. wp_step.
    wp_use (over_authorize n) as [s|e] b Hb; [exact Hg| |]; wp_step; [exact Hb|left; exact Hs].
  - assert (Hk : pays (ensure_hold rc account f)) by paid_go.
    wp_use (Hk w Hw) as [s|e] w' Hw'; [done|by right].
Qed.

Lemma attempt_turn_paid target a w :
  unsent (at_failover a) w ∨ paid n w →
  wp (attempt_turn rc target a) (λ r w', match r with inr (inr _) => settled w' | _ => paid n w' end) w.
Proof.
  intros Ha. unfold attempt_turn. wp_step.
  wp_use (ensure_hold_paid (ua_id (tg_account target)) (at_failover a) w Ha) as [f|response] w1 Hw1; [|by apply wp_ret].
  eapply (wp_mono _ (λ _ w', paid n w')); [|intros [a'|[f'|response]] w2 Hw2; by first [done|right]].
  revert w1 Hw1. change (pays (selection ← on_outbound (select_http_client None);
    match selection with
    | Err _ => on_proxy_unavailable rc target (mkAttempt f (at_body a) (at_retries a))
    | Ok route =>
        answer ← send_upstream rc target (client route) (at_body a);
        match answer with
        | Ok reply =>
            _ ← on_outbound (mark_proxy_http_status (proxy_id (selected route)) (up_status reply));
            on_reply rc target (mkAttempt f (at_body a) (at_retries a)) reply
        | Err _ =>
            _ ← on_outbound (mark_proxy_transport_failure (proxy_id (selected route)));
            on_transport_error rc target (mkAttempt f (at_body a) (at_retries a))
        end
    end)).
  apply kept_bind; [paid_go|intros [route|e]]; [|apply paid_unavailable].
  apply kept_bind; [apply paid_send|intros [reply|e]];
    (apply kept_bind; [paid_go|intros _]); [apply paid_reply|apply paid_transport].
Qed.

Lemma attempts_paid target f body fuel w :
  unsent f w ∨ paid n w →
  wp (loop fuel (attempt_turn rc target) (mkAttempt f body 0)) (λ r w',
    match r with Some (inl _) => paid n w' | _ => settled w' end) w.
Proof.
  intros Hw. destruct fuel as [|fuel]; [apply wp_ret; destruct Hw; [by eapply unsent_settled|by right]|].
  cbn [loop]. wp_step. wp_use (attempt_turn_paid target (mkAttempt f body 0) w Hw) as [a|[g|response]] w1 Hw1;
    [|by apply wp_ret|by apply wp_ret].
  revert a w1 Hw1. induction fuel as [|fuel IH]; intros a w1 Hw1; [by apply wp_ret; right|].
  cbn [loop]. wp_step. wp_use (attempt_turn_paid target a w1 (or_intror Hw1)) as [a'|[g|response]] w2 Hw2;
    [by apply IH|by apply wp_ret|by apply wp_ret].
Qed.

(** *** The outer loop *)

Definition pending_or_paid f w : Prop := unsent f w ∨ paid n w.

Lemma pending_quiet {A} f (m : GM A) : quiet m → kept (pending_or_paid f) m.
Proof.
  intros Hm w [Hw|Hw].
  - wp_use (unsent_quiet f m Hm w Hw) as a w' Hw'. by left.
  - wp_use (paid_quiet n m Hm w Hw) as a w' Hw'. by right.
Qed.
Lemma pending_release f context : kept (pending_or_paid f) (on_billing (release_billing_hold_best_effort (fo_session f) context)).
Proof.
  intros w [Hw|Hw].
  - pose proof Hw as (_ & -> & _). wp_use (unsent_quiet f _ (quiet_no_release context) w Hw) as a w' Hw'. by left.
  - wp_use (paid_billing n _ (over_release n (fo_session f) context) w Hw) as a w' Hw'. by right.
Qed.
Lemma pending_settled f w : pending_or_paid f w → settled w.
Proof. intros [Hw|Hw]; [by eapply unsent_settled|by right]. Qed.

Lemma wp_pending {A B} f (m : GM A) (k : A → GM B) (Q : B → Timed G → Prop) w :
  pending_or_paid f w → kept (pending_or_paid f) m → (∀ x w', pending_or_paid f w' → wp (k x) Q w') →
  wp (m ≫= k) Q w.
Proof. intros Hw Hm Hk. wp_step. wp_use (Hm w Hw) as x w' Hw'. by apply Hk. Qed.

Lemma pending_return_failure f reason status code class recovery :
  kept (pending_or_paid f) (return_failure f reason status code class recovery).
Proof.
  apply kept_bind; [apply pending_quiet; quiet_go|intros _]. apply pending_release.
Qed.
End pipeline.

Tactic Notation "pending" hyp(Hw) "as" simple_intropattern(r) :=
  let w' := fresh "u" in let Hw' := fresh "Hw" in
  eapply (wp_pending _ _ _ _ _ _ _ Hw);
  [first [apply pending_quiet; solve [quiet_go] | apply pending_return_failure | apply pending_release]
  |intros r w' Hw']; clear Hw; rename Hw' into Hw.

Section loops.
Context {C W R : Type} `{Clock} `{WallClock} `{UuidSource} `{UuidText} `{HashOrder} `{RoutingCache C}
  `{RingServer R} `{UrlLibrary} `{!RecoveryApi} `{FormUrlencoded} `{HttpClientBuilder} `{SerdeJson}
  `{ZstdDecoder} `{Utf8} `{Rfc2822} `{RegexLibrary} `{ResolveApi W} `{Digests} `{NumberText} `{BillingApi}
  `{BillingDecoders} `{UpstreamApi} `{RouteUpdates}.
Abbreviation G := (Gateway C W R).
Context (rc : RequestContext) (n : nat) (sent : list UpstreamExchange).
Implicit Types (f : Failover) (w : Timed G).
Abbreviation pending_or_paid := (pending_or_paid n sent).
Abbreviation settled := (settled n sent).

Lemma no_account_left_paid f w :
  pending_or_paid f w →
  wp (no_account_left rc f) (λ r w',
    match r with Again f' => pending_or_paid f' w' | Chosen _ => False | Finished _ => settled w' end) w.
Proof.
  intros Hw. unfold no_account_left. pending Hw as enabled. pending Hw as total. destruct (_ && _).
  { pending Hw as []. by apply wp_ret. }
  pending Hw as early. destruct early; [pending Hw as []; by apply wp_ret|].
  destruct (fo_last_failure f) as [[[response status] account]|].
  - pending Hw as []. pending Hw as []. pending Hw as []. apply wp_ret. by eapply pending_settled.
  - pending Hw as []. pending Hw as response. apply wp_ret. by eapply pending_settled.
Qed.

Lemma select_account_paid f w :
  pending_or_paid f w →
  wp (select_account rc f) (λ r w',
    match r with Again f' => pending_or_paid f' w' | Chosen _ => pending_or_paid f w' | Finished _ => settled w' end) w.
Proof.
  intros Hw. unfold select_account. destruct (cr_forced_account _) as [forced|].
  - pending Hw as account. destruct account as [account|]; [by apply wp_ret|].
    pending Hw as []. pending Hw as response. apply wp_ret. by eapply pending_settled.
  - pending Hw as ring. pending Hw as picked. destruct picked as [account|]; [by apply wp_ret|].
    eapply wp_mono; [by apply no_account_left_paid|]. by intros [] w'.
Qed.

Lemma failover_turn_paid f w :
  pending_or_paid f w →
  wp (failover_turn rc f) (λ r w', match r with inl f' => pending_or_paid f' w' | inr _ => settled w' end) w.
Proof.
  intros Hw. unfold failover_turn. wp_step.
  wp_use (select_account_paid f w Hw) as [account|f'|response] w1 Hw1; [|by apply wp_ret|by apply wp_ret].
  pending Hw1 as shared. pending Hw1 as sidelined. destruct sidelined.
  { pending Hw1 as interval. pending Hw1 as []. by apply wp_ret. }
  pending Hw1 as []. destruct (build_upstream_url _ _ _ _ _) as [url|].
  2:{ pending Hw1 as response. pending Hw1 as []. pending Hw1 as []. apply wp_ret. by eapply pending_settled. }
  cbv zeta. pending Hw1 as cached. destruct cached as [response|]; [apply wp_ret; by eapply pending_settled|].
  pending Hw1 as retry_max. wp_step.
  wp_use (attempts_paid rc n sent _ f _ _ _ Hw1) as [[f'|response]|] w2 Hw2; apply wp_ret; [by right|done|done].
Qed.

Lemma run_failover_paid fuel pending w :
  gw_sent (st w) = sent → (n ≤ grants w)%nat →
  wp (run_failover rc fuel (Some pending)) (λ _ w', settled w') w.
Proof.
  intros Hs Hn. set (f := mkFailover (Some pending) None ∅ None false false).
  assert (Hw : pending_or_paid f w) by (left; split_and!; by eauto).
  unfold run_failover. pending Hw as []. wp_step. apply (wp_mono _ (λ _ w', settled w')); [|intros; by apply wp_ret].
  fold f. clearbody f. revert Hw. generalize u. clear. revert f. induction fuel as [|fuel IH]; intros f u Hu; cbn [loop].
  - apply wp_ret. by eapply pending_settled.
  - wp_step. wp_use (failover_turn_paid f u Hu) as [f'|r] w1 Hw1; [by apply IH|by apply wp_ret].
Qed.
End loops.

(** ** The handler *)

(** A request the client has to pay for: a billable path, a key with a balance, and
    streams need a hold too. *)
Definition metered (b : BillingState) (request : ClientRequest) : bool :=
  is_billable_path (cr_path request) (cr_method request) && billing_authorize_required_for_stream b
  && match cr_principal request with
     | Some p => bool_decide (is_Some (balance_microcredits p)) && bool_decide (is_Some (tenant_id p))
                 && bool_decide (is_Some (api_key_id p))
     | None => false
     end.

Section handler.
Context {C W R : Type} `{Clock} `{WallClock} `{UuidSource} `{UuidText} `{HashOrder} `{RoutingCache C}
  `{RingServer R} `{UrlLibrary} `{!RecoveryApi} `{FormUrlencoded} `{HttpClientBuilder} `{SerdeJson}
  `{ZstdDecoder} `{Utf8} `{Rfc2822} `{RegexLibrary} `{ResolveApi W} `{Digests} `{NumberText} `{BillingApi}
  `{BillingDecoders} `{UpstreamApi} `{RouteUpdates}.
Abbreviation G := (Gateway C W R).
Implicit Types (w : Timed G).

Lemma metered_pending b request headers context :
  metered (st b) request = true →
  wp (build_pending_billing_session (cr_principal request) headers context (cr_path request) (cr_method request))
    (λ r _, r ≠ Ok None) b.
Proof.
  unfold metered, build_pending_billing_session. intros [[Hp Hr]%andb_prop Hc]%andb_prop. do 2 wp_step.
  rewrite Hp. cbn [negb]. destruct (cr_principal request) as [p|]; [|done].
  apply andb_prop in Hc as [[Hb Ht]%andb_prop Hk]. apply bool_decide_eq_true_1 in Hb as [x Hb], Ht as [t Ht], Hk as [k Hk].
  rewrite Hb, Ht, Hk, Hr. rewrite bool_decide_eq_false_2 by done. cbn [negb]. rewrite andb_false_r.
  destruct (_ && _); [by apply wp_ret|]. destruct (prpc_model context); [|by apply wp_ret].
  wp_step. apply wp_intro. intros id b1 _. wp_step. apply wp_intro. intros reserved b2 _. by apply wp_ret.
Qed.

(** What the steps before the loops keep. *)
Definition admitted n sent request w : Prop :=
  gw_sent (st w) = sent ∧ (n ≤ grants w)%nat ∧ metered (gw_billing (st w)) request = true.
Lemma admitted_quiet {A} n sent request (m : ST (Timed G) A) : quiet m → kept (admitted n sent request) m.
Proof.
  intros Hm w (Hs & Hn & Hr). wp_use (Hm (view (st w)) w eq_refl) as a w' Hv.
  unfold view in Hv. injection Hv as _ Hx _ Hsent _ _ Hreq. unfold admitted, grants, metered in *.
  by rewrite Hsent, Hx, Hreq.
Qed.

Lemma grants_billing {A} (m : ST (Timed BillingState) A) n w :
  (∀ k, kept (over k) m) → (n ≤ grants w)%nat →
  wp (on_billing m) (λ _ w', gw_sent (st w') = gw_sent (st w) ∧ (n ≤ grants w')%nat) w.
Proof.
  intros Hm Hn. unfold on_billing. wp_step. destruct n as [|n].
  - apply wp_intro. intros a b _. split; [done|apply Nat.le_0_l].
  - wp_use (Hm n (mkTimed (gw_billing (st w)) (ticks w))) as a b Hb; [exact Hn|]. split; [done|exact Hb].
Qed.

Lemma proxy_handler_paid n sent fuel request w :
  admitted n sent request w → wp (proxy_handler fuel request) (λ _ w', settled n sent w') w.
Proof.
  intros Hw. unfold proxy_handler.
  assert (Hdone : ∀ (r : option Response) w', admitted n sent request w' → wp (mret r) (λ _ w', settled n sent w') w').
  { intros r w' (Hs & _). apply wp_ret. by left. }
  wp_step. wp_use (admitted_quiet n sent request _ (quiet_read request) w Hw) as [body|response] w1 Hw1; [|by apply Hdone].
  wp_step. wp_use (admitted_quiet n sent request _ (quiet_prepare request _ body) w1 Hw1)
    as [[context body']|response] w2 Hw2; [|by apply Hdone].
  wp_step. wp_use (admitted_quiet n sent request _ (quiet_admission request context) w2 Hw2) as [response|] w3 Hw3;
    [by apply Hdone|].
  wp_step. wp_use (admitted_quiet n sent request _ (quiet_background request context body') w3 Hw3)
    as [response|] w4 Hw4; [by apply Hdone|].
  destruct Hw4 as (Hs & Hn & Hm). wp_step.
  eapply wp_mono; [apply (wp_and _ (λ _ w', gw_sent (st w') = gw_sent (st w4) ∧ (n ≤ grants w')%nat)
                            (λ r _, r ≠ Ok None))|].
  - apply (grants_billing _ n w4 (λ k, over_build_pending k _ _ _ _ _) Hn).
  - unfold on_billing. wp_step. by apply (metered_pending (mkTimed (gw_billing (st w4)) (ticks w4))).
  - cbn beta. intros [[pending|]|e] w5 [[Hs5 Hn5] Hp]; [|done|apply wp_ret; left; by rewrite Hs5].
    wp_step. wp_step. wp_step. wp_step. wp_step. wp_step.
    apply run_failover_paid; [exact (eq_trans Hs5 Hs)|exact Hn5].
Qed.

(** C3: a request that has to be paid for reaches no upstream unless the control plane
    granted a hold for it: if the handler leaves the holds granted so far as they are,
    it sent nothing, whatever the accounts, the failovers and the retries. *)
Theorem metered_requests_need_a_grant fuel request w :
  metered (gw_billing (st w)) request = true →
  grants (proxy_handler fuel request w).2 = grants w →
  gw_sent (st (proxy_handler fuel request w).2) = gw_sent (st w).
Proof.
  intros Hm Hg.
  pose proof (proxy_handler_paid (grants w) (gw_sent (st w)) fuel request w) as Hh. unfold wp in Hh.
  destruct Hh as [Hs|Hp]; [by split_and!|done|]. unfold paid in Hp. lia.
Qed.
End handler.
