(* ===== verification/PipelineTheorems.v ===== *)
(** * Requests are answered, and holds are settled

    The properties of the request pipeline as a whole, and runs of it in a small
    world. *)
From S2P Require Import Prelude RustStr CoreModel Router RouterFacts RoutingCache Auth OutboundProxy Snapshot UpstreamHealth Failover Json Request RequestPolicy ErrorLearning StreamUsage Secrets Billing StreamForward BillingFacts Responses BackgroundResponses Kept Gateway Pipeline PipelineFacts PipelineEnds PipelineGrants RoutingCacheFacts.

#[local] Open Scope string_scope.
#[local] Open Scope list_scope.
#[local] Open Scope Z_scope.

(** ** Computations that end *)

(** With enough fuel the computation has a result. *)
Definition ends {S A} (m : nat → ST S (option A)) (s : S) : Prop := ∃ fuel a s', m fuel s = (Some a, s').

Lemma ends_ret {S A} (a : A) (s : S) : ends (λ _, mret (Some a)) s.
Proof. by exists 0%nat, a, s. Qed.
Lemma ends_bind {S A B} (m : ST S B) (k : B → nat → ST S (option A)) s :
  wp m (λ b s', ends (k b) s') s → ends (λ fuel, m ≫= λ b, k b fuel) s.
Proof.
  unfold wp, ends. destruct (m s) as [b s'] eqn:E. cbn [fst snd]. intros (fuel & a & s'' & Hk).
  exists fuel, a, s''. unfold mbind, st_bind. by rewrite E.
Qed.

Section answers.
Context {C W R : Type} `{Clock} `{WallClock} `{UuidSource} `{UuidText} `{HashOrder} `{CacheTakesTime C}
  `{RingTakesTime R} `{UrlLibrary} `{!RecoveryApi} `{FormUrlencoded} `{HttpClientBuilder} `{SerdeJson}
  `{ZstdDecoder} `{Utf8} `{Rfc2822} `{RegexLibrary} `{ResolveApi W} `{Digests} `{NumberText} `{BillingApi}
  `{BillingDecoders} `{UpstreamApi} `{DistinctUpdates} `{SelfApi} `{StreamEnds}.
Abbreviation G := (Gateway C W R).
Abbreviation GM := (ST (Timed G)).
Implicit Types (w : Timed G).

(** *** Before the loop *)

Lemma ahead_conversation owner id : ahead (current_conversation_response_id owner id).
Proof. ahead_go. Qed.
Lemma ahead_cursor owner key : ahead (current_continuation_cursor_response_id owner key).
Proof. ahead_go. Qed.
Lemma ahead_queue owner value conversation : ahead (queue_background_response owner value conversation).
Proof. ahead_go. Qed.
Lemma ahead_lookup owner id : ahead (lookup_response owner id).
Proof. ahead_go. Qed.
Lemma ahead_stream owner id : ahead (stream_response owner id).
Proof. ahead_go. Qed.
Lemma forward_responses {A} (m : ST (Timed BackgroundResponsesRuntime) A) :
  ahead m → steady (gw_pool (C := C) (W := W) (R := R)) (on_responses m).
Proof. intros Hm. by apply forward_zoom. Qed.
#[local] Hint Resolve forward_responses ahead_conversation ahead_cursor ahead_queue ahead_lookup ahead_stream : steady.

(** What holds before the failover loop: the accounts are distinct and what is owed
    is owed by tasks. *)
Definition ready w : Prop := NoDup (ids_of (gw_pool (st w))) ∧ owed ∅ (gw_billing (st w)).

Lemma ready_quiet {A} (m : GM A) : quiet m → forward m → kept ready m.
Proof.
  intros Hq Hf w [HI Ho].
  wp_use (wp_and _ _ _ w (holding_quiet _ ∅ (retry_settings (gw_failover (st w))) Hq w (conj Ho eq_refl))
            (Hf 0%nat _ HI w (conj (Nat.le_0_l _) eq_refl))) as a w' [[Ho' _] [_ Hi]].
  split; [by rewrite Hi|done].
Qed.

Lemma forward_read request : steady (gw_pool (C := C) (W := W) (R := R)) (read_request_body request).
Proof. forward_go. Qed.
Lemma forward_prepare request context body :
  steady (gw_pool (C := C) (W := W) (R := R)) (prepare_responses_request request context body).
Proof.
  unfold prepare_responses_request. destruct (negb _); [apply forward_ret|].
  destruct (parse_request_json_body _ _) as [value|]; [|apply forward_ret].
  apply forward_bind; [|intros [[value' context']|message]; forward_go].
  unfold continue_response. apply forward_bind; [destruct (prpc_conversation_id context); forward_go|intros prior].
  apply forward_bind; [|intros value'; apply forward_ret].
  destruct prior; [apply forward_ret|]. destruct (bool_decide _); [apply forward_ret|].
  destruct (stable_continuation_cursor_key context); [|apply forward_ret].
  apply forward_bind; [auto with steady|intros restored; apply forward_ret].
Qed.
Lemma forward_admission request context :
  steady (gw_pool (C := C) (W := W) (R := R)) (check_admission request context).
Proof.
  apply forward_bind; [apply forward_utc_now|intros t]. destruct (enforce_principal_request_policy _ _ _ _); forward_go.
Qed.
Lemma forward_background request context body :
  steady (gw_pool (C := C) (W := W) (R := R)) (maybe_handle_background_response_request request context body).
Proof.
  unfold maybe_handle_background_response_request. destruct (_ || _); [apply forward_ret|].
  destruct (bool_decide _); [apply forward_ret|]. destruct (parse_request_json_body _ _); [|apply forward_ret].
  destruct (negb _); [apply forward_ret|]. destruct (request_explicitly_disables_store _); [forward_go|]. cbv zeta.
  do 2 (apply forward_bind; [auto with steady|intros ?]).
  apply forward_bind; [match goal with |- steady _ (match ?x with _ => _ end) => destruct x end; forward_go|intros response].
  apply forward_bind; [apply forward_spawn|intros _].
  destruct (default false _); [|apply forward_ret]. apply forward_bind; [auto with steady|intros []]; forward_go.
Qed.

(** A step that leaves the gateway ready. *)
Lemma ends_ready {A B} (m : GM B) (k : B → nat → GM (option A)) w :
  ready w → kept ready m → (∀ b w', ready w' → ends (k b) w') → ends (λ fuel, m ≫= λ b, k b fuel) w.
Proof. intros Hw Hm Hk. apply ends_bind. wp_use (Hm w Hw) as b w' Hw'. by apply Hk. Qed.

Lemma run_failover_ends rc pending w :
  (∀ t, ∃ k, t <= clock k) → ready w → ends (λ fuel, run_failover rc fuel pending) w.
Proof.
  intros Hclock Hw. unfold run_failover.
  apply (ends_ready _ (λ _ fuel, loop fuel (failover_turn rc) (mkFailover pending None ∅ None false false)
                                   ≫= λ r, mret (mjoin r)) w Hw); [apply ready_quiet; [quiet_go|forward_go]|].
  intros [] w1 [HI Ho]. destruct (Hclock (rc_failover_deadline rc)) as [K HK].
  destruct (failover_ends rc K HK (mkFailover pending None ∅ None false false) w1) as (fuel & response & w2 & Hl);
    [done|done|done|].
  exists fuel, response, w2. unfold mbind, st_bind. by rewrite Hl.
Qed.

Lemma proxy_handler_ends request w :
  (∀ t, ∃ k, t <= clock k) → ready w → ends (λ fuel, proxy_handler fuel request) w.
Proof.
  intros Hclock Hw. unfold proxy_handler.
  apply (ends_ready _ (λ r fuel, _) w Hw); [apply ready_quiet; [quiet_go|apply forward_read]|].
  intros [body|response] w1 Hw1; [|apply ends_ret].
  apply (ends_ready _ (λ r fuel, _) w1 Hw1); [apply ready_quiet; [quiet_go|apply forward_prepare]|].
  intros [[context body']|response] w2 Hw2; [|apply ends_ret].
  apply (ends_ready _ (λ r fuel, _) w2 Hw2); [apply ready_quiet; [quiet_go|apply forward_admission]|].
  intros [response|] w3 Hw3; [apply ends_ret|].
  apply (ends_ready _ (λ r fuel, _) w3 Hw3); [apply ready_quiet; [quiet_go|apply forward_background]|].
  intros [response|] w4 Hw4; [apply ends_ret|].
  apply (ends_ready _ (λ r fuel, _) w4 Hw4).
  { intros w5 [HI Ho].
    wp_use (wp_and _ _ _ w5 (holding_kept _ ∅ _ (owed_build_pending ∅ _ _ _ _ _) w5 (conj Ho eq_refl))
      (forward_billing _ (ahead_build_pending _ _ _ _ _) 0%nat _ HI w5 (conj (Nat.le_0_l _) eq_refl)))
      as pending w6 [[Ho' _] [_ Hi]]. split; [by rewrite Hi|done]. }
  intros [pending|e] w5 Hw5; [|apply ends_ret].
  apply (ends_ready _ (λ r fuel, _) w5 Hw5); [apply ready_quiet; [quiet_go|forward_go]|intros started w6 Hw6].
  apply (ends_ready _ (λ r fuel, _) w6 Hw6); [apply ready_quiet; [quiet_go|forward_go]|intros wait w7 Hw7].
  apply (ends_ready _ (λ r fuel, _) w7 Hw7); [apply ready_quiet; [quiet_go|forward_go]|intros t w8 Hw8].
  by apply run_failover_ends.
Qed.

(** ** The properties *)

(** A gateway that has not asked for a hold yet. *)
Definition unbilled w : Prop := billing_exchanges (gw_billing (st w)) = [].

Lemma run_owes w0 w : unbilled w0 → rtc gateway_step w0 w → owed ∅ (gw_billing (st w)).
Proof.
  intros Hnone Hrun. cut (holding ∅ (retry_settings (gw_failover (st w0))) w); [by intros [Ho _]|].
  assert (Hstart : holding ∅ (retry_settings (gw_failover (st w0))) w0).
  { split; [split|done]; rewrite Hnone; done. }
  revert Hstart. generalize (retry_settings (gw_failover (st w0))). clear Hnone. intros c Hc.
  induction Hrun as [w|w1 w2 w3 Hs _ IH]; [done|]. apply IH. by eapply step_keeps.
Qed.


(** C1: every request is answered. If time goes on for ever, the pool has distinct
    accounts, as other tasks leave it, and the stores behind the cache and the ring
    take time but do not give it back, the two nested loops of the handler end, with a
    response, for every request, pool, health of the accounts and behaviour of the
    upstreams. *)
Theorem every_request_is_answered w0 w request :
  (∀ t, ∃ k, t <= clock k) →
  unbilled w0 → rtc gateway_step w0 w → NoDup (ids_of (gw_pool (st w))) →
  ∃ fuel response w', proxy_handler fuel request w = (Some response, w').
Proof.
  intros Hclock Hnone Hrun HI. apply proxy_handler_ends; [done|]. split; [done|]. by apply (run_owes w0).
Qed.
End answers.

(** ** Runs of the pipeline in a small world

    Concrete functions for everything the gateway talks to, under which its theorems
    are applied: a clock of one nanosecond per reading, a billing service that grants
    every hold, upstreams that answer as the run says, and a decoder that knows the
    texts of the runs. *)

(** ** The world *)

#[local] Existing Instance unit_clock.
#[local] Existing Instance list_order.
#[local] Existing Instance RoutingCacheFacts.Witness.unary_uuid.
#[local] Instance still_clock : WallClock := {| utc _ := 0 |}.
#[local] Instance counted_ids : UuidSource := {| uuid_v4 n := N.of_nat n |}.
#[local] Instance no_ring : RingServer unit := {| ring_connection := mret (Err "no"); ring_lrange _ _ _ := mret (Err "no") |}.
#[local] Instance no_ring_time : RingTakesTime unit.
Proof. split; intros; intros n w Hw; by apply wp_ret. Qed.
#[local] Instance path_url : UrlLibrary :=
  {| Url := string; url_parse := Some; url_path u := u; url_scheme _ := "https";
     set_path p _ := p; set_query _ u := u; set_scheme _ u := Some u; url_to_string u := u |}.
#[local] Instance no_recovery : RecoveryApi :=
  {| recovery_answer _ _ _ _ := NoAnswer; decode_oauth_refresh _ := None; append_query_pair _ _ u := u |}.
#[local] Instance no_forms : FormUrlencoded := {| form_parse _ := []; form_serialize _ := "" |}.
#[local] Instance any_client : HttpClientBuilder := {| proxy_all_accepts _ := true; build_succeeds _ := true |}.
#[local] Instance no_zstd : ZstdDecoder := {| zstd_reads _ := None |}.
#[local] Instance ascii_text : Utf8 := {| from_utf8_lossy text := text |}.
#[local] Instance no_dates : Rfc2822 := {| parse_from_rfc2822 _ := None |}.
#[local] Instance no_regex : RegexLibrary := {| replace_all _ text _ := text |}.
#[local] Instance no_api : ResolveApi unit := {| post_resolve _ _ _ _ := mret None |}.
#[local] Instance plain_digests : Digests := {| hmac_sha256 k t := k +:+ t; sha256 t := t; hex_encode t := t |}.
#[local] Instance no_numbers : NumberText :=
  {| Percent := unit; parse_percent _ := None; percent_to_string _ := ""; percent_zero := tt;
     from_timestamp _ := None; timestamp t := t |}.
#[local] Instance no_self : SelfApi := {| self_answer _ _ := NoSelfAnswer |}.
#[local] Instance patient_client : StreamEnds := {| send_accepted _ := true; next_times_out _ := false |}.
#[local] Instance no_updates : RouteUpdates := {| route_update _ r := r |}.
#[local] Instance no_updates_distinct : DistinctUpdates.
Proof. by split. Qed.

(** A request for a stream, one for a whole response, and the answers. *)
#[local] Instance known_texts : SerdeJson :=
  {| from_slice text :=
       if String.eqb text "ask" then Some (json_object [("model", VString "gpt"); ("stream", VBool true)])
       else if String.eqb text "ask whole" then Some (json_object [("model", VString "gpt"); ("input", VString "tell me")])
       else if String.eqb text "delta" then
         Some (json_object [("type", VString "response.output_text.delta"); ("delta", VString "hello")])
       else if String.eqb text "ask in conversation" then
         Some (json_object [("model", VString "gpt"); ("conversation", VString "c9")])
       else if String.eqb text "answer" then
         Some (json_object [("id", VString "r1"); ("status", VString "completed")])
       else if String.eqb text "usage" then
         Some (json_object [("type", VString "response.completed");
                 ("response", json_object [("usage", json_object [("input_tokens", VInt 5); ("output_tokens", VInt 7)])])])
       else None;
     to_string value :=
       Some (if bool_decide (get "stream" value ≫= as_bool = Some true) then "ask" else "ask whole") |}.

#[local] Instance generous : BillingApi := {| billing_answer _ _ _ _ _ := Answer 200 "ok" |}.
#[local] Instance yes : BillingDecoders :=
  {| decode_authorize _ := Some (mkAuthorizeResponse 7 "authorized" 10);
     decode_capture _ := Some (mkCaptureResponse "captured" (Some 9));
     decode_release _ := Some "released"; decode_pricing _ := None; decode_billing_error _ := None |}.

Definition account (id : Uuid) : UpstreamAccount :=
  mkUpstreamAccount id "a" OpenAiApiKey "https://up" "secret" None true 1 0.
Definition app : AppState :=
  mkAppState (Router.new [account 1; account 2]) (OutboundProxyRuntime_new None 0)
    (ClaudeCodeRoutingSettings_default 0) AiErrorLearningSettings_default ∅ ∅ 0 0 0 0 0 0.
Definition failover : ProxyState :=
  mkProxyState (Router.new []) false true 1 0 0 0 0 false 0 1 0 ∅ 0.
Definition billing : BillingState :=
  mkBillingState (Some "https://control") "token" true true 10 false 100 (f64_of_Z 1) 1 1000 2 50 3 ∅
    0 0 0 0 0 0 0 0 0 0 0 0 0 0 [] ∅ 0 0 0 0 [] [] [].
Definition gateway : Gateway InMemory.InMemoryRoutingCache unit unit :=
  mkGateway app failover InMemory.new None None tt [] billing
    (mkBackgroundResponsesRuntime ∅ ∅ ∅ 1000 "http://self" 0) 30 20 1 false 1000 ∅ 0 0 0 [] [] [].
Definition start : Timed (Gateway InMemory.InMemoryRoutingCache unit unit) := mkTimed gateway 0.

Definition principal : ApiPrincipal :=
  mkApiPrincipal "key" (Some 3%N) (Some 4%N) None None false true [] [] None None (Some 100).
Definition ask (text : string) : ClientRequest :=
  mkClientRequest (Some principal) None "POST" "/v1/chat/completions" None
    [("content-type", "application/json")] (Some text).

Definition LF2 : string := String LF (String LF "").
(** An upstream that answers with one chunk. *)
Definition answers (content_type chunk : string) : UpstreamApi :=
  {| upstream_answer _ _ _ := Ok (mkUpstreamReply 200 [("content-type", content_type)] [Ok chunk]) |}.

Module Streamed.
#[local] Instance streaming : UpstreamApi := answers "text/event-stream" ("data: delta" +:+ LF2).

(** The stream is handed on with the hold; its forwarding settles it. *)
Definition served : Timed (Gateway InMemory.InMemoryRoutingCache unit unit) := (proxy_handler 5 (ask "ask") start).2.
Definition forwarded : Timed (Gateway InMemory.InMemoryRoutingCache unit unit) := (run_spawned_billing 0 served).2.


Lemma every_request_is_answered_witness :
  ∃ fuel response w', proxy_handler fuel (ask "ask") start = (Some response, w').
Proof.
  apply (every_request_is_answered start start (ask "ask")).
  - intros t. exists (Z.to_nat t). change (t <= Z.of_nat (Z.to_nat t)). lia.
  - done.
  - done.
  - refine (bool_decide_unpack _ _). by vm_compute.
Defined.
End Streamed.

(** ** A client without credits *)

Module Refused.
#[local] Instance streaming : UpstreamApi := answers "text/event-stream" ("data: delta" +:+ LF2).
#[local] Instance no_credits : BillingApi := {| billing_answer _ _ _ _ _ := Answer 402 "no" |}.

Lemma metered_requests_need_a_grant_witness :
  rsp_status <$> (proxy_handler 5 (ask "ask") start).1 = Some 402
  ∧ gw_sent (st (proxy_handler 5 (ask "ask") start).2) = [].
Proof.
  split; [by vm_compute|]. apply (metered_requests_need_a_grant 5 (ask "ask") start); by vm_compute.
Defined.
End Refused.

(** ** A stream without its completion event *)

Module Bridged.
#[local] Instance truncated : UpstreamApi := answers "text/event-stream" ("data: delta" +:+ LF2).

Definition codex (id : Uuid) : UpstreamAccount :=
  mkUpstreamAccount id "a" CodexOauth "https://up/backend-api/codex" "secret" None true 1 0.
Definition start : Timed (Gateway InMemory.InMemoryRoutingCache unit unit) :=
  mkTimed (gateway <| gw_app ::= set_router (Router.new [codex 1; codex 2]) |>) 0.
Definition ask_whole : ClientRequest :=
  mkClientRequest (Some principal) None "POST" "/v1/responses" None [("content-type", "application/json")]
    (Some "ask whole").
Definition served := proxy_handler 5 ask_whole start.

Definition captured (calls : list BillingCall) : bool :=
  existsb (λ call, match call with Capture _ => true | _ => false end) calls.

(** The client is told that the upstream failed, but the request is logged as a
    success, no other account is tried, the account counts as healthy, and the tokens
    of the request are charged. *)
Lemma truncated_stream_counts_as_success :
  rsp_status <$> served.1 = Some 502
  ∧ rle_status_code <$> request_logs (gw_billing (st served.2)) = [200]
  ∧ length (gw_sent (st served.2)) = 1%nat
  ∧ recent_success (router (gw_app (st served.2))) !! 1%N ≠ None
  ∧ captured (ex_call <$> billing_exchanges (gw_billing (st (run_spawned_billing 0 served.2).2))) = true.
Proof. by vm_compute. Qed.
End Bridged.

(** ** A conversation in a session that continues *)

Module Continued.
#[local] Instance whole : UpstreamApi := answers "application/json" "answer".

Definition ask_in_session (text : string) : ClientRequest :=
  mkClientRequest (Some principal) None "POST" "/v1/responses" None
    [("content-type", "application/json"); ("session_id", "s1")] (Some text).
Definition served := proxy_handler 5 (ask_in_session "ask whole") start.

(** A request that starts a conversation is served, but after another request of the
    same session it is refused: the response id the gateway itself restores for the
    session is taken for one the client sent. *)
Lemma conversation_after_session_is_refused :
  rsp_status <$> (proxy_handler 5 (ask_in_session "ask in conversation") start).1 = Some 200
  ∧ rsp_status <$> served.1 = Some 200
  ∧ rsp_status <$> (proxy_handler 5 (ask_in_session "ask in conversation") served.2).1 = Some 400.
Proof. by vm_compute. Qed.
End Continued.

(** ** A client that leaves *)

Module Disconnected.
#[local] Instance gone : StreamEnds := {| send_accepted _ := false; next_times_out _ := false |}.

Definition log_context : StreamRequestLogContext :=
  mkStreamRequestLogContext 1 None None "/v1/responses" "POST" 0 None None None None.
Definition logged (chunks : list string) (rest : list (result string string)) : list (option Z) :=
  rle_output_tokens <$> request_logs (st (run_forward_stream chunks rest None (Some log_context) None
                                            (mkTimed billing 0)).2).
Definition delta : string := "data: delta" +:+ LF2.
Definition usage : string := "data: usage" +:+ LF2.

(** When the client has left, the usage of an event still to be read is counted, that
    of an event held back before the first was sent is not. *)
Lemma held_back_usage_is_lost : logged [delta] [Ok usage] = [Some 7] ∧ logged [delta; usage] [] = [Some 2].
Proof. by vm_compute. Qed.
End Disconnected.
