(* ===== verification/CreditTables.v ===== *)
(** * The tables of credits and prices, and their database

    The rows of [tenants], [api_keys], [tenant_credit_accounts],
    [tenant_credit_ledger], [tenant_credit_authorizations], [tenant_daily_checkins],
    [billing_sessions] and of the tables with prices, as
    [store/postgres/impl_crud/bootstrap_schema.rs] creates them, and the two ways in
    which the methods of [tenant/] reach them: statements on the pool, each on its
    own, and statements of a transaction. The server may fail any statement; it may
    also apply a commit and lose the answer. A transaction is not interleaved with
    another one, except that rows can be locked by others. *)
From S2P Require Import Prelude RustStr CoreModel Json.

#[local] Open Scope string_scope.
#[local] Open Scope list_scope.
#[local] Open Scope Z_scope.

(** ** Rows *)

Record TenantRow := mkTenantRow {
  tn_name : string;
  tn_status : string;
  tn_plan : string;
  tn_expires_at : option DateTime;
  tn_created_at : DateTime;
  tn_updated_at : DateTime;
}.

(** Of an API key, what the statements on credits read. *)
Record ApiKeyRow := mkApiKeyRow {
  ky_tenant_id : Uuid;
  ky_group_id : Uuid;
}.

Record CreditAccountRow := mkCreditAccountRow {
  ca_balance_microcredits : Z;
  ca_updated_at : DateTime;
}.

Record LedgerRow := mkLedgerRow {
  le_id : Uuid;
  le_tenant_id : Uuid;
  le_api_key_id : option Uuid;
  le_request_id : option string;
  le_event_type : string;
  le_delta_microcredits : Z;
  le_balance_after_microcredits : Z;
  le_unit_price_microcredits : option Z;
  le_input_tokens : option Z;
  le_output_tokens : option Z;
  le_model : option string;
  le_meta_json : Value;
  le_created_at : DateTime;
}.

Record AuthorizationRow := mkAuthorizationRow {
  au_id : Uuid;
  au_tenant_id : Uuid;
  au_api_key_id : option Uuid;
  au_request_id : string;
  au_model : option string;
  au_reserved_microcredits : Z;
  au_captured_microcredits : Z;
  au_status : string;
  au_expires_at : DateTime;
  au_meta_json : Value;
  au_created_at : DateTime;
  au_updated_at : DateTime;
}.
#[export] Instance AuthorizationRow_eta : Eta AuthorizationRow := λ r,
  mkAuthorizationRow (au_id r) (au_tenant_id r) (au_api_key_id r) (au_request_id r) (au_model r)
    (au_reserved_microcredits r) (au_captured_microcredits r) (au_status r) (au_expires_at r)
    (au_meta_json r) (au_created_at r) (au_updated_at r).

Record CheckinRow := mkCheckinRow {
  ck_reward_microcredits : Z;
  ck_created_at : DateTime;
}.

Record BillingSessionRow := mkBillingSessionRow {
  bs_model : string;
  bs_pricing_band : string;
  bs_entered_band_at : DateTime;
  bs_last_seen_at : DateTime;
  bs_expires_at : DateTime;
}.

(** A row of [model_pricing_overrides], whose key is the model and the tier. *)
Record PricingOverrideRow := mkPricingOverrideRow {
  po_input_price_microcredits : Z;
  po_cached_input_price_microcredits : Z;
  po_output_price_microcredits : Z;
  po_enabled : bool;
}.

(** The prices of [openai_models_catalog], each of which may be unknown. *)
Record CatalogRow := mkCatalogRow {
  oc_input_price_microcredits : option Z;
  oc_cached_input_price_microcredits : option Z;
  oc_output_price_microcredits : option Z;
}.

Record BillingPricingRuleRecord := mkBillingPricingRuleRecord {
  pr_id : Uuid;
  pr_model_pattern : string;
  pr_request_kind : string;
  pr_scope : string;
  pr_threshold_input_tokens : option Z;
  pr_input_multiplier_ppm : Z;
  pr_cached_input_multiplier_ppm : Z;
  pr_output_multiplier_ppm : Z;
}.

Record PricingRuleRow := mkPricingRuleRow {
  pw_record : BillingPricingRuleRecord;
  pw_priority : Z;
  pw_enabled : bool;
  pw_created_at : DateTime;
}.

Record ApiKeyGroupRecord := mkApiKeyGroupRecord {
  ag_id : Uuid;
  ag_name : string;
  ag_description : option string;
  ag_is_default : bool;
  ag_enabled : bool;
  ag_allow_all_models : bool;
  ag_input_multiplier_ppm : Z;
  ag_cached_input_multiplier_ppm : Z;
  ag_output_multiplier_ppm : Z;
  ag_deleted_at : option DateTime;
  ag_created_at : DateTime;
  ag_updated_at : DateTime;
}.

Record ApiKeyGroupModelPolicyRecord := mkApiKeyGroupModelPolicyRecord {
  gp_id : Uuid;
  gp_group_id : Uuid;
  gp_model_id : string;
  gp_enabled : bool;
  gp_input_multiplier_ppm : Z;
  gp_cached_input_multiplier_ppm : Z;
  gp_output_multiplier_ppm : Z;
  gp_input_price_microcredits : option Z;
  gp_cached_input_price_microcredits : option Z;
  gp_output_price_microcredits : option Z;
  gp_created_at : DateTime;
  gp_updated_at : DateTime;
}.

(** ** Tables

    A table with a primary key that statements look up is a map; the ledger and the
    authorizations, which statements scan and which have two unique indexes each, are
    lists of rows. *)
Record PricingTables := mkPricingTables {
  tb_pricing_overrides : gmap (string * string) PricingOverrideRow;
  tb_catalog : gmap string CatalogRow;
  tb_pricing_rules : list PricingRuleRow;
  tb_groups : gmap Uuid ApiKeyGroupRecord;
  tb_group_policies : gmap (Uuid * string) ApiKeyGroupModelPolicyRecord;
}.

Record CreditTables := mkCreditTables {
  tb_tenants : gmap Uuid TenantRow;
  tb_api_keys : gmap Uuid ApiKeyRow;
  tb_accounts : gmap Uuid CreditAccountRow;
  tb_ledger : list LedgerRow;
  tb_authorizations : list AuthorizationRow;
  tb_checkins : gmap (Uuid * Z) CheckinRow;
  tb_sessions : gmap (Uuid * string) BillingSessionRow;
  tb_pricing : PricingTables;
}.
#[export] Instance CreditTables_eta : Eta CreditTables := λ t,
  mkCreditTables (tb_tenants t) (tb_api_keys t) (tb_accounts t) (tb_ledger t) (tb_authorizations t)
    (tb_checkins t) (tb_sessions t) (tb_pricing t).

(** ** Statements *)

(** What a method returns when it fails: a message of its own, or the error of the
    driver, whose text is not modelled. *)
Inductive BillingError :=
  | Message (text : string)
  | Driver.
#[export] Instance BillingError_eq_dec : EqDecision BillingError.
Proof. solve_decision. Defined.

(** An error of a statement: a code of PostgreSQL, or a failure on the way. *)
Inductive SqlError :=
  | SqlState (code : string)
  | Disconnected.
#[export] Instance SqlError_eq_dec : EqDecision SqlError.
Proof. solve_decision. Defined.

Definition unique_violation : string := "23505".
Definition foreign_key_violation : string := "23503".
Definition in_failed_sql_transaction : string := "25P02".

Inductive CommitOutcome :=
  | CommitDone
  | CommitRefused
  | CommitUnreported.

(** The server, at each tick: whether the statement that is sent fails, what becomes
    of a commit, which rows another transaction has locked, and in which order a
    query without a complete order gives its rows. *)
Class PostgresServer := {
  pg_fails : nat → bool;
  pg_commit : nat → CommitOutcome;
  pg_locked : nat → Uuid → bool;
  pg_order : ∀ A, nat → list A → list A;
  pg_order_perm : ∀ A n (l : list A), pg_order A n l ≡ₚ l;
}.
Arguments pg_order {_ _} _ _.

(** The committed tables, the tables as the open transaction sees them, and whether a
    statement of that transaction has failed. *)
Record Database := mkDatabase {
  db_committed : CreditTables;
  db_working : CreditTables;
  db_aborted : bool;
}.
#[export] Instance Database_eta : Eta Database := λ d,
  mkDatabase (db_committed d) (db_working d) (db_aborted d).

Section statements.
Context `{PostgresServer}.

Abbreviation DB := (ST (Timed Database)).

Definition tick : DB nat := λ w, (ticks w, mkTimed (st w) (S (ticks w))).

(** What a statement does: rows and new tables, or an error code. *)
Definition Statement (A : Type) : Type := CreditTables → result (A * CreditTables) string.
Definition selects {A} (f : CreditTables → A) : Statement A := λ t, Ok (f t, t).
Definition updates (f : CreditTables → CreditTables) : Statement unit := λ t, Ok (tt, f t).

Definition begin : DB (result unit SqlError) :=
  n ← tick;
  if pg_fails n then mret (Err Disconnected)
  else _ ← modify (λ d, mkDatabase (db_committed d) (db_committed d) false); mret (Ok tt).

(** A statement of the open transaction, which the server refuses after one failed. *)
Definition in_tx {A} (q : Statement A) : DB (result A SqlError) :=
  n ← tick;
  aborted ← gets db_aborted;
  if aborted : bool then mret (Err (SqlState in_failed_sql_transaction))
  else if pg_fails n then
    _ ← modify (λ d, d <| db_aborted := true |>); mret (Err Disconnected)
  else
    t ← gets db_working;
    match q t with
    | Ok (a, t') => _ ← modify (λ d, d <| db_working := t' |>); mret (Ok a)
    | Err code => _ ← modify (λ d, d <| db_aborted := true |>); mret (Err (SqlState code))
    end.

(** A transaction with a failed statement is rolled back, which is no error. *)
Definition commit : DB (result unit SqlError) :=
  n ← tick;
  aborted ← gets db_aborted;
  if aborted : bool then mret (Ok tt)
  else match pg_commit n with
       | CommitDone => _ ← modify (λ d, d <| db_committed := db_working d |>); mret (Ok tt)
       | CommitRefused => mret (Err Disconnected)
       | CommitUnreported => _ ← modify (λ d, d <| db_committed := db_working d |>); mret (Err Disconnected)
       end.

(** A statement on the pool, a transaction of its own. *)
Definition on_pool {A} (q : Statement A) : DB (result A SqlError) :=
  n ← tick;
  if pg_fails n then mret (Err Disconnected)
  else
    t ← gets db_committed;
    match q t with
    | Ok (a, t') =>
        match pg_commit n with
        | CommitDone => _ ← modify (λ d, d <| db_committed := t' |>); mret (Ok a)
        | CommitRefused => mret (Err Disconnected)
        | CommitUnreported => _ ← modify (λ d, d <| db_committed := t' |>); mret (Err Disconnected)
        end
    | Err code => mret (Err (SqlState code))
    end.

(** [.context(..)] on a statement. *)
Definition context {A} (text : string) (m : DB (result A SqlError)) : DB (result A BillingError) :=
  with_context (Message text) m.
End statements.

Abbreviation DB := (ST (Timed Database)).

