(* ===== verification/CreditPricing.v ===== *)
(** * What a request costs: [services/control-plane/src/tenant/billing_core.rs]

    Tiers, kinds of requests and pricing bands, the price of a model for a request
    ([resolve_model_pricing_for_request] of [tenant/audit_and_utils.rs]) from
    overrides, the catalog or default prices, the rules for long contexts and the
    group of the API key ([tenant/api_key_groups.rs]), and what is charged. *)
From S2P Require Import Prelude RustStr CoreModel RoutingCache Json StoreDefs Cost CreditTables.
From Stdlib Require Import Ascii.

#[local] Open Scope string_scope.
#[local] Open Scope list_scope.
#[local] Open Scope Z_scope.

Record BillingPricingResolved := mkBillingPricingResolved {
  bp_input_price_microcredits : Z;
  bp_cached_input_price_microcredits : Z;
  bp_output_price_microcredits : Z;
  bp_source : string;
}.

Record ApiKeyGroupResolvedPricing := mkApiKeyGroupResolvedPricing {
  gr_formula : BillingPricingResolved;
  gr_final_pricing : BillingPricingResolved;
  gr_uses_absolute_pricing : bool;
}.

Definition BILLING_MULTIPLIER_PPM_ONE : Z := 1000000.
Definition DEFAULT_BILLING_SESSION_TTL_SEC : Z := 24 * 60 * 60.
Definition DEFAULT_BILLING_AUTHORIZATION_TTL_SEC : Z := 15 * 60.
Definition MIN_BILLING_AUTHORIZATION_TTL_SEC : Z := 30.
Definition MAX_BILLING_AUTHORIZATION_TTL_SEC : Z := 6 * 60 * 60.

Inductive BillingRequestKind := KindAny | KindResponse | KindCompact | KindChat | KindUnknown.
#[export] Instance BillingRequestKind_eq_dec : EqDecision BillingRequestKind.
Proof. solve_decision. Defined.

Definition kind_as_str (k : BillingRequestKind) : string :=
  match k with
  | KindAny => "any" | KindResponse => "response" | KindCompact => "compact"
  | KindChat => "chat" | KindUnknown => "unknown"
  end.

Definition kind_from_optional (raw : option string) : BillingRequestKind :=
  let text := to_ascii_lowercase (trim (default "unknown" raw)) in
  if String.eqb text "any" then KindAny
  else if String.eqb text "response" then KindResponse
  else if String.eqb text "compact" then KindCompact
  else if String.eqb text "chat" then KindChat
  else KindUnknown.

Inductive BillingPricingRuleScope := ScopeRequest | ScopeSession.

Definition scope_from_str (raw : string) : BillingPricingRuleScope :=
  if String.eqb (to_ascii_lowercase (trim raw)) "session" then ScopeSession else ScopeRequest.

Inductive BillingPricingBand := BandBase | BandLongContext.
#[export] Instance BillingPricingBand_eq_dec : EqDecision BillingPricingBand.
Proof. solve_decision. Defined.

Definition band_as_str (b : BillingPricingBand) : string :=
  match b with BandBase => "base" | BandLongContext => "long_context" end.

Definition band_from_optional (raw : option string) : BillingPricingBand :=
  if String.eqb (to_ascii_lowercase (trim (default "base" raw))) "long_context"
  then BandLongContext else BandBase.

Inductive BillingResolutionPhase := PhaseAuthorize | PhaseCapture.

Record BillingPricingRequestContext := mkBillingPricingRequestContext {
  cx_service_tier : option string;
  cx_api_key_id : option Uuid;
  cx_request_kind : BillingRequestKind;
  cx_persisted_band : option BillingPricingBand;
  cx_actual_input_tokens : option Z;
  cx_phase : BillingResolutionPhase;
}.

Record BillingPricingDecision := mkBillingPricingDecision {
  pd_pricing : BillingPricingResolved;
  pd_band : BillingPricingBand;
  pd_matched_rule_id : option Uuid;
}.

(** ** Settings *)

Section settings.
Context `{Environment}.

Definition default_billing_authorization_ttl_sec : Z :=
  default DEFAULT_BILLING_AUTHORIZATION_TTL_SEC
    (env_var "BILLING_AUTHORIZATION_TTL_SEC" ≫= parse_unsigned u64_max).

Definition parse_i64_env (accept : Z → bool) (key : string) : option Z :=
  value ← env_var key ≫= parse_signed i64_min i64_max;
  if accept value then Some value else None.
Definition parse_i64_env_positive : string → option Z := parse_i64_env (λ value, 0 <? value).
Definition parse_i64_env_non_negative : string → option Z := parse_i64_env (λ value, 0 <=? value).
Definition billing_parse_bool_env (key : string) : option bool := env_var key ≫= parse_bool_flag.

Definition billing_pricing_fallback_enabled : bool :=
  default true (billing_parse_bool_env "BILLING_PRICING_FALLBACK_ENABLED").
Definition billing_default_input_price_microcredits : option Z :=
  parse_i64_env_positive "BILLING_DEFAULT_INPUT_PRICE_MICROCREDITS".
Definition billing_default_output_price_microcredits : option Z :=
  parse_i64_env_positive "BILLING_DEFAULT_OUTPUT_PRICE_MICROCREDITS".
Definition billing_default_cached_input_price_microcredits : option Z :=
  parse_i64_env_non_negative "BILLING_DEFAULT_CACHED_INPUT_PRICE_MICROCREDITS".
End settings.

(** ** Prices *)

Definition normalize_cached_input_price_microcredits (input_price cached_input_price : Z) : Z :=
  if cached_input_price <=? 0 then Z.max input_price 0 else cached_input_price.

Definition normalize_billing_service_tier (raw : option string) : string :=
  let tier := to_ascii_lowercase (trim (default "default" raw)) in
  if is_one_of ["priority"; "fast"] tier then "priority"
  else if String.eqb tier "flex" then "flex"
  else "default".

Definition pricing_override_lookup_tiers (service_tier : string) : list string :=
  if String.eqb service_tier "priority" then ["priority"; "default"]
  else if String.eqb service_tier "flex" then ["flex"; "default"]
  else ["default"].

Definition apply_multiplier_ppm (price_microcredits multiplier_ppm : Z) : Z :=
  let numerator :=
    i128_saturating_add (i128_saturating_mul (Z.max price_microcredits 0) (Z.max multiplier_ppm 0))
      (Z.quot BILLING_MULTIPLIER_PPM_ONE 2) in
  clamp 0 i64_max (Z.quot numerator BILLING_MULTIPLIER_PPM_ONE).

(** [str::strip_suffix] with a character. *)
Definition strip_suffix_char (c : ascii) (s : string) : option string :=
  match string_reverse s with
  | String a r => if Ascii.eqb a c then Some (string_reverse r) else None
  | EmptyString => None
  end.

Definition billing_rule_matches_model (model_pattern model : string) : bool :=
  let normalized_pattern := trim model_pattern in
  if is_empty normalized_pattern then false
  else if String.eqb normalized_pattern model then true
  else match strip_suffix_char "*" normalized_pattern with
       | Some prefix => negb (is_empty prefix) && starts_with model prefix
       | None => false
       end.

Definition billing_rule_matches_request_kind (rule_request_kind : string)
    (request_kind : BillingRequestKind) : bool :=
  let rule_kind := kind_from_optional (Some rule_request_kind) in
  bool_decide (rule_kind = KindAny) || bool_decide (rule_kind = request_kind).

Definition rule_matches (model : string) (request_kind : BillingRequestKind)
    (rule : BillingPricingRuleRecord) : bool :=
  billing_rule_matches_model (pr_model_pattern rule) model
  && billing_rule_matches_request_kind (pr_request_kind rule) request_kind.

(** A rule whose threshold the request reaches. *)
Definition rule_reached (actual_input_tokens : option Z) (phase : BillingResolutionPhase)
    (rule : BillingPricingRuleRecord) : bool :=
  let threshold := Z.max (default 0 (pr_threshold_input_tokens rule)) 0 in
  let threshold_reached := threshold <=? default 0 (Z.max 0 <$> actual_input_tokens) in
  match scope_from_str (pr_scope rule) with
  | ScopeSession => match phase with PhaseCapture => threshold_reached | PhaseAuthorize => false end
  | ScopeRequest => threshold_reached
  end.

Section pricing.
Context `{UuidText}.

Definition resolve_effective_pricing_for_band (base : BillingPricingResolved)
    (rules : list BillingPricingRuleRecord) (model : string) (request_kind : BillingRequestKind)
    (persisted_band : option BillingPricingBand) (actual_input_tokens : option Z)
    (phase : BillingResolutionPhase) : BillingPricingDecision :=
  let matching_rules := List.filter (rule_matches model request_kind) rules in
  let band :=
    match persisted_band with
    | Some BandLongContext => BandLongContext
    | _ => match List.find (rule_reached actual_input_tokens phase) matching_rules with
           | Some _ => BandLongContext
           | None => BandBase
           end
    end in
  let matched_rule := if bool_decide (band = BandLongContext) then head matching_rules else None in
  let pricing :=
    match matched_rule with
    | Some rule =>
        mkBillingPricingResolved
          (apply_multiplier_ppm (bp_input_price_microcredits base) (pr_input_multiplier_ppm rule))
          (apply_multiplier_ppm (bp_cached_input_price_microcredits base) (pr_cached_input_multiplier_ppm rule))
          (apply_multiplier_ppm (bp_output_price_microcredits base) (pr_output_multiplier_ppm rule))
          (bp_source base +:+ "+rule:" +:+ uuid_to_string (pr_id rule))
    | None => base
    end in
  mkBillingPricingDecision pricing band (pr_id <$> matched_rule).

Definition policy_has_absolute_pricing (policy : option ApiKeyGroupModelPolicyRecord) : bool :=
  match policy with
  | Some item =>
      bool_decide (is_Some (gp_input_price_microcredits item))
      && bool_decide (is_Some (gp_cached_input_price_microcredits item))
      && bool_decide (is_Some (gp_output_price_microcredits item))
  | None => false
  end.

Definition apply_api_key_group_model_pricing (base : BillingPricingResolved) (group : ApiKeyGroupRecord)
    (policy : option ApiKeyGroupModelPolicyRecord) : ApiKeyGroupResolvedPricing :=
  let item_ppm f := default BILLING_MULTIPLIER_PPM_ONE (f <$> policy) in
  let formula :=
    mkBillingPricingResolved
      (apply_multiplier_ppm
         (apply_multiplier_ppm (bp_input_price_microcredits base) (ag_input_multiplier_ppm group))
         (item_ppm gp_input_multiplier_ppm))
      (apply_multiplier_ppm
         (apply_multiplier_ppm (bp_cached_input_price_microcredits base) (ag_cached_input_multiplier_ppm group))
         (item_ppm gp_cached_input_multiplier_ppm))
      (apply_multiplier_ppm
         (apply_multiplier_ppm (bp_output_price_microcredits base) (ag_output_multiplier_ppm group))
         (item_ppm gp_output_multiplier_ppm))
      (bp_source base +:+ "+group_formula:" +:+ uuid_to_string (ag_id group)) in
  match policy with
  | Some item =>
      if policy_has_absolute_pricing policy then
        mkApiKeyGroupResolvedPricing formula
          (mkBillingPricingResolved
             (default 0 (gp_input_price_microcredits item))
             (default 0 (gp_cached_input_price_microcredits item))
             (default 0 (gp_output_price_microcredits item))
             (bp_source base +:+ "+group_absolute:" +:+ uuid_to_string (gp_id item)))
          true
      else mkApiKeyGroupResolvedPricing formula formula false
  | None => mkApiKeyGroupResolvedPricing formula formula false
  end.
End pricing.

Definition ensure_api_key_group_is_usable (group : ApiKeyGroupRecord) : result unit BillingError :=
  if bool_decide (is_Some (ag_deleted_at group)) || negb (ag_enabled group)
  then Err (Message "api key group is unavailable")
  else Ok tt.

Definition calculate_charged_microcredits (input_tokens cached_input_tokens output_tokens : Z)
    (pricing : BillingPricingResolved) : Z :=
  calculate_estimated_cost_microusd input_tokens cached_input_tokens output_tokens
    (mkTokenPriceMicrousd (bp_input_price_microcredits pricing)
       (bp_cached_input_price_microcredits pricing) (bp_output_price_microcredits pricing)).

(** ** What an authorization remembers *)

Definition authorization_meta_string (meta_json : option Value) (key : string) : option string :=
  match meta_json ≫= get key with
  | Some (VString raw) => let value := trim raw in if is_empty value then None else Some value
  | _ => None
  end.

Definition authorization_pricing_band (meta_json : option Value) : option BillingPricingBand :=
  (λ raw, band_from_optional (Some raw)) <$> authorization_meta_string meta_json "pricing_band".

Definition authorization_request_kind (meta_json : option Value) : option BillingRequestKind :=
  let request_kind := kind_from_optional (authorization_meta_string meta_json "request_kind") in
  if bool_decide (request_kind = KindUnknown) then None else Some request_kind.

Definition authorization_session_key (meta_json : option Value) : option string :=
  authorization_meta_string meta_json "session_key".

Definition authorization_service_tier (meta_json : option Value) : option string :=
  (λ raw, normalize_billing_service_tier (Some raw)) <$> authorization_meta_string meta_json "service_tier".

(** ** Prices from the tables *)

Section lookup.
Context `{PostgresServer, Environment, UuidText}.

(** [row.try_get] of a column that may hold [NULL], as a number. *)
Definition try_get_i64 (column : option Z) : result Z BillingError :=
  match column with Some value => Ok value | None => Err Driver end.

Definition override_pricing (lookup_tier : string) (row : PricingOverrideRow) : BillingPricingResolved :=
  mkBillingPricingResolved (po_input_price_microcredits row)
    (normalize_cached_input_price_microcredits (po_input_price_microcredits row)
       (po_cached_input_price_microcredits row))
    (po_output_price_microcredits row) ("manual_override:" +:+ lookup_tier).

Definition select_override (model lookup_tier : string) : Statement (option PricingOverrideRow) :=
  selects (λ t, row ← tb_pricing_overrides (tb_pricing t) !! (model, lookup_tier);
                if po_enabled row then Some row else None).

(** The loop over the tiers: the first override that is enabled. *)
Fixpoint find_override (model : string) (tiers : list string) :
    DB (result (option BillingPricingResolved) BillingError) :=
  match tiers with
  | [] => mret (Ok None)
  | lookup_tier :: tiers =>
      row ←? context "failed to query exact model pricing override" (on_pool (select_override model lookup_tier));
      match row with
      | Some row => mret (Ok (Some (override_pricing lookup_tier row)))
      | None => find_override model tiers
      end
  end.

Definition default_pricing : result BillingPricingResolved BillingError :=
  let missing := Err (Message "model pricing is not configured") in
  if billing_pricing_fallback_enabled then
    match billing_default_input_price_microcredits, billing_default_output_price_microcredits with
    | Some input, Some output =>
        let cached_input := default (Z.quot input 10) billing_default_cached_input_price_microcredits in
        Ok (mkBillingPricingResolved input (Z.max cached_input 0) output "default_fallback")
    | _, _ => missing
    end
  else missing.

Definition resolve_base_model_pricing (model : string) (service_tier : option string) :
    DB (result BillingPricingResolved BillingError) :=
  if is_empty (trim model) then mret (Err (Message "model must not be empty"))
  else
    let normalized_service_tier := normalize_billing_service_tier service_tier in
    found ←? find_override model (pricing_override_lookup_tiers normalized_service_tier);
    match found with
    | Some pricing => mret (Ok pricing)
    | None =>
        row ←? context "failed to query official model pricing"
          (on_pool (selects (λ t, tb_catalog (tb_pricing t) !! model)));
        match row with
        | Some row =>
            mret match try_get_i64 (oc_input_price_microcredits row),
                       try_get_i64 (oc_cached_input_price_microcredits row),
                       try_get_i64 (oc_output_price_microcredits row) with
                 | Ok input, Ok cached, Ok output =>
                     Ok (mkBillingPricingResolved input cached output "official_sync")
                 | Err e, _, _ | _, Err e, _ | _, _, Err e => Err e
                 end
        | None => mret default_pricing
        end
    end.

(** [ORDER BY priority DESC, threshold_input_tokens DESC NULLS LAST, created_at ASC]. *)
Definition rule_order (a b : PricingRuleRow) : comparison :=
  then_with (Z.compare (pw_priority b) (pw_priority a))
    (then_with (option_compare Z.compare (pr_threshold_input_tokens (pw_record b))
                  (pr_threshold_input_tokens (pw_record a)))
       (Z.compare (pw_created_at a) (pw_created_at b))).

Definition list_matching_billing_pricing_rules (model : string) (request_kind : BillingRequestKind) :
    DB (result (list BillingPricingRuleRecord) BillingError) :=
  n ← tick;
  rows ←? context "failed to query billing pricing rules"
    (on_pool (selects (λ t, sort_by rule_order
       (pg_order n (List.filter pw_enabled (tb_pricing_rules (tb_pricing t)))))));
  mret (Ok (List.filter (rule_matches model request_kind) (pw_record <$> rows))).

Definition fetch_api_key_group_for_api_key (api_key_id : Uuid) : DB (result ApiKeyGroupRecord BillingError) :=
  row ←? context "failed to query api key group for api key"
    (on_pool (selects (λ t, k ← tb_api_keys t !! api_key_id; tb_groups (tb_pricing t) !! ky_group_id k)));
  mret match row with Some group => Ok group | None => Err (Message "api key group not found") end.

Definition fetch_api_key_group_policy_for_model (group_id : Uuid) (model : string) :
    DB (result (option ApiKeyGroupModelPolicyRecord) BillingError) :=
  context "failed to query api key group model policy"
    (on_pool (selects (λ t, tb_group_policies (tb_pricing t) !! (group_id, model)))).

(** The policy that applies in a group, or a refusal of the model. *)
Definition effective_policy (group : ApiKeyGroupRecord) (policy : option ApiKeyGroupModelPolicyRecord) :
    result (option ApiKeyGroupModelPolicyRecord) BillingError :=
  let refused := Err (Message "model is not allowed for api key group") in
  match policy with
  | Some item => if gp_enabled item then Ok (Some item) else refused
  | None => if ag_allow_all_models group then Ok None else refused
  end.

Definition resolve_api_key_group_pricing (api_key_id : Uuid) (model : string) (base : BillingPricingResolved) :
    DB (result ApiKeyGroupResolvedPricing BillingError) :=
  group ←? fetch_api_key_group_for_api_key api_key_id;
  _ ←? mret (ensure_api_key_group_is_usable group);
  policy ←? fetch_api_key_group_policy_for_model (ag_id group) model;
  policy ←? mret (effective_policy group policy);
  mret (Ok (apply_api_key_group_model_pricing base group policy)).

Definition resolve_model_pricing_for_request (model : string) (cx : BillingPricingRequestContext) :
    DB (result BillingPricingDecision BillingError) :=
  base ←? resolve_base_model_pricing model (cx_service_tier cx);
  rules ←? list_matching_billing_pricing_rules model (cx_request_kind cx);
  let resolved :=
    resolve_effective_pricing_for_band base rules model (cx_request_kind cx) (cx_persisted_band cx)
      (cx_actual_input_tokens cx) (cx_phase cx) in
  match cx_api_key_id cx with
  | Some api_key_id =>
      group ←? resolve_api_key_group_pricing api_key_id model (pd_pricing resolved);
      mret (Ok (mkBillingPricingDecision (gr_final_pricing group) (pd_band resolved)
                  (pd_matched_rule_id resolved)))
  | None => mret (Ok resolved)
  end.

(** *** [billing_pricing], the price the data plane reserves with *)
Definition billing_pricing (raw_model : string) (api_key_id : option Uuid) (raw_tier : option string) :
    DB (result (string * BillingPricingResolved) BillingError) :=
  let model := trim raw_model in
  if is_empty model then mret (Err (Message "model must not be empty"))
  else
    let service_tier := normalize_billing_service_tier raw_tier in
    base ←? resolve_base_model_pricing model (Some service_tier);
    resolved ←? match api_key_id with
                | Some api_key_id =>
                    group ←? resolve_api_key_group_pricing api_key_id model base;
                    mret (Ok (gr_final_pricing group))
                | None => mret (Ok base)
                end;
    mret (Ok (model, resolved)).
End lookup.
