(* ===== verification/CreditLedger.v ===== *)
(** * Credits of tenants: [services/control-plane/src/tenant/billing_reconcile.rs]

    A request is paid in steps: [billing_authorize] takes the amount to reserve from
    the balance, [billing_capture] fixes what the request costs, [billing_release]
    gives back what was reserved and not spent; [billing_reconcile_once] does the same
    for authorizations that were left behind. Every change of a balance is a row of
    the ledger ([apply_credit_delta_inner] of [tenant/audit_and_utils.rs]). Credits
    come from [admin_recharge_tenant] ([tenant/admin_ops.rs]) and [daily_checkin]
    ([tenant/api_keys_credits.rs]). *)
From S2P Require Import Prelude RustStr CoreModel RoutingCache Json StoreDefs Secrets Cost CreditTables CreditPricing.

From Stdlib Require Import Ascii.

#[local] Open Scope string_scope.
#[local] Open Scope list_scope.
#[local] Open Scope Z_scope.

(** The text [serde] gives a time, and [%Y-%m-%d] of a date, a number of days. *)
Class DateTimeText := {
  time_to_string : DateTime → string;
  date_to_string : Z → string;
}.

(** ** Requests and responses *)

Record CreditDeltaParams := mkCreditDeltaParams {
  cd_tenant_id : Uuid;
  cd_api_key_id : option Uuid;
  cd_event_type : string;
  cd_delta_microcredits : Z;
  cd_request_id : option string;
  cd_model : option string;
  cd_input_tokens : option Z;
  cd_output_tokens : option Z;
  cd_meta_json : option Value;
  cd_now : DateTime;
}.

Record BillingAuthorizationRecord := mkBillingAuthorizationRecord {
  ba_id : Uuid;
  ba_tenant_id : Uuid;
  ba_request_id : string;
  ba_api_key_id : option Uuid;
  ba_model : option string;
  ba_reserved_microcredits : Z;
  ba_captured_microcredits : Z;
  ba_status : string;
  ba_expires_at : DateTime;
  ba_meta_json : option Value;
}.

Record BillingAuthorizeRequest := mkBillingAuthorizeRequest {
  ra_tenant_id : Uuid;
  ra_api_key_id : option Uuid;
  ra_request_id : string;
  ra_trace_request_id : option string;
  ra_model : string;
  ra_service_tier : option string;
  ra_session_key : option string;
  ra_request_kind : option string;
  ra_reserved_microcredits : Z;
  ra_ttl_sec : option Z;
  ra_is_stream : bool;
}.

Record BillingAuthorizeResponse := mkBillingAuthorizeResponse {
  sa_authorization_id : Uuid;
  sa_tenant_id : Uuid;
  sa_request_id : string;
  sa_status : string;
  sa_reserved_microcredits : Z;
  sa_captured_microcredits : Z;
  sa_balance_microcredits : Z;
  sa_expires_at : DateTime;
}.

Record BillingCaptureRequest := mkBillingCaptureRequest {
  rc_tenant_id : Uuid;
  rc_api_key_id : option Uuid;
  rc_request_id : string;
  rc_model : string;
  rc_service_tier : option string;
  rc_session_key : option string;
  rc_request_kind : option string;
  rc_input_tokens : Z;
  rc_cached_input_tokens : Z;
  rc_output_tokens : Z;
  rc_reasoning_tokens : Z;
  rc_is_stream : bool;
}.

Record BillingCaptureResponse := mkBillingCaptureResponse {
  sc_authorization_id : Uuid;
  sc_tenant_id : Uuid;
  sc_request_id : string;
  sc_status : string;
  sc_reserved_microcredits : Z;
  sc_captured_microcredits : Z;
  sc_charged_microcredits : Z;
  sc_balance_microcredits : Z;
}.

Record BillingReleaseRequest := mkBillingReleaseRequest {
  rr_tenant_id : Uuid;
  rr_request_id : string;
  rr_is_stream : bool;
  rr_release_reason : option string;
  rr_upstream_status_code : option Z;
  rr_upstream_error_code : option string;
  rr_failover_action : option string;
  rr_failover_reason_class : option string;
  rr_recovery_action : option string;
  rr_recovery_outcome : option string;
  rr_cross_account_failover_attempted : option bool;
}.

Record BillingReleaseResponse := mkBillingReleaseResponse {
  sr_authorization_id : Uuid;
  sr_tenant_id : Uuid;
  sr_request_id : string;
  sr_status : string;
  sr_reserved_microcredits : Z;
  sr_captured_microcredits : Z;
  sr_released_microcredits : Z;
  sr_balance_microcredits : Z;
}.

Record BillingReconcileRequest := mkBillingReconcileRequest {
  ro_stale_sec : Z;
  ro_batch_size : Z;
}.

Record BillingReconcileStats := mkBillingReconcileStats {
  rs_scanned : Z;
  rs_adjusted : Z;
  rs_released_authorizations : Z;
  rs_adjusted_microcredits_total : Z;
}.
#[export] Instance BillingReconcileStats_eta : Eta BillingReconcileStats := λ s,
  mkBillingReconcileStats (rs_scanned s) (rs_adjusted s) (rs_released_authorizations s)
    (rs_adjusted_microcredits_total s).
Definition stats_default : BillingReconcileStats := mkBillingReconcileStats 0 0 0 0.

Record BillingReconcileFactRequest := mkBillingReconcileFactRequest {
  rf_tenant_id : Uuid;
  rf_api_key_id : option Uuid;
  rf_request_id : string;
  rf_model : option string;
  rf_service_tier : option string;
  rf_input_tokens : option Z;
  rf_cached_input_tokens : option Z;
  rf_output_tokens : option Z;
  rf_reasoning_tokens : option Z;
}.

Record BillingPrecheckResponse := mkBillingPrecheckResponse {
  sp_tenant_id : Uuid;
  sp_tenant_status : string;
  sp_balance_microcredits : Z;
  sp_ok : bool;
}.

(** ** JSON *)

Definition json_opt {A} (f : A → Value) (o : option A) : Value := from_option f VNull o.
Definition json_uuid `{UuidText} (u : Uuid) : Value := VString (uuid_to_string u).

(** [COALESCE(meta_json, '{}') || $n::jsonb] on objects. *)
Definition jsonb_concat (a b : Value) : Value :=
  match a, b with
  | VObject m, VObject n => VObject (fold_left (λ m kv, map_insert kv.1 kv.2 m) n m)
  | _, _ => b
  end.

(** [Some("")] counts as nothing: [map(str::trim).filter(|value| !value.is_empty())]. *)
Definition non_empty (raw : option string) : option string :=
  match raw with
  | Some raw => let value := trim raw in if is_empty value then None else Some value
  | None => None
  end.

(** ** Statements on the tables *)

Definition tenant_exists (t : CreditTables) (tenant_id : Uuid) : bool :=
  bool_decide (is_Some (tb_tenants t !! tenant_id)).
Definition api_key_exists (t : CreditTables) (api_key_id : option Uuid) : bool :=
  match api_key_id with
  | Some api_key_id => bool_decide (is_Some (tb_api_keys t !! api_key_id))
  | None => true
  end.

(** [INSERT INTO tenant_credit_accounts .. ON CONFLICT DO UPDATE]. *)
Definition upsert_credit_account (tenant_id : Uuid) (balance : Z) (now : DateTime) : Statement unit :=
  λ t,
    if bool_decide (is_Some (tb_accounts t !! tenant_id)) || tenant_exists t tenant_id
    then Ok (tt, t <| tb_accounts ::= insert tenant_id (mkCreditAccountRow balance now) |>)
    else Err foreign_key_violation.

(** [INSERT INTO tenant_credit_accounts .. ON CONFLICT DO NOTHING]. *)
Definition init_credit_account (tenant_id : Uuid) (now : DateTime) : Statement unit :=
  λ t,
    if bool_decide (is_Some (tb_accounts t !! tenant_id)) then Ok (tt, t)
    else if tenant_exists t tenant_id
    then Ok (tt, t <| tb_accounts ::= insert tenant_id (mkCreditAccountRow 0 now) |>)
    else Err foreign_key_violation.

(** The primary key and the unique index on [(tenant_id, request_id)]. *)
Definition ledger_conflict (row other : LedgerRow) : bool :=
  bool_decide (le_id row = le_id other)
  || (bool_decide (is_Some (le_request_id row))
      && bool_decide (le_tenant_id row = le_tenant_id other)
      && bool_decide (le_request_id row = le_request_id other)).

Definition insert_ledger (row : LedgerRow) : Statement unit :=
  λ t,
    if existsb (ledger_conflict row) (tb_ledger t) then Err unique_violation
    else if tenant_exists t (le_tenant_id row) && api_key_exists t (le_api_key_id row)
    then Ok (tt, t <| tb_ledger ::= λ l, l ++ [row] |>)
    else Err foreign_key_violation.

Definition authorization_conflict (row other : AuthorizationRow) : bool :=
  bool_decide (au_id row = au_id other)
  || (bool_decide (au_tenant_id row = au_tenant_id other)
      && bool_decide (au_request_id row = au_request_id other)).

Definition insert_authorization (row : AuthorizationRow) : Statement unit :=
  λ t,
    if existsb (authorization_conflict row) (tb_authorizations t) then Err unique_violation
    else if tenant_exists t (au_tenant_id row) && api_key_exists t (au_api_key_id row)
    then Ok (tt, t <| tb_authorizations ::= λ l, l ++ [row] |>)
    else Err foreign_key_violation.

(** [UPDATE tenant_credit_authorizations SET .. WHERE id = $1]. *)
Definition update_authorization (id : Uuid) (f : AuthorizationRow → AuthorizationRow) : Statement unit :=
  updates (λ t, t <| tb_authorizations ::= map (λ row, if bool_decide (au_id row = id) then f row else row) |>).

Definition of_request (tenant_id : Uuid) (request_id : string) (row : AuthorizationRow) : bool :=
  bool_decide (au_tenant_id row = tenant_id) && bool_decide (au_request_id row = request_id).

Definition select_authorization (tenant_id : Uuid) (request_id : string) : Statement (option AuthorizationRow) :=
  selects (λ t, List.find (of_request tenant_id request_id) (tb_authorizations t)).

(** The columns that are read from a row of [tenant_credit_authorizations]; reading
    one that the query did not select is an error of the driver. *)
Definition record_columns : list string :=
  ["id"; "tenant_id"; "request_id"; "api_key_id"; "model"; "reserved_microcredits";
   "captured_microcredits"; "status"; "expires_at"; "meta_json"].

Definition read_authorization (selected : list string) (row : AuthorizationRow) :
    result BillingAuthorizationRecord BillingError :=
  if forallb (λ column, bool_decide (column ∈ selected)) record_columns then
    Ok (mkBillingAuthorizationRecord (au_id row) (au_tenant_id row) (au_request_id row) (au_api_key_id row)
          (au_model row) (au_reserved_microcredits row) (au_captured_microcredits row) (au_status row)
          (au_expires_at row) (Some (au_meta_json row)))
  else Err Driver.

Definition read_optional (selected : list string) (row : option AuthorizationRow) :
    result (option BillingAuthorizationRecord) BillingError :=
  match row with
  | None => Ok None
  | Some row => match read_authorization selected row with Ok a => Ok (Some a) | Err e => Err e end
  end.

Definition upsert_session (tenant_id : Uuid) (session_key model : string) (band : BillingPricingBand)
    (now expires_at : DateTime) : Statement unit :=
  λ t,
    if tenant_exists t tenant_id then
      let entered :=
        match tb_sessions t !! (tenant_id, session_key) with
        | Some row => if String.eqb (bs_pricing_band row) (band_as_str band) then bs_entered_band_at row else now
        | None => now
        end in
      Ok (tt, t <| tb_sessions ::= insert (tenant_id, session_key)
                    (mkBillingSessionRow model (band_as_str band) entered now expires_at) |>)
    else Err foreign_key_violation.

Section ledger.
Context `{PostgresServer, Environment, UuidText, WallClock, UuidSource, DateTimeText, Digests}.

(** ** Helpers of the methods ([tenant/audit_and_utils.rs]) *)

Definition fetch_authorization_for_update (tenant_id : Uuid) (request_id : string) :
    DB (result (option BillingAuthorizationRecord) BillingError) :=
  row ←? context "failed to query billing authorization" (in_tx (select_authorization tenant_id request_id));
  mret (read_optional
          ["id"; "tenant_id"; "api_key_id"; "request_id"; "model"; "reserved_microcredits";
           "captured_microcredits"; "status"; "expires_at"; "meta_json"] row).

Definition fetch_authorization (tenant_id : Uuid) (request_id : string) :
    DB (result (option BillingAuthorizationRecord) BillingError) :=
  row ←? context "failed to query billing authorization" (on_pool (select_authorization tenant_id request_id));
  mret (read_optional
          ["id"; "tenant_id"; "api_key_id"; "request_id"; "model"; "reserved_microcredits";
           "captured_microcredits"; "status"; "expires_at"] row).

Definition current_credit_balance_for_update (tenant_id : Uuid) : DB (result Z BillingError) :=
  row ←? context "failed to lock tenant credit account for billing balance lookup"
    (in_tx (selects (λ t, tb_accounts t !! tenant_id)));
  mret (Ok (from_option ca_balance_microcredits 0 row)).

Definition fetch_billing_session_for_update (tenant_id : Uuid) (session_key : string) :
    DB (result (option string) BillingError) :=
  let normalized_session_key := trim session_key in
  if is_empty normalized_session_key then mret (Ok None)
  else
    now ← utc_now;
    context "failed to query billing session"
      (in_tx (selects (λ t,
         row ← tb_sessions t !! (tenant_id, normalized_session_key);
         if now <? bs_expires_at row then Some (bs_pricing_band row) else None))).

Definition upsert_billing_session (tenant_id : Uuid) (session_key model : string)
    (band : BillingPricingBand) (now : DateTime) : DB (result unit BillingError) :=
  let normalized_session_key := trim session_key in
  if is_empty normalized_session_key then mret (Ok tt)
  else
    let expires_at := now + from_secs DEFAULT_BILLING_SESSION_TTL_SEC in
    context "failed to upsert billing session"
      (in_tx (upsert_session tenant_id normalized_session_key model band now expires_at)).

Definition apply_credit_delta_inner (params : CreditDeltaParams) : DB (result Z BillingError) :=
  row ←? context "failed to lock tenant credit account for delta apply"
    (in_tx (selects (λ t, tb_accounts t !! cd_tenant_id params)));
  let existing_balance := from_option ca_balance_microcredits 0 row in
  let next_balance := i64_saturating_add existing_balance (cd_delta_microcredits params) in
  if next_balance <? 0 then mret (Err (Message "insufficient credits"))
  else
    _ ←? context "failed to upsert tenant credit account"
      (in_tx (upsert_credit_account (cd_tenant_id params) next_balance (cd_now params)));
    id ← new_v4;
    inserted ← in_tx (insert_ledger
      (mkLedgerRow id (cd_tenant_id params) (cd_api_key_id params) (cd_request_id params)
         (cd_event_type params) (cd_delta_microcredits params) next_balance None
         (cd_input_tokens params) (cd_output_tokens params) (cd_model params)
         (default (VObject []) (cd_meta_json params)) (cd_now params)));
    match inserted with
    | Ok _ => mret (Ok next_balance)
    | Err (SqlState code) =>
        if String.eqb code unique_violation then mret (Ok existing_balance)
        else mret (Err (Message "failed to insert tenant credit ledger"))
    | Err Disconnected => mret (Err (Message "failed to insert tenant credit ledger"))
    end.

(** The session of a request, when it has a key. *)
Definition session_of (tenant_id : Uuid) (session_key : option string) : DB (result (option string) BillingError) :=
  match session_key with
  | Some value => fetch_billing_session_for_update tenant_id value
  | None => mret (Ok None)
  end.
Definition keep_session (tenant_id : Uuid) (session_key : option string) (model : string)
    (band : BillingPricingBand) (now : DateTime) : DB (result unit BillingError) :=
  match session_key with
  | Some value => upsert_billing_session tenant_id value model band now
  | None => mret (Ok tt)
  end.
Definition session_band (session : option string) : option BillingPricingBand :=
  (λ pricing_band, band_from_optional (Some pricing_band)) <$> session.

(** ** [billing_precheck] *)
Definition billing_precheck (tenant_id : Uuid) : DB (result BillingPrecheckResponse BillingError) :=
  row ←? context "failed to query tenant for billing precheck"
    (on_pool (selects (λ t, tenant ← tb_tenants t !! tenant_id;
       Some (tn_status tenant, from_option ca_balance_microcredits 0 (tb_accounts t !! tenant_id)))));
  match row with
  | None => mret (Err (Message "tenant not found"))
  | Some (tenant_status, balance_microcredits) =>
      mret (Ok (mkBillingPrecheckResponse tenant_id tenant_status balance_microcredits
                  (String.eqb tenant_status "active" && (0 <? balance_microcredits))))
  end.

(** ** [billing_authorize] *)

Definition authorization_reusable_for_authorize (status : string) : bool := String.eqb status "authorized".

(** An authorization the request has already. *)
Definition reuse_authorization (req : BillingAuthorizeRequest) (existing : BillingAuthorizationRecord) :
    DB (result BillingAuthorizeResponse BillingError) :=
  if negb (authorization_reusable_for_authorize (ba_status existing)) then
    mret (Err (Message ("billing authorization is in invalid status for authorize reuse: " +:+ ba_status existing)))
  else
    balance_microcredits ←? current_credit_balance_for_update (ra_tenant_id req);
    _ ←? context "failed to commit billing authorize transaction" commit;
    mret (Ok (mkBillingAuthorizeResponse (ba_id existing) (ba_tenant_id existing) (ba_request_id existing)
                (ba_status existing) (ba_reserved_microcredits existing) (ba_captured_microcredits existing)
                balance_microcredits (ba_expires_at existing))).

(** What both the ledger and the authorization note of the request. *)
Definition authorize_meta (session_key : option string) (request_kind : BillingRequestKind)
    (service_tier : string) (decision : BillingPricingDecision) (is_stream : bool) : Map :=
  [("session_key", json_opt VString session_key); ("request_kind", VString (kind_as_str request_kind));
   ("service_tier", VString service_tier); ("pricing_band", VString (band_as_str (pd_band decision)));
   ("pricing_rule_id", json_opt json_uuid (pd_matched_rule_id decision)); ("is_stream", VBool is_stream)].

Definition new_authorization (req : BillingAuthorizeRequest) (request_id model : string) (now : DateTime)
    (expires_at : DateTime) (request_kind : BillingRequestKind) (service_tier : string)
    (session_key : option string) : DB (result BillingAuthorizeResponse BillingError) :=
  existing_session ←? session_of (ra_tenant_id req) session_key;
  pricing_decision ←? resolve_model_pricing_for_request model
    (mkBillingPricingRequestContext (Some service_tier) (ra_api_key_id req) request_kind
       (session_band existing_session) None PhaseAuthorize);
  authorization_id ← new_v4;
  let meta := authorize_meta session_key request_kind service_tier pricing_decision (ra_is_stream req) in
  balance_microcredits ←? apply_credit_delta_inner
    (mkCreditDeltaParams (ra_tenant_id req) (ra_api_key_id req) "authorize_hold"
       (- ra_reserved_microcredits req) None (Some model) None None
       (Some (json_object ([("phase", VString "authorize"); ("authorization_id", json_uuid authorization_id);
                            ("request_id", VString request_id);
                            ("trace_request_id", json_opt VString (ra_trace_request_id req))] ++ meta)))
       now);
  _ ←? context "failed to insert billing authorization"
    (in_tx (insert_authorization
      (mkAuthorizationRow authorization_id (ra_tenant_id req) (ra_api_key_id req) request_id (Some model)
         (ra_reserved_microcredits req) 0 "authorized" expires_at
         (json_object ([("phase", VString "authorize"); ("source", VString "data_plane")] ++ meta)) now now)));
  _ ←? keep_session (ra_tenant_id req) session_key model (pd_band pricing_decision) now;
  _ ←? context "failed to commit billing authorize transaction" commit;
  mret (Ok (mkBillingAuthorizeResponse authorization_id (ra_tenant_id req) request_id "authorized"
              (ra_reserved_microcredits req) 0 balance_microcredits expires_at)).

Definition billing_authorize (req : BillingAuthorizeRequest) : DB (result BillingAuthorizeResponse BillingError) :=
  let request_id := trim (ra_request_id req) in
  let model := trim (ra_model req) in
  if is_empty request_id then mret (Err (Message "request_id must not be empty"))
  else if is_empty model then mret (Err (Message "model must not be empty"))
  else if ra_reserved_microcredits req <=? 0 then
    mret (Err (Message "reserved_microcredits must be positive"))
  else
    let ttl_sec := clamp MIN_BILLING_AUTHORIZATION_TTL_SEC MAX_BILLING_AUTHORIZATION_TTL_SEC
                     (default default_billing_authorization_ttl_sec (ra_ttl_sec req)) in
    now ← utc_now;
    let expires_at := now + from_secs ttl_sec in
    let request_kind := kind_from_optional (ra_request_kind req) in
    let service_tier := normalize_billing_service_tier (ra_service_tier req) in
    let session_key := non_empty (ra_session_key req) in
    _ ←? context "failed to start billing authorize transaction" begin;
    existing ←? fetch_authorization_for_update (ra_tenant_id req) request_id;
    match existing with
    | Some existing => reuse_authorization req existing
    | None => new_authorization req request_id model now expires_at request_kind service_tier session_key
    end.

(** ** [billing_capture] *)

Definition authorization_capture_is_idempotent (status : string) : bool := String.eqb status "captured".

(** The tokens of a usage as they are billed. *)
Record BilledTokens := mkBilledTokens {
  bt_input_tokens : Z;
  bt_cached_input_tokens : Z;
  bt_billable_input_tokens : Z;
  bt_output_tokens : Z;
  bt_reasoning_tokens : Z;
  bt_billable_output_tokens : Z;
}.
Definition billed_tokens (input cached output reasoning : Z) : BilledTokens :=
  let input_tokens := Z.max input 0 in
  let cached_input_tokens := Z.min (Z.max cached 0) input_tokens in
  let output_tokens := Z.max output 0 in
  let reasoning_tokens := Z.max reasoning 0 in
  mkBilledTokens input_tokens cached_input_tokens (i64_saturating_sub input_tokens cached_input_tokens)
    output_tokens reasoning_tokens (Z.max output_tokens reasoning_tokens).
Definition charge_of (tokens : BilledTokens) (pricing : BillingPricingResolved) : Z :=
  calculate_charged_microcredits (bt_input_tokens tokens) (bt_cached_input_tokens tokens)
    (bt_billable_output_tokens tokens) pricing.

Definition captured_already (req : BillingCaptureRequest) (a : BillingAuthorizationRecord) :
    DB (result BillingCaptureResponse BillingError) :=
  balance_microcredits ←? current_credit_balance_for_update (rc_tenant_id req);
  _ ←? context "failed to commit billing capture transaction" commit;
  mret (Ok (mkBillingCaptureResponse (ba_id a) (ba_tenant_id a) (ba_request_id a) (ba_status a)
              (ba_reserved_microcredits a) (ba_captured_microcredits a) (ba_captured_microcredits a)
              balance_microcredits)).

Definition pricing_meta (pricing : BillingPricingResolved) (tokens : BilledTokens) : Map :=
  [("pricing_source", VString (bp_source pricing));
   ("input_price_microcredits", VInt (bp_input_price_microcredits pricing));
   ("cached_input_price_microcredits", VInt (bp_cached_input_price_microcredits pricing));
   ("output_price_microcredits", VInt (bp_output_price_microcredits pricing));
   ("billable_input_tokens", VInt (bt_billable_input_tokens tokens));
   ("cached_input_tokens", VInt (bt_cached_input_tokens tokens));
   ("reasoning_tokens", VInt (bt_reasoning_tokens tokens));
   ("billable_output_tokens", VInt (bt_billable_output_tokens tokens))].

(** The columns a capture sets. *)
Definition captured_row (api_key_id : option Uuid) (model : string) (charged_microcredits : Z) (meta : Value)
    (now : DateTime) (row : AuthorizationRow) : AuthorizationRow :=
  row <| au_api_key_id := or_else (au_api_key_id row) api_key_id |>
      <| au_model := or_else (au_model row) (Some model) |>
      <| au_captured_microcredits := charged_microcredits |>
      <| au_status := "captured" |>
      <| au_meta_json := jsonb_concat (au_meta_json row) meta |>
      <| au_updated_at := now |>.

Definition capture_authorized (req : BillingCaptureRequest) (request_id model : string) (now : DateTime)
    (a : BillingAuthorizationRecord) : DB (result BillingCaptureResponse BillingError) :=
  let tokens := billed_tokens (rc_input_tokens req) (rc_cached_input_tokens req) (rc_output_tokens req)
                  (rc_reasoning_tokens req) in
  let session_key := or_else (non_empty (rc_session_key req)) (authorization_session_key (ba_meta_json a)) in
  let effective_service_tier :=
    normalize_billing_service_tier
      (or_else (rc_service_tier req) (authorization_service_tier (ba_meta_json a))) in
  let request_kind :=
    match kind_from_optional (rc_request_kind req) with
    | KindUnknown => default KindUnknown (authorization_request_kind (ba_meta_json a))
    | value => value
    end in
  existing_session ←? session_of (rc_tenant_id req) session_key;
  pricing_decision ←? resolve_model_pricing_for_request model
    (mkBillingPricingRequestContext (Some effective_service_tier) (rc_api_key_id req) request_kind
       (or_else (session_band existing_session) (authorization_pricing_band (ba_meta_json a)))
       (Some (bt_input_tokens tokens)) PhaseCapture);
  let pricing := pd_pricing pricing_decision in
  let charged_microcredits := charge_of tokens pricing in
  let extra_charge_microcredits :=
    Z.max (i64_saturating_sub charged_microcredits (ba_reserved_microcredits a)) 0 in
  let api_key_id := or_else (rc_api_key_id req) (ba_api_key_id a) in
  let meta := authorize_meta session_key request_kind effective_service_tier pricing_decision
                (rc_is_stream req) in
  balance_microcredits ←? apply_credit_delta_inner
    (mkCreditDeltaParams (rc_tenant_id req) api_key_id "capture" (- extra_charge_microcredits)
       (Some request_id) (Some model) (Some (bt_input_tokens tokens)) (Some (bt_output_tokens tokens))
       (Some (json_object ([("phase", VString "capture"); ("authorization_id", json_uuid (ba_id a))] ++ meta ++
          [("reserved_microcredits", VInt (ba_reserved_microcredits a));
           ("charged_microcredits", VInt charged_microcredits);
           ("extra_charge_microcredits", VInt extra_charge_microcredits)] ++ pricing_meta pricing tokens)))
       now);
  _ ←? context "failed to update billing authorization capture status"
    (in_tx (update_authorization (ba_id a)
      (captured_row api_key_id (default model (ba_model a)) charged_microcredits
         (json_object ([("phase", VString "capture")] ++ meta ++
            [("pricing_source", VString (bp_source pricing));
             ("charged_microcredits", VInt charged_microcredits);
             ("captured_at", VString (time_to_string now))])) now)));
  _ ←? keep_session (rc_tenant_id req) session_key model (pd_band pricing_decision) now;
  _ ←? context "failed to commit billing capture transaction" commit;
  mret (Ok (mkBillingCaptureResponse (ba_id a) (ba_tenant_id a) (ba_request_id a) "captured"
              (ba_reserved_microcredits a) charged_microcredits charged_microcredits balance_microcredits)).

Definition billing_capture (req : BillingCaptureRequest) : DB (result BillingCaptureResponse BillingError) :=
  let request_id := trim (rc_request_id req) in
  let model := trim (rc_model req) in
  if is_empty request_id then mret (Err (Message "request_id must not be empty"))
  else if is_empty model then mret (Err (Message "model must not be empty"))
  else
    now ← utc_now;
    _ ←? context "failed to start billing capture transaction" begin;
    authorization ←? fetch_authorization_for_update (rc_tenant_id req) request_id;
    match authorization with
    | None => mret (Err (Message "authorization not found"))
    | Some a =>
        if authorization_capture_is_idempotent (ba_status a) then captured_already req a
        else if negb (String.eqb (ba_status a) "authorized") then
          mret (Err (Message ("billing authorization is in invalid status: " +:+ ba_status a)))
        else capture_authorized req request_id model now a
    end.

(** ** [billing_release] *)

Definition release_amount (a : BillingAuthorizationRecord) : Z :=
  Z.max (i64_saturating_sub (ba_reserved_microcredits a) (ba_captured_microcredits a)) 0.

Definition field_if {A} (key : string) (f : A → Value) (o : option A) : Map :=
  match o with Some x => [(key, f x)] | None => [] end.

Definition release_meta (req : BillingReleaseRequest) (a : BillingAuthorizationRecord) : Value :=
  json_object
    ([("phase", VString "release"); ("authorization_id", json_uuid (ba_id a));
      ("request_id", VString (ba_request_id a)); ("release_microcredits", VInt (release_amount a));
      ("is_stream", VBool (rr_is_stream req))] ++
     field_if "release_reason" VString (rr_release_reason req) ++
     field_if "upstream_status_code" VInt (rr_upstream_status_code req) ++
     field_if "upstream_error_code" VString (rr_upstream_error_code req) ++
     field_if "failover_action" VString (rr_failover_action req) ++
     field_if "failover_reason_class" VString (rr_failover_reason_class req) ++
     field_if "recovery_action" VString (rr_recovery_action req) ++
     field_if "recovery_outcome" VString (rr_recovery_outcome req) ++
     field_if "cross_account_failover_attempted" VBool (rr_cross_account_failover_attempted req)).

Definition release_response (a : BillingAuthorizationRecord) (status : string) (balance : Z) :
    BillingReleaseResponse :=
  mkBillingReleaseResponse (ba_id a) (ba_tenant_id a) (ba_request_id a) status (ba_reserved_microcredits a)
    (ba_captured_microcredits a) (release_amount a) balance.

Definition released_row (now : DateTime) (row : AuthorizationRow) : AuthorizationRow :=
  row <| au_status := "released" |> <| au_updated_at := now |>.

Definition release_open (req : BillingReleaseRequest) (now : DateTime) (a : BillingAuthorizationRecord) :
    DB (result BillingReleaseResponse BillingError) :=
  balance_microcredits ←?
    (if 0 <? release_amount a then
       apply_credit_delta_inner
         (mkCreditDeltaParams (rr_tenant_id req) (ba_api_key_id a) "release" (release_amount a) None
            (ba_model a) None None (Some (release_meta req a)) now)
     else current_credit_balance_for_update (rr_tenant_id req));
  _ ←? context "failed to update billing authorization release status"
    (in_tx (update_authorization (ba_id a) (released_row now)));
  _ ←? context "failed to commit billing release transaction" commit;
  mret (Ok (release_response a "released" balance_microcredits)).

Definition billing_release (req : BillingReleaseRequest) : DB (result BillingReleaseResponse BillingError) :=
  let request_id := trim (rr_request_id req) in
  if is_empty request_id then mret (Err (Message "request_id must not be empty"))
  else
    now ← utc_now;
    _ ←? context "failed to start billing release transaction" begin;
    authorization ←? fetch_authorization_for_update (rr_tenant_id req) request_id;
    match authorization with
    | None => mret (Err (Message "authorization not found"))
    | Some a =>
        if String.eqb (ba_status a) "released" then
          balance_microcredits ←? current_credit_balance_for_update (rr_tenant_id req);
          _ ←? context "failed to commit billing release transaction" commit;
          mret (Ok (release_response a (ba_status a) balance_microcredits))
        else release_open req now a
    end.

(** ** [billing_reconcile_once] *)

Definition is_stale (now stale_before : DateTime) (row : AuthorizationRow) : bool :=
  (String.eqb (au_status row) "authorized" && (au_expires_at row <=? now))
  || (String.eqb (au_status row) "captured" && (au_updated_at row <=? stale_before)).

Definition reconciled_row (meta : Value) (now : DateTime) (row : AuthorizationRow) : AuthorizationRow :=
  row <| au_status := "released" |>
      <| au_meta_json := jsonb_concat (au_meta_json row) meta |>
      <| au_updated_at := now |>.

Definition reconcile_row (now : DateTime) (stats : BillingReconcileStats) (row : AuthorizationRow) :
    DB (result BillingReconcileStats BillingError) :=
  a ←? mret (read_authorization
               ["id"; "tenant_id"; "api_key_id"; "request_id"; "model"; "reserved_microcredits";
                "captured_microcredits"; "status"; "expires_at"; "meta_json"] row);
  let stats := stats <| rs_scanned ::= λ n, u64_saturating_add n 1 |> in
  let release_microcredits := release_amount a in
  stats ←?
    (if 0 <? release_microcredits then
       _ ←? apply_credit_delta_inner
         (mkCreditDeltaParams (ba_tenant_id a) (ba_api_key_id a) "adjust" release_microcredits None
            (ba_model a) None None
            (Some (json_object
               [("phase", VString "reconcile_adjust"); ("reason", VString "stale_authorization_release");
                ("authorization_id", json_uuid (ba_id a)); ("request_id", VString (ba_request_id a));
                ("previous_status", VString (ba_status a)); ("release_microcredits", VInt release_microcredits)]))
            now);
       mret (Ok (stats <| rs_adjusted ::= λ n, u64_saturating_add n 1 |>
                       <| rs_adjusted_microcredits_total ::= λ n, i64_saturating_add n release_microcredits |>))
     else mret (Ok stats));
  _ ←? context "failed to update billing authorization status in reconcile"
    (in_tx (update_authorization (ba_id a)
      (reconciled_row
         (json_object
            [("phase", VString "reconcile_release"); ("reason", VString "stale_authorization_close");
             ("reconciled_at", VString (time_to_string now)); ("previous_status", VString (ba_status a));
             ("release_microcredits", VInt release_microcredits)]) now)));
  mret (Ok (stats <| rs_released_authorizations ::= λ n, u64_saturating_add n 1 |>)).

Fixpoint reconcile_rows (now : DateTime) (stats : BillingReconcileStats) (rows : list AuthorizationRow) :
    DB (result BillingReconcileStats BillingError) :=
  match rows with
  | [] => mret (Ok stats)
  | row :: rows => stats ←? reconcile_row now stats row; reconcile_rows now stats rows
  end.

(** The stale rows that no other transaction has locked, the least recently updated
    ones first. *)
Definition select_stale (n : nat) (now stale_before : DateTime) (batch_size : Z) :
    Statement (list AuthorizationRow) :=
  selects (λ t,
    take (Z.to_nat batch_size)
      (sort_by (λ a b, Z.compare (au_updated_at a) (au_updated_at b))
         (pg_order n (List.filter (λ row, is_stale now stale_before row && negb (pg_locked n (au_id row)))
                        (tb_authorizations t))))).

Definition billing_reconcile_once (req : BillingReconcileRequest) :
    DB (result BillingReconcileStats BillingError) :=
  let stale_sec := clamp 60 (30 * 24 * 60 * 60) (ro_stale_sec req) in
  let batch_size := clamp 1 5000 (ro_batch_size req) in
  now ← utc_now;
  let stale_before := now - from_secs stale_sec in
  _ ←? context "failed to start billing reconcile transaction" begin;
  n ← tick;
  rows ←? context "failed to query stale billing authorizations for reconcile"
    (in_tx (select_stale n now stale_before batch_size));
  stats ←? reconcile_rows now stats_default rows;
  _ ←? context "failed to commit billing reconcile transaction" commit;
  mret (Ok stats).
(** ** [reconcile_adjust_captured_amount] *)

Definition adjusted_row (captured : Z) (meta : Value) (now : DateTime) (row : AuthorizationRow) : AuthorizationRow :=
  row <| au_captured_microcredits := captured |>
      <| au_meta_json := jsonb_concat (au_meta_json row) meta |>
      <| au_updated_at := now |>.

Definition reconcile_adjust_captured_amount (tenant_id : Uuid) (request_id model : string)
    (input cached output reasoning : Z) (api_key_id : option Uuid) (service_tier : option string) :
    DB (result bool BillingError) :=
  let tokens := billed_tokens input cached output reasoning in
  now ← utc_now;
  _ ←? context "failed to start reconcile adjust transaction" begin;
  authorization ←? fetch_authorization_for_update tenant_id request_id;
  match authorization with
  | None => _ ←? context "failed to commit reconcile adjust noop transaction" commit; mret (Ok false)
  | Some a =>
      let request_kind := default KindUnknown (authorization_request_kind (ba_meta_json a)) in
      let effective_service_tier :=
        normalize_billing_service_tier (or_else service_tier (authorization_service_tier (ba_meta_json a))) in
      pricing_decision ←? resolve_model_pricing_for_request model
        (mkBillingPricingRequestContext (Some effective_service_tier) (ba_api_key_id a) request_kind
           (authorization_pricing_band (ba_meta_json a)) (Some (bt_input_tokens tokens)) PhaseCapture);
      let pricing := pd_pricing pricing_decision in
      let expected_captured_microcredits := charge_of tokens pricing in
      if ba_captured_microcredits a =? expected_captured_microcredits then
        _ ←? context "failed to commit reconcile adjust noop transaction" commit; mret (Ok false)
      else
        let delta_microcredits :=
          i64_saturating_sub (ba_captured_microcredits a) expected_captured_microcredits in
        let common :=
          [("phase", VString "reconcile_adjust"); ("reason", VString "request_log_capture_mismatch");
           ("request_id", VString request_id); ("request_kind", VString (kind_as_str request_kind));
           ("service_tier", VString effective_service_tier);
           ("pricing_band", VString (band_as_str (pd_band pricing_decision)));
           ("pricing_rule_id", json_opt json_uuid (pd_matched_rule_id pricing_decision));
           ("previous_captured_microcredits", VInt (ba_captured_microcredits a));
           ("expected_captured_microcredits", VInt expected_captured_microcredits)] in
        _ ←?
          (if negb (delta_microcredits =? 0) then
             apply_credit_delta_inner
               (mkCreditDeltaParams tenant_id (or_else api_key_id (ba_api_key_id a)) "adjust" delta_microcredits
                  None (or_else (ba_model a) (Some model)) (Some (bt_input_tokens tokens))
                  (Some (bt_output_tokens tokens))
                  (Some (json_object (common ++
                     [("authorization_id", json_uuid (ba_id a)); ("delta_microcredits", VInt delta_microcredits)]
                     ++ pricing_meta pricing tokens)))
                  now)
           else mret (Ok 0));
        _ ←? context "failed to update authorization captured_microcredits in reconcile adjust"
          (in_tx (update_authorization (ba_id a)
            (adjusted_row expected_captured_microcredits
               (json_object (common ++ [("pricing_source", VString (bp_source pricing));
                                        ("reconciled_at", VString (time_to_string now))])) now)));
        _ ←? context "failed to commit reconcile adjust transaction" commit;
        mret (Ok true)
  end.

(** ** [billing_reconcile_request_fact] *)

Definition fact_capture (req : BillingReconcileFactRequest) (request_id : string)
    (a : BillingAuthorizationRecord) (model : string) (input_tokens output_tokens : Z)
    (service_tier : option string) : BillingCaptureRequest :=
  mkBillingCaptureRequest (rf_tenant_id req) (or_else (rf_api_key_id req) (ba_api_key_id a)) request_id model
    service_tier (authorization_session_key (ba_meta_json a))
    (kind_as_str <$> authorization_request_kind (ba_meta_json a)) input_tokens
    (default 0 (Z.max 0 <$> rf_cached_input_tokens req)) output_tokens
    (default 0 (Z.max 0 <$> rf_reasoning_tokens req)) false.

Definition fact_release (req : BillingReconcileFactRequest) (request_id : string) : BillingReleaseRequest :=
  mkBillingReleaseRequest (rf_tenant_id req) request_id false None None None None None None None None.

(** The capture of an authorization that is still open, or the adjustment of the
    amount that was captured. *)
Definition settle_fact (req : BillingReconcileFactRequest) (request_id : string)
    (a : BillingAuthorizationRecord) (stats : BillingReconcileStats) :
    DB (result BillingReconcileStats BillingError) :=
  let model := or_else (non_empty (rf_model req)) (non_empty (ba_model a)) in
  let input_tokens := Z.max 0 <$> rf_input_tokens req in
  let output_tokens := Z.max 0 <$> rf_output_tokens req in
  let service_tier := or_else (rf_service_tier req) (authorization_service_tier (ba_meta_json a)) in
  match model, input_tokens, output_tokens with
  | Some model, Some input_tokens, Some output_tokens =>
      if String.eqb (ba_status a) "authorized" then
        _ ←? billing_capture (fact_capture req request_id a model input_tokens output_tokens service_tier);
        mret (Ok stats)
      else if is_one_of ["captured"; "released"] (ba_status a) then
        adjusted ←? reconcile_adjust_captured_amount (rf_tenant_id req) request_id model input_tokens
          (default 0 (Z.max 0 <$> rf_cached_input_tokens req)) output_tokens
          (default 0 (Z.max 0 <$> rf_reasoning_tokens req)) (rf_api_key_id req) service_tier;
        mret (Ok (if adjusted : bool then stats <| rs_adjusted ::= λ n, u64_saturating_add n 1 |> else stats))
      else mret (Ok stats)
  | _, _, _ => mret (Ok stats)
  end.

Definition billing_reconcile_request_fact (req : BillingReconcileFactRequest) :
    DB (result BillingReconcileStats BillingError) :=
  let request_id := trim (rf_request_id req) in
  if is_empty request_id then mret (Ok stats_default)
  else
    authorization ←? fetch_authorization (rf_tenant_id req) request_id;
    match authorization with
    | None => mret (Ok stats_default)
    | Some a =>
        let stats := stats_default <| rs_scanned := 1 |> in
        stats ←? settle_fact req request_id a stats;
        latest ←? fetch_authorization (rf_tenant_id req) request_id;
        match latest with
        | None => mret (Ok stats)
        | Some latest =>
            if negb (String.eqb (ba_status latest) "released") then
              _ ←? billing_release (fact_release req request_id);
              mret (Ok (stats <| rs_released_authorizations ::= λ n, u64_saturating_add n 1 |>))
            else mret (Ok stats)
        end
    end.

(** ** Credits that come in *)

(** [admin_create_tenant] *)
Definition admin_create_tenant (raw_name : string) (status plan : option string) (expires_at : option DateTime) :
    DB (result (Uuid * TenantRow) BillingError) :=
  let name := trim raw_name in
  if is_empty name then mret (Err (Message "name must not be empty"))
  else
    now ← utc_now;
    _ ←? context "failed to start admin create tenant transaction" begin;
    tenant_id ← new_v4;
    let row := mkTenantRow name (to_ascii_lowercase (default "active" (non_empty status)))
                 (to_ascii_lowercase (default "credit" (non_empty plan))) expires_at now now in
    _ ←? context "failed to create tenant"
      (in_tx (λ t, if bool_decide (is_Some (tb_tenants t !! tenant_id)) then Err unique_violation
                   else Ok (tt, t <| tb_tenants ::= insert tenant_id row |>)));
    _ ←? context "failed to initialize tenant credit account for admin-created tenant"
      (in_tx (init_credit_account tenant_id now));
    _ ←? context "failed to commit admin create tenant transaction" commit;
    mret (Ok (tenant_id, row)).

(** [admin_recharge_tenant] *)
Definition admin_recharge_tenant (tenant_id : Uuid) (amount_microcredits : Z) (reason : option string) :
    DB (result Z BillingError) :=
  if amount_microcredits <=? 0 then mret (Err (Message "amount_microcredits must be positive"))
  else
    now ← utc_now;
    _ ←? context "failed to start tenant recharge transaction" begin;
    balance_after ←? apply_credit_delta_inner
      (mkCreditDeltaParams tenant_id None "recharge" amount_microcredits None None None None
         (Some (json_object [("reason", VString (default "admin recharge" reason))])) now);
    _ ←? context "failed to commit tenant recharge transaction" commit;
    mret (Ok balance_after).

Definition CHECKIN_REWARD_MIN : Z := 50000000.
Definition CHECKIN_REWARD_MAX : Z := 150000000.

(** [u64::from_str_radix(.., 16)] of at most sixteen digits, which cannot overflow. *)
Definition hex_digit (a : ascii) : option Z :=
  let b := Z.of_N (byte_of a) in
  if (48 <=? b) && (b <=? 57) then Some (b - 48)
  else if (97 <=? b) && (b <=? 102) then Some (b - 87)
  else if (65 <=? b) && (b <=? 70) then Some (b - 55)
  else None.
Fixpoint parse_hex_digits (acc : Z) (s : string) : option Z :=
  match s with
  | EmptyString => Some acc
  | String a r => match hex_digit a with Some d => parse_hex_digits (16 * acc + d) r | None => None end
  end.

(** The digest is hexadecimal and longer than sixteen characters, so the slice is
    within it. *)
Definition deterministic_daily_reward_microcredits (tenant_id : Uuid) (date : Z) : Z :=
  let seed := uuid_to_string tenant_id +:+ ":" +:+ date_to_string date in
  let hash := hex_encode (sha256 seed) in
  let value := default 0 (parse_hex_digits 0 (String.substring 0 16 hash)) in
  let span := CHECKIN_REWARD_MAX - CHECKIN_REWARD_MIN + 1 in
  CHECKIN_REWARD_MIN + value `mod` span.

(** [now.date_naive()]: the number of the day. *)
Definition date_naive (now : DateTime) : Z := now `div` from_secs 86400.

Definition insert_checkin (tenant_id : Uuid) (local_date reward : Z) (now : DateTime) : Statement unit :=
  λ t,
    if bool_decide (is_Some (tb_checkins t !! (tenant_id, local_date))) then Err unique_violation
    else if tenant_exists t tenant_id
    then Ok (tt, t <| tb_checkins ::= insert (tenant_id, local_date) (mkCheckinRow reward now) |>)
    else Err foreign_key_violation.

(** [daily_checkin]: the date, the reward and the balance after it. *)
Definition daily_checkin (tenant_id : Uuid) : DB (result (Z * Z * Z) BillingError) :=
  now ← utc_now;
  let local_date := date_naive now in
  let reward_microcredits := deterministic_daily_reward_microcredits tenant_id local_date in
  _ ←? context "failed to start daily checkin transaction" begin;
  existing ←? context "failed to query existing tenant daily checkin"
    (in_tx (selects (λ t, tb_checkins t !! (tenant_id, local_date))));
  match existing with
  | Some _ => mret (Err (Message "daily checkin already claimed"))
  | None =>
      _ ←? context "failed to insert tenant daily checkin record"
        (in_tx (insert_checkin tenant_id local_date reward_microcredits now));
      balance_after ←? apply_credit_delta_inner
        (mkCreditDeltaParams tenant_id None "checkin" reward_microcredits None None None None
           (Some (json_object [("local_date", VString (date_to_string local_date))])) now);
      _ ←? context "failed to commit tenant daily checkin transaction" commit;
      mret (Ok (local_date, reward_microcredits, balance_after))
  end.

(** [get_credit_balance]: the balance and when it changed. *)
Definition get_credit_balance (tenant_id : Uuid) : DB (result CreditAccountRow BillingError) :=
  row ←? context "failed to query tenant credit balance" (on_pool (selects (λ t, tb_accounts t !! tenant_id)));
  match row with
  | Some row => mret (Ok row)
  | None =>
      now ← utc_now;
      _ ←? context "failed to initialize tenant credit account" (on_pool (init_credit_account tenant_id now));
      mret (Ok (mkCreditAccountRow 0 now))
  end.

(** [delete_tenant_api_key]; the rows that name the key forget it
    ([ON DELETE SET NULL]). *)
Definition forget_key {A} (key_id : Uuid) (proj : A → option Uuid) (clear : A → A) (row : A) : A :=
  if bool_decide (proj row = Some key_id) then clear row else row.
Definition clear_ledger_key (row : LedgerRow) : LedgerRow :=
  mkLedgerRow (le_id row) (le_tenant_id row) None (le_request_id row) (le_event_type row)
    (le_delta_microcredits row) (le_balance_after_microcredits row) (le_unit_price_microcredits row)
    (le_input_tokens row) (le_output_tokens row) (le_model row) (le_meta_json row) (le_created_at row).

Definition delete_api_key (tenant_id key_id : Uuid) : Statement bool :=
  λ t,
    match tb_api_keys t !! key_id with
    | Some row =>
        if bool_decide (ky_tenant_id row = tenant_id) then
          Ok (true, t <| tb_api_keys ::= delete key_id |>
                      <| tb_ledger ::= map (forget_key key_id le_api_key_id clear_ledger_key) |>
                      <| tb_authorizations ::=
                           map (forget_key key_id au_api_key_id (λ row, row <| au_api_key_id := None |>)) |>)
        else Ok (false, t)
    | None => Ok (false, t)
    end.

Definition delete_tenant_api_key (tenant_id key_id : Uuid) : DB (result unit BillingError) :=
  affected ←? context "failed to delete tenant api key" (on_pool (delete_api_key tenant_id key_id));
  if affected : bool then mret (Ok tt) else mret (Err (Message "api key not found")).
End ledger.
