(* ===== verification/CreditLedgerFacts.v ===== *)
(** * The credits of tenants are conserved

    Every method of [CreditLedger], whatever the server does to its statements and
    commits, refines a few steps of an abstract ledger ([credit_step]): a hold, a
    capture, a release, a grant, or a step that concerns no credits. What is true of
    those steps is true of every run: the balance of a tenant is what was granted
    less what its requests hold or cost, and an authorization only moves forward. *)
From S2P Require Import Prelude RustStr CoreModel RoutingCache Json StoreDefs Secrets Cost CreditTables CreditPricing CreditLedger.

#[local] Open Scope string_scope.
#[local] Open Scope list_scope.
#[local] Open Scope Z_scope.

(** ** Transactions

    [in_transaction c P w]: the committed tables are [c] and, unless a statement has
    failed, the open transaction sees tables with [P]. *)
Section transactions.
Context `{PostgresServer}.
Implicit Types (c t : CreditTables) (w : Timed Database) (P R : CreditTables → Prop).

Definition in_transaction c P w : Prop :=
  db_committed (st w) = c ∧ (db_aborted (st w) = false → P (db_working (st w))).

(** [does m P Q]: [m] takes a transaction from [P] to [Q], or fails without a commit. *)
Definition does {A E} (m : DB (result A E)) P (Q : A → CreditTables → Prop) : Prop :=
  ∀ c w, in_transaction c P w →
    wp m (λ r w', match r with Ok a => in_transaction c (Q a) w' | Err _ => db_committed (st w') = c end) w.

(** [ends m P R]: [m] leaves the committed tables as they are or makes them [R]. *)
Definition ends {A} (m : DB A) P R : Prop :=
  ∀ c w, in_transaction c P w → wp m (λ _ w', db_committed (st w') = c ∨ R (db_committed (st w'))) w.

(** [reads m]: [m] changes neither. *)
Definition reads {A} (m : DB A) : Prop := ∀ w, wp m (λ _ w', st w' = st w) w.

Lemma does_ok {A E} (a : A) P (Q : A → CreditTables → Prop) :
  (∀ t, P t → Q a t) → does (E := E) (mret (Ok a)) P Q.
Proof. intros HPQ c w [Hc HP]. wp_step. split; auto. Qed.
Lemma does_err {A E} (e : E) P (Q : A → CreditTables → Prop) : does (mret (Err e)) P Q.
Proof. intros c w [Hc HP]. by wp_step. Qed.
Lemma does_try {A B E} (m : DB (result A E)) (k : A → DB (result B E)) P
    (Q : A → CreditTables → Prop) (R' : B → CreditTables → Prop) :
  does m P Q → (∀ a, does (k a) (Q a) R') → does (try_bind m k) P R'.
Proof. intros Hm Hk c w Hw. wp_step. wp_use (Hm c w Hw) as [a|e] w' Hw'; [by apply Hk|done]. Qed.
Lemma does_reads {A B E} (m : DB A) (k : A → DB (result B E)) P (Q : B → CreditTables → Prop) :
  reads m → (∀ a, does (k a) P Q) → does (m ≫= k) P Q.
Proof.
  intros Hm Hk c w Hw. wp_step. wp_use (Hm w) as a w' Hw'. apply Hk. unfold in_transaction. by rewrite Hw'.
Qed.
Lemma does_reading {A E} (m : DB (result A E)) P : reads m → does m P (λ _, P).
Proof. intros Hm c w Hw. wp_use (Hm w) as [a|e] w' Hw'; unfold in_transaction; rewrite Hw'; [done|apply Hw]. Qed.
Lemma does_mono {A E} (m : DB (result A E)) P P' (Q Q' : A → CreditTables → Prop) :
  does m P' Q' → (∀ t, P t → P' t) → (∀ a t, Q' a t → Q a t) → does m P Q.
Proof.
  intros Hm HP HQ c w [Hc Hw]. eapply wp_mono; [apply (Hm c); by split; auto|].
  intros [a|e] w'; [|done]. intros [? ?]. by split; auto.
Qed.
(** A statement that fails has aborted the transaction. *)
Lemma in_tx_spec {A} (q : Statement A) P (Q : A → CreditTables → Prop) c w :
  (∀ t a t', P t → q t = Ok (a, t') → Q a t') → in_transaction c P w →
  wp (in_tx q) (λ r w', match r with
                        | Ok a => in_transaction c (Q a) w'
                        | Err _ => db_committed (st w') = c ∧ db_aborted (st w') = true
                        end) w.
Proof.
  intros Hq. destruct w as [[c' t ab] n]. intros [Hc HP]. cbn in *. subst c'. unfold in_tx, tick. wp_step.
  unfold wp at 1. cbn. wp_step. wp_step. cbn. destruct ab; [by wp_step|].
  destruct (pg_fails n); [by repeat wp_step|]. wp_step. wp_step. cbn.
  destruct (q t) as [[a t']|code] eqn:Ht; repeat wp_step; [|done].
  split; [done|]. intros _. cbn. eauto.
Qed.
Lemma does_in_tx {A} (q : Statement A) P (Q : A → CreditTables → Prop) :
  (∀ t a t', P t → q t = Ok (a, t') → Q a t') → does (in_tx q) P Q.
Proof. intros Hq c w Hw. wp_use (in_tx_spec q P Q c w Hq Hw) as [a|e] w' Hw'; [done|apply Hw']. Qed.
Lemma does_context {A} text (m : DB (result A SqlError)) P (Q : A → CreditTables → Prop) :
  does m P Q → does (context text m) P Q.
Proof. intros Hm c w Hw. unfold context. wp_step. wp_use (Hm c w Hw) as [a|e] w' Hw'; done. Qed.
Lemma does_statement {A} text (q : Statement A) P (Q : A → CreditTables → Prop) :
  (∀ t a t', P t → q t = Ok (a, t') → Q a t') → does (context text (in_tx q)) P Q.
Proof. intros Hq. by apply does_context, does_in_tx. Qed.
Lemma does_select {A} text (f : CreditTables → A) P :
  does (context text (in_tx (selects f))) P (λ a t, P t ∧ a = f t).
Proof. apply does_statement. unfold selects. by intros t a t' HP [= <- <-]. Qed.

Lemma reads_ret {A} (a : A) : reads (mret a).
Proof. intros w. by wp_step. Qed.
Lemma reads_bind {A B} (m : DB A) (k : A → DB B) : reads m → (∀ a, reads (k a)) → reads (m ≫= k).
Proof. intros Hm Hk w. wp_step. wp_use (Hm w) as a w' Hw'. rewrite <- Hw'. apply Hk. Qed.
Lemma reads_try {A B E} (m : DB (result A E)) (k : A → DB (result B E)) :
  reads m → (∀ a, reads (k a)) → reads (try_bind m k).
Proof. intros Hm Hk. apply reads_bind; [done|]. intros [a|e]; [apply Hk|apply reads_ret]. Qed.
Lemma reads_tick : reads tick.
Proof. by intros w. Qed.
Lemma reads_utc_now `{WallClock} : reads utc_now.
Proof. by intros w. Qed.
Lemma reads_new_v4 `{UuidSource} : reads new_v4.
Proof. by intros w. Qed.
Lemma reads_pool {A} text (f : CreditTables → A) : reads (context text (on_pool (selects f))).
Proof.
  intros [[c t ab] n]. unfold context, on_pool, selects, tick. wp_step. wp_step. unfold wp at 1. cbn.
  destruct (pg_fails n); [by wp_step|]. wp_step. wp_step. cbn. destruct (pg_commit n); by repeat wp_step.
Qed.

Lemma ends_return {A} (a : A) P R : ends (mret a) P R.
Proof. intros c w [Hc _]. wp_step. by left. Qed.
Lemma ends_try {A B E} (m : DB (result A E)) (k : A → DB (result B E)) P (Q : A → CreditTables → Prop) R :
  does m P Q → (∀ a, ends (k a) (Q a) R) → ends (try_bind m k) P R.
Proof. intros Hm Hk c w Hw. wp_step. wp_use (Hm c w Hw) as [a|e] w' Hw'; [by apply Hk|by left]. Qed.
Lemma ends_weaken {A} (m : DB A) P P' R : ends m P' R → (∀ t, P t → P' t) → ends m P R.
Proof. intros Hm HP c w [Hc Hw]. apply Hm. split; auto. Qed.
Lemma ends_reads {A B} (m : DB A) (k : A → DB B) P R :
  reads m → (∀ a, ends (k a) P R) → ends (m ≫= k) P R.
Proof.
  intros Hm Hk c w Hw. wp_step. wp_use (Hm w) as a w' Hw'. apply Hk. unfold in_transaction. by rewrite Hw'.
Qed.
Lemma ends_commit {A} text (a : A) P R :
  (∀ t, P t → R t) →
  ends (try_bind (context text commit) (λ _, mret (Ok a : result A BillingError))) P R.
Proof.
  intros HPR c [[c' t ab] n] [Hc HP]. cbn in *. subst c'. unfold context, commit, tick.
  wp_step. wp_step. wp_step. unfold wp at 1. cbn. wp_step. wp_step. cbn. destruct ab; [wp_go; by left|].
  destruct (pg_commit n); wp_go; cbn; auto.
Qed.

(** A method that begins a transaction. *)
Lemma wp_begin {A} text (k : unit → DB (result A BillingError)) (S : CreditTables → CreditTables → Prop) w :
  (∀ t, S t t) → (∀ t0, ends (k tt) (λ t, t = t0) (S t0)) →
  wp (try_bind (context text begin) k) (λ _ w', S (db_committed (st w)) (db_committed (st w'))) w.
Proof.
  intros Hrefl Hk. destruct w as [[c t ab] n]. unfold context, begin, tick.
  wp_step. wp_step. wp_step. unfold wp at 1. cbn. destruct (pg_fails n); [wp_go; apply Hrefl|].
  wp_go. eapply wp_mono; [apply (Hk c c); by split|]. cbn. intros _ w' [->|?]; [apply Hrefl|done].
Qed.
End transactions.

(** ** The abstract ledger *)

Definition balance (t : CreditTables) (tenant : Uuid) : Z :=
  from_option ca_balance_microcredits 0 (tb_accounts t !! tenant).
Definition ids (t : CreditTables) : list Uuid := au_id <$> tb_authorizations t.
Definition keys (t : CreditTables) : list (Uuid * string) :=
  (λ a, (au_tenant_id a, au_request_id a)) <$> tb_authorizations t.

(** A row of the ledger and the balance it leaves, which is not negative. *)
Definition posting (t t' : CreditTables) (tenant : Uuid) (event : string) (delta : Z) : Prop :=
  let next := i64_saturating_add (balance t tenant) delta in
  0 <= next ∧
  ∃ row now,
    le_tenant_id row = tenant ∧ le_event_type row = event ∧ le_delta_microcredits row = delta ∧
    le_balance_after_microcredits row = next ∧ tb_ledger t' = tb_ledger t ++ [row] ∧
    tb_accounts t' = <[tenant := mkCreditAccountRow next now]> (tb_accounts t).
Definition no_posting (t t' : CreditTables) : Prop :=
  tb_ledger t' = tb_ledger t ∧ tb_accounts t' = tb_accounts t.

(** An update of an authorization that keeps what identifies it. *)
Definition becomes (f : AuthorizationRow → AuthorizationRow) (status : string) (captured : AuthorizationRow → Z) : Prop :=
  ∀ row, au_id (f row) = au_id row ∧ au_tenant_id (f row) = au_tenant_id row ∧
    au_request_id (f row) = au_request_id row ∧
    au_reserved_microcredits (f row) = au_reserved_microcredits row ∧
    au_captured_microcredits (f row) = captured row ∧ au_status (f row) = status.
Definition update_row (id : Uuid) (f : AuthorizationRow → AuthorizationRow) (row : AuthorizationRow) :=
  if bool_decide (au_id row = id) then f row else row.

Definition same_entry (a b : LedgerRow) : Prop :=
  le_tenant_id b = le_tenant_id a ∧ le_event_type b = le_event_type a ∧
  le_delta_microcredits b = le_delta_microcredits a.
Definition same_authorization (a b : AuthorizationRow) : Prop :=
  au_id b = au_id a ∧ au_tenant_id b = au_tenant_id a ∧ au_request_id b = au_request_id a ∧
  au_reserved_microcredits b = au_reserved_microcredits a ∧
  au_captured_microcredits b = au_captured_microcredits a ∧ au_status b = au_status a.

Definition release_of (a : AuthorizationRow) : Z :=
  Z.max (i64_saturating_sub (au_reserved_microcredits a) (au_captured_microcredits a)) 0.

Inductive credit_step (t t' : CreditTables) : Prop :=
  | step_hold a :
      0 < au_reserved_microcredits a → au_captured_microcredits a = 0 → au_status a = "authorized" →
      au_id a ∉ ids t → (au_tenant_id a, au_request_id a) ∉ keys t →
      posting t t' (au_tenant_id a) "authorize_hold" (- au_reserved_microcredits a) →
      tb_authorizations t' = tb_authorizations t ++ [a] →
      credit_step t t'
  | step_capture a charged f :
      a ∈ tb_authorizations t → au_status a = "authorized" → 0 <= charged <= i64_max →
      becomes f "captured" (λ _, charged) →
      posting t t' (au_tenant_id a) "capture"
        (- Z.max (i64_saturating_sub charged (au_reserved_microcredits a)) 0) →
      tb_authorizations t' = map (update_row (au_id a) f) (tb_authorizations t) →
      credit_step t t'
  | step_release a event f :
      a ∈ tb_authorizations t → au_status a ≠ "released" → event ∈ ["release"; "adjust"] →
      becomes f "released" au_captured_microcredits →
      (if 0 <? release_of a then posting t t' (au_tenant_id a) event (release_of a) else no_posting t t') →
      tb_authorizations t' = map (update_row (au_id a) f) (tb_authorizations t) →
      credit_step t t'
  | step_grant tenant event amount :
      event ∈ ["recharge"; "checkin"] → 0 < amount → posting t t' tenant event amount →
      tb_authorizations t' = tb_authorizations t →
      credit_step t t'
  | step_other :
      (∀ tenant, balance t' tenant = balance t tenant) →
      Forall2 same_entry (tb_ledger t) (tb_ledger t') →
      Forall2 same_authorization (tb_authorizations t) (tb_authorizations t') →
      credit_step t t'.

Lemma Forall2_self {A} (R : A → A → Prop) l : (∀ x, R x x) → Forall2 R l l.
Proof. intros HR. by induction l; constructor. Qed.

(** Tables that agree on credits. *)
Lemma same_balances_step t t' :
  (∀ tenant, balance t' tenant = balance t tenant) → tb_ledger t' = tb_ledger t →
  tb_authorizations t' = tb_authorizations t → credit_step t t'.
Proof.
  intros Hb Hl Hau. apply step_other; [done|rewrite Hl|rewrite Hau].
  - by apply Forall2_self.
  - by apply Forall2_self.
Qed.
Lemma same_credits_step t t' :
  tb_ledger t' = tb_ledger t → tb_accounts t' = tb_accounts t →
  tb_authorizations t' = tb_authorizations t → credit_step t t'.
Proof. intros Hl Ha. apply same_balances_step; [unfold balance; by rewrite Ha|done]. Qed.

Lemma update_ids id f status captured l :
  becomes f status captured → au_id <$> map (update_row id f) l = au_id <$> l.
Proof.
  intros Hf. induction l as [|x l IH]; [done|]. cbn [map]. rewrite !fmap_cons, IH. f_equal.
  unfold update_row. case_bool_decide; [apply Hf|done].
Qed.

(** The identifiers stay distinct. *)
Lemma step_ids t t' : credit_step t t' → NoDup (ids t) → NoDup (ids t').
Proof.
  unfold ids. intros Hs Hnd. destruct Hs as [a _ _ _ Ha _ _ ->|a ch f _ _ _ Hf _ ->|a e f _ _ _ Hf _ ->|? ? ? _ _ _ ->|_ _ Hau].
  - rewrite fmap_app. apply list.NoDup_app. split_and!; [done| |apply NoDup_singleton].
    intros x Hx ->%list_elem_of_singleton. by apply Ha.
  - by erewrite update_ids.
  - by erewrite update_ids.
  - done.
  - replace (au_id <$> tb_authorizations t') with (au_id <$> tb_authorizations t); [done|].
    induction Hau as [|x y l k Hxy _ IH]; [done|]. rewrite !fmap_cons in *. apply list.NoDup_cons in Hnd as [_ ?].
    rewrite IH by done. f_equal. symmetry. apply Hxy.
Qed.

(** Steps from tables whose identifiers are distinct. *)
Definition evolves (t t' : CreditTables) : Prop := NoDup (ids t) → rtc credit_step t t'.
Lemma evolves_refl t : evolves t t.
Proof. by intros _. Qed.
Lemma steps_ids t t' : rtc credit_step t t' → NoDup (ids t) → NoDup (ids t').
Proof. induction 1; eauto using step_ids. Qed.
Lemma evolves_trans t1 t2 t3 : evolves t1 t2 → evolves t2 t3 → evolves t1 t3.
Proof. intros H1 H2 Hnd. etrans; [by apply H1|]. apply H2. by eapply steps_ids; [apply H1|]. Qed.

(** ** The methods refine the abstract ledger *)

(** Takes a reading apart. *)
Ltac reads_step :=
  lazymatch goal with
  | |- reads (mret _) => apply reads_ret
  | |- reads (try_bind _ _) => apply reads_try; [|intros ?]
  | |- reads (_ ≫= _) => apply reads_bind; [|intros ?]
  | |- reads (context _ (on_pool (selects _))) => apply reads_pool
  | |- reads tick => apply reads_tick
  | |- reads utc_now => apply reads_utc_now
  | |- reads (match ?x with _ => _ end) => destruct x
  end; cbv beta zeta.

(** The effect of a credit delta on the tables. *)
Definition posted (p : CreditDeltaParams) (t t' : CreditTables) : Prop :=
  let next := i64_saturating_add (balance t (cd_tenant_id p)) (cd_delta_microcredits p) in
  0 <= next ∧
  ∃ row,
    le_tenant_id row = cd_tenant_id p ∧ le_event_type row = cd_event_type p ∧
    le_delta_microcredits row = cd_delta_microcredits p ∧ le_balance_after_microcredits row = next ∧
    t' = t <| tb_accounts ::= insert (cd_tenant_id p) (mkCreditAccountRow next (cd_now p)) |>
           <| tb_ledger ::= λ l, l ++ [row] |>.

Lemma posted_posting p t t' t'' :
  posted p t t' → tb_ledger t'' = tb_ledger t' → tb_accounts t'' = tb_accounts t' →
  posting t t'' (cd_tenant_id p) (cd_event_type p) (cd_delta_microcredits p).
Proof.
  intros (Hn & row & Ht & He & Hd & Hb & ->) Hl Ha. split; [done|]. exists row, (cd_now p).
  rewrite Hl, Ha. done.
Qed.
Lemma posted_authorizations p t t' : posted p t t' → tb_authorizations t' = tb_authorizations t.
Proof. by intros (_ & row & _ & _ & _ & _ & ->). Qed.

Section methods.
Context `{PostgresServer, Environment, UuidText, WallClock, UuidSource, DateTimeText, Digests}.
Implicit Types (t : CreditTables) (w : Timed Database) (P : CreditTables → Prop).

Lemma reads_override model tiers : reads (find_override model tiers).
Proof.
  induction tiers as [|tier tiers IH]; cbn [find_override]; [by reads_step|].
  unfold select_override. reads_step; [reads_step|]. destruct a; [reads_step|done].
Qed.

Lemma reads_pricing model cx : reads (resolve_model_pricing_for_request model cx).
Proof.
  unfold resolve_model_pricing_for_request, resolve_base_model_pricing, list_matching_billing_pricing_rules,
    resolve_api_key_group_pricing, fetch_api_key_group_for_api_key, fetch_api_key_group_policy_for_model.
  repeat (apply reads_override || reads_step).
Qed.

Lemma does_session tenant key P : does (session_of tenant key) P (λ _, P).
Proof.
  unfold session_of, fetch_billing_session_for_update. destruct key as [key|]; [|by apply does_ok].
  destruct (is_empty _); [by apply does_ok|]. apply does_reads; [apply reads_utc_now|intros now].
  eapply does_mono; [apply does_select|done|]. naive_solver.
Qed.

Lemma does_keep_session tenant key model band now t0 :
  does (keep_session tenant key model band now) (credit_step t0) (λ _, rtc credit_step t0).
Proof.
  unfold keep_session, upsert_billing_session.
  destruct key as [key|]; [|by apply does_ok; intros; apply rtc_once].
  destruct (is_empty _); [by apply does_ok; intros; apply rtc_once|].
  apply does_statement. unfold upsert_session. intros t a t' Ht Hq. case_match; [|done]. simplify_eq.
  eapply rtc_l; [done|]. by apply rtc_once, same_credits_step.
Qed.

Lemma does_balance tenant P : does (current_credit_balance_for_update tenant) P (λ _, P).
Proof.
  eapply does_try; [apply does_select|]. intros row. apply does_ok. naive_solver.
Qed.

Lemma does_delta p P :
  does (apply_credit_delta_inner p) P (λ _ t', ∃ t, P t ∧ posted p t t').
Proof.
  unfold apply_credit_delta_inner. eapply does_try; [apply does_select|intros row]. cbv beta zeta.
  destruct (_ <? 0) eqn:Hn; [apply does_err|]. eapply does_try.
  { apply (does_statement _ _ _ (λ _ t', ∃ t, (P t ∧ row = tb_accounts t !! cd_tenant_id p) ∧
      t' = t <| tb_accounts ::= insert (cd_tenant_id p) (mkCreditAccountRow
        (i64_saturating_add (from_option ca_balance_microcredits 0 row) (cd_delta_microcredits p)) (cd_now p)) |>)).
    unfold upsert_credit_account. intros t a t' Ht Hq. case_match; simplify_eq. eauto. }
  intros u. apply does_reads; [apply reads_new_v4|intros id]. intros c w Hw. wp_step.
  eapply wp_mono.
  { refine (in_tx_spec _ _ (λ _ t', ∃ t, P t ∧ posted p t t') c w _ Hw).
    unfold insert_ledger. intros t1 a t' (t & [Ht ->] & ->) Hq. case_match; [done|]. case_match; simplify_eq.
    exists t. split; [done|]. split; [apply Z.ltb_ge in Hn; exact Hn|].
    eexists (mkLedgerRow _ _ _ _ _ _ _ _ _ _ _ _ _). do 4 (split; [reflexivity|]). done. }
  intros [a|[code|]] w' Hw'; [wp_step; exact Hw'| |wp_step; apply Hw'].
  destruct (String.eqb code unique_violation); wp_step; [|apply Hw'].
  destruct Hw' as [? Hab]. split; [done|]. by rewrite Hab.
Qed.

Definition record_of (row : AuthorizationRow) : BillingAuthorizationRecord :=
  mkBillingAuthorizationRecord (au_id row) (au_tenant_id row) (au_request_id row) (au_api_key_id row)
    (au_model row) (au_reserved_microcredits row) (au_captured_microcredits row) (au_status row)
    (au_expires_at row) (Some (au_meta_json row)).

Lemma find_authorization tenant request l row :
  List.find (of_request tenant request) l = Some row → row ∈ l ∧ au_tenant_id row = tenant.
Proof.
  intros [Hin Hp]%List.find_some. apply list_elem_of_In in Hin. split; [done|].
  unfold of_request in Hp. by apply andb_prop in Hp as [Hp%bool_decide_eq_true _].
Qed.

(** The row that was read, of the tenant that asked for it. *)
Definition found (tenant : Uuid) (r : option BillingAuthorizationRecord) (t : CreditTables) : Prop :=
  ∀ a, r = Some a → ∃ row, row ∈ tb_authorizations t ∧ a = record_of row ∧ au_tenant_id row = tenant.

Lemma does_fetch tenant request P :
  does (fetch_authorization_for_update tenant request) P (λ r t, P t ∧ found tenant r t).
Proof.
  unfold fetch_authorization_for_update, select_authorization. eapply does_try; [apply does_select|].
  intros [row|]; cbn [read_optional].
  - change (read_authorization _ row) with (Ok (E := BillingError) (record_of row)). apply does_ok.
    intros t [Ht Hrow]. split; [done|]. intros a [= <-]. exists row.
    symmetry in Hrow. by destruct (find_authorization _ _ _ _ Hrow).
  - apply does_ok. intros t [Ht _]. split; [done|]. by intros a.
Qed.

(** Methods that leave the committed tables evolved. *)
Definition advances {A} (m : DB A) : Prop :=
  ∀ w, wp m (λ _ w', evolves (db_committed (st w)) (db_committed (st w'))) w.

Lemma advances_reads {A} (m : DB A) : reads m → advances m.
Proof. intros Hm w. wp_use (Hm w) as a w' ->. apply evolves_refl. Qed.
Lemma advances_seq {A B} (m : DB A) (k : A → DB B) : advances m → (∀ a, advances (k a)) → advances (m ≫= k).
Proof.
  intros Hm Hk w. wp_step. wp_use (Hm w) as a w' Hw'. wp_use (Hk a w') as b w'' Hw''. by eapply evolves_trans.
Qed.
Lemma advances_try {A B E} (m : DB (result A E)) (k : A → DB (result B E)) :
  advances m → (∀ a, advances (k a)) → advances (try_bind m k).
Proof.
  intros Hm Hk. apply advances_seq; [done|]. intros [a|e]; [apply Hk|]. apply advances_reads, reads_ret.
Qed.
Lemma advances_begin {A} text (k : unit → DB (result A BillingError)) :
  (∀ t0, ends (k tt) (λ t, t = t0) (evolves t0)) → advances (try_bind (context text begin) k).
Proof. intros Hk w. by apply wp_begin; [apply evolves_refl|]. Qed.

(** *** [billing_authorize] *)

Lemma ends_reuse req existing t0 : ends (reuse_authorization req existing) (λ t, t = t0) (evolves t0).
Proof.
  unfold reuse_authorization. destruct (negb _); [apply ends_return|]. eapply ends_try; [apply does_balance|].
  intros b. apply ends_commit. intros t ->. apply evolves_refl.
Qed.

Lemma insert_authorization_step t p t1 a u t2 :
  posted p t t1 → insert_authorization a t1 = Ok (u, t2) →
  cd_tenant_id p = au_tenant_id a → cd_event_type p = "authorize_hold" →
  cd_delta_microcredits p = - au_reserved_microcredits a →
  0 < au_reserved_microcredits a → au_captured_microcredits a = 0 → au_status a = "authorized" →
  credit_step t t2.
Proof.
  intros Hp Hq Ht He Hd Hr Hc Hs. unfold insert_authorization in Hq. case_match eqn:Hex; [done|].
  case_match; simplify_eq.
  assert (Hno : ∀ b, b ∈ tb_authorizations t → authorization_conflict a b = false).
  { intros b Hb. destruct (authorization_conflict a b) eqn:Hab; [|done].
    rewrite (proj2 (existsb_exists _ _)) in Hex; [done|]. exists b. split; [|done].
    apply list_elem_of_In. by rewrite (posted_authorizations _ _ _ Hp). }
  apply (step_hold _ _ a); try done.
  - intros (b & Hi & Hb)%list_elem_of_fmap. specialize (Hno b Hb). unfold authorization_conflict in Hno.
    rewrite bool_decide_eq_true_2 in Hno by done. done.
  - intros (b & [= Hi Hj] & Hb)%list_elem_of_fmap. specialize (Hno b Hb). unfold authorization_conflict in Hno.
    rewrite (bool_decide_eq_true_2 (au_tenant_id a = _)), (bool_decide_eq_true_2 (au_request_id a = _)) in Hno by done.
    by rewrite orb_true_r in Hno.
  - rewrite <- Ht, <- He, <- Hd. by eapply posted_posting.
  - cbn. by rewrite (posted_authorizations _ _ _ Hp).
Qed.

Lemma ends_new_authorization req request_id model now expires_at kind tier key t0 :
  0 < ra_reserved_microcredits req →
  ends (new_authorization req request_id model now expires_at kind tier key) (λ t, t = t0) (evolves t0).
Proof.
  intros Hr. unfold new_authorization. eapply ends_try; [apply does_session|intros session].
  eapply ends_try; [apply does_reading, reads_pricing|intros decision].
  apply ends_reads; [apply reads_new_v4|intros id]. cbv beta zeta.
  eapply ends_try; [apply does_delta|intros b]. cbv beta.
  eapply ends_try.
  { apply (does_statement _ _ _ (λ _, credit_step t0)). intros t1 u t2 (t & -> & Hp) Hq.
    by eapply insert_authorization_step. }
  intros u. eapply ends_try; [apply does_keep_session|intros u']. apply ends_commit. intros t Ht _. done.
Qed.

Lemma authorize_advances req : advances (billing_authorize req).
Proof.
  unfold billing_authorize. destruct (is_empty _); [apply advances_reads, reads_ret|].
  destruct (is_empty _); [apply advances_reads, reads_ret|].
  destruct (_ <=? 0) eqn:Hr; [apply advances_reads, reads_ret|]. apply Z.leb_gt in Hr.
  apply advances_seq; [apply advances_reads, reads_utc_now|intros now]. apply advances_begin. intros t0.
  eapply ends_try; [apply does_fetch|]. intros [existing|].
  - eapply ends_weaken; [apply ends_reuse|]. by intros t [-> _].
  - eapply ends_weaken; [by apply ends_new_authorization|]. by intros t [-> _].
Qed.

(** *** [billing_capture] *)

Lemma charge_range_any tokens price :
  0 <= charge_tokens_by_per_million_price tokens price <= i64_max.
Proof.
  unfold charge_tokens_by_per_million_price. destruct (_ || _); [done|]. by apply clamp_bounds.
Qed.
Lemma charged_range input cached output pricing :
  0 <= calculate_charged_microcredits input cached output pricing <= i64_max.
Proof.
  unfold calculate_charged_microcredits, calculate_estimated_cost_microusd.
  match goal with |- context [i64_saturating_add (i64_saturating_add ?a ?b) ?c] =>
    pose proof (charge_range_any _ _ : 0 <= a <= _); pose proof (charge_range_any _ _ : 0 <= b <= _);
    pose proof (charge_range_any _ _ : 0 <= c <= _); generalize dependent a; generalize dependent b;
    generalize dependent c end.
  intros c Hc b Hb a Ha. pose proof i64_max_pos.
  rewrite (saturating_add_spec a b), saturating_add_spec by lia. lia.
Qed.

Lemma captured_becomes key model charged meta now :
  becomes (captured_row key model charged meta now) "captured" (λ _, charged).
Proof. by intros row. Qed.

Lemma ends_capture_authorized req request_id model now a t0 :
  ba_status a = "authorized" →
  ends (capture_authorized req request_id model now a)
    (λ t, t = t0 ∧ found (rc_tenant_id req) (Some a) t) (evolves t0).
Proof.
  intros Hs. unfold capture_authorized. cbv beta zeta.
  eapply ends_try; [apply does_session|intros session].
  eapply ends_try; [apply does_reading, reads_pricing|intros decision].
  eapply ends_try; [apply does_delta|intros b]. cbv beta. eapply ends_try.
  { apply (does_statement _ _ _ (λ _, credit_step t0)).
    intros t1 u t2 (t & [-> Hf] & Hp) [= _ <-]. destruct (Hf a eq_refl) as (row & Hrow & -> & Ht).
    eapply (step_capture _ _ row); [done|done|apply charged_range|apply captured_becomes| |].
    - rewrite Ht. by eapply (posted_posting _ _ _ _ Hp).
    - cbn. by rewrite (posted_authorizations _ _ _ Hp). }
  intros u. eapply ends_try; [apply does_keep_session|intros u']. apply ends_commit. intros t Hst _. done.
Qed.

Lemma capture_advances req : advances (billing_capture req).
Proof.
  unfold billing_capture. destruct (is_empty _); [apply advances_reads, reads_ret|].
  destruct (is_empty _); [apply advances_reads, reads_ret|].
  apply advances_seq; [apply advances_reads, reads_utc_now|intros now]. apply advances_begin. intros t0.
  eapply ends_try; [apply does_fetch|]. intros [a|]; [|apply ends_return].
  destruct (authorization_capture_is_idempotent _).
  { unfold captured_already. eapply ends_try; [apply does_balance|intros b]. apply ends_commit.
    intros t [-> _]. apply evolves_refl. }
  destruct (negb _) eqn:Hs; [apply ends_return|]. apply negb_false_iff, String.eqb_eq in Hs.
  by apply ends_capture_authorized.
Qed.

(** *** [billing_release] and [billing_reconcile_once] *)

Lemma released_becomes now : becomes (released_row now) "released" au_captured_microcredits.
Proof. by intros row. Qed.
Lemma reconciled_becomes meta now : becomes (reconciled_row meta now) "released" au_captured_microcredits.
Proof. by intros row. Qed.

(** The amount is given back, when there is one. *)
Definition returned (tenant : Uuid) (event : string) (a : BillingAuthorizationRecord) (t t' : CreditTables) : Prop :=
  tb_authorizations t' = tb_authorizations t ∧
  if 0 <? release_amount a then posting t t' tenant event (release_amount a) else no_posting t t'.

Lemma posted_returned p t t' a :
  (0 <? release_amount a) = true → cd_delta_microcredits p = release_amount a → posted p t t' →
  returned (cd_tenant_id p) (cd_event_type p) a t t'.
Proof.
  intros Hr Hd Hp. split; [by eapply posted_authorizations|]. rewrite Hr, <- Hd. by eapply posted_posting.
Qed.

Lemma returned_step t t1 row event f :
  row ∈ tb_authorizations t → au_status row ≠ "released" → event ∈ ["release"; "adjust"] →
  becomes f "released" au_captured_microcredits → returned (au_tenant_id row) event (record_of row) t t1 →
  credit_step t (t1 <| tb_authorizations ::= map (update_row (au_id row) f) |>).
Proof.
  intros Hrow Hs He Hf [Hau Hp]. eapply (step_release _ _ row event f); try done.
  cbn. by rewrite Hau.
Qed.

Lemma ends_release_open req now a t0 :
  ba_status a ≠ "released" →
  ends (release_open req now a) (λ t, t = t0 ∧ found (rr_tenant_id req) (Some a) t) (evolves t0).
Proof.
  intros Hs. unfold release_open. eapply ends_try.
  { instantiate (1 := λ _ t', found (rr_tenant_id req) (Some a) t0 ∧ returned (rr_tenant_id req) "release" a t0 t').
    destruct (0 <? release_amount a) eqn:Hr.
    - eapply does_mono; [apply does_delta|intros t Ht; exact Ht|]. intros b t' (t & [-> Hf] & Hp). split; [done|].
      by apply (posted_returned _ _ _ _ Hr) in Hp.
    - eapply does_mono; [apply does_balance|intros t Ht; exact Ht|]. intros b t [-> Hf]. split; [done|].
      split; [done|]. by rewrite Hr. }
  intros b. eapply ends_try.
  { apply (does_statement _ _ _ (λ _, credit_step t0)). intros t1 u t2 [Hf Hret] [= _ <-].
    destruct (Hf a eq_refl) as (row & Hrow & -> & Ht). rewrite <- Ht in Hret.
    apply (returned_step t0 t1 row "release" (released_row now)); [done|done|set_solver|apply released_becomes|done]. }
  intros u. apply ends_commit. intros t Hst _. by apply rtc_once.
Qed.

Lemma release_advances req : advances (billing_release req).
Proof.
  unfold billing_release. destruct (is_empty _); [apply advances_reads, reads_ret|].
  apply advances_seq; [apply advances_reads, reads_utc_now|intros now]. apply advances_begin. intros t0.
  eapply ends_try; [apply does_fetch|]. intros [a|]; [|apply ends_return].
  destruct (String.eqb_spec (ba_status a) "released") as [|Hs]; [|by apply ends_release_open].
  eapply ends_try; [apply does_balance|intros b]. apply ends_commit. intros t [-> _]. apply evolves_refl.
Qed.

(** Rows that were read and are still as they were read. *)
Definition pending (rows : list AuthorizationRow) (t : CreditTables) : Prop :=
  (∀ row, row ∈ rows → row ∈ tb_authorizations t ∧ au_status row ≠ "released") ∧ NoDup (au_id <$> rows).

Lemma pending_next row rows f t :
  pending (row :: rows) t → pending rows (t <| tb_authorizations ::= map (update_row (au_id row) f) |>).
Proof.
  intros [Hin [Hno Hnd]%list.NoDup_cons]. split; [|done]. intros other Ho. cbn.
  destruct (Hin other) as [Hau Hs]; [by apply elem_of_cons; right|]. split; [|done].
  apply list_elem_of_fmap. exists other. split; [|done]. unfold update_row.
  rewrite bool_decide_eq_false_2; [done|]. intros He. apply Hno. rewrite <- He. by apply list_elem_of_fmap_2.
Qed.

Lemma pending_same rows t t' :
  tb_authorizations t' = tb_authorizations t → pending rows t → pending rows t'.
Proof. intros Hau [Hin Hnd]. split; [|done]. by rewrite Hau. Qed.

Definition reconciling (t0 : CreditTables) (rows : list AuthorizationRow) (t : CreditTables) : Prop :=
  NoDup (ids t0) → rtc credit_step t0 t ∧ pending rows t.

Lemma does_reconcile_row now stats row rows t0 :
  does (reconcile_row now stats row) (reconciling t0 (row :: rows)) (λ _, reconciling t0 rows).
Proof.
  unfold reconcile_row. change (read_authorization _ row) with (Ok (E := BillingError) (record_of row)).
  eapply does_try; [by apply (does_ok _ _ (λ a t, a = record_of row ∧ reconciling t0 (row :: rows) t))|].
  intros a. cbv beta zeta. eapply does_try.
  { instantiate (1 := λ _ t', ∃ t, (a = record_of row ∧ reconciling t0 (row :: rows) t) ∧
      returned (ba_tenant_id a) "adjust" a t t').
    destruct (0 <? release_amount a) eqn:Hr.
    - eapply does_try; [apply does_delta|]. intros b. apply does_ok. intros t' (t & Ht & Hp). exists t.
      split; [done|]. by apply (posted_returned _ _ _ _ Hr) in Hp.
    - apply does_ok. intros t Ht. exists t. split; [done|]. split; [done|]. by rewrite Hr. }
  intros stats'. eapply does_try.
  { apply (does_statement _ _ _ (λ _, reconciling t0 rows)). intros t1 u t2 (t & [-> Ht] & Hret) [= _ <-] Hnd.
    destruct (Ht Hnd) as [Hrun Hp]. split.
    - eapply rtc_r; [done|]. destruct (proj1 Hp row) as [Hrow Hs]; [apply elem_of_cons; by left|].
      apply (returned_step t t1 row "adjust"); [done|done|set_solver|apply reconciled_becomes|done].
    - eapply pending_next, pending_same; [|done]. apply Hret. }
  intros u. by apply does_ok.
Qed.

Lemma does_reconcile_rows now stats rows t0 :
  does (reconcile_rows now stats rows) (reconciling t0 rows) (λ _, reconciling t0 []).
Proof.
  revert stats. induction rows as [|row rows IH]; intros stats; cbn [reconcile_rows]; [by apply does_ok|].
  eapply does_try; [apply does_reconcile_row|]. intros stats'. apply IH.
Qed.

Lemma stale_pending n now before batch t :
  NoDup (ids t) →
  pending (take batch (sort_by (λ a b, Z.compare (au_updated_at a) (au_updated_at b))
     (pg_order n (List.filter (λ row, is_stale now before row && negb (pg_locked n (au_id row)))
        (tb_authorizations t))))) t.
Proof.
  intros Hnd. set (l := List.filter _ _). set (s := sort_by _ _).
  assert (Hs : s ≡ₚ l) by (unfold s; by rewrite sort_by_perm, pg_order_perm). split.
  - intros row (i & Hrow%list_elem_of_lookup_2 & _)%elem_of_take. rewrite Hs in Hrow.
    apply list_elem_of_In, List.filter_In in Hrow as [Hin Hst]. apply list_elem_of_In in Hin. split; [done|].
    apply andb_prop in Hst as [Hst _]. unfold is_stale in Hst. intros He. rewrite He in Hst. done.
  - assert (Hl : NoDup (au_id <$> l)).
    { unfold l, ids in *. clear -Hnd. induction (tb_authorizations t) as [|x xs IH]; [done|].
      cbn [List.filter]. rewrite fmap_cons in Hnd. apply list.NoDup_cons in Hnd as [Hx Hnd].
      destruct (_ && _); [|by apply IH]. rewrite fmap_cons. apply list.NoDup_cons. split; [|by apply IH].
      intros (y & He & Hy)%list_elem_of_fmap. apply Hx. apply list_elem_of_fmap. exists y. split; [done|].
      apply list_elem_of_In, List.filter_In in Hy as [Hy _]. by apply list_elem_of_In. }
    rewrite fmap_take. rewrite <- Hs in Hl. rewrite <- (take_drop batch (au_id <$> s)) in Hl.
    by apply list.NoDup_app in Hl as (? & _ & _).
Qed.

Lemma reconcile_advances req : advances (billing_reconcile_once req).
Proof.
  unfold billing_reconcile_once. apply advances_seq; [apply advances_reads, reads_utc_now|intros now].
  apply advances_begin. intros t0. apply ends_reads; [apply reads_tick|intros n].
  eapply ends_try; [apply does_select|intros rows]. eapply ends_try.
  { eapply does_mono; [apply (does_reconcile_rows now stats_default rows t0)| |intros a t Ht; exact Ht].
    intros t [-> ->] Hnd. split; [done|]. by apply stale_pending. }
  intros stats. apply ends_commit. intros t Ht Hnd. by apply Ht.
Qed.

(** *** [billing_reconcile_request_fact] *)

(** The query does not select [meta_json], which is then read: an authorization that
    exists is never returned. *)
Lemma fetch_finds_nothing tenant request w :
  wp (fetch_authorization tenant request) (λ r w', st w' = st w ∧
    (r = Ok None → List.find (of_request tenant request) (tb_authorizations (db_committed (st w))) = None) ∧
    ∀ a, r ≠ Ok (Some a)) w.
Proof.
  destruct w as [[c t ab] n]. unfold fetch_authorization, context, on_pool, select_authorization, selects, tick.
  wp_step. wp_step. wp_step. unfold wp at 1. cbn. destruct (pg_fails n); [by wp_go|]. wp_step. wp_step. cbn.
  destruct (pg_commit n); wp_go; cbn; try done.
  destruct (List.find _ _) as [row|] eqn:Hf; cbn [read_optional]; [|done].
  change (read_authorization _ row) with (Err (A := BillingAuthorizationRecord) Driver). done.
Qed.

Lemma fact_reads req : reads (billing_reconcile_request_fact req).
Proof.
  intros w. unfold billing_reconcile_request_fact. destruct (is_empty _); [by wp_step|]. wp_step.
  wp_use (fetch_finds_nothing (rf_tenant_id req) (trim (rf_request_id req)) w) as [[a|]|e] w' (Hst & _ & Hno);
    [by destruct (Hno a)|by wp_step|done].
Qed.

(** *** Credits that come in, and the rest *)

Lemma ends_delta_grant p text {A} (f : Z → A) t0 P :
  cd_event_type p ∈ ["recharge"; "checkin"] → 0 < cd_delta_microcredits p →
  (∀ t, P t → credit_step t0 t ∨ t = t0) →
  ends (balance_after ←? apply_credit_delta_inner p;
        _ ←? context text commit; mret (Ok (f balance_after) : result A BillingError)) P (evolves t0).
Proof.
  intros He Hd HP. eapply ends_try; [apply does_delta|intros b]. apply ends_commit. intros t (t1 & Ht1 & Hp) _.
  assert (Hst : credit_step t1 t).
  { eapply step_grant; [exact He|exact Hd|by eapply posted_posting|by eapply posted_authorizations]. }
  destruct (HP t1 Ht1) as [?| ->]; [|by apply rtc_once]. by eapply rtc_l, rtc_once.
Qed.

Lemma recharge_advances tenant amount reason : advances (admin_recharge_tenant tenant amount reason).
Proof.
  unfold admin_recharge_tenant. destruct (_ <=? 0) eqn:Ha; [apply advances_reads, reads_ret|]. apply Z.leb_gt in Ha.
  apply advances_seq; [apply advances_reads, reads_utc_now|intros now]. apply advances_begin. intros t0.
  apply (ends_delta_grant _ _ (λ b, b)); [set_solver|done|by right].
Qed.

Lemma reward_range tenant date :
  CHECKIN_REWARD_MIN <= deterministic_daily_reward_microcredits tenant date <= CHECKIN_REWARD_MAX.
Proof.
  unfold deterministic_daily_reward_microcredits. set (v := default 0 _).
  pose proof (Z.mod_pos_bound v (CHECKIN_REWARD_MAX - CHECKIN_REWARD_MIN + 1) eq_refl).
  set (m := v `mod` _) in *. change CHECKIN_REWARD_MIN with 50000000 in *. change CHECKIN_REWARD_MAX with 150000000 in *.
  lia.
Qed.

Lemma checkin_advances tenant : advances (daily_checkin tenant).
Proof.
  unfold daily_checkin. apply advances_seq; [apply advances_reads, reads_utc_now|intros now].
  apply advances_begin. intros t0. eapply ends_try; [apply does_select|]. intros [row|]; [apply ends_return|].
  eapply ends_try.
  { apply (does_statement _ _ _ (λ _, credit_step t0)). unfold insert_checkin. intros t u t' [-> _] Hq.
    case_match; [done|]. case_match; simplify_eq. by apply same_credits_step. }
  intros u. pose proof (reward_range tenant (date_naive now)) as Hr.
  apply (ends_delta_grant _ _ (λ b, (date_naive now, deterministic_daily_reward_microcredits tenant (date_naive now), b)));
    [set_solver| |by left].
  cbn [cd_delta_microcredits]. change CHECKIN_REWARD_MIN with 50000000 in Hr. lia.
Qed.

Lemma init_account_step tenant now t u t' : init_credit_account tenant now t = Ok (u, t') → credit_step t t'.
Proof.
  unfold init_credit_account. intros Hq. case_bool_decide as Hacc; [simplify_eq; by apply same_credits_step|].
  case_match; simplify_eq. apply same_balances_step; [|done..]. intros other. unfold balance. cbn.
  destruct (decide (other = tenant)) as [->|Hne]; [|by rewrite lookup_insert_ne].
  rewrite lookup_insert_eq. by apply eq_None_not_Some in Hacc as ->.
Qed.

Lemma create_tenant_advances name status plan expires :
  advances (admin_create_tenant name status plan expires).
Proof.
  unfold admin_create_tenant. destruct (is_empty _); [apply advances_reads, reads_ret|].
  apply advances_seq; [apply advances_reads, reads_utc_now|intros now]. apply advances_begin. intros t0.
  apply ends_reads; [apply reads_new_v4|intros id]. eapply ends_try.
  { apply (does_statement _ _ _ (λ _, credit_step t0)). intros t u t' -> Hq. case_match; simplify_eq.
    by apply same_credits_step. }
  intros u. eapply ends_try.
  { apply (does_statement _ _ _ (λ _, rtc credit_step t0)). intros t u' t' Ht Hq.
    eapply rtc_l; [done|]. by eapply rtc_once, init_account_step. }
  intros u'. apply ends_commit. by intros t Ht _.
Qed.

Lemma advances_pool {A} text (q : Statement A) :
  (∀ t a t', q t = Ok (a, t') → credit_step t t') → advances (context text (on_pool q)).
Proof.
  intros Hq [[c t ab] n]. unfold context, on_pool, tick. wp_step. wp_step. unfold wp at 1. cbn.
  destruct (pg_fails n); [wp_go; apply evolves_refl|]. wp_step. wp_step. cbn.
  destruct (q c) as [[a t']|code] eqn:Hc; [|wp_go; apply evolves_refl].
  assert (evolves c t') by (intros _; by eapply rtc_once, Hq).
  destruct (pg_commit n); wp_go; cbn; [done|apply evolves_refl|done].
Qed.

Lemma get_balance_advances tenant : advances (get_credit_balance tenant).
Proof.
  unfold get_credit_balance. apply advances_try; [apply advances_reads, reads_pool|].
  intros [row|]; [apply advances_reads, reads_ret|].
  apply advances_seq; [apply advances_reads, reads_utc_now|intros now].
  apply advances_try; [|intros u; apply advances_reads, reads_ret]. apply advances_pool. apply init_account_step.
Qed.

Lemma delete_key_advances tenant key : advances (delete_tenant_api_key tenant key).
Proof.
  unfold delete_tenant_api_key. apply advances_try; [|intros []; apply advances_reads, reads_ret].
  apply advances_pool. unfold delete_api_key. intros t a t' Hq.
  destruct (tb_api_keys t !! key) as [row|]; [|simplify_eq; by apply same_credits_step].
  case_bool_decide; simplify_eq; [|by apply same_credits_step]. apply step_other; [done|cbn..].
  - induction (tb_ledger t) as [|x l IH]; constructor; [|done]. unfold forget_key. by case_bool_decide.
  - induction (tb_authorizations t) as [|x l IH]; constructor; [|done]. unfold forget_key. by case_bool_decide.
Qed.
End methods.

(** ** What the steps conserve *)

Definition sumZ {A} (f : A → Z) (l : list A) : Z := foldr (λ x n, f x + n) 0 l.

(** What a request holds or has cost: the reserve while it is open, what was captured
    once it is released. *)
Definition spent (a : AuthorizationRow) : Z :=
  if String.eqb (au_status a) "authorized" then au_reserved_microcredits a
  else if String.eqb (au_status a) "captured"
  then Z.max (au_reserved_microcredits a) (au_captured_microcredits a)
  else au_captured_microcredits a.
Definition is_grant (row : LedgerRow) : bool := bool_decide (le_event_type row ∈ ["recharge"; "checkin"]).

Definition held (t : CreditTables) (tenant : Uuid) : Z :=
  sumZ (λ a, if bool_decide (au_tenant_id a = tenant) then spent a else 0) (tb_authorizations t).
Definition posted_total (t : CreditTables) (tenant : Uuid) : Z :=
  sumZ (λ row, if bool_decide (le_tenant_id row = tenant) then le_delta_microcredits row else 0) (tb_ledger t).
Definition granted (t : CreditTables) (tenant : Uuid) : Z :=
  sumZ (λ row, if bool_decide (le_tenant_id row = tenant) && is_grant row
               then le_delta_microcredits row else 0) (tb_ledger t).

Record row_ok (a : AuthorizationRow) : Prop := {
  row_reserved : 0 < au_reserved_microcredits a <= i64_max;
  row_captured : 0 <= au_captured_microcredits a <= i64_max;
  row_status : au_status a ∈ ["authorized"; "captured"; "released"];
  row_open : au_status a = "authorized" → au_captured_microcredits a = 0;
}.

Record sound (t : CreditTables) : Prop := {
  sound_ids : NoDup (ids t);
  sound_rows : ∀ a, a ∈ tb_authorizations t → row_ok a;
  sound_balance : ∀ tenant, 0 <= balance t tenant <= i64_max;
  sound_conserved : ∀ tenant, granted t tenant <= i64_max →
    balance t tenant + held t tenant = granted t tenant ∧ balance t tenant = posted_total t tenant;
}.

Section sums.
Context {A : Type}.
Implicit Types (f g : A → Z) (l : list A).

Lemma sumZ_app f l k : sumZ f (l ++ k) = sumZ f l + sumZ f k.
Proof. induction l as [|x l IH]; [done|]. unfold sumZ in *. cbn. lia. Qed.
Lemma sumZ_nonneg f l : (∀ x, x ∈ l → 0 <= f x) → 0 <= sumZ f l.
Proof.
  induction l as [|x l IH]; intros Hf; [done|]. cbn. pose proof (Hf x (list_elem_of_here _ _)).
  assert (0 <= sumZ f l); [|unfold sumZ in *; lia]. apply IH. intros y Hy. apply Hf. by apply elem_of_cons; right.
Qed.
Lemma sumZ_elem f l x : (∀ y, y ∈ l → 0 <= f y) → x ∈ l → f x <= sumZ f l.
Proof.
  intros Hf (l1 & l2 & ->)%list_elem_of_split. rewrite sumZ_app. cbn.
  assert (0 <= sumZ f l1) by (apply sumZ_nonneg; intros y Hy; apply Hf; set_solver).
  assert (0 <= sumZ f l2) by (apply sumZ_nonneg; intros y Hy; apply Hf; set_solver).
  unfold sumZ in *. lia.
Qed.
Lemma sumZ_Forall2 f (R : A → A → Prop) l k : (∀ x y, R x y → f y = f x) → Forall2 R l k → sumZ f k = sumZ f l.
Proof. intros Hf. induction 1 as [|x y l k Hxy _ IH]; [done|]. unfold sumZ in *. cbn. rewrite (Hf _ _ Hxy). lia. Qed.
End sums.

Lemma sumZ_update (g : AuthorizationRow → Z) f l a :
  NoDup (au_id <$> l) → a ∈ l → sumZ g (map (update_row (au_id a) f) l) = sumZ g l - g a + g (f a).
Proof.
  induction l as [|x l IH]; [by intros _ ?%not_elem_of_nil|]. rewrite fmap_cons.
  intros [Hx Hnd]%list.NoDup_cons Ha. cbn [map]. unfold sumZ in *. cbn [foldr].
  unfold update_row at 1. case_bool_decide as Hid.
  - assert (x = a) as ->.
    { apply elem_of_cons in Ha as [->|Ha]; [done|]. destruct Hx. rewrite Hid. by apply list_elem_of_fmap_2. }
    assert (Hsame : map (update_row (au_id a) f) l = l); [|rewrite Hsame; lia].
    clear IH Ha. induction l as [|y l IHl]; [done|]. rewrite fmap_cons in Hx, Hnd.
    apply not_elem_of_cons in Hx as [Hy Hx]. apply list.NoDup_cons in Hnd as [_ Hnd]. cbn [map].
    rewrite IHl by done. f_equal. unfold update_row. by rewrite bool_decide_eq_false_2.
  - apply elem_of_cons in Ha as [->|Ha]; [done|]. rewrite IH by done. lia.
Qed.

Lemma row_update (f : AuthorizationRow → AuthorizationRow) id l (Q : AuthorizationRow → Prop) :
  (∀ x, x ∈ l → Q x) → (∀ x, x ∈ l → au_id x = id → Q (f x)) → ∀ x, x ∈ map (update_row id f) l → Q x.
Proof.
  intros Hl Hf x (y & -> & Hy)%list_elem_of_fmap. unfold update_row. case_bool_decide; auto.
Qed.

(** ** Postings *)

Section postings.
Implicit Types (t : CreditTables).

Lemma spent_nonneg a : row_ok a → 0 <= spent a.
Proof. intros [? ? _ _]. unfold spent. destruct (String.eqb _ _); [lia|]. destruct (String.eqb _ _); lia. Qed.

Lemma held_nonneg t tenant : sound t → 0 <= held t tenant.
Proof.
  intros Hs. apply sumZ_nonneg. intros a Ha. case_bool_decide; [|done]. by apply spent_nonneg, (sound_rows t Hs).
Qed.

Lemma saturated_range a b : i64_saturating_add a b <= i64_max.
Proof. by apply clamp_bounds. Qed.

Lemma posting_balance t t' tenant event delta other :
  posting t t' tenant event delta →
  balance t' other = if bool_decide (other = tenant) then i64_saturating_add (balance t tenant) delta
                     else balance t other.
Proof.
  intros (_ & row & now & _ & _ & _ & _ & _ & Ha). unfold balance. rewrite Ha. case_bool_decide as Ho.
  - subst. by rewrite lookup_insert_eq.
  - by rewrite lookup_insert_ne.
Qed.

Lemma posting_range t t' tenant event delta :
  posting t t' tenant event delta → (∀ other, 0 <= balance t other <= i64_max) →
  ∀ other, 0 <= balance t' other <= i64_max.
Proof.
  intros Hp Hb other. rewrite (posting_balance _ _ _ _ _ other Hp). case_bool_decide; [|apply Hb].
  split; [apply Hp|apply saturated_range].
Qed.

(** Without an overflow the balance changes by the amount posted. *)
Lemma posting_exact t t' tenant event delta :
  posting t t' tenant event delta → 0 <= balance t tenant <= i64_max → balance t tenant + delta <= i64_max →
  balance t' tenant = balance t tenant + delta.
Proof.
  intros Hp Hb Hmax. rewrite (posting_balance _ _ _ _ _ tenant Hp), bool_decide_eq_true_2 by done.
  destruct Hp as [Hn _]. unfold i64_saturating_add in *. revert Hn. generalize (balance t tenant + delta), Hmax.
  intros z Hz Hn. apply clamp_id. split; [|done]. apply Z.nlt_ge. intros Hlt. unfold clamp in Hn.
  apply Z.ltb_lt in Hlt. rewrite Hlt in Hn. done.
Qed.

Lemma posting_totals t t' tenant event delta other :
  posting t t' tenant event delta →
  posted_total t' other = posted_total t other + (if bool_decide (tenant = other) then delta else 0) ∧
  granted t' other = granted t other +
    (if bool_decide (tenant = other) && bool_decide (event ∈ ["recharge"; "checkin"]) then delta else 0).
Proof.
  intros (_ & row & now & Ht & He & Hd & _ & Hl & _). unfold posted_total, granted. rewrite Hl, !sumZ_app. cbn.
  unfold is_grant. rewrite Ht, He, Hd. split; [|f_equal]; lia.
Qed.

(** A posting that the authorizations account for keeps the credits in balance. *)
Lemma posting_conserves t t' tenant event delta h :
  sound t → posting t t' tenant event delta →
  (∀ other, held t' other = held t other + (if bool_decide (tenant = other) then h else 0)) →
  h + delta = (if bool_decide (event ∈ ["recharge"; "checkin"]) then delta else 0) →
  (bool_decide (event ∈ ["recharge"; "checkin"]) = true → 0 <= delta) →
  (granted t' tenant <= i64_max → balance t tenant + delta <= i64_max) →
  ∀ other, granted t' other <= i64_max →
    balance t' other + held t' other = granted t' other ∧ balance t' other = posted_total t' other.
Proof.
  intros Hs Hp Hh Hsum Hpos Hmax other Hg. destruct (posting_totals _ _ _ _ _ other Hp) as [Htot Hgr].
  pose proof (sound_conserved t Hs other) as Hc. rewrite Hh, Htot, Hgr in *.
  destruct (bool_decide (tenant = other)) eqn:Ho; cbn [andb] in *.
  - apply bool_decide_eq_true in Ho as ->.
    assert (He : balance t' other = balance t other + delta).
    { eapply posting_exact; [done|apply (sound_balance t Hs)|]. apply Hmax. by rewrite Hgr. }
    rewrite He. destruct (bool_decide (event ∈ _)); [specialize (Hpos eq_refl)|]; destruct Hc; lia.
  - rewrite (posting_balance _ _ _ _ _ other Hp). apply bool_decide_eq_false in Ho.
    rewrite bool_decide_eq_false_2 by done. destruct Hc; lia.
Qed.

Lemma held_update t t' a f :
  sound t → a ∈ tb_authorizations t → tb_authorizations t' = map (update_row (au_id a) f) (tb_authorizations t) →
  au_tenant_id (f a) = au_tenant_id a →
  ∀ other, held t' other = held t other + (if bool_decide (au_tenant_id a = other) then spent (f a) - spent a else 0).
Proof.
  intros Hs Ha Hau Ht other. unfold held. rewrite Hau, sumZ_update; [|apply (sound_ids t Hs)|done].
  rewrite Ht. case_bool_decide; lia.
Qed.

(** What is given back is held. *)
Lemma release_within t a : sound t → a ∈ tb_authorizations t → au_status a ≠ "released" →
  release_of a = spent a - au_captured_microcredits a ∧ 0 <= spent a - au_captured_microcredits a ∧
  spent a - au_captured_microcredits a <= held t (au_tenant_id a).
Proof.
  intros Hs Ha Hst. destruct (sound_rows t Hs a Ha) as [Hr Hc Hin Hopen].
  assert (Hle : spent a <= held t (au_tenant_id a)).
  { assert (Hsum := sumZ_elem (λ b, if bool_decide (au_tenant_id b = au_tenant_id a) then spent b else 0)
      (tb_authorizations t) a). cbv beta in Hsum. rewrite bool_decide_eq_true_2 in Hsum by done. apply Hsum; [|done].
    intros b Hb. case_bool_decide; [|done]. by apply spent_nonneg, (sound_rows t Hs). }
  assert (Hd : release_of a = Z.max (au_reserved_microcredits a - au_captured_microcredits a) 0).
  { unfold release_of, i64_saturating_sub. rewrite clamp_id; [done|].
    assert (i64_min = - i64_max - 1) as -> by done. lia. }
  rewrite Hd. unfold spent in *. rewrite !elem_of_cons in Hin.
  destruct Hin as [Hin|[Hin|[Hin|Hin%not_elem_of_nil]]]; try done; rewrite Hin in *; cbn in *.
  - rewrite (Hopen eq_refl) in *. lia.
  - lia.
Qed.

Lemma becomes_ids f status captured t t' a :
  becomes f status captured → tb_authorizations t' = map (update_row (au_id a) f) (tb_authorizations t) →
  ids t' = ids t.
Proof. intros Hf Hau. unfold ids. rewrite Hau. by eapply update_ids. Qed.

Lemma hold_sound t t' a :
  sound t → credit_step t t' → 0 < au_reserved_microcredits a → au_captured_microcredits a = 0 →
  au_status a = "authorized" →
  posting t t' (au_tenant_id a) "authorize_hold" (- au_reserved_microcredits a) →
  tb_authorizations t' = tb_authorizations t ++ [a] → sound t'.
Proof.
  intros Hs Hst Hr Hc Ha Hp Hau. pose proof (sound_balance t Hs (au_tenant_id a)) as Hb.
  assert (Hmax : au_reserved_microcredits a <= i64_max).
  { destruct Hp as [Hn _]. apply Z.nlt_ge. intros Hlt. unfold i64_saturating_add, clamp in Hn.
    destruct (Z.ltb_spec (balance t (au_tenant_id a) + - au_reserved_microcredits a) i64_min); [done|].
    destruct (Z.ltb_spec i64_max (balance t (au_tenant_id a) + - au_reserved_microcredits a)); lia. }
  split.
  - eapply step_ids; [done|apply Hs].
  - intros x. rewrite Hau. intros [Hx| ->%list_elem_of_singleton]%elem_of_app; [by apply (sound_rows t Hs)|].
    pose proof i64_max_pos. split; [lia|lia|rewrite Ha; set_solver|done].
  - eapply posting_range; [done|apply Hs].
  - eapply (posting_conserves _ _ _ _ _ (au_reserved_microcredits a)); [done|done| | |done|lia].
    + intros other. unfold held. rewrite Hau, sumZ_app. cbn. unfold spent. rewrite Ha. cbn.
      case_bool_decide; lia.
    + rewrite bool_decide_eq_false_2; [lia|]. set_solver.
Qed.

Lemma capture_sound t t' a charged f :
  sound t → credit_step t t' → a ∈ tb_authorizations t → au_status a = "authorized" → 0 <= charged <= i64_max →
  becomes f "captured" (λ _, charged) →
  posting t t' (au_tenant_id a) "capture"
    (- Z.max (i64_saturating_sub charged (au_reserved_microcredits a)) 0) →
  tb_authorizations t' = map (update_row (au_id a) f) (tb_authorizations t) → sound t'.
Proof.
  intros Hs Hst Ha Hau Hch Hf Hp Hup. destruct (sound_rows t Hs a Ha) as [Hr Hc Hin Hopen].
  assert (Hd : i64_saturating_sub charged (au_reserved_microcredits a) = charged - au_reserved_microcredits a).
  { unfold i64_saturating_sub. rewrite clamp_id; [done|]. assert (i64_min = - i64_max - 1) as -> by done. lia. }
  rewrite Hd in Hp. destruct (Hf a) as (_ & Hft & _ & Hfr & Hfc & Hfs). split.
  - eapply step_ids; [done|apply Hs].
  - rewrite Hup. apply row_update; [apply (sound_rows t Hs)|]. intros x Hx _.
    destruct (Hf x) as (_ & _ & _ & Hxr & Hxc & Hxs). destruct (sound_rows t Hs x Hx).
    split; rewrite ?Hxr, ?Hxc, ?Hxs; [done|done|set_solver|done].
  - eapply posting_range; [done|apply Hs].
  - eapply (posting_conserves _ _ _ _ _ (spent (f a) - spent a)); [done|done|by apply held_update| |done|].
    + rewrite bool_decide_eq_false_2 by set_solver. unfold spent. rewrite Hfr, Hfc, Hfs, Hau. cbn. lia.
    + pose proof (sound_balance t Hs (au_tenant_id a)). lia.
Qed.

Lemma release_sound t t' a event f :
  sound t → credit_step t t' → a ∈ tb_authorizations t → au_status a ≠ "released" → event ∈ ["release"; "adjust"] →
  becomes f "released" au_captured_microcredits →
  (if 0 <? release_of a then posting t t' (au_tenant_id a) event (release_of a) else no_posting t t') →
  tb_authorizations t' = map (update_row (au_id a) f) (tb_authorizations t) → sound t'.
Proof.
  intros Hs Hst Ha Hno Hev Hf Hp Hup. destruct (release_within t a Hs Ha Hno) as (Hrel & Hpos & Hle).
  destruct (Hf a) as (_ & Hft & _ & _ & Hfc & Hfs).
  assert (Hspent : spent (f a) - spent a = - release_of a).
  { rewrite Hrel. unfold spent at 1. rewrite Hfs, Hfc. cbn. lia. }
  assert (Hev' : bool_decide (event ∈ ["recharge"; "checkin"]) = false).
  { apply bool_decide_eq_false_2. set_solver. }
  assert (Hrows : ∀ x, x ∈ tb_authorizations t' → row_ok x).
  { rewrite Hup. apply row_update; [apply (sound_rows t Hs)|]. intros x Hx _.
    destruct (Hf x) as (_ & _ & _ & Hxr & Hxc & Hxs). destruct (sound_rows t Hs x Hx).
    split; rewrite ?Hxr, ?Hxc, ?Hxs; [done|done|set_solver|done]. }
  pose proof (held_update t t' a f Hs Ha Hup Hft) as Hheld. rewrite Hspent in Hheld.
  destruct (Z.ltb_spec 0 (release_of a)) as [Hr|Hr].
  - split; [by eapply step_ids; [|apply Hs]|done|eapply posting_range; [done|apply Hs]|].
    eapply (posting_conserves _ _ _ _ _ (- release_of a)); [done|done|done|rewrite Hev'; lia|by rewrite Hev'|].
    intros Hg. destruct (posting_totals _ _ _ _ _ (au_tenant_id a) Hp) as [_ Hgr]. rewrite Hev' in Hgr.
    rewrite andb_false_r in Hgr. destruct (sound_conserved t Hs (au_tenant_id a)); lia.
  - destruct Hp as [Hl Hacc]. assert (release_of a = 0) as Hz by lia.
    split; [by eapply step_ids; [|apply Hs]|done| |].
    + unfold balance. rewrite Hacc. apply (sound_balance t Hs).
    + intros other. rewrite Hheld, Hz.
      assert (granted t' other = granted t other) as -> by (unfold granted; by rewrite Hl).
      assert (posted_total t' other = posted_total t other) as -> by (unfold posted_total; by rewrite Hl).
      assert (balance t' other = balance t other) as -> by (unfold balance; by rewrite Hacc).
      intros Hg. destruct (sound_conserved t Hs other Hg). destruct (bool_decide (au_tenant_id a = other)); lia.
Qed.

Lemma grant_sound t t' tenant event amount :
  sound t → credit_step t t' → event ∈ ["recharge"; "checkin"] → 0 < amount →
  posting t t' tenant event amount → tb_authorizations t' = tb_authorizations t → sound t'.
Proof.
  intros Hs Hst Hev Ham Hp Hau. assert (Hheld : ∀ other, held t' other = held t other) by (intros; unfold held; by rewrite Hau).
  split; [by eapply step_ids; [|apply Hs]|rewrite Hau; apply Hs|eapply posting_range; [done|apply Hs]|].
  eapply (posting_conserves _ _ _ _ _ 0); [done|done| | |lia|].
  - intros other. rewrite Hheld. case_bool_decide; lia.
  - by rewrite bool_decide_eq_true_2.
  - intros Hg. destruct (posting_totals _ _ _ _ _ tenant Hp) as [_ Hgr].
    rewrite !bool_decide_eq_true_2 in Hgr by done. cbn in Hgr. pose proof (held_nonneg t tenant Hs).
    destruct (sound_conserved t Hs tenant); lia.
Qed.

Lemma other_sound t t' :
  sound t → credit_step t t' → (∀ tenant, balance t' tenant = balance t tenant) →
  Forall2 same_entry (tb_ledger t) (tb_ledger t') →
  Forall2 same_authorization (tb_authorizations t) (tb_authorizations t') → sound t'.
Proof.
  intros Hs Hst Hb Hl Hau. split; [by eapply step_ids; [|apply Hs]| |intros; rewrite Hb; apply Hs|].
  - intros x Hx. destruct (list_elem_of_lookup_1 _ _ Hx) as [i Hi].
    destruct (Forall2_lookup_r _ _ _ _ _ Hau Hi) as (y & Hy & _ & _ & _ & Hr & Hc & Hst').
    destruct (sound_rows t Hs y) as [? ? ? ?]; [by eapply list_elem_of_lookup_2|].
    split; rewrite ?Hr, ?Hc, ?Hst'; done.
  - intros tenant. rewrite Hb.
    assert (granted t' tenant = granted t tenant) as ->.
    { eapply sumZ_Forall2; [|done]. intros x y (Ht & He & Hd). unfold is_grant. by rewrite Ht, He, Hd. }
    assert (posted_total t' tenant = posted_total t tenant) as ->.
    { eapply sumZ_Forall2; [|done]. intros x y (Ht & He & Hd). by rewrite Ht, Hd. }
    assert (held t' tenant = held t tenant) as ->.
    { eapply sumZ_Forall2; [|done]. intros x y (_ & Ht & _ & Hr & Hc & Hs'). unfold spent. by rewrite Ht, Hr, Hc, Hs'. }
    apply Hs.
Qed.

Lemma step_sound t t' : credit_step t t' → sound t → sound t'.
Proof.
  intros Hst Hs. destruct Hst as [a Hr Hc Ha Hi Hk Hp Hau|a ch f Ha Hau Hch Hf Hp Hup|a e f Ha Hno He Hf Hp Hup|tn e am He Ham Hp Hau|Hb Hl Hau].
  - eapply hold_sound; [done|by eapply step_hold|done..].
  - eapply capture_sound; [done|by eapply step_capture|done..].
  - eapply release_sound; [done|by eapply step_release|done..].
  - eapply grant_sound; [done|by eapply step_grant|done..].
  - eapply other_sound; [done|by eapply step_other|done..].
Qed.
End postings.
