(* ===== verification/CreditTheorems.v ===== *)
(** * The credits of tenants: runs, results and witnesses

    The billing methods as one type of operation and the runs of a control plane; the
    theorems about every run; and runs against a server that works, which apply the
    theorems and show what the methods do that they do not mean to. *)
From S2P Require Import Prelude RustStr CoreModel RoutingCache RoutingCacheFacts Json StoreDefs Secrets Instances Cost CreditTables CreditPricing CreditLedger CreditLedgerFacts.

#[local] Open Scope string_scope.
#[local] Open Scope list_scope.
#[local] Open Scope Z_scope.

(** [OpAdminister] stands for the methods that administer tenants, API keys and prices
    ([admin_patch_tenant], [create_tenant_api_key], the methods on prices, rules and
    groups): they write those tables, in any way, and none of the others. *)
Inductive CreditOp :=
  | OpPrecheck (tenant_id : Uuid)
  | OpPricing (model : string) (api_key_id : option Uuid) (service_tier : option string)
  | OpAuthorize (req : BillingAuthorizeRequest)
  | OpCapture (req : BillingCaptureRequest)
  | OpRelease (req : BillingReleaseRequest)
  | OpReconcileOnce (req : BillingReconcileRequest)
  | OpReconcileFact (req : BillingReconcileFactRequest)
  | OpCreateTenant (name : string) (status plan : option string) (expires_at : option DateTime)
  | OpRecharge (tenant_id : Uuid) (amount : Z) (reason : option string)
  | OpCheckin (tenant_id : Uuid)
  | OpBalance (tenant_id : Uuid)
  | OpDeleteKey (tenant_id key_id : Uuid)
  | OpAdminister (tenants : gmap Uuid TenantRow) (keys : gmap Uuid ApiKeyRow) (pricing : PricingTables).

Section runs.
Context `{PostgresServer, Environment, UuidText, WallClock, UuidSource, DateTimeText, Digests}.
Implicit Types (w : Timed Database).

Definition run_credit_op (op : CreditOp) : DB unit :=
  match op with
  | OpPrecheck tenant_id => _ ← billing_precheck tenant_id; mret tt
  | OpPricing model api_key_id service_tier => _ ← billing_pricing model api_key_id service_tier; mret tt
  | OpAuthorize req => _ ← billing_authorize req; mret tt
  | OpCapture req => _ ← billing_capture req; mret tt
  | OpRelease req => _ ← billing_release req; mret tt
  | OpReconcileOnce req => _ ← billing_reconcile_once req; mret tt
  | OpReconcileFact req => _ ← billing_reconcile_request_fact req; mret tt
  | OpCreateTenant name status plan expires_at => _ ← admin_create_tenant name status plan expires_at; mret tt
  | OpRecharge tenant_id amount reason => _ ← admin_recharge_tenant tenant_id amount reason; mret tt
  | OpCheckin tenant_id => _ ← daily_checkin tenant_id; mret tt
  | OpBalance tenant_id => _ ← get_credit_balance tenant_id; mret tt
  | OpDeleteKey tenant_id key_id => _ ← delete_tenant_api_key tenant_id key_id; mret tt
  | OpAdminister tenants keys pricing =>
      _ ← on_pool (updates (λ t, t <| tb_tenants := tenants |> <| tb_api_keys := keys |> <| tb_pricing := pricing |>));
      mret tt
  end.

(** One operation, however the server treats it. *)
Definition credit_run (w w' : Timed Database) : Prop := ∃ op, (run_credit_op op w).2 = w'.

(** A database without credits. *)
Definition no_credits (t : CreditTables) : Prop :=
  tb_accounts t = ∅ ∧ tb_ledger t = [] ∧ tb_authorizations t = [].

Lemma advances_then {A} (m : DB A) : advances m → advances (_ ← m; mret tt).
Proof. intros Hm. apply advances_seq; [done|]. intros a. apply advances_reads, reads_ret. Qed.

Lemma precheck_reads tenant : reads (billing_precheck tenant).
Proof. unfold billing_precheck. repeat reads_step. Qed.
Lemma base_pricing_reads model tier : reads (resolve_base_model_pricing model tier).
Proof. unfold resolve_base_model_pricing. repeat (apply reads_override || reads_step). Qed.
Lemma pricing_reads model key tier : reads (billing_pricing model key tier).
Proof.
  unfold billing_pricing, resolve_api_key_group_pricing, fetch_api_key_group_for_api_key,
    fetch_api_key_group_policy_for_model.
  repeat (apply base_pricing_reads || reads_step).
Qed.

Lemma op_advances op : advances (run_credit_op op).
Proof.
  destruct op; cbn [run_credit_op].
  1,2: apply advances_then, advances_reads. 1: apply precheck_reads. 1: apply pricing_reads.
  1: apply advances_then, authorize_advances. 1: apply advances_then, capture_advances.
  1: apply advances_then, release_advances. 1: apply advances_then, reconcile_advances.
  1: apply advances_then, advances_reads, fact_reads. 1: apply advances_then, create_tenant_advances.
  1: apply advances_then, recharge_advances. 1: apply advances_then, checkin_advances.
  1: apply advances_then, get_balance_advances. 1: apply advances_then, delete_key_advances.
  intros w. wp_step. pose proof (advances_pool "" (updates (λ t, t <| tb_tenants := tenants |>
    <| tb_api_keys := keys |> <| tb_pricing := pricing |>))) as Hp. unfold context, with_context in Hp.
  assert (Ha : advances (on_pool (updates (λ t, t <| tb_tenants := tenants |> <| tb_api_keys := keys |>
    <| tb_pricing := pricing |>)))).
  { intros v. specialize (Hp ltac:(intros t a t' [= _ <-]; by apply same_credits_step) v).
    unfold wp, mbind, st_bind in *. by destruct (on_pool _ v). }
  wp_use (Ha w) as a w' Hw'. by wp_step.
Qed.

Lemma runs_steps w w' :
  rtc credit_run w w' → NoDup (ids (db_committed (st w))) →
  rtc credit_step (db_committed (st w)) (db_committed (st w')).
Proof.
  induction 1 as [w|w1 w2 w3 [op Hop] _ IH]; intros Hnd; [done|].
  assert (Hstep : rtc credit_step (db_committed (st w1)) (db_committed (st w2))).
  { eapply (wp_run _ _ w1 _ w2 (op_advances op w1)); [|done]. rewrite <- Hop. by destruct (run_credit_op op w1) as [[] ?]. }
  etrans; [done|]. apply IH. by eapply steps_ids.
Qed.

Lemma empty_sound t : no_credits t → sound t.
Proof.
  intros (Ha & Hl & Hau). split.
  - unfold ids. rewrite Hau. constructor.
  - rewrite Hau. by intros a ?%not_elem_of_nil.
  - intros tenant. unfold balance. rewrite Ha, lookup_empty. done.
  - intros tenant _. unfold balance, held, granted, posted_total. by rewrite Ha, Hl, Hau, lookup_empty.
Qed.

Lemma steps_sound t t' : rtc credit_step t t' → sound t → sound t'.
Proof. induction 1; eauto using step_sound. Qed.

Lemma run_sound w0 w : no_credits (db_committed (st w0)) → rtc credit_run w0 w → sound (db_committed (st w)).
Proof.
  intros Hempty%empty_sound Hrun. eapply steps_sound; [|done]. apply runs_steps; [done|apply Hempty].
Qed.

(** C4: in every run of the billing methods, whichever statements fail, whichever
    commits are refused and whichever are made without an answer, the balance of a
    tenant is never negative; it is what was granted to it by recharges and check-ins
    less what its requests hold (the reserve) or have cost (what was captured); and it
    is the sum of the tenant's rows in the ledger. That holds for every tenant whose
    grants fit in 64 bits, the range in which balances do not saturate. *)
Theorem credits_are_conserved w0 w tenant :
  no_credits (db_committed (st w0)) → rtc credit_run w0 w →
  granted (db_committed (st w)) tenant <= i64_max →
  let t := db_committed (st w) in
  0 <= balance t tenant ∧ balance t tenant = granted t tenant - held t tenant ∧
  balance t tenant = posted_total t tenant.
Proof.
  intros Hempty Hrun Hg. pose proof (run_sound w0 w Hempty Hrun) as Hs.
  destruct (sound_conserved _ Hs tenant Hg). pose proof (sound_balance _ Hs tenant). cbv zeta. lia.
Qed.

(** How far an authorization has come. *)
Definition rank (status : string) : Z :=
  if String.eqb status "authorized" then 0 else if String.eqb status "captured" then 1 else 2.

(** The same authorization, later: its reserve is the same, it has not gone back, and
    once it is captured or released its cost is fixed. *)
Definition later (a b : AuthorizationRow) : Prop :=
  au_id b = au_id a ∧ au_tenant_id b = au_tenant_id a ∧ au_request_id b = au_request_id a ∧
  au_reserved_microcredits b = au_reserved_microcredits a ∧
  rank (au_status a) <= rank (au_status b) ∧
  (au_status a ≠ "authorized" → au_captured_microcredits b = au_captured_microcredits a).

Lemma later_refl a : later a a.
Proof. done. Qed.
Lemma later_trans a b c : later a b → later b c → later a c.
Proof.
  intros (? & ? & ? & ? & Hr & Hc) (? & ? & ? & ? & Hr' & Hc'). split_and!; try congruence; [lia|].
  intros Ha. rewrite Hc', Hc; [done|done|]. intros Hb. rewrite Hb in Hr. unfold rank in Hr. cbn in Hr.
  destruct (String.eqb_spec (au_status a) "authorized"); [done|]. destruct (String.eqb _ _); lia.
Qed.
Lemma rank_le status : rank status <= 2.
Proof. unfold rank. repeat destruct (String.eqb _ _); lia. Qed.

Lemma same_row l a b : NoDup (au_id <$> l) → a ∈ l → b ∈ l → au_id a = au_id b → a = b.
Proof.
  intros Hnd Ha Hb He. apply list_elem_of_lookup in Ha as [i Hi]. apply list_elem_of_lookup in Hb as [j Hj].
  assert (i = j) as ->; [|congruence]. eapply (NoDup_lookup _ _ _ (au_id a) Hnd); rewrite list_lookup_fmap;
    [rewrite Hi|rewrite Hj]; cbn; congruence.
Qed.

Lemma step_later t t' a :
  credit_step t t' → sound t → a ∈ tb_authorizations t → ∃ b, b ∈ tb_authorizations t' ∧ later a b.
Proof.
  intros Hst Hs Ha.
  destruct Hst as [x Hr Hc Hx Hi Hk Hp Hau|x ch f Hx Hxs Hch Hf Hp Hup|x e f Hx Hno He Hf Hp Hup|tn e am He Ham Hp Hau|Hb Hl Hau].
  - exists a. split; [rewrite Hau; set_solver|apply later_refl].
  - exists (update_row (au_id x) f a). split; [rewrite Hup; by apply list_elem_of_fmap_2|].
    unfold update_row. case_bool_decide as Hid; [|apply later_refl].
    assert (a = x) as -> by (by eapply same_row; [apply (sound_ids t Hs)|..]).
    destruct (Hf x) as (? & ? & ? & ? & ? & Hfs). split_and!; try done. by rewrite Hfs, Hxs.
  - exists (update_row (au_id x) f a). split; [rewrite Hup; by apply list_elem_of_fmap_2|].
    unfold update_row. case_bool_decide as Hid; [|apply later_refl].
    destruct (Hf a) as (? & ? & ? & ? & ? & Hfs). split_and!; try done. rewrite Hfs. apply rank_le.
  - exists a. split; [by rewrite Hau|apply later_refl].
  - apply list_elem_of_lookup in Ha as [i Hi]. destruct (Forall2_lookup_l _ _ _ _ _ Hau Hi) as (b & Hb' & Hsame).
    exists b. split; [by eapply list_elem_of_lookup_2|]. destruct Hsame as (? & ? & ? & ? & ? & Hst).
    split_and!; try done. rewrite Hst. done.
Qed.

Lemma steps_later t t' a :
  rtc credit_step t t' → sound t → a ∈ tb_authorizations t → ∃ b, b ∈ tb_authorizations t' ∧ later a b.
Proof.
  intros Hrun. revert a. induction Hrun as [t|t1 t2 t3 Hst _ IH]; intros a Hs Ha; [by exists a|].
  destruct (step_later _ _ _ Hst Hs Ha) as (b & Hb & Hab).
  destruct (IH b) as (c & Hc & Hbc); [by eapply step_sound|done|]. exists c. split; [done|]. by eapply later_trans.
Qed.

(** C5: an authorization is never lost and never goes back: at every later point of the
    run, after any calls that were repeated, came in another order or failed half way,
    there is the same authorization with the same reserve, as far as it was or further
    on the way from authorized over captured to released, and what it costs is the
    amount of its first capture. *)
Theorem authorizations_move_forward w0 w w' a :
  no_credits (db_committed (st w0)) → rtc credit_run w0 w → rtc credit_run w w' →
  a ∈ tb_authorizations (db_committed (st w)) →
  ∃ b, b ∈ tb_authorizations (db_committed (st w')) ∧ later a b.
Proof.
  intros Hempty Hrun Hrun' Ha. pose proof (run_sound w0 w Hempty Hrun) as Hs.
  eapply steps_later; [|done|done]. apply runs_steps; [done|apply Hs].
Qed.

(** The reconciliation of the request log does nothing for a request that has an
    authorization: it fails, and leaves the database as it is. *)
Lemma request_fact_never_settles req w row :
  List.find (of_request (rf_tenant_id req) (trim (rf_request_id req)))
    (tb_authorizations (db_committed (st w))) = Some row →
  is_empty (trim (rf_request_id req)) = false →
  wp (billing_reconcile_request_fact req) (λ r w', is_err r = true ∧ st w' = st w) w.
Proof.
  intros Hrow Hne. unfold billing_reconcile_request_fact. rewrite Hne. wp_step.
  wp_use (fetch_finds_nothing (rf_tenant_id req) (trim (rf_request_id req)) w) as [[a|]|e] w' (Hst & Hnone & Hno).
  - by destruct (Hno a).
  - by rewrite (Hnone eq_refl) in Hrow.
  - done.
Qed.
End runs.

(** ** Runs *)

Module Runs.
#[local] Instance plain_time : DateTimeText := {| time_to_string _ := "now"; date_to_string _ := "today" |}.

(** A server that makes every commit but loses the answer to the commit at tick [n]. *)
Definition losing (n : nat) : PostgresServer :=
  {| pg_fails _ := false; pg_commit k := if Nat.eqb k n then CommitUnreported else CommitDone;
     pg_locked _ _ := false; pg_order _ _ l := l; pg_order_perm _ _ _ := Permutation_refl _ |}.

(** One credit per token, for the model [m]. *)
Definition prices : PricingTables :=
  mkPricingTables {[("m", "default") := mkPricingOverrideRow 1000000 1000000 1000000 true]} ∅ [] ∅ ∅.
Definition tenants : gmap Uuid TenantRow := {[1%N := mkTenantRow "t" "active" "credit" None 0 0]}.
Definition no_tables : CreditTables := mkCreditTables ∅ ∅ ∅ [] [] ∅ ∅ (mkPricingTables ∅ ∅ [] ∅ ∅).
Definition start : Timed Database := mkTimed (mkDatabase no_tables no_tables false) 0.

Definition hold (reserved : Z) : BillingAuthorizeRequest :=
  mkBillingAuthorizeRequest 1 None "r" None "m" None None None reserved None false.
Definition usage (input output : Z) : BillingCaptureRequest :=
  mkBillingCaptureRequest 1 None "r" "m" None None None input 0 output 0 false.
Definition release : BillingReleaseRequest :=
  mkBillingReleaseRequest 1 "r" false None None None None None None None None.

(** The run of a list of operations. *)
Fixpoint run_ops `{PostgresServer} (ops : list CreditOp) (w : Timed Database) : Timed Database :=
  match ops with [] => w | op :: ops => run_ops ops (run_credit_op op w).2 end.
Lemma run_ops_runs `{PostgresServer} ops w : rtc credit_run w (run_ops ops w).
Proof. revert w. induction ops as [|op ops IH]; intros w; [done|]. eapply rtc_l; [by exists op|]. apply IH. Qed.

Definition prepared : list CreditOp := [OpAdminister tenants ∅ prices; OpRecharge 1 1000 None].
Definition state_of (w : Timed Database) : Z * list (string * Z) :=
  (balance (db_committed (st w)) 1,
   (λ a, (au_status a, au_captured_microcredits a)) <$> tb_authorizations (db_committed (st w))).

(** The answer to the first capture is lost, the capture is repeated with other
    numbers, and the hold is released: the request costs what was captured first. *)
Definition repeated : list CreditOp :=
  [OpAuthorize (hold 300); OpCapture (usage 100 20); OpCapture (usage 500 20); OpRelease release].

#[local] Instance works : PostgresServer := losing 32.

Lemma empty_start : no_credits (db_committed (st start)).
Proof. done. Qed.

Lemma credits_are_conserved_witness :
  let w := run_ops (prepared ++ repeated) start in
  is_err (billing_capture (usage 100 20) (run_ops (prepared ++ [OpAuthorize (hold 300)]) start)).1 = true ∧
  state_of w = (880, [("released", 120)]) ∧
  0 <= balance (db_committed (st w)) 1 ∧
  balance (db_committed (st w)) 1 = granted (db_committed (st w)) 1 - held (db_committed (st w)) 1 ∧
  balance (db_committed (st w)) 1 = posted_total (db_committed (st w)) 1.
Proof.
  split; [vm_compute; reflexivity|]. split; [vm_compute; reflexivity|].
  apply (credits_are_conserved start).
  - exact empty_start.
  - apply run_ops_runs.
  - vm_compute. discriminate.
Defined.

(** The authorization before the second capture, and the one at the end. *)
Definition captured_once : Timed Database := run_ops (prepared ++ take 2 repeated) start.
Definition first_row : AuthorizationRow :=
  match tb_authorizations (db_committed (st captured_once)) with
  | a :: _ => a
  | [] => mkAuthorizationRow 0 0 None "" None 0 0 "" 0 VNull 0 0
  end.

Lemma authorizations_move_forward_witness :
  au_status first_row = "captured" ∧ au_captured_microcredits first_row = 120 ∧
  ∃ b, b ∈ tb_authorizations (db_committed (st (run_ops (drop 2 repeated) captured_once))) ∧ later first_row b.
Proof.
  split; [vm_compute; reflexivity|]. split; [vm_compute; reflexivity|].
  apply (authorizations_move_forward start captured_once).
  - exact empty_start.
  - apply run_ops_runs.
  - apply run_ops_runs.
  - apply list_elem_of_lookup_2 with 0%nat. vm_compute. reflexivity.
Defined.

(** A request that costs more than the reserve and the balance together cannot be
    captured, and the release that follows gives the whole reserve back: the tenant
    pays nothing for it. *)
Example overdrawn_request_is_free :
  let w := run_ops (prepared ++ [OpAuthorize (hold 300)]) start in
  let '(r, w') := billing_capture (usage 2000 20) w in
  r = Err (Message "insufficient credits") ∧
  state_of (run_ops [OpRelease release] w') = (1000, [("released", 0)]).
Proof. vm_compute. done. Qed.

(** The request log says 150 tokens for a request that was captured with 120 and not
    released. The adjustment takes the difference from the balance although the
    reserve still covers it; after the release the request has cost 180. *)
Example adjusted_capture_costs_too_much :
  let w := run_ops (prepared ++ [OpAuthorize (hold 300); OpCapture (usage 100 20)]) start in
  let '(r, w') := reconcile_adjust_captured_amount 1 "r" "m" 130 0 20 0 None None w in
  r = Ok true ∧ state_of (run_ops [OpRelease release] w') = (820, [("released", 150)]).
Proof. vm_compute. done. Qed.

(** Two rules for long contexts, the higher threshold first: the request reaches the
    lower one and is priced by the other. *)
Definition rule (id : Uuid) (threshold ppm : Z) : BillingPricingRuleRecord :=
  mkBillingPricingRuleRecord id "m*" "any" "request" (Some threshold) ppm ppm ppm.
Example priced_by_a_rule_not_reached :
  let base := mkBillingPricingResolved 100 10 1000 "base" in
  let decision := resolve_effective_pricing_for_band base [rule 7 400000 3000000; rule 8 200000 2000000] "m1"
                    KindResponse None (Some 250000) PhaseCapture in
  rule_reached (Some 250000) PhaseCapture (rule 7 400000 3000000) = false ∧
  pd_matched_rule_id decision = Some 7%N ∧ bp_input_price_microcredits (pd_pricing decision) = 300.
Proof. vm_compute. done. Qed.

(** A model of the catalog whose prices are not known is refused, although there are
    default prices for models without a price. *)
Module Defaults.
#[local] Instance priced_env : Environment :=
  {| env_var name := if contains name "PRICE_MICROCREDITS" then Some "5" else None |}.
Definition unknown_prices : PricingTables :=
  mkPricingTables ∅ {["m" := mkCatalogRow None None None]} [] ∅ ∅.
Definition with_catalog : Timed Database := (run_credit_op (OpAdminister tenants ∅ unknown_prices) start).2.
Example unpriced_catalog_model_is_refused :
  (billing_pricing "m" None None with_catalog).1 = Err Driver ∧
  is_ok (billing_pricing "n" None None with_catalog).1 = true.
Proof. vm_compute. done. Qed.
End Defaults.
End Runs.
